(* ===== verification/_CoqProject ===== *)
-Q . S2P
Prelude.v
Errand.v
BlockTypes.v
Reader.v
Gpt.v
Mbr.v
Utf.v
PartReader.v
PartDevice.v
DeviceName.v
DeviceMgr.v
Scheduler.v
VirtioClient.v
GccLib.v
L4Round.v
RegionList.v
Reservations.v
MmAlloc.v
MemcpyAligned.v
Paging.v
DriverMem.v
Virtqueue.v
RequestProc.v
VirtioDev.v
VirtioNet.v
MacTable.v
Vlan.v
NetRequest.v
SwitchPort.v
VirtioPort.v
Switch.v
SwitchWorld.v
Klog.v
Syslogd.v
TmpfsFile.v
TmpfsDir.v
Dirent.v
TmpfsDents.v
Devfs.v
TaskTable.v
Spawnd.v
Shell.v
Authd.v
Login.v
Ext4File.v
Ext4Ns.v
Procfs.v
LoadElf.v
BootKernel.v
Mqtt.v
Netd.v
NetdNic.v
Telnet.v
RangeRing.v
RamTracker.v
PageAlloc.v
LegacyPic.v
