(* ===== verification/Prelude.v ===== *)
(** * TuringOS: a verification library

    TuringOS is an L4Re system: a boot loader, a set of user-level servers and
    drivers, and vendored libraries.  This library models the parts that carry
    the system's own logic in C and C++ headers, as executable definitions, and
    proves what makes them correct.

    ** The program and its parts

    - [src/pkg/libblock-device] is the library every storage server is built on.
      A server creates devices and hands them to [Device_mgr], which scans each
      disk for partitions ([Gpt_reader], [Mbr_reader] and their labelling
      variants), makes a [Partitioned_device] of each, and pairs clients with
      devices.  A client is a [Virtio_client]; its requests are started, issued
      and finished under a scheduler ([Rr_scheduler]) that all clients of the
      server share.  Delayed work is an [Errand].
    - [src/pkg/bootstrap] is the boot loader.  On amd64 the main function of a 32-bit
      stage ([boot_kernel.c]) reserves memory ([support.c]), allocates memory for the
      64-bit stage ([mm_alloc.c]), loads and relocates it ([load_elf.c]), builds the
      first page tables ([paging.c], [boot_cpu.c]) and jumps; the main
      stage keeps lists of memory regions ([region.h], [region.cc]) from which it
      places kernel, sigma0, moe and the modules.  [gcc_lib.c] and
      [memcpy_aligned.c] support both.
    - [src/pkg/l4virtio] is the device side of virtio: a driver in another task
      registers memory, sets up virtqueues in it, negotiates features through a
      shared configuration page and sends requests as chains of descriptors.
      Nothing of what the driver writes can be trusted.
    - [src/pkg/virtio-net-switch] is an Ethernet switch on top of it.  Each port
      is a virtio network device or a network card; the switch takes packets from
      the transmit queue of a port, learns the sender's address, and copies the
      packet into the receive queues of the ports it is meant for, adding or
      removing VLAN tags on the way.
    - TuringOS' own services: [src/pkg/klog] is linked into every process and keeps
      its last messages in a ring, which it prints, appends to a file or sends to
      the daemon [src/pkg/syslogd]; [src/pkg/tmpfs] is the RAM file system mounted
      at [/tmp] of a process, [src/pkg/devfs] the directory of devices at [/dev],
      [src/pkg/procfs] the generated files at [/proc], [/sys] and [/svc].
    - Processes and users: [src/pkg/spawn] is the server that starts programs, with a
      table of tasks and a second thread that notices their end;
      [src/pkg/native_shell] asks for a login, which [src/pkg/authd] decides, parses
      lines and sends the words to the process server.
    - [src/pkg/filesystem/ext4] is a file server around the library lwext4 and the
      client library through which a process uses it.
    - [src/pkg/tinit] is the first task of the system.  It keeps the free memory in
      linked nodes and gives it to the applications it starts.
    - [src/pkg/uvmm] is a virtual machine monitor; of its devices the legacy interrupt
      controller is modelled.
    - Network: [src/pkg/netd] drives the network card and gives other programs
      connections of the TCP/IP stack lwIP by handles; the tools of
      [src/pkg/net-cluster] use it or run inside of it.

    ** Files

    Shared:
    - [Prelude]: machine integers ([uwrap], [swrap], [+[w]]), little-endian
      memory, C strings and printf conversions, error codes ([l4_ret]), the
      outcomes of a computation ([run]: returned, raised, asserted, panicked,
      access out of bounds, iteration bound reached) and its state-passing form
      ([prog]), tactics and hint databases.
    - [L4Round]: the interface of the rounding functions of the L4 headers.

    Block devices ([src/pkg/libblock-device/include]):
    - [Errand] ([errand.h]): the repeated task polls until it succeeds or its
      retries are used up.
    - [BlockTypes] ([types.h], [device.h]): blocks, partition records, the class
      [Device] of operations a driver provides.
    - [Reader] ([partition.h], [inout_memory.h]): sector reads of the partition
      readers, with a rule set for "this read ends".
    - [Gpt], [Mbr], [Utf], [PartReader] ([partition.h], [gpt.h], [mbr.h]): the
      table readers, label decoding and the reader that combines them.
    - [PartDevice] ([part_device.h]): the partition as a device.
    - [DeviceName], [DeviceMgr] ([block_device_mgr.h]): names and the tree of
      connections.
    - [Scheduler] ([scheduler.h]): weighted round robin over the clients.
    - [VirtioClient] ([virtio_client.h]): the life of a request.

    Boot loader ([src/pkg/bootstrap/server/src]):
    - [GccLib] ([gcc_lib.c]), [MemcpyAligned] ([memcpy_aligned.c]);
    - [RegionList] ([region.h], [region.cc]);
    - [Reservations] ([ARCH-amd64/boot32/support.c]), [MmAlloc]
      ([boot32/mm_alloc.c]);
    - [Paging] ([ARCH-amd64/paging.c], [boot32/boot_cpu.c]);
    - [LoadElf] ([boot32/load_elf.c]): loading and relocation of an ELF image;
    - [BootKernel] ([boot32/boot_kernel.c]): the main function, which composes them.

    Virtio devices ([src/pkg/l4virtio/include]):
    - [DriverMem] ([server/l4virtio]): regions of driver memory and the
      translation of driver addresses.
    - [Virtqueue] ([virtqueue], [server/virtio]): layout and rings of a queue,
      both sides; an abstract queue they implement.
    - [RequestProc] ([server/virtio]): data buffers and the walk along a chain of
      descriptors.
    - [VirtioDev] ([server/l4virtio], [virtio.h], [l4virtio]): configuration page,
      status protocol, commands and queue set-up of a device.

    Network switch ([src/pkg/virtio-net-switch/server/switch]):
    - [VirtioNet] ([virtio_net.h]): the network device, its queues and the
      batching of notifications.
    - [MacTable] ([mac_addr.h], [mac_table.h]): addresses and the learning table;
      a finite map it implements.
    - [Vlan] ([vlan.h], [virtio_net_buffer.h]): copying with a VLAN tag added or
      removed.
    - [NetRequest] ([request.h], [request_l4virtio.h], [request_ixl.h]): packets of
      both kinds of ports.
    - [SwitchPort] ([port.h], [port_ixl.h]): settings and VLAN filter of a port,
      delivery to a network card.
    - [VirtioPort] ([port_l4virtio.h]): delivery to a virtio driver.
    - [Switch] ([switch.h], [switch.cc], [filter.h], [filter.cc]): the switch,
      against the class [Switch_env] of what a port promises.
    - [SwitchWorld] ([request_l4virtio.h], [port_l4virtio.h], [main.cc]): the
      transmit side of virtio ports and the instance of [Switch_env] they make.

    Services:
    - [Klog] ([src/pkg/klog/lib/klog.cc], [klog.h]): the ring and its file, for one
      thread and for threads that interleave between the critical sections.
    - [Syslogd] ([src/pkg/syslogd/server/src/main.cc]): the daemon, and a message on
      its way from a process to the daemon's file.
    - [TmpfsFile], [TmpfsDir], [TmpfsDents] ([src/pkg/tmpfs/src/tmpfs.cc]): files,
      directories and paths, and listings of the RAM file system.
    - [Dirent]: the records of a listing, with the reader a caller has for them.
    - [Devfs] ([src/pkg/devfs/lib/devfs.cc]): the device registry and its listing.
    - [Procfs] ([src/pkg/procfs/src/procfs.cc]): generated files and their directories.

    Processes and users:
    - [TaskTable], [Spawnd] ([src/pkg/spawn/server/src/task_table.cc], [spawnd.cc]):
      the table of tasks; the server and its reaper thread as a step relation between
      critical sections, and the table of processes they implement.
    - [Shell] ([src/pkg/native_shell/server/src/main.cc], [commands.cc]): command lines
      and the job table.
    - [Authd] ([src/pkg/authd/server/main.cc]): credentials and their check.
    - [Login] ([src/pkg/native_shell/server/src/main.cc]): keyboard ring and login.

    Ext4 ([src/pkg/filesystem/ext4]):
    - [Ext4File] ([server/src/ext4_file_svr.cc], [client/src/ext4_vfs.cc]): open files,
      on both sides of the shared buffer.
    - [Ext4Ns] ([server/src/ext4_ns.cc]): names, listings and the objects for directories.

    Network:
    - [Mqtt] ([src/pkg/net-cluster/tools/mqtt/main.cc]): the MQTT client, with its packets.
    - [Netd] ([src/pkg/netd/server/main.cc], [netd/include/net_ipc.h]): handles of the
      network server, the checksum of echo requests, and the MQTT client on the server.
    - [NetdNic] ([src/pkg/netd/server/main.cc]): the rings of the network card, with the
      card as the other thread.
    - [Telnet] ([src/pkg/net-cluster/protocol/telnet/telnetd.cc]): a telnet session.

    Virtual machines:
    - [LegacyPic] ([src/pkg/uvmm/server/src/ARCH-amd64/legacy_pic.h], [msi_arch.h]): the
      two chips of the interrupt controller, and the controller with priorities they
      implement.

    Start-up task ([src/pkg/tinit/server/src]):
    - [RangeRing] ([page_alloc_sigma0.cc], [stubs.cc]): doubly linked rings of nodes in
      one memory, and the heap the nodes come from.
    - [RamTracker] ([page_alloc_sigma0.cc]): [Ram_tracker] on these nodes, and the list
      of ranges it implements.
    - [PageAlloc] ([page_alloc_sigma0.cc]): [Page_alloc], from the memory descriptors of
      the kernel to the memory of the applications.

    ** Correspondence

    A definition has the name of the function it translates where Rocq allows it
    ([rl_add] is [Region_list::add], [part_inout_data] is
    [Partitioned_device::inout_data]).  Members that change are fields of a
    record that the operation returns anew; objects reached from several places
    (the scheduler's clients, a parent disk, the memory of page tables) are kept
    once in a shared state.  Unsigned arithmetic wraps at the width of the C
    type; where the width depends on the machine it is a parameter or the file
    says which machine is meant.  [assert], [panic], exceptions and accesses
    outside of an object are distinct outcomes, so that a theorem that states
    [Ret] excludes them.

    Code outside of [src] is an argument: the device behind a partition or a
    client (class [Device], with [Sector_store] for one that stores data), the
    clients of the scheduler, [cxx::String::rfind] ([Rfind]), the multiboot
    accessors ([Mb_mmap]), the rounding functions ([L4_round]).  Interfaces
    inside the program are classes too: the table allocator of [Paging]
    ([Ptab_alloc], implemented by the pool of the 32-bit stage), the requests a
    port hands to another ([Net_transfer] and its laws) and the ports of the
    switch ([Switch_env], implemented by [virtio_world]).  The region manager that
    attaches dataspaces is the class [Ds_env].  The heap of [TmpfsFile] is the class
    [Heap]; whether an allocation of [TmpfsDir] or an [fopen] of [Klog] and
    [Syslogd] succeeds is an input of the operation, so that the theorems hold for
    every pattern of failures.  SHA-256 is the class [Sha256], of which the length of
    its result is used.  The library lwext4 is the class [Lwext4] with its laws; any
    of its functions may fail.  ELF structures in memory are read through [Elf64], the
    multiboot information through [Mb_info].  The sockets of lwIP are the class [Lwip]
    with its laws; the MQTT client is written against [Net_svr], what it asks of the
    network server, which [netd_svr] implements, and [Client_env], name service and
    clock.  Loading a program, exit messages and crashes are
    steps of the environment in [Spawnd].

    In the virtio models the descriptor table and the rings of a queue are kept
    apart from the rest of the memory, and a driver acts between calls of the
    device, not in the middle of one; [RequestProc] is the exception, its walk
    lets the memory change at every step.  Packet data lives in one memory that
    all ports share, so that copies between drivers are writes to it.

    ** What is proved

    - Block devices: two clients never share a disk, nor a disk and one of its
      partitions, in any reachable state of the manager; the scheduling loop ends
      and leaves no request behind that could run; a request is answered exactly
      once and its DMA mappings are released; accepted transfers and discards lie
      on the device; a partition touches no sector outside of itself; the table
      readers end on every disk content, stay in their buffers and report the
      partitions the table holds.
    - Boot loader: region lists stay sorted, disjoint and within their limits
      under every sequence of operations, adding and removing change the covered
      addresses exactly as meant, and the search for free memory finds the lowest
      place if there is one; reserved memory is not handed out by the allocator;
      mapping a range sets up exactly the translations asked for and keeps all
      others, so the first page table is the identity up to the memory limit; loading
      puts every segment and relocation in its place, and the main function, if it
      comes to its jump, has the 64-bit stage in memory without a change to what was
      reserved; the
      division, shift and bit-counting routines and the chunked copy equal their
      arithmetic meaning.
    - Virtio devices: the rings implement a queue in which each descriptor has
      one owner and requests keep their order; every address a device uses for a
      queue, a descriptor or a buffer is in memory the driver registered, whatever
      the driver writes; the status follows the order of the initialisation
      protocol, failure is permanent until a reset, and a running network device
      has working queues.
    - Network switch: a packet reaches exactly the ports that take part in its
      VLAN, once, and never its sender; a packet that fits is in the receiver's
      buffers in full, with its header and tag as the port demands, and the used
      ring says so; one that does not fit leaves the rings alone; the table never
      names a port that is gone; processing ends after a burst; adding and removing
      a tag are inverse.
    - Services: under every interleaving of threads the ring holds the last 256
      messages, and what the file is said to contain it contains; one thread writes
      each message once and in order; what the daemon acknowledges it keeps, and its
      file has the line the process would have written.  Files of [/tmp] behave as
      sequences of bytes and its directories as a map from paths to files and
      directories, with every error of the operations, whatever memory is short;
      listings of [/tmp] and [/dev] show each entry once, those of [/dev] the
      devices of one moment.  A generated file has the text of its generator;
      [/proc/tasks] shows exactly the processes of the process server, and what a
      generated directory lists is what can be opened in it.
    - Processes and users: the process server implements a table of processes under
      every interleaving with its reaper, neither leaks nor deletes twice the kernel
      objects of its tasks, and a wait returns the code of the first exit message.  The
      words typed at the shell are the arguments the program gets.  A password is
      accepted exactly when the credential file says so, and a shell starts only after
      that, with less than three refusals before.
    - Ext4: a read returns the bytes of the file and a write stores its data, through
      any number of calls and with every failure of the file system; appending threads
      with handles of their own never overwrite each other.  A name leads to the directory
      or file of that path, there is one object for each visited directory, and the
      listing of a directory has its entries.
    - Network: a run of the MQTT client keeps the order of a session and closes its
      connection exactly once, whatever the server and the broker do, what a client
      publishes a subscriber prints, and a subscription ends after its time; the open
      sockets of the network server are exactly the handles given out and not closed,
      so that the client leaves none behind; the frames the card takes reach lwIP once,
      unchanged and in order; the commands of a telnet session do not depend on the
      pieces in which it is received, unless one ends inside of a negotiation.
    - Start-up task: on the linked nodes every operation does what it does on an ordered
      list of ranges, without following a pointer that leads nowhere; an allocation takes
      a block that fits its size, alignment and pool and fails only if there is none; no
      address is granted to two users that do not share it, and what is granted is
      conventional memory.
    - Virtual machines: whatever a guest writes to the interrupt controller, at most one
      line of a chip is in service and nothing fails; a chip in use delivers the lines in
      the order of their priority, one after each end of an interrupt, until none waits.
    - Where the code deviates from what it means to do, a theorem states the
      deviation: two branches of [reservation_add] forget memory, the allocator
      reads behind the memory map, hands memory out twice after a failure, the
      table pool is one page short of its check, mapping over an existing large
      page leaves a hole, [find_free_rev] wraps around, a region at the address
      limit trips an assertion, a GPT with entry size zero leads out of the
      buffer, removing a client twice trips an assertion,
      removing driver memory removes the wrong region, a status with a zero low
      byte skips the reset, a request head is not checked against the table, a
      circular chain of descriptors keeps the switch busy forever, a port
      without VLAN can send into every VLAN, two concurrent flushes of the log write
      its messages twice, the daemon acknowledges lines it drops for their length,
      a write at a huge offset of a RAM file never returns, a foreground program that
      calls [exec] waits for a server that waits for it, arguments without a final NUL
      are read beyond the message, the job table of the shell is never emptied, a line
      of one ampersand dereferences a null pointer, the rest of a long comment in the
      credential file can be an account, and threads that share an open file of the
      ext4 client mix up their data, long paths are cut to the name of another
      file or directory of the ext4 server, the loader does not align a relocated
      segment and accepts one that ends at 4 GiB unchecked, upper memory up to 4 GiB
      counts as none, a length field of a broker makes the MQTT client read in front of
      its buffer, a message that arrives in two pieces or behind the answer to a
      subscription is lost, an accepted connection with descriptor 0 is forgotten, a
      buffer number of the card is used unchecked, a packet of 64 KiB overruns the
      transmit buffer, a telnet negotiation in two pieces becomes text, memory that is
      reserved across two ranges is handed out, an area of less than a page at address 0
      becomes all of the address space, a block of nearly all of the address space
      succeeds without memory, the last page of a device area can go unchecked, a masked
      interrupt is delivered to a guest, its end is told to the wrong source, and in the
      mode of automatic ends the controller stops.

    ** Bounds

    Loops that are not structural carry fuel, and a theorem states how much is
    enough: the number of entries and one more for the searches of [RegionList],
    the number of map entries times reservations for [MmAlloc], the operand width
    for [GccLib], 512 rounds per table for [Paging], the byte count for
    [MemcpyAligned], [(work + 1) * (2 n + 1)] rounds for the scheduler with [n]
    clients.  Delivery of a packet in the switch has fuel for its rounds; the
    theorems give a number of rounds that is enough for a packet of a given
    length, and show that no number is enough for a circular chain.  Readers of
    partition tables bound their chains the way the code does.  Walking a path takes
    at most its length, growing a RAM file one doubling per bit of [size_t] (and no
    number of them beyond half of the address space), listing a directory one call
    per entry and one more.  A transfer of the ext4 client takes at most one call per
    byte, a login one round per typed character.  An ELF image has at most 2^16 headers
    of each kind, a received piece at most one round for each of its bytes, and a
    subscription takes at most one round for each tick of its time.  A loop of the memory
    tracker takes at most one round for each node.

    ** Not modelled

    Output, IPC registration and kernel objects, cache maintenance, assembler,
    platform code, and the vendored packages.  Of virtio: the operations that hand
    out interrupts and dataspaces, trusted dataspaces, and the device classes
    other than block and network.  Of the switch: command line and port options,
    the constructors and registration of ports, the counters in shared memory, and
    the receive side of the network card, which is a parameter.  Of the services:
    calls that only fill in a stat buffer and reference counts; the application model
    of the process server, which lays out a new task for the ELF loader; the built-in
    commands of the shell; the block device of the ext4 server.  Of the network server:
    discovery and registers of the card, the echo threads and the calls that only produce
    text.  Of the boot loader: the start-up of the main stage and its module lists, which
    are written in terms of a string class that is not in the repository, as is the
    configuration parser of the start-up task.  The applications of the start-up task,
    the device manager, drivers and virtual machine monitors are sequences of calls on
    kernel objects and device registers. *)

From Stdlib Require Export ZArith Lia Bool.
From stdpp Require Export base tactics list gmap numbers option.
From Stdlib Require Ascii String.
From Stdlib Require Import Sorting.Sorted.
Export Stdlib.Strings.String.StringSyntax.

#[global] Open Scope Z_scope.

(** ** Machine integers *)

(** The value a [w]-bit unsigned object holds after [x] is stored in it. *)
Definition uwrap (w x : Z) : Z := x mod 2 ^ w.

(** The value a [w]-bit two's complement object holds after [x] is stored. *)
Definition swrap (w x : Z) : Z := (x + 2 ^ (w - 1)) mod 2 ^ w - 2 ^ (w - 1).

Abbreviation u8 := (uwrap 8).
Abbreviation u16 := (uwrap 16).
Abbreviation u32 := (uwrap 32).
Abbreviation u64 := (uwrap 64).
Abbreviation s16 := (swrap 16).
Abbreviation s32 := (swrap 32).
Abbreviation s64 := (swrap 64).

Declare Scope cint_scope.
Delimit Scope cint_scope with C.

(** [a +[w] b] and the like: unsigned arithmetic at width [w]. *)
Notation "a +[ w ] b" := (uwrap w (a + b))
  (at level 50, left associativity) : cint_scope.
Notation "a -[ w ] b" := (uwrap w (a - b))
  (at level 50, left associativity) : cint_scope.
Notation "a *[ w ] b" := (uwrap w (a * b))
  (at level 40, left associativity) : cint_scope.
#[global] Open Scope cint_scope.

(** [x] fits an unsigned object of [w] bits. *)
Definition in_u (w x : Z) : Prop := 0 <= x < 2 ^ w.

#[global] Instance in_u_dec w x : Decision (in_u w x).
Proof. unfold in_u. apply _. Defined.

Lemma uwrap_small w x : in_u w x -> uwrap w x = x.
Proof. intros H. unfold uwrap. apply Z.mod_small, H. Qed.

Lemma uwrap_range w x : 0 <= w -> in_u w (uwrap w x).
Proof. intros Hw. unfold in_u, uwrap. apply Z.mod_pos_bound. lia. Qed.

Lemma uwrap_nonneg w x : 0 <= w -> 0 <= uwrap w x.
Proof. intros Hw. destruct (uwrap_range w x Hw). done. Qed.

Lemma uwrap_le w x : 0 <= w -> 0 <= x -> uwrap w x <= x.
Proof. intros Hw Hx. unfold uwrap. apply Z.mod_le; lia. Qed.

Lemma uwrap_idem w x : 0 <= w -> uwrap w (uwrap w x) = uwrap w x.
Proof. intros Hw. apply uwrap_small, uwrap_range, Hw. Qed.

(** Adding and subtracting once around the modulus. *)
Lemma uwrap_over w x : 2 ^ w <= x < 2 * 2 ^ w -> uwrap w x = x - 2 ^ w.
Proof.
  intros H. unfold uwrap. symmetry.
  apply (Z.mod_unique_pos x (2 ^ w) 1); lia.
Qed.

Lemma uwrap_under w x : - 2 ^ w <= x < 0 -> uwrap w x = x + 2 ^ w.
Proof.
  intros H. unfold uwrap. symmetry.
  apply (Z.mod_unique_pos x (2 ^ w) (-1)); lia.
Qed.

Lemma uwrap_add_l w x y : uwrap w (uwrap w x + y) = uwrap w (x + y).
Proof. unfold uwrap. apply Zplus_mod_idemp_l. Qed.

Lemma uwrap_add_r w x y : uwrap w (x + uwrap w y) = uwrap w (x + y).
Proof. unfold uwrap. apply Zplus_mod_idemp_r. Qed.

Lemma uwrap_sub_l w x y : uwrap w (uwrap w x - y) = uwrap w (x - y).
Proof. unfold uwrap. apply Zminus_mod_idemp_l. Qed.

Lemma uwrap_sub_r w x y : uwrap w (x - uwrap w y) = uwrap w (x - y).
Proof. unfold uwrap. apply Zminus_mod_idemp_r. Qed.

Lemma swrap_small w x :
  - 2 ^ (w - 1) <= x < 2 ^ (w - 1) -> 0 < w -> swrap w x = x.
Proof.
  intros H Hw. unfold swrap.
  replace (2 ^ w) with (2 * 2 ^ (w - 1)).
  - rewrite Z.mod_small; lia.
  - rewrite <- Z.pow_succ_r by lia. f_equal. lia.
Qed.

Lemma swrap_range w x : 0 < w -> - 2 ^ (w - 1) <= swrap w x < 2 ^ (w - 1).
Proof.
  intros Hw. unfold swrap.
  replace (2 ^ w) with (2 * 2 ^ (w - 1)).
  - pose proof (Z.mod_pos_bound (x + 2 ^ (w - 1)) (2 * 2 ^ (w - 1))). lia.
  - rewrite <- Z.pow_succ_r by lia. f_equal. lia.
Qed.

(** Two's complement values are determined by their residue. *)
Lemma swrap_unique w x r k :
  0 < w -> - 2 ^ (w - 1) <= r < 2 ^ (w - 1) -> x = r + k * 2 ^ w -> swrap w x = r.
Proof.
  intros Hw Hr ->. rewrite <- (swrap_small w r Hr Hw) at 2. unfold swrap.
  replace (r + k * 2 ^ w + 2 ^ (w - 1)) with (r + 2 ^ (w - 1) + k * 2 ^ w) by lia.
  by rewrite Z_mod_plus_full.
Qed.

Lemma swrap_cong w x : 0 < w -> exists k, x = swrap w x + k * 2 ^ w.
Proof.
  intros Hw. exists ((x + 2 ^ (w - 1)) / 2 ^ w). unfold swrap.
  pose proof (Z.div_mod (x + 2 ^ (w - 1)) (2 ^ w)). lia.
Qed.

Lemma uwrap_swrap w x : 0 < w -> uwrap w (swrap w x) = uwrap w x.
Proof.
  intros Hw. destruct (swrap_cong w x Hw) as [k Hk]. rewrite Hk at 2.
  unfold uwrap. by rewrite Z_mod_plus_full.
Qed.

(** [|] of two disjoint bit ranges adds. *)
Lemma lor_disjoint a b n : 0 <= n -> 0 <= b < 2 ^ n -> Z.lor (a * 2 ^ n) b = a * 2 ^ n + b.
Proof.
  intros Hn Hb. destruct (decide (b = 0)) as [->|]; [by rewrite Z.lor_0_r, Z.add_0_r|].
  assert (Hlog : Z.log2 b < n) by (apply Z.log2_lt_pow2; lia).
  assert (Z.land (a * 2 ^ n) b = 0); [|by rewrite <- Z.lxor_lor, <- Z.add_nocarry_lxor].
  apply Z.bits_inj'; intros i Hi. rewrite Z.land_spec, Z.bits_0.
  destruct (Z.lt_ge_cases i n); [by rewrite Z.mul_pow2_bits_low by lia|].
  rewrite (Z.bits_above_log2 b) by lia. apply andb_false_r.
Qed.

(** Testing a flag. *)
Lemma land_pow2_testbit v k : 0 <= k -> negb (Z.land v (2 ^ k) =? 0) = Z.testbit v k.
Proof.
  intros Hk. destruct (Z.testbit v k) eqn:E.
  - apply negb_true_iff, Z.eqb_neq. intros E0.
    assert (Hb : Z.testbit (Z.land v (2 ^ k)) k = false) by (rewrite E0; apply Z.bits_0).
    by rewrite Z.land_spec, E, Z.pow2_bits_true in Hb by lia.
  - apply negb_false_iff, Z.eqb_eq, Z.bits_inj_0. intros n. rewrite Z.land_spec.
    destruct (decide (n = k)) as [->|]; [by rewrite E|].
    rewrite Z.pow2_bits_false by lia. apply andb_false_r.
Qed.

(** Masking off the lowest [k] bits of a value of [k + n] bits. *)
Lemma land_high_ones v k n :
  0 <= k -> 0 <= n -> 0 <= v < 2 ^ (k + n) ->
  Z.land v (Z.shiftl (Z.ones n) k) = v / 2 ^ k * 2 ^ k.
Proof.
  intros Hk Hn Hv. rewrite <- Z.shiftl_mul_pow2, <- Z.shiftr_div_pow2 by lia.
  apply Z.bits_inj'. intros i Hi. rewrite Z.land_spec. destruct (Z.lt_ge_cases i k).
  - rewrite !Z.shiftl_spec_low by lia. apply andb_false_r.
  - rewrite !Z.shiftl_spec, Z.shiftr_spec by lia. replace (i - k + k) with i by lia.
    destruct (Z.lt_ge_cases i (k + n)).
    + rewrite Z.ones_spec_low by lia. apply andb_true_r.
    + rewrite Z.ones_spec_high, andb_false_r by lia. symmetry.
      rewrite <- (Z.mod_small v (2 ^ (k + n))) by lia. apply Z.mod_pow2_bits_high. lia.
Qed.

(** [|] stays below a power of two. *)
Lemma lor_lt_pow2 a b n : 0 < n -> 0 <= a < 2 ^ n -> 0 <= b < 2 ^ n -> 0 <= Z.lor a b < 2 ^ n.
Proof.
  intros Hn Ha Hb. assert (0 <= Z.lor a b) by (apply Z.lor_nonneg; lia). split; [done|].
  destruct (decide (Z.lor a b = 0)) as [->|]; [lia|]. apply Z.log2_lt_pow2; [lia|].
  assert (Hlog : forall x, 0 <= x < 2 ^ n -> Z.log2 x < n).
  { intros x Hx. destruct (decide (x = 0)) as [->|]; [done|]. apply Z.log2_lt_pow2; lia. }
  rewrite Z.log2_lor by lia. pose proof (Hlog a Ha). pose proof (Hlog b Hb). lia.
Qed.

(** ** Error results *)

(** The [L4_E*] and [E*] codes the sources name; a function that returns [-L4_EX]
    returns [Err EX], one that returns a value [>= 0] returns [Ok]. *)
Inductive errno :=
  | EPERM | ENOENT | EIO | EAGAIN | ENOMEM | EACCESS | EFAULT | EBUSY | EEXIST
  | ENODEV | EINVAL | ENOSPC | ERANGE | ENOSYS | EBADPROTO
  | ENOTDIR | EISDIR | ENOTEMPTY.

#[global] Instance errno_eq_dec : EqDecision errno.
Proof. solve_decision. Defined.

Inductive l4_ret := Ok | Err (e : errno).

#[global] Instance l4_ret_eq_dec : EqDecision l4_ret.
Proof. solve_decision. Defined.

Definition is_err (r : l4_ret) : bool :=
  match r with Ok => false | Err _ => true end.

(** ** Bytes in memory *)

Abbreviation byte := Z (only parsing).
Abbreviation bytes := (list Z) (only parsing).

Definition byte_ok (b : Z) : Prop := 0 <= b < 256.
Abbreviation bytes_ok := (Forall byte_ok).

#[global] Instance byte_ok_dec b : Decision (byte_ok b).
Proof. unfold byte_ok. apply _. Defined.

Definition zlen {A} (l : list A) : Z := Z.of_nat (length l).

(** Little-endian value of a byte sequence. *)
Fixpoint le_combine (l : bytes) : Z :=
  match l with
  | [] => 0
  | b :: t => b + 256 * le_combine t
  end.

Fixpoint le_split (n : nat) (x : Z) : bytes :=
  match n with
  | O => []
  | S m => x mod 256 :: le_split m (x / 256)
  end.

(** The [len] elements from position [off]. *)
Definition slice {A} (off len : Z) (m : list A) : list A :=
  take (Z.to_nat len) (drop (Z.to_nat off) m).

(** [len] bytes at [off], or [None] when the access leaves the object. *)
Definition rd_bytes (off len : Z) (m : bytes) : option bytes :=
  if (0 <=? off) && (0 <=? len) && (off + len <=? zlen m)
  then Some (slice off len m)
  else None.

(** Store [bs] at [off]. *)
Definition wr_bytes (off : Z) (bs m : bytes) : option bytes :=
  if (0 <=? off) && (off + zlen bs <=? zlen m)
  then Some (take (Z.to_nat off) m ++ bs ++ drop (Z.to_nat off + length bs) m)
  else None.

(** Read an [n]-byte little-endian integer. *)
Definition rd (n off : Z) (m : bytes) : option Z := le_combine <$> rd_bytes off n m.

(** ** C and C++ strings *)

(** The byte sequence of a string literal. *)
Fixpoint str (s : String.string) : bytes :=
  match s with
  | String.EmptyString => []
  | String.String c t => Z.of_N (Ascii.N_of_ascii c) :: str t
  end.

Arguments str s%_string_scope.

(** [strlen]/[%s]: the characters before the first NUL. *)
Fixpoint cstr (s : bytes) : bytes :=
  match s with
  | [] => []
  | c :: t => if c =? 0 then [] else c :: cstr t
  end.

(** [s[i]] on the array behind [c_str()]: the NUL follows the last character. *)
Definition c_at (s : bytes) (i : nat) : Z := default 0 (s !! i).

(** The string [snprintf(buf, size, ...)] leaves in [buf] for the output [s]. *)
Definition snprintf_out (size : nat) (s : bytes) : bytes := take (size - 1) s.

Definition isdigit (c : Z) : bool := (48 <=? c) && (c <=? 57).
Definition isxdigit (c : Z) : bool :=
  isdigit c || ((65 <=? c) && (c <=? 70)) || ((97 <=? c) && (c <=? 102)).
Definition islower (c : Z) : bool := (97 <=? c) && (c <=? 122).
Definition isupper (c : Z) : bool := (65 <=? c) && (c <=? 90).
Definition isalpha (c : Z) : bool := islower c || isupper c.
Definition toupper (c : Z) : Z := if islower c then c - 32 else c.
Definition tolower (c : Z) : Z := if isupper c then c + 32 else c.

(** Digits of [n >= 0], least significant first.  64 rounds suffice for every
    value below [2 ^ 64] in any base. *)
Fixpoint digits_rev (fuel : nat) (base n : Z) : list Z :=
  match fuel with
  | O => []
  | S f => n mod base :: (if n <? base then [] else digits_rev f base (n / base))
  end.

Definition digits (base n : Z) : list Z := reverse (digits_rev 64 base n).

Definition undigits (base : Z) (ds : list Z) : Z :=
  foldl (fun acc d => acc * base + d) 0 ds.

Definition hexdig (d : Z) : Z := if d <? 10 then 48 + d else 55 + d.

(** [%0<w>X] *)
Definition fmtX (w : nat) (n : Z) : bytes :=
  let s := hexdig <$> digits 16 n in replicate (w - length s) 48 ++ s.

(** [%d] and [std::to_string] *)
Definition fmtd (n : Z) : bytes :=
  (if n <? 0 then [45] else []) ++ ((fun d => 48 + d) <$> digits 10 (Z.abs n)).

(** [%<w>u] and [%0<w>u], with any length modifier *)
Definition fmtu (pad : Z) (w : nat) (n : Z) : bytes :=
  let s := fmtd n in replicate (w - length s) pad ++ s.

Arguments uwrap : simpl never.
Arguments swrap : simpl never.
Arguments slice : simpl never.
Arguments rd_bytes : simpl never.
Arguments rd : simpl never.
Arguments str : simpl never.
Arguments digits : simpl never.
Arguments fmtX : simpl never.
Arguments fmtd : simpl never.

(** ** Tactics *)

(** Case analysis on the condition of an [if] or on a [match] scrutinee. *)
Ltac split_if :=
  match goal with
  | |- context [if ?b then _ else _] => destruct b eqn:?
  | H : context [if ?b then _ else _] |- _ => destruct b eqn:?
  end.

Ltac split_ifs := repeat split_if.

(** Take apart the conjunctions and existentials of the context. *)
Ltac destr :=
  repeat match goal with
  | H : _ /\ _ |- _ => destruct H
  | H : exists _, _ |- _ => destruct H
  | H : (_, _) = (_, _) |- _ => injection H as H; subst
  end.

(** Close a goal without variables by evaluation: equations, comparisons,
    conjunctions of those, and decidable statements. *)
Ltac by_eval :=
  repeat match goal with |- _ /\ _ => split end;
  first [ vm_compute; reflexivity
        | vm_compute; discriminate
        | refine (bool_decide_unpack _ _); vm_compute; exact I ].

(** Open the binds of an [option] computation that returned a value. *)
Ltac inv_binds H :=
  repeat (apply bind_Some in H; destruct H as (? & ? & H)).

Create HintDb cint.
#[export] Hint Resolve uwrap_range uwrap_nonneg uwrap_small : cint.
Create Rewrite HintDb cint_mod.
#[export] Hint Rewrite uwrap_add_l uwrap_add_r uwrap_sub_l uwrap_sub_r : cint_mod.

(** ** Lemmas on memory, digits and strings *)

Lemma zlen_nonneg {A} (l : list A) : 0 <= zlen l.
Proof. unfold zlen. lia. Qed.

Lemma zlen_cons {A} (x : A) (l : list A) : zlen (x :: l) = 1 + zlen l.
Proof. unfold zlen. cbn [length]. lia. Qed.

Lemma zlen_app {A} (l m : list A) : zlen (l ++ m) = zlen l + zlen m.
Proof. unfold zlen. rewrite length_app. lia. Qed.

Lemma le_combine_bound l :
  bytes_ok l -> 0 <= le_combine l < 256 ^ zlen l.
Proof.
  unfold zlen. induction 1 as [|b l Hb Hl IH]; [cbn; lia|].
  cbn [le_combine length]. rewrite Nat2Z.inj_succ, Z.pow_succ_r by lia.
  unfold byte_ok in Hb. lia.
Qed.

Lemma le_combine_split n x :
  0 <= x < 256 ^ Z.of_nat n -> le_combine (le_split n x) = x.
Proof.
  revert x. induction n as [|n IH]; intros x Hx.
  - cbn in *. lia.
  - rewrite Nat2Z.inj_succ, Z.pow_succ_r in Hx by lia.
    cbn [le_split le_combine]. rewrite IH.
    + pose proof (Z.div_mod x 256). lia.
    + split; [apply Z.div_pos; lia|]. apply Z.div_lt_upper_bound; lia.
Qed.

Lemma le_split_combine b : bytes_ok b -> le_split (length b) (le_combine b) = b.
Proof.
  induction 1 as [|x b Hx Hb IH]; [done|]. unfold byte_ok in Hx. cbn [length le_combine le_split].
  f_equal.
  - rewrite Z.mul_comm, Z_mod_plus_full. by apply Z.mod_small.
  - rewrite Z.mul_comm, Z_div_plus_full, Z.div_small by lia. done.
Qed.

Lemma zlen_slice {A} off len (m : list A) :
  0 <= off -> 0 <= len -> off + len <= zlen m -> zlen (slice off len m) = len.
Proof. unfold zlen, slice. intros. rewrite length_take, length_drop. lia. Qed.

Lemma slice_slice {A} b k off len (m : list A) :
  0 <= b -> 0 <= off -> 0 <= len -> off + len <= k ->
  slice off len (slice b k m) = slice (b + off) len m.
Proof.
  intros. unfold slice. rewrite skipn_firstn_comm, take_take, drop_drop.
  f_equal; [lia|]. f_equal. lia.
Qed.

Lemma bytes_ok_slice off len m : bytes_ok m -> bytes_ok (slice off len m).
Proof. intros. by apply Forall_take, Forall_drop. Qed.

Lemma rd_bytes_Some off len m bs :
  rd_bytes off len m = Some bs <->
  0 <= off /\ 0 <= len /\ off + len <= zlen m /\
  bs = slice off len m.
Proof.
  unfold rd_bytes. split_if; split; intros H; destr; simplify_eq; try done;
    try lia.
  repeat split; lia.
Qed.

Lemma rd_bytes_is_Some off len m :
  0 <= off -> 0 <= len -> off + len <= zlen m -> is_Some (rd_bytes off len m).
Proof. intros. eexists. apply rd_bytes_Some. eauto. Qed.

Lemma rd_bytes_length off len m bs :
  rd_bytes off len m = Some bs -> zlen bs = len.
Proof.
  intros (?&?&?&->)%rd_bytes_Some. by apply zlen_slice.
Qed.

Lemma rd_bytes_slice b k off len m :
  0 <= b -> 0 <= off -> off + len <= k -> b + k <= zlen m ->
  rd_bytes off len (slice b k m) = rd_bytes (b + off) len m.
Proof.
  intros. unfold rd_bytes. destruct (0 <=? len) eqn:Hl; [|by rewrite !andb_false_r].
  rewrite zlen_slice by lia.
  replace (0 <=? off) with true by lia. replace (0 <=? b + off) with true by lia.
  replace (off + len <=? k) with true by lia.
  replace (b + off + len <=? zlen m) with true by lia.
  f_equal. apply slice_slice; lia.
Qed.

Lemma rd_slice b k n off m :
  0 <= b -> 0 <= off -> off + n <= k -> b + k <= zlen m ->
  rd n off (slice b k m) = rd n (b + off) m.
Proof. intros. unfold rd. by rewrite rd_bytes_slice. Qed.

Lemma rd_is_Some n off m :
  0 <= n -> 0 <= off -> off + n <= zlen m -> is_Some (rd n off m).
Proof.
  intros. unfold rd. destruct (rd_bytes_is_Some off n m) as [bs ->]; eauto.
Qed.

Lemma rd_range n off m v :
  bytes_ok m -> rd n off m = Some v -> 0 <= v < 256 ^ n.
Proof.
  intros Hm. unfold rd. destruct (rd_bytes off n m) as [bs|] eqn:E; [|done].
  intros [= <-]. pose proof (rd_bytes_length _ _ _ _ E) as Hl.
  apply rd_bytes_Some in E as (?&?&?&->).
  enough (Hb : bytes_ok (slice off n m)).
  { apply le_combine_bound in Hb. by rewrite Hl in Hb. }
  by apply bytes_ok_slice.
Qed.

Lemma length_le_split n x : length (le_split n x) = n.
Proof. revert x. induction n as [|n IH]; intros x; cbn; [done|]. by rewrite IH. Qed.

Lemma zlen_eq {A} (l l' : list A) : length l = length l' -> zlen l = zlen l'.
Proof. unfold zlen. lia. Qed.

Lemma slice_lookup {A} off len (m : list A) i :
  0 <= off -> 0 <= i < len -> slice off len m !! Z.to_nat i = m !! Z.to_nat (off + i).
Proof.
  intros. unfold slice. rewrite lookup_take_lt by lia. rewrite lookup_drop. f_equal. lia.
Qed.

Lemma wr_bytes_lookup off bs m m' i :
  wr_bytes off bs m = Some m' -> 0 <= i < zlen m ->
  m' !! Z.to_nat i =
  if decide (off <= i < off + zlen bs) then bs !! Z.to_nat (i - off) else m !! Z.to_nat i.
Proof.
  unfold wr_bytes, zlen. destruct (_ && _) eqn:Hc; [|done]. intros [= <-] Hi.
  case_decide.
  - rewrite lookup_app_r by (rewrite length_take; lia). rewrite length_take.
    rewrite lookup_app_l by lia. f_equal. lia.
  - destruct (Z.lt_ge_cases i off).
    + rewrite lookup_app_l by (rewrite length_take; lia). rewrite lookup_take_lt by lia. done.
    + rewrite lookup_app_r by (rewrite length_take; lia). rewrite length_take.
      rewrite lookup_app_r by lia. rewrite lookup_drop. f_equal. lia.
Qed.

Lemma wr_bytes_Some off bs m :
  0 <= off -> off + zlen bs <= zlen m ->
  exists m', wr_bytes off bs m = Some m' /\ length m' = length m.
Proof.
  intros H1 H2. unfold wr_bytes. rewrite (proj2 (Z.leb_le 0 off)), (proj2 (Z.leb_le _ _)) by lia.
  eexists. split; [done|]. rewrite !length_app, length_take, length_drop. unfold zlen in *. lia.
Qed.

Lemma digits_rev_bounds fuel base n :
  1 < base -> 0 <= n -> Forall (fun d => 0 <= d < base) (digits_rev fuel base n).
Proof.
  intros Hb. revert n. induction fuel as [|f IH]; intros n Hn; [constructor|].
  cbn. constructor; [apply Z.mod_pos_bound; lia|].
  split_if; [constructor|]. apply IH, Z.div_pos; lia.
Qed.

Lemma digits_bounds base n :
  1 < base -> 0 <= n -> Forall (fun d => 0 <= d < base) (digits base n).
Proof. intros. by apply Forall_reverse, digits_rev_bounds. Qed.

Lemma undigits_snoc base ds d : undigits base (ds ++ [d]) = undigits base ds * base + d.
Proof. unfold undigits. by rewrite foldl_snoc. Qed.

Lemma undigits_digits_rev fuel base n :
  1 < base -> 0 <= n < base ^ Z.of_nat fuel ->
  undigits base (reverse (digits_rev fuel base n)) = n.
Proof.
  intros Hb. revert n. induction fuel as [|f IH]; intros n Hn; [cbn in *; lia|].
  rewrite Nat2Z.inj_succ, Z.pow_succ_r in Hn by lia.
  cbn [digits_rev]. rewrite reverse_cons, undigits_snoc.
  pose proof (Z.div_mod n base). split_if.
  - cbn. rewrite Z.mod_small; lia.
  - rewrite IH; [lia|]. split; [apply Z.div_pos; lia|].
    apply Z.div_lt_upper_bound; lia.
Qed.

Lemma undigits_digits base n :
  1 < base -> 0 <= n < base ^ 64 -> undigits base (digits base n) = n.
Proof. intros. by apply undigits_digits_rev. Qed.

Lemma digits_rev_length fuel base n k :
  1 < base -> 0 <= n < base ^ Z.of_nat (S k) ->
  (length (digits_rev fuel base n) <= S k)%nat.
Proof.
  intros Hb. revert n k. induction fuel as [|f IH]; intros n k Hn; [cbn; lia|].
  cbn [digits_rev length]. split_if; [cbn; lia|]. destruct k as [|k].
  - rewrite Z.pow_1_r in Hn. lia.
  - rewrite (Nat2Z.inj_succ (S k)), Z.pow_succ_r in Hn by lia.
    specialize (IH (n / base) k). apply le_n_S, IH.
    split; [apply Z.div_pos; lia|]. apply Z.div_lt_upper_bound; lia.
Qed.

Lemma length_fmtX w n :
  0 <= n < 16 ^ Z.of_nat (S w) -> length (fmtX (S w) n) = S w.
Proof.
  intros Hn. unfold fmtX, digits.
  pose proof (digits_rev_length 64 16 n w ltac:(lia) Hn) as Hl.
  rewrite length_app, length_replicate, length_fmap, length_reverse. lia.
Qed.

Lemma length_fmtd n k : 0 <= n < 10 ^ Z.of_nat k -> (1 <= k)%nat -> (length (fmtd n) <= k)%nat.
Proof.
  intros Hn Hk. unfold fmtd. replace (n <? 0) with false by lia. cbn. rewrite length_fmap. unfold digits.
  rewrite length_reverse, Z.abs_eq by lia. destruct k as [|k]; [lia|]. apply digits_rev_length; lia.
Qed.

Lemma length_fmtu pad w n k : (length (fmtd n) <= k)%nat -> (w <= k)%nat -> (length (fmtu pad w n) <= k)%nat.
Proof. unfold fmtu. rewrite length_app, length_replicate. lia. Qed.

(** Strings without a NUL, and what follows a NUL. *)
Lemma cstr_id s : Forall (fun c => c <> 0) s -> cstr s = s.
Proof.
  induction 1 as [|c s Hc Hs IH]; [done|]. cbn. replace (c =? 0) with false by lia. by rewrite IH.
Qed.

Lemma cstr_app s t : Forall (fun c => c <> 0) s -> cstr (s ++ 0 :: t) = s.
Proof.
  induction 1 as [|c s Hc Hs IH]; [done|]. cbn. replace (c =? 0) with false by lia. by rewrite IH.
Qed.

(** The value of an upper-case hexadecimal digit. *)
Definition unhexdig (c : Z) : Z := if c <? 65 then c - 48 else c - 55.

Lemma unhexdig_hexdig ds :
  Forall (fun d => 0 <= d < 16) ds -> unhexdig <$> (hexdig <$> ds) = ds.
Proof.
  induction 1 as [|d ds Hd Hds IH]; [done|]. cbn. f_equal; [|exact IH].
  unfold unhexdig, hexdig. split_ifs; lia.
Qed.

Lemma undigits_zeros base k ds : undigits base (replicate k 0 ++ ds) = undigits base ds.
Proof. induction k as [|k IH]; [done|]. exact IH. Qed.

(** Reading a [%X] number back. *)
Lemma undigits_fmtX w n :
  0 <= n < 16 ^ 64 -> undigits 16 (unhexdig <$> fmtX w n) = n.
Proof.
  intros Hn. unfold fmtX. rewrite fmap_app, fmap_replicate. change (unhexdig 48) with 0.
  rewrite undigits_zeros, unhexdig_hexdig by (apply digits_bounds; lia).
  by apply undigits_digits.
Qed.

Lemma fmtX_inj w n m :
  0 <= n < 16 ^ 64 -> 0 <= m < 16 ^ 64 -> fmtX w n = fmtX w m -> n = m.
Proof.
  intros Hn Hm Heq. rewrite <- (undigits_fmtX w n Hn), <- (undigits_fmtX w m Hm).
  by rewrite Heq.
Qed.

(** ** Computations over a server state that may end abnormally *)

(** [Raised]: a C++ exception leaves the function; [Asserted]: an [assert]
    fails; [Panicked]: [panic] stops the machine; [Oob]: a load or store
    leaves the object it was meant for; [Fuel_out]: the iteration bound of the model was reached. *)
Inductive run (A : Type) := Ret (a : A) | Raised | Asserted | Panicked | Oob | Fuel_out.
Arguments Ret {A} a.
Arguments Raised {A}.
Arguments Asserted {A}.
Arguments Panicked {A}.
Arguments Oob {A}.
Arguments Fuel_out {A}.

#[global] Instance run_ret : MRet run := fun _ a => Ret a.
#[global] Instance run_bind : MBind run := fun _ _ f m =>
  match m with
  | Ret a => f a
  | Raised => Raised
  | Asserted => Asserted
  | Panicked => Panicked
  | Oob => Oob
  | Fuel_out => Fuel_out
  end.

(** Stateful computations: the state survives an abnormal end. *)
Definition prog (S A : Type) : Type := S -> S * run A.

#[global] Instance prog_ret {S} : MRet (prog S) := fun _ a s => (s, Ret a).
#[global] Instance prog_bind {S} : MBind (prog S) := fun _ _ f m s =>
  match m s with
  | (s1, Ret a) => f a s1
  | (s1, Raised) => (s1, Raised)
  | (s1, Asserted) => (s1, Asserted)
  | (s1, Panicked) => (s1, Panicked)
  | (s1, Oob) => (s1, Oob)
  | (s1, Fuel_out) => (s1, Fuel_out)
  end.

Definition lift {S A} (r : run A) : prog S A := fun s => (s, r).

(** A memory access inside a computation. *)
Definition or_oob {A} (o : option A) : run A :=
  match o with Some a => Ret a | None => Oob end.

Lemma prog_bind_ret {S A B} (m : prog S A) (f : A -> prog S B) s s1 a :
  m s = (s1, Ret a) -> (m ≫= f) s = f a s1.
Proof. intros H. unfold mbind, prog_bind. by rewrite H. Qed.

Lemma or_oob_Some {A} (o : option A) : is_Some o -> exists a, or_oob o = Ret a /\ o = Some a.
Proof. intros [a ->]. by exists a. Qed.

Lemma run_bind_Ret {A B} (m : run A) (f : A -> run B) b :
  m ≫= f = Ret b <-> exists a, m = Ret a /\ f a = Ret b.
Proof.
  split; [|by intros (a & -> & E)]. destruct m as [a| | | | |]; cbn; try done. eauto.
Qed.

(** Take apart a computation in [run] that returned a value. *)
Ltac inv_run H :=
  repeat match type of H with
  | (_ ≫= _) = Ret _ =>
      let x := fresh "x" in let E := fresh "E" in
      apply run_bind_Ret in H as (x & E & H);
      repeat match type of x with (_ * _)%type => destruct x as [x ?] end
  end.

(** ** Sorted lists *)

Lemma strongly_sorted_app {A} (R : A -> A -> Prop) l k :
  StronglySorted R (l ++ k) <-> StronglySorted R l /\ StronglySorted R k /\ Forall (fun x => Forall (R x) k) l.
Proof.
  induction l as [|x l IH]; cbn [app].
  - split; [intros H; split; [constructor|by split]|by intros (_ & ? & _)].
  - split.
    + intros [Hs Hx]%StronglySorted_inv. apply IH in Hs as (? & ? & ?). apply Forall_app in Hx as [? ?].
      split; [by constructor|]. split; [done|by constructor].
    + intros ([H1 Hx]%StronglySorted_inv & H2 & [? ?]%list.Forall_cons). constructor; [by apply IH|by apply Forall_app].
Qed.

(** ** Exhaustive checks *)

(** A fact about every byte. *)
Lemma all_bytes (P : Z -> bool) : forallb P (seqZ 0 256) = true -> forall s, in_u 8 s -> P s = true.
Proof.
  intros H s Hs. rewrite forallb_forall in H. apply H, list_elem_of_In, elem_of_seqZ.
  unfold in_u in Hs. lia.
Qed.
