(* ===== verification/Errand.v ===== *)
(** * Deferred tasks of the block-device servers

    Models [src/pkg/libblock-device/include/errand.h]: the one-shot [Errand],
    the repeated [Poll_errand] and the entry points [schedule] and [poll].

    The state the callbacks act on is an abstract world [W].  A callback that
    raises [L4::Runtime_error] returns [None].  The timeout queue of the server
    loop is not part of the sources; what it does here is to run [expired] of a
    queued object once, at or after the due time, with the rest of the server
    ([tick]) having run in between. *)

From S2P Require Import Prelude.

Section Errand.

Context {W : Type}.

(** What happened, in order. *)
Inductive event :=
  | Ev_poll (r : option bool)
  | Ev_callback (b : bool).

(** [std::function<bool()> _poll]; [None]: it raised a runtime error. *)
Definition poll_fn := W -> W * option bool.

(** [std::function<void(bool)> _callback] *)
Definition result_fn := bool -> W -> W.

(** The data members of [Poll_errand] that change or are read. *)
Record Poll_errand := { _retries : Z; _interval : Z }.

(** What one run of [expired] leaves behind: nothing, or the errand queued
    again at the given due time. *)
Inductive next_run := Finished | Queued (e : Poll_errand) (due : Z).

(** [Poll_errand::reschedule] *)
Definition reschedule (clock : Z) (e : Poll_errand) : next_run :=
  Queued e (clock + _interval e).

(** [Poll_errand::expired] *)
Definition expired (poll : poll_fn) (callback : result_fn) (clock : Z)
    (e : Poll_errand) (w : W) : W * list event * next_run :=
  match poll w with
  | (w1, Some true) =>
      (callback true w1, [Ev_poll (Some true); Ev_callback true], Finished)
  | (w1, Some false) =>
      let e1 := {| _retries := s32 (_retries e - 1); _interval := _interval e |} in
      if _retries e1 <=? 0
      then (callback false w1, [Ev_poll (Some false); Ev_callback false], Finished)
      else (w1, [Ev_poll (Some false)], reschedule clock e1)
  | (w1, None) => (w1, [Ev_poll None], Finished)
  end.

(** [poll]: the first run is immediate, later ones go through the queue. *)
Definition poll_start (poll : poll_fn) (callback : result_fn) (clock retries interval : Z)
    (w : W) : W * list event * next_run :=
  match poll w with
  | (w1, Some true) =>
      (callback true w1, [Ev_poll (Some true); Ev_callback true], Finished)
  | (w1, Some false) =>
      (w1, [Ev_poll (Some false)],
       reschedule clock {| _retries := retries; _interval := interval |})
  | (w1, None) => (w1, [Ev_poll None], Finished)
  end.

(** The server loop, for at most [fuel] expiries of this errand. *)
Fixpoint run_queue (poll : poll_fn) (callback : result_fn) (tick : W -> W)
    (fuel : nat) (n : next_run) (w : W) : W * list event * next_run :=
  match fuel, n with
  | O, _ => (w, [], n)
  | _, Finished => (w, [], Finished)
  | S f, Queued e due =>
      match expired poll callback due e (tick w) with
      | (w1, tr1, n1) =>
          match run_queue poll callback tick f n1 w1 with
          | (w2, tr2, n2) => (w2, tr1 ++ tr2, n2)
          end
      end
  end.

(** A complete run of [Errand::poll]: every expiry that can follow happens.
    [Z.to_nat (Z.max 1 retries)] expiries are enough ([poll_terminates]). *)
Definition poll (f : poll_fn) (callback : result_fn) (tick : W -> W)
    (clock retries interval : Z) (w : W) : W * list event * next_run :=
  match poll_start f callback clock retries interval w with
  | (w1, tr1, n1) =>
      match run_queue f callback tick (Z.to_nat (Z.max 1 retries)) n1 w1 with
      | (w2, tr2, n2) => (w2, tr1 ++ tr2, n2)
      end
  end.

(** [Errand::expired]: the callback may be empty; a runtime error it raises is
    reported and dropped, so only its effect on the world remains. *)
Definition errand_expired (callback : option (W -> W)) (w : W) : W :=
  match callback with
  | Some cb => cb w
  | None => w
  end.

(** [schedule]: the due time of the queued one-shot errand. *)
Definition schedule_due (clock interval : Z) : Z := clock + u32 interval.

(** The results the poll function returned, and the values the completion
    callback got, in order. *)
Definition polls (tr : list event) : list (option bool) :=
  omap (fun e => match e with Ev_poll r => Some r | _ => None end) tr.

Definition callbacks (tr : list event) : list bool :=
  omap (fun e => match e with Ev_callback b => Some b | _ => None end) tr.

(** The traces of a poll that runs its function at most [n] times: [k] times
    "not yet", and then success, a runtime error, or (after all [n]) failure. *)
Inductive poll_shape (n : nat) : list event -> Prop :=
  | Shape_ok k : (k < n)%nat ->
      poll_shape n (replicate k (Ev_poll (Some false))
                      ++ [Ev_poll (Some true); Ev_callback true])
  | Shape_throw k : (k < n)%nat ->
      poll_shape n (replicate k (Ev_poll (Some false)) ++ [Ev_poll None])
  | Shape_give_up :
      poll_shape n (replicate n (Ev_poll (Some false)) ++ [Ev_callback false]).

Lemma poll_shape_cons n tr :
  poll_shape n tr -> poll_shape (S n) (Ev_poll (Some false) :: tr).
Proof.
  destruct 1 as [k Hk|k Hk|].
  - apply (Shape_ok (S n) (S k)). lia.
  - apply (Shape_throw (S n) (S k)). lia.
  - apply (Shape_give_up (S n)).
Qed.

Lemma run_queue_finished f cb tick fuel w :
  run_queue f cb tick fuel Finished w = (w, [], Finished).
Proof. by destruct fuel. Qed.

(** An errand with [r] retries left runs its function at most [max 1 r] times
    more, and that many expiries finish it. *)
Lemma run_queue_shape f cb tick fuel e due w :
  - 2 ^ 31 < _retries e < 2 ^ 31 ->
  fuel = Z.to_nat (Z.max 1 (_retries e)) ->
  exists w' tr, run_queue f cb tick fuel (Queued e due) w = (w', tr, Finished) /\
                poll_shape fuel tr.
Proof.
  revert e due w. induction fuel as [|n IH]; intros e due w Hr Hf; [lia|].
  cbn [run_queue]. unfold expired.
  destruct (f (tick w)) as [w1 [[]|]].
  - rewrite run_queue_finished. do 2 eexists. split; [done|].
    apply (Shape_ok _ 0). lia.
  - cbn [_retries]. rewrite (swrap_small 32) by lia. split_if.
    + rewrite run_queue_finished. replace n with O by lia.
      do 2 eexists. split; [done|]. apply (Shape_give_up 1).
    + destruct (IH {| _retries := _retries e - 1; _interval := _interval e |}
                  (due + _interval e) w1) as (w2 & tr2 & Hrun & Hs);
        [cbn [_retries] in *; lia..|].
      unfold reschedule. cbn [_interval]. rewrite Hrun.
      do 2 eexists. split; [done|]. by apply poll_shape_cons.
  - rewrite run_queue_finished. do 2 eexists. split; [done|].
    apply (Shape_throw _ 0). lia.
Qed.

Lemma poll_shape_polls n tr : poll_shape n tr -> (length (polls tr) <= n)%nat.
Proof.
  intros H. unfold polls.
  assert (Hrep : forall k, omap (fun e => match e with Ev_poll r => Some r | _ => None end)
      (replicate k (Ev_poll (Some false))) = replicate k (Some false)).
  { induction k; cbn; congruence. }
  destruct H; rewrite omap_app, Hrep, length_app, length_replicate; cbn; lia.
Qed.

Lemma poll_shape_false n tr :
  poll_shape n tr -> Forall (fun r => r = Some false) (polls tr) ->
  tr = replicate n (Ev_poll (Some false)) ++ [Ev_callback false].
Proof.
  destruct 1 as [k Hk|k Hk|]; [| |done]; unfold polls;
    rewrite omap_app, Forall_app; cbn; intros [_ H]; inversion H; congruence.
Qed.

(** What the poll function returns, it returned: every result in a trace is a
    result of [f]. *)
Lemma expired_polls f cb clock e w :
  exists w0, polls (expired f cb clock e w).1.2 = [(f w0).2].
Proof.
  exists w. unfold expired. destruct (f w) as [w1 [[]|]]; cbn; [done| |done].
  by split_if.
Qed.

Lemma run_queue_polls f cb tick fuel n w :
  Forall (fun r => exists w0, r = (f w0).2)
    (polls (run_queue f cb tick fuel n w).1.2).
Proof.
  revert n w. induction fuel as [|fl IH]; intros [|e due] w; [constructor..|].
  cbn [run_queue].
  pose proof (expired_polls f cb due e (tick w)) as [w0 Hw0].
  destruct (expired f cb due e (tick w)) as [[w1 tr1] n1].
  specialize (IH n1 w1). destruct (run_queue _ _ _ _ _ _) as [[w2 tr2] n2].
  cbn in *. unfold polls in *. rewrite omap_app, Hw0. constructor; eauto.
Qed.

Lemma poll_run_shape f cb tick clock retries interval w :
  - 2 ^ 31 < retries < 2 ^ 31 ->
  exists w' tr, poll f cb tick clock retries interval w = (w', tr, Finished) /\
                poll_shape (S (Z.to_nat (Z.max 1 retries))) tr.
Proof.
  intros Hr. unfold poll, poll_start, reschedule.
  destruct (f w) as [w1 [[]|]].
  - rewrite run_queue_finished. do 2 eexists. split; [done|].
    apply (Shape_ok _ 0). lia.
  - destruct (run_queue_shape f cb tick _
      {| _retries := retries; _interval := interval |} (clock + interval) w1
      Hr eq_refl) as (w2 & tr2 & Hrun & Hs).
    cbn [_retries _interval] in *. rewrite Hrun.
    do 2 eexists. split; [done|]. by apply poll_shape_cons.
  - rewrite run_queue_finished. do 2 eexists. split; [done|].
    apply (Shape_throw _ 0). lia.
Qed.

(**  A poll always ends, after at most [1 + max 1 retries] runs of its
    function, and (unless the function raises) calls the completion callback
    exactly once, as its last action, with the last result of the function. *)
Theorem poll_terminates f cb tick clock retries interval w :
  - 2 ^ 31 < retries < 2 ^ 31 ->
  exists w' tr, poll f cb tick clock retries interval w = (w', tr, Finished) /\
                poll_shape (S (Z.to_nat (Z.max 1 retries))) tr.
Proof. apply poll_run_shape. Qed.

(**  When the function never succeeds, the bound is reached: it runs
    [1 + max 1 retries] times before the callback is told to give up. *)
Theorem poll_never_ready f cb tick clock retries interval w :
  - 2 ^ 31 < retries < 2 ^ 31 ->
  (forall w, (f w).2 = Some false) ->
  (poll f cb tick clock retries interval w).1.2 =
    replicate (S (Z.to_nat (Z.max 1 retries))) (Ev_poll (Some false))
      ++ [Ev_callback false].
Proof.
  intros Hr Hf.
  destruct (poll_run_shape f cb tick clock retries interval w Hr)
    as (w' & tr & Hp & Hs).
  rewrite Hp. apply poll_shape_false; [done|].
  assert (tr = (poll f cb tick clock retries interval w).1.2) as -> by by rewrite Hp.
  unfold poll, poll_start, reschedule. specialize (Hf w) as Hfw.
  destruct (f w) as [w1 r]. cbn in Hfw. subst r.
  pose proof (run_queue_polls f cb tick (Z.to_nat (Z.max 1 retries))
    (Queued {| _retries := retries; _interval := interval |} (clock + interval)) w1) as H.
  destruct (run_queue _ _ _ _ _ _) as [[w2 tr2] n2]. cbn in *.
  constructor; [done|]. eapply Forall_impl; [|exact H].
  intros r [w0 ->]. apply Hf.
Qed.

End Errand.

(** ** Two concrete polls: the world counts the runs of the poll function *)

Lemma poll_terminates_witness :
  exists w' tr,
    poll (fun w => (w + 1, Some (w =? 3))) (fun _ w => w) (fun w => w) 0 10 500 0
      = (w', tr, Finished) /\ poll_shape 11 tr.
Proof.
  refine (poll_terminates (fun w => (w + 1, Some (w =? 3))) (fun _ w => w)
    (fun w => w) 0 10 500 0 _). by_eval.
Defined.

Lemma poll_never_ready_witness :
  (poll (fun w => (w + 1, Some false)) (fun _ w => w) (fun w => w) 0 3 500 0).1.2
    = replicate 4 (Ev_poll (Some false)) ++ [Ev_callback false].
Proof.
  refine (poll_never_ready (fun w => (w + 1, Some false)) (fun _ w => w)
    (fun w => w) 0 3 500 0 _ _); [by_eval|reflexivity].
Defined.
