(* ===== verification/BlockTypes.v ===== *)
(** * Types and device interface of the block-device library

    Models [src/pkg/libblock-device/include/types.h], the interface
    [Block_device::Device] of [device.h], and the partition records of
    [partition.h], [mbr.h] and [gpt.h]. *)

From S2P Require Import Prelude.

(** ** types.h *)

(** [enum Inout_flags] *)
Definition Inout_f_wb : Z := 1.
Definition Inout_f_unmap : Z := 2.

(** [enum Shutdown_type] *)
Inductive Shutdown_type :=
  | Running | Client_gone | Client_shutdown | System_shutdown | System_suspend.

#[global] Instance Shutdown_type_eq_dec : EqDecision Shutdown_type.
Proof. solve_decision. Defined.

(** [L4Re::Dma_space::Direction] *)
Inductive Direction := Bidirectional | To_device | From_device | Dir_none.

#[global] Instance Direction_eq_dec : EqDecision Direction.
Proof. solve_decision. Defined.

(** [struct Inout_block] without its [next] pointer.  A scatter-gather chain
    is the list of the blocks its [next] pointers visit, first block first; the
    first block always exists. *)
Record Inout_block := {
  dma_addr : Z;
  virt_addr : Z;
  sector : Z;
  num_sectors : Z;
  flags : Z;
}.

Definition Inout_block_init : Inout_block :=
  {| dma_addr := 0; virt_addr := 0; sector := 0; num_sectors := 0; flags := 0 |}.

#[global] Instance Inout_block_eq_dec : EqDecision Inout_block.
Proof. solve_decision. Defined.

Abbreviation chain := (list Inout_block) (only parsing).

(** ** device.h *)

(** [Device_discard_feature::Discard_info] *)
Record Discard_info := {
  max_discard_sectors : Z;
  max_discard_seg : Z;
  discard_sector_alignment : Z;
  max_write_zeroes_sectors : Z;
  max_write_zeroes_seg : Z;
  write_zeroes_may_unmap : bool;
}.

Definition Discard_info_init : Discard_info :=
  {| max_discard_sectors := 0; max_discard_seg := 0; discard_sector_alignment := 1;
     max_write_zeroes_sectors := 0; max_write_zeroes_seg := 0;
     write_zeroes_may_unmap := false |}.

(** [struct Device] together with [Device_discard_feature], over the state [D]
    of a device.  Completion callbacks are represented by the token the caller
    passes; [match_hid] returns [None] when it raises; [discard_info] is [None]
    for a device class that is not derived from [Device_discard_feature]. *)
Class Device (D : Type) := {
  notification_domain : D -> Z;
  is_read_only : D -> bool;
  match_hid : D -> bytes -> option bool;
  capacity : D -> Z;
  sector_size : D -> Z;
  max_size : D -> Z;
  max_segments : D -> Z;
  reset : D -> D;
  dma_map : D -> Z -> Z -> Z -> Direction -> D * (l4_ret * Z);
  dma_unmap : D -> Z -> Z -> Direction -> D * l4_ret;
  inout_data : D -> Z -> chain -> Z -> Direction -> D * l4_ret;
  flush : D -> Z -> D * l4_ret;
  discard_info : D -> option Discard_info;
  discard : D -> Z -> chain -> Z -> bool -> D * l4_ret;
}.

(** ** partition.h, mbr.h: what a partition table reader reports *)

(** [enum Partition_type]; [Part_none] is the zero value of a fresh record. *)
Inductive Partition_type := Part_none | Gpt_part | Mbr_part.

#[global] Instance Partition_type_eq_dec : EqDecision Partition_type.
Proof. solve_decision. Defined.

(** [struct Partition_info]; the UUID is kept as the C string in [uuid[37]],
    the name as the sequence of UTF-16 code units. *)
Record Partition_info := {
  pi_type : Partition_type;
  pi_uuid : bytes;
  pi_name : list Z;
  pi_first : Z;
  pi_last : Z;
  pi_flags : Z;
}.

#[global] Instance Partition_info_eq_dec : EqDecision Partition_info.
Proof. solve_decision. Defined.

(** The value-initialised record. *)
Definition Partition_info_init : Partition_info :=
  {| pi_type := Part_none; pi_uuid := []; pi_name := []; pi_first := 0;
     pi_last := 0; pi_flags := 0 |}.
