(* ===== verification/Reader.v ===== *)
(** * Reading sectors for the partition table readers

    Models [Base_reader] of [src/pkg/libblock-device/include/partition.h]: the
    completion callback and the polled sector read every reader is built on.
    The device is an interface, [Read_device]: what one call of
    [Device::inout_data] on a freshly mapped [Inout_memory] can do. *)

From S2P Require Import Prelude Errand.

(** What [inout_data] did with a read request.  [S_completed error mem] stands
    for a request that was accepted and whose completion callback was called
    with [error], [mem] being the content of the I/O memory at that time. *)
Inductive submission :=
  | S_busy
  | S_rejected (e : errno)
  | S_completed (error : Z) (mem : bytes).

(** The device as the readers see it, over its state [D]. *)
Class Read_device (D : Type) := {
  rdev_sector_size : D -> Z;
  (** [Inout_memory(num_sectors, dev, From_device)]: the initial content of the
      new I/O memory, or [None] when the constructor raises *)
  rdev_alloc : D -> Z -> option bytes;
  (** [inout_data(sector, block of num_sectors)] *)
  rdev_inout : D -> Z -> Z -> D * submission;
  (** what the rest of the server does to the device between two polls *)
  rdev_tick : D -> D;
}.

(** What the readers rely on: the sector size is a constant of at least 512
    bytes, and I/O memory for [n] sectors holds [n] sectors of bytes. *)
Class Read_device_ok (D : Type) `{Read_device D} : Prop := {
  rdev_size_inout : forall d s n,
    rdev_sector_size (rdev_inout d s n).1 = rdev_sector_size d;
  rdev_size_tick : forall d, rdev_sector_size (rdev_tick d) = rdev_sector_size d;
  rdev_size_range : forall d, 512 <= rdev_sector_size d < 2 ^ 31;
  rdev_mem : forall d s n d' err mem,
    rdev_inout d s n = (d', S_completed err mem) -> 0 <= n ->
    zlen mem = n * rdev_sector_size d /\ bytes_ok mem;
  rdev_fresh : forall d n mem,
    rdev_alloc d n = Some mem -> 0 <= n ->
    zlen mem = n * rdev_sector_size d /\ bytes_ok mem;
}.

(** The [_callback] member: whether it is set, and how often it was called. *)
Record callback := { cb_set : bool; cb_calls : nat }.

(** [Base_reader::invoke_callback] *)
Definition invoke_callback (cb : callback) : run callback :=
  if cb_set cb
  then Ret {| cb_set := false; cb_calls := S (cb_calls cb) |}
  else Asserted.

(** How a sector read ends: the reader's callback is invoked right away, or the
    continuation [func] is called with the completion code. *)
Inductive sectors_result :=
  | Read_pending
  | Read_invoke
  | Read_next (error : Z) (mem : bytes).

Section Read_sectors.

Context `{Read_device D}.

(** The lambda passed to [Errand::poll]. *)
Definition poll_inout (sector num : Z) (w : D * sectors_result)
    : (D * sectors_result) * option bool :=
  let '(d, r) := w in
  match rdev_inout d sector num with
  | (d1, S_busy) => ((d1, r), Some false)
  | (d1, S_rejected e) =>
      if bool_decide (e = EBUSY) then ((d1, r), Some false)
      else ((d1, Read_invoke), Some true)
  | (d1, S_completed error mem) => ((d1, Read_next error mem), Some true)
  end.

(** The completion lambda of the poll. *)
Definition poll_result (ret : bool) (w : D * sectors_result) : D * sectors_result :=
  if ret then w else (w.1, Read_invoke).

(** [Base_reader::read_sectors] *)
Definition read_sectors (sector num : Z) : prog D sectors_result := fun d =>
  let '(w, _, _) := poll (poll_inout sector num) poll_result
                         (fun w => (rdev_tick w.1, w.2)) 0 10 10000 (d, Read_pending) in
  (w.1, Ret w.2).

(** [Inout_memory(num, dev, From_device)] *)
Definition alloc_io (num : Z) : prog D bytes := fun d =>
  match rdev_alloc d num with
  | None => (d, Raised)
  | Some fresh => (d, Ret fresh)
  end.

(** [_dev->sector_size()] *)
Definition get_secsz : prog D Z := fun d => (d, Ret (rdev_sector_size d)).

(** ** The read is never left hanging *)

Context `{!Read_device_ok D}.

(** A property of the world that [poll_inout], its completion lambda and the
    rest of the server preserve holds when the read ends. *)
Lemma run_queue_inv {W} (P : W -> Prop) f cb tick fuel n w :
  (forall w, P w -> P (f w).1) -> (forall b w, P w -> P (cb b w)) ->
  (forall w, P w -> P (tick w)) ->
  P w -> P (run_queue f cb tick fuel n w).1.1.
Proof.
  intros Hf Hc Ht. revert n w. induction fuel as [|fl IH]; intros [|e due] w Hw;
    [done..|]. cbn [run_queue].
  assert (P (expired f cb due e (tick w)).1.1) as He.
  { unfold expired. pose proof (Hf (tick w) (Ht w Hw)) as Hfw.
    destruct (f (tick w)) as [w1 [[]|]]; cbn in *; [by apply Hc| |done].
    split_if; cbn; [by apply Hc|done]. }
  destruct (expired f cb due e (tick w)) as [[w1 tr1] n1]. cbn in He.
  specialize (IH n1 w1 He). by destruct (run_queue _ _ _ _ _ _) as [[w2 tr2] n2].
Qed.

Lemma poll_inv {W} (P : W -> Prop) f cb tick clock retries interval w :
  (forall w, P w -> P (f w).1) -> (forall b w, P w -> P (cb b w)) ->
  (forall w, P w -> P (tick w)) ->
  P w -> P (poll f cb tick clock retries interval w).1.1.
Proof.
  intros Hf Hc Ht Hw. unfold poll.
  assert (P (poll_start f cb clock retries interval w).1.1) as Hs.
  { unfold poll_start. pose proof (Hf w Hw) as Hfw.
    destruct (f w) as [w1 [[]|]]; cbn in *; [by apply Hc|done|done]. }
  destruct (poll_start _ _ _ _ _ _) as [[w1 tr1] n1]. cbn in Hs.
  pose proof (run_queue_inv P f cb tick (Z.to_nat (Z.max 1 retries)) n1 w1
    Hf Hc Ht Hs) as Hq.
  by destruct (run_queue _ _ _ _ _ _) as [[w2 tr2] n2].
Qed.

(** What the world of a sector read satisfies at every point. *)
Definition world_ok (d : D) (num : Z) (w : D * sectors_result) : Prop :=
  rdev_sector_size w.1 = rdev_sector_size d /\
  forall err mem, w.2 = Read_next err mem ->
    zlen mem = num * rdev_sector_size d /\ bytes_ok mem.

Lemma read_sectors_world d sector num :
  0 <= num ->
  exists d' r, read_sectors sector num d = (d', Ret r) /\ world_ok d num (d', r).
Proof.
  intros Hn. unfold read_sectors.
  pose proof (poll_inv (world_ok d num) (poll_inout sector num) poll_result
    (fun w => (rdev_tick w.1, w.2)) 0 10 10000 (d, Read_pending)) as Hw.
  destruct (poll _ _ _ _ _ _ _) as [[[d' r] tr] n]. cbn in *.
  exists d', r. split; [done|]. apply Hw.
  - intros [d1 r1] [Hs Hr]. unfold poll_inout.
    pose proof (rdev_size_inout d1 sector num) as Hs1.
    destruct (rdev_inout d1 sector num) as [d2 [|e|err mem]] eqn:E; cbn in *.
    + split; cbn; [congruence|done].
    + case_bool_decide; (split; cbn; [congruence|]); [done|]. intros ? ? [=].
    + apply rdev_mem in E; [|done]. split; cbn; [congruence|].
      intros ? ? [= <- <-]. by rewrite <- Hs.
  - intros b [d1 r1] [Hs Hr]. unfold poll_result. by destruct b.
  - intros [d1 r1] [Hs Hr]. split; cbn in *; [by rewrite rdev_size_tick|done].
  - done.
Qed.

(** When the poll function does not raise, the last action of a finished run
    is the completion callback. *)
Lemma run_queue_post {W} (Q : W -> Prop) f cb tick fuel e due w w' tr :
  (forall w, (f w).2 <> None) ->
  (forall w, (f w).2 = Some true -> Q (cb true (f w).1)) ->
  (forall w, Q (cb false w)) ->
  run_queue f cb tick fuel (Queued e due) w = (w', tr, Finished) -> Q w'.
Proof.
  intros Hn Ht Hf. revert e due w tr. induction fuel as [|fl IH];
    intros e due w tr; cbn [run_queue]; [done|]. unfold expired.
  pose proof (Hn (tick w)) as Hn1. pose proof (Ht (tick w)) as Ht1.
  destruct (f (tick w)) as [w1 [[]|]]; cbn in *; [| |done].
  - rewrite run_queue_finished. intros [= <- <-]. eauto.
  - split_if.
    + rewrite run_queue_finished. intros [= <- <-]. eauto.
    + destruct (run_queue _ _ _ _ _ _) as [[w2 tr2] n2] eqn:E.
      intros [= <- <- ->]. eapply IH, E.
Qed.

Lemma poll_post {W} (Q : W -> Prop) f cb tick clock retries interval w w' tr :
  (forall w, (f w).2 <> None) ->
  (forall w, (f w).2 = Some true -> Q (cb true (f w).1)) ->
  (forall w, Q (cb false w)) ->
  poll f cb tick clock retries interval w = (w', tr, Finished) -> Q w'.
Proof.
  intros Hn Ht Hf. unfold poll, poll_start, reschedule.
  pose proof (Hn w) as Hn1. pose proof (Ht w) as Ht1.
  destruct (f w) as [w1 [[]|]]; cbn - [run_queue] in *; [| |done].
  - rewrite run_queue_finished. intros [= <- <-]. eauto.
  - destruct (run_queue _ _ _ _ _ _) as [[w2 tr2] n2] eqn:E.
    intros [= <- <- ->]. by eapply run_queue_post, E.
Qed.

(** A sector read always ends, in the callback or in the continuation. *)
Lemma read_sectors_ends d sector num :
  0 <= num ->
  exists d' r, read_sectors sector num d = (d', Ret r) /\ r <> Read_pending /\
               world_ok d num (d', r).
Proof.
  intros Hn. destruct (read_sectors_world d sector num Hn) as (d' & r & Hr & Hw).
  exists d', r. split_and!; [done| |done]. unfold read_sectors in Hr.
  destruct (poll_run_shape (poll_inout sector num) poll_result
    (fun w => (rdev_tick w.1, w.2)) 0 10 10000 (d, Read_pending))
    as (w' & tr & Hp & _); [lia|].
  rewrite Hp in Hr. injection Hr as <- <-.
  apply (poll_post (fun w => w.2 <> Read_pending)) in Hp; [done|..].
  - intros [d1 r1]. unfold poll_inout.
    destruct (rdev_inout d1 sector num) as [? [|e|]]; cbn; [done| |done].
    by case_bool_decide.
  - intros [d1 r1]. unfold poll_inout, poll_result.
    destruct (rdev_inout d1 sector num) as [? [|e|]]; cbn; [done| |done].
    by case_bool_decide.
  - by intros [d1 r1].
Qed.

(** ** Rules for computations of a reader

    [ends d m P]: run on the device [d], [m] ends, with a result that satisfies
    [P] or by passing on an exception (I/O memory could not be allocated); no
    access was out of bounds, no assertion failed and the sector size of the
    device is the same. *)
Definition ends {A} (d : D) (m : prog D A) (P : A -> Prop) : Prop :=
  exists d' res, m d = (d', res) /\ rdev_sector_size d' = rdev_sector_size d /\
    match res return Prop with Ret a => P a | Raised => True | _ => False end.

Lemma ends_ret {A} d (r : run A) (P : A -> Prop) a :
  r = Ret a -> P a -> ends d (lift r) P.
Proof. intros -> HP. by exists d, (Ret a). Qed.

Lemma ends_bind {A B} d (m : prog D A) (f : A -> prog D B) Q P :
  ends d m Q ->
  (forall a d1, rdev_sector_size d1 = rdev_sector_size d -> Q a -> ends d1 (f a) P) ->
  ends d (m ≫= f) P.
Proof.
  intros (d1 & res & Hm & Hs & HQ) Hf. unfold ends, mbind, prog_bind. rewrite Hm.
  destruct res as [a| | | | |]; try done; [|by exists d1, Raised].
  destruct (Hf a d1 Hs HQ) as (d2 & res & Hr & Hs2 & HP).
  exists d2, res. split_and!; [done|congruence|done].
Qed.

(** A read from memory that is known to succeed. *)
Lemma ends_oob {A B} d (o : option A) a (f : A -> prog D B) P :
  o = Some a -> ends d (f a) P -> ends d (lift (or_oob o) ≫= f) P.
Proof.
  intros -> Hf. destruct Hf as (d1 & res & Hm & Hs & HP). by exists d1, res.
Qed.

Lemma ends_alloc d num :
  0 <= num ->
  ends d (alloc_io num) (fun m => zlen m = num * rdev_sector_size d /\ bytes_ok m).
Proof.
  intros Hn. unfold ends, alloc_io. destruct (rdev_alloc d num) as [m|] eqn:E.
  - exists d, (Ret m). do 2 (split; [done|]). by apply rdev_fresh.
  - by exists d, Raised.
Qed.

Lemma ends_secsz {B} d (f : Z -> prog D B) P :
  ends d (f (rdev_sector_size d)) P -> ends d (get_secsz ≫= f) P.
Proof. intros Hf. exact Hf. Qed.

Lemma ends_read d sec num :
  0 <= num ->
  ends d (read_sectors sec num) (fun r => r = Read_invoke \/
    exists error mem, r = Read_next error mem /\
      zlen mem = num * rdev_sector_size d /\ bytes_ok mem).
Proof.
  intros Hn. destruct (read_sectors_ends d sec num Hn) as (d1 & r & Hr & Hp & Hs & Hm).
  exists d1, (Ret r). split_and!; [done..|].
  destruct r as [| |error mem]; [done|by left|right]. destruct (Hm _ _ eq_refl). eauto.
Qed.

(** What every completed transfer of the device satisfies, the memory a read
    delivers satisfies. *)
Lemma ends_read_with (Q : Z -> Z -> bytes -> Prop) d sec num :
  (forall d1 s d2 err mem, rdev_inout d1 s num = (d2, S_completed err mem) ->
     Q (rdev_sector_size d1) err mem) ->
  0 <= num ->
  ends d (read_sectors sec num) (fun r => r = Read_invoke \/
    exists error mem, r = Read_next error mem /\
      zlen mem = num * rdev_sector_size d /\ bytes_ok mem /\
      Q (rdev_sector_size d) error mem).
Proof.
  intros HQ Hn. destruct (read_sectors_ends d sec num Hn) as (d1 & r & Hr & Hp & Hs & Hm).
  exists d1, (Ret r). split; [done|]. split; [done|].
  destruct r as [| |error mem]; [done|by left|right]. destruct (Hm _ _ eq_refl) as [Hl Hb].
  exists error, mem. split_and!; [done..|]. unfold read_sectors in Hr.
  pose proof (poll_inv (fun w => rdev_sector_size w.1 = rdev_sector_size d /\
      forall err mem, w.2 = Read_next err mem -> Q (rdev_sector_size d) err mem)
    (poll_inout sec num) poll_result
    (fun w => (rdev_tick w.1, w.2)) 0 10 10000 (d, Read_pending)) as Hw.
  destruct (poll _ _ _ _ _ _ _) as [[[d' r'] tr] n]. cbn in Hw, Hr.
  injection Hr as -> ->. apply Hw; [..|done]; clear Hw.
  - intros [d2 r2] [Hs2 Hr2]. unfold poll_inout. cbn in Hs2, Hr2.
    pose proof (rdev_size_inout d2 sec num) as Hs3.
    destruct (rdev_inout d2 sec num) as [d3 [|e|err mem2]] eqn:E; cbn in *.
    + split; [congruence|done].
    + case_bool_decide; (split; cbn; [congruence|]); [done|]. intros ? ? [=].
    + split; [congruence|]. intros ? ? [= <- <-]. rewrite <- Hs2. by eapply HQ.
  - intros b [d2 r2] Hw2. unfold poll_result. destruct b; [done|]. split; [apply Hw2|done].
  - intros [d2 r2] [Hs2 Hr2]. split; cbn in *; [by rewrite rdev_size_tick|done].
  - done.
Qed.

Lemma ends_mono {A} d (m : prog D A) (P Q : A -> Prop) :
  ends d m P -> (forall a, P a -> Q a) -> ends d m Q.
Proof.
  intros (d1 & res & Hm & Hs & HP) Hi. exists d1, res. split_and!; [done..|].
  destruct res; auto.
Qed.

(** A device that works and holds the sectors of [img]. *)
Definition delivers (d : D) (img : bytes) : Prop :=
  forall s n, 0 <= s -> 0 <= n -> (s + n) * rdev_sector_size d <= zlen img ->
    rdev_inout d s n =
      (d, S_completed 0 (slice (s * rdev_sector_size d) (n * rdev_sector_size d) img)) /\
    is_Some (rdev_alloc d n).

Lemma read_sectors_delivers d img s n :
  delivers d img -> 0 <= s -> 0 <= n -> (s + n) * rdev_sector_size d <= zlen img ->
  read_sectors s n d =
    (d, Ret (Read_next 0 (slice (s * rdev_sector_size d) (n * rdev_sector_size d) img))).
Proof.
  intros Hd Hs Hn Hi. destruct (Hd s n Hs Hn Hi) as [Hio _].
  unfold read_sectors, poll, poll_start, poll_inout. by rewrite Hio.
Qed.

End Read_sectors.

(** ** A disk image with 512-byte sectors, as a device *)

Record image := { img_bytes : bytes }.

#[global] Instance image_device : Read_device image := {
  rdev_sector_size _ := 512;
  rdev_alloc _ n := Some (replicate (Z.to_nat (n * 512)) 0);
  rdev_inout d s n :=
    if (0 <=? s) && (0 <=? n) && ((s + n) * 512 <=? zlen (img_bytes d))
    then (d, S_completed 0 (u8 <$> slice (s * 512) (n * 512) (img_bytes d)))
    else (d, S_rejected EINVAL);
  rdev_tick d := d;
}.

#[global] Instance image_device_ok : Read_device_ok image.
Proof.
  split; cbn; try done.
  - intros d s n d' err mem. split_if; [|done]. intros [= <- <- <-] Hn. split.
    + unfold zlen. rewrite length_fmap. apply zlen_slice; lia.
    + apply Forall_fmap, Forall_true. intros b. apply (uwrap_range 8). lia.
  - intros d n mem [= <-] Hn. split.
    + unfold zlen. rewrite length_replicate. lia.
    + apply Forall_replicate. unfold byte_ok. lia.
Qed.

Lemma image_delivers img : bytes_ok img -> delivers {| img_bytes := img |} img.
Proof.
  intros Hok s n Hs Hn Hl. cbn in *. split; [|by eexists].
  replace (0 <=? s) with true by lia. replace (0 <=? n) with true by lia.
  replace ((s + n) * 512 <=? zlen img) with true by lia. cbn.
  do 2 f_equal. rewrite <- list_fmap_id. apply list_fmap_ext.
  intros i b Hb. apply uwrap_small.
  eapply Forall_lookup_1 in Hb; [exact Hb|]. by apply bytes_ok_slice.
Qed.
