(* ===== verification/Gpt.v ===== *)
(** * The GPT partition table reader

    Models [Gpt_reader] of [src/pkg/libblock-device/include/partition.h] over
    the on-disk layout of [gpt.h].  The width of [l4_size_t] is a parameter
    ([size_w], 32 or 64). *)

From S2P Require Import Prelude BlockTypes Reader.

(** ** gpt.h *)

(** The fields of [Gpt::Header] the reader uses. *)
Record Gpt_Header := {
  gh_signature : bytes;
  gh_partition_array_lba : Z;
  gh_partition_array_size : Z;
  gh_entry_size : Z;
}.

(** [struct Gpt::Entry] *)
Record Gpt_Entry := {
  ge_type_guid : bytes;
  ge_partition_guid : bytes;
  ge_first : Z;
  ge_last : Z;
  ge_flags : Z;
  ge_name : list Z;
}.

Definition sizeof_Gpt_Header : Z := 92.
Definition sizeof_Gpt_Entry : Z := 128.

(** Overlay of a [Gpt::Header] on memory. *)
Definition Gpt_Header_at (off : Z) (m : bytes) : option Gpt_Header :=
  sig ← rd_bytes off 8 m;
  lba ← rd 8 (off + 72) m;
  n ← rd 4 (off + 80) m;
  sz ← rd 4 (off + 84) m;
  Some {| gh_signature := sig; gh_partition_array_lba := lba;
          gh_partition_array_size := n; gh_entry_size := sz |}.

(** [count] 16-bit units from [off]. *)
Fixpoint rd_u16s (count : nat) (off : Z) (m : bytes) : option (list Z) :=
  match count with
  | O => Some []
  | S k => c ← rd 2 off m; cs ← rd_u16s k (off + 2) m; Some (c :: cs)
  end.

(** Overlay of a [Gpt::Entry] on memory. *)
Definition Gpt_Entry_at (off : Z) (m : bytes) : option Gpt_Entry :=
  tg ← rd_bytes off 16 m;
  pg ← rd_bytes (off + 16) 16 m;
  f ← rd 8 (off + 32) m;
  l ← rd 8 (off + 40) m;
  fl ← rd 8 (off + 48) m;
  nm ← rd_u16s 36 (off + 56) m;
  Some {| ge_type_guid := tg; ge_partition_guid := pg; ge_first := f;
          ge_last := l; ge_flags := fl; ge_name := nm |}.

(** ** The reader *)

(** [Base_reader::Max_partitions] *)
Definition Max_partitions : Z := 1024.

(** The byte order of [render_guid]'s format arguments, split at the dashes. *)
Definition guid_order : list (list nat) :=
  [[3; 2; 1; 0]; [5; 4]; [7; 6]; [8; 9]; [10; 11; 12; 13; 14; 15]]%nat.

Definition dash : Z := 45.

Fixpoint join_dash (ls : list bytes) : bytes :=
  match ls with
  | [] => []
  | [l] => l
  | l :: ls => l ++ dash :: join_dash ls
  end.

(** [Gpt_reader::render_guid] *)
Definition render_guid (p : bytes) : bytes :=
  snprintf_out 37
    (join_dash ((fun idx => mjoin ((fun i => fmtX 2 (default 0 (p !! i))) <$> idx))
                  <$> guid_order)).

Arguments render_guid : simpl never.

(** [name.substr(0, name.find((char16_t) 0))] *)
Fixpoint upto_nul (s : list Z) : list Z :=
  match s with
  | [] => []
  | c :: t => if c =? 0 then [] else c :: upto_nul t
  end.

(** The members of [Gpt_reader]: the two I/O memories by their content. *)
Record Gpt_reader := {
  gpt_num_partitions : Z;
  gpt_header : bytes;
  gpt_parray : bytes;
  gpt_callback : callback;
}.

(** [table_size] *)
Definition gpt_table_size (r : Gpt_reader) : Z := gpt_num_partitions r.

(** [Base::invoke_callback()] on a GPT reader *)
Definition gpt_invoke (r : Gpt_reader) : run Gpt_reader :=
  cb ← invoke_callback (gpt_callback r);
  Ret {| gpt_num_partitions := gpt_num_partitions r; gpt_header := gpt_header r;
         gpt_parray := gpt_parray r; gpt_callback := cb |}.

(** [get_partition]: the byte offset of an entry is an [unsigned]. *)
Definition gpt_get_partition (secsz : Z) (r : Gpt_reader) (idx : Z)
    (inf : Partition_info) : run (l4_ret * Partition_info) :=
  if (idx =? 0) || (gpt_num_partitions r <? idx) then Ret (Err ERANGE, inf)
  else
    h ← or_oob (Gpt_Header_at secsz (gpt_header r));
    let off := u32 ((idx - 1) * gh_entry_size h) in
    g ← or_oob (rd 8 (off + 16) (gpt_parray r));
    if g =? 0 then Ret (Err ENODEV, inf)
    else
      e ← or_oob (Gpt_Entry_at off (gpt_parray r));
      let inf1 :=
        {| pi_type := Gpt_part; pi_uuid := render_guid (ge_partition_guid e);
           pi_name := upto_nul (ge_name e); pi_first := ge_first e;
           pi_last := ge_last e; pi_flags := ge_flags e |} in
      if pi_last inf1 <? pi_first inf1 then Ret (Err ENODEV, inf1)
      else Ret (Ok, inf1).

Section Gpt_read.

Context (size_w : Z) `{Read_device D}.

(** Sectors of the partition array, [numsec] as passed to [Inout_memory]. *)
Definition gpt_numsec (secsz num entry_size : Z) : Z :=
  let arraysz := num *[size_w] entry_size in
  u32 ((arraysz -[size_w] 1 +[size_w] secsz) / secsz).

(** [done_gpt] *)
Definition done_gpt (r : Gpt_reader) (error : Z) (mem : bytes) : prog D Gpt_reader :=
  lift (gpt_invoke
    {| gpt_num_partitions := if error <? 0 then 0 else gpt_num_partitions r;
       gpt_header := gpt_header r; gpt_parray := mem;
       gpt_callback := gpt_callback r |}).

(** [get_gpt] *)
Definition get_gpt (r0 : Gpt_reader) (error : Z) (mem : bytes) : prog D Gpt_reader :=
  fun d =>
  let secsz := rdev_sector_size d in
  let r := {| gpt_num_partitions := gpt_num_partitions r0; gpt_header := mem;
              gpt_parray := gpt_parray r0; gpt_callback := gpt_callback r0 |} in
  if error <? 0 then lift (gpt_invoke r) d
  else
    (h ← lift (or_oob (Gpt_Header_at secsz mem));
     if negb (bool_decide (gh_signature h = str "EFI PART")) then lift (gpt_invoke r)
     else
       let num := Z.min (gh_partition_array_size h) Max_partitions in
       let numsec := gpt_numsec secsz num (gh_entry_size h) in
       fun d1 =>
       match rdev_alloc d1 numsec with
       | None => (d1, Raised)
       | Some fresh =>
           let r1 := {| gpt_num_partitions := num; gpt_header := mem;
                        gpt_parray := fresh; gpt_callback := gpt_callback r |} in
           (res ← read_sectors (gh_partition_array_lba h) numsec;
            match res with
            | Read_next error1 mem1 => done_gpt r1 error1 mem1
            | _ => lift (gpt_invoke r1)
            end) d1
       end) d.

(** [read]: the two header sectors first. *)
Definition gpt_read (r : Gpt_reader) : prog D Gpt_reader :=
  let r1 := {| gpt_num_partitions := 0; gpt_header := gpt_header r;
               gpt_parray := gpt_parray r;
               gpt_callback := {| cb_set := true; cb_calls := cb_calls (gpt_callback r) |} |} in
  res ← read_sectors 0 2;
  match res with
  | Read_next error mem => get_gpt r1 error mem
  | _ => lift (gpt_invoke r1)
  end.

(** The constructor: I/O memory for two sectors, nothing read yet. *)
Definition gpt_init (secsz : Z) : Gpt_reader :=
  {| gpt_num_partitions := 0; gpt_header := replicate (Z.to_nat (2 * secsz)) 0;
     gpt_parray := []; gpt_callback := {| cb_set := false; cb_calls := 0 |} |}.

(** ** What a finished read guarantees *)

Context `{!Read_device_ok D} (Hsize_w : size_w = 32 \/ size_w = 64).

(** The table a reader offers: no entries, or the entries announced by a GPT
    header, with I/O memory of the size [get_gpt] computes for them. *)
Definition gpt_table_ok (secsz : Z) (r : Gpt_reader) : Prop :=
  0 <= gpt_num_partitions r <= Max_partitions /\
  (gpt_num_partitions r = 0 \/
   exists h, Gpt_Header_at secsz (gpt_header r) = Some h /\
     gh_signature h = str "EFI PART" /\ 0 <= gh_entry_size h < 2 ^ 32 /\
     gpt_num_partitions r = Z.min (gh_partition_array_size h) Max_partitions /\
     zlen (gpt_parray r) =
       gpt_numsec secsz (gpt_num_partitions r) (gh_entry_size h) * secsz).

(** [r] is [r0] after exactly one call of its callback. *)
Definition gpt_called (r0 r : Gpt_reader) : Prop :=
  gpt_callback r = {| cb_set := false; cb_calls := S (cb_calls (gpt_callback r0)) |}.

Lemma Gpt_Header_at_Some off m :
  0 <= off -> off + sizeof_Gpt_Header <= zlen m -> bytes_ok m ->
  exists h, Gpt_Header_at off m = Some h /\ 0 <= gh_entry_size h < 2 ^ 32 /\
    0 <= gh_partition_array_size h < 2 ^ 32.
Proof.
  unfold sizeof_Gpt_Header. intros Ho Hl Hb. unfold Gpt_Header_at.
  destruct (rd_bytes_is_Some off 8 m) as [sig ->]; [lia..|].
  destruct (rd_is_Some 8 (off + 72) m) as [lba ->]; [lia..|].
  destruct (rd_is_Some 4 (off + 80) m) as [n Hn]; [lia..|].
  destruct (rd_is_Some 4 (off + 84) m) as [sz Hsz]; [lia..|].
  rewrite Hn, Hsz. eexists. split; [reflexivity|].
  apply rd_range in Hn, Hsz; [|done..]. cbn. lia.
Qed.

Lemma gpt_numsec_nonneg secsz n es : 0 <= gpt_numsec secsz n es.
Proof. unfold gpt_numsec. apply uwrap_nonneg. lia. Qed.

Lemma gpt_table_empty secsz r : gpt_num_partitions r = 0 -> gpt_table_ok secsz r.
Proof. unfold gpt_table_ok, Max_partitions. intros ->. split; [lia|]. by left. Qed.

(** Ending a read by the callback keeps the table. *)
Lemma gpt_invoke_table secsz r0 r d :
  gpt_callback r = {| cb_set := true; cb_calls := cb_calls (gpt_callback r0) |} ->
  gpt_table_ok secsz r ->
  ends d (lift (S := D) (gpt_invoke r)) (fun r' => gpt_called r0 r' /\ gpt_table_ok secsz r').
Proof.
  intros Hc Hok. eapply ends_ret; [unfold gpt_invoke, invoke_callback; by rewrite Hc|].
  by split.
Qed.

(** The reader after the GPT header [h] was found in [mem], with an array
    memory [pa] of the computed size and [num] entries or none. *)
Lemma gpt_table_found secsz r h mem pa num cb :
  r = {| gpt_num_partitions := num; gpt_header := mem; gpt_parray := pa;
         gpt_callback := cb |} ->
  Gpt_Header_at secsz mem = Some h -> gh_signature h = str "EFI PART" ->
  0 <= gh_entry_size h < 2 ^ 32 -> 0 <= gh_partition_array_size h ->
  num = Z.min (gh_partition_array_size h) Max_partitions ->
  zlen pa = gpt_numsec secsz num (gh_entry_size h) * secsz ->
  gpt_table_ok secsz r.
Proof.
  intros -> Hh Hsig Hes Has Hnum Hpa. unfold gpt_table_ok, Max_partitions in *. cbn.
  split; [lia|]. right. exists h. split_and!; try done; lia.
Qed.

(** Reading the array: [get_gpt] after the header was accepted. *)
Lemma get_gpt_array r0 r1 h mem fresh num d :
  let secsz := rdev_sector_size d in
  let ns := gpt_numsec secsz num (gh_entry_size h) in
  r1 = {| gpt_num_partitions := num; gpt_header := mem; gpt_parray := fresh;
          gpt_callback := {| cb_set := true; cb_calls := cb_calls (gpt_callback r0) |} |} ->
  Gpt_Header_at secsz mem = Some h -> gh_signature h = str "EFI PART" ->
  0 <= gh_entry_size h < 2 ^ 32 -> 0 <= gh_partition_array_size h ->
  num = Z.min (gh_partition_array_size h) Max_partitions ->
  rdev_alloc d ns = Some fresh ->
  ends d
    (res ← read_sectors (gh_partition_array_lba h) ns;
     match res with
     | Read_next error1 mem1 => done_gpt r1 error1 mem1
     | _ => lift (gpt_invoke r1)
     end) (fun r => gpt_called r0 r /\ gpt_table_ok secsz r).
Proof.
  intros secsz ns Hr1 Hh Hsig Hes Has Hnum Hfresh.
  pose proof (gpt_numsec_nonneg secsz num (gh_entry_size h)) as Hns. fold ns in Hns.
  destruct (rdev_fresh _ _ _ Hfresh Hns) as [Hfl _].
  eapply ends_bind; [by apply ends_read|].
  intros ? d1 Hs [->|(error1 & mem1 & -> & Hml & _)].
  - apply gpt_invoke_table; [by subst r1|]. by eapply gpt_table_found.
  - unfold done_gpt. subst r1. cbn [gpt_num_partitions gpt_header gpt_callback].
    destruct (error1 <? 0); apply gpt_invoke_table; try done.
    + by apply gpt_table_empty.
    + by eapply gpt_table_found.
Qed.

Lemma get_gpt_table r0 error mem d :
  gpt_callback r0 = {| cb_set := true; cb_calls := cb_calls (gpt_callback r0) |} ->
  gpt_num_partitions r0 = 0 ->
  zlen mem = 2 * rdev_sector_size d -> bytes_ok mem ->
  ends d (get_gpt r0 error mem)
    (fun r => gpt_called r0 r /\ gpt_table_ok (rdev_sector_size d) r).
Proof.
  intros Hs Hn0 Hlen Hok. unfold get_gpt, ends. pose proof (rdev_size_range d).
  destruct (Gpt_Header_at_Some (rdev_sector_size d) mem) as (h & Hh & Hes & Has);
    [unfold sizeof_Gpt_Header; lia..|done|].
  split_if; [by apply gpt_invoke_table; [|apply gpt_table_empty]|].
  rewrite Hh. rewrite (prog_bind_ret _ _ _ d h) by done.
  split_if; [by apply gpt_invoke_table; [|apply gpt_table_empty]|].
  apply negb_false_iff, bool_decide_eq_true in Heqb0. cbn.
  destruct (rdev_alloc d _) as [fresh|] eqn:Ef; [|by exists d, Raised].
  eapply get_gpt_array; try done; [|lia]. by rewrite <- Hs.
Qed.

(** Whatever the device does, a GPT read ends with one call of the callback and
    a consistent table (or I/O memory ran out and an exception is passed on). *)
Lemma gpt_read_outcome r0 d :
  ends d (gpt_read r0)
    (fun r => gpt_called r0 r /\ gpt_table_ok (rdev_sector_size d) r).
Proof.
  unfold gpt_read. eapply ends_bind; [apply ends_read; lia|].
  intros ? d1 Hsz [->|(error & mem & -> & Hl & Hb)].
  - apply gpt_invoke_table; [done|]. by apply gpt_table_empty.
  - rewrite <- Hsz.
    apply (get_gpt_table {| gpt_num_partitions := 0; gpt_header := gpt_header r0;
      gpt_parray := gpt_parray r0; gpt_callback := {| cb_set := true;
      cb_calls := cb_calls (gpt_callback r0) |} |} error mem d1); [done..|lia|done].
Qed.

Lemma gpt_numsec_eq secsz n es :
  0 <= n * es < 2 ^ 31 -> 512 <= secsz < 2 ^ 31 ->
  gpt_numsec secsz n es = (n * es + secsz - 1) / secsz.
Proof.
  intros Hn Hs. unfold gpt_numsec.
  assert (2 ^ 32 <= 2 ^ size_w) by (apply Z.pow_le_mono_r; lia).
  autorewrite with cint_mod.
  rewrite (uwrap_small size_w) by (unfold in_u; lia).
  replace (n * es - 1 + secsz) with (n * es + secsz - 1) by lia.
  apply uwrap_small. split; [apply Z.div_pos; lia|].
  apply Z.div_lt_upper_bound; lia.
Qed.

Lemma gpt_array_fits secsz n es :
  0 <= n * es < 2 ^ 31 -> 512 <= secsz < 2 ^ 31 ->
  n * es <= gpt_numsec secsz n es * secsz < 2 ^ 32.
Proof.
  intros Hn Hs. rewrite gpt_numsec_eq by done.
  pose proof (Z.mul_div_le (n * es + secsz - 1) secsz).
  pose proof (Z.mul_succ_div_gt (n * es + secsz - 1) secsz). lia.
Qed.

(** Index arithmetic of [get_partition]: entry [idx] lies in the array. *)
Lemma gpt_offset n idx es :
  0 < idx <= n -> n <= Max_partitions -> sizeof_Gpt_Entry <= es < 2 ^ 21 ->
  0 <= n * es < 2 ^ 31 /\ u32 ((idx - 1) * es) = (idx - 1) * es /\
  0 <= (idx - 1) * es /\ (idx - 1) * es + sizeof_Gpt_Entry <= n * es.
Proof.
  unfold Max_partitions, sizeof_Gpt_Entry. intros Hi Hn He.
  assert (0 <= n * es < 2 ^ 31) by nia.
  assert ((idx - 1) * es + es <= n * es) by nia.
  assert (0 <= (idx - 1) * es) by nia.
  split_and!; try lia. apply uwrap_small. unfold in_u. lia.
Qed.

End Gpt_read.

Lemma rd_u16s_is_Some count off m :
  0 <= off -> off + 2 * Z.of_nat count <= zlen m -> is_Some (rd_u16s count off m).
Proof.
  revert off. induction count as [|k IH]; intros off Ho Hl; [by eexists|].
  cbn [rd_u16s]. destruct (rd_is_Some 2 off m) as [c ->]; [lia..|].
  destruct (IH (off + 2)) as [cs Hcs]; [lia..|]. cbn. rewrite Hcs. by eexists.
Qed.

Lemma Gpt_Entry_at_is_Some off m :
  0 <= off -> off + sizeof_Gpt_Entry <= zlen m -> is_Some (Gpt_Entry_at off m).
Proof.
  unfold sizeof_Gpt_Entry. intros Ho Hl. unfold Gpt_Entry_at.
  destruct (rd_bytes_is_Some off 16 m) as [? ->]; [lia..|].
  destruct (rd_bytes_is_Some (off + 16) 16 m) as [? ->]; [lia..|].
  destruct (rd_is_Some 8 (off + 32) m) as [? ->]; [lia..|].
  destruct (rd_is_Some 8 (off + 40) m) as [? ->]; [lia..|].
  destruct (rd_is_Some 8 (off + 48) m) as [? ->]; [lia..|].
  destruct (rd_u16s_is_Some 36 (off + 56) m) as [? Hn]; [lia..|].
  cbn - [rd_u16s]. rewrite Hn. by eexists.
Qed.

(** ** Memory safety of the GPT reader *)

(**  After any GPT read, on any device, [get_partition] touches only the
    I/O memory it allocated, for every index, provided the entry size the header
    announces is at least the size of an entry (and below 2 MiB). *)
Theorem gpt_get_partition_in_bounds size_w `{Read_device_ok D} r0 d d' r h idx inf :
  size_w = 32 \/ size_w = 64 ->
  gpt_read size_w r0 d = (d', Ret r) ->
  Gpt_Header_at (rdev_sector_size d) (gpt_header r) = Some h ->
  sizeof_Gpt_Entry <= gh_entry_size h < 2 ^ 21 -> 0 <= idx ->
  exists res, gpt_get_partition (rdev_sector_size d) r idx inf = Ret res.
Proof.
  intros Hw Hread Hh Hes Hidx.
  destruct (gpt_read_outcome size_w r0 d) as (d1 & res & Hread' & _ & Hres).
  rewrite Hread in Hread'. injection Hread' as <- <-. destruct Hres as (_ & Hn & Hok).
  unfold gpt_get_partition. split_if; [by eexists|].
  destruct Hok as [Hz|(h' & Hh' & _ & _ & _ & Hpa)]; [lia|].
  rewrite Hh in Hh'. injection Hh' as <-. rewrite Hh.
  pose proof (rdev_size_range d) as Hsec.
  destruct (gpt_offset (gpt_num_partitions r) idx (gh_entry_size h))
    as (Harr & Hoff & Hnn & Hfit); [lia..|].
  pose proof (gpt_array_fits size_w Hw (rdev_sector_size d) _ _ Harr Hsec) as Hsz.
  cbn. rewrite Hoff. set (off := (idx - 1) * _) in *.
  unfold sizeof_Gpt_Entry in *.
  destruct (rd_is_Some 8 (off + 16) (gpt_parray r)) as [g ->]; [lia..|].
  cbn. split_if; [by eexists|].
  destruct (Gpt_Entry_at_is_Some off (gpt_parray r)) as [e ->];
    [unfold sizeof_Gpt_Entry; lia..|].
  cbn. by split_if; eexists.
Qed.

(** ** The reader returns the table that is on the disk *)

(** What [get_partition] is to report for the on-disk entry [e]: nothing for an
    entry whose unique GUID starts with eight zero bytes, the entry's fields
    otherwise, flagged as unusable when it ends before it starts. *)
Definition gpt_entry_info (e : Gpt_Entry) : Partition_info :=
  {| pi_type := Gpt_part; pi_uuid := render_guid (ge_partition_guid e);
     pi_name := upto_nul (ge_name e); pi_first := ge_first e;
     pi_last := ge_last e; pi_flags := ge_flags e |}.

Definition gpt_entry_result (e : Gpt_Entry) (inf : Partition_info) : l4_ret * Partition_info :=
  if le_combine (take 8 (ge_partition_guid e)) =? 0 then (Err ENODEV, inf)
  else if ge_last e <? ge_first e then (Err ENODEV, gpt_entry_info e)
  else (Ok, gpt_entry_info e).

Lemma Gpt_Header_at_slice b k off m :
  0 <= b -> 0 <= off -> off + sizeof_Gpt_Header <= k -> b + k <= zlen m ->
  Gpt_Header_at off (slice b k m) = Gpt_Header_at (b + off) m.
Proof.
  unfold sizeof_Gpt_Header. intros. unfold Gpt_Header_at.
  rewrite rd_bytes_slice, !rd_slice by lia. by rewrite !Z.add_assoc.
Qed.

Lemma rd_u16s_slice b k count off m :
  0 <= b -> 0 <= off -> off + 2 * Z.of_nat count <= k -> b + k <= zlen m ->
  rd_u16s count off (slice b k m) = rd_u16s count (b + off) m.
Proof.
  intros Hb. revert off. induction count as [|n IH]; intros off Ho Hk Hm; [done|].
  cbn [rd_u16s]. rewrite rd_slice, IH by lia. by rewrite Z.add_assoc.
Qed.

Lemma Gpt_Entry_at_slice b k off m :
  0 <= b -> 0 <= off -> off + sizeof_Gpt_Entry <= k -> b + k <= zlen m ->
  Gpt_Entry_at off (slice b k m) = Gpt_Entry_at (b + off) m.
Proof.
  unfold sizeof_Gpt_Entry. intros. unfold Gpt_Entry_at.
  rewrite !rd_bytes_slice, !rd_slice, rd_u16s_slice by lia. by rewrite !Z.add_assoc.
Qed.

(** The eight bytes tested against zero are the start of the entry's GUID. *)
Lemma Gpt_Entry_at_guid off m e :
  Gpt_Entry_at off m = Some e ->
  rd 8 (off + 16) m = Some (le_combine (take 8 (ge_partition_guid e))).
Proof.
  intros He. unfold Gpt_Entry_at in He.
  apply bind_Some in He as (tg & _ & He). apply bind_Some in He as (pg & Hpg & He).
  inv_binds He. injection He as <-. cbn.
  apply rd_bytes_Some in Hpg as (? & _ & Hl & ->).
  unfold rd. destruct (rd_bytes_is_Some (off + 16) 8 m) as [g Hg]; [lia..|].
  rewrite Hg. apply rd_bytes_Some in Hg as (_ & _ & _ & ->). cbn. do 2 f_equal.
  unfold slice. by rewrite take_take.
Qed.

Section Gpt_table.

Context (size_w : Z) `{Read_device_ok D}.
Hypothesis Hsize_w : size_w = 32 \/ size_w = 64.

(** The image [img] carries a GPT with header [h]: the header sits in the second
    sector and the array it describes lies within the image. *)
Definition carries_gpt (secsz : Z) (img : bytes) (h : Gpt_Header) : Prop :=
  let n := Z.min (gh_partition_array_size h) Max_partitions in
  2 * secsz <= zlen img /\
  Gpt_Header_at secsz img = Some h /\ gh_signature h = str "EFI PART" /\
  0 <= gh_partition_array_lba h /\
  0 <= gh_entry_size h < 2 ^ 21 /\
  (gh_partition_array_lba h + (n * gh_entry_size h + secsz - 1) / secsz) * secsz
    <= zlen img.

(** The state a successful read leaves behind. *)
Lemma gpt_read_delivers r0 d img h :
  delivers d img -> bytes_ok img -> carries_gpt (rdev_sector_size d) img h ->
  let secsz := rdev_sector_size d in
  let n := Z.min (gh_partition_array_size h) Max_partitions in
  let ns := (n * gh_entry_size h + secsz - 1) / secsz in
  gpt_read size_w r0 d =
    (d, Ret {| gpt_num_partitions := n; gpt_header := slice 0 (2 * secsz) img;
               gpt_parray := slice (gh_partition_array_lba h * secsz) (ns * secsz) img;
               gpt_callback :=
                 {| cb_set := false; cb_calls := S (cb_calls (gpt_callback r0)) |} |}).
Proof.
  intros Hd Hok (Himg & Hh & Hsig & Hlba & Hes & Harr) secsz n ns.
  pose proof (rdev_size_range d) as Hsec. fold secsz in Hsec, Himg, Hh, Harr.
  assert (0 <= gh_partition_array_size h) as Has.
  { destruct (Gpt_Header_at_Some secsz img) as (h' & Hh' & _ & ?);
      [unfold sizeof_Gpt_Header; lia..|done|]. rewrite Hh in Hh'.
    injection Hh' as <-. lia. }
  assert (0 <= n * gh_entry_size h < 2 ^ 31) as Hsz
    by (unfold n, Max_partitions, sizeof_Gpt_Entry in *; nia).
  assert (0 <= ns) by (apply Z.div_pos; lia).
  unfold gpt_read.
  rewrite (prog_bind_ret _ _ _ _ _ (read_sectors_delivers d img 0 2 Hd
    (Z.le_refl 0) ltac:(lia) ltac:(fold secsz; lia))).
  unfold get_gpt. fold secsz. change (0 * secsz) with 0. cbn [Z.ltb Z.compare].
  rewrite Gpt_Header_at_slice by (unfold sizeof_Gpt_Header; lia).
  rewrite Z.add_0_l, Hh, (prog_bind_ret _ _ _ d h) by done.
  rewrite bool_decide_true by done. cbn [negb].
  fold n. rewrite gpt_numsec_eq by done. fold ns.
  destruct (Hd (gh_partition_array_lba h) ns Hlba ltac:(lia) Harr) as [_ [fresh ->]].
  rewrite (prog_bind_ret _ _ _ _ _ (read_sectors_delivers d img
    (gh_partition_array_lba h) ns Hd Hlba ltac:(lia) Harr)). done.
Qed.

(**  On a working disk that carries a GPT, reading the table succeeds, calls
    the callback once, and makes exactly the partitions on the disk available:
    index [idx] returns what entry [idx] of the on-disk array says. *)
Theorem gpt_read_table r0 d img h :
  delivers d img -> bytes_ok img -> carries_gpt (rdev_sector_size d) img h ->
  sizeof_Gpt_Entry <= gh_entry_size h ->
  exists r, gpt_read size_w r0 d = (d, Ret r) /\
    gpt_called r0 r /\
    gpt_table_size r = Z.min (gh_partition_array_size h) Max_partitions /\
    forall idx inf e, 0 < idx <= gpt_table_size r ->
      Gpt_Entry_at (gh_partition_array_lba h * rdev_sector_size d
                      + (idx - 1) * gh_entry_size h) img = Some e ->
      gpt_get_partition (rdev_sector_size d) r idx inf = Ret (gpt_entry_result e inf).
Proof.
  intros Hd Hok Hgpt Hes128. rewrite (gpt_read_delivers r0 d img h Hd Hok Hgpt).
  destruct Hgpt as (Himg & Hh & Hsig & Hlba & Hes & Harr).
  pose proof (rdev_size_range d) as Hsec.
  set (secsz := rdev_sector_size d) in *. set (n := Z.min _ _) in *.
  set (ns := (n * gh_entry_size h + secsz - 1) / secsz) in *.
  eexists. split_and!; [done..|]. unfold gpt_table_size. cbn [gpt_num_partitions].
  intros idx inf e Hidx He.
  destruct (gpt_offset n idx (gh_entry_size h)) as (Hsz & Hoff & Hnn & Hfit);
    [lia|unfold n; lia|lia|].
  pose proof (gpt_array_fits size_w Hsize_w secsz n _ Hsz Hsec) as Hfits.
  rewrite gpt_numsec_eq in Hfits by done. fold ns in Hfits.
  unfold gpt_get_partition. cbn [gpt_num_partitions gpt_header gpt_parray].
  replace (_ || _) with false by lia.
  rewrite Gpt_Header_at_slice by (unfold sizeof_Gpt_Header; lia).
  rewrite Z.add_0_l, Hh. cbn. rewrite Hoff.
  unfold sizeof_Gpt_Entry in *.
  rewrite rd_slice, Gpt_Entry_at_slice by (unfold sizeof_Gpt_Entry; nia).
  rewrite Z.add_assoc, (Gpt_Entry_at_guid _ _ _ He), He. cbn.
  unfold gpt_entry_result. by split_ifs.
Qed.

(**  The entry size is taken from the disk unchecked: on a disk whose GPT
    header announces entries of size 0, every [get_partition] of an announced
    index reads outside the (empty) array memory. *)
Theorem gpt_zero_entry_size_oob r0 d img h idx inf :
  delivers d img -> bytes_ok img -> carries_gpt (rdev_sector_size d) img h ->
  gh_entry_size h = 0 ->
  0 < idx <= Z.min (gh_partition_array_size h) Max_partitions ->
  exists r, gpt_read size_w r0 d = (d, Ret r) /\
    gpt_get_partition (rdev_sector_size d) r idx inf = Oob.
Proof.
  intros Hd Hok Hgpt Hes Hidx. rewrite (gpt_read_delivers r0 d img h Hd Hok Hgpt).
  destruct Hgpt as (Himg & Hh & _). pose proof (rdev_size_range d) as Hsec.
  eexists. split; [done|]. unfold gpt_get_partition.
  cbn [gpt_num_partitions gpt_header gpt_parray].
  replace (_ || _) with false by lia.
  rewrite Gpt_Header_at_slice by (unfold sizeof_Gpt_Header; lia).
  rewrite Z.add_0_l, Hh. cbn. rewrite Hes, !Z.mul_0_r, Z.add_0_l.
  rewrite Z.div_small by lia. done.
Qed.

End Gpt_table.

(** ** A small disk *)

Module Gpt_example.

Definition pad (n : nat) (l : bytes) : bytes := l ++ replicate (n - length l) 0.

(** A header for [n] entries of [es] bytes starting in sector 2. *)
Definition header (n es : Z) : bytes :=
  pad 512 (str "EFI PART" ++ replicate 64 0 ++ le_split 8 2 ++ le_split 4 n ++ le_split 4 es).

Definition guid : bytes :=
  [16; 50; 84; 118; 152; 186; 220; 254; 1; 2; 3; 4; 5; 6; 7; 8].

Definition entry (first last : Z) (name : bytes) : bytes :=
  replicate 16 1 ++ guid ++ le_split 8 first ++ le_split 8 last ++ le_split 8 0
    ++ pad 72 (mjoin ((fun c => [c; 0]) <$> name)).

(** Two partitions and an empty slot; the second one is inverted. *)
Definition disk (es : Z) : image :=
  {| img_bytes := replicate 512 0 ++ header 3 es
                    ++ pad 512 (entry 34 99 (str "root") ++ entry 7 5 (str "bad")) |}.

Definition reader (es : Z) : Gpt_reader :=
  match (gpt_read 64 (gpt_init 512) (disk es)).2 with
  | Ret r => r
  | _ => gpt_init 512
  end.

Definition hdr (es : Z) : Gpt_Header :=
  {| gh_signature := str "EFI PART"; gh_partition_array_lba := 2;
     gh_partition_array_size := 3; gh_entry_size := es |}.

Lemma disk_bytes_ok : bytes_ok (img_bytes (disk 128)) /\ bytes_ok (img_bytes (disk 0)).
Proof. by_eval. Qed.

Lemma disk_gpt :
  carries_gpt 512 (img_bytes (disk 128)) (hdr 128) /\
  carries_gpt 512 (img_bytes (disk 0)) (hdr 0).
Proof. unfold carries_gpt. by_eval. Qed.

Lemma gpt_get_partition_in_bounds_witness :
  exists res, gpt_get_partition 512 (reader 128) 3 Partition_info_init = Ret res.
Proof.
  refine (gpt_get_partition_in_bounds 64 (D := image) (gpt_init 512) (disk 128)
    (disk 128) (reader 128) (hdr 128) 3 Partition_info_init (or_intror eq_refl) _ _ _ _);
    by_eval.
Defined.

Lemma gpt_read_table_witness :
  exists r, gpt_read 64 (gpt_init 512) (disk 128) = (disk 128, Ret r) /\
    gpt_called (gpt_init 512) r /\ gpt_table_size r = 3 /\
    gpt_get_partition 512 r 1 Partition_info_init =
      Ret (Ok, {| pi_type := Gpt_part;
                  pi_uuid := str "76543210-BA98-FEDC-0102-030405060708";
                  pi_name := str "root"; pi_first := 34; pi_last := 99;
                  pi_flags := 0 |}).
Proof.
  destruct (gpt_read_table 64 (or_intror eq_refl) (gpt_init 512) (disk 128)
    (img_bytes (disk 128)) (hdr 128)
    (image_delivers _ (proj1 disk_bytes_ok)) (proj1 disk_bytes_ok) (proj1 disk_gpt))
    as (r & Hr & Hc & Hn & Hget); [by_eval|].
  exists r. split_and!; [done|done|by rewrite Hn|].
  destruct (Gpt_Entry_at 1024 (img_bytes (disk 128))) as [e|] eqn:He;
    [|vm_compute in He; discriminate].
  erewrite (Hget 1 _ e); [|rewrite Hn; by_eval|exact He].
  vm_compute in He. injection He as <-. by_eval.
Defined.

Lemma gpt_zero_entry_size_oob_witness :
  exists r, gpt_read 64 (gpt_init 512) (disk 0) = (disk 0, Ret r) /\
    gpt_get_partition 512 r 1 Partition_info_init = Oob.
Proof.
  refine (gpt_zero_entry_size_oob 64 (D := image) (or_intror eq_refl) (gpt_init 512)
    (disk 0) (img_bytes (disk 0)) (hdr 0) 1 Partition_info_init
    (image_delivers _ (proj2 disk_bytes_ok)) (proj2 disk_bytes_ok) (proj2 disk_gpt) _ _);
    by_eval.
Defined.

End Gpt_example.
