(* ===== verification/Mbr.v ===== *)
(** * The MBR partition table reader

    Models [Mbr_reader] of [src/pkg/libblock-device/include/partition.h] over
    the on-disk layout of [mbr.h]: primary partitions, the chain of extended
    boot records, and the lookup of a partition by its number. *)

From S2P Require Import Prelude BlockTypes Reader.

(** ** mbr.h *)

Definition Primary_partitions : Z := 4.
Definition Magic_lo : Z := 85.
Definition Magic_hi : Z := 170.
Definition Mbr_Extended : Z := 5.
Definition Mbr_Linux : Z := 131.

(** The fields of [Mbr::Entry] the reader uses. *)
Record Mbr_Entry := { me_type : Z; me_lba_start : Z; me_lba_num : Z }.

(** [struct Mbr::Mbr]: a packed sector of 512 bytes, [disk_id] at 440, the four
    entries of 16 bytes from 446, the signature at 510. *)
Record Mbr_Mbr := { mb_disk_id : Z; mb_partition : list Mbr_Entry; mb_signature : bytes }.

Definition sizeof_Mbr : Z := 512.

Definition Mbr_Entry_at (off : Z) (m : bytes) : option Mbr_Entry :=
  ty ← rd 1 (off + 4) m;
  st ← rd 4 (off + 8) m;
  nm ← rd 4 (off + 12) m;
  Some {| me_type := ty; me_lba_start := st; me_lba_num := nm |}.

Definition Mbr_at (m : bytes) : option Mbr_Mbr :=
  id ← rd 4 440 m;
  p0 ← Mbr_Entry_at 446 m;
  p1 ← Mbr_Entry_at 462 m;
  p2 ← Mbr_Entry_at 478 m;
  p3 ← Mbr_Entry_at 494 m;
  sig ← rd_bytes 510 2 m;
  Some {| mb_disk_id := id; mb_partition := [p0; p1; p2; p3]; mb_signature := sig |}.

(** ** The reader *)

(** [Mbr_reader::Max_partitions], the minimum of [Base::Max_partitions] and 255 *)
Definition Mbr_Max_partitions : Z := Z.min 1024 255.

(** The members of [Mbr_reader].  [_mbr] is the overlay of [mbr_header] (null
    before the first sector was read); [_extended], a pointer into the entries
    of [_mbr], is the index of the entry. *)
Record Mbr_reader := {
  mbr_num_partitions : Z;
  mbr_header : bytes;
  mbr_partitions : list Partition_info;
  mbr_extended : option nat;
  mbr_ep : bytes;
  mbr_lba_offset_ext : Z;
  mbr_callback : callback;
}.

(** The constructor *)
Definition mbr_init (secsz : Z) : Mbr_reader :=
  {| mbr_num_partitions := 0; mbr_header := replicate (Z.to_nat secsz) 0;
     mbr_partitions := replicate 4 Partition_info_init; mbr_extended := None;
     mbr_ep := []; mbr_lba_offset_ext := 0;
     mbr_callback := {| cb_set := false; cb_calls := 0 |} |}.

Definition mbr_table_size (r : Mbr_reader) : Z := mbr_num_partitions r.

(** [std::vector::resize] with value-initialised elements *)
Definition resize (n : nat) (l : list Partition_info) : list Partition_info :=
  take n l ++ replicate (n - length l) Partition_info_init.

(** [get_partition] *)
Definition mbr_get_partition (r : Mbr_reader) (idx : Z) (inf : Partition_info)
    : run (l4_ret * Partition_info) :=
  if (idx =? 0) || (mbr_num_partitions r <? idx) then Ret (Err ERANGE, inf)
  else
    inf1 ← or_oob (mbr_partitions r !! Z.to_nat (idx - 1));
    if pi_last inf1 <? pi_first inf1 then Ret (Err ENODEV, inf1)
    else Ret (Ok, inf1).

(** The UUID of partition [n], counted from 0. *)
Definition mbr_uuid (disk_id n : Z) : bytes :=
  snprintf_out 37 (fmtX 8 disk_id ++ [45] ++ fmtX 2 (n + 1)).

(** The condition on [type], [lba_start] and [lba_num], all of it 32-bit. *)
Definition mbr_entry_valid (p : Mbr_Entry) : bool :=
  negb (me_type p =? 0) &&
  (me_lba_start p <=? u32 (u32 (me_lba_start p + me_lba_num p) - 1)).

(** The record [register_mbr_partition] writes over [old]. *)
Definition mbr_record (off : Z) (p : Mbr_Entry) (disk_id n : Z) (old : Partition_info)
    : Partition_info :=
  if mbr_entry_valid p then
    {| pi_type := Mbr_part; pi_uuid := mbr_uuid disk_id n; pi_name := pi_name old;
       pi_first := u32 (off + me_lba_start p);
       pi_last := u32 (u32 (u32 (off + me_lba_start p) + me_lba_num p) - 1);
       pi_flags := me_type p |}
  else
    {| pi_type := Mbr_part; pi_uuid := []; pi_name := pi_name old;
       pi_first := 2 ^ 64 - 1; pi_last := 0; pi_flags := 0 |}.

(** [register_mbr_partition]; [self] is the index of [p] when [p] points into
    the entries of [_mbr]. *)
Definition register_mbr_partition (p : Mbr_Entry) (self : option nat) (disk_id n : Z)
    (r : Mbr_reader) : Mbr_reader * bool :=
  let ps := resize (Z.to_nat (n + 1)) (mbr_partitions r) in
  let valid := mbr_entry_valid p in
  ({| mbr_num_partitions := mbr_num_partitions r; mbr_header := mbr_header r;
      mbr_partitions := alter (mbr_record (mbr_lba_offset_ext r) p disk_id n)
                          (Z.to_nat n) ps;
      mbr_extended :=
        if valid && (me_type p =? Mbr_Extended) && bool_decide (mbr_extended r = None)
        then self else mbr_extended r;
      mbr_ep := mbr_ep r; mbr_lba_offset_ext := mbr_lba_offset_ext r;
      mbr_callback := mbr_callback r |}, valid).

(** The loop of [get_mbr] over the primary entries, from entry [i]. *)
Fixpoint register_primary (ps : list Mbr_Entry) (i : nat) (disk_id : Z) (r : Mbr_reader)
    : Mbr_reader :=
  match ps with
  | [] => r
  | p :: t =>
      register_primary t (S i) disk_id
        (register_mbr_partition p (Some i) disk_id (Z.of_nat i) r).1
  end.

(** [_extended->lba_start] *)
Definition mbr_ext_start (r : Mbr_reader) : option Z :=
  i ← mbr_extended r;
  m ← Mbr_at (mbr_header r);
  p ← mb_partition m !! i;
  Some (me_lba_start p).

Definition mbr_sig_ok (m : Mbr_Mbr) : bool :=
  bool_decide (mb_signature m = [Magic_lo; Magic_hi]).

(** Record updates of the reader. *)
Definition mbr_set_num (n : Z) (r : Mbr_reader) : Mbr_reader :=
  {| mbr_num_partitions := n; mbr_header := mbr_header r;
     mbr_partitions := mbr_partitions r; mbr_extended := mbr_extended r;
     mbr_ep := mbr_ep r; mbr_lba_offset_ext := mbr_lba_offset_ext r;
     mbr_callback := mbr_callback r |}.

Definition mbr_set_header (m : bytes) (r : Mbr_reader) : Mbr_reader :=
  {| mbr_num_partitions := mbr_num_partitions r; mbr_header := m;
     mbr_partitions := mbr_partitions r; mbr_extended := mbr_extended r;
     mbr_ep := mbr_ep r; mbr_lba_offset_ext := mbr_lba_offset_ext r;
     mbr_callback := mbr_callback r |}.

Definition mbr_set_ep (m : bytes) (off : Z) (r : Mbr_reader) : Mbr_reader :=
  {| mbr_num_partitions := mbr_num_partitions r; mbr_header := mbr_header r;
     mbr_partitions := mbr_partitions r; mbr_extended := mbr_extended r;
     mbr_ep := m; mbr_lba_offset_ext := off; mbr_callback := mbr_callback r |}.

Definition mbr_set_callback (cb : callback) (r : Mbr_reader) : Mbr_reader :=
  {| mbr_num_partitions := mbr_num_partitions r; mbr_header := mbr_header r;
     mbr_partitions := mbr_partitions r; mbr_extended := mbr_extended r;
     mbr_ep := mbr_ep r; mbr_lba_offset_ext := mbr_lba_offset_ext r;
     mbr_callback := cb |}.

(** [Base::invoke_callback()] on an MBR reader *)
Definition mbr_invoke (r : Mbr_reader) : run Mbr_reader :=
  cb ← invoke_callback (mbr_callback r);
  Ret (mbr_set_callback cb r).

Section Mbr_read.

Context `{Read_device D}.

(** Allocate [_ep], set the offset and read the sector [lba] into it; the next
    step of the chain is [next error mem]. *)
Definition read_ext (lba off : Z) (next : Z -> bytes -> Mbr_reader -> prog D Mbr_reader)
    (r : Mbr_reader) : prog D Mbr_reader :=
  fresh ← alloc_io 1;
  res ← read_sectors lba 1;
  match res with
  | Read_next error mem => next error mem (mbr_set_ep mem off r)
  | _ => lift (mbr_invoke (mbr_set_ep fresh off r))
  end.

(** [get_ext], the continuation of every read of an extended boot record.  At
    most [fuel] records are read; [Mbr_Max_partitions] is enough
    ([get_ext_outcome]). *)
Fixpoint get_ext (fuel : nat) (error : Z) (mem : bytes) (r : Mbr_reader)
    : prog D Mbr_reader :=
  match fuel with
  | O => lift Fuel_out
  | S f =>
    if error <? 0 then lift (mbr_invoke r)
    else
      ext ← lift (or_oob (Mbr_at mem));
      if negb (mbr_sig_ok ext) then lift (mbr_invoke r)
      else
        mbr ← lift (or_oob (Mbr_at (mbr_header r)));
        p0 ← lift (or_oob (mb_partition ext !! 0%nat));
        p1 ← lift (or_oob (mb_partition ext !! 1%nat));
        let (r1, valid) :=
          register_mbr_partition p0 None (mb_disk_id mbr) (mbr_num_partitions r) r in
        if valid then
          let r2 := mbr_set_num (mbr_num_partitions r1 + 1) r1 in
          let next := me_lba_start p1 in
          if negb (next =? 0) && (mbr_num_partitions r2 <? Mbr_Max_partitions) then
            start ← lift (or_oob (mbr_ext_start r2));
            read_ext (u32 (start + next)) (u32 (start + next)) (get_ext f) r2
          else lift (mbr_invoke r2)
        else lift (mbr_invoke r1)
  end.

(** [get_mbr] *)
Definition get_mbr (error : Z) (mem : bytes) (r0 : Mbr_reader) : prog D Mbr_reader :=
  let r := mbr_set_header mem r0 in
  if error <? 0 then lift (mbr_invoke r)
  else
    m ← lift (or_oob (Mbr_at mem));
    if negb (mbr_sig_ok m) then lift (mbr_invoke r)
    else
      let r1 := mbr_set_num Primary_partitions
                  (register_primary (mb_partition m) 0 (mb_disk_id m) r) in
      match mbr_extended r1 with
      | None => lift (mbr_invoke r1)
      | Some _ =>
          start ← lift (or_oob (mbr_ext_start r1));
          read_ext start (u32 (mbr_lba_offset_ext r1 + start))
            (get_ext (Z.to_nat Mbr_Max_partitions)) r1
      end.

(** [read] *)
Definition mbr_read (r : Mbr_reader) : prog D Mbr_reader :=
  let r1 := mbr_set_callback {| cb_set := true; cb_calls := cb_calls (mbr_callback r) |}
              (mbr_set_num 0 r) in
  res ← read_sectors 0 1;
  match res with
  | Read_next error mem => get_mbr error mem r1
  | _ => lift (mbr_invoke r1)
  end.

End Mbr_read.

(** ** What the records mean *)

Lemma me_range off m p :
  bytes_ok m -> Mbr_Entry_at off m = Some p ->
  0 <= me_type p < 256 /\ in_u 32 (me_lba_start p) /\ in_u 32 (me_lba_num p).
Proof.
  intros Hm Hp. unfold Mbr_Entry_at in Hp. inv_binds Hp. injection Hp as <-.
  unfold in_u. split_and!; match goal with E : rd _ _ _ = Some ?v |- _ =>
    by apply (rd_range _ _ _ _ Hm) in E; cbn in *; lia end.
Qed.

(** The acceptance test of an entry, without the wrap-around. *)
Lemma mbr_entry_valid_iff p :
  in_u 32 (me_lba_start p) -> in_u 32 (me_lba_num p) ->
  mbr_entry_valid p = true <->
  me_type p <> 0 /\
  (0 < me_lba_num p /\ me_lba_start p + me_lba_num p <= 2 ^ 32 \/
   me_lba_start p = 0 /\ me_lba_num p = 0).
Proof.
  unfold in_u, mbr_entry_valid. intros Hs Hn. rewrite uwrap_sub_l.
  set (s := me_lba_start p) in *. set (n := me_lba_num p) in *.
  rewrite andb_true_iff, negb_true_iff, Z.eqb_neq, Z.leb_le.
  destruct (decide (s + n = 0)) as [Hz|Hz].
  { rewrite uwrap_under; lia. }
  destruct (decide (s + n - 1 < 2 ^ 32)).
  - rewrite uwrap_small by (unfold in_u; lia). lia.
  - rewrite uwrap_over by lia. lia.
Qed.

Lemma mbr_uuid_inj id i j :
  in_u 32 id -> 0 <= i < 255 -> 0 <= j < 255 ->
  mbr_uuid id i = mbr_uuid id j -> i = j.
Proof.
  intros Hid Hi Hj. unfold mbr_uuid, snprintf_out.
  pose proof (length_fmtX 7 id Hid) as Hl.
  rewrite !take_ge by (rewrite !length_app, Hl, (length_fmtX 1) by (cbn; lia); cbn; lia).
  intros [_ Heq]%app_inj_1; [|by rewrite Hl]. injection Heq as Heq.
  apply fmtX_inj in Heq; lia.
Qed.

Lemma Mbr_at_Some m : 512 <= zlen m -> is_Some (Mbr_at m).
Proof.
  intros Hl. unfold Mbr_at, Mbr_Entry_at.
  repeat match goal with
  | |- context [rd ?n ?o m ≫= _] => destruct (rd_is_Some n o m) as [? ->]; [lia..|]
  | |- context [rd_bytes ?o ?n m ≫= _] =>
      destruct (rd_bytes_is_Some o n m) as [? ->]; [lia..|]
  | _ => progress cbn
  end. by eexists.
Qed.

(** The four entries of a boot sector are overlays of its bytes. *)
Lemma Mbr_at_inv m mb :
  bytes_ok m -> Mbr_at m = Some mb ->
  in_u 32 (mb_disk_id mb) /\ length (mb_partition mb) = 4%nat /\
  Forall (fun p => 0 <= me_type p < 256 /\ in_u 32 (me_lba_start p) /\
                   in_u 32 (me_lba_num p)) (mb_partition mb).
Proof.
  intros Hm Hmb. unfold Mbr_at in Hmb. inv_binds Hmb. injection Hmb as <-. cbn.
  split_and!; [|done|repeat constructor; by eapply me_range].
  match goal with E : rd 4 440 m = Some _ |- _ => by apply (rd_range _ _ _ _ Hm) in E end.
Qed.

(** ** The table a read leaves behind *)

(** A slot of the table: unusable (empty UUID, ends before it starts), or a
    partition with a UUID made from the disk and the slot. *)
Definition slot_ok (id : Z) (i : nat) (p : Partition_info) : Prop :=
  pi_type p = Mbr_part /\
  (pi_uuid p = [] /\ pi_last p < pi_first p \/
   pi_uuid p = mbr_uuid id (Z.of_nat i) /\ in_u 32 (pi_first p) /\
   in_u 32 (pi_last p) /\ 0 < pi_flags p < 256).

(** The first [n] slots are filled in. *)
Definition slots_ok (id : Z) (n : nat) (l : list Partition_info) : Prop :=
  forall i, (i < n)%nat -> exists p, l !! i = Some p /\ slot_ok id i p.

Definition mbr_table_ok (r : Mbr_reader) : Prop :=
  0 <= mbr_num_partitions r <= Mbr_Max_partitions /\
  exists id, in_u 32 id /\
    slots_ok id (Z.to_nat (mbr_num_partitions r)) (mbr_partitions r).

Definition mbr_called (r0 r : Mbr_reader) : Prop :=
  mbr_callback r = {| cb_set := false; cb_calls := S (cb_calls (mbr_callback r0)) |}.

(** What holds between the steps of a read: the boot sector in [_header] is
    [mb] and [_extended] points into it. *)
Definition mbr_inv (mb : Mbr_Mbr) (r : Mbr_reader) : Prop :=
  Mbr_at (mbr_header r) = Some mb /\ in_u 32 (mb_disk_id mb) /\
  length (mb_partition mb) = 4%nat /\
  (forall i, mbr_extended r = Some i -> (i < 4)%nat) /\
  cb_set (mbr_callback r) = true /\
  slots_ok (mb_disk_id mb) (Z.to_nat (mbr_num_partitions r)) (mbr_partitions r).

Lemma mbr_record_ok off p id n old :
  0 <= me_type p < 256 -> 0 <= n ->
  slot_ok id (Z.to_nat n) (mbr_record off p id n old).
Proof.
  intros Ht Hn. unfold slot_ok, mbr_record. split_if; cbn; (split; [done|]); [right|by left].
  unfold mbr_entry_valid in Heqb. rewrite Z2Nat.id by lia.
  split_and!; try done; try (apply (uwrap_range 32); lia); lia.
Qed.

Lemma slots_usable id n l i p :
  slots_ok id n l -> l !! i = Some p -> pi_first p <= pi_last p -> (i < n)%nat ->
  pi_uuid p = mbr_uuid id (Z.of_nat i).
Proof.
  intros Hs Hp Hf Hi. destruct (Hs i Hi) as (q & Hq & _ & Hu).
  rewrite Hp in Hq. injection Hq as <-. destruct Hu as [[_ ?]|[? _]]; [lia|done].
Qed.

(** Registering slot [n] keeps the slots below and fills in [n]. *)
Lemma register_slots p self id r r' v n :
  register_mbr_partition p self id (Z.of_nat n) r = (r', v) ->
  0 <= me_type p < 256 -> slots_ok id n (mbr_partitions r) ->
  slots_ok id (S n) (mbr_partitions r').
Proof.
  unfold register_mbr_partition. intros [= <- <-] Ht Hs i Hi. cbn [mbr_partitions].
  rewrite Nat2Z.id, Z2Nat.inj_add, Nat2Z.id by lia.
  change (Z.to_nat 1) with 1%nat. rewrite Nat.add_1_r. unfold resize.
  destruct (decide (i = n)) as [->|Hne].
  - rewrite list_lookup_alter_eq.
    destruct (lookup_lt_is_Some_2 (take (S n) (mbr_partitions r) ++
      replicate (S n - length (mbr_partitions r)) Partition_info_init) n) as [old ->].
    { rewrite length_app, length_take, length_replicate. lia. }
    eexists. split; [done|]. rewrite <- (Nat2Z.id n) at 1. apply mbr_record_ok; lia.
  - rewrite list_lookup_alter_ne by done. destruct (Hs i) as (q & Hq & Hok); [lia|].
    exists q. split; [|done]. rewrite lookup_app_l.
    + by rewrite lookup_take_lt by lia.
    + rewrite length_take. apply lookup_lt_Some in Hq. lia.
Qed.

Lemma register_frame p self id n r r' v :
  register_mbr_partition p self id n r = (r', v) ->
  mbr_num_partitions r' = mbr_num_partitions r /\ mbr_header r' = mbr_header r /\
  mbr_callback r' = mbr_callback r /\ mbr_lba_offset_ext r' = mbr_lba_offset_ext r /\
  (mbr_extended r' = mbr_extended r \/ mbr_extended r' = self) /\
  (is_Some (mbr_extended r) -> mbr_extended r' = mbr_extended r).
Proof.
  unfold register_mbr_partition. intros [= <- <-]. cbn. split_and!; try done.
  - split_if; auto.
  - intros [i Hi]. rewrite Hi, bool_decide_false, andb_false_r by done. done.
Qed.

Lemma mbr_inv_table mb r :
  mbr_inv mb r -> 0 <= mbr_num_partitions r <= Mbr_Max_partitions -> mbr_table_ok r.
Proof.
  intros (_ & Hid & _ & _ & _ & Hs) Hn. split; [done|]. by exists (mb_disk_id mb).
Qed.

(** Registering the next slot keeps the invariant, counted or not. *)
Lemma register_inv mb p r r1 v :
  mbr_inv mb r -> 0 <= mbr_num_partitions r -> 0 <= me_type p < 256 ->
  register_mbr_partition p None (mb_disk_id mb) (mbr_num_partitions r) r = (r1, v) ->
  mbr_inv mb r1 /\ mbr_inv mb (mbr_set_num (mbr_num_partitions r1 + 1) r1).
Proof.
  intros (Hmb & Hid & Hlen & Hei & Hcb & Hslots) Hn Hty Er.
  pose proof (register_frame _ _ _ _ _ _ _ Er) as (Hn1 & Hh1 & Hc1 & _ & He1 & _).
  rewrite <- (Z2Nat.id (mbr_num_partitions r)) in Er by lia.
  apply register_slots in Er; [|done..].
  assert (forall i, mbr_extended r1 = Some i -> (i < 4)%nat) as Hei1.
  { intros i Hi. destruct He1 as [He1|He1]; [apply Hei|]; congruence. }
  split; split_and!; cbn; try congruence; try exact Hei1; rewrite Hn1; intros i Hi; apply Er; lia.
Qed.

Lemma mbr_ext_start_Some mb r :
  mbr_inv mb r -> is_Some (mbr_extended r) -> exists s, mbr_ext_start r = Some s.
Proof.
  intros (Hmb & _ & Hlen & Hei & _) [i Hi]. unfold mbr_ext_start. rewrite Hi, Hmb. cbn.
  destruct (lookup_lt_is_Some_2 (mb_partition mb) i) as [q ->]; [|by eexists].
  rewrite Hlen. by apply Hei.
Qed.

(** Registering the primary partitions fills in their slots. *)
Lemma register_primary_ok ps i id r :
  Forall (fun p => 0 <= me_type p < 256) ps ->
  slots_ok id i (mbr_partitions r) ->
  (forall j, mbr_extended r = Some j -> (j < i + length ps)%nat) ->
  let r' := register_primary ps i id r in
  slots_ok id (i + length ps) (mbr_partitions r') /\
  mbr_num_partitions r' = mbr_num_partitions r /\ mbr_header r' = mbr_header r /\
  mbr_callback r' = mbr_callback r /\ mbr_lba_offset_ext r' = mbr_lba_offset_ext r /\
  (forall j, mbr_extended r' = Some j -> (j < i + length ps)%nat).
Proof.
  intros Hps. revert i r. induction Hps as [|p ps Hp Hps IH]; intros i r Hs He;
    cbn [register_primary length] in *.
  { rewrite Nat.add_0_r in *. by split_and!. }
  destruct (register_mbr_partition p (Some i) id (Z.of_nat i) r) as [r1 v] eqn:Er.
  destruct (register_frame _ _ _ _ _ _ _ Er) as (Hn1 & Hh1 & Hc1 & Ho1 & He1 & _).
  apply register_slots in Er; [|done..]. rewrite <- Nat.add_succ_comm in *.
  destruct (IH (S i) r1 Er) as (IH1 & IH2 & IH3 & IH4 & IH5 & IH6).
  { intros j Hj. destruct He1 as [E|E]; [apply He; congruence|].
    rewrite Hj in E. injection E as ->. lia. }
  cbn. split_and!; congruence || done.
Qed.

Section Mbr_outcome.

Context `{Read_device_ok D}.

Lemma slots_none id l : slots_ok id 0 l.
Proof. intros i Hi. lia. Qed.

(** Ending a read by the callback. *)
Lemma mbr_invoke_ends r0 r (d : D) :
  mbr_callback r = {| cb_set := true; cb_calls := cb_calls (mbr_callback r0) |} ->
  mbr_table_ok r ->
  ends d (lift (mbr_invoke r)) (fun r' => mbr_called r0 r' /\ mbr_table_ok r').
Proof.
  intros Hc Ht. eapply ends_ret; [unfold mbr_invoke, invoke_callback; by rewrite Hc|].
  by split.
Qed.

(** What a step of the chain of extended records is to establish. *)
Definition ext_step_ok (r0 : Mbr_reader)
    (next : Z -> bytes -> Mbr_reader -> prog D Mbr_reader) (r : Mbr_reader) : Prop :=
  forall d1 error mem off, zlen mem = rdev_sector_size d1 -> bytes_ok mem ->
    ends d1 (next error mem (mbr_set_ep mem off r))
      (fun r' => mbr_called r0 r' /\ mbr_table_ok r').

Lemma read_ext_ends r0 lba off next r (d : D) :
  mbr_callback r = {| cb_set := true; cb_calls := cb_calls (mbr_callback r0) |} ->
  mbr_table_ok r -> ext_step_ok r0 next r ->
  ends d (read_ext lba off next r) (fun r' => mbr_called r0 r' /\ mbr_table_ok r').
Proof.
  intros Hc Ht Hnext. unfold read_ext.
  eapply ends_bind; [apply ends_alloc; lia|]. intros fresh d0 _ _.
  eapply ends_bind; [apply ends_read; lia|].
  intros ? d1 Hs [->|(error & mem & -> & Hl & Hb)].
  - by apply mbr_invoke_ends.
  - apply Hnext; [lia|done].
Qed.

(** The loop over the extended boot records: each one read adds a partition, so
    [Mbr_Max_partitions] rounds are enough. *)
Lemma get_ext_outcome r0 mb fuel error mem off r (d : D) :
  mbr_inv mb r -> is_Some (mbr_extended r) ->
  mbr_callback r = {| cb_set := true; cb_calls := cb_calls (mbr_callback r0) |} ->
  0 <= mbr_num_partitions r < Mbr_Max_partitions ->
  Mbr_Max_partitions - mbr_num_partitions r <= Z.of_nat fuel ->
  zlen mem = rdev_sector_size d -> bytes_ok mem ->
  ends d (get_ext fuel error mem (mbr_set_ep mem off r))
    (fun r' => mbr_called r0 r' /\ mbr_table_ok r').
Proof.
  revert error mem off r d. induction fuel as [|f IH];
    intros error mem off r d Hinv Hext Hc Hn Hf Hl Hb; [lia|].
  pose proof (rdev_size_range d) as Hsz. cbn [get_ext].
  change (mbr_inv mb (mbr_set_ep mem off r)) in Hinv. set (re := mbr_set_ep _ _ _) in *.
  assert (mbr_table_ok re) as Htab by (eapply mbr_inv_table; [done|cbn; lia]).
  split_if; [by apply mbr_invoke_ends|].
  destruct (Mbr_at_Some mem) as [ext Hx]; [lia|].
  destruct (Mbr_at_inv mem ext Hb Hx) as (_ & Hl4 & Hps).
  eapply ends_oob; [done|]. split_if; [by apply mbr_invoke_ends|].
  eapply ends_oob; [apply Hinv|].
  destruct (mb_partition ext) as [|p0 [|p1 ps]]; [done..|]. apply Forall_inv in Hps.
  do 2 (eapply ends_oob; [done|]).
  destruct (register_mbr_partition _ _ _ _ _) as [r1 v] eqn:Er.
  destruct (register_frame _ _ _ _ _ _ _ Er) as (Hn1 & _ & Hc1 & _ & _ & He1).
  specialize (He1 Hext). cbn in Hn1, Hc1, He1.
  destruct (register_inv mb p0 re r1 v) as [Hi1 Hi2]; [done|cbn; lia|apply Hps|done|].
  set (r2 := mbr_set_num _ _) in *.
  split_if; [|apply mbr_invoke_ends; [congruence|eapply mbr_inv_table; [done|lia]]].
  assert (mbr_callback r2 = {| cb_set := true; cb_calls := cb_calls (mbr_callback r0) |})
    as Hc2 by (cbn; congruence).
  assert (mbr_table_ok r2) by (eapply mbr_inv_table; [done|cbn; lia]).
  split_if; [|by apply mbr_invoke_ends].
  assert (is_Some (mbr_extended r2)) as Hext2 by (cbn; by rewrite He1).
  destruct (mbr_ext_start_Some mb r2) as [s Hst]; [done..|].
  eapply ends_oob; [done|]. apply read_ext_ends; [done..|].
  intros d6 error6 mem6 off6 Hl6 Hb6. apply IH; try done; cbn in *; lia.
Qed.

Lemma get_mbr_outcome r0 r error mem (d : D) :
  mbr_callback r = {| cb_set := true; cb_calls := cb_calls (mbr_callback r0) |} ->
  mbr_num_partitions r = 0 -> (forall i, mbr_extended r = Some i -> (i < 4)%nat) ->
  zlen mem = rdev_sector_size d -> bytes_ok mem ->
  ends d (get_mbr error mem r) (fun r' => mbr_called r0 r' /\ mbr_table_ok r').
Proof.
  intros Hc Hn He Hl Hb. pose proof (rdev_size_range d) as Hsz. unfold get_mbr.
  assert (mbr_table_ok (mbr_set_header mem r)) as Ht.
  { split; [cbn; rewrite Hn; done|]. exists 0. split; [done|]. cbn. rewrite Hn.
    apply slots_none. }
  split_if; [by apply mbr_invoke_ends|].
  destruct (Mbr_at_Some mem) as [m Hx]; [lia|].
  destruct (Mbr_at_inv mem m Hb Hx) as (Hid & Hl4 & Hps).
  eapply ends_oob; [done|]. split_if; [by apply mbr_invoke_ends|].
  destruct (register_primary_ok (mb_partition m) 0 (mb_disk_id m) (mbr_set_header mem r))
    as (Hs & Hn1 & Hh1 & Hc1 & Ho1 & He1).
  { eapply Forall_impl; [|exact Hps]. by intros p [? _]. }
  { apply slots_none. }
  { by rewrite Hl4. }
  set (r1 := mbr_set_num _ _). rewrite Hl4 in Hs, He1.
  assert (mbr_inv m r1) as Hinv1.
  { split_and!; cbn; try done; [by rewrite Hh1|by rewrite Hc1; cbn; rewrite Hc]. }
  assert (mbr_callback r1 = {| cb_set := true; cb_calls := cb_calls (mbr_callback r0) |})
    as Hc2 by (cbn; by rewrite Hc1).
  assert (mbr_table_ok r1) by by eapply mbr_inv_table.
  destruct (mbr_extended r1) as [i|] eqn:Ei; [|by apply mbr_invoke_ends].
  assert (is_Some (mbr_extended r1)) as Hsome by by exists i.
  destruct (mbr_ext_start_Some m r1 Hinv1 Hsome) as [s Hst].
  eapply ends_oob; [done|]. apply read_ext_ends; [done..|].
  intros d6 error6 mem6 off6 Hl6 Hb6. by eapply get_ext_outcome.
Qed.

Lemma mbr_read_outcome r0 (d : D) :
  (forall i, mbr_extended r0 = Some i -> (i < 4)%nat) ->
  ends d (mbr_read r0) (fun r => mbr_called r0 r /\ mbr_table_ok r).
Proof.
  intros He. unfold mbr_read. eapply ends_bind; [apply ends_read; lia|].
  set (r1 := mbr_set_callback _ _).
  intros ? d1 Hsz [->|(error & mem & -> & Hl & Hb)].
  - apply mbr_invoke_ends; [done|]. split; [done|]. exists 0. split; [done|].
    apply slots_none.
  - apply get_mbr_outcome; try done. lia.
Qed.

End Mbr_outcome.

(** What [get_partition] reports of a well-formed table. *)
Lemma mbr_get_partition_table r idx inf :
  mbr_table_ok r -> 0 <= idx ->
  exists v inf', mbr_get_partition r idx inf = Ret (v, inf') /\
    (v = Ok -> 0 < idx <= mbr_num_partitions r /\
       mbr_partitions r !! Z.to_nat (idx - 1) = Some inf' /\
       pi_first inf' <= pi_last inf').
Proof.
  intros (Hn & id & _ & Hs) Hi. unfold mbr_get_partition.
  split_if; [by do 2 eexists|].
  destruct (Hs (Z.to_nat (idx - 1))) as (p & Hp & _); [lia|]. rewrite Hp. cbn.
  split_if; do 2 eexists; (split; [done|]); [done|]. intros _. split_and!; try done; lia.
Qed.

(**  Whatever the device does, reading an MBR ends: it calls the callback
    exactly once, finds at most 255 partitions even on a disk whose extended
    boot records form a cycle, and afterwards [get_partition] stays inside the
    table for every index. *)
Theorem mbr_read_total `{Read_device_ok D} r0 (d : D) :
  (forall i, mbr_extended r0 = Some i -> (i < 4)%nat) ->
  exists d' res, mbr_read r0 d = (d', res) /\
    (res = Raised \/
     exists r, res = Ret r /\ mbr_called r0 r /\ 0 <= mbr_table_size r <= 255 /\
       forall idx inf, 0 <= idx -> exists v, mbr_get_partition r idx inf = Ret v).
Proof.
  intros He. destruct (mbr_read_outcome r0 d He) as (d' & res & Hr & _ & Hres).
  exists d', res. split; [done|]. destruct res as [r| | | | |]; try done; [right|by left].
  destruct Hres as [Hc Ht]. exists r. split_and!; [done|done|apply Ht..|].
  intros idx inf Hi. destruct (mbr_get_partition_table r idx inf Ht Hi) as (v & inf' & -> & _).
  by eexists.
Qed.

(**  The partitions an MBR reader offers have pairwise different UUIDs. *)
Theorem mbr_uuids_unique `{Read_device_ok D} r0 (d d' : D) r i j inf pi pj :
  (forall i, mbr_extended r0 = Some i -> (i < 4)%nat) ->
  mbr_read r0 d = (d', Ret r) -> 0 <= i -> 0 <= j ->
  mbr_get_partition r i inf = Ret (Ok, pi) ->
  mbr_get_partition r j inf = Ret (Ok, pj) ->
  pi_uuid pi = pi_uuid pj -> i = j.
Proof.
  intros He Hr Hi Hj Hpi Hpj Hu.
  destruct (mbr_read_outcome r0 d He) as (d1 & res & Hr' & _ & Hres).
  rewrite Hr in Hr'. injection Hr' as <- <-. destruct Hres as [_ Ht].
  destruct (mbr_get_partition_table r i inf Ht Hi) as (v & q & Hq & Hv).
  rewrite Hpi in Hq. injection Hq as <- <-. destruct (Hv eq_refl) as (Hi1 & Hli & Hfi).
  destruct (mbr_get_partition_table r j inf Ht Hj) as (v & q & Hq & Hw).
  rewrite Hpj in Hq. injection Hq as <- <-. destruct (Hw eq_refl) as (Hj1 & Hlj & Hfj).
  destruct Ht as (Hn & id & Hid & Hs). unfold Mbr_Max_partitions in Hn.
  rewrite (slots_usable _ _ _ _ _ Hs Hli Hfi ltac:(lia)) in Hu.
  rewrite (slots_usable _ _ _ _ _ Hs Hlj Hfj ltac:(lia)) in Hu.
  apply mbr_uuid_inj in Hu; [lia|done|lia..].
Qed.

(**  Which entries are taken for partitions, and with which sectors: exactly
    those with a type whose sectors do not run past the 32-bit end, which then
    get their own sectors; with one exception, an entry that starts at sector 0
    and has no sectors at all, which becomes the partition of all 2^32 sectors. *)
Theorem mbr_record_range p id n old :
  in_u 32 (me_lba_start p) -> in_u 32 (me_lba_num p) ->
  let q := mbr_record 0 p id n old in
  pi_first q <= pi_last q <->
  me_type p <> 0 /\
  (0 < me_lba_num p /\ me_lba_start p + me_lba_num p <= 2 ^ 32 /\
     pi_first q = me_lba_start p /\ pi_last q = me_lba_start p + me_lba_num p - 1 \/
   me_lba_start p = 0 /\ me_lba_num p = 0 /\ pi_first q = 0 /\ pi_last q = 2 ^ 32 - 1).
Proof.
  intros Hs Hn. unfold mbr_record. pose proof (mbr_entry_valid_iff p Hs Hn) as Hv.
  unfold in_u in Hs, Hn. destruct (mbr_entry_valid p); cbn [pi_first pi_last].
  - destruct Hv as [Hv _]. specialize (Hv eq_refl) as [Ht Hv].
    rewrite Z.add_0_l, (uwrap_small 32 (me_lba_start p)), uwrap_sub_l by done.
    destruct Hv as [Hv|[Hs0 Hn0]].
    + rewrite uwrap_small by (unfold in_u; lia). lia.
    + rewrite Hs0, Hn0, uwrap_under by lia. lia.
  - destruct Hv as [_ Hv]. lia.
Qed.

(** ** A disk with a cyclic chain of extended boot records *)

Module Mbr_example.

Definition entry (ty start num : Z) : bytes :=
  [0; 0; 0; 0; ty; 0; 0; 0] ++ le_split 4 start ++ le_split 4 num.

Definition boot_sector (es : list bytes) : bytes :=
  replicate 440 0 ++ le_split 4 3735928559 ++ [0; 0]
    ++ mjoin es ++ replicate (64 - length (mjoin es)) 0 ++ [Magic_lo; Magic_hi].

(** One Linux partition, an empty entry, an extended partition at sector 2
    whose first record is followed by one that refers to itself. *)
Definition disk : image :=
  {| img_bytes :=
       boot_sector [entry Mbr_Linux 8 4; entry 0 0 0; entry Mbr_Extended 2 6]
       ++ replicate 512 0
       ++ boot_sector [entry Mbr_Linux 1 1; entry Mbr_Extended 1 1]
       ++ boot_sector [entry Mbr_Linux 1 2; entry Mbr_Extended 1 1] |}.

Definition reader : Mbr_reader :=
  match (mbr_read (mbr_init 512) disk).2 with Ret r => r | _ => mbr_init 512 end.

Lemma mbr_read_total_witness :
  mbr_table_size reader = 255 /\
  exists d' res, mbr_read (mbr_init 512) disk = (d', res) /\
    (res = Raised \/
     exists r, res = Ret r /\ mbr_called (mbr_init 512) r /\ 0 <= mbr_table_size r <= 255 /\
       forall idx inf, 0 <= idx -> exists v, mbr_get_partition r idx inf = Ret v).
Proof.
  split; [by_eval|]. refine (mbr_read_total (D := image) (mbr_init 512) disk _).
  intros i [=].
Defined.

Definition first_linux : Partition_info :=
  {| pi_type := Mbr_part; pi_uuid := str "DEADBEEF-01"; pi_name := []; pi_first := 8;
     pi_last := 11; pi_flags := Mbr_Linux |}.

Definition first_logical : Partition_info :=
  {| pi_type := Mbr_part; pi_uuid := str "DEADBEEF-05"; pi_name := []; pi_first := 3;
     pi_last := 3; pi_flags := Mbr_Linux |}.

Lemma reader_eq : mbr_read (mbr_init 512) disk = (disk, Ret reader).
Proof. by_eval. Qed.

Lemma reader_get :
  mbr_get_partition reader 1 Partition_info_init = Ret (Ok, first_linux) /\
  mbr_get_partition reader 5 Partition_info_init = Ret (Ok, first_logical).
Proof. by_eval. Qed.

Lemma mbr_uuids_unique_witness : pi_uuid first_linux <> pi_uuid first_logical.
Proof.
  intros Hu.
  assert (1 = 5); [|lia].
  refine (mbr_uuids_unique (D := image) (mbr_init 512) disk disk reader 1 5
    Partition_info_init first_linux first_logical _ reader_eq _ _
    (proj1 reader_get) (proj2 reader_get) Hu); [intros i [=]|lia..].
Defined.

Lemma mbr_record_range_witness :
  let p := {| me_type := Mbr_Linux; me_lba_start := 2 ^ 32 - 4; me_lba_num := 4 |} in
  let q := mbr_record 0 p 7 0 Partition_info_init in
  pi_first q <= pi_last q /\ pi_last q = 2 ^ 32 - 1.
Proof.
  intros p q. split; [|by_eval].
  refine (proj2 (mbr_record_range p 7 0 Partition_info_init _ _) _); [by_eval..|].
  split; [by_eval|left]. by_eval.
Defined.

End Mbr_example.
