(* ===== verification/Utf.v ===== *)
(** * UTF-8 to UTF-16 conversion

    What [std::wstring_convert<std::codecvt_utf8_utf16<char16_t>, char16_t>]
    does in [partition.h] and [part_device.h] of libblock-device: [from_bytes]
    raises on input that is not well-formed UTF-8 ([None] here). *)

From S2P Require Import Prelude.

(** A continuation byte. *)
Definition utf8_cont (b : Z) : bool := (128 <=? b) && (b <=? 191).

(** UTF-16 encoding of a scalar value. *)
Definition utf16_encode (c : Z) : list Z :=
  if c <? 65536 then [c]
  else [55296 + (c - 65536) / 1024; 56320 + (c - 65536) mod 1024].

(** One well-formed sequence at the head of [s]: its scalar value and the rest. *)
Definition utf8_next (s : bytes) : option (Z * bytes) :=
  match s with
  | [] => None
  | b0 :: t0 =>
    if b0 <? 128 then Some (b0, t0)
    else match t0 with
    | [] => None
    | b1 :: t1 =>
      if (194 <=? b0) && (b0 <=? 223) then
        if utf8_cont b1 then Some ((b0 - 192) * 64 + (b1 - 128), t1) else None
      else match t1 with
      | [] => None
      | b2 :: t2 =>
        if (224 <=? b0) && (b0 <=? 239) then
          let c := ((b0 - 224) * 64 + (b1 - 128)) * 64 + (b2 - 128) in
          if utf8_cont b1 && utf8_cont b2 && (2048 <=? c)
             && negb ((55296 <=? c) && (c <=? 57343))
          then Some (c, t2) else None
        else match t2 with
        | [] => None
        | b3 :: t3 =>
          let c := (((b0 - 240) * 64 + (b1 - 128)) * 64 + (b2 - 128)) * 64 + (b3 - 128) in
          if (240 <=? b0) && (b0 <=? 244) && utf8_cont b1 && utf8_cont b2
             && utf8_cont b3 && (65536 <=? c) && (c <=? 1114111)
          then Some (c, t3) else None
        end
      end
    end
  end.

(** [from_bytes]; every step consumes input, so its length is enough fuel. *)
Fixpoint utf8_to_utf16_fuel (fuel : nat) (s : bytes) : option (list Z) :=
  match fuel, s with
  | _, [] => Some []
  | O, _ => None
  | S f, _ =>
      '(c, t) ← utf8_next s;
      u ← utf8_to_utf16_fuel f t;
      Some (utf16_encode c ++ u)
  end.

Definition utf8_to_utf16 (s : bytes) : option (list Z) :=
  utf8_to_utf16_fuel (length s) s.

Arguments utf8_to_utf16 : simpl never.

Lemma utf8_next_length s c t : utf8_next s = Some (c, t) -> (length t < length s)%nat.
Proof.
  unfold utf8_next. intros E.
  repeat match goal with
  | E : match ?x with _ => _ end = _ |- _ => destruct x; try done
  end; simplify_eq; cbn; lia.
Qed.

(** ASCII text is converted character by character. *)
Lemma utf8_to_utf16_ascii s :
  Forall (fun c => 0 <= c < 128) s -> utf8_to_utf16 s = Some s.
Proof.
  unfold utf8_to_utf16. induction 1 as [|c s Hc Hs IH]; [done|].
  cbn - [utf16_encode]. replace (c <? 128) with true by lia. cbn - [utf16_encode].
  rewrite IH. cbn - [utf16_encode]. unfold utf16_encode.
  by replace (c <? 65536) with true by lia.
Qed.
