(* ===== verification/PartReader.v ===== *)
(** * Labels and the combined partition reader

    Models [Labeling_reader], [Labeling_mbr_reader] and [Partition_reader] of
    [src/pkg/libblock-device/include/partition.h]: file system labels of Linux
    MBR partitions, and the fallback from GPT to MBR. *)

From S2P Require Import Prelude BlockTypes Reader Gpt Mbr Utf.

(** ** mbr.h: the Ext2 superblock *)

Definition Superblock_offset : Z := 1024.
Definition Superblock_magic : Z := 61267.
Definition Superblock_version : Z := 1.

Definition ext2_magic (off : Z) (m : bytes) : option Z := rd 2 (off + 56) m.
Definition ext2_major (off : Z) (m : bytes) : option Z := rd 4 (off + 76) m.

(** [strlen] on memory that ends after [m]: [None] when there is no NUL. *)
Fixpoint strlen (m : bytes) : option nat :=
  match m with
  | [] => None
  | c :: t => if c =? 0 then Some O else S <$> strlen t
  end.

(** [std::string(sb->name, min(strlen(sb->name), 16))] *)
Definition ext2_name (off : Z) (m : bytes) : option bytes :=
  let s := drop (Z.to_nat (off + 120)) m in
  n ← strlen s;
  Some (take (n `min` 16) s).

(** [label.erase(0, label.find_first_not_of(" "))] *)
Fixpoint erase_leading (s : bytes) : bytes :=
  match s with
  | [] => []
  | c :: t => if c =? 32 then erase_leading t else s
  end.

(** [label.erase(label.find_last_not_of(" ") + 1)] *)
Definition erase_trailing (s : bytes) : bytes := reverse (erase_leading (reverse s)).

(** ** Labeling_mbr_reader *)

(** The MBR reader together with [_cur], [_labels] and [_sb]. *)
Record Labeling_reader := {
  lr_base : Mbr_reader;
  lr_cur : Z;
  lr_labels : gmap Z bytes;
  lr_sb : bytes;
}.

Definition labeling_init (secsz : Z) : Labeling_reader :=
  {| lr_base := mbr_init secsz; lr_cur := 0; lr_labels := ∅; lr_sb := [] |}.

Definition lr_set_base (b : Mbr_reader) (r : Labeling_reader) : Labeling_reader :=
  {| lr_base := b; lr_cur := lr_cur r; lr_labels := lr_labels r; lr_sb := lr_sb r |}.

Definition lr_set_cur (c : Z) (r : Labeling_reader) : Labeling_reader :=
  {| lr_base := lr_base r; lr_cur := c; lr_labels := lr_labels r; lr_sb := lr_sb r |}.

Definition lr_set_sb (m : bytes) (r : Labeling_reader) : Labeling_reader :=
  {| lr_base := lr_base r; lr_cur := lr_cur r; lr_labels := lr_labels r; lr_sb := m |}.

Definition lr_add_label (l : bytes) (r : Labeling_reader) : Labeling_reader :=
  {| lr_base := lr_base r; lr_cur := lr_cur r;
     lr_labels := <[lr_cur r + 1 := l]> (lr_labels r); lr_sb := lr_sb r |}.

(** [get_partition]: the backend's answer, with the label as name where the
    backend has none. *)
Definition labeling_get_partition (r : Labeling_reader) (idx : Z) (inf : Partition_info)
    : run (l4_ret * Partition_info) :=
  '(ret, inf1) ← mbr_get_partition (lr_base r) idx inf;
  match ret, pi_name inf1, lr_labels r !! idx with
  | Ok, [], Some l =>
      match utf8_to_utf16 l with
      | None => Raised
      | Some n =>
          Ret (Ok, {| pi_type := pi_type inf1; pi_uuid := pi_uuid inf1; pi_name := n;
                      pi_first := pi_first inf1; pi_last := pi_last inf1;
                      pi_flags := pi_flags inf1 |})
      end
  | _, _, _ => Ret (ret, inf1)
  end.

(** [next]: the loop over [_cur], of which [left] rounds remain; the partition
    found, or nothing. *)
Fixpoint labeling_next_from (left : nat) (r : Labeling_reader)
    : run (Labeling_reader * option Partition_info) :=
  match left with
  | O => Ret (r, None)
  | S k =>
      '(ret, inf) ← mbr_get_partition (lr_base r) (lr_cur r + 1) Partition_info_init;
      if bool_decide (ret = Ok) && bool_decide (pi_type inf = Mbr_part)
         && (pi_flags inf =? Mbr_Linux)
      then Ret (r, Some inf)
      else labeling_next_from k (lr_set_cur (lr_cur r + 1) r)
  end.

Definition labeling_next (r : Labeling_reader) : run (Labeling_reader * option Partition_info) :=
  labeling_next_from (Z.to_nat (mbr_table_size (lr_base r) - lr_cur r)) r.

(** [Base::invoke_callback()] *)
Definition labeling_invoke (r : Labeling_reader) : run Labeling_reader :=
  b ← mbr_invoke (lr_base r);
  Ret (lr_set_base b r).

(** The label of an Ext2 superblock at [off], entered for partition [_cur + 1]. *)
Definition labeled (off : Z) (mem : bytes) (r : Labeling_reader) : run Labeling_reader :=
  magic ← or_oob (ext2_magic off mem);
  if magic =? Superblock_magic then
    major ← or_oob (ext2_major off mem);
    if Superblock_version <=? major then
      name ← or_oob (ext2_name off mem);
      Ret (lr_add_label (erase_trailing (erase_leading name)) r)
    else Ret r
  else Ret r.

Section Labeling_read.

Context `{Read_device D}.

(** The end of [label] and [get_label]: look for the next partition and read
    the sector of its superblock, or call the callback. *)
Definition label_continue
    (next : Z -> bytes -> Labeling_reader -> prog D Labeling_reader)
    (r : Labeling_reader) : prog D Labeling_reader :=
  nx ← lift (labeling_next r);
  let r1 := fst nx in
  match snd nx with
  | None => lift (labeling_invoke r1)
  | Some inf =>
      fresh ← alloc_io 1;
      secsz ← get_secsz;
      res ← read_sectors (u64 (pi_first inf + Superblock_offset / secsz)) 1;
      match res with
      | Read_next error mem => next error mem (lr_set_sb mem r1)
      | _ => lift (labeling_invoke (lr_set_sb fresh r1))
      end
  end.

(** [get_label], for at most [fuel] partitions; one more than the table has is
    enough ([get_label_outcome]). *)
Fixpoint get_label (fuel : nat) (error : Z) (mem : bytes) (r : Labeling_reader)
    : prog D Labeling_reader :=
  match fuel with
  | O => lift Fuel_out
  | S f =>
    if error <? 0 then lift (labeling_invoke r)
    else
      secsz ← get_secsz;
      r1 ← lift (labeled (Superblock_offset mod secsz) mem r);
      label_continue (get_label f) (lr_set_cur (lr_cur r1 + 1) r1)
  end.

(** [label], the callback passed to the backend's [read] *)
Definition label (fuel : nat) (r : Labeling_reader) : prog D Labeling_reader :=
  label_continue (get_label fuel)
    (lr_set_base (mbr_set_callback
       {| cb_set := true; cb_calls := cb_calls (mbr_callback (lr_base r)) |} (lr_base r)) r).

(** [read]: when the backend calls its callback, [label] runs; the client's
    callback is the one set by [label]. *)
Definition labeling_read (r : Labeling_reader) : prog D Labeling_reader :=
  b ← mbr_read (lr_base r);
  label (Z.to_nat Mbr_Max_partitions) (lr_set_base b r).

End Labeling_read.

(** ** Partition_reader *)

(** [_reader]: first a GPT reader, possibly replaced by an MBR reader. *)
Inductive any_reader := Rd_gpt (g : Gpt_reader) | Rd_mbr (l : Labeling_reader).

Record Partition_reader := { pr_reader : any_reader; pr_callback : callback }.

Definition partition_init (secsz : Z) : Partition_reader :=
  {| pr_reader := Rd_gpt (gpt_init secsz);
     pr_callback := {| cb_set := false; cb_calls := 0 |} |}.

(** [table_size] *)
Definition partition_table_size (r : Partition_reader) : Z :=
  match pr_reader r with
  | Rd_gpt g => gpt_table_size g
  | Rd_mbr l => mbr_table_size (lr_base l)
  end.

(** [get_partition] *)
Definition partition_get_partition (secsz : Z) (r : Partition_reader) (idx : Z)
    (inf : Partition_info) : run (l4_ret * Partition_info) :=
  match pr_reader r with
  | Rd_gpt g => gpt_get_partition secsz g idx inf
  | Rd_mbr l => labeling_get_partition l idx inf
  end.

Section Partition_read.

Context (size_w : Z) `{Read_device D}.

(** The end of a read: the original callback is invoked with reader [rd]. *)
Definition partition_done (rd : any_reader) (cb : callback) : run Partition_reader :=
  cb1 ← invoke_callback cb;
  Ret {| pr_reader := rd; pr_callback := cb1 |}.

(** The lambda passed to [_reader->read]: switch to a new MBR reader when the
    first reader found nothing. *)
Definition partition_fallback (rd : any_reader) (size : Z) (cb : callback)
    : prog D Partition_reader :=
  if size =? 0 then
    _ ← alloc_io 1;
    secsz ← get_secsz;
    l ← labeling_read (labeling_init secsz);
    lift (partition_done (Rd_mbr l) cb)
  else lift (partition_done rd cb).

(** [read] *)
Definition partition_read (r : Partition_reader) : prog D Partition_reader :=
  let cb := {| cb_set := true; cb_calls := cb_calls (pr_callback r) |} in
  match pr_reader r with
  | Rd_gpt g =>
      g1 ← gpt_read size_w g;
      partition_fallback (Rd_gpt g1) (gpt_table_size g1) cb
  | Rd_mbr l =>
      l1 ← labeling_read l;
      partition_fallback (Rd_mbr l1) (mbr_table_size (lr_base l1)) cb
  end.

End Partition_read.

(** ** The labels found *)

(** [idx] is a usable Linux partition of the MBR. *)
Definition linux_partition (b : Mbr_reader) (idx : Z) : Prop :=
  exists inf, mbr_get_partition b idx Partition_info_init = Ret (Ok, inf) /\
    pi_flags inf = Mbr_Linux.

(** Labels are only kept for usable Linux partitions. *)
Definition labels_ok (r : Labeling_reader) : Prop :=
  forall idx l, lr_labels r !! idx = Some l -> linux_partition (lr_base r) idx.

(** The superblock lies within the sector that is read for it. *)
Definition superblock_fits (secsz : Z) : Prop :=
  Superblock_offset mod secsz + 136 <= secsz.

(** Everything a reader of labels keeps true between its steps. *)
Definition labeling_inv (r : Labeling_reader) : Prop :=
  mbr_table_ok (lr_base r) /\ 0 <= lr_cur r /\ labels_ok r.

Lemma mbr_get_callback cb b idx inf :
  mbr_get_partition (mbr_set_callback cb b) idx inf = mbr_get_partition b idx inf.
Proof. done. Qed.

Lemma linux_partition_callback cb b idx :
  linux_partition (mbr_set_callback cb b) idx <-> linux_partition b idx.
Proof. done. Qed.

Lemma labeling_next_ok r :
  mbr_table_ok (lr_base r) -> 0 <= lr_cur r ->
  exists r1 found, labeling_next r = Ret (r1, found) /\
    r1 = lr_set_cur (lr_cur r1) r /\ lr_cur r <= lr_cur r1 /\
    (is_Some found -> lr_cur r1 < mbr_num_partitions (lr_base r) /\
                      linux_partition (lr_base r) (lr_cur r1 + 1)).
Proof.
  intros Ht. unfold labeling_next, mbr_table_size.
  remember (Z.to_nat (mbr_num_partitions (lr_base r) - lr_cur r)) as k eqn:Hk.
  revert r Ht Hk. induction k as [|k IH]; intros r Ht Hk Hc; cbn [labeling_next_from].
  { exists r, None. split_and!; [done|by destruct r|lia|]. by intros [? [=]]. }
  destruct (mbr_get_partition_table (lr_base r) (lr_cur r + 1) Partition_info_init Ht)
    as (v & inf & Hg & Hv); [lia|].
  rewrite Hg. cbn [mbind run_bind]. split_if.
  - exists r, (Some inf). split_and!; [done|by destruct r|lia|]. intros _.
    apply andb_true_iff in Heqb as [[Hok _]%andb_true_iff Hfl].
    apply bool_decide_eq_true in Hok as ->. destruct (Hv eq_refl) as (Hi & _).
    split; [lia|]. exists inf. split; [done|lia].
  - destruct (IH (lr_set_cur (lr_cur r + 1) r)) as (r1 & found & Hn & Hr1 & Hle & Hf);
      [done|cbn; lia|cbn; lia|].
    exists r1, found. split_and!; [done|rewrite Hr1; by destruct r|cbn in *; lia|done].
Qed.

Lemma ext2_magic_Some off m :
  0 <= off -> off + 136 <= zlen m -> is_Some (ext2_magic off m) /\ is_Some (ext2_major off m).
Proof. intros. split; apply rd_is_Some; lia. Qed.

(** A label entered for a Linux partition keeps the invariant. *)
Lemma labeled_ok off mem r :
  0 <= off -> off + 136 <= zlen mem -> is_Some (ext2_name off mem) ->
  labels_ok r -> linux_partition (lr_base r) (lr_cur r + 1) ->
  exists r1, labeled off mem r = Ret r1 /\ lr_base r1 = lr_base r /\
    lr_cur r1 = lr_cur r /\ labels_ok r1.
Proof.
  intros Ho Hl [name Hname] Hlab Hlin. unfold labeled.
  destruct (ext2_magic_Some off mem Ho Hl) as [[magic ->] [major ->]]. cbn.
  split_if; [|by exists r]. split_if; [|by exists r]. rewrite Hname. cbn.
  eexists. split_and!; [done..|]. intros idx l. cbn.
  rewrite lookup_insert_Some. intros [[<- _]|[_ Hidx]]; [done|by eapply Hlab].
Qed.

Section Labeling_outcome.

Context `{Read_device_ok D}.

(** What the sectors read as superblocks are assumed to have: a label field
    that is terminated within the sector. *)
Definition names_terminated : Prop := forall (d : D) s d' err mem,
  rdev_inout d s 1 = (d', S_completed err mem) -> 0 <= err ->
  is_Some (ext2_name (Superblock_offset mod rdev_sector_size d) mem).

Hypothesis Hnames : names_terminated.

(** The state at the end of a read that started with the callback count [n]. *)
Definition labeling_done (n : nat) (r : Labeling_reader) : Prop :=
  mbr_callback (lr_base r) = {| cb_set := false; cb_calls := S n |} /\ labeling_inv r.

Lemma labeling_invoke_ends n r (d : D) :
  mbr_callback (lr_base r) = {| cb_set := true; cb_calls := n |} -> labeling_inv r ->
  ends d (lift (labeling_invoke r)) (labeling_done n).
Proof.
  intros Hc Hinv. eapply ends_ret;
    [unfold labeling_invoke, mbr_invoke, invoke_callback; by rewrite Hc|]. by split.
Qed.

Lemma label_continue_ends n next r (d : D) :
  mbr_callback (lr_base r) = {| cb_set := true; cb_calls := n |} -> labeling_inv r ->
  (forall d1 error mem cur,
     rdev_sector_size d1 = rdev_sector_size d -> zlen mem = rdev_sector_size d ->
     (0 <= error -> is_Some (ext2_name (Superblock_offset mod rdev_sector_size d) mem)) ->
     lr_cur r <= cur < mbr_num_partitions (lr_base r) ->
     linux_partition (lr_base r) (cur + 1) ->
     ends d1 (next error mem (lr_set_sb mem (lr_set_cur cur r))) (labeling_done n)) ->
  ends d (label_continue next r) (labeling_done n).
Proof.
  intros Hc (Ht & Hcur & Hlab) Hnext. unfold label_continue.
  destruct (labeling_next_ok r Ht Hcur) as (r1 & found & Hn & Hr1 & Hle & Hf).
  eapply (ends_bind _ _ _ (eq (r1, found))); [by eapply ends_ret|].
  intros ? d0 Hs0 <-. cbn [fst snd]. set (c := lr_cur r1) in *. rewrite Hr1.
  assert (labeling_inv (lr_set_cur c r)) as Hinv by (split_and!; [done|cbn; lia|done]).
  destruct found as [inf|]; [|by apply labeling_invoke_ends].
  destruct Hf as [Hlt Hlin]; [by eexists|].
  eapply ends_bind; [apply ends_alloc; lia|]. intros fresh d1 Hs1 _.
  apply ends_secsz. eapply ends_bind.
  { apply (ends_read_with (fun sz err mem => 0 <= err ->
      is_Some (ext2_name (Superblock_offset mod sz) mem))); [|lia].
    intros ? ? ? ? ?. apply Hnames. }
  intros ? d2 Hs2 [->|(error & mem & -> & Hl & _ & Hq)].
  - by apply labeling_invoke_ends.
  - rewrite Hs1, Hs0 in Hq. apply Hnext; try done; [congruence|lia].
Qed.

(** Every round moves [_cur] forward within the table. *)
Lemma get_label_outcome n fuel error mem r (d : D) :
  superblock_fits (rdev_sector_size d) ->
  mbr_callback (lr_base r) = {| cb_set := true; cb_calls := n |} -> labeling_inv r ->
  zlen mem = rdev_sector_size d ->
  (0 <= error -> is_Some (ext2_name (Superblock_offset mod rdev_sector_size d) mem)) ->
  lr_cur r < mbr_num_partitions (lr_base r) ->
  linux_partition (lr_base r) (lr_cur r + 1) ->
  mbr_num_partitions (lr_base r) - lr_cur r <= Z.of_nat fuel ->
  ends d (get_label fuel error mem r) (labeling_done n).
Proof.
  revert error mem r d. induction fuel as [|f IH];
    intros error mem r d Hfit Hc Hinv Hl Hname Hlt Hlin Hf; [lia|].
  cbn [get_label]. split_if; [by apply labeling_invoke_ends|].
  pose proof (rdev_size_range d). unfold superblock_fits in Hfit.
  destruct Hinv as (Ht & Hcur & Hlab). apply ends_secsz.
  destruct (labeled_ok (Superblock_offset mod rdev_sector_size d) mem r)
    as (r1 & Hr1 & Hb1 & Hc1 & Hlab1);
    [apply Z.mod_pos_bound; lia|lia|apply Hname; lia|done..|].
  eapply (ends_bind _ _ _ (eq r1)); [by eapply ends_ret|]. intros ? d1 Hs1 <-.
  set (r2 := lr_set_cur _ _).
  assert (labeling_inv r2) as Hinv2.
  { split_and!; cbn; [by rewrite Hb1|lia|done]. }
  apply label_continue_ends; [cbn; by rewrite Hb1|done|].
  intros d2 error2 mem2 cur Hs2 Hl2 Hname2 Hcur2 Hlin2. rewrite Hs1 in *.
  rewrite <- Hs2 in *. apply IH; try done; cbn in *; [by rewrite Hb1| | |];
    try (rewrite Hb1 in *; lia).
  destruct Hinv2 as (? & ? & ?). split_and!; [done|cbn in *; lia|done].
Qed.

Lemma labeling_read_outcome r0 (d : D) :
  superblock_fits (rdev_sector_size d) ->
  (forall i, mbr_extended (lr_base r0) = Some i -> (i < 4)%nat) ->
  0 <= lr_cur r0 -> lr_labels r0 = ∅ ->
  ends d (labeling_read r0) (labeling_done (S (cb_calls (mbr_callback (lr_base r0))))).
Proof.
  intros Hfit He Hcur Hlab. unfold labeling_read.
  eapply ends_bind; [by apply mbr_read_outcome|]. intros b d1 Hs1 [Hc Ht].
  unfold label. unfold mbr_called in Hc. cbn [lr_base lr_set_base]. rewrite Hc.
  cbn [cb_calls]. set (r := lr_set_base _ _).
  assert (labeling_inv r) as Hinv.
  { split_and!; [done..|]. intros idx l. cbn. by rewrite Hlab, lookup_empty. }
  apply label_continue_ends; [done..|].
  intros d2 error mem cur Hs2 Hl Hname Hcr Hlin. rewrite <- Hs1, <- Hs2 in *.
  destruct Hinv as (_ & _ & Hl0).
  apply get_label_outcome; try done; [split_and!; [done|cbn in *; lia|done]|cbn in *; lia|].
  destruct Ht as [Hn _]. cbn in *. lia.
Qed.

(**  Reading the partition table of a device (GPT first, MBR with labels as
    the fallback) always ends, calls the callback exactly once, leaves a table
    of at most 1024 partitions, and has looked for labels only on usable Linux
    partitions; provided the label fields are terminated within their sector. *)
Theorem partition_read_total size_w (d : D) :
  superblock_fits (rdev_sector_size d) ->
  exists d' res, partition_read size_w (partition_init (rdev_sector_size d)) d = (d', res) /\
    (res = Raised \/
     exists r, res = Ret r /\ pr_callback r = {| cb_set := false; cb_calls := 1 |} /\
       0 <= partition_table_size r <= 1024 /\
       forall l, pr_reader r = Rd_mbr l -> labels_ok l).
Proof.
  intros Hfit.
  enough (ends d (partition_read size_w (partition_init (rdev_sector_size d)))
    (fun r => pr_callback r = {| cb_set := false; cb_calls := 1 |} /\
       0 <= partition_table_size r <= 1024 /\
       forall l, pr_reader r = Rd_mbr l -> labels_ok l)) as (d' & res & Hr & _ & Hres).
  { exists d', res. split; [done|]. destruct res as [r| | | | |]; try done; [right|by left].
    by exists r. }
  unfold partition_read, partition_fallback. cbn [partition_init pr_reader].
  eapply ends_bind; [by apply gpt_read_outcome|]. intros g1 d1 Hs1 [_ [Hn _]].
  unfold gpt_table_size. split_if.
  - eapply ends_bind; [by apply ends_alloc|]. intros _ d2 Hs2 _. apply ends_secsz.
    eapply ends_bind; [by apply labeling_read_outcome; rewrite ?Hs2, ?Hs1|].
    intros l d3 _ [Hc (Ht & _ & Hlab)].
    eapply ends_ret; [done|]. split; [done|]. split.
    + cbn. destruct Ht as [Hm _]. unfold Mbr_Max_partitions, mbr_table_size in *. lia.
    + by intros l0 [= <-].
  - eapply ends_ret; [done|]. split; [done|]. split; [done|]. by intros l [=].
Qed.

End Labeling_outcome.

(** Trimming a label removes exactly the surrounding blanks. *)
Lemma erase_leading_spaces n s :
  match s with c :: _ => c <> 32 | [] => True end ->
  erase_leading (replicate n 32 ++ s) = s.
Proof.
  intros Hs. induction n as [|n IH]; [|exact IH].
  destruct s as [|c s]; [done|]. cbn. by replace (c =? 32) with false by lia.
Qed.

Lemma label_trim n k a s b :
  a <> 32 -> b <> 32 ->
  erase_trailing (erase_leading (replicate n 32 ++ (a :: s ++ [b]) ++ replicate k 32))
    = a :: s ++ [b].
Proof.
  intros Ha Hb. rewrite erase_leading_spaces by done. unfold erase_trailing.
  rewrite reverse_app, reverse_replicate, erase_leading_spaces; [by rewrite reverse_involutive|].
  rewrite app_comm_cons, reverse_snoc. done.
Qed.

(** A label field without a terminator is read beyond the sector's memory. *)
Lemma label_unterminated_oob off mem r major :
  ext2_magic off mem = Some Superblock_magic -> ext2_major off mem = Some major ->
  1 <= major -> Forall (fun c => c <> 0) (drop (Z.to_nat (off + 120)) mem) ->
  labeled off mem r = Oob.
Proof.
  intros Hm Hj H1 Hz. unfold labeled. rewrite Hm, Hj. cbn.
  replace (Superblock_version <=? major) with true by (unfold Superblock_version; lia).
  unfold ext2_name.
  assert (strlen (drop (Z.to_nat (off + 120)) mem) = None) as ->; [|done].
  induction Hz as [|c s Hc Hs IH]; [done|]. cbn.
  replace (c =? 0) with false by lia. by rewrite IH.
Qed.

(** ** A disk with one labelled Linux partition *)

Module Label_example.

(** A sector that starts with an Ext2 superblock labelled [name]. *)
Definition superblock (name : bytes) : bytes :=
  replicate 56 0 ++ le_split 2 Superblock_magic ++ replicate 18 0 ++ le_split 4 1
    ++ replicate 40 0 ++ name ++ replicate (512 - 120 - length name) 0.

Definition disk (name : bytes) : image :=
  {| img_bytes :=
       Mbr_example.boot_sector [Mbr_example.entry Mbr_Linux 1 3;
                                Mbr_example.entry 6 2 1]
       ++ replicate 512 0 ++ replicate 512 0 ++ superblock name |}.

(** The disk labelled [ data ] as a device without state. *)
Record the_disk := { disk_unit : unit }.

#[local] Instance the_disk_device : Read_device the_disk := {
  rdev_sector_size _ := 512;
  rdev_alloc _ n := Some (replicate (Z.to_nat (n * 512)) 0);
  rdev_inout d s n := (d, (rdev_inout (disk (str " data ")) s n).2);
  rdev_tick d := d;
}.

#[local] Instance the_disk_ok : Read_device_ok the_disk.
Proof.
  split; try done.
  - intros d s n d' err mem E Hn.
    destruct (rdev_inout (disk (str " data ")) s n) as [d1 r1] eqn:E1.
    change (rdev_inout d s n) with (d, (rdev_inout (disk (str " data ")) s n).2) in E.
    rewrite E1 in E. injection E as _ ->. exact (rdev_mem _ s n d1 err mem E1 Hn).
  - intros d n mem [= <-] Hn. exact (rdev_fresh (disk []) n _ eq_refl Hn).
Qed.

Lemma the_disk_names : names_terminated (D := the_disk).
Proof.
  intros d s d' err mem E _.
  change (rdev_inout d s 1) with (d, (rdev_inout (disk (str " data ")) s 1).2) in E.
  unfold rdev_inout, image_device in E.
  destruct ((0 <=? s) && (0 <=? 1) && _) eqn:Heqb; [|done]. injection E as _ <- <-.
  assert (0 <= s < 4) as Hs by (change (zlen _) with 2048 in Heqb; lia).
  assert (s = 0 \/ s = 1 \/ s = 2 \/ s = 3) as [->|[->|[->| ->]]] by lia;
    vm_compute; eauto.
Qed.

Definition d0 : the_disk := {| disk_unit := tt |}.

Definition reader : Partition_reader :=
  match (partition_read 64 (partition_init 512) d0).2 with
  | Ret r => r
  | _ => partition_init 512
  end.

Lemma partition_read_total_witness :
  partition_table_size reader = 4 /\
  partition_get_partition 512 reader 1 Partition_info_init =
    Ret (Ok, {| pi_type := Mbr_part; pi_uuid := str "DEADBEEF-01"; pi_name := str "data";
                pi_first := 1; pi_last := 3; pi_flags := Mbr_Linux |}) /\
  exists d' res, partition_read 64 (partition_init 512) d0 = (d', res) /\
    (res = Raised \/
     exists r, res = Ret r /\ pr_callback r = {| cb_set := false; cb_calls := 1 |} /\
       0 <= partition_table_size r <= 1024 /\
       forall l, pr_reader r = Rd_mbr l -> labels_ok l).
Proof.
  split; [by_eval|]. split; [by_eval|].
  refine (partition_read_total (D := the_disk) the_disk_names 64 d0 _). by_eval.
Defined.

Definition bad_reader : Labeling_reader :=
  match (labeling_read (labeling_init 512) (disk [255])).2 with
  | Ret r => r
  | _ => labeling_init 512
  end.

(** A label that is not UTF-8 makes [get_partition] raise. *)
Lemma label_not_utf8_raises :
  labeling_read (labeling_init 512) (disk [255]) = (disk [255], Ret bad_reader) /\
  labeling_get_partition bad_reader 1 Partition_info_init = Raised.
Proof. by_eval. Qed.

End Label_example.
