(* ===== verification/PartDevice.v ===== *)
(** * Partition devices

    Models [src/pkg/libblock-device/include/part_device.h]: a partition is a
    window [_start], [_size] on the parent device, and a device itself.  All
    partitions share the parent object, so the state of a partition device is
    the state of its parent; the partition's own members never change. *)

From S2P Require Import Prelude BlockTypes Utf.

(** [cxx::String::rfind(":")], which is library code: the text before and after
    the last colon, if there is one. *)
Class Rfind := {
  rfind_colon : bytes -> option (bytes * bytes);
  rfind_Some : forall s a b, rfind_colon s = Some (a, b) -> s = a ++ [58] ++ b /\ 58 ∉ b;
  rfind_None : forall s, rfind_colon s = None -> 58 ∉ s;
}.

(** The data members of [Partitioned_device] except [_parent]. *)
Record Part := {
  _uuid : bytes;
  _name : list Z;
  _partition_id : bytes;
  _start : Z;
  _size : Z;
}.

#[global] Instance Part_eq_dec : EqDecision Part.
Proof. solve_decision. Defined.

(** The constructor; it raises on a partition that ends before it starts and on
    ids that do not fit [_partition_id]. *)
Definition Partitioned_device (partition_id : Z) (pi : Partition_info) : run Part :=
  if pi_last pi <? pi_first pi then Raised
  else if 999 <? partition_id then Raised
  else Ret {| _uuid := pi_uuid pi; _name := pi_name pi;
              _partition_id := snprintf_out 4 (fmtd partition_id);
              _start := pi_first pi;
              _size := u64 (u64 (pi_last pi - pi_first pi) + 1) |}.

Definition partition_size (p : Part) : Z := _size p.
Definition partition_start (p : Part) : Z := _start p.

(** The [while] loop of [inout_data]: the sectors of all blocks of the chain. *)
Fixpoint total_from (total : Z) (blocks : chain) : Z :=
  match blocks with
  | [] => total
  | b :: t => total_from (u64 (total + num_sectors b)) t
  end.

(** The [while] loop of [discard]: every block must lie in the partition. *)
Fixpoint discard_ok (sz offset : Z) (blocks : chain) : bool :=
  match blocks with
  | [] => true
  | b :: t =>
      if u64 (sz - offset) <=? sector b then false
      else if sz <? num_sectors b then false
      else if u64 (sz - num_sectors b) <? u64 (offset + sector b) then false
      else discard_ok sz offset t
  end.

Section Part_device.

Context `{Device D} `{Rfind}.

(** [match_hid]; the UUID in [_uuid] is a C string of at most 36 characters *)
Definition part_match_hid (p : Part) (d : D) (hid : bytes) : option bool :=
  if bool_decide (hid = take 36 (cstr (_uuid p))) then Some true
  else
    whid ← utf8_to_utf16 hid;
    if bool_decide (whid = _name p) then Some true
    else
      match rfind_colon hid with
      | None => Some false
      | Some (name, id) =>
          match match_hid d name with
          | None => None
          | Some true => Some (bool_decide (id = _partition_id p))
          | Some false => Some false
          end
      end.

(** [capacity] *)
Definition part_capacity (p : Part) (d : D) : Z := u64 (_size p * sector_size d).

(** [inout_data] *)
Definition part_inout_data (p : Part) (d : D) (sec : Z) (blocks : chain) (cb : Z)
    (dir : Direction) : D * l4_ret :=
  if _size p <=? sec then (d, Err EINVAL)
  else if u64 (_size p - sec) <? total_from 0 blocks then (d, Err EINVAL)
  else inout_data d (u64 (sec + _start p)) blocks cb dir.

(** [discard], for base devices with the discard feature *)
Definition part_discard (p : Part) (d : D) (offset : Z) (blocks : chain) (cb : Z)
    (disc : bool) : D * l4_ret :=
  let sz := partition_size p in
  if sz <? offset then (d, Err EINVAL)
  else if discard_ok sz offset blocks
       then discard d (u64 (offset + partition_start p)) blocks cb disc
       else (d, Err EINVAL).

(** The partition as a device over the state of its parent. *)
Definition part_device (p : Part) : Device D := {|
  notification_domain d := notification_domain d;
  is_read_only d := is_read_only d;
  match_hid d hid := part_match_hid p d hid;
  capacity d := part_capacity p d;
  sector_size d := sector_size d;
  max_size d := max_size d;
  max_segments d := max_segments d;
  reset d := d;
  dma_map d region off num dir := dma_map d region off num dir;
  dma_unmap d phys num dir := dma_unmap d phys num dir;
  inout_data d sec blocks cb dir := part_inout_data p d sec blocks cb dir;
  flush d cb := flush d cb;
  discard_info d := discard_info d;
  discard d offset blocks cb disc := part_discard p d offset blocks cb disc;
|}.

(** ** A partition is confined to its sectors *)

(** The sectors a data request transfers. *)
Definition total_sectors (blocks : chain) : Z := total_from 0 blocks.

(** The members the constructor establishes. *)
Definition part_wf (p : Part) (first last : Z) : Prop :=
  0 <= first <= last /\ last < 2 ^ 64 - 1 /\ _start p = first /\ _size p = last - first + 1.

(** A chain as a driver may build it. *)
Definition blocks_wf (blocks : chain) : Prop :=
  Forall (fun b => in_u 32 (num_sectors b) /\ in_u 64 (sector b)) blocks /\
  Z.of_nat (length blocks) < 2 ^ 32.

Definition sum_sectors (blocks : chain) : Z :=
  foldr (fun b acc => num_sectors b + acc) 0 blocks.

Lemma sum_sectors_bound blocks :
  Forall (fun b => in_u 32 (num_sectors b)) blocks ->
  0 <= sum_sectors blocks <= Z.of_nat (length blocks) * (2 ^ 32 - 1).
Proof.
  induction 1 as [|b l Hb Hl IH]; [done|]. unfold sum_sectors in *. unfold in_u in Hb.
  cbn [foldr length]. rewrite Nat2Z.inj_succ. lia.
Qed.

Lemma total_from_sum acc blocks :
  Forall (fun b => in_u 32 (num_sectors b)) blocks -> 0 <= acc ->
  acc + sum_sectors blocks < 2 ^ 64 -> total_from acc blocks = acc + sum_sectors blocks.
Proof.
  intros Hb. revert acc. induction Hb as [|b l Hn Hl IH]; intros acc Ha Hs; [cbn; lia|].
  pose proof (sum_sectors_bound l Hl) as Hbound. unfold in_u in Hn.
  cbn [total_from sum_sectors foldr] in *. fold (sum_sectors l) in *.
  rewrite (uwrap_small 64) by (unfold in_u; lia). rewrite IH by lia. lia.
Qed.

Lemma total_sectors_sum blocks :
  blocks_wf blocks -> total_sectors blocks = sum_sectors blocks /\ 0 <= sum_sectors blocks.
Proof.
  intros [Hf Hl]. assert (Forall (fun b => in_u 32 (num_sectors b)) blocks) as Hn.
  { eapply Forall_impl; [|exact Hf]. by intros b [? _]. }
  pose proof (sum_sectors_bound blocks Hn). unfold total_sectors.
  rewrite total_from_sum by (try done; lia). lia.
Qed.

Lemma Partitioned_device_wf id pi p :
  Partitioned_device id pi = Ret p -> 0 <= pi_first pi -> pi_last pi < 2 ^ 64 - 1 ->
  part_wf p (pi_first pi) (pi_last pi).
Proof.
  unfold Partitioned_device. intros E Hf Hl. repeat split_if; try done.
  injection E as <-. unfold part_wf. cbn. rewrite uwrap_add_l, uwrap_small by (unfold in_u; lia).
  lia.
Qed.

(** What [inout_data] of a partition does: a request within the partition is
    passed to the parent at the partition's offset, any other is refused. *)
Lemma part_inout_spec p first last d sec blocks cb dir :
  part_wf p first last -> blocks_wf blocks -> 0 <= sec ->
  part_inout_data p d sec blocks cb dir =
    if bool_decide (sec <= last - first /\ first + sec + sum_sectors blocks <= last + 1)
    then inout_data d (first + sec) blocks cb dir
    else (d, Err EINVAL).
Proof.
  intros (Hf & Hl & Hst & Hsz) Hb Hs. unfold part_inout_data. rewrite Hst, Hsz.
  destruct (total_sectors_sum blocks Hb) as [Ht Hnn]. unfold total_sectors in Ht.
  rewrite Ht. split_if; [rewrite bool_decide_false by lia; done|].
  rewrite (uwrap_small 64) by (unfold in_u; lia).
  split_if; [rewrite bool_decide_false by lia; done|].
  rewrite bool_decide_true, uwrap_small by (unfold in_u; lia). f_equal. lia.
Qed.

Lemma discard_ok_spec sz offset blocks :
  0 <= offset <= sz -> sz < 2 ^ 64 ->
  Forall (fun b => in_u 32 (num_sectors b) /\ in_u 64 (sector b)) blocks ->
  discard_ok sz offset blocks = true <->
  Forall (fun b => sector b < sz - offset /\ offset + sector b + num_sectors b <= sz) blocks.
Proof.
  intros Ho Hsz Hb. induction Hb as [|b l [Hn Hs] Hl IH]; [split; [constructor|done]|].
  rewrite Forall_cons_iff. cbn [discard_ok]. unfold in_u in *.
  rewrite (uwrap_small 64 (sz - offset)) by (unfold in_u; lia).
  split_if; [split; [done|lia]|]. split_if; [split; [done|lia]|].
  rewrite (uwrap_small 64), (uwrap_small 64) by (unfold in_u; lia).
  split_if; [split; [done|lia]|]. rewrite IH. intuition lia.
Qed.

Lemma part_discard_spec p first last d offset blocks cb disc :
  part_wf p first last -> blocks_wf blocks -> 0 <= offset ->
  part_discard p d offset blocks cb disc =
    if bool_decide (offset <= last - first + 1 /\
         Forall (fun b => offset + sector b <= last - first /\
                          first + offset + sector b + num_sectors b <= last + 1) blocks)
    then discard d (first + offset) blocks cb disc
    else (d, Err EINVAL).
Proof.
  intros (Hf & Hl & Hst & Hsz) [Hb _] Ho. unfold part_discard, partition_size, partition_start.
  rewrite Hst, Hsz. split_if; [by rewrite bool_decide_false by lia|].
  pose proof (discard_ok_spec (last - first + 1) offset blocks) as Hd.
  destruct Hd as [Hd1 Hd2]; [lia|lia|done|].
  destruct (discard_ok _ _ _).
  - rewrite bool_decide_true, uwrap_small by first
      [ unfold in_u; lia
      | split; [lia|]; eapply Forall_impl; [|by apply Hd1]; cbn; intros; lia ].
    f_equal. lia.
  - rewrite bool_decide_false; [done|]. intros [_ Hall].
    enough (false = true) by done. apply Hd2. eapply Forall_impl; [|exact Hall].
    cbn. intros. lia.
Qed.

End Part_device.

(** ** Isolation of partitions on a device that stores sectors *)

(** A device with sector contents [sector_data], in which a request changes at
    most the sectors it names. *)
Class Sector_store (D : Type) `{Device D} := {
  sector_data : D -> Z -> Z;
  store_inout : forall d sec blocks cb dir s,
    ~ (sec <= s < sec + sum_sectors blocks) ->
    sector_data (inout_data d sec blocks cb dir).1 s = sector_data d s;
  store_discard : forall d off blocks cb disc s,
    Forall (fun b => ~ (off + sector b <= s < off + sector b + num_sectors b)) blocks ->
    sector_data (discard d off blocks cb disc).1 s = sector_data d s;
}.

(** C38.  No request to a partition, neither a transfer nor a discard, changes a
    sector outside the first..last range of its partition table entry, whatever
    sector numbers and lengths the client asks for. *)
Theorem part_isolation `{Sector_store D} id pi p (d : D) s :
  Partitioned_device id pi = Ret p -> 0 <= pi_first pi -> pi_last pi < 2 ^ 64 - 1 ->
  ~ (pi_first pi <= s <= pi_last pi) ->
  (forall sec blocks cb dir, blocks_wf blocks -> 0 <= sec ->
     sector_data (part_inout_data p d sec blocks cb dir).1 s = sector_data d s) /\
  (forall offset blocks cb disc, blocks_wf blocks -> 0 <= offset ->
     sector_data (part_discard p d offset blocks cb disc).1 s = sector_data d s).
Proof.
  intros Hp Hf Hl Hs. pose proof (Partitioned_device_wf id pi p Hp Hf Hl) as Hwf.
  split; intros off blocks cb x Hb Ho.
  - rewrite (part_inout_spec p _ _ d off blocks cb x Hwf Hb Ho).
    case_bool_decide; [|done]. apply store_inout. lia.
  - rewrite (part_discard_spec p _ _ d off blocks cb x Hwf Hb Ho).
    case_bool_decide as Hc; [|done]. apply store_discard. destruct Hc as [_ Hc].
    destruct Hb as [Hb _]. rewrite !Forall_forall in *. intros b Hin.
    specialize (Hc b Hin). specialize (Hb b Hin) as [_ [? _]]. lia.
Qed.

(**  A transfer that fits the partition reaches the parent, moved by the
    partition's first sector; every other transfer is refused with EINVAL and
    does not reach the parent. *)
Theorem part_inout_translates `{Device D} id pi p (d : D) sec blocks cb dir :
  Partitioned_device id pi = Ret p -> 0 <= pi_first pi -> pi_last pi < 2 ^ 64 - 1 ->
  blocks_wf blocks -> 0 <= sec ->
  part_inout_data p d sec blocks cb dir =
    if bool_decide (sec <= pi_last pi - pi_first pi /\
                    pi_first pi + sec + sum_sectors blocks <= pi_last pi + 1)
    then inout_data d (pi_first pi + sec) blocks cb dir
    else (d, Err EINVAL).
Proof.
  intros Hp Hf Hl Hb Hs. apply part_inout_spec; try done. by eapply Partitioned_device_wf.
Qed.

(** The number of a partition contains no colon. *)
Lemma fmtd_no_colon n : 0 <= n -> 58 ∉ fmtd n.
Proof.
  intros Hn. unfold fmtd. replace (n <? 0) with false by lia. cbn.
  rewrite list_elem_of_fmap. intros (y & Hy & Hin). rewrite Z.abs_eq in Hin by done.
  pose proof (digits_bounds 10 n ltac:(lia) Hn) as Hd.
  rewrite Forall_forall in Hd. apply list_elem_of_In in Hin. specialize (Hd y Hin). cbn in Hd. lia.
Qed.

Lemma app_colon_inj a b a' b' :
  a ++ [58] ++ b = a' ++ [58] ++ b' -> 58 ∉ b -> 58 ∉ b' -> a = a' /\ b = b'.
Proof.
  revert a'. induction a as [|x a IH]; intros [|y a'] E Hb Hb'; cbn in *.
  - by injection E as ->.
  - injection E as <- ->. destruct Hb. apply elem_of_app. right. by left.
  - injection E as -> <-. destruct Hb'. apply elem_of_app. right. by left.
  - injection E as <- E. destruct (IH a' E Hb Hb') as [-> ->]. done.
Qed.

(**  Which names a partition answers to: its UUID, its label in UTF-8, or a
    name of its parent device followed by a colon and the partition number. *)
Theorem part_match_hid_spec `{Device D} `{Rfind} id pi p (d : D) hid whid :
  Partitioned_device id pi = Ret p -> 0 <= id ->
  utf8_to_utf16 hid = Some whid -> (forall n, is_Some (match_hid d n)) ->
  part_match_hid p d hid = Some true <->
  hid = take 36 (cstr (pi_uuid pi)) \/ whid = pi_name pi \/
  exists name, hid = name ++ [58] ++ take 3 (fmtd id) /\ match_hid d name = Some true.
Proof.
  intros Hp Hid Hw Hm. unfold Partitioned_device in Hp. repeat split_if; try done.
  injection Hp as <-. unfold part_match_hid. cbn [_uuid _name _partition_id].
  case_bool_decide as Hu; [by split; [left|]|]. rewrite Hw. cbn.
  case_bool_decide as Hn; [by split; [right; left|]|].
  assert (58 ∉ take 3 (fmtd id)) as Hc.
  { intros Hin. apply (fmtd_no_colon id Hid). by eapply elem_of_take in Hin as (i & Hin & _);
      apply list_elem_of_lookup_2 in Hin. }
  change (snprintf_out 4 (fmtd id)) with (take 3 (fmtd id)).
  destruct (rfind_colon hid) as [[name num]|] eqn:Er.
  - apply rfind_Some in Er as [-> Hnum]. destruct (Hm name) as [b Hb]. rewrite Hb.
    destruct b.
    + split.
      * intros [= Hd%bool_decide_eq_true]. subst num. right; right. by exists name.
      * intros [?|[?|(name' & E & _)]]; [done..|].
        apply app_colon_inj in E as [_ ->]; [|done..]. by rewrite bool_decide_true.
    + split; [done|]. intros [?|[?|(name' & E & Hb')]]; [done..|].
      apply app_colon_inj in E as [-> _]; [|done..]. congruence.
  - apply rfind_None in Er. split; [done|].
    intros [?|[?|(name' & -> & _)]]; [done..|]. destruct Er. set_solver.
Qed.

(** ** A RAM disk with a partition *)

Module Part_example.

(** The content of each sector is one number; a write stores the number that
    is passed as the callback token, a discard stores 0. *)
Record ram := { ram_sector : Z -> Z }.

Definition ram_fill (v lo n : Z) (r : ram) : ram :=
  {| ram_sector s := if (lo <=? s) && (s <? lo + n) then v else ram_sector r s |}.

Definition ram_discard (r : ram) (off : Z) (blocks : chain) : ram :=
  foldr (fun b r => ram_fill 0 (off + sector b) (num_sectors b) r) r blocks.

#[local] Instance ram_device : Device ram := {
  notification_domain _ := 0;
  is_read_only _ := false;
  match_hid _ hid := Some (bool_decide (hid = str "ram0"));
  capacity _ := 512000;
  sector_size _ := 512;
  max_size _ := 512000;
  max_segments _ := 16;
  reset r := r;
  dma_map r _ _ _ _ := (r, (Ok, 0));
  dma_unmap r _ _ _ := (r, Ok);
  inout_data r sec blocks v dir :=
    (if bool_decide (dir = To_device) then ram_fill v sec (sum_sectors blocks) r else r, Ok);
  flush r _ := (r, Ok);
  discard_info _ := None;
  discard r off blocks _ _ := (ram_discard r off blocks, Ok);
}.

#[local] Instance ram_store : Sector_store ram.
Proof.
  refine {| sector_data := ram_sector |}.
  - intros d sec blocks cb dir s Hs. cbn. case_bool_decide; cbn; [|done]. by split_if; [lia|].
  - intros d off blocks cb disc s Hb. cbn. induction Hb as [|b l Hb Hl IH]; cbn; [done|].
    by split_if; [lia|].
Defined.

Definition info : Partition_info :=
  {| pi_type := Gpt_part; pi_uuid := str "76543210-BA98-FEDC-0102-030405060708";
     pi_name := str "root"; pi_first := 34; pi_last := 99; pi_flags := 0 |}.

Definition part : Part :=
  {| _uuid := pi_uuid info; _name := str "root"; _partition_id := str "7";
     _start := 34; _size := 66 |}.

Definition r0 : ram := {| ram_sector := fun s => s |}.

Definition blocks (sec n : Z) : chain :=
  [{| dma_addr := 0; virt_addr := 0; sector := sec; num_sectors := n; flags := 0 |}].

Lemma part_eq : Partitioned_device 7 info = Ret part.
Proof. by_eval. Qed.

Lemma blocks_ok : blocks_wf (blocks 0 16) /\ blocks_wf (blocks 0 17).
Proof. split; (split; [repeat constructor|]; by_eval). Qed.

Lemma part_isolation_witness :
  sector_data (part_inout_data part r0 50 (blocks 0 16) 0 To_device).1 100 = 100 /\
  sector_data (part_discard part r0 50 (blocks 0 17) 0 true).1 100 = 100.
Proof.
  destruct (part_isolation 7 info part r0 100 part_eq) as [Hi Hd]; [by_eval|by_eval|cbn; lia|].
  split; [apply Hi|apply Hd]; apply blocks_ok || by_eval.
Defined.

Lemma part_inout_translates_witness :
  (part_inout_data part r0 50 (blocks 0 16) 0 To_device).2 = Ok /\
  (part_inout_data part r0 50 (blocks 0 17) 0 To_device).2 = Err EINVAL.
Proof.
  split.
  - rewrite (part_inout_translates 7 info part r0 50 (blocks 0 16) 0 To_device part_eq
      ltac:(by_eval) ltac:(by_eval) (proj1 blocks_ok) ltac:(by_eval)). reflexivity.
  - rewrite (part_inout_translates 7 info part r0 50 (blocks 0 17) 0 To_device part_eq
      ltac:(by_eval) ltac:(by_eval) (proj2 blocks_ok) ltac:(by_eval)). reflexivity.
Defined.

(** An executable [rfind]. *)
Fixpoint split_last (s : bytes) : option (bytes * bytes) :=
  match s with
  | [] => None
  | c :: t =>
      match split_last t with
      | Some (a, b) => Some (c :: a, b)
      | None => if c =? 58 then Some ([], t) else None
      end
  end.

Lemma split_last_None s : split_last s = None -> 58 ∉ s.
Proof.
  induction s as [|c s IH]; cbn; [by intros _ ?%not_elem_of_nil|].
  destruct (split_last s) as [[a b]|]; [done|]. split_if; [done|].
  intros _ Hin. apply elem_of_cons in Hin as [<-|Hin]; [done|by apply IH].
Qed.

Lemma split_last_Some s a b : split_last s = Some (a, b) -> s = a ++ [58] ++ b /\ 58 ∉ b.
Proof.
  revert a b. induction s as [|c s IH]; cbn; intros a b E; [done|].
  destruct (split_last s) as [[a' b']|] eqn:Es.
  - injection E as <- <-. destruct (IH a' b' eq_refl) as [-> ?]. done.
  - destruct (c =? 58) eqn:Hc; [|done]. injection E as <- <-. apply Z.eqb_eq in Hc as ->.
    split; [done|]. by apply split_last_None.
Qed.

#[local] Instance rfind_split : Rfind := {
  rfind_colon := split_last; rfind_Some := split_last_Some; rfind_None := split_last_None }.

Lemma part_match_hid_spec_witness : part_match_hid part r0 (str "ram0:7") = Some true.
Proof.
  refine (proj2 (part_match_hid_spec 7 info part r0 (str "ram0:7") (str "ram0:7")
    part_eq _ _ _) _); [by_eval|by_eval|by eexists|].
  right; right. exists (str "ram0"). by_eval.
Defined.

End Part_example.
