(* ===== verification/DeviceName.v ===== *)
(** * Names of devices and partitions

    Models the static helpers of [Device_mgr] in
    [src/pkg/libblock-device/include/block_device_mgr.h] that turn a client's
    device parameter into the name it is looked up by. *)

From S2P Require Import Prelude Gpt Mbr.

(** [is_guid] on a string with its terminating NUL *)
Definition is_guid (s : bytes) : bool :=
  forallb (fun i =>
      if (i =? 8)%nat || (i =? 13)%nat || (i =? 18)%nat || (i =? 23)%nat
      then c_at s i =? 45
      else isxdigit (c_at s i)) (seq 0 36)
  && (c_at s 36 =? 0).

(** [is_mbr_uuid] *)
Definition is_mbr_uuid (s : bytes) : bool :=
  forallb (fun i => if (i =? 8)%nat then c_at s i =? 45 else isxdigit (c_at s i)) (seq 0 11)
  && (c_at s 11 =? 0).

(** [is_uuid] *)
Definition is_uuid (s : bytes) : bool := is_guid s || is_mbr_uuid s.

(** [param.size() > prefix.size() && param.compare(0, prefix.size(), prefix) == 0],
    and then [param.substr(prefix.size())] *)
Definition after_prefix (prefix param : bytes) : option bytes :=
  if (length prefix <? length param)%nat
     && bool_decide (take (length prefix) param = prefix)
  then Some (drop (length prefix) param)
  else None.

(** [parse_device_name] *)
Definition parse_device_name (param : bytes) : l4_ret * option bytes :=
  match after_prefix (str "partlabel:") param with
  | Some label => (Ok, Some label)
  | None =>
      match after_prefix (str "partuuid:") param with
      | Some u => if is_uuid u then (Ok, Some (toupper <$> u)) else (Err EINVAL, None)
      | None => (Ok, Some (if is_uuid param then toupper <$> param else param))
      end
  end.

(** The name [add_static_client] enters for its client: [_buf] has 30 bytes. *)
Definition static_client_name (device : bytes) (partno : Z) : option bytes :=
  if partno =? 0 then None
  else if partno =? -1 then Some device
  else Some (snprintf_out 30 (cstr device ++ [58] ++ fmtd partno)).

(** The name [create_dynamic_client] looks up. *)
Definition dynamic_client_name (device : bytes) (partno : Z) : bytes :=
  if 0 <? partno then device ++ [58] ++ fmtd partno else device.

Arguments is_guid : simpl never.
Arguments is_mbr_uuid : simpl never.

(** ** The UUIDs the partition readers report are the ones accepted here *)

Lemma forall_below (P : Z -> bool) (n : nat) :
  forallb (fun i => P (Z.of_nat i)) (seq 0 n) = true ->
  forall x, 0 <= x < Z.of_nat n -> P x = true.
Proof.
  intros HP x Hx. rewrite forallb_forall in HP. rewrite <- (Z2Nat.id x) by lia.
  apply HP, in_seq. lia.
Qed.

(** [%02X] of a byte *)
Lemma fmtX2 b : byte_ok b -> fmtX 2 b = [hexdig (b / 16); hexdig (b mod 16)].
Proof.
  intros Hb.
  apply (forall_below (fun b => bool_decide (fmtX 2 b = [hexdig (b / 16); hexdig (b mod 16)]))
           256) in Hb; [by apply bool_decide_eq_true in Hb|].
  vm_compute. reflexivity.
Qed.

(** A character that appears in an upper-case UUID. *)
Definition upper_hex (c : Z) : bool := isxdigit c && (toupper c =? c) && negb (c =? 0).

Lemma upper_hexdig d : 0 <= d < 16 -> upper_hex (hexdig d) = true.
Proof.
  intros Hd. apply (forall_below (fun d => upper_hex (hexdig d)) 16); [|lia].
  vm_compute. reflexivity.
Qed.

Lemma upper_fmtX w n : 0 <= n -> forallb upper_hex (fmtX w n) = true.
Proof.
  intros Hn. unfold fmtX. apply forallb_forall. intros c Hc. apply in_app_or in Hc as [Hc|Hc].
  - apply list_elem_of_In, elem_of_replicate in Hc as [-> _]. done.
  - apply in_map_iff in Hc as (d & <- & Hd). apply upper_hexdig.
    pose proof (digits_bounds 16 n ltac:(lia) Hn) as Hb. rewrite Forall_forall in Hb. auto.
Qed.

(** A string of [len] characters with dashes at [dashes], digits elsewhere. *)
Definition uuid_chars (digit : Z -> bool) (len : nat) (dashes : list nat) (s : bytes) : bool :=
  forallb (fun i => if existsb (Nat.eqb i) dashes then c_at s i =? 45 else digit (c_at s i))
    (seq 0 len).

Definition guid_dashes : list nat := [8; 13; 18; 23]%nat.
Definition mbr_dashes : list nat := [8]%nat.

Lemma c_at_end s n : length s = n -> c_at s n = 0.
Proof. intros <-. unfold c_at. by rewrite lookup_ge_None_2. Qed.

Lemma c_at_fmap f s i : (i < length s)%nat -> c_at (f <$> s) i = f (c_at s i).
Proof.
  intros Hi. unfold c_at. rewrite list_lookup_fmap.
  by destruct (lookup_lt_is_Some_2 s i Hi) as [c ->].
Qed.

Lemma is_uuid_chars s :
  length s = 36%nat /\ uuid_chars isxdigit 36 guid_dashes s = true \/
  length s = 11%nat /\ uuid_chars isxdigit 11 mbr_dashes s = true ->
  is_uuid s = true.
Proof.
  intros [[Hl Hs]|[Hl Hs]]; apply orb_true_iff; [left|right].
  - unfold is_guid. rewrite (c_at_end s 36 Hl).
    change (uuid_chars isxdigit 36 guid_dashes s && true = true). by rewrite Hs.
  - unfold is_mbr_uuid. rewrite (c_at_end s 11 Hl).
    change (uuid_chars isxdigit 11 mbr_dashes s && true = true). by rewrite Hs.
Qed.

(** Any spelling of an upper-case UUID has its shape. *)
Lemma upper_hex_case c : upper_hex (toupper c) = true -> isxdigit c = true.
Proof.
  unfold upper_hex, toupper, islower, isxdigit, isdigit. intros E. split_ifs; lia.
Qed.

Lemma toupper_dash c : toupper c = 45 -> c = 45.
Proof. unfold toupper, islower. split_if; lia. Qed.

Lemma uuid_chars_case len dashes s :
  length s = len -> uuid_chars upper_hex len dashes (toupper <$> s) = true ->
  uuid_chars isxdigit len dashes s = true.
Proof.
  unfold uuid_chars. intros Hl Hs. rewrite forallb_forall in Hs.
  apply forallb_forall. intros i Hi. specialize (Hs i Hi). apply in_seq in Hi.
  rewrite c_at_fmap in Hs by lia. revert Hs. split_if; intros Hs.
  - apply Z.eqb_eq, toupper_dash in Hs. lia.
  - by apply upper_hex_case.
Qed.

(** The names without one of the two prefixes. *)
Lemma after_prefix_None prefix s i :
  (i < length prefix)%nat -> c_at s i <> c_at prefix i -> after_prefix prefix s = None.
Proof.
  intros Hi Hne. unfold after_prefix. split_if; [|done].
  apply andb_true_iff in Heqb as [_ E%bool_decide_eq_true]. destruct Hne.
  rewrite <- E. unfold c_at. by rewrite lookup_take_lt.
Qed.

Lemma after_prefix_app prefix s :
  s <> [] -> after_prefix prefix (prefix ++ s) = Some s.
Proof.
  intros Hs. unfold after_prefix. rewrite length_app, take_app_length, drop_app_length.
  rewrite bool_decide_true, andb_true_r by done.
  destruct s as [|c s]; [done|]. cbn [length].
  by replace (_ <? _)%nat with true by (symmetry; apply Nat.ltb_lt; lia).
Qed.

Lemma render_guid_chars g :
  length g = 16%nat -> bytes_ok g ->
  length (render_guid g) = 36%nat /\
  uuid_chars upper_hex 36 guid_dashes (render_guid g) = true.
Proof.
  intros Hl Hok. unfold render_guid, guid_order.
  do 16 (destruct g as [|? g]; [done|]). destruct g; [|done].
  repeat match goal with H : Forall _ (_ :: _) |- _ => inversion_clear H end.
  cbn. rewrite !fmtX2 by done. cbn. split; [done|].
  unfold uuid_chars, c_at. cbn.
  repeat match goal with H : byte_ok ?b |- _ =>
    rewrite (upper_hexdig (b / 16)), (upper_hexdig (b mod 16)) by
      (unfold byte_ok in H; first [apply Z.mod_pos_bound; lia
        | split; [apply Z.div_pos|apply Z.div_lt_upper_bound]; lia]); clear H end.
  done.
Qed.

Lemma mbr_uuid_chars id n :
  in_u 32 id -> 0 <= n < 255 ->
  length (mbr_uuid id n) = 11%nat /\
  uuid_chars upper_hex 11 mbr_dashes (mbr_uuid id n) = true.
Proof.
  intros Hid Hn. unfold mbr_uuid, snprintf_out.
  pose proof (length_fmtX 7 id Hid) as Hl8. pose proof (upper_fmtX 8 id ltac:(apply Hid)) as Hu8.
  pose proof (length_fmtX 1 (n + 1) ltac:(lia)) as Hl2.
  pose proof (upper_fmtX 2 (n + 1) ltac:(lia)) as Hu2.
  destruct (fmtX 8 id) as [|c0 [|c1 [|c2 [|c3 [|c4 [|c5 [|c6 [|c7 [|]]]]]]]]]; try done.
  destruct (fmtX 2 (n + 1)) as [|e0 [|e1 [|]]]; try done.
  cbn in Hu8, Hu2. split; [done|]. unfold uuid_chars, c_at. cbn.
  repeat (apply andb_true_iff in Hu8 as [-> Hu8]).
  repeat (apply andb_true_iff in Hu2 as [-> Hu2]). done.
Qed.

(** A string that some reader reports as the UUID of a partition. *)
Inductive reported_uuid : bytes -> Prop :=
  | Reported_gpt g : length g = 16%nat -> bytes_ok g -> reported_uuid (render_guid g)
  | Reported_mbr id n : in_u 32 id -> 0 <= n < 255 -> reported_uuid (mbr_uuid id n).

Lemma reported_is_uuid s :
  reported_uuid (toupper <$> s) ->
  is_uuid s = true /\ s <> [] /\ isxdigit (c_at s 0) = true.
Proof.
  intros Hr. inversion Hr as [g Hg Hok E|id n Hid Hn E].
  - destruct (render_guid_chars g Hg Hok) as [Hl Hc]. rewrite E in Hl, Hc.
    rewrite length_fmap in Hl. apply uuid_chars_case in Hc; [|done].
    split_and!; [by apply is_uuid_chars; left|by destruct s|].
    cbn in Hc. by apply andb_true_iff in Hc as [? _].
  - destruct (mbr_uuid_chars id n Hid Hn) as [Hl Hc]. rewrite E in Hl, Hc.
    rewrite length_fmap in Hl. apply uuid_chars_case in Hc; [|done].
    split_and!; [by apply is_uuid_chars; right|by destruct s|].
    cbn in Hc. by apply andb_true_iff in Hc as [? _].
Qed.

(**  A client that names a partition by its UUID, in any mix of upper and
    lower case, with or without the prefix [partuuid:], is looked up under the
    very string the partition table reader reports for that partition. *)
Theorem parse_device_name_uuid s :
  reported_uuid (toupper <$> s) ->
  parse_device_name s = (Ok, Some (toupper <$> s)) /\
  parse_device_name (str "partuuid:" ++ s) = (Ok, Some (toupper <$> s)).
Proof.
  intros Hr. destruct (reported_is_uuid s Hr) as (Hu & Hne & Hx). unfold parse_device_name.
  assert (c_at s 0 <> 112) as Hp by (intros E; by rewrite E in Hx).
  rewrite (after_prefix_None (str "partlabel:") s 0) by (exact Hp || (vm_compute; lia)).
  rewrite (after_prefix_None (str "partuuid:") s 0) by (exact Hp || (vm_compute; lia)).
  rewrite (after_prefix_None (str "partlabel:") (str "partuuid:" ++ s) 4)
    by (vm_compute; lia || discriminate).
  rewrite after_prefix_app by done. by rewrite Hu.
Qed.

(**  A client configured at start and a client created at run time are
    looked up under the same name exactly when device name, colon and partition
    number fit 29 characters; a longer static name loses its end. *)
Theorem static_name_truncated device partno :
  0 ∉ device -> 0 < partno ->
  static_client_name device partno = Some (take 29 (dynamic_client_name device partno)) /\
  (static_client_name device partno = Some (dynamic_client_name device partno) <->
   (length (dynamic_client_name device partno) <= 29)%nat).
Proof.
  intros Hd Hp. unfold static_client_name, dynamic_client_name, snprintf_out.
  replace (partno =? 0) with false by lia. replace (partno =? -1) with false by lia.
  replace (0 <? partno) with true by lia. rewrite cstr_id by (apply list.Forall_forall; by intros c Hc ->). cbn [Nat.sub].
  set (s := device ++ _). split; [done|]. split; [intros [= E]|intros Hl; by rewrite take_ge].
  rewrite <- E, length_take. lia.
Qed.

Lemma parse_device_name_uuid_witness :
  parse_device_name (str "deadBEEF-0a") = (Ok, Some (str "DEADBEEF-0A")).
Proof.
  refine (proj1 (parse_device_name_uuid (str "deadBEEF-0a") _)).
  refine (Reported_mbr 3735928559 9 _ _); by_eval.
Defined.

Lemma static_name_truncated_witness :
  static_client_name (str "VENDORX-SERIAL-NUMBER-0123456789") 2
    = Some (str "VENDORX-SERIAL-NUMBER-0123456").
Proof.
  refine (proj1 (static_name_truncated (str "VENDORX-SERIAL-NUMBER-0123456789") 2 _ _)); [|by_eval].
  refine (bool_decide_unpack _ _). vm_compute. exact I.
Defined.
