(* ===== verification/DeviceMgr.v ===== *)
(** * The device manager

    Models [Device_mgr] and its [Connection] of
    [src/pkg/libblock-device/include/block_device_mgr.h]: the tree of disks and
    partitions, the pairing of clients with devices, the removal of clients
    that went away, and shutdown.

    Objects that are referred to by address (connections, clients) carry an id.
    The state shared by all connections is [shared]: the scheduler's list of
    clients, the registry, the errands queued by [remove_client], and the next
    free id. *)

From S2P Require Import Prelude BlockTypes PartDevice DeviceName.

(** ** Data *)

(** A [Virtio_client] as its owner sees it.  [cl_alive]: the IPC gate still has
    a label; [cl_in_flight]: requests at the device. *)
Record Client := {
  cl_id : Z;
  cl_gate : Z;
  cl_num_ds : Z;
  cl_readonly : bool;
  cl_trusted : list Z;
  cl_validation : bool;
  cl_alive : bool;
  cl_in_flight : Z;
  cl_state : Shutdown_type;
}.

(** [struct Pending_client]; an invalid gate capability is [None]. *)
Record Pending_client := {
  pc_device_id : bytes;
  pc_gate : option Z;
  pc_num_ds : Z;
  pc_readonly : bool;
  pc_validation : bool;
  pc_trusted : list Z;
  pc_pairing_cb : bool;
}.

(** [class Connection]: id, [_shutdown_state], [_device], [_interface], [_subs] *)
#[warnings="-register-all"]
Inductive Connection {Dev : Type} :=
  Conn (cid : Z) (st : Shutdown_type) (dev : Dev) (iface : option Client)
       (subs : list Connection).
Arguments Connection Dev : clear implicits.

(** What a factory provides ([Simple_factory], [Partitionable_factory]):
    [match_hid] of its devices ([None]: it raises) and, for partitionable
    devices, [create_partition]. *)
Class Factory (Dev : Type) := {
  dev_match : Dev -> bytes -> option bool;
  create_partition : option (Dev -> Z -> Partition_info -> run Dev);
}.

(** The capability the registry gives to an object, if any: for the objects
    already registered and the gate asked for. *)
Class Registry := { register_obj : list Z -> option Z -> option Z }.

(** The state behind [_mgr] and [_registry]. *)
Record shared := {
  sh_sched : list Z;
  sh_registry : list Z;
  sh_deferred : list Z;
  sh_paired : list Z;
  sh_next : Z;
}.

(** Take the first [i] off the list. *)
Fixpoint remove_one (i : Z) (l : list Z) : list Z :=
  match l with
  | [] => []
  | j :: t => if j =? i then t else j :: remove_one i t
  end.

Definition or_raise {A} (o : option A) : run A :=
  match o with Some a => Ret a | None => Raised end.

Section Device_mgr.

Context {Dev : Type} `{Factory Dev} `{Registry}.

Abbreviation conn := (Connection Dev).

Definition cn_id (c : conn) : Z := let 'Conn i _ _ _ _ := c in i.
Definition cn_state (c : conn) : Shutdown_type := let 'Conn _ s _ _ _ := c in s.
Definition cn_iface (c : conn) : option Client := let 'Conn _ _ _ f _ := c in f.
Definition cn_subs (c : conn) : list conn := let 'Conn _ _ _ _ l := c in l.

Definition has_iface (c : conn) : bool :=
  match cn_iface c with Some _ => true | None => false end.

(** The loop of [contains_device] over the partitions. *)
Fixpoint any_contains (f : conn -> run bool) (l : list conn) : run bool :=
  match l with
  | [] => Ret false
  | sub :: t => x ← f sub; if x : bool then Ret true else any_contains f t
  end.

(** [contains_device] *)
Fixpoint contains_device (name : bytes) (c : conn) : run bool :=
  match c with
  | Conn _ _ dev _ subs =>
      b ← or_raise (dev_match dev name);
      if b : bool then Ret true else any_contains (contains_device name) subs
  end.

(** The client object made for [c], registered under [gate]. *)
Definition new_client (m : shared) (c : Pending_client) (gate : Z) : Client :=
  {| cl_id := sh_next m; cl_gate := gate; cl_num_ds := pc_num_ds c;
     cl_readonly := pc_readonly c; cl_trusted := pc_trusted c;
     cl_validation := pc_validation c; cl_alive := true; cl_in_flight := 0;
     cl_state := Running |}.

(** The part of [create_interface_for] after the checks: make and register the
    client, hand it to the scheduler, report the pairing. *)
Definition connect_client (cid : Z) (c : Pending_client) (m : shared)
    : run (shared * Client * Pending_client) :=
  gate ← or_raise (register_obj (sh_registry m) (pc_gate c));
  let clt := new_client m c gate in
  let c1 :=
    {| pc_device_id := pc_device_id c;
       pc_gate := Some (default gate (pc_gate c)); pc_num_ds := pc_num_ds c;
       pc_readonly := pc_readonly c; pc_validation := pc_validation c;
       pc_trusted := pc_trusted c; pc_pairing_cb := pc_pairing_cb c |} in
  Ret ({| sh_sched := sh_sched m ++ [cl_id clt];
          sh_registry := sh_registry m ++ [cl_id clt];
          sh_deferred := sh_deferred m;
          sh_paired := if pc_pairing_cb c then sh_paired m ++ [cid] else sh_paired m;
          sh_next := sh_next m + 1 |}, clt, c1).

(** The loop of [create_interface_for] over the partitions: the result of the
    first partition that does not say ENODEV, and whether a partition visited
    has a client. *)
Fixpoint visit_subs
    (create : conn -> Pending_client -> shared -> run (shared * conn * Pending_client * l4_ret))
    (l : list conn) (busy : bool) (c : Pending_client) (m : shared)
    : run (shared * list conn * Pending_client * option l4_ret * bool) :=
  match l with
  | [] => Ret (m, [], c, None, busy)
  | sub :: t =>
      let busy1 := busy || has_iface sub in
      '(m1, sub1, c1, ret) ← create sub c m;
      if bool_decide (ret = Err ENODEV) then
        '(m2, t2, c2, found, busy2) ← visit_subs create t busy1 c1 m1;
        Ret (m2, sub1 :: t2, c2, found, busy2)
      else Ret (m1, sub1 :: t, c1, Some ret, busy1)
  end.

(** [create_interface_for] *)
Fixpoint create_interface_for (con : conn) (c : Pending_client) (m : shared)
    : run (shared * conn * Pending_client * l4_ret) :=
  match con with
  | Conn cid st dev iface subs =>
      if negb (bool_decide (st = Running)) then Ret (m, con, c, Err EIO)
      else
        match iface with
        | Some _ =>
            b ← contains_device (pc_device_id c) con;
            Ret (m, con, c, if b : bool then Err EBUSY else Err ENODEV)
        | None =>
            '(m1, subs1, c1, found, busy) ← visit_subs create_interface_for subs false c m;
            match found with
            | Some ret => Ret (m1, Conn cid st dev None subs1, c1, ret)
            | None =>
                hit ← or_raise (dev_match dev (pc_device_id c1));
                if negb hit then Ret (m1, Conn cid st dev None subs1, c1, Err ENODEV)
                else if busy : bool
                then Ret (m1, Conn cid st dev None subs1, c1, Err EBUSY)
                else
                  '(m2, clt, c2) ← connect_client cid c1 m1;
                  Ret (m2, Conn cid st dev (Some clt) subs1, c2, Ok)
            end
        end
  end.

(** [Virtio_client::shutdown_event], as far as the owner can observe it. *)
Definition client_shutdown_event (type : Shutdown_type) (c : Client) : run Client :=
  if bool_decide (cl_state c = Client_gone) then Ret c
  else if bool_decide (cl_state c = System_shutdown) then Asserted
  else if bool_decide (cl_state c = System_suspend) && negb (bool_decide (type = Running))
  then Asserted
  else
    let st := if bool_decide (type = Client_shutdown) then Running else type in
    Ret {| cl_id := cl_id c; cl_gate := cl_gate c; cl_num_ds := cl_num_ds c;
           cl_readonly := cl_readonly c; cl_trusted := cl_trusted c;
           cl_validation := cl_validation c; cl_alive := cl_alive c;
           cl_in_flight := cl_in_flight c; cl_state := st |}.

(** [Virtio_client::busy] *)
Definition client_busy (c : Client) : bool := negb (cl_in_flight c =? 0).

(** [Scheduler_base::remove_client] and [Registry::unregister_obj] on the ids:
    the scheduler drops the entry of the client. *)
Definition drop_id (i : Z) (l : list Z) : list Z := filter (fun j => j <> i) l.

(** [Connection::remove_client] *)
Definition remove_client (con : conn) (m : shared) : run (shared * conn) :=
  match con with
  | Conn cid st dev iface subs =>
      match iface with
      | None => Asserted
      | Some clt =>
          clt1 ← client_shutdown_event Client_gone clt;
          if client_busy clt1 then
            Ret ({| sh_sched := sh_sched m; sh_registry := sh_registry m;
                    sh_deferred := sh_deferred m ++ [cid]; sh_paired := sh_paired m;
                    sh_next := sh_next m |}, Conn cid st dev (Some clt1) subs)
          else
            Ret ({| sh_sched := drop_id (cl_id clt) (sh_sched m);
                    sh_registry := drop_id (cl_id clt) (sh_registry m);
                    sh_deferred := sh_deferred m; sh_paired := sh_paired m;
                    sh_next := sh_next m |}, Conn cid st dev None subs)
      end
  end.

(** Apply an operation to a list of connections in order. *)
Fixpoint run_all (f : conn -> shared -> run (shared * conn)) (l : list conn) (m : shared)
    : run (shared * list conn) :=
  match l with
  | [] => Ret (m, [])
  | c :: t =>
      '(m1, c1) ← f c m;
      '(m2, t2) ← run_all f t m1;
      Ret (m2, c1 :: t2)
  end.

(** [Connection::check_clients] *)
Fixpoint check_clients (con : conn) (m : shared) : run (shared * conn) :=
  match con with
  | Conn cid st dev iface subs =>
      match iface with
      | Some clt => if cl_alive clt then Ret (m, con) else remove_client con m
      | None =>
          '(m1, subs1) ← run_all check_clients subs m;
          Ret (m1, Conn cid st dev None subs1)
      end
  end.

(** [Connection::shutdown_event] *)
Fixpoint conn_shutdown_event (type : Shutdown_type) (con : conn) (m : shared)
    : run (shared * conn) :=
  match con with
  | Conn cid _ dev iface subs =>
      '(m1, subs1) ← run_all (conn_shutdown_event type) subs m;
      match iface with
      | None => Ret (m1, Conn cid type dev None subs1)
      | Some clt =>
          clt1 ← client_shutdown_event type clt;
          Ret (m1, Conn cid type dev (Some clt1) subs1)
      end
  end.

(** Run [f] on the connection with id [i], at any depth. *)
Fixpoint at_conn (i : Z) (f : conn -> shared -> run (shared * conn)) (con : conn)
    (m : shared) : run (shared * conn) :=
  match con with
  | Conn cid st dev iface subs =>
      if cid =? i then f con m
      else
        '(m1, subs1) ← run_all (at_conn i f) subs m;
        Ret (m1, Conn cid st dev iface subs1)
  end.

(** The loop of [scan_disk_partitions] over the partition numbers [i..i+n-1];
    [get] is [Partition_reader::get_partition] of a finished read. *)
Fixpoint scan_partitions (create : Dev -> Z -> Partition_info -> run Dev)
    (get : Z -> run (l4_ret * Partition_info)) (dev : Dev) (n : nat) (i : Z)
    (subs : list conn) (m : shared) : run (shared * list conn) :=
  match n with
  | O => Ret (m, subs)
  | S k =>
      '(ret, info) ← get i;
      if is_err ret then scan_partitions create get dev k (i + 1) subs m
      else
        part ← create dev i info;
        scan_partitions create get dev k (i + 1)
          (Conn (sh_next m) Running part None [] :: subs)
          {| sh_sched := sh_sched m; sh_registry := sh_registry m;
             sh_deferred := sh_deferred m; sh_paired := sh_paired m;
             sh_next := sh_next m + 1 |}
  end.

(** [scan_disk_partitions]: nothing to do for a factory without partitions. *)
Definition scan_disk_partitions (get : Z -> run (l4_ret * Partition_info)) (sz : Z)
    (dev : Dev) (m : shared) : run (shared * list conn) :=
  match create_partition with
  | None => Ret (m, [])
  | Some create => scan_partitions create get dev (Z.to_nat sz) 1 [] m
  end.

(** ** Device_mgr *)

Record Device_mgr := {
  mg_conns : list conn;
  mg_pending : list Pending_client;
  mg_shared : shared;
}.

(** [create_dynamic_client] from the loop over the connections on. *)
Fixpoint try_connections (l : list conn) (c : Pending_client) (m : shared)
    : run (shared * list conn * l4_ret * option Z) :=
  match l with
  | [] => Ret (m, [], Err ENODEV, None)
  | con :: t =>
      '(m1, con1, c1, ret) ← create_interface_for con c m;
      if bool_decide (ret = Err ENODEV) then
        '(m2, t2, ret2, cap) ← try_connections t c1 m1;
        Ret (m2, con1 :: t2, ret2, cap)
      else if is_err ret then Ret (m1, con1 :: t, ret, None)
      else Ret (m1, con1 :: t, Ok, pc_gate c1)
  end.

Definition create_dynamic_client (device : bytes) (partno num_ds : Z) (readonly cb validation : bool)
    (trusted : list Z) (g : Device_mgr) : run (Device_mgr * l4_ret * option Z) :=
  let clt :=
    {| pc_device_id := dynamic_client_name device partno; pc_gate := None;
       pc_num_ds := num_ds; pc_readonly := readonly; pc_validation := validation;
       pc_trusted := trusted; pc_pairing_cb := cb |} in
  '(m, conns, ret, cap) ← try_connections (mg_conns g) clt (mg_shared g);
  Ret ({| mg_conns := conns; mg_pending := mg_pending g; mg_shared := m |}, ret, cap).

(** [add_static_client] *)
Definition add_static_client (gate : option Z) (device : bytes) (partno num_ds : Z)
    (readonly cb validation : bool) (trusted : list Z) (g : Device_mgr)
    : Device_mgr * l4_ret :=
  match static_client_name device partno with
  | None => (g, Err ENODEV)
  | Some name =>
      ({| mg_conns := mg_conns g;
          mg_pending := mg_pending g ++
            [{| pc_device_id := name; pc_gate := gate; pc_num_ds := num_ds;
                pc_readonly := readonly; pc_validation := validation;
                pc_trusted := trusted; pc_pairing_cb := cb |}];
          mg_shared := mg_shared g |}, Ok)
  end.

(** [connect_static_clients] on the new connection [con] *)
Fixpoint connect_static_clients (l : list Pending_client) (con : conn) (m : shared)
    : run (shared * conn * list Pending_client) :=
  match l with
  | [] => Ret (m, con, [])
  | c :: t =>
      match pc_gate c with
      | None =>
          '(m1, con1, t1) ← connect_static_clients t con m;
          Ret (m1, con1, c :: t1)
      | Some _ =>
          '(m1, con1, c1, ret) ← create_interface_for con c m;
          if bool_decide (ret = Ok) then
            let c2 := {| pc_device_id := pc_device_id c1; pc_gate := None;
                         pc_num_ds := pc_num_ds c1; pc_readonly := pc_readonly c1;
                         pc_validation := pc_validation c1; pc_trusted := pc_trusted c1;
                         pc_pairing_cb := pc_pairing_cb c1 |} in
            '(m2, con2, t2) ← connect_static_clients t con1 m1;
            Ret (m2, con2, c2 :: t2)
          else if negb (bool_decide (ret = Err ENODEV)) then Ret (m1, con1, c1 :: t)
          else
            '(m2, con2, t2) ← connect_static_clients t con1 m1;
            Ret (m2, con2, c1 :: t2)
      end
  end.

(** [add_disk], with the result of the partition scan. *)
Definition add_disk (dev : Dev) (get : Z -> run (l4_ret * Partition_info)) (sz : Z)
    (g : Device_mgr) : run Device_mgr :=
  let m := mg_shared g in
  let cid := sh_next m in
  '(m1, subs) ← scan_disk_partitions get sz dev
     {| sh_sched := sh_sched m; sh_registry := sh_registry m;
        sh_deferred := sh_deferred m; sh_paired := sh_paired m; sh_next := sh_next m + 1 |};
  '(m2, con, pending) ← connect_static_clients (mg_pending g)
     (Conn cid Running dev None subs) m1;
  Ret {| mg_conns := con :: mg_conns g; mg_pending := pending; mg_shared := m2 |}.

(** An operation on every connection. *)
Definition on_conns (f : conn -> shared -> run (shared * conn)) (g : Device_mgr)
    : run Device_mgr :=
  '(m, conns) ← run_all f (mg_conns g) (mg_shared g);
  Ret {| mg_conns := conns; mg_pending := mg_pending g; mg_shared := m |}.

(** [Device_mgr::check_clients] *)
Definition mgr_check_clients : Device_mgr -> run Device_mgr := on_conns check_clients.

(** [Device_mgr::shutdown_event] *)
Definition mgr_shutdown_event (type : Shutdown_type) (g : Device_mgr) : run Device_mgr :=
  if bool_decide (type = Client_gone) || bool_decide (type = Client_shutdown) then Asserted
  else on_conns (conn_shutdown_event type) g.

(** An errand queued by [remove_client] of connection [i] expires. *)
Definition mgr_deferred (i : Z) (g : Device_mgr) : run Device_mgr :=
  let m := mg_shared g in
  on_conns (at_conn i remove_client)
    {| mg_conns := mg_conns g; mg_pending := mg_pending g;
       mg_shared := {| sh_sched := sh_sched m; sh_registry := sh_registry m;
                       sh_deferred := remove_one i (sh_deferred m);
                       sh_paired := sh_paired m; sh_next := sh_next m |} |}.

(** ** Exclusive access and ownership of clients *)

(** The client of a connection itself, and with those of its partitions. *)
Definition iface_ids (c : conn) : list Z :=
  match cn_iface c with Some clt => [cl_id clt] | None => [] end.

Definition subs_ids (l : list conn) : list Z := mjoin (iface_ids <$> l).

Definition conn_ids (c : conn) : list Z := iface_ids c ++ subs_ids (cn_subs c).

(** Partitions have no partitions of their own, and a disk with a client has
    no partition with a client. *)
Definition conn_ok (c : conn) : Prop :=
  Forall (fun s => cn_subs s = []) (cn_subs c) /\
  (has_iface c = true -> Forall (fun s => has_iface s = false) (cn_subs c)).

(** The scheduler and the registry hold exactly the clients [ids], each once. *)
Definition shared_ok (ids : list Z) (m : shared) : Prop :=
  sh_sched m ≡ₚ ids /\ sh_registry m ≡ₚ ids /\ NoDup ids /\ Forall (fun i => i < sh_next m) ids.

Definition mgr_ids (g : Device_mgr) : list Z := mjoin (conn_ids <$> mg_conns g).

Definition mgr_ok (g : Device_mgr) : Prop :=
  Forall conn_ok (mg_conns g) /\ shared_ok (mgr_ids g) (mg_shared g).

#[local] Instance shared_ok_proper : Proper ((≡ₚ) ==> (=) ==> iff) shared_ok.
Proof.
  intros l1 l2 Hp m ? <-. unfold shared_ok. by rewrite Hp.
Qed.

(** Only the lists and the counter matter. *)
Lemma shared_ok_ext ids m m' :
  sh_sched m' = sh_sched m -> sh_registry m' = sh_registry m -> sh_next m <= sh_next m' ->
  shared_ok ids m -> shared_ok ids m'.
Proof.
  unfold shared_ok. intros -> -> Hn (? & ? & ? & Hb). split_and!; try done.
  eapply Forall_impl; [|exact Hb]. cbn. lia.
Qed.

Lemma connect_client_ok cid c m m' clt c' ids :
  shared_ok ids m -> connect_client cid c m = Ret (m', clt, c') ->
  shared_ok (cl_id clt :: ids) m'.
Proof.
  intros (Hs & Hr & Hd & Hb) E. unfold connect_client in E. inv_run E.
  injection E as <- <- <-. unfold shared_ok. cbn. rewrite Hs, Hr.
  rewrite !(comm (++) ids [_]). split_and!; [done..| |].
  - constructor; [|done]. intros Hin. rewrite Forall_forall in Hb.
    apply list_elem_of_In in Hin. specialize (Hb _ Hin). lia.
  - constructor; [lia|]. eapply Forall_impl; [|exact Hb]. cbn. lia.
Qed.

Lemma drop_id_ok i l ids : l ≡ₚ i :: ids -> NoDup (i :: ids) -> drop_id i l ≡ₚ ids.
Proof.
  intros Hl [Hi Hd]%list.NoDup_cons. unfold drop_id. rewrite Hl, filter_cons_False by auto.
  enough (filter (fun j => j <> i) ids = ids) as -> by done. clear Hl Hd.
  induction ids as [|j ids IH]; [done|].
  rewrite filter_cons_True by (intros ->; apply Hi; by left).
  f_equal. apply IH. intros Hin. apply Hi. by right.
Qed.

Lemma client_shutdown_id t c c' : client_shutdown_event t c = Ret c' -> cl_id c' = cl_id c.
Proof.
  unfold client_shutdown_event. intros E. repeat split_if; try done; by injection E as <-.
Qed.

(** What an operation on a single connection without partitions is to keep:
    it may end the connection to the client, never start one. *)
Definition leaf_op (f : conn -> shared -> run (shared * conn)) : Prop :=
  forall s m rest s' m', cn_subs s = [] -> shared_ok (iface_ids s ++ rest) m ->
    f s m = Ret (m', s') ->
    cn_subs s' = [] /\ (has_iface s' = true -> has_iface s = true) /\
    shared_ok (iface_ids s' ++ rest) m'.

Lemma run_all_leaf f l m l' m' rest :
  leaf_op f -> Forall (fun s => cn_subs s = []) l -> shared_ok (subs_ids l ++ rest) m ->
  run_all f l m = Ret (m', l') ->
  Forall (fun s => cn_subs s = []) l' /\
  (Forall (fun s => has_iface s = false) l -> Forall (fun s => has_iface s = false) l') /\
  shared_ok (subs_ids l' ++ rest) m'.
Proof.
  intros Hf Hl. revert m l' m' rest. induction Hl as [|s l Hs Hl IH];
    intros m l' m' rest Hok E; cbn [run_all] in E.
  { by injection E as <- <-. }
  inv_run E. injection E as <- <-. unfold subs_ids in *. cbn in Hok |- *.
  rewrite <- app_assoc in Hok.
  destruct (Hf _ _ _ _ _ Hs Hok E0) as (Hs' & Hi' & Hok1).
  rewrite (Permutation_app_swap_app (iface_ids _)) in Hok1.
  destruct (IH _ _ _ _ Hok1 E1) as (Hl2 & Hi2 & Hok2).
  split_and!; [by constructor| |].
  - intros Hno. inversion_clear Hno as [|? ? Hn1 Hn2]. constructor; [|by apply Hi2].
    apply not_true_iff_false. intros Ht. apply Hi' in Ht. congruence.
  - rewrite <- app_assoc, (Permutation_app_swap_app (iface_ids _)). exact Hok2.
Qed.

(** The same for whole connections. *)
Definition conn_op (f : conn -> shared -> run (shared * conn)) : Prop :=
  forall c m rest c' m', conn_ok c -> shared_ok (conn_ids c ++ rest) m ->
    f c m = Ret (m', c') -> conn_ok c' /\ shared_ok (conn_ids c' ++ rest) m'.

Lemma run_all_conn f l m l' m' rest :
  conn_op f -> Forall conn_ok l -> shared_ok (mjoin (conn_ids <$> l) ++ rest) m ->
  run_all f l m = Ret (m', l') ->
  Forall conn_ok l' /\ shared_ok (mjoin (conn_ids <$> l') ++ rest) m'.
Proof.
  intros Hf Hl. revert m l' m' rest. induction Hl as [|s l Hs Hl IH];
    intros m l' m' rest Hok E; cbn [run_all] in E.
  { by injection E as <- <-. }
  inv_run E. injection E as <- <-. cbn in Hok |- *. rewrite <- app_assoc in Hok.
  destruct (Hf _ _ _ _ _ Hs Hok E0) as (Hs' & Hok1).
  rewrite (Permutation_app_swap_app (conn_ids _)) in Hok1.
  destruct (IH _ _ _ _ Hok1 E1) as (Hl2 & Hok2).
  split; [by constructor|].
  rewrite <- app_assoc, (Permutation_app_swap_app (conn_ids _)). exact Hok2.
Qed.

Lemma on_conns_ok f g g' : conn_op f -> mgr_ok g -> on_conns f g = Ret g' -> mgr_ok g'.
Proof.
  intros Hf [Hc Hm] E. unfold on_conns in E. inv_run E. injection E as <-.
  apply (run_all_conn f _ _ _ _ [] Hf Hc) in E0 as [Hc' Hm'];
    [|by rewrite app_nil_r]. rewrite app_nil_r in Hm'. by split.
Qed.

(** [remove_client] keeps the client or takes it out everywhere. *)
Lemma remove_client_ok c m rest c' m' :
  shared_ok (iface_ids c ++ rest) m -> remove_client c m = Ret (m', c') ->
  cn_subs c' = cn_subs c /\ (has_iface c' = true -> has_iface c = true) /\
  shared_ok (iface_ids c' ++ rest) m'.
Proof.
  destruct c as [cid st dev [clt|] subs]; intros Hok E; cbn in E; [|done].
  inv_run E. pose proof (client_shutdown_id _ _ _ E0) as Hid. split_if; injection E as <- <-.
  - split_and!; [done..|]. cbn in *. rewrite Hid.
    eapply shared_ok_ext, Hok; [done..|cbn; lia].
  - split; [done|]. split; [done|]. destruct Hok as (Hs & Hr & Hd & Hb).
    cbn in Hs, Hr, Hd, Hb. unfold shared_ok. cbn. rewrite !drop_id_ok by done.
    split_and!; [done..|by apply list.NoDup_cons in Hd as [_ ?]|by inversion Hb].
Qed.

Lemma remove_client_leaf : leaf_op remove_client.
Proof.
  intros s m rest s' m' Hs Hok E. destruct (remove_client_ok _ _ _ _ _ Hok E) as (? & ? & ?).
  split_and!; [congruence|done..].
Qed.

(** An operation on the client of a connection that may only end it. *)
Lemma conn_op_keep c c' :
  conn_ok c -> cn_subs c' = cn_subs c -> (has_iface c' = true -> has_iface c = true) ->
  conn_ok c'.
Proof. intros [Hf Hx] Hs Hi. unfold conn_ok. rewrite Hs. auto. Qed.

Lemma remove_client_conn : conn_op remove_client.
Proof.
  intros c m rest c' m' Hc Hok E. unfold conn_ids in *. rewrite <- app_assoc in Hok.
  destruct (remove_client_ok _ _ _ _ _ Hok E) as (Hs & Hi & Hok').
  split; [by eapply conn_op_keep|]. by rewrite Hs, <- app_assoc.
Qed.

Lemma check_clients_leaf : leaf_op check_clients.
Proof.
  intros [cid st dev [clt|] subs] m rest s' m' Hs Hok E; cbn in Hs; subst subs;
    cbn [check_clients] in E.
  - split_if; [by injection E as <- <-|]. by eapply remove_client_leaf.
  - by injection E as <- <-.
Qed.

(** An operation on the partitions of a connection. *)
Lemma subs_op f cid st dev iface subs subs' m m' rest :
  leaf_op f -> conn_ok (Conn cid st dev iface subs) ->
  shared_ok (conn_ids (Conn cid st dev iface subs) ++ rest) m ->
  run_all f subs m = Ret (m', subs') ->
  conn_ok (Conn cid st dev iface subs') /\
  shared_ok (conn_ids (Conn cid st dev iface subs') ++ rest) m'.
Proof.
  intros Hf [Hl Hx] Hok E. unfold conn_ids in *. cbn [cn_subs] in *.
  rewrite <- app_assoc, (Permutation_app_swap_app (iface_ids _)) in Hok.
  destruct (run_all_leaf _ _ _ _ _ _ Hf Hl Hok E) as (Hl' & Hi' & Hok').
  split; [split; auto|]. by rewrite <- app_assoc, (Permutation_app_swap_app (iface_ids _)).
Qed.

Lemma check_clients_conn : conn_op check_clients.
Proof.
  intros [cid st dev [clt|] subs] m rest c' m' Hc Hok E; cbn [check_clients] in E.
  - split_if; [by injection E as <- <-|]. by eapply remove_client_conn.
  - inv_run E. injection E as <- <-. by eapply subs_op, E0; [apply check_clients_leaf|..].
Qed.

Lemma shutdown_leaf t : leaf_op (conn_shutdown_event t).
Proof.
  intros [cid st dev iface subs] m rest s' m' Hs Hok E. cbn in Hs. subst subs. cbn in E.
  destruct iface as [clt|]; [|by injection E as <- <-]. inv_run E. injection E as <- <-.
  apply client_shutdown_id in E0. split_and!; [done..|]. cbn in *. by rewrite E0.
Qed.

Lemma shutdown_conn t : conn_op (conn_shutdown_event t).
Proof.
  intros [cid st dev iface subs] m rest c' m' Hc Hok E. cbn [conn_shutdown_event] in E.
  inv_run E. destruct (subs_op _ _ _ _ _ _ _ _ _ _ (shutdown_leaf t) Hc Hok E0) as [Hc1 Hok1].
  destruct iface as [clt|]; [|by injection E as <- <-]. inv_run E. injection E as <- <-.
  apply client_shutdown_id in E1. split; [done|]. unfold conn_ids in *. cbn in *.
  by rewrite E1.
Qed.

Lemma at_conn_leaf i f : leaf_op f -> leaf_op (at_conn i f).
Proof.
  intros Hf [cid st dev iface subs] m rest s' m' Hs Hok E. cbn in Hs. subst subs.
  cbn [at_conn] in E. split_if; [by eapply Hf|]. cbn in E. by injection E as <- <-.
Qed.

Lemma at_conn_conn i f : leaf_op f -> conn_op f -> conn_op (at_conn i f).
Proof.
  intros Hl Hf [cid st dev iface subs] m rest c' m' Hc Hok E. cbn [at_conn] in E.
  split_if; [by eapply Hf|]. inv_run E. injection E as <- <-.
  by eapply subs_op, E0; [apply at_conn_leaf|..].
Qed.

(** ** Creating a client *)

(** A device that does not match leaves everything as it was. *)
Lemma create_leaf_nodev s c m m' s' c' :
  cn_subs s = [] -> create_interface_for s c m = Ret (m', s', c', Err ENODEV) ->
  m' = m /\ s' = s /\ c' = c.
Proof.
  destruct s as [cid st dev iface subs]. cbn [cn_subs create_interface_for].
  intros -> E. split_if; [done|].
  destruct iface as [clt|]; inv_run E; [by injection E as <- <- <- _|].
  cbn in E0. injection E0 as <- <- <- <- <-. inv_run E.
  split_if; [by injection E as <- <- <-|]. inv_run E. done.
Qed.

Lemma create_leaf_ok s c m m' s' c' ret rest :
  cn_subs s = [] -> shared_ok (iface_ids s ++ rest) m ->
  create_interface_for s c m = Ret (m', s', c', ret) ->
  cn_subs s' = [] /\ shared_ok (iface_ids s' ++ rest) m' /\
  (has_iface s = true -> has_iface s' = true).
Proof.
  destruct s as [cid st dev iface subs]. cbn [cn_subs create_interface_for].
  intros -> Hok E. split_if; [by injection E as <- <- <- <-|].
  destruct iface as [clt|]; inv_run E; [by injection E as <- <- <- <-|].
  cbn in E0. injection E0 as <- <- <- <- <-. inv_run E.
  split_if; [by injection E as <- <- <- <-|]. inv_run E.
  injection E as <- <- <- <-. split_and!; [done| |done]. cbn in *.
  by eapply connect_client_ok.
Qed.

Lemma visit_subs_ok l busy c m m' l' c' found busy' rest :
  Forall (fun s => cn_subs s = []) l -> shared_ok (subs_ids l ++ rest) m ->
  visit_subs create_interface_for l busy c m = Ret (m', l', c', found, busy') ->
  Forall (fun s => cn_subs s = []) l' /\ shared_ok (subs_ids l' ++ rest) m' /\
  (found = None -> m' = m /\ l' = l /\ c' = c /\ busy' = busy || existsb has_iface l).
Proof.
  intros Hl. revert busy c m m' l' c' found busy' rest.
  induction Hl as [|s l Hs Hl IH]; intros busy c m m' l' c' found busy' rest Hok E;
    cbn [visit_subs] in E.
  { injection E as <- <- <- <- <-. split_and!; [done..|]. intros _.
    by rewrite orb_false_r. }
  inv_run E. unfold subs_ids in *. cbn in Hok. rewrite <- app_assoc in Hok.
  destruct (create_leaf_ok _ _ _ _ _ _ _ _ Hs Hok E0) as (Hs1 & Hok1 & _).
  rewrite (Permutation_app_swap_app (iface_ids _)) in Hok1.
  case_bool_decide as Hnd.
  - subst. destruct (create_leaf_nodev _ _ _ _ _ _ Hs E0) as (-> & -> & ->).
    inv_run E. injection E as <- <- <- <- <-.
    destruct (IH _ _ _ _ _ _ _ _ _ Hok1 E1) as (Hl2 & Hok2 & Hn2).
    split_and!; [by constructor| |].
    + cbn. rewrite <- app_assoc, (Permutation_app_swap_app (iface_ids _)). exact Hok2.
    + intros Hf. destruct (Hn2 Hf) as (-> & -> & -> & ->). split_and!; [done..|].
      cbn. by rewrite orb_assoc.
  - injection E as <- <- <- <- <-. split_and!; [by constructor| |done]. cbn.
    rewrite <- app_assoc, (Permutation_app_swap_app (iface_ids _)). exact Hok1.
Qed.

Lemma create_conn_ok con c m m' con' c' ret rest :
  conn_ok con -> shared_ok (conn_ids con ++ rest) m ->
  create_interface_for con c m = Ret (m', con', c', ret) ->
  conn_ok con' /\ shared_ok (conn_ids con' ++ rest) m'.
Proof.
  destruct con as [cid st dev iface subs]. cbn [create_interface_for].
  intros Hc Hok E. split_if; [by injection E as <- <- <- <-|].
  destruct iface as [clt|]; inv_run E; [by injection E as <- <- <- <-|].
  unfold conn_ids in Hok. cbn [iface_ids cn_iface cn_subs app] in Hok. destruct Hc as [Hl _].
  apply (visit_subs_ok _ _ _ _ _ _ _ _ _ _ Hl Hok) in E0 as (Hl' & Hok' & Hnone).
  destruct o as [r|]; [by injection E as <- <- <- <-; split; [split|]|].
  destruct (Hnone eq_refl) as (-> & -> & -> & Hb). inv_run E.
  split_if; [by injection E as <- <- <- <-; split; [split|]|].
  split_if; [by injection E as <- <- <- <-; split; [split|]|]. inv_run E.
  injection E as <- <- <- <-. split.
  - split; [done|]. intros _. cbn. cbn in Hb.
    rewrite Forall_forall. intros s Hin. apply not_true_iff_false. intros Ht.
    enough (existsb has_iface subs = true) by congruence.
    apply existsb_exists. eauto.
  - unfold conn_ids. cbn. by eapply connect_client_ok.
Qed.

Lemma try_connections_ok l c m m' l' ret cap rest :
  Forall conn_ok l -> shared_ok (mjoin (conn_ids <$> l) ++ rest) m ->
  try_connections l c m = Ret (m', l', ret, cap) ->
  Forall conn_ok l' /\ shared_ok (mjoin (conn_ids <$> l') ++ rest) m'.
Proof.
  intros Hl. revert c m m' l' ret cap rest. induction Hl as [|con l Hc Hl IH];
    intros c m m' l' ret cap rest Hok E; cbn [try_connections] in E.
  { by injection E as <- <- _ _. }
  inv_run E. cbn in Hok. rewrite <- app_assoc in Hok.
  destruct (create_conn_ok _ _ _ _ _ _ _ _ Hc Hok E0) as [Hc1 Hok1].
  rewrite (Permutation_app_swap_app (conn_ids _)) in Hok1.
  case_bool_decide; [inv_run E; injection E as <- <- <- <-|].
  - destruct (IH _ _ _ _ _ _ _ Hok1 E1) as [Hl2 Hok2]. split; [by constructor|]. cbn.
    rewrite <- app_assoc, (Permutation_app_swap_app (conn_ids _)). exact Hok2.
  - split_if; injection E as <- <- <- <-; (split; [by constructor|]); cbn;
      by rewrite <- app_assoc, (Permutation_app_swap_app (conn_ids _)).
Qed.

Lemma connect_static_ok l con m m' con' l' rest :
  conn_ok con -> shared_ok (conn_ids con ++ rest) m ->
  connect_static_clients l con m = Ret (m', con', l') ->
  conn_ok con' /\ shared_ok (conn_ids con' ++ rest) m'.
Proof.
  revert con m m' con' l'. induction l as [|c l IH]; intros con m m' con' l' Hc Hok E;
    cbn [connect_static_clients] in E.
  { by injection E as <- <- _. }
  destruct (pc_gate c); [|inv_run E; injection E as <- <- _; by eapply IH].
  inv_run E. destruct (create_conn_ok _ _ _ _ _ _ _ _ Hc Hok E0) as [Hc1 Hok1].
  case_bool_decide; [inv_run E; injection E as <- <- _; by eapply IH|].
  split_if; [by injection E as <- <- _|]. inv_run E. injection E as <- <- _. by eapply IH.
Qed.

(** The partitions found by a scan have no clients yet. *)
Lemma scan_partitions_ok create get dev n i subs m m' subs' ids :
  Forall (fun s => cn_subs s = [] /\ has_iface s = false) subs -> shared_ok ids m ->
  scan_partitions create get dev n i subs m = Ret (m', subs') ->
  Forall (fun s => cn_subs s = [] /\ has_iface s = false) subs' /\ shared_ok ids m'.
Proof.
  revert i subs m. induction n as [|n IH]; intros i subs m Hs Hok E;
    cbn [scan_partitions] in E.
  { by injection E as <- <-. }
  inv_run E. split_if; [by eapply IH|]. inv_run E. eapply IH in E; [done|by constructor|].
  eapply shared_ok_ext, Hok; [done..|cbn; lia].
Qed.

Lemma scan_disk_ok get sz dev m m' subs ids :
  shared_ok ids m -> scan_disk_partitions get sz dev m = Ret (m', subs) ->
  Forall (fun s => cn_subs s = []) subs /\ subs_ids subs = [] /\ shared_ok ids m'.
Proof.
  intros Hok E. unfold scan_disk_partitions in E.
  destruct create_partition as [create|]; [|by injection E as <- <-].
  apply (scan_partitions_ok _ _ _ _ _ _ _ _ _ ids) in E as [Hs Hok']; [|done..].
  split_and!; [by eapply Forall_impl; [|exact Hs]; intros ? []| |done].
  clear -Hs. unfold subs_ids. induction Hs as [|s l [_ Hs] Hl IH]; [done|]. cbn.
  unfold iface_ids, has_iface in *. by destruct (cn_iface s).
Qed.

Lemma add_disk_ok dev get sz g g' : mgr_ok g -> add_disk dev get sz g = Ret g' -> mgr_ok g'.
Proof.
  intros [Hc Hm] E. unfold add_disk in E. inv_run E. injection E as <-.
  apply (scan_disk_ok _ _ _ _ _ _ (mgr_ids g)) in E0 as (Hl & Hi & Hok1);
    [|eapply shared_ok_ext, Hm; [done..|cbn; lia]].
  apply (connect_static_ok _ _ _ _ _ _ (mgr_ids g)) in E1 as [Hc2 Hok2].
  - by split; [constructor|].
  - by split.
  - unfold conn_ids. cbn [iface_ids cn_iface cn_subs app]. by rewrite Hi.
Qed.

(** ** The manager as a state machine *)

(** What happens to a client outside the manager: its IPC gate disappears, or
    its number of requests at the device changes. *)
Inductive client_event := Gate_gone | In_flight (n : Z).

Definition client_update (e : client_event) (c : Client) : Client :=
  {| cl_id := cl_id c; cl_gate := cl_gate c; cl_num_ds := cl_num_ds c;
     cl_readonly := cl_readonly c; cl_trusted := cl_trusted c;
     cl_validation := cl_validation c;
     cl_alive := match e with Gate_gone => false | _ => cl_alive c end;
     cl_in_flight := match e with In_flight n => n | _ => cl_in_flight c end;
     cl_state := cl_state c |}.

Definition conn_event (e : client_event) (con : conn) (m : shared) : run (shared * conn) :=
  let 'Conn cid st dev iface subs := con in
  Ret (m, Conn cid st dev (client_update e <$> iface) subs).

Inductive mgr_step : Device_mgr -> Device_mgr -> Prop :=
  | Step_add_disk dev get sz g g' :
      add_disk dev get sz g = Ret g' -> mgr_step g g'
  | Step_static gate device partno nds ro cb v tr g :
      mgr_step g (add_static_client gate device partno nds ro cb v tr g).1
  | Step_dynamic device partno nds ro cb v tr g g' ret cap :
      create_dynamic_client device partno nds ro cb v tr g = Ret (g', ret, cap) ->
      mgr_step g g'
  | Step_check g g' : mgr_check_clients g = Ret g' -> mgr_step g g'
  | Step_shutdown t g g' : mgr_shutdown_event t g = Ret g' -> mgr_step g g'
  | Step_deferred i g g' :
      i ∈ sh_deferred (mg_shared g) -> mgr_deferred i g = Ret g' -> mgr_step g g'
  | Step_client i e g g' :
      on_conns (at_conn i (conn_event e)) g = Ret g' -> mgr_step g g'.

Definition mgr_init : Device_mgr :=
  {| mg_conns := []; mg_pending := [];
     mg_shared := {| sh_sched := []; sh_registry := []; sh_deferred := [];
                     sh_paired := []; sh_next := 0 |} |}.

Definition mgr_reachable (g : Device_mgr) : Prop := rtc mgr_step mgr_init g.

Lemma conn_event_keep e c m c' m' :
  conn_event e c m = Ret (m', c') ->
  m' = m /\ cn_subs c' = cn_subs c /\ has_iface c' = has_iface c /\ iface_ids c' = iface_ids c.
Proof.
  destruct c as [cid st dev [clt|] subs]; cbn; intros E; by injection E as <- <-.
Qed.

Lemma mgr_step_ok g g' : mgr_step g g' -> mgr_ok g -> mgr_ok g'.
Proof.
  destruct 1 as [dev get sz g g' E|gate device partno nds ro cb v tr g
    |device partno nds ro cb v tr g g' ret cap E|g g' E|t g g' E|i g g' Hi E|i e g g' E];
    intros Hg.
  - by eapply add_disk_ok.
  - unfold add_static_client. by destruct (static_client_name _ _).
  - unfold create_dynamic_client in E. inv_run E. injection E as <- _ _.
    destruct Hg as [Hc Hm]. apply (try_connections_ok _ _ _ _ _ _ _ []) in E0 as [Hc' Hm'];
      [|done|by rewrite app_nil_r]. rewrite app_nil_r in Hm'. by split.
  - by eapply on_conns_ok; [apply check_clients_conn|..].
  - unfold mgr_shutdown_event in E. split_if; [done|].
    by eapply on_conns_ok; [apply shutdown_conn|..].
  - eapply on_conns_ok in E; [done|apply at_conn_conn;
      [apply remove_client_leaf|apply remove_client_conn]|].
    destruct Hg as [Hc Hm]. split; [done|]. eapply shared_ok_ext, Hm; [done..|cbn; lia].
  - eapply on_conns_ok in E; [done| |done]. apply at_conn_conn.
    + intros s m rest s' m' Hs Hok Es.
      apply conn_event_keep in Es as (-> & Hs' & Hi' & Hids). rewrite Hids, Hi'.
      split_and!; [congruence|done..].
    + intros c m rest c' m' Hc Hok Es.
      apply conn_event_keep in Es as (-> & Hs' & Hi' & Hids). unfold conn_ids.
      rewrite Hids, Hs'. split; [|done]. eapply conn_op_keep; [done|done|congruence].
Qed.

Lemma mgr_reachable_ok g : mgr_reachable g -> mgr_ok g.
Proof.
  intros Hr. unfold mgr_reachable in Hr.
  assert (mgr_ok mgr_init) as Hinit.
  { split; [constructor|]. split_and!; cbn; [done..|constructor|constructor]. }
  induction Hr as [|g1 g2 g3 Hs Hr IH]; [done|]. apply IH. by eapply mgr_step_ok.
Qed.

(** C7.  In every reachable state of the manager: a disk and one of its
    partitions are never both in use, so no two clients have access to the same
    sectors through the tree; the scheduler and the registry know exactly the
    clients that some connection owns, each of them once (no dangling client). *)
Theorem mgr_exclusive g :
  mgr_reachable g ->
  Forall (fun con => has_iface con = true ->
            Forall (fun sub => has_iface sub = false) (cn_subs con)) (mg_conns g) /\
  sh_sched (mg_shared g) ≡ₚ mgr_ids g /\ sh_registry (mg_shared g) ≡ₚ mgr_ids g /\
  NoDup (mgr_ids g).
Proof.
  intros Hr. destruct (mgr_reachable_ok g Hr) as [Hc (Hs & Hg & Hd & _)].
  split_and!; [|done..]. eapply Forall_impl; [|exact Hc]. by intros c [_ Hx].
Qed.

(**  A request for a device that is in use, or of which a partition is in
    use, is answered with EBUSY and changes nothing. *)
Theorem create_interface_busy cid dev iface subs c m :
  let con := Conn cid Running dev iface subs in
  conn_ok con -> existsb has_iface (con :: subs) = true ->
  Forall (fun s => match s with Conn _ st d _ _ =>
            st = Running /\ dev_match d (pc_device_id c) = Some false end) subs ->
  dev_match dev (pc_device_id c) = Some true ->
  create_interface_for con c m = Ret (m, con, c, Err EBUSY).
Proof.
  intros con [Hflat _] Hbusy Hsubs Hdev. subst con. cbn [create_interface_for].
  destruct iface as [clt|].
  { cbn [negb bool_decide contains_device]. rewrite Hdev. done. }
  cbn [existsb has_iface cn_iface orb] in Hbusy. cbn [cn_subs] in Hflat.
  enough (forall b, visit_subs create_interface_for subs b c m =
            Ret (m, subs, c, None, b || existsb has_iface subs)) as Hv.
  { rewrite Hv. cbn. by rewrite Hdev, Hbusy. }
  clear Hbusy. induction Hsubs as [|s l Hs Hl IH]; intros b; cbn [visit_subs].
  { cbn. by rewrite orb_false_r. }
  inversion_clear Hflat as [|? ? Hs1 Hl1].
  destruct s as [i st d f ss]. cbn in Hs1. subst ss. destruct Hs as [-> Hd].
  assert (create_interface_for (Conn i Running d f []) c m
          = Ret (m, Conn i Running d f [], c, Err ENODEV)) as ->.
  { destruct f as [clt|]; cbn; by rewrite Hd. }
  cbn [mbind run_bind]. rewrite bool_decide_true, (IH Hl1) by done.
  cbn [mbind run_bind existsb]. by rewrite orb_assoc.
Qed.

End Device_mgr.

(** ** Named devices *)

Module Mgr_example.

(** A device that answers to one name; partitions answer to the name of the
    parent, a colon and their number. *)
#[local] Instance named_factory : Factory bytes := {
  dev_match dev name := Some (bool_decide (name = dev));
  create_partition := Some (fun dev i info =>
    p ← Partitioned_device i info; Ret (dev ++ [58] ++ _partition_id p));
}.

#[local] Instance any_registry : Registry := {
  register_obj _ gate := Some (default 77 gate)
}.

Definition info : Partition_info :=
  {| pi_type := Mbr_part; pi_uuid := str "DEADBEEF-01"; pi_name := []; pi_first := 8;
     pi_last := 11; pi_flags := 131 |}.

Definition get (i : Z) : run (l4_ret * Partition_info) := Ret (Ok, info).

Abbreviation mgr := (Device_mgr (Dev := bytes)).

(** A disk with two partitions; partition 2 gets a client. *)
Definition with_client : run mgr :=
  g ← add_disk (str "sda") get 2 mgr_init;
  '(g1, _, _) ← create_dynamic_client (str "sda") 2 4 false false false [] g;
  Ret g1.

Definition value (r : run mgr) : mgr :=
  match r with Ret g => g | _ => mgr_init end.

Definition g1 : mgr := value (add_disk (str "sda") get 2 mgr_init).
Definition g2 : mgr := value with_client.

Lemma g2_reachable : mgr_reachable g2.
Proof.
  eapply rtc_l; [eapply (Step_add_disk (str "sda") get 2 _ g1); vm_compute; reflexivity|].
  eapply rtc_l; [|apply rtc_refl].
  eapply (Step_dynamic (str "sda") 2 4 false false false []). vm_compute. reflexivity.
Qed.

Lemma mgr_exclusive_witness :
  mgr_ids g2 = [3] /\ sh_sched (mg_shared g2) ≡ₚ mgr_ids g2.
Proof.
  split; [by_eval|]. exact (proj1 (proj2 (mgr_exclusive g2 g2_reachable))).
Defined.

Definition pending (name : bytes) : Pending_client :=
  {| pc_device_id := name; pc_gate := None; pc_num_ds := 4; pc_readonly := false;
     pc_validation := false; pc_trusted := []; pc_pairing_cb := false |}.

Definition sda : list (Connection bytes) := mg_conns g2.

Lemma create_interface_busy_witness :
  exists con, sda = [con] /\
    create_interface_for con (pending (str "sda")) (mg_shared g2)
      = Ret (mg_shared g2, con, pending (str "sda"), Err EBUSY).
Proof.
  eexists. split; [vm_compute; reflexivity|].
  refine (create_interface_busy 0 (str "sda") None _ (pending (str "sda")) (mg_shared g2)
    _ _ _ _).
  - split; [|done]. repeat constructor.
  - reflexivity.
  - repeat constructor.
  - by_eval.
Defined.

(** The client of partition 2 (connection 2) dies with a request in flight;
    two checks each queue a removal; then the request finishes. *)
Definition dead : run mgr :=
  a ← on_conns (at_conn 2 (conn_event (In_flight 1))) g2;
  b ← on_conns (at_conn 2 (conn_event Gate_gone)) a;
  c ← mgr_check_clients b;
  d ← mgr_check_clients c;
  e ← on_conns (at_conn 2 (conn_event (In_flight 0))) d;
  mgr_deferred 2 e.

Definition g3 : mgr := value dead.

Lemma g3_reachable : mgr_reachable g3.
Proof.
  unfold mgr_reachable. etrans; [apply g2_reachable|].
  eapply rtc_l; [eapply (Step_client 2 (In_flight 1)); vm_compute; reflexivity|].
  eapply rtc_l; [eapply (Step_client 2 Gate_gone); vm_compute; reflexivity|].
  eapply rtc_l; [eapply Step_check; vm_compute; reflexivity|].
  eapply rtc_l; [eapply Step_check; vm_compute; reflexivity|].
  eapply rtc_l; [eapply (Step_client 2 (In_flight 0)); vm_compute; reflexivity|].
  eapply rtc_l; [|apply rtc_refl].
  eapply (Step_deferred 2); [by left|vm_compute; reflexivity].
Qed.

(**  The removal of a dead client that is still busy can be queued twice;
    the second errand then finds no client and fails the assertion of
    [remove_client]. *)
Theorem double_removal_asserts :
  exists g, mgr_reachable g /\ 2 ∈ sh_deferred (mg_shared g) /\ mgr_deferred 2 g = Asserted.
Proof. exists g3. split; [apply g3_reachable|]. split; [by left|by_eval]. Qed.

(** A usable partition with a number above 999 ends the scan with an exception. *)
Lemma scan_thousand_raises :
  add_disk (str "sda") get 1000 mgr_init = Raised.
Proof. by_eval. Qed.

End Mgr_example.
