(* ===== verification/Scheduler.v ===== *)
(** * The request scheduler

    Models [src/pkg/libblock-device/include/scheduler.h]: [Scheduler_base] with
    its list of client contexts and the scheduling loop, and [Rr_scheduler].

    What a client does with its requests is an interface, [Sched_world], over a
    world state [W] with requests [R] and pending requests [P]; clients are
    referred to by number.  [_next] is an index into the list, the end iterator
    is the length of the list. *)

From S2P Require Import Prelude.

(** The operations of the clients ([Virtio_client], [Pending_request]) the
    scheduler calls, and the policy a derived class provides.  [sw_handle] also
    returns the clients whose idle callback ran while the request was handled
    (a device may complete requests synchronously). *)
Class Sched_world (W R P : Type) := {
  check_for_new_requests : W -> Z -> W * bool;
  get_request : W -> Z -> W * option R;
  start_request : W -> Z -> R -> W * option P;
  handle_request : W -> P -> W * l4_ret * list Z;
  fail_request : W -> P -> W;
  domain_of : Z -> Z;
  get_weight : Z -> Z;
  get_cost : P -> Z;
}.

Section Scheduler.

Context (size_w : Z) {W R P : Type} `{Sched_world W R P}.

(** [struct Context] *)
Record Sched_Context := {
  cx_pending : option P;
  cx_client : Z;
  cx_device_busy : bool;
  cx_cost : Z;
}.

(** [Scheduler_base]: the clients, [_next], and whether the notify IRQ was
    triggered. *)
Record Scheduler := {
  sc_clients : list Sched_Context;
  sc_next : nat;
  sc_irq : bool;
}.

Definition set_clients (l : list Sched_Context) (s : Scheduler) : Scheduler :=
  {| sc_clients := l; sc_next := sc_next s; sc_irq := sc_irq s |}.

Definition set_next (n : nat) (s : Scheduler) : Scheduler :=
  {| sc_clients := sc_clients s; sc_next := n; sc_irq := sc_irq s |}.

Definition cx_set_cost (k : Z) (c : Sched_Context) : Sched_Context :=
  {| cx_pending := cx_pending c; cx_client := cx_client c;
     cx_device_busy := cx_device_busy c; cx_cost := k |}.

Definition cx_set_busy (b : bool) (c : Sched_Context) : Sched_Context :=
  {| cx_pending := cx_pending c; cx_client := cx_client c;
     cx_device_busy := b; cx_cost := cx_cost c |}.

Definition cx_set_pending (p : option P) (c : Sched_Context) : Sched_Context :=
  {| cx_pending := p; cx_client := cx_client c;
     cx_device_busy := cx_device_busy c; cx_cost := cx_cost c |}.

(** Update the context at position [i]. *)
Definition at_cx (i : nat) (f : Sched_Context -> Sched_Context) (s : Scheduler) : Scheduler :=
  set_clients (alter f i (sc_clients s)) s.

(** [add_client] *)
Definition add_client (client : Z) (s : Scheduler) : Scheduler :=
  let l := sc_clients s ++
    [{| cx_pending := None; cx_client := client; cx_device_busy := false; cx_cost := 0 |}] in
  {| sc_clients := l; sc_next := length l; sc_irq := sc_irq s |}.

(** [remove_client].  [erase] gets a single iterator, so it drops the one entry
    [remove_if] moved behind the others; with no such entry it is applied to the
    end iterator, with several the entries left behind are empty pointers. *)
Definition sched_remove_client (client : Z) (s : Scheduler) : run Scheduler :=
  let keep := filter (fun c => cx_client c <> client) (sc_clients s) in
  if (length (sc_clients s) =? S (length keep))%nat
  then Ret {| sc_clients := keep; sc_next := length keep; sc_irq := sc_irq s |}
  else Oob.

(** One context in [client_invalidate] *)
Definition invalidate_cx (fail_pending : bool) (w : W) (c : Sched_Context) : W * Sched_Context :=
  let c1 := {| cx_pending := None; cx_client := cx_client c;
               cx_device_busy := false; cx_cost := 0 |} in
  match cx_pending c with
  | Some p => (if fail_pending then fail_request w p else w, c1)
  | None => (w, c1)
  end.

(** [client_invalidate] *)
Fixpoint client_invalidate (client : Z) (fail_pending : bool) (l : list Sched_Context) (w : W)
    : W * list Sched_Context :=
  match l with
  | [] => (w, [])
  | c :: t =>
      let '(w1, c1) :=
        if cx_client c =? client then invalidate_cx fail_pending w c else (w, c) in
      let '(w2, t2) := client_invalidate client fail_pending t w1 in
      (w2, c1 :: t2)
  end.

(** The contexts [client_idle] wakes up. *)
Definition idle_hit (client : Z) (c : Sched_Context) : bool :=
  cx_device_busy c && (domain_of client =? domain_of (cx_client c)).

(** [client_idle] *)
Definition client_idle (client : Z) (s : Scheduler) : Scheduler :=
  {| sc_clients :=
       (fun c => if idle_hit client c then cx_set_busy false c else c) <$> sc_clients s;
     sc_next := sc_next s;
     sc_irq := sc_irq s || existsb (idle_hit client) (sc_clients s) |}.

(** [handle_pending] on the context at [i] with pending request [p] *)
Definition handle_pending (i : nat) (c : Sched_Context) (p : P) (w : W) (s : Scheduler)
    : W * Scheduler * bool :=
  let cost := get_cost p in
  if get_weight (cx_client c) <? uwrap size_w (cx_cost c + cost) then
    (w, at_cx i (cx_set_cost (get_weight (cx_client c))) s, true)
  else
    let '(w1, ret, idles) := handle_request w p in
    let s1 := foldl (fun s k => client_idle k s) s idles in
    if bool_decide (ret = Err EBUSY) then (w1, at_cx i (cx_set_busy true) s1, false)
    else
      (w1, at_cx i (fun c => cx_set_pending None
                               (cx_set_cost (uwrap size_w (cx_cost c + cost)) c)) s1, true).

(** [schedule_client] *)
Definition schedule_client (i : nat) (c : Sched_Context) (w : W) (s : Scheduler)
    : W * Scheduler * bool :=
  match cx_pending c with
  | Some p => if cx_device_busy c then (w, s, false) else handle_pending i c p w s
  | None =>
      let '(w1, more) := check_for_new_requests w (cx_client c) in
      if more then
        match get_request w1 (cx_client c) with
        | (w2, None) => (w2, s, false)
        | (w2, Some req) =>
            match start_request w2 (cx_client c) req with
            | (w3, None) => (w3, s, true)
            | (w3, Some p) =>
                handle_pending i (cx_set_pending (Some p) c) p w3
                  (at_cx i (cx_set_pending (Some p)) s)
            end
        end
      else (w1, s, false)
  end.

(** [++_next] with the wrap-around of the loop *)
Definition advance (n : nat) (s : Scheduler) : nat :=
  if (S n =? length (sc_clients s))%nat then O else S n.

(** One iteration of the [for (;;)] loop of [schedule], at [_next = n]: the new
    state and whether the iteration made progress. *)
Definition schedule_step (w : W) (s : Scheduler) : option (W * Scheduler * bool) :=
  let n := sc_next s in
  match sc_clients s !! n with
  | None => None
  | Some c =>
      let '(w1, s1, progress) := schedule_client n c w s in
      match sc_clients s1 !! n with
      | None => None
      | Some c1 =>
          if negb progress || (get_weight (cx_client c1) <=? cx_cost c1) then
            let n1 := advance n s1 in
            Some (w1, at_cx n1 (cx_set_cost 0) (set_next n1 s1), progress)
          else Some (w1, s1, progress)
      end
  end.

(** The loop, for at most [fuel] iterations. *)
Fixpoint schedule_loop (fuel : nat) (start : nat) (recheck : bool) (w : W) (s : Scheduler)
    : run (W * Scheduler) :=
  match fuel with
  | O => Fuel_out
  | S f =>
      match schedule_step w s with
      | None => Oob
      | Some (w1, s1, progress) =>
          let recheck1 := recheck || progress in
          if (sc_next s1 =? start)%nat then
            if recheck1 then schedule_loop f start false w1 s1
            else Ret (w1, set_next (S (sc_next s1)) s1)
          else schedule_loop f start recheck1 w1 s1
      end
  end.

(** [schedule] *)
Definition schedule (fuel : nat) (w : W) (s : Scheduler) : run (W * Scheduler) :=
  match sc_clients s with
  | [] => Ret (w, s)
  | _ :: _ =>
      let n := if (sc_next s =? length (sc_clients s))%nat then O else sc_next s in
      schedule_loop fuel n false w (at_cx n (cx_set_cost 0) (set_next n s))
  end.

(** A request that costs more than its client's weight is preempted forever:
    with such a client alone, [schedule] does not return. *)
Lemma schedule_livelock w c p irq fuel :
  cx_pending c = Some p -> cx_device_busy c = false ->
  get_weight (cx_client c) < get_cost p -> 0 <= get_cost p < 2 ^ size_w ->
  schedule fuel w {| sc_clients := [c]; sc_next := 0; sc_irq := irq |} = Fuel_out.
Proof.
  intros Hp Hb Hw Hr. unfold schedule. cbn [sc_clients length Nat.eqb sc_next].
  assert (forall r, schedule_loop fuel 0 r w
    {| sc_clients := [cx_set_cost 0 c]; sc_next := 0; sc_irq := irq |} = Fuel_out) as Hl;
    [|apply Hl].
  induction fuel as [|f IH]; intros r; [done|]. cbn [schedule_loop].
  assert (schedule_step w {| sc_clients := [cx_set_cost 0 c]; sc_next := 0; sc_irq := irq |} =
    Some (w, {| sc_clients := [cx_set_cost 0 c]; sc_next := 0; sc_irq := irq |}, true)) as ->.
  { unfold schedule_step, schedule_client. cbn. rewrite Hp, Hb. unfold handle_pending. cbn.
    rewrite uwrap_small by done. replace (_ <? _) with true by lia. cbn.
    rewrite Z.leb_refl. by destruct c. }
  cbn. rewrite orb_true_r. apply IH.
Qed.

(** ** The scheduling loop ends *)

(** What the loop relies on: a client has finitely many requests waiting
    ([todo]), taking one reduces their number and nothing the scheduler calls
    adds to them; no request costs more than the weight of a client. *)
Class Sched_world_ok := {
  todo : W -> Z -> nat;
  todo_check : forall w i j, (todo (check_for_new_requests w i).1 j <= todo w j)%nat;
  todo_get : forall w i j w' o, get_request w i = (w', o) ->
    (todo w' j <= todo w j)%nat /\ (is_Some o -> (todo w' i < todo w i)%nat);
  todo_start : forall w i j r, (todo (start_request w i r).1 j <= todo w j)%nat;
  todo_handle : forall w p j, (todo (handle_request w p).1.1 j <= todo w j)%nat;
  cost_weight : forall p i, 0 <= get_cost p <= get_weight i /\ 2 * get_weight i < 2 ^ size_w;
}.

Context `{!Sched_world_ok}.

(** The work left: two per waiting request, one per pending request. *)
Definition cx_work (w : W) (c : Sched_Context) : nat :=
  2 * todo w (cx_client c) + match cx_pending c with Some _ => 1 | None => 0 end.

Definition work (w : W) (s : Scheduler) : nat := sum_list_with (cx_work w) (sc_clients s).

(** Costs stay between 0 and the weight; [_next] is a valid position. *)
Definition cost_ok (c : Sched_Context) : Prop := 0 <= cx_cost c <= get_weight (cx_client c).

Lemma sum_list_with_alter (f : Sched_Context -> nat) g i l c :
  l !! i = Some c ->
  (sum_list_with f (alter g i l) + f c = sum_list_with f l + f (g c))%nat.
Proof.
  revert i. induction l as [|d l IH]; intros [|i] Hi; try done.
  - injection Hi as ->. cbn. lia.
  - specialize (IH i Hi). unfold alter in *. cbn in *. lia.
Qed.

Lemma sum_list_with_mono (f g : Sched_Context -> nat) l :
  (forall c, f c <= g c)%nat -> (sum_list_with f l <= sum_list_with g l)%nat.
Proof. intros Hfg. induction l as [|c l IH]; cbn; [lia|]. specialize (Hfg c). lia. Qed.

Lemma sum_list_with_strict (f g : Sched_Context -> nat) l i c k :
  (forall c, f c <= g c)%nat -> l !! i = Some c -> (f c + k <= g c)%nat ->
  (sum_list_with f l + k <= sum_list_with g l)%nat.
Proof.
  intros Hfg. revert i. induction l as [|d l IH]; intros [|i] Hi Hk; try done; cbn.
  - injection Hi as ->. pose proof (sum_list_with_mono f g l Hfg). lia.
  - specialize (IH i Hi Hk). specialize (Hfg d). lia.
Qed.

Lemma work_strict w w' s i c :
  (forall j, todo w' j <= todo w j)%nat -> sc_clients s !! i = Some c ->
  (todo w' (cx_client c) < todo w (cx_client c))%nat -> (work w' s + 2 <= work w s)%nat.
Proof.
  intros Ht Hi Hlt. eapply sum_list_with_strict; [|exact Hi|unfold cx_work; lia].
  intros d. unfold cx_work. specialize (Ht (cx_client d)). lia.
Qed.

Lemma work_mono w w' s :
  (forall j, todo w' j <= todo w j)%nat -> (work w' s <= work w s)%nat.
Proof.
  intros Ht. apply sum_list_with_mono. intros c. unfold cx_work.
  specialize (Ht (cx_client c)). lia.
Qed.

Lemma work_alter w g i s c :
  sc_clients s !! i = Some c ->
  (work w (at_cx i g s) + cx_work w c = work w s + cx_work w (g c))%nat.
Proof. apply sum_list_with_alter. Qed.

(** Scheduler states that agree up to the busy marks and the IRQ. *)
Definition same_but_busy (s s' : Scheduler) : Prop :=
  sc_next s' = sc_next s /\
  Forall2 (fun c c' => cx_set_busy false c' = cx_set_busy false c) (sc_clients s) (sc_clients s').

Lemma same_but_busy_refl s : same_but_busy s s.
Proof. split; [done|]. induction (sc_clients s); by constructor. Qed.

Lemma client_idle_same k s s' : same_but_busy s s' -> same_but_busy s (client_idle k s').
Proof.
  intros [Hn Hl]. split; [done|]. cbn. apply Forall2_fmap_r. eapply Forall2_impl; [|exact Hl].
  intros c c' E. cbn. by split_if.
Qed.

Lemma idles_same l s : same_but_busy s (foldl (fun s k => client_idle k s) s l).
Proof.
  enough (forall s', same_but_busy s s' ->
    same_but_busy s (foldl (fun s k => client_idle k s) s' l)) as Hf
    by apply Hf, same_but_busy_refl.
  induction l as [|k l IH]; intros s' Hs; [done|]. apply IH. by apply client_idle_same.
Qed.

Lemma same_work w s s' : same_but_busy s s' -> work w s' = work w s.
Proof.
  intros [_ Hl]. unfold work. induction Hl as [|c c' l l' Hc Hl IH]; [done|]. cbn.
  rewrite IH. f_equal. destruct c, c'. injection Hc as -> -> ->. done.
Qed.

Lemma same_lookup s s' i c :
  same_but_busy s s' -> sc_clients s !! i = Some c ->
  exists c', sc_clients s' !! i = Some c' /\ cx_set_busy false c' = cx_set_busy false c.
Proof. intros [_ Hl] Hc. eapply Forall2_lookup_l in Hl as (c' & ? & ?); eauto. Qed.

Lemma same_length s s' : same_but_busy s s' -> length (sc_clients s') = length (sc_clients s).
Proof. intros [_ Hl]. symmetry. by eapply Forall2_length. Qed.

Lemma same_cost s s' :
  same_but_busy s s' -> Forall cost_ok (sc_clients s) -> Forall cost_ok (sc_clients s').
Proof.
  intros [_ Hl] Hf. induction Hl as [|c c' l l' Hc Hl IH]; [done|].
  inversion_clear Hf as [|? ? Hc1 Hf1]. constructor; [|auto].
  destruct c, c'. injection Hc as -> -> ->. done.
Qed.

Lemma at_cx_cost i g s :
  (forall c, sc_clients s !! i = Some c -> cost_ok c -> cost_ok (g c)) ->
  Forall cost_ok (sc_clients s) -> Forall cost_ok (sc_clients (at_cx i g s)).
Proof. intros Hg Hf. cbn. by apply Forall_alter. Qed.

(** The three ways a round with a client can go: some work was done; nothing
    happened; or the client was preempted, having used up its weight. *)
Inductive round (i : nat) (cost : Z) (n n' : nat) (s' : Scheduler) : bool -> Prop :=
  | Round_work b : (n' < n)%nat -> round i cost n n' s' b
  | Round_idle : (n' <= n)%nat -> round i cost n n' s' false
  | Round_preempt c : (n' <= n)%nat -> 0 < cost -> sc_clients s' !! i = Some c ->
      get_weight (cx_client c) <= cx_cost c -> round i cost n n' s' true.

(** The parts of the state a round leaves alone. *)
Definition frame (s s' : Scheduler) : Prop :=
  sc_next s' = sc_next s /\ length (sc_clients s') = length (sc_clients s) /\
  (Forall cost_ok (sc_clients s) -> Forall cost_ok (sc_clients s')).

Lemma frame_at_cx i g s :
  (forall c, sc_clients s !! i = Some c -> cost_ok c -> cost_ok (g c)) -> frame s (at_cx i g s).
Proof.
  intros Hg. split_and!; [done|cbn; by rewrite length_alter|by apply at_cx_cost].
Qed.

Lemma frame_trans s1 s2 s3 : frame s1 s2 -> frame s2 s3 -> frame s1 s3.
Proof. intros (? & ? & ?) (? & ? & ?). split_and!; [congruence..|auto]. Qed.

Lemma frame_idles l s : frame s (foldl (fun s k => client_idle k s) s l).
Proof.
  pose proof (idles_same l s) as Hs. split_and!; [apply Hs|by apply same_length|by apply same_cost].
Qed.

Lemma handle_pending_round i c p w s w1 s1 pr :
  Forall cost_ok (sc_clients s) -> sc_clients s !! i = Some c -> cx_pending c = Some p ->
  handle_pending i c p w s = (w1, s1, pr) ->
  frame s s1 /\ round i (cx_cost c) (work w s) (work w1 s1) s1 pr.
Proof.
  intros Hcost Hi Hp E. unfold handle_pending in E.
  pose proof (cost_weight p (cx_client c)) as [Hcw Hw].
  assert (cost_ok c) as Hc by (by eapply Forall_lookup_1).
  unfold cost_ok in Hc. rewrite (uwrap_small size_w) in E by (unfold in_u; lia).
  split_if.
  - injection E as <- <- <-. split.
    + apply frame_at_cx. intros d Hd _. rewrite Hi in Hd. injection Hd as <-.
      unfold cost_ok. cbn. lia.
    + eapply (Round_preempt _ _ _ _ _ (cx_set_cost (get_weight (cx_client c)) c)).
      * pose proof (work_alter w (cx_set_cost (get_weight (cx_client c))) i s c Hi) as Hwk.
        unfold cx_work in Hwk. cbn [cx_client cx_pending cx_set_cost cx_set_busy cx_set_pending] in Hwk. lia.
      * lia.
      * cbn. by rewrite list_lookup_alter_eq, Hi.
      * cbn. lia.
  - destruct (handle_request w p) as [[w2 ret] idles] eqn:Eh.
    assert (forall j, (todo w2 j <= todo w j)%nat) as Hto.
    { intros j. pose proof (todo_handle w p j) as Ht. by rewrite Eh in Ht. }
    pose proof (idles_same idles s) as Hsame. pose proof (frame_idles idles s) as Hfr.
    set (s2 := foldl _ s idles) in *.
    destruct (same_lookup _ _ _ _ Hsame Hi) as (c2 & Hc2 & Eq2).
    assert (cx_pending c2 = Some p /\ cx_client c2 = cx_client c /\ cx_cost c2 = cx_cost c)
      as (Hp2 & Hcl2 & Hco2) by (destruct c, c2; injection Eq2 as -> -> ->; done).
    pose proof (same_work w2 _ _ Hsame) as Hw2. pose proof (work_mono w w2 s Hto) as Hmono.
    case_bool_decide; injection E as <- <- <-.
    + split; [eapply frame_trans; [exact Hfr|]; by apply frame_at_cx|]. apply Round_idle.
      pose proof (work_alter w2 (cx_set_busy true) i s2 c2 Hc2) as Hwk.
      unfold cx_work in Hwk. cbn [cx_client cx_pending cx_set_cost cx_set_busy cx_set_pending] in Hwk. lia.
    + split.
      * eapply frame_trans; [exact Hfr|]. apply frame_at_cx. intros d Hd _.
        rewrite Hc2 in Hd. injection Hd as <-. unfold cost_ok. cbn.
        rewrite Hco2, Hcl2, uwrap_small by (unfold in_u; lia). lia.
      * apply Round_work.
        match goal with |- (work w2 (at_cx i ?g s2) < _)%nat =>
          pose proof (work_alter w2 g i s2 c2 Hc2) as Hwk end.
        unfold cx_work in Hwk. cbn [cx_client cx_pending cx_set_cost cx_set_busy cx_set_pending] in Hwk. rewrite Hp2 in Hwk. lia.
Qed.

Lemma schedule_client_round i c w s w1 s1 pr :
  Forall cost_ok (sc_clients s) -> sc_clients s !! i = Some c ->
  schedule_client i c w s = (w1, s1, pr) ->
  frame s s1 /\ round i (cx_cost c) (work w s) (work w1 s1) s1 pr.
Proof.
  intros Hcost Hi E. unfold schedule_client in E.
  assert (frame s s) as Hrefl by done.
  destruct (cx_pending c) as [p|] eqn:Hp.
  { split_if; [|by eapply handle_pending_round]. injection E as <- <- <-.
    split; [done|]. by apply Round_idle. }
  pose proof (todo_check w (cx_client c)) as Hck.
  destruct (check_for_new_requests w (cx_client c)) as [w2 more]. cbn in Hck.
  destruct more; [|injection E as <- <- <-; split; [done|]; by apply Round_idle, work_mono].
  destruct (get_request w2 (cx_client c)) as [w3 o] eqn:Eg.
  pose proof (fun j => proj1 (todo_get _ _ j _ _ Eg)) as Hg1.
  destruct o as [req|]; [|injection E as <- <- <-; split; [done|]; apply Round_idle;
    etrans; by apply work_mono].
  pose proof (proj2 (todo_get _ _ 0 _ _ Eg) (mk_is_Some _ _ eq_refl)) as Hlt.
  pose proof (todo_start w3 (cx_client c)) as Hst.
  destruct (start_request w3 (cx_client c) req) as [w4 o] eqn:Es.
  assert (forall j, (todo w4 j <= todo w3 j)%nat) as Hst4.
  { intros j. specialize (Hst j req). by rewrite Es in Hst. } clear Hst.
  assert (work w4 s + 2 <= work w s)%nat as Hwork.
  { eapply work_strict; [|exact Hi|].
    - intros j. specialize (Hck j). specialize (Hg1 j). specialize (Hst4 j). lia.
    - specialize (Hck (cx_client c)). specialize (Hst4 (cx_client c)). lia. }
  destruct o as [p|]; [|injection E as <- <- <-; split; [done|]; apply Round_work; lia].
  set (s2 := at_cx i (cx_set_pending (Some p)) s) in *.
  assert (frame s s2) as Hfr by by apply frame_at_cx.
  assert (work w4 s2 = work w4 s + 1)%nat as Hw2.
  { pose proof (work_alter w4 (cx_set_pending (Some p)) i s c Hi) as Hwk.
    unfold cx_work in Hwk. cbn [cx_client cx_pending cx_set_pending] in Hwk.
    rewrite Hp in Hwk. fold s2 in Hwk. lia. }
  apply handle_pending_round in E as [Hfr2 Hround].
  - split; [by eapply frame_trans|]. cbn [cx_cost cx_set_pending] in Hround.
    destruct Hround; apply Round_work; lia.
  - by apply Hfr.
  - cbn. by rewrite list_lookup_alter_eq, Hi.
  - done.
Qed.

(** The states of the loop: [_next] is a position, the costs are in bounds. *)
Definition loop_ok (s : Scheduler) : Prop :=
  (sc_next s < length (sc_clients s))%nat /\ Forall cost_ok (sc_clients s).

(** The client at [_next] has used some of its weight. *)
Definition hot (s : Scheduler) : bool :=
  match sc_clients s !! sc_next s with Some c => 0 <? cx_cost c | None => false end.

Lemma schedule_step_ok w s :
  loop_ok s ->
  exists w1 s1 pr, schedule_step w s = Some (w1, s1, pr) /\ loop_ok s1 /\
    length (sc_clients s1) = length (sc_clients s) /\
    ((work w1 s1 < work w s)%nat \/
     (work w1 s1 <= work w s)%nat /\ sc_next s1 = advance (sc_next s) s /\ hot s1 = false /\
       (pr = true -> hot s = true)).
Proof.
  intros [Hn Hcost]. unfold schedule_step.
  destruct (lookup_lt_is_Some_2 _ _ Hn) as [c Hc]. rewrite Hc.
  destruct (schedule_client (sc_next s) c w s) as [[w1 s1] pr] eqn:E.
  destruct (schedule_client_round _ _ _ _ _ _ _ Hcost Hc E) as [(Hnx & Hlen & Hco) Hr].
  specialize (Hco Hcost).
  destruct (lookup_lt_is_Some_2 (sc_clients s1) (sc_next s)) as [c1 Hc1]; [lia|].
  rewrite Hc1. destruct (negb pr || _) eqn:Emv.
  - set (n1 := advance (sc_next s) s1).
    assert (n1 = advance (sc_next s) s) as Hadv by (unfold n1, advance; by rewrite Hlen).
    assert (n1 < length (sc_clients s1))%nat as Hn1.
    { unfold n1, advance. destruct (Nat.eqb_spec (S (sc_next s)) (length (sc_clients s1))); lia. }
    destruct (lookup_lt_is_Some_2 _ _ Hn1) as [d Hd].
    set (s2 := at_cx n1 (cx_set_cost 0) (set_next n1 s1)).
    assert (work w1 s2 = work w1 s1) as Hwk.
    { pose proof (work_alter w1 (cx_set_cost 0) n1 (set_next n1 s1) d Hd) as Hwk.
      unfold cx_work in Hwk. cbn [cx_client cx_pending cx_set_cost] in Hwk. fold s2 in Hwk.
      unfold work in *. cbn [sc_clients set_next] in Hwk. lia. }
    assert (hot s2 = false) as Hhot.
    { unfold hot, s2. cbn. by rewrite list_lookup_alter_eq, Hd. }
    exists w1, s2, pr. split; [done|]. split.
    { split; [cbn; by rewrite length_alter|]. apply (at_cx_cost n1); [|done].
      intros e _ [? ?]. unfold cost_ok. cbn. lia. }
    split; [cbn; by rewrite length_alter|]. rewrite Hwk.
    destruct Hr as [b Hw|Hw|e Hw Hp He Hwe]; [by left|right..]; split_and!; try done.
    unfold hot. rewrite Hc. intros _. lia.
  - exists w1, s1, pr. split; [done|]. split; [split; [lia|done]|]. split; [done|]. left.
    destruct Hr as [b Hw|Hw|e Hw Hp He Hwe]; [done|done|].
    rewrite Hc1 in He. injection He as <-. cbn in Emv. lia.
Qed.

(** How far [n] is from [start], going up with wrap-around; [len] at [start]. *)
Definition distance (n start len : nat) : nat :=
  if (n <? start)%nat then start - n else len - n + start.

Definition measure (start : nat) (recheck : bool) (w : W) (s : Scheduler) : nat :=
  let len := length (sc_clients s) in
  work w s * (2 * len + 1) + distance (sc_next s) start len
    + if hot s || recheck then len else 0.

Lemma distance_range n start len :
  (n < len)%nat -> (start < len)%nat -> (1 <= distance n start len <= len)%nat.
Proof. intros Hn Hs. unfold distance. destruct (Nat.ltb_spec n start); lia. Qed.

Lemma distance_advance s start :
  (sc_next s < length (sc_clients s))%nat -> (start < length (sc_clients s))%nat ->
  let len := length (sc_clients s) in let n1 := advance (sc_next s) s in
  (n1 = start /\ distance (sc_next s) start len = 1 /\ distance n1 start len = len \/
   n1 <> start /\ S (distance n1 start len) = distance (sc_next s) start len)%nat.
Proof.
  intros Hn Hs len n1. unfold n1, advance, distance, len.
  destruct (Nat.eqb_spec (S (sc_next s)) (length (sc_clients s)));
    repeat match goal with |- context [(?a <? ?b)%nat] => destruct (Nat.ltb_spec a b) end;
    try lia;
    match goal with |- context [?x = start] => destruct (decide (x = start)); lia end.
Qed.

(** The loop ends within [measure] iterations. *)
Lemma schedule_loop_ends fuel start recheck w s :
  loop_ok s -> (start < length (sc_clients s))%nat ->
  (measure start recheck w s <= fuel)%nat ->
  exists w' s', schedule_loop fuel start recheck w s = Ret (w', s').
Proof.
  revert recheck w s. induction fuel as [|f IH]; intros recheck w s Hok Hst Hm.
  { unfold measure in Hm. pose proof (distance_range _ start _ (proj1 Hok) Hst). lia. }
  cbn [schedule_loop].
  destruct (schedule_step_ok w s Hok) as (w1 & s1 & pr & -> & Hok1 & Hlen & Hcase).
  pose proof (distance_range _ start _ (proj1 Hok) Hst) as Hd.
  pose proof (distance_range _ start _ (proj1 Hok1) ltac:(lia)) as Hd1.
  unfold measure in Hm.
  assert (forall r, (work w1 s1 < work w s)%nat -> (measure start r w1 s1 <= f)%nat) as Hwork.
  { intros r Hw. unfold measure. destruct (hot s1 || r), (hot s || recheck); nia. }
  destruct Hcase as [Hw|(Hw & Hnx & Hh & Hp)].
  { destruct (sc_next s1 =? start)%nat; [destruct (recheck || pr)|];
      eauto; (apply IH; [done|lia|by apply Hwork]). }
  pose proof (distance_advance s start (proj1 Hok) Hst) as Hadv. cbn zeta in Hadv.
  rewrite <- Hnx, <- Hlen in Hadv.
  assert (recheck || pr = true -> hot s || recheck = true) as Hrp
    by (destruct recheck, pr, (hot s); auto).
  destruct (Nat.eqb_spec (sc_next s1) start) as [Heq|Hne].
  - destruct (recheck || pr); [|eauto]. apply IH; [done|lia|]. unfold measure. rewrite Hh.
    rewrite Hrp in Hm by done. rewrite <- Hlen in *. cbn [orb]. nia.
  - apply IH; [done|lia|]. unfold measure. rewrite Hh, <- Hlen in *. cbn [orb].
    destruct (recheck || pr); [rewrite Hrp in Hm by done|]; destruct (hot s || recheck); nia.
Qed.


(** ** No waiting request is forgotten *)

(** A client with waiting requests gets one when it asks. *)
Class Sched_world_ready := {
  ready_get : forall w i, todo w i <> O ->
    exists w1 w2 r, check_for_new_requests w i = (w1, true) /\ get_request w1 i = (w2, Some r);
}.

Context `{!Sched_world_ready}.

(** Nothing can be done for the client at [i] now: its pending request waits
    for the device, or it has neither a pending nor a waiting request. *)
Definition stuck_at (w : W) (s : Scheduler) (i : nat) : Prop :=
  exists c, sc_clients s !! i = Some c /\
    match cx_pending c with Some _ => cx_device_busy c = true | None => todo w (cx_client c) = O end.

(** Waking up a client goes with triggering the IRQ. *)
Lemma idles_irq l s :
  let s' := foldl (fun s k => client_idle k s) s l in
  sc_irq s' = true \/ sc_irq s' = sc_irq s /\ sc_clients s' = sc_clients s.
Proof.
  cbn. revert s. induction l as [|k l IH]; intros s; [by right|]. cbn [foldl].
  destruct (IH (client_idle k s)) as [Hi|[Hi Hc]]; [by left|]. rewrite Hi, Hc. cbn.
  destruct (existsb (idle_hit k) (sc_clients s)) eqn:E; [left; apply orb_true_r|right].
  rewrite orb_false_r. split; [done|]. clear Hi Hc IH.
  induction (sc_clients s) as [|c t IH]; [done|]. cbn in *.
  apply orb_false_iff in E as [E1 E2]. rewrite E1. f_equal. by apply IH.
Qed.

(** A round without progress leaves its client stuck and the others as they
    were, or the IRQ triggered. *)
Lemma handle_pending_stuck i c p w s w1 s1 :
  sc_clients s !! i = Some c -> cx_pending c = Some p ->
  handle_pending i c p w s = (w1, s1, false) ->
  sc_irq s1 = true \/
  (sc_irq s1 = sc_irq s /\ stuck_at w1 s1 i /\
   forall j, j <> i -> stuck_at w s j -> stuck_at w1 s1 j).
Proof.
  intros Hi Hp E. unfold handle_pending in E. split_if; [done|].
  destruct (handle_request w p) as [[w2 ret] idles] eqn:Eh.
  pose proof (idles_irq idles s) as Hidl. cbn zeta in Hidl.
  set (s2 := foldl _ s idles) in *.
  case_bool_decide; [|done]. injection E as <- <-.
  destruct Hidl as [Hirq|[Hirq Hcl]]; [by left|right]. split; [done|]. split.
  - eexists. cbn. rewrite list_lookup_alter_eq, Hcl, Hi. split; [done|]. cbn. by rewrite Hp.
  - intros j Hj (d & Hd & Hst). exists d. cbn. rewrite list_lookup_alter_ne, Hcl by done.
    split; [done|]. destruct (cx_pending d); [done|].
    pose proof (todo_handle w p (cx_client d)) as Ht. rewrite Eh in Ht. cbn in Ht. lia.
Qed.

Lemma schedule_client_stuck i c w s w1 s1 :
  sc_clients s !! i = Some c -> schedule_client i c w s = (w1, s1, false) ->
  sc_irq s1 = true \/
  (sc_irq s1 = sc_irq s /\ stuck_at w1 s1 i /\
   forall j, j <> i -> stuck_at w s j -> stuck_at w1 s1 j).
Proof.
  intros Hi E. unfold schedule_client in E. destruct (cx_pending c) as [p|] eqn:Hp.
  { split_if; [|by eapply handle_pending_stuck]. injection E as <- <-. right.
    split_and!; [done| |done]. exists c. rewrite Hp. done. }
  destruct (decide (todo w (cx_client c) = O)) as [Hz|Hnz].
  - pose proof (todo_check w (cx_client c)) as Hck.
    destruct (check_for_new_requests w (cx_client c)) as [w2 more] eqn:Ec. cbn in Hck.
    assert (forall w', (forall j, todo w' j <= todo w2 j)%nat -> (w', s) = (w1, s1) ->
      sc_irq s1 = true \/ (sc_irq s1 = sc_irq s /\ stuck_at w1 s1 i /\
        forall j, j <> i -> stuck_at w s j -> stuck_at w1 s1 j)) as Hdone.
    { intros w' Hw' [= <- <-]. right. split_and!; [done| |].
      - exists c. rewrite Hp. split; [done|]. specialize (Hw' (cx_client c)).
        specialize (Hck (cx_client c)). lia.
      - intros j _ (d & Hd & Hst). exists d. split; [done|]. destruct (cx_pending d); [done|].
        specialize (Hw' (cx_client d)). specialize (Hck (cx_client d)). lia. }
    destruct more; [|injection E as <- <-; by apply (Hdone w2)].
    destruct (get_request w2 (cx_client c)) as [w3 [req|]] eqn:Eg.
    + pose proof (proj2 (todo_get _ _ 0 _ _ Eg) (mk_is_Some _ _ eq_refl)) as Hlt.
      specialize (Hck (cx_client c)). lia.
    + injection E as <- <-. apply (Hdone w3); [|done].
      intros j. apply (proj1 (todo_get _ _ j _ _ Eg)).
  - destruct (ready_get w (cx_client c) Hnz) as (w2 & w3 & req & Ec & Eg).
    rewrite Ec, Eg in E.
    pose proof (todo_check w (cx_client c)) as Hck. rewrite Ec in Hck. cbn in Hck.
    pose proof (fun j => proj1 (todo_get _ _ j _ _ Eg)) as Hg.
    pose proof (fun j => todo_start w3 (cx_client c) j req) as Hst.
    destruct (start_request w3 (cx_client c) req) as [w4 [p|]]; [|done]. cbn in Hst.
    apply handle_pending_stuck in E as [Hirq|(Hirq & Hs & Hoth)]; [by left| |..].
    + right. split_and!; [done|done|]. intros j Hj (d & Hd & Hs'). apply Hoth; [done|].
      exists d. cbn. rewrite list_lookup_alter_ne by done. split; [done|].
      destruct (cx_pending d); [done|].
      specialize (Hck (cx_client d)). specialize (Hg (cx_client d)).
      specialize (Hst (cx_client d)). lia.
    + cbn. by rewrite list_lookup_alter_eq, Hi.
    + done.
Qed.

(** A step without progress moves on; what it says about stuck clients. *)
Lemma schedule_step_stuck w s w1 s1 :
  loop_ok s -> schedule_step w s = Some (w1, s1, false) ->
  sc_next s1 = advance (sc_next s) s /\
  (sc_irq s1 = true \/
   (sc_irq s1 = sc_irq s /\ stuck_at w1 s1 (sc_next s) /\
    forall j, j <> sc_next s -> stuck_at w s j -> stuck_at w1 s1 j)).
Proof.
  intros [Hn Hcost] E. unfold schedule_step in E.
  destruct (sc_clients s !! sc_next s) as [c|] eqn:Hc; [|done].
  destruct (schedule_client (sc_next s) c w s) as [[w2 s2] pr] eqn:Ec.
  destruct (sc_clients s2 !! sc_next s) as [c1|] eqn:Hc1; [|done].
  assert (pr = false) as -> by (destruct pr; [by destruct (_ || _)|done]).
  cbn [negb orb] in E. injection E as <- <-.
  destruct (schedule_client_round _ _ _ _ _ _ _ Hcost Hc Ec) as [(_ & Hlen & _) _].
  set (n1 := advance (sc_next s) s2).
  split; [cbn; unfold n1, advance; by rewrite Hlen|].
  assert (forall j, stuck_at w2 s2 j ->
    stuck_at w2 (at_cx n1 (cx_set_cost 0) (set_next n1 s2)) j) as Hkeep.
  { intros j (d & Hd & Hst). destruct (decide (j = n1)) as [->|Hj].
    - exists (cx_set_cost 0 d). cbn. by rewrite list_lookup_alter_eq, Hd.
    - exists d. cbn. by rewrite list_lookup_alter_ne. }
  destruct (schedule_client_stuck _ _ _ _ _ _ Hc Ec) as [Hirq|(Hirq & Hs & Ho)];
    [by left|right]. split_and!; [done|by apply Hkeep|]. intros j Hj Hst.
  by apply Hkeep, Ho.
Qed.

(** Positions visited since the loop was last at [start]. *)
Definition offset (i start len : nat) : nat :=
  if (i <? start)%nat then len - start + i else i - start.

Definition visited_stuck (start : nat) (w : W) (s : Scheduler) : Prop :=
  sc_irq s = true \/
  forall i, (i < length (sc_clients s))%nat ->
    (offset i start (length (sc_clients s)) < offset (sc_next s) start (length (sc_clients s)))%nat ->
    stuck_at w s i.

Lemma schedule_loop_stuck fuel start recheck w s w' s' :
  loop_ok s -> (start < length (sc_clients s))%nat ->
  (recheck = false -> visited_stuck start w s) ->
  schedule_loop fuel start recheck w s = Ret (w', s') ->
  sc_irq s' = true \/ forall i, (i < length (sc_clients s'))%nat -> stuck_at w' s' i.
Proof.
  revert recheck w s. induction fuel as [|f IH]; intros recheck w s Hok Hst Hinv E; [done|].
  cbn [schedule_loop] in E.
  destruct (schedule_step_ok w s Hok) as (w1 & s1 & pr & Es & Hok1 & Hlen & _).
  rewrite Es in E.
  assert (offset start start (length (sc_clients s1)) = 0)%nat as Hzero.
  { unfold offset. rewrite Nat.ltb_irrefl. lia. }
  destruct (recheck || pr) eqn:Erp.
  { destruct (Nat.eqb_spec (sc_next s1) start) as [Heq|Hne].
    - eapply IH in E; [done|done|lia|]. intros _. right. intros i _. rewrite Heq, Hzero. lia.
    - eapply IH in E; [done|done|lia|done]. }
  apply orb_false_iff in Erp as [-> ->]. specialize (Hinv eq_refl).
  destruct (schedule_step_stuck w s w1 s1 Hok Es) as [Hnx Hcase].
  assert (sc_irq s1 = true \/ forall i, (i < length (sc_clients s))%nat ->
    (offset i start (length (sc_clients s)) <= offset (sc_next s) start (length (sc_clients s)))%nat ->
    stuck_at w1 s1 i) as Hvis.
  { destruct Hcase as [Hirq|(Hirq & Hs & Ho)]; [by left|].
    destruct Hinv as [Hi|Hv]; [left; congruence|right]. intros i Hi Hle.
    destruct (decide (i = sc_next s)) as [->|Hne]; [done|]. apply Ho; [done|]. apply Hv; [done|].
    destruct Hok as [Hn _]. unfold offset in *.
    destruct (Nat.ltb_spec i start), (Nat.ltb_spec (sc_next s) start); lia. }
  destruct Hok as [Hn _]. unfold advance in Hnx.
  destruct (Nat.eqb_spec (sc_next s1) start) as [Heq|Hne].
  - injection E as <- <-. destruct Hvis as [?|Hv]; [by left|right]. intros i Hi.
    change (stuck_at w1 s1 i). cbn in Hi. apply Hv; [lia|]. unfold offset.
    destruct (Nat.eqb_spec (S (sc_next s)) (length (sc_clients s))),
      (Nat.ltb_spec i start), (Nat.ltb_spec (sc_next s) start); lia.
  - eapply IH in E; [done|done|lia|]. intros _. destruct Hvis as [?|Hv]; [by left|right].
    intros i Hi Hlt. apply Hv; [lia|]. rewrite Hlen in Hlt. unfold offset in *.
    destruct (Nat.eqb_spec (S (sc_next s)) (length (sc_clients s)));
      repeat match goal with H : context [(?a <? ?b)%nat] |- _ => destruct (Nat.ltb_spec a b)
      | |- context [(?a <? ?b)%nat] => destruct (Nat.ltb_spec a b) end; lia.
Qed.

(** C10.  No waiting request is forgotten: when [schedule] returns, either it has
    been triggered again, or every client has its request waiting for a busy
    device or has no request left at all. *)
Theorem schedule_exhaustive w s fuel w' s' :
  Forall cost_ok (sc_clients s) -> (sc_next s <= length (sc_clients s))%nat ->
  schedule fuel w s = Ret (w', s') ->
  sc_irq s' = true \/ forall i, (i < length (sc_clients s'))%nat -> stuck_at w' s' i.
Proof.
  intros Hcost Hn E. unfold schedule in E.
  destruct (sc_clients s) as [|c0 l0] eqn:El.
  { injection E as <- <-. right. rewrite El. cbn. lia. }
  rewrite <- El in *.
  set (n := if (sc_next s =? length (sc_clients s))%nat then O else sc_next s) in *.
  assert (n < length (sc_clients s))%nat as Hlt.
  { unfold n. destruct (Nat.eqb_spec (sc_next s) (length (sc_clients s))); [|lia].
    rewrite El. cbn. lia. }
  eapply schedule_loop_stuck, E.
  - split; [cbn; by rewrite length_alter|]. apply (at_cx_cost n); [|done].
    intros e _ [? ?]. unfold cost_ok. cbn. lia.
  - cbn. by rewrite length_alter.
  - intros _. right. intros i _ Hoff. unfold offset in Hoff.
    cbn [sc_next at_cx set_clients set_next] in Hoff. rewrite Nat.ltb_irrefl in Hoff. lia.
Qed.

End Scheduler.

Arguments Sched_Context P : clear implicits.
Arguments Scheduler P : clear implicits.

(** ** Rr_scheduler *)

(** Every client has weight 1, every request costs 1. *)
Definition rr_get_weight (client : Z) : Z := 1.
Definition rr_get_cost {P : Type} (p : P) : Z := 1.

(** ** Two clients and a device with a few slots, round robin *)

Module Rr_example.

(** The requests waiting for client 1 and for client 2 (client 3, ...), the
    free slots of the device, and the requests it took, in order. *)
Record world := { queue1 : list Z; queue2 : list Z; slots : nat; taken : list Z }.

Definition queue (w : world) (i : Z) : list Z := if i =? 1 then queue1 w else queue2 w.

Definition set_queue (i : Z) (q : list Z) (w : world) : world :=
  if i =? 1
  then {| queue1 := q; queue2 := queue2 w; slots := slots w; taken := taken w |}
  else {| queue1 := queue1 w; queue2 := q; slots := slots w; taken := taken w |}.

#[local] Instance rr_world : Sched_world world Z Z := {
  check_for_new_requests w i := (w, negb (bool_decide (queue w i = [])));
  get_request w i :=
    match queue w i with
    | [] => (w, None)
    | r :: q => (set_queue i q w, Some r)
    end;
  start_request w i r := (w, if r <? 0 then None else Some r);
  handle_request w p :=
    match slots w with
    | O => (w, Err EBUSY, [])
    | S k => ({| queue1 := queue1 w; queue2 := queue2 w; slots := k;
                 taken := taken w ++ [p] |}, Ok, [])
    end;
  fail_request w p := w;
  domain_of _ := 0;
  get_weight := rr_get_weight;
  get_cost := rr_get_cost;
}.

#[local] Instance rr_world_ok : Sched_world_ok 64 (W := world) (R := Z) (P := Z).
Proof.
  refine {| todo w i := length (queue w i) |}; try done.
  - intros w i j w' o E. cbn in E. destruct (queue w i) as [|r q] eqn:Eq;
      injection E as <- <-; [split; [done|by intros []]|].
    unfold queue, set_queue in *. destruct (i =? 1), (j =? 1); cbn in *; rewrite ?Eq; cbn; lia.
  - intros w p j. cbn. destruct (slots w); [done|]. unfold queue. by destruct (j =? 1).
Defined.

#[local] Instance rr_world_ready : Sched_world_ready 64 (W := world) (R := Z) (P := Z).
Proof.
  constructor. intros w i Hne. cbn in *. destruct (queue w i) as [|r q] eqn:Eq; [done|].
  exists w. rewrite Eq. eauto.
Defined.

Definition idle (i : Z) : Sched_Context Z :=
  {| cx_pending := None; cx_client := i; cx_device_busy := false; cx_cost := 0 |}.

Definition s0 : Scheduler Z := {| sc_clients := [idle 1; idle 2]; sc_next := 2; sc_irq := false |}.

Definition w0 : world :=
  {| queue1 := [11; -1; 12; 13]; queue2 := [21; 22]; slots := 4; taken := [] |}.

Definition w1 : world := {| queue1 := []; queue2 := []; slots := 0; taken := [11; 21; 12; 22] |}.

Definition s1 : Scheduler Z :=
  {| sc_clients := [{| cx_pending := Some 13; cx_client := 1; cx_device_busy := true; cx_cost := 0 |};
                    idle 2]; sc_next := 1; sc_irq := false |}.

Lemma s0_run : schedule 64 200 w0 s0 = Ret (w1, s1).
Proof. by_eval. Qed.

Lemma s0_costs : Forall cost_ok (sc_clients s0).
Proof. constructor; [done|]. constructor; [done|]. constructor. Qed.


Lemma schedule_exhaustive_witness :
  sc_irq s1 = true \/ forall i, (i < length (sc_clients s1))%nat -> stuck_at 64 w1 s1 i.
Proof.
  refine (schedule_exhaustive 64 w0 s0 200 w1 s1 s0_costs _ s0_run). cbn. lia.
Defined.

End Rr_example.
