(* ===== verification/VirtioClient.v ===== *)
(** * The VIRTIO block client

    Models [src/pkg/libblock-device/include/virtio_client.h] with the request
    interface of [request.h]: checking a guest's request and turning it into
    blocks for the device, handing it to the device, and finishing it.

    A guest's request is its header and what reading its descriptor chain
    yields ([Block_request] of l4virtio).  The state is that of the client and
    of its device; [vs_maps] and [vs_done] record the DMA mappings that are in
    place and the requests that were given back to the guest with a status. *)

From S2P Require Import Prelude BlockTypes PartDevice.

(** ** virtio_block.h *)

Definition T_IN : Z := 0.
Definition T_OUT : Z := 1.
Definition T_FLUSH : Z := 4.
Definition T_DISCARD : Z := 11.
Definition T_WRITE_ZEROES : Z := 13.

Definition S_OK : Z := 0.
Definition S_IOERR : Z := 1.
Definition S_UNSUPP : Z := 2.

Definition DISCARD_F_UNMAP : Z := 1.
Definition DISCARD_F_RESERVED : Z := 4294967294.

(** Bits of [Block_features] *)
Definition F_RO : Z := 5.
Definition F_FLUSH : Z := 9.
Definition F_CONFIG_WCE : Z := 11.
Definition F_DISCARD : Z := 13.
Definition F_WRITE_ZEROES : Z := 14.

(** ** Requests *)

(** [l4virtio_block_discard_t] *)
Record discard_seg := { ds_sector : Z; ds_num_sectors : Z; ds_flags : Z }.

(** A [Data_block]: the driver memory region it lies in (by number), the
    region's [ds_offset - local_base], the local address, the length, and the
    content read as an array of discard segments. *)
Record Data_block := {
  db_mem : Z;
  db_delta : Z;
  db_addr : Z;
  db_len : Z;
  db_segs : list discard_seg;
}.

(** One round of [while (req->has_more()) { ... next_block() ... }]: a block,
    [Bad_descriptor] raised by [next_block], or by [has_more]. *)
Inductive block_event := Blk (b : Data_block) | Blk_bad | Blk_throw.

Record Request := {
  rq_id : Z;
  rq_type : Z;
  rq_sector : Z;
  rq_events : list block_event;
}.

(** The classes derived from [Generic_pending_request]. *)
Inductive Pending_request :=
  | Pending_inout (r : Request) (blocks : chain) (dir : Direction)
  | Pending_flush (r : Request)
  | Pending_cmd (r : Request) (blocks : chain).

Definition pending_request_of (p : Pending_request) : Request :=
  match p with Pending_inout r _ _ | Pending_flush r | Pending_cmd r _ => r end.

(** How building the blocks of a request ended: with a return code, or by an
    exception that is not caught. *)
Inductive built := B_ret (r : l4_ret) | B_throw.

Section Virtio_client.

Context `{Device D}.

(** The members of [Virtio_client] (and of its base class) the operations use,
    the device, the mappings [(dma_addr, num_sectors)], and the requests given
    back as [(id, status, size)]. *)
Record Client_state := {
  vs_dev : D;
  vs_shutdown : Shutdown_type;
  vs_di : Discard_info;
  vs_host_features : Z;
  vs_negotiated : Z;
  vs_writeback : Z;
  vs_in_flight : Z;
  vs_maps : list (Z * Z);
  vs_done : list (Z * Z * Z);
}.

Definition feature (bit : Z) (f : Z) : bool := Z.testbit f bit.

Definition vs_set (dev : D) (maps : list (Z * Z)) (s : Client_state) : Client_state :=
  {| vs_dev := dev; vs_shutdown := vs_shutdown s; vs_di := vs_di s;
     vs_host_features := vs_host_features s; vs_negotiated := vs_negotiated s;
     vs_writeback := vs_writeback s; vs_in_flight := vs_in_flight s; vs_maps := maps;
     vs_done := vs_done s |}.

Definition vs_set_in_flight (n : Z) (s : Client_state) : Client_state :=
  {| vs_dev := vs_dev s; vs_shutdown := vs_shutdown s; vs_di := vs_di s;
     vs_host_features := vs_host_features s; vs_negotiated := vs_negotiated s;
     vs_writeback := vs_writeback s; vs_in_flight := n; vs_maps := vs_maps s;
     vs_done := vs_done s |}.

Definition vs_set_shutdown (t : Shutdown_type) (negotiated : Z) (s : Client_state) : Client_state :=
  {| vs_dev := vs_dev s; vs_shutdown := t; vs_di := vs_di s;
     vs_host_features := vs_host_features s; vs_negotiated := negotiated;
     vs_writeback := vs_writeback s; vs_in_flight := vs_in_flight s; vs_maps := vs_maps s;
     vs_done := vs_done s |}.

(** [finalize_request] on a device whose queue is ready. *)
Definition finalize_request (r : Request) (sz status : Z) (s : Client_state) : Client_state :=
  {| vs_dev := vs_dev s; vs_shutdown := vs_shutdown s; vs_di := vs_di s;
     vs_host_features := vs_host_features s; vs_negotiated := vs_negotiated s;
     vs_writeback := vs_writeback s; vs_in_flight := vs_in_flight s; vs_maps := vs_maps s;
     vs_done := vs_done s ++ [(rq_id r, u8 status, sz)] |}.

(** [handle_request_error] *)
Definition handle_request_error (e : errno) (r : Request) (s : Client_state) : Client_state :=
  if bool_decide (e = ENOSYS) then finalize_request r 0 S_UNSUPP s
  else finalize_request r 0 S_IOERR s.

(** Forget one mapping. *)
Fixpoint unmap_one (m : Z * Z) (l : list (Z * Z)) : list (Z * Z) :=
  match l with
  | [] => []
  | x :: t => if bool_decide (x = m) then t else x :: unmap_one m t
  end.

(** [release_dma] *)
Fixpoint release_dma (blocks : chain) (dir : Direction) (s : Client_state) : Client_state :=
  match blocks with
  | [] => s
  | b :: t =>
      release_dma t dir
        (if num_sectors b =? 0 then s
         else vs_set (dma_unmap (vs_dev s) (dma_addr b) (num_sectors b) dir).1
                (unmap_one (dma_addr b, num_sectors b) (vs_maps s)) s)
  end.

(** The destructor of a pending request. *)
Definition destroy_pending (p : Pending_request) (s : Client_state) : Client_state :=
  match p with
  | Pending_inout _ blocks dir => release_dma blocks dir s
  | _ => s
  end.

(** The chain that starts with the [blocks] member of a pending request. *)
Definition chain_of (l : chain) : chain :=
  match l with [] => [Inout_block_init] | _ => l end.

(** The loop of [build_inout_blocks]; [seg] blocks were taken, the next one is
    for [current_sector]. *)
Fixpoint build_inout_loop (flags : Z) (dir : Direction) (sectors : Z)
    (evs : list block_event) (seg current_sector : Z) (acc : chain) (s : Client_state)
    : Client_state * built * chain :=
  match evs with
  | [] => (s, B_ret Ok, acc)
  | Blk_throw :: _ => (s, B_throw, acc)
  | e :: t =>
      if max_segments (vs_dev s) <? seg + 1 then (s, B_ret (Err EIO), acc)
      else
        match e with
        | Blk b =>
            let secsz := sector_size (vs_dev s) in
            let off := u64 (db_delta b + db_addr b) in
            let sz := db_len b / secsz in
            if negb (u64 (sz * secsz) =? db_len b) then (s, B_ret (Err EIO), acc)
            else if sectors <? sz then (s, B_ret (Err EIO), acc)
            else if sectors - sz <? current_sector then (s, B_ret (Err EIO), acc)
            else
              let '(dev, (ret, phys)) := dma_map (vs_dev s) (db_mem b) off sz dir in
              match ret with
              | Err _ => (vs_set dev (vs_maps s) s, B_ret ret, acc ++ [Inout_block_init])
              | Ok =>
                  build_inout_loop flags dir sectors t (seg + 1) (current_sector + sz)
                    (acc ++ [{| dma_addr := phys; virt_addr := db_addr b; sector := 0;
                                num_sectors := u32 sz; flags := flags |}])
                    (vs_set dev (vs_maps s ++ [(phys, u32 sz)]) s)
              end
        | _ => (s, B_ret (Err EIO), acc)
        end
  end.

(** [build_inout_blocks] *)
Definition build_inout_blocks (r : Request) (dir : Direction) (s : Client_state)
    : Client_state * built * chain :=
  let secsz := sector_size (vs_dev s) in
  let sps := secsz / 512 in
  let current_sector := rq_sector r / sps in
  let sectors := capacity (vs_dev s) / secsz in
  if (rq_type r =? T_OUT) && feature F_RO (vs_host_features s)
  then (s, B_ret (Err EIO), [])
  else
    let flags :=
      if rq_type r =? T_OUT then
        if feature F_CONFIG_WCE (vs_negotiated s) then
          if vs_writeback s =? 1 then Inout_f_wb else 0
        else if feature F_FLUSH (vs_negotiated s) then Inout_f_wb else 0
      else 0 in
    if negb (u64 (current_sector * sps) =? rq_sector r) then (s, B_ret (Err EIO), [])
    else build_inout_loop flags dir sectors (rq_events r) 0 current_sector [] s.

(** [check_flush_request] *)
Definition check_flush_request (r : Request) (s : Client_state) : l4_ret :=
  if negb (feature F_FLUSH (vs_negotiated s)) then Err ENOSYS
  else if negb (rq_sector r =? 0) then Err ENOSYS
  else Ok.

(** The loop over the segments of one block in [build_discard_cmd_blocks]. *)
Fixpoint discard_segs (discard : bool) (di : Discard_info) (sps sectors : Z)
    (l : list discard_seg) (acc : chain) : l4_ret * chain :=
  match l with
  | [] => (Ok, acc)
  | p :: t =>
      if negb (ds_sector p mod sps =? 0) then (Err EIO, acc)
      else if negb (ds_num_sectors p mod sps =? 0) then (Err EIO, acc)
      else
        let sec := ds_sector p / sps in
        let num := ds_num_sectors p / sps in
        if sectors <? num then (Err EIO, acc)
        else if sectors - num <? sec then (Err EIO, acc)
        else if negb (Z.land (ds_flags p) DISCARD_F_RESERVED =? 0) then (Err ENOSYS, acc)
        else
          let unmap := negb (Z.land (ds_flags p) DISCARD_F_UNMAP =? 0) in
          let blk fl := {| dma_addr := 0; virt_addr := 0; sector := sec; num_sectors := num;
                           flags := fl |} in
          if discard then
            if unmap then (Err ENOSYS, acc ++ [blk 0])
            else if max_discard_sectors di <? num then (Err EIO, acc ++ [blk 0])
            else discard_segs discard di sps sectors t (acc ++ [blk 0])
          else
            let fl := if unmap && write_zeroes_may_unmap di then Inout_f_unmap else 0 in
            if max_write_zeroes_sectors di <? num then (Err EIO, acc ++ [blk fl])
            else discard_segs discard di sps sectors t (acc ++ [blk fl])
  end.

(** The loop over the blocks; an element of the payload has 16 bytes. *)
Fixpoint build_discard_loop (discard : bool) (di : Discard_info) (sps sectors max_seg : Z)
    (evs : list block_event) (seg : Z) (acc : chain) : built * chain :=
  match evs with
  | [] => (B_ret Ok, acc)
  | Blk_throw :: _ => (B_throw, acc)
  | Blk_bad :: _ => (B_ret (Err EIO), acc)
  | Blk b :: t =>
      let items := db_len b / 16 in
      if negb (items * 16 =? db_len b) then (B_ret (Err EIO), acc)
      else if max_seg <? seg + items then (B_ret (Err EIO), acc)
      else
        match discard_segs discard di sps sectors (take (Z.to_nat items) (db_segs b)) acc with
        | (Err e, acc1) => (B_ret (Err e), acc1)
        | (Ok, acc1) => build_discard_loop discard di sps sectors max_seg t (seg + items) acc1
        end
  end.

(** [build_discard_cmd_blocks] *)
Definition build_discard_cmd_blocks (r : Request) (s : Client_state) : built * chain :=
  let discard := rq_type r =? T_DISCARD in
  if feature F_RO (vs_host_features s) then (B_ret (Err EIO), [])
  else if negb (rq_sector r =? 0) then (B_ret (Err ENOSYS), [])
  else if negb (feature (if discard then F_DISCARD else F_WRITE_ZEROES) (vs_negotiated s))
  then (B_ret (Err ENOSYS), [])
  else
    let max_seg := if discard then max_discard_seg (vs_di s) else max_write_zeroes_seg (vs_di s) in
    let secsz := sector_size (vs_dev s) in
    build_discard_loop discard (vs_di s) (secsz / 512) (capacity (vs_dev s) / secsz) max_seg
      (rq_events r) 0 [].

(** The direction of a transfer. *)
Definition inout_dir (r : Request) : Direction :=
  if rq_type r =? T_OUT then To_device else From_device.

(** [start_request]; a pending request that is not kept is destroyed. *)
Definition start_request (r : Request) (s : Client_state)
    : Client_state * run (option Pending_request) :=
  if negb (bool_decide (vs_shutdown s = Running)) then
    (finalize_request r 0 S_IOERR s, Ret None)
  else if (rq_type r =? T_OUT) || (rq_type r =? T_IN) then
    let dir := inout_dir r in
    let '(s1, res, acc) := build_inout_blocks r dir s in
    let p := Pending_inout r (chain_of acc) dir in
    match res with
    | B_ret Ok => (s1, Ret (Some p))
    | B_ret (Err e) => (destroy_pending p (handle_request_error e r s1), Ret None)
    | B_throw => (destroy_pending p s1, Raised)
    end
  else if rq_type r =? T_FLUSH then
    match check_flush_request r s with
    | Ok => (s, Ret (Some (Pending_flush r)))
    | Err e => (handle_request_error e r s, Ret None)
    end
  else if (rq_type r =? T_WRITE_ZEROES) || (rq_type r =? T_DISCARD) then
    let '(res, acc) := build_discard_cmd_blocks r s in
    match res with
    | B_ret Ok => (s, Ret (Some (Pending_cmd r (chain_of acc))))
    | B_ret (Err e) => (handle_request_error e r s, Ret None)
    | B_throw => (s, Raised)
    end
  else (finalize_request r 0 S_UNSUPP s, Ret None).

(** The device call of [inout_request], [flush_request], [discard_cmd_request];
    the request's id stands for the completion callback. *)
Definition issue (p : Pending_request) (d : D) : D * l4_ret :=
  match p with
  | Pending_inout r blocks dir =>
      inout_data d (rq_sector r / (sector_size d / 512)) blocks (rq_id r) dir
  | Pending_flush r => flush d (rq_id r)
  | Pending_cmd r blocks =>
      match discard_info d with
      | None => (d, Err EIO)
      | Some _ => discard d 0 blocks (rq_id r) (rq_type r =? T_DISCARD)
      end
  end.

(** [handle_request] of a pending request, with [check_error] *)
Definition handle_request (p : Pending_request) (s : Client_state) : Client_state * l4_ret :=
  let '(dev, res) := issue p (vs_dev s) in
  let s1 := vs_set dev (vs_maps s) s in
  match res with
  | Ok => (vs_set_in_flight (u32 (vs_in_flight s1 + 1)) s1, Ok)
  | Err e =>
      (if bool_decide (e = EBUSY) then s1
       else handle_request_error e (pending_request_of p) s1, Err e)
  end.

(** [fail_request] *)
Definition fail_request (p : Pending_request) (s : Client_state) : Client_state :=
  finalize_request (pending_request_of p) 0 S_IOERR s.

(** [task_finished], including the destruction of the request *)
Definition task_finished (p : Pending_request) (error sz : Z) (s : Client_state) : Client_state :=
  let s1 := vs_set_in_flight (u32 (vs_in_flight s - 1)) s in
  let s2 := if bool_decide (vs_shutdown s1 = Client_gone) then s1
            else finalize_request (pending_request_of p) sz error s1 in
  destroy_pending p s2.

(** [busy] *)
Definition busy (s : Client_state) : bool := negb (vs_in_flight s =? 0).

(** [reset_device] *)
Definition reset_device (s : Client_state) : Client_state :=
  vs_set_shutdown (vs_shutdown s) 0 (vs_set (reset (vs_dev s)) (vs_maps s) s).

(** [queue_stopped] *)
Definition queue_stopped (s : Client_state) : bool := bool_decide (vs_shutdown s = Client_gone).

(** [shutdown_event]; the scheduler's invalidate callback is run by the caller
    when the second component is [Some fail_pending]. *)
Definition shutdown_event (type : Shutdown_type) (s : Client_state)
    : run (Client_state * option bool) :=
  if bool_decide (vs_shutdown s = Client_gone) then Ret (s, None)
  else if bool_decide (vs_shutdown s = System_shutdown) then Asserted
  else if bool_decide (vs_shutdown s = System_suspend) && negb (bool_decide (type = Running))
  then Asserted
  else
    let s1 := vs_set_shutdown type (vs_negotiated s) s in
    let s2 := if bool_decide (type = Client_shutdown)
              then vs_set_shutdown Running 0 (reset_device s1) else s1 in
    if bool_decide (type = Running) then Ret (s2, None)
    else Ret (vs_set (reset (vs_dev s2)) (vs_maps s2) s2,
              Some (negb (bool_decide (type = Client_gone)))).

(** [init_discard_info]: what the device offers, in 512-byte sectors. *)
Definition init_discard_info (di : Discard_info) (secsz : Z) (host : Z)
    : Z * option (Z * Z * Z) * option (Z * Z * bool) :=
  let sps := secsz / 512 in
  let host1 := if max_discard_sectors di =? 0 then host else Z.setbit host F_DISCARD in
  let host2 := if max_write_zeroes_sectors di =? 0 then host1 else Z.setbit host1 F_WRITE_ZEROES in
  (host2,
   if max_discard_sectors di =? 0 then None
   else Some (u32 (max_discard_sectors di * sps), max_discard_seg di,
              u32 (discard_sector_alignment di * sps)),
   if max_write_zeroes_sectors di =? 0 then None
   else Some (u32 (max_write_zeroes_sectors di * sps), max_write_zeroes_seg di,
              write_zeroes_may_unmap di)).


(** ** Blocks handed to the device *)

(** Mapping memory does not change what a device says about itself. *)
Class Device_static := {
  static_dma_map : forall d m off n dir,
    let d' := (dma_map d m off n dir).1 in
    sector_size d' = sector_size d /\ capacity d' = capacity d /\
    max_segments d' = max_segments d;
}.

Context `{!Device_static}.

(** What reading the descriptors of a request can yield: the lengths are
    non-zero 32-bit values. *)
Definition events_ok (evs : list block_event) : Prop :=
  Forall (fun e => match e with Blk b => 0 < db_len b < 2 ^ 32 | _ => True end) evs.

(** The mappings a chain refers to. *)
Definition mapped (blocks : chain) : list (Z * Z) :=
  (fun b => (dma_addr b, num_sectors b)) <$> filter (fun b => num_sectors b <> 0) blocks.

Lemma mapped_app l k : mapped (l ++ k) = mapped l ++ mapped k.
Proof. unfold mapped. by rewrite list.filter_app, fmap_app. Qed.

Lemma mapped_chain_of l : mapped (chain_of l) = mapped l.
Proof. by destruct l. Qed.

(** The loop adds blocks [new] to the chain.  All mappings made belong to them;
    on success the blocks lie on the device and in the limit of segments. *)
Lemma build_inout_loop_spec fl dir sectors evs seg cur acc s s' res acc' :
  events_ok evs -> 512 <= sector_size (vs_dev s) < 2 ^ 32 -> 0 <= seg ->
  build_inout_loop fl dir sectors evs seg cur acc s = (s', res, acc') ->
  exists new, acc' = acc ++ new /\ vs_maps s' = vs_maps s ++ mapped new /\
    vs_done s' = vs_done s /\ vs_in_flight s' = vs_in_flight s /\
    vs_shutdown s' = vs_shutdown s /\
    sector_size (vs_dev s') = sector_size (vs_dev s) /\
    (res = B_ret Ok -> new <> [] ->
       cur + sum_sectors new <= sectors /\ 0 <= sum_sectors new /\
       seg + zlen new <= max_segments (vs_dev s)).
Proof.
  intros Hev. revert seg cur acc s. induction Hev as [|e evs He Hev IH];
    intros seg cur acc s Hsec Hseg E; cbn [build_inout_loop] in E.
  { injection E as <- <- <-. exists []. by rewrite !app_nil_r. }
  assert (forall x, (s, x, acc) = (s', res, acc') -> x <> B_ret Ok ->
    exists new, acc' = acc ++ new /\ vs_maps s' = vs_maps s ++ mapped new /\
      vs_done s' = vs_done s /\ vs_in_flight s' = vs_in_flight s /\
      vs_shutdown s' = vs_shutdown s /\ sector_size (vs_dev s') = sector_size (vs_dev s) /\
      (res = B_ret Ok -> new <> [] ->
         cur + sum_sectors new <= sectors /\ 0 <= sum_sectors new /\
         seg + zlen new <= max_segments (vs_dev s))) as Hstop.
  { intros x [= <- <- <-] Hx. exists []. rewrite !app_nil_r. by split_and!. }
  destruct e as [b| |]; [|by split_if; eapply Hstop|by eapply Hstop].
  split_if; [by eapply Hstop|]. split_if; [by eapply Hstop|].
  split_if; [by eapply Hstop|]. split_if; [by eapply Hstop|].
  set (sz := db_len b / sector_size (vs_dev s)) in *.
  assert (sz * sector_size (vs_dev s) <= db_len b) as Hmul
    by (unfold sz; rewrite Z.mul_comm; apply Z.mul_div_le; lia).
  assert (0 <= sz < 2 ^ 32) as Hsz.
  { unfold sz. split; [apply Z.div_pos; lia|]. apply Z.div_lt_upper_bound; nia. }
  apply negb_false_iff, Z.eqb_eq in Heqb1. rewrite uwrap_small in Heqb1 by (unfold in_u; lia).
  assert (0 < sz) as Hpos by nia.
  pose proof (static_dma_map (vs_dev s) (db_mem b) (u64 (db_delta b + db_addr b)) sz dir) as Hst.
  destruct (dma_map _ _ _ _ _) as [dev [ret phys]]. cbn in Hst. destruct Hst as (Hs1 & Hs2 & Hs3).
  destruct ret as [|e]; [|injection E as <- <- <-; exists [Inout_block_init];
    cbn; rewrite app_nil_r; by split_and!].
  apply IH in E as (new & -> & Hm & Hd & Hi & Hsh & Hsc & Hb); [|cbn; lia|lia].
  cbn in Hm, Hd, Hi, Hsh, Hsc, Hb.
  match goal with |- context [(acc ++ [?blk]) ++ new] => set (nb := blk) in * end.
  exists (nb :: new). rewrite <- app_assoc. split; [done|]. split_and!; try done; try congruence.
  - rewrite Hm, <- app_assoc. f_equal.
    change (nb :: new) with ([nb] ++ new). rewrite mapped_app. f_equal.
    unfold mapped. rewrite filter_cons_True; [done|]. cbn.
    rewrite uwrap_small by (unfold in_u; lia). lia.
  - intros Hok _. unfold zlen. cbn [length sum_sectors foldr num_sectors nb].
    fold (sum_sectors new). rewrite uwrap_small by (unfold in_u; lia).
    destruct new as [|n1 new]; [cbn; lia|]. destruct (Hb Hok) as (Hb1 & Hb2 & Hb3); [done|].
    unfold zlen in Hb3. cbn [length] in *. lia.
Qed.

Lemma build_inout_spec r dir s s' res acc :
  events_ok (rq_events r) -> 512 <= sector_size (vs_dev s) < 2 ^ 32 ->
  build_inout_blocks r dir s = (s', res, acc) ->
  vs_maps s' = vs_maps s ++ mapped acc /\ vs_done s' = vs_done s /\
  vs_in_flight s' = vs_in_flight s /\ vs_shutdown s' = vs_shutdown s /\
  (res = B_ret Ok -> acc <> [] ->
     let first := rq_sector r / (sector_size (vs_dev s) / 512) in
     (rq_type r = T_OUT -> feature F_RO (vs_host_features s) = false) /\
     first + sum_sectors acc <= capacity (vs_dev s) / sector_size (vs_dev s) /\
     0 <= sum_sectors acc /\ zlen acc <= max_segments (vs_dev s)).
Proof.
  intros Hev Hsec E. unfold build_inout_blocks in E.
  assert (forall x, (s, B_ret (Err x), []) = (s', res, acc) ->
    s' = s /\ acc = [] /\ res <> B_ret Ok) as Hstop by (by intros x [= <- <- <-]).
  destruct ((rq_type r =? T_OUT) && feature F_RO (vs_host_features s)) eqn:Ero.
  { destruct (Hstop _ E) as (-> & -> & ?). by rewrite app_nil_r. }
  destruct (negb (u64 _ =? rq_sector r)) eqn:Eal.
  { destruct (Hstop _ E) as (-> & -> & ?). by rewrite app_nil_r. }
  apply build_inout_loop_spec in E as (new & -> & Hm & Hd & Hi & Hsh & _ & Hb); [|done..].
  cbn [app] in *. split_and!; try done. intros Hok Hne.
  destruct (Hb Hok Hne) as (Hb1 & Hb2 & Hb3). split_and!; try done; try lia.
  intros Ht. rewrite Ht, Z.eqb_refl in Ero. done.
Qed.

(** ** DMA mappings *)

Lemma unmap_one_perm m l rest : l ≡ₚ m :: rest -> unmap_one m l ≡ₚ rest.
Proof.
  assert (m ∈ l -> m :: unmap_one m l ≡ₚ l) as Hperm.
  { induction l as [|x l IH]; intros Hin; [by apply not_elem_of_nil in Hin|]. cbn.
    case_bool_decide as Hx; [by subst|].
    apply elem_of_cons in Hin as [Heq|Hin]; [congruence|].
    rewrite Permutation_swap. by rewrite IH. }
  intros Hl. apply (Permutation_cons_inv (a := m)). rewrite Hperm; [done|].
  rewrite Hl. by left.
Qed.

Lemma release_dma_maps blocks dir s rest :
  vs_maps s ≡ₚ mapped blocks ++ rest -> vs_maps (release_dma blocks dir s) ≡ₚ rest.
Proof.
  revert s. induction blocks as [|b l IH]; intros s Hm; [done|]. cbn [release_dma].
  apply IH. unfold mapped in Hm |- *. destruct (Z.eqb_spec (num_sectors b) 0) as [Hz|Hz].
  - by rewrite filter_cons_False in Hm by (by intros []).
  - rewrite filter_cons_True in Hm by done. cbn. by apply unmap_one_perm.
Qed.

(** Nothing but the mappings and the device changes. *)
Lemma release_dma_frame blocks dir s :
  let s' := release_dma blocks dir s in
  vs_done s' = vs_done s /\ vs_in_flight s' = vs_in_flight s /\ vs_shutdown s' = vs_shutdown s.
Proof.
  cbn. revert s. induction blocks as [|b l IH]; intros s; [done|]. cbn [release_dma].
  destruct (IH (if num_sectors b =? 0 then s
    else vs_set (dma_unmap (vs_dev s) (dma_addr b) (num_sectors b) dir).1
                (unmap_one (dma_addr b, num_sectors b) (vs_maps s)) s)) as (-> & -> & ->).
  by destruct (num_sectors b =? 0).
Qed.

(** The mappings a pending request holds. *)
Definition holds (p : Pending_request) : list (Z * Z) :=
  match p with Pending_inout _ blocks _ => mapped blocks | _ => [] end.

Lemma destroy_maps p s rest :
  vs_maps s ≡ₚ holds p ++ rest -> vs_maps (destroy_pending p s) ≡ₚ rest.
Proof. destruct p; [apply release_dma_maps|done..]. Qed.

Lemma destroy_frame p s :
  let s' := destroy_pending p s in
  vs_done s' = vs_done s /\ vs_in_flight s' = vs_in_flight s /\ vs_shutdown s' = vs_shutdown s.
Proof. destruct p; [apply release_dma_frame|done..]. Qed.

Lemma error_frame e r s :
  let s' := handle_request_error e r s in
  vs_maps s' = vs_maps s /\ vs_in_flight s' = vs_in_flight s /\
  vs_shutdown s' = vs_shutdown s /\ vs_done s' = vs_done s ++ [(rq_id r, u8 (if bool_decide (e = ENOSYS) then S_UNSUPP else S_IOERR), 0)].
Proof. unfold handle_request_error. cbn. by case_bool_decide. Qed.

(** The ids of the requests given back. *)
Definition done_ids (s : Client_state) : list Z := (fun x => x.1.1) <$> vs_done s.

(** Starting a request: it is given back at once, without mappings left, or it
    becomes a pending request that holds the new mappings. *)
Lemma start_request_spec r s s' o :
  events_ok (rq_events r) -> 512 <= sector_size (vs_dev s) < 2 ^ 32 ->
  start_request r s = (s', Ret o) ->
  vs_in_flight s' = vs_in_flight s /\ vs_shutdown s' = vs_shutdown s /\
  match o with
  | None => vs_maps s' ≡ₚ vs_maps s /\ done_ids s' = done_ids s ++ [rq_id r]
  | Some p => pending_request_of p = r /\ vs_maps s' ≡ₚ holds p ++ vs_maps s /\
      done_ids s' = done_ids s
  end.
Proof.
  intros Hev Hsec E. unfold start_request, done_ids in *.
  assert (forall st z, (finalize_request r z st s, Ret None) = (s', Ret o) ->
    vs_in_flight s' = vs_in_flight s /\ vs_shutdown s' = vs_shutdown s /\ o = None /\
    vs_maps s' ≡ₚ vs_maps s /\ (fun x => x.1.1) <$> vs_done s' =
      ((fun x => x.1.1) <$> vs_done s) ++ [rq_id r]) as Hfin.
  { intros st z [= <- <-]. cbn. rewrite fmap_app. by split_and!. }
  assert (forall e, (handle_request_error e r s, Ret None) = (s', Ret o) ->
    vs_in_flight s' = vs_in_flight s /\ vs_shutdown s' = vs_shutdown s /\ o = None /\
    vs_maps s' ≡ₚ vs_maps s /\ (fun x => x.1.1) <$> vs_done s' =
      ((fun x => x.1.1) <$> vs_done s) ++ [rq_id r]) as Herr.
  { intros e. unfold handle_request_error. destruct (bool_decide (e = ENOSYS)); apply Hfin. }
  destruct (negb (bool_decide (vs_shutdown s = Running))).
  { by destruct (Hfin _ _ E) as (? & ? & -> & ? & ?). }
  destruct ((rq_type r =? T_OUT) || (rq_type r =? T_IN)).
  { destruct (build_inout_blocks r (inout_dir r) s) as [[s1 res] acc] eqn:Eb.
    apply build_inout_spec in Eb as (Hm & Hd & Hi & Hsh & _); [|done..].
    destruct res as [[|e]|]; [| |done].
    - injection E as <- <-. split_and!; try done; [|by rewrite Hd]. cbn. rewrite mapped_chain_of, Hm.
      apply Permutation_app_comm.
    - set (p := Pending_inout r (chain_of acc) (inout_dir r)) in *.
      assert (s' = destroy_pending p (handle_request_error e r s1)) as -> by congruence.
      assert (o = None) as -> by congruence.
      destruct (error_frame e r s1) as (Em & Ei & Es & Ed).
      destruct (destroy_frame p (handle_request_error e r s1)) as (Dd & Di & Ds).
      rewrite Di, Ds, Dd, Ei, Es, Ed, Hd, fmap_app. split_and!; [done..| |done].
      apply destroy_maps. rewrite Em, Hm. cbn. rewrite mapped_chain_of.
      apply Permutation_app_comm. }
  destruct (rq_type r =? T_FLUSH).
  { destruct (check_flush_request r s); [by injection E as <- <-|].
    by destruct (Herr _ E) as (? & ? & -> & ? & ?). }
  destruct ((rq_type r =? T_WRITE_ZEROES) || (rq_type r =? T_DISCARD)).
  { destruct (build_discard_cmd_blocks r s) as [[[|e]|] acc]; [by injection E as <- <-| |done].
    by destruct (Herr _ E) as (? & ? & -> & ? & ?). }
  by destruct (Hfin _ _ E) as (? & ? & -> & ? & ?).
Qed.

(** ** The life of requests *)

(** A client with the requests the scheduler keeps pending, the requests at the
    device, the ids of all requests started, and those dropped without an
    answer. *)
Record system := {
  sy_client : Client_state;
  sy_pending : list Pending_request;
  sy_flying : list Pending_request;
  sy_started : list Z;
  sy_dropped : list Z;
}.

Definition pid (p : Pending_request) : Z := rq_id (pending_request_of p).

(** What can happen: a request is started; the scheduler handles, fails or drops
    a pending one; the device completes one; the shutdown state changes. *)
Inductive sys_step : system -> system -> Prop :=
  | Sys_start r s s' o pd fl st dr :
      events_ok (rq_events r) -> 512 <= sector_size (vs_dev s) < 2 ^ 32 ->
      start_request r s = (s', Ret o) ->
      sys_step
        {| sy_client := s; sy_pending := pd; sy_flying := fl; sy_started := st; sy_dropped := dr |}
        {| sy_client := s'; sy_pending := option_list o ++ pd; sy_flying := fl;
           sy_started := rq_id r :: st; sy_dropped := dr |}
  | Sys_issue p s s' pd1 pd2 fl st dr :
      handle_request p s = (s', Ok) ->
      sys_step
        {| sy_client := s; sy_pending := pd1 ++ p :: pd2; sy_flying := fl;
           sy_started := st; sy_dropped := dr |}
        {| sy_client := s'; sy_pending := pd1 ++ pd2; sy_flying := p :: fl;
           sy_started := st; sy_dropped := dr |}
  | Sys_busy p s s' pd1 pd2 fl st dr :
      handle_request p s = (s', Err EBUSY) ->
      sys_step
        {| sy_client := s; sy_pending := pd1 ++ p :: pd2; sy_flying := fl;
           sy_started := st; sy_dropped := dr |}
        {| sy_client := s'; sy_pending := pd1 ++ p :: pd2; sy_flying := fl;
           sy_started := st; sy_dropped := dr |}
  | Sys_error p e s s' pd1 pd2 fl st dr :
      handle_request p s = (s', Err e) -> e <> EBUSY ->
      sys_step
        {| sy_client := s; sy_pending := pd1 ++ p :: pd2; sy_flying := fl;
           sy_started := st; sy_dropped := dr |}
        {| sy_client := destroy_pending p s'; sy_pending := pd1 ++ pd2; sy_flying := fl;
           sy_started := st; sy_dropped := dr |}
  | Sys_fail p s pd1 pd2 fl st dr :
      sys_step
        {| sy_client := s; sy_pending := pd1 ++ p :: pd2; sy_flying := fl;
           sy_started := st; sy_dropped := dr |}
        {| sy_client := destroy_pending p (fail_request p s); sy_pending := pd1 ++ pd2;
           sy_flying := fl; sy_started := st; sy_dropped := dr |}
  | Sys_drop p s pd1 pd2 fl st dr :
      vs_shutdown s = Client_gone ->
      sys_step
        {| sy_client := s; sy_pending := pd1 ++ p :: pd2; sy_flying := fl;
           sy_started := st; sy_dropped := dr |}
        {| sy_client := destroy_pending p s; sy_pending := pd1 ++ pd2; sy_flying := fl;
           sy_started := st; sy_dropped := pid p :: dr |}
  | Sys_finish p error sz s pd fl1 fl2 st dr :
      sys_step
        {| sy_client := s; sy_pending := pd; sy_flying := fl1 ++ p :: fl2;
           sy_started := st; sy_dropped := dr |}
        {| sy_client := task_finished p error sz s; sy_pending := pd; sy_flying := fl1 ++ fl2;
           sy_started := st;
           sy_dropped := if bool_decide (vs_shutdown s = Client_gone) then pid p :: dr else dr |}
  | Sys_shutdown t s s' inv pd fl st dr :
      shutdown_event t s = Ret (s', inv) ->
      sys_step
        {| sy_client := s; sy_pending := pd; sy_flying := fl; sy_started := st; sy_dropped := dr |}
        {| sy_client := s'; sy_pending := pd; sy_flying := fl; sy_started := st; sy_dropped := dr |}.

(** A client without any requests. *)
Definition sys_init (y : system) : Prop :=
  sy_pending y = [] /\ sy_flying y = [] /\ sy_started y = [] /\ sy_dropped y = [] /\
  vs_maps (sy_client y) = [] /\ vs_done (sy_client y) = [] /\ vs_in_flight (sy_client y) = 0.

(** The mappings held by a list of requests. *)
Definition held (l : list Pending_request) : list (Z * Z) := mjoin (holds <$> l).

(** The mappings in place are those of the pending requests and the requests at
    the device; every request started is in exactly one place; the counter of
    the client counts the requests at the device; requests are dropped only
    when the client is gone. *)
Definition sys_ok (y : system) : Prop :=
  vs_maps (sy_client y) ≡ₚ held (sy_pending y) ++ held (sy_flying y) /\
  sy_started y ≡ₚ (pid <$> sy_pending y) ++ (pid <$> sy_flying y)
                   ++ done_ids (sy_client y) ++ sy_dropped y /\
  vs_in_flight (sy_client y) = u32 (zlen (sy_flying y)) /\
  (sy_dropped y = [] \/ vs_shutdown (sy_client y) = Client_gone).

Lemma held_app l1 l2 : held (l1 ++ l2) = held l1 ++ held l2.
Proof.
  induction l1 as [|p l1 IH]; [done|].
  change (holds p ++ held (l1 ++ l2) = (holds p ++ held l1) ++ held l2).
  by rewrite IH, app_assoc.
Qed.

Lemma held_cons p l : held (p :: l) = holds p ++ held l.
Proof. done. Qed.

Lemma done_ids_fail r z st s : done_ids (finalize_request r z st s) = done_ids s ++ [rq_id r].
Proof. unfold done_ids. cbn. by rewrite fmap_app. Qed.

Lemma handle_request_spec p s s' res :
  handle_request p s = (s', res) ->
  vs_maps s' = vs_maps s /\ vs_shutdown s' = vs_shutdown s /\
  match res with
  | Ok => vs_in_flight s' = u32 (vs_in_flight s + 1) /\ done_ids s' = done_ids s
  | Err e => vs_in_flight s' = vs_in_flight s /\
      done_ids s' = if bool_decide (e = EBUSY) then done_ids s else done_ids s ++ [pid p]
  end.
Proof.
  unfold handle_request. destruct (issue p (vs_dev s)) as [dev r]. intros E.
  destruct r as [|e]; injection E as <- <-; [done|].
  unfold handle_request_error. destruct (bool_decide (e = EBUSY)); [done|].
  destruct (bool_decide (e = ENOSYS)); rewrite done_ids_fail; done.
Qed.

(** The shutdown state never leaves [Client_gone]; nothing else of interest
    changes. *)
Lemma shutdown_event_spec t s s' inv :
  shutdown_event t s = Ret (s', inv) ->
  vs_maps s' = vs_maps s /\ vs_done s' = vs_done s /\ vs_in_flight s' = vs_in_flight s /\
  (vs_shutdown s = Client_gone -> vs_shutdown s' = Client_gone).
Proof.
  unfold shutdown_event. intros E. case_bool_decide as Hg; [by injection E as <- _|].
  do 2 (split_if; [done|]).
  destruct (bool_decide (t = Client_shutdown)), (bool_decide (t = Running));
    injection E as <- _; by split_and!.
Qed.

(** Permutations of the lists in [sys_ok]. *)
Ltac sys_perm :=
  rewrite ?fmap_app, ?fmap_cons, ?held_app, ?held_cons; cbn [fmap list_fmap app];
  solve_Permutation.

(** A pending request leaves the list, answered: its mappings are released and
    its id is with the finished ones. *)
Lemma sys_answered p s s' pd1 pd2 fl st dr :
  sys_ok {| sy_client := s; sy_pending := pd1 ++ p :: pd2; sy_flying := fl;
            sy_started := st; sy_dropped := dr |} ->
  vs_maps s' = vs_maps s -> vs_shutdown s' = vs_shutdown s ->
  vs_in_flight s' = vs_in_flight s -> done_ids s' = done_ids s ++ [pid p] ->
  sys_ok {| sy_client := destroy_pending p s'; sy_pending := pd1 ++ pd2; sy_flying := fl;
            sy_started := st; sy_dropped := dr |}.
Proof.
  intros (Hm & Hs & Hf & Hd) Em Es Ef Ed. destruct (destroy_frame p s') as (Dd & Di & Ds).
  unfold sys_ok in *. cbn [sy_client sy_pending sy_flying sy_started sy_dropped] in *.
  unfold done_ids in *. rewrite Dd, Di, Ds, Ef, Es, Ed.
  split_and!; [| |done|done].
  - apply destroy_maps. rewrite Em, Hm. sys_perm.
  - rewrite Hs. sys_perm.
Qed.

(** A completed request leaves the device. *)
Lemma sys_finished p error sz s pd fl1 fl2 st dr :
  sys_ok {| sy_client := s; sy_pending := pd; sy_flying := fl1 ++ p :: fl2;
            sy_started := st; sy_dropped := dr |} ->
  sys_ok {| sy_client := task_finished p error sz s; sy_pending := pd; sy_flying := fl1 ++ fl2;
            sy_started := st;
            sy_dropped := if bool_decide (vs_shutdown s = Client_gone) then pid p :: dr else dr |}.
Proof.
  intros (Hm & Hs & Hf & Hd). unfold task_finished. cbn zeta.
  match goal with |- context [destroy_pending p ?x] => set (s2 := x) end.
  destruct (destroy_frame p s2) as (Dd & Di & Ds).
  unfold sys_ok, done_ids in *. cbn [sy_client sy_pending sy_flying sy_started sy_dropped] in *.
  rewrite Dd, Di, Ds.
  assert (vs_maps s2 = vs_maps s /\ vs_shutdown s2 = vs_shutdown s /\
          vs_in_flight s2 = u32 (vs_in_flight s - 1)) as (Em & Es & Ef)
    by (unfold s2; cbn; by destruct (bool_decide _)).
  rewrite Es, Ef. split_and!.
  - apply destroy_maps. rewrite Em, Hm. sys_perm.
  - rewrite Hs. unfold s2. cbn [vs_shutdown vs_set_in_flight].
    case_bool_decide; cbn [vs_done vs_set_in_flight finalize_request]; sys_perm.
  - rewrite Hf, uwrap_sub_l. f_equal. unfold zlen. rewrite !length_app. cbn. lia.
  - case_bool_decide; [by right|]. destruct Hd; [by left|by right].
Qed.

Lemma sys_step_ok y y' : sys_step y y' -> sys_ok y -> sys_ok y'.
Proof.
  destruct 1 as [r s s' o pd fl st dr Hev Hsec E|p s s' pd1 pd2 fl st dr E
    |p s s' pd1 pd2 fl st dr E|p e s s' pd1 pd2 fl st dr E Hne|p s pd1 pd2 fl st dr
    |p s pd1 pd2 fl st dr Hg|p error sz s pd fl1 fl2 st dr|t s s' inv pd fl st dr E];
    intros Hok.
  - destruct Hok as (Hm & Hs & Hf & Hd). apply start_request_spec in E as (Ei & Es & Ho); [|done..].
    unfold sys_ok in *. cbn [sy_client sy_pending sy_flying sy_started sy_dropped] in *.
    rewrite Ei, Es. destruct o as [p|]; cbn [option_list] in *.
    + destruct Ho as (Hp & Hm' & ->). unfold pid in *.
      split_and!; [rewrite Hm', Hm; sys_perm| |done|done].
      rewrite Hs, <- Hp. sys_perm.
    + destruct Ho as (Hm' & ->). split_and!; [by rewrite Hm'| |done|done]. rewrite Hs. sys_perm.
  - destruct Hok as (Hm & Hs & Hf & Hd). apply handle_request_spec in E as (Em & Es & Ef & Ed).
    unfold sys_ok in *. cbn [sy_client sy_pending sy_flying sy_started sy_dropped] in *.
    rewrite Em, Es, Ef, Ed, Hf.
    split_and!; [rewrite Hm; sys_perm|rewrite Hs; sys_perm| |done].
    rewrite uwrap_add_l. f_equal. unfold zlen. cbn [length]. lia.
  - apply handle_request_spec in E as (Em & Es & Ef & Ed). cbn in Ed.
    unfold sys_ok in *. cbn [sy_client sy_pending sy_flying sy_started sy_dropped] in *.
    by rewrite Em, Es, Ef, Ed.
  - apply handle_request_spec in E as (Em & Es & Ef & Ed).
    rewrite bool_decide_false in Ed by done. by eapply sys_answered.
  - eapply sys_answered; [done|done..|]. apply done_ids_fail.
  - destruct Hok as (Hm & Hs & Hf & Hd). destruct (destroy_frame p s) as (Dd & Di & Ds).
    unfold sys_ok, done_ids in *. cbn [sy_client sy_pending sy_flying sy_started sy_dropped] in *.
    rewrite Dd, Di, Ds. split_and!; [|rewrite Hs; sys_perm|done|by right].
    apply destroy_maps. rewrite Hm. sys_perm.
  - by apply sys_finished.
  - destruct Hok as (Hm & Hs & Hf & Hd). apply shutdown_event_spec in E as (Em & Ed & Ef & Eg).
    unfold sys_ok, done_ids in *. cbn [sy_client sy_pending sy_flying sy_started sy_dropped] in *.
    rewrite Em, Ed, Ef. split_and!; [done..|]. destruct Hd; auto.
Qed.

Lemma sys_reach_ok y0 y : sys_init y0 -> rtc sys_step y0 y -> sys_ok y.
Proof.
  intros (Hp & Hf & Hs & Hd & Hm & Hn & Hi) Hr.
  assert (sys_ok y0) as Hok.
  { unfold sys_ok, done_ids. rewrite Hp, Hf, Hs, Hd, Hm, Hn, Hi.
    split_and!; [done..|by left]. }
  clear Hp Hf Hs Hd Hm Hn Hi. induction Hr as [|y1 y2 y3 Hs Hr IH]; [done|]. apply IH. by eapply sys_step_ok.
Qed.


(**  [busy], which decides whether a dead client may be removed, is false
    exactly when no request is at the device. *)
Theorem busy_iff_flying y0 y :
  sys_init y0 -> rtc sys_step y0 y -> zlen (sy_flying y) < 2 ^ 32 ->
  busy (sy_client y) = false <-> sy_flying y = [].
Proof.
  intros Hi Hr Hl. destruct (sys_reach_ok y0 y Hi Hr) as (_ & _ & Hf & _).
  unfold busy. rewrite Hf, uwrap_small by (unfold in_u, zlen in *; lia).
  rewrite negb_false_iff, Z.eqb_eq. unfold zlen. destruct (sy_flying y); cbn; split; try done; lia.
Qed.

(** C39.  A transfer that the client accepts lies on the device: the blocks add
    up to sectors between the (aligned) first sector and the capacity, there
    are no more of them than the device takes, and writes are accepted only for
    a device that was not offered read-only. *)
Theorem inout_in_bounds r s s' r' blocks dir :
  events_ok (rq_events r) -> 512 <= sector_size (vs_dev s) < 2 ^ 32 ->
  start_request r s = (s', Ret (Some (Pending_inout r' blocks dir))) ->
  0 < sum_sectors blocks ->
  (dir = To_device -> feature F_RO (vs_host_features s) = false) /\
  rq_sector r / (sector_size (vs_dev s) / 512) + sum_sectors blocks
    <= capacity (vs_dev s) / sector_size (vs_dev s) /\
  zlen blocks <= max_segments (vs_dev s).
Proof.
  intros Hev Hsec E Hpos. unfold start_request in E.
  destruct (negb _); [done|]. destruct ((rq_type r =? T_OUT) || (rq_type r =? T_IN)).
  - destruct (build_inout_blocks r (inout_dir r) s) as [[s1 res] acc] eqn:Eb.
    apply build_inout_spec in Eb as (_ & _ & _ & _ & Hb); [|done..].
    destruct res as [[|e]|]; [|done..]. injection E as <- <- <- <-.
    destruct acc as [|b acc]; [done|]. cbn [chain_of] in *.
    destruct (Hb eq_refl) as (Hro & Hcap & _ & Hseg); [done|]. split_and!; [|done..].
    unfold inout_dir. destruct (Z.eqb_spec (rq_type r) T_OUT); intros Ht; [by apply Hro|done].
  - destruct (rq_type r =? T_FLUSH); [by destruct (check_flush_request r s)|].
    destruct (_ || _); [|done]. by destruct (build_discard_cmd_blocks r s) as [[[]|] ?].
Qed.

(** ** Discard and write-zeroes commands *)

(** The block lies within [sectors] and within the limit of its command. *)
Definition cmd_block_ok (limit sectors : Z) (b : Inout_block) : Prop :=
  0 <= sector b /\ 0 <= num_sectors b <= limit /\ sector b + num_sectors b <= sectors.

Definition cmd_limit (discard : bool) (di : Discard_info) : Z :=
  if discard then max_discard_sectors di else max_write_zeroes_sectors di.

(** Segments as they are read from guest memory. *)
Definition segs_ok (evs : list block_event) : Prop :=
  Forall (fun e => match e with
    | Blk b => 0 <= db_len b /\ Forall (fun p => 0 <= ds_sector p /\ 0 <= ds_num_sectors p) (db_segs b)
    | _ => True end) evs.

Lemma discard_segs_ok disc di sps sectors l acc acc' :
  0 < sps -> Forall (fun p => 0 <= ds_sector p /\ 0 <= ds_num_sectors p) l ->
  Forall (cmd_block_ok (cmd_limit disc di) sectors) acc ->
  discard_segs disc di sps sectors l acc = (Ok, acc') ->
  Forall (cmd_block_ok (cmd_limit disc di) sectors) acc' /\ zlen acc' = zlen acc + zlen l.
Proof.
  intros Hsps Hl. revert acc. induction Hl as [|p l [Hp1 Hp2] Hl IH]; intros acc Ha E;
    cbn [discard_segs] in E.
  { injection E as <-. split; [done|]. unfold zlen. cbn. lia. }
  do 5 (split_if; [done|]).
  assert (0 <= ds_sector p / sps /\ 0 <= ds_num_sectors p / sps) as [Hq1 Hq2]
    by (split; apply Z.div_pos; lia).
  destruct disc; [split_if; [done|]|]; (split_if; [done|]);
    (apply IH in E as [Hf Hz]; [split; [done|unfold zlen in *; rewrite length_app in Hz;
      cbn [length] in *; lia]|]); apply Forall_app; (split; [done|]);
    (constructor; [|constructor]); unfold cmd_block_ok, cmd_limit; cbn; lia.
Qed.

Lemma build_discard_loop_ok disc di sps sectors max_seg evs seg acc acc' :
  0 < sps -> segs_ok evs -> Forall (cmd_block_ok (cmd_limit disc di) sectors) acc ->
  zlen acc <= seg <= max_seg ->
  build_discard_loop disc di sps sectors max_seg evs seg acc = (B_ret Ok, acc') ->
  Forall (cmd_block_ok (cmd_limit disc di) sectors) acc' /\ zlen acc' <= max_seg.
Proof.
  intros Hsps Hev. revert seg acc. induction Hev as [|e evs He Hev IH]; intros seg acc Ha Hs E;
    cbn [build_discard_loop] in E.
  { injection E as <-. split; [done|lia]. }
  destruct e as [b| |]; [|done..]. do 2 (split_if; [done|]). destruct He as [Hlen Hseg].
  destruct (discard_segs _ _ _ _ _ _) as [ret acc1] eqn:Ed. destruct ret; [|done].
  assert (0 <= db_len b / 16) by (apply Z.div_pos; lia).
  apply discard_segs_ok in Ed as [Ha1 Hz1]; [|done|by apply Forall_take|done].
  eapply IH, E; [done|]. unfold zlen in *. rewrite length_take in Hz1. lia.
Qed.

(**  A discard or write-zeroes command that the client accepts names only
    sectors of the device, no more of them per segment and no more segments
    than the device offers, and is accepted only for a device that was not
    offered read-only. *)
Theorem discard_in_bounds r s s' r' blocks :
  512 <= sector_size (vs_dev s) -> 0 <= capacity (vs_dev s) -> segs_ok (rq_events r) ->
  0 <= max_discard_seg (vs_di s) -> 0 <= max_write_zeroes_seg (vs_di s) ->
  0 <= max_discard_sectors (vs_di s) -> 0 <= max_write_zeroes_sectors (vs_di s) ->
  start_request r s = (s', Ret (Some (Pending_cmd r' blocks))) ->
  let disc := rq_type r =? T_DISCARD in
  feature F_RO (vs_host_features s) = false /\
  Forall (cmd_block_ok (cmd_limit disc (vs_di s))
            (capacity (vs_dev s) / sector_size (vs_dev s))) blocks /\
  zlen blocks <= Z.max 1 (if disc then max_discard_seg (vs_di s)
                          else max_write_zeroes_seg (vs_di s)).
Proof.
  intros Hsec Hcap Hev Hs1 Hs2 Hm1 Hm2 E disc. unfold start_request in E.
  destruct (negb _); [done|]. destruct ((rq_type r =? T_OUT) || (rq_type r =? T_IN)).
  { destruct (build_inout_blocks r (inout_dir r) s) as [[s1 res] acc]. by destruct res as [[|e]|]. }
  destruct (rq_type r =? T_FLUSH); [by destruct (check_flush_request r s)|].
  destruct (_ || _); [|done].
  destruct (build_discard_cmd_blocks r s) as [res acc] eqn:Eb.
  destruct res as [[|e]|]; [|done..]. injection E as <- <- <-.
  unfold build_discard_cmd_blocks in Eb.
  destruct (feature F_RO (vs_host_features s)); [done|].
  destruct (negb (rq_sector r =? 0)); [done|]. destruct (negb (feature _ _)); [done|].
  assert (0 <= capacity (vs_dev s) / sector_size (vs_dev s)) by (apply Z.div_pos; lia).
  fold disc in Eb. apply build_discard_loop_ok in Eb as [Hf Hz].
  - split; [done|]. destruct acc as [|b acc]; [|split; [done|cbn [chain_of]; destruct disc; lia]].
    cbn [chain_of]. split; [|unfold zlen; cbn; lia]. constructor; [|constructor].
    unfold cmd_block_ok, cmd_limit. cbn. destruct disc; lia.
  - apply Z.div_str_pos. lia.
  - done.
  - constructor.
  - unfold zlen. cbn. destruct disc; lia.
Qed.

End Virtio_client.

Arguments Client_state D : clear implicits.

(** ** A client of a RAM disk *)

Module Client_example.

#[local] Existing Instance Part_example.ram_device.

#[local] Instance ram_static : Device_static (D := Part_example.ram).
Proof. by constructor. Qed.

Definition di : Discard_info :=
  {| max_discard_sectors := 100; max_discard_seg := 2; discard_sector_alignment := 1;
     max_write_zeroes_sectors := 0; max_write_zeroes_seg := 0; write_zeroes_may_unmap := false |}.

Definition s0 : Client_state Part_example.ram :=
  {| vs_dev := Part_example.r0; vs_shutdown := Running; vs_di := di;
     vs_host_features := Z.shiftl 1 F_DISCARD; vs_negotiated := Z.shiftl 1 F_DISCARD;
     vs_writeback := 0; vs_in_flight := 0; vs_maps := []; vs_done := [] |}.

(** A write of two blocks of 8 sectors and 1 sector at sector 990. *)
Definition blk (addr len : Z) : block_event :=
  Blk {| db_mem := 1; db_delta := 0; db_addr := addr; db_len := len; db_segs := [] |}.

Definition write : Request :=
  {| rq_id := 7; rq_type := T_OUT; rq_sector := 990; rq_events := [blk 4096 4096; blk 65536 512] |}.

Definition write_blocks : chain :=
  [{| dma_addr := 0; virt_addr := 4096; sector := 0; num_sectors := 8; flags := 0 |};
   {| dma_addr := 0; virt_addr := 65536; sector := 0; num_sectors := 1; flags := 0 |}].

Definition pending : Pending_request := Pending_inout write write_blocks To_device.

Definition y (s : Client_state Part_example.ram) pd fl st : system :=
  {| sy_client := s; sy_pending := pd; sy_flying := fl; sy_started := st; sy_dropped := [] |}.

Definition s1 := (start_request write s0).1.
Definition s2 := (handle_request pending s1).1.
Definition s3 := task_finished pending 0 4608 s2.

Lemma start_write : start_request write s0 = (s1, Ret (Some pending)).
Proof. reflexivity. Qed.

Lemma write_events : events_ok (rq_events write).
Proof. constructor; [done|]. constructor; [done|]. constructor. Qed.

Lemma run_flying : rtc sys_step (y s0 [] [] []) (y s2 [] [pending] [7]).
Proof.
  eapply rtc_l; [apply (Sys_start write s0 s1 (Some pending) [] [] [] [] write_events);
    [done|reflexivity]|].
  eapply rtc_l; [exact (Sys_issue pending s1 s2 [] [] [] [7] [] eq_refl)|]. apply rtc_refl.
Qed.

Lemma run_done : rtc sys_step (y s0 [] [] []) (y s3 [] [] [7]).
Proof.
  etrans; [apply run_flying|].
  eapply rtc_l; [exact (Sys_finish pending 0 4608 s2 [] [] [] [7] [])|]. apply rtc_refl.
Qed.

Lemma init_ok : sys_init (y s0 [] [] []).
Proof. by unfold sys_init. Qed.


Lemma busy_iff_flying_witness : busy s2 = false <-> [pending] = [].
Proof. refine (busy_iff_flying _ _ init_ok run_flying _). reflexivity. Defined.

Lemma inout_in_bounds_witness :
  990 / (512 / 512) + sum_sectors write_blocks <= 512000 / 512 /\ zlen write_blocks <= 16.
Proof.
  refine (proj2 (inout_in_bounds write s0 s1 write write_blocks To_device write_events _
    start_write _)); by_eval.
Defined.

Definition trim : Request :=
  {| rq_id := 8; rq_type := T_DISCARD; rq_sector := 0;
     rq_events := [Blk {| db_mem := 1; db_delta := 0; db_addr := 0; db_len := 16;
       db_segs := [{| ds_sector := 900; ds_num_sectors := 100; ds_flags := 0 |}] |}] |}.

Definition trim_blocks : chain :=
  [{| dma_addr := 0; virt_addr := 0; sector := 900; num_sectors := 100; flags := 0 |}].

Lemma discard_in_bounds_witness :
  start_request trim s0 = (s0, Ret (Some (Pending_cmd trim trim_blocks))) /\
  Forall (cmd_block_ok 100 1000) trim_blocks.
Proof.
  split; [reflexivity|].
  refine (proj1 (proj2 (discard_in_bounds trim s0 s0 trim trim_blocks _ _ _ _ _ _ _ _)));
    try (cbn; lia); [|reflexivity].
  constructor; [|constructor]. split; [cbn; lia|]. constructor; [cbn; lia|constructor].
Defined.

End Client_example.
