(* ===== verification/GccLib.v ===== *)
(** * Compiler support routines of the boot loader

    [pkg/bootstrap/server/src/gcc_lib.c]: 64-bit division, 64-bit shifts on
    32-bit halves and bit counting, as the compiler calls them on machines that
    lack the instructions.  The loops carry fuel; the theorems show that the
    width of the operands is enough of it. *)

From S2P Require Import Prelude.

(** ** Division *)

(** [struct ullmoddiv_t] *)
Record ullmoddiv_t := { md_div : Z; md_mod : Z }.

(** The first loop of [ullmoddiv]: shift the divisor up to the dividend. *)
Fixpoint scale_up (w : Z) (fuel : nat) (div s tmp : Z) : run (Z * Z) :=
  match fuel with
  | O => Fuel_out
  | S f =>
      if (Z.land s (Z.shiftl 1 (w - 1)) =? 0) && (s <? div)
      then scale_up w f div (uwrap w (Z.shiftl s 1)) (uwrap w (Z.shiftl tmp 1))
      else Ret (s, tmp)
  end.

(** The second loop: subtract the shifted divisor where it fits. *)
Fixpoint subtract_down (w : Z) (fuel : nat) (div s tmp i : Z) : run ullmoddiv_t :=
  match fuel with
  | O => Fuel_out
  | S f =>
      let '(div, i) := if s <=? div then (div -[w] s, Z.lor i tmp) else (div, i) in
      if div =? 0 then Ret {| md_div := i; md_mod := div |}
      else
        let tmp := Z.shiftr tmp 1 in
        if tmp =? 0 then Ret {| md_div := i; md_mod := div |}
        else subtract_down w f div (Z.shiftr s 1) tmp i
  end.

(** The code [ullmoddiv] and [umoddiv] share, at the width [w] of the operands. *)
Definition moddiv (w div s : Z) : run ullmoddiv_t :=
  if s =? 0 then Ret {| md_div := 0; md_mod := 0 |}
  else if div <? s then Ret {| md_div := 0; md_mod := div |}
  else
    '(s, tmp) ← scale_up w (Z.to_nat w) div s 1;
    subtract_down w (Z.to_nat w) div s tmp 0.

Definition ullmoddiv (div s : Z) : run ullmoddiv_t := moddiv 64 div s.
Definition umoddiv (div s : Z) : run ullmoddiv_t := moddiv 32 div s.

Definition umoddi3 (div s : Z) : run Z := md ← ullmoddiv div s; mret (md_mod md).
Definition udivdi3 (div s : Z) : run Z := md ← ullmoddiv div s; mret (md_div md).

(** The returned value and what [*r] holds afterwards; [None]: a null [r]. *)
Definition udivmoddi4 (div s : Z) (r : option Z) : run (Z * option Z) :=
  md ← ullmoddiv div s;
  mret (md_div md, match r with Some _ => Some (md_mod md) | None => None end).

(** ** Shifts *)

(** [union llval_t]: the two halves of a 64-bit value. *)
Record llval_t := { v_low : Z; v_high : Z }.

Definition ll_get (v : llval_t) : Z := v_high v * 2 ^ 32 + v_low v.
Definition ll_set (ll : Z) : llval_t :=
  {| v_low := u32 ll; v_high := s32 (Z.shiftr ll 32) |}.

Definition ashldi3 (val bits : Z) : Z :=
  let v := ll_set val in
  let v :=
    if 32 <=? bits then
      {| v_high := s32 (u32 (Z.shiftl (v_low v) (bits - 32))); v_low := 0 |}
    else if negb (bits =? 0) then
      {| v_high := s32 (Z.lor (u32 (s32 (Z.shiftl (v_high v) bits)))
                              (Z.shiftr (v_low v) (32 - bits)));
         v_low := u32 (Z.shiftl (v_low v) bits) |}
    else v in
  ll_get v.

Definition ashrdi3 (val bits : Z) : Z :=
  let v := ll_set val in
  let v :=
    if 32 <=? bits then
      {| v_low := u32 (Z.shiftr (v_high v) (bits - 32));
         v_high := Z.shiftr (v_high v) 31 |}
    else if negb (bits =? 0) then
      {| v_low := Z.lor (u32 (s32 (Z.shiftl (v_high v) (32 - bits))))
                        (Z.shiftr (v_low v) bits);
         v_high := Z.shiftr (v_high v) bits |}
    else v in
  ll_get v.

(** ** Bit counting *)

(** The loop of [__ffssi2] and [__ffsdi2]: [n] rounds are left, [i] is the
    loop variable. *)
Fixpoint ffs_loop (n : nat) (i val : Z) : Z :=
  match n with
  | O => 0
  | S m => if negb (Z.land val 1 =? 0) then i else ffs_loop m (i + 1) (Z.shiftr val 1)
  end.

Definition ffssi2 (val : Z) : Z := ffs_loop 32 1 val.
Definition ffsdi2 (val : Z) : Z := ffs_loop 64 1 val.

(** One [if] of [__ctzsi2]: drop [k] trailing zero bits. *)
Definition ctz_step (mask k : Z) '((val, c) : Z * Z) : Z * Z :=
  if Z.land val mask =? 0 then (Z.shiftr val k, c + k) else (val, c).

Definition ctzsi2 (val : Z) : Z :=
  if val =? 0 then 32
  else
    let st := (val, 0) in
    let st := ctz_step 0xffff 16 st in
    let st := ctz_step 0xff 8 st in
    let st := ctz_step 0xf 4 st in
    let '(val, c) := ctz_step 0x3 2 st in
    if Z.land val 0x1 =? 0 then c + 1 else c.

(** One [if] of [__clzsi2]: drop [k] leading zero bits. *)
Definition clz_step (mask k : Z) '((val, c) : Z * Z) : Z * Z :=
  if Z.land val mask =? 0 then (u32 (Z.shiftl val k), c + k) else (val, c).

Definition clzsi2 (val : Z) : Z :=
  if val =? 0 then 32
  else
    let st := (val, 0) in
    let st := clz_step 0xffff0000 16 st in
    let st := clz_step 0xff000000 8 st in
    let st := clz_step 0xf0000000 4 st in
    let '(val, c) := clz_step 0xc0000000 2 st in
    if Z.land val 0x80000000 =? 0 then c + 1 else c.

(** ** Lemmas on division *)

Lemma land_top_bit w s :
  0 < w -> in_u w s -> (Z.land s (Z.shiftl 1 (w - 1)) =? 0) = (s <? 2 ^ (w - 1)).
Proof.
  intros Hw [Hs0 Hs]. rewrite Z.shiftl_1_l.
  replace w with (Z.succ (w - 1)) in Hs by lia. rewrite Z.pow_succ_r in Hs by lia.
  set (k := w - 1) in *. assert (0 <= k) by lia. clearbody k.
  destruct (Z.ltb_spec s (2 ^ k)) as [Hlt|Hge].
  - apply Z.eqb_eq, Z.bits_inj_0. intros n. rewrite Z.land_spec.
    destruct (decide (n = k)) as [->|Hn].
    + destruct (decide (s = 0)) as [->|]; [by rewrite Z.bits_0|].
      rewrite (Z.bits_above_log2 s); [done|lia|]. apply Z.log2_lt_pow2; lia.
    + rewrite Z.pow2_bits_false by lia. apply andb_false_r.
  - apply Z.eqb_neq. intros E.
    assert (Hb : Z.testbit (Z.land s (2 ^ k)) k = false) by (rewrite E; apply Z.bits_0).
    rewrite Z.land_spec, Z.pow2_bits_true, andb_true_r in Hb by lia.
    rewrite Z.testbit_false in Hb by lia.
    assert (s / 2 ^ k = 1) as Hd; [|rewrite Hd in Hb; done].
    symmetry. apply (Z.div_unique _ _ _ (s - 2 ^ k)); lia.
Qed.

(** The first loop ends and leaves the divisor shifted by some [k], such that
    the dividend is below twice the result. *)
Lemma scale_up_spec w fuel div s k :
  0 < w -> in_u w div -> in_u w (s * 2 ^ k) -> 0 < s -> 0 <= k ->
  w - k <= Z.of_nat fuel -> (k < w) ->
  exists k', k <= k' < w /\ in_u w (s * 2 ^ k') /\ div < 2 * (s * 2 ^ k') /\
    scale_up w fuel div (s * 2 ^ k) (2 ^ k) = Ret (s * 2 ^ k', 2 ^ k').
Proof.
  intros Hw Hdiv. revert k. induction fuel as [|f IH]; intros k Hsk Hs Hk Hf Hkw; [lia|].
  assert (Hpow : 2 ^ w = 2 * 2 ^ (w - 1))
    by (rewrite <- Z.pow_succ_r by lia; f_equal; lia).
  assert (Hpk : 2 ^ Z.succ k = 2 * 2 ^ k) by (apply Z.pow_succ_r; lia).
  assert (1 <= 2 ^ k) by (pose proof (Z.pow_pos_nonneg 2 k); lia).
  cbn [scale_up]. rewrite land_top_bit by done. unfold in_u in *.
  destruct (Z.ltb_spec (s * 2 ^ k) (2 ^ (w - 1))) as [Htop|Htop]; cbn [andb];
    [|exists k; repeat split; lia].
  destruct (Z.ltb_spec (s * 2 ^ k) div) as [Hlt|Hge]; [|exists k; repeat split; lia].
  assert (Hk1 : 2 ^ k < 2 ^ (w - 1)) by nia.
  apply Z.pow_lt_mono_r_iff in Hk1; [|lia..].
  rewrite !Z.shiftl_mul_pow2, Z.pow_1_r by lia.
  rewrite !uwrap_small by (unfold in_u; nia).
  replace (s * 2 ^ k * 2) with (s * 2 ^ Z.succ k) by lia.
  replace (2 ^ k * 2) with (2 ^ Z.succ k) by lia.
  destruct (IH (Z.succ k)) as (k' & ? & ? & ? & E); [lia..|].
  exists k'. repeat split; try lia. exact E.
Qed.

(** [i | tmp] adds, since [i] holds only higher bits. *)
Lemma lor_high_pow2 a k : 0 <= k -> Z.lor (a * 2 ^ Z.succ k) (2 ^ k) = a * 2 ^ Z.succ k + 2 ^ k.
Proof.
  intros Hk. apply lor_disjoint; [lia|]. rewrite Z.pow_succ_r by lia.
  pose proof (Z.pow_pos_nonneg 2 k). lia.
Qed.

(** The second loop ends with quotient and remainder. *)
Lemma subtract_down_spec w n d s a div :
  (0 < s) -> in_u w (s * 2 ^ Z.of_nat n) -> in_u w div ->
  div < 2 * (s * 2 ^ Z.of_nat n) ->
  d = a * 2 ^ Z.succ (Z.of_nat n) * s + div -> 0 <= div ->
  forall fuel, (n < fuel)%nat ->
  subtract_down w fuel div (s * 2 ^ Z.of_nat n) (2 ^ Z.of_nat n)
    (a * 2 ^ Z.succ (Z.of_nat n))
  = Ret {| md_div := d / s; md_mod := d mod s |}.
Proof.
  intros Hs. revert a div. induction n as [|n IH]; intros a div Hsn Hdiv Hlt Hd Hpos
    [|f] Hf; try lia; cbn [subtract_down].
  - change (2 ^ Z.of_nat 0) with 1 in *. change (2 ^ Z.succ (Z.of_nat 0)) with 2 in *.
    rewrite Z.mul_1_r in *.
    change (Z.lor (a * 2) 1) with (Z.lor (a * 2 ^ Z.succ 0) (2 ^ 0)).
    rewrite lor_high_pow2 by lia. change (2 ^ Z.succ 0) with 2. change (2 ^ 0) with 1.
    change (Z.shiftr 1 1 =? 0) with true. unfold in_u in *.
    destruct (Z.leb_spec s div).
    + rewrite uwrap_small by (unfold in_u; lia).
      rewrite <- (Z.div_unique d s (a * 2 + 1) (div - s)) by lia.
      rewrite <- (Z.mod_unique d s (a * 2 + 1) (div - s)) by lia. by split_if.
    + rewrite <- (Z.div_unique d s (a * 2) div), <- (Z.mod_unique d s (a * 2) div) by lia.
      by split_if.
  - rewrite lor_high_pow2 by lia.
    assert (Hp : 2 ^ Z.of_nat (S n) = 2 * 2 ^ Z.of_nat n)
      by (rewrite Nat2Z.inj_succ; apply Z.pow_succ_r; lia).
    assert (Hp2 : 2 ^ Z.succ (Z.of_nat (S n)) = 2 * (2 * 2 ^ Z.of_nat n))
      by (rewrite Z.pow_succ_r by lia; lia).
    assert (Hp3 : 2 ^ Z.succ (Z.of_nat n) = 2 * 2 ^ Z.of_nat n)
      by (rewrite Z.pow_succ_r by lia; lia).
    rewrite Hp2. rewrite Hp in *. rewrite Hp2 in Hd. rewrite Hp3 in IH.
    set (p := 2 ^ Z.of_nat n) in *.
    assert (1 <= p) by (subst p; pose proof (Z.pow_pos_nonneg 2 (Z.of_nat n)); lia).
    rewrite !Z.shiftr_div_pow2, Z.pow_1_r by lia.
    replace (2 * p / 2) with p by (rewrite Z.mul_comm, Z.div_mul; lia).
    replace (s * (2 * p) / 2) with (s * p)
      by (replace (s * (2 * p)) with (s * p * 2) by lia; rewrite Z.div_mul; lia).
    replace (p =? 0) with false by lia. unfold in_u in *.
    destruct (Z.leb_spec (s * (2 * p)) div) as [Hle|Hgt].
    + rewrite uwrap_small by (unfold in_u; lia).
      replace (a * (2 * (2 * p)) + 2 * p) with ((2 * a + 1) * (2 * p)) by lia.
      destruct (Z.eqb_spec (div - s * (2 * p)) 0) as [E|E].
      * rewrite <- (Z.div_unique d s ((2 * a + 1) * (2 * p)) 0) by lia.
        rewrite <- (Z.mod_unique d s ((2 * a + 1) * (2 * p)) 0) by lia. by rewrite E.
      * apply IH; try lia.
    + replace (a * (2 * (2 * p))) with ((2 * a) * (2 * p)) by lia.
      destruct (Z.eqb_spec div 0) as [E|E].
      * rewrite <- (Z.div_unique d s ((2 * a) * (2 * p)) 0) by lia.
        rewrite <- (Z.mod_unique d s ((2 * a) * (2 * p)) 0) by lia. by rewrite E.
      * apply IH; try lia.
Qed.

Lemma moddiv_spec w div s :
  0 < w -> in_u w div -> in_u w s ->
  moddiv w div s =
    Ret (if s =? 0 then {| md_div := 0; md_mod := 0 |}
         else {| md_div := div / s; md_mod := div mod s |}).
Proof.
  intros Hw Hd Hs. unfold moddiv. destruct (Z.eqb_spec s 0) as [->|Hs0]; [done|].
  pose proof Hd as Hd'. pose proof Hs as Hs'. unfold in_u in Hd', Hs'.
  destruct (Z.ltb_spec div s).
  { by rewrite Z.div_small, Z.mod_small by lia. }
  destruct (scale_up_spec w (Z.to_nat w) div s 0) as (k & Hk & Hsk & Hlt & E);
    [rewrite ?Z.pow_0_r, ?Z.mul_1_r; first [done | lia] ..|].
  rewrite Z.pow_0_r, Z.mul_1_r in E. rewrite E. cbn [mbind run_bind].
  rewrite <- (Z2Nat.id k) in Hsk, Hlt |- * by lia.
  apply (subtract_down_spec w (Z.to_nat k) div s 0 div); first [done | lia].
Qed.

(** 64-bit division on 32-bit machines: [__udivdi3], [__umoddi3] and
    [__udivmoddi4] end, and give quotient and remainder of the operands; a
    division by zero gives 0 for both.  [__udivmoddi4] writes the remainder
    exactly when [r] is not null.  The 32-bit [umoddiv] does the same for
    32-bit operands. *)
Theorem udivmod_correct div s r :
  in_u 64 div -> in_u 64 s ->
  udivdi3 div s = Ret (if s =? 0 then 0 else div / s) /\
  umoddi3 div s = Ret (if s =? 0 then 0 else div mod s) /\
  udivmoddi4 div s r =
    Ret (if s =? 0 then 0 else div / s,
         (fun _ => if s =? 0 then 0 else div mod s) <$> r) /\
  (in_u 32 div -> in_u 32 s ->
   umoddiv div s = Ret (if s =? 0 then {| md_div := 0; md_mod := 0 |}
                        else {| md_div := div / s; md_mod := div mod s |})).
Proof.
  intros Hd Hs. unfold udivdi3, umoddi3, udivmoddi4, ullmoddiv, umoddiv.
  repeat split; [..|by intros; apply moddiv_spec];
    rewrite moddiv_spec by (done || lia); by destruct (s =? 0), r.
Qed.

Lemma udivmod_correct_witness :
  udivmoddi4 (2 ^ 64 - 1) 10 (Some 7) = Ret (1844674407370955161, Some 5).
Proof.
  refine (proj1 (proj2 (proj2 (udivmod_correct (2 ^ 64 - 1) 10 (Some 7) _ _)))); by_eval.
Defined.

(** ** Lemmas on shifts *)


Lemma ll_set_halves val :
  - 2 ^ 63 <= val < 2 ^ 63 ->
  exists h l, ll_set val = {| v_low := l; v_high := h |} /\
    val = h * 2 ^ 32 + l /\ 0 <= l < 2 ^ 32 /\ - 2 ^ 31 <= h < 2 ^ 31.
Proof.
  intros Hv. exists (val / 2 ^ 32), (val mod 2 ^ 32). unfold ll_set.
  assert (- 2 ^ 31 <= val / 2 ^ 32 < 2 ^ 31) as Hh.
  { split; [apply Z.div_le_lower_bound; lia|apply Z.div_lt_upper_bound; lia]. }
  rewrite Z.shiftr_div_pow2, swrap_small by (lia || exact Hh).
  pose proof (Z.div_mod val (2 ^ 32)). pose proof (Z.mod_pos_bound val (2 ^ 32)).
  split; [done|lia].
Qed.

(** The union put together again after the halves were computed modulo [2 ^ 32]. *)
Lemma ll_get_cong x h l k :
  0 <= l < 2 ^ 32 -> x = (h + k * 2 ^ 32) * 2 ^ 32 + l ->
  s64 x = ll_get {| v_low := l; v_high := s32 h |}.
Proof.
  intros Hl ->. unfold ll_get. cbn [v_low v_high].
  destruct (swrap_cong 32 h) as [j Hj]; [lia|]. pose proof (swrap_range 32 h).
  apply (swrap_unique 64 _ _ (k + j)); lia.
Qed.

Lemma ashldi3_spec val bits :
  - 2 ^ 63 <= val < 2 ^ 63 -> 0 <= bits <= 63 -> ashldi3 val bits = s64 (Z.shiftl val bits).
Proof.
  intros Hv Hb. unfold ashldi3.
  destruct (ll_set_halves val Hv) as (h & l & -> & E & Hl & Hh). cbn [v_low v_high].
  symmetry. destruct (Z.leb_spec 32 bits); [|destruct (Z.eqb_spec bits 0) as [->|]; cbn [negb]].
  - rewrite !Z.shiftl_mul_pow2 by lia.
    replace (2 ^ bits) with (2 ^ 32 * 2 ^ (bits - 32))
      by (rewrite <- Z.pow_add_r by lia; f_equal; lia).
    set (q := 2 ^ (bits - 32)). pose proof (Z.div_mod (l * q) (2 ^ 32)).
    apply (ll_get_cong _ _ _ (h * q + l * q / 2 ^ 32)); [lia|]. subst val. unfold uwrap. lia.
  - rewrite Z.shiftl_0_r, swrap_small by lia. exact E.
  - rewrite !Z.shiftl_mul_pow2, Z.shiftr_div_pow2, uwrap_swrap by lia.
    set (q := 2 ^ bits). set (r := 2 ^ (32 - bits)).
    assert (Hqr : q * r = 2 ^ 32) by (subst q r; rewrite <- Z.pow_add_r by lia; f_equal; lia).
    assert (0 < q /\ 0 < r) by (subst q r; split; apply Z.pow_pos_nonneg; lia).
    assert (Hlr : 0 <= l / r < q).
    { split; [apply Z.div_pos; lia|apply Z.div_lt_upper_bound; lia]. }
    assert (Hh' : u32 (h * q) = (h mod r) * q).
    { unfold uwrap. rewrite <- Hqr, (Z.mul_comm q r). apply Z.mul_mod_distr_r; lia. }
    assert (Hl' : u32 (l * q) = (l mod r) * q).
    { unfold uwrap. rewrite <- Hqr, (Z.mul_comm q r). apply Z.mul_mod_distr_r; lia. }
    assert (Hor : Z.lor ((h mod r) * q) (l / r) = (h mod r) * q + l / r)
      by (apply lor_disjoint; fold q; lia).
    rewrite Hh', Hor.
    pose proof (Z.div_mod h r). pose proof (Z.div_mod l r).
    apply (ll_get_cong _ _ _ (h / r)); [apply uwrap_range; lia|]. rewrite Hl', E.
    rewrite <- Hqr in *. nia.
Qed.

Lemma ashrdi3_spec val bits :
  - 2 ^ 63 <= val < 2 ^ 63 -> 0 <= bits <= 63 -> ashrdi3 val bits = Z.shiftr val bits.
Proof.
  intros Hv Hb. unfold ashrdi3.
  destruct (ll_set_halves val Hv) as (h & l & -> & E & Hl & Hh). cbn [v_low v_high].
  destruct (Z.leb_spec 32 bits); [|destruct (Z.eqb_spec bits 0) as [->|]; cbn [negb]];
    unfold ll_get; cbn [v_low v_high].
  - replace (Z.shiftr val bits) with (Z.shiftr h (bits - 32)).
    2:{ replace h with (Z.shiftr val 32).
        - rewrite Z.shiftr_shiftr by lia. f_equal. lia.
        - rewrite Z.shiftr_div_pow2 by lia. symmetry. apply (Z.div_unique _ _ _ l); lia. }
    rewrite !Z.shiftr_div_pow2 by lia.
    assert (Hp : 1 <= 2 ^ (bits - 32)) by (pose proof (Z.pow_pos_nonneg 2 (bits - 32)); lia).
    destruct (Z.lt_ge_cases h 0).
    + replace (h / 2 ^ 31) with (-1) by (apply (Z.div_unique _ _ _ (h + 2 ^ 31)); lia).
      rewrite uwrap_under; [lia|].
      split; [apply Z.div_le_lower_bound; nia|apply Z.div_lt_upper_bound; lia].
    + rewrite (Z.div_small h (2 ^ 31)), uwrap_small; [lia| |lia].
      split; [apply Z.div_pos; lia|apply Z.div_lt_upper_bound; nia].
  - rewrite Z.shiftr_0_r. lia.
  - rewrite uwrap_swrap, Z.shiftl_mul_pow2, !Z.shiftr_div_pow2 by lia.
    set (q := 2 ^ bits). set (r := 2 ^ (32 - bits)).
    assert (Hqr : q * r = 2 ^ 32) by (subst q r; rewrite <- Z.pow_add_r by lia; f_equal; lia).
    assert (0 < q /\ 0 < r) by (subst q r; split; apply Z.pow_pos_nonneg; lia).
    assert (Hh' : u32 (h * r) = (h mod q) * r).
    { unfold uwrap. rewrite <- Hqr. apply Z.mul_mod_distr_r; lia. }
    assert (Hlq : 0 <= l / q < r).
    { split; [apply Z.div_pos; lia|apply Z.div_lt_upper_bound; lia]. }
    assert (Hor : Z.lor ((h mod q) * r) (l / q) = (h mod q) * r + l / q)
      by (apply lor_disjoint; fold r; lia).
    rewrite Hh', Hor.
    pose proof (Z.div_mod h q). pose proof (Z.div_mod l q).
    apply (Z.div_unique _ _ _ (l mod q)); [pose proof (Z.mod_pos_bound l q); lia|].
    rewrite E, <- Hqr. nia.
Qed.

(** 64-bit shifts on 32-bit machines: on the documented range of shift
    counts, [__ashldi3] is the left shift modulo [2 ^ 64] as a signed value and
    [__ashrdi3] the arithmetic right shift. *)
Theorem shifts_correct val bits :
  - 2 ^ 63 <= val < 2 ^ 63 -> 0 <= bits <= 63 ->
  ashldi3 val bits = s64 (Z.shiftl val bits) /\ ashrdi3 val bits = Z.shiftr val bits.
Proof. intros. split; [by apply ashldi3_spec|by apply ashrdi3_spec]. Qed.

Lemma shifts_correct_witness :
  ashldi3 (- 5) 62 = - 2 ^ 62 /\ ashrdi3 (- 5) 1 = - 3.
Proof.
  split.
  - refine (eq_trans (proj1 (shifts_correct (- 5) 62 _ _)) _); by_eval.
  - refine (eq_trans (proj2 (shifts_correct (- 5) 1 _ _)) _); by_eval.
Defined.

(** ** Lemmas on bit counting *)

Lemma land_1_testbit v : negb (Z.land v 1 =? 0) = Z.testbit v 0.
Proof. by apply (land_pow2_testbit v 0). Qed.

Lemma ffs_loop_spec n i v :
  0 < i ->
  let r := ffs_loop n i v in
  (r = 0 /\ forall k, 0 <= k < Z.of_nat n -> Z.testbit v k = false) \/
  (i <= r < i + Z.of_nat n /\ Z.testbit v (r - i) = true /\
   forall k, 0 <= k < r - i -> Z.testbit v k = false).
Proof.
  revert i v. induction n as [|n IH]; intros i v Hi; cbn [ffs_loop].
  - left. split; [done|lia].
  - rewrite land_1_testbit. destruct (Z.testbit v 0) eqn:E0.
    { right. rewrite Z.sub_diag. split; [lia|]. split; [done|lia]. }
    assert (Hsh : forall k, 0 < k -> Z.testbit v k = Z.testbit (Z.shiftr v 1) (k - 1)).
    { intros k Hk. rewrite Z.shiftr_spec by lia. f_equal. lia. }
    destruct (IH (i + 1) (Z.shiftr v 1) ltac:(lia)) as [[E Hz]|(Hr & Ht & Hz)].
    + left. split; [done|]. intros k Hk. destruct (decide (k = 0)) as [->|]; [done|].
      rewrite Hsh by lia. apply Hz. lia.
    + right. set (r := ffs_loop n (i + 1) (Z.shiftr v 1)) in *. split; [lia|]. split.
      * rewrite Hsh by lia. rewrite <- Ht. f_equal. lia.
      * intros k Hk. destruct (decide (k = 0)) as [->|]; [done|].
        rewrite Hsh by lia. apply Hz. lia.
Qed.

(** A two's complement value of [n] bits whose bits are all clear is zero. *)
Lemma low_bits_clear n v :
  - 2 ^ Z.of_nat n <= v < 2 ^ Z.of_nat n ->
  (forall k, 0 <= k < Z.of_nat (S n) -> Z.testbit v k = false) -> v = 0.
Proof.
  intros Hv Hz. assert (Hm : v mod 2 ^ Z.of_nat (S n) = 0).
  { apply Z.bits_inj'. intros k Hk. rewrite Z.bits_0.
    destruct (Z.lt_ge_cases k (Z.of_nat (S n))).
    - rewrite Z.mod_pow2_bits_low by lia. apply Hz. lia.
    - apply Z.mod_pow2_bits_high. lia. }
  apply Z.mod_divide in Hm as [q Hq]; [|lia].
  rewrite Nat2Z.inj_succ, Z.pow_succ_r in Hq by lia.
  assert (0 < 2 ^ Z.of_nat n) by (apply Z.pow_pos_nonneg; lia).
  assert (q = 0) as -> by nia. done.
Qed.

(** [__ffssi2] and [__ffsdi2] give the one-based index of the lowest set
    bit, and zero exactly for zero. *)
Theorem ffs_correct n val r :
  (n = 31%nat /\ r = ffssi2 val) \/ (n = 63%nat /\ r = ffsdi2 val) ->
  - 2 ^ Z.of_nat n <= val < 2 ^ Z.of_nat n ->
  (r = 0 <-> val = 0) /\
  (val <> 0 -> 1 <= r <= Z.of_nat n + 1 /\ Z.testbit val (r - 1) = true /\
     forall k, 0 <= k < r - 1 -> Z.testbit val k = false).
Proof.
  intros Hn Hv.
  assert (Hr : r = ffs_loop (S n) 1 val) by (destruct Hn as [[-> ->]|[-> ->]]; done).
  pose proof (ffs_loop_spec (S n) 1 val ltac:(lia)) as [[E Hz]|(Hi & Ht & Hz)];
    rewrite <- Hr in *.
  - pose proof (low_bits_clear n val Hv Hz). lia.
  - assert (val <> 0) by (intros ->; by rewrite Z.bits_0 in Ht).
    split; [lia|]. intros _. split; [lia|]. by split.
Qed.

Lemma ffs_correct_witness : 1 <= ffsdi2 (- 2 ^ 40) <= Z.of_nat 63 + 1.
Proof.
  refine (proj1 (proj2 (ffs_correct 63 (- 2 ^ 40) (ffsdi2 (- 2 ^ 40)) _ _) _));
    [right; by split|by_eval..].
Defined.

(** The mask tests of [__ctzsi2] and [__clzsi2]. *)
Lemma land_low_mask v k : 0 <= k -> (Z.land v (Z.ones k) =? 0) = (v mod 2 ^ k =? 0).
Proof. intros. by rewrite Z.land_ones. Qed.

Lemma land_high_mask v k :
  0 < k <= 32 -> in_u 32 v ->
  (Z.land v (Z.shiftl (Z.ones k) (32 - k)) =? 0) = (v <? 2 ^ (32 - k)).
Proof.
  intros Hk [Hv0 Hv]. pose proof (Z.pow_pos_nonneg 2 (32 - k)) as Hp.
  pose proof (land_high_ones v (32 - k) k ltac:(lia) ltac:(lia)) as E.
  replace (32 - k + k) with 32 in E by lia. specialize (E ltac:(lia)).
  rewrite E. pose proof (Z.div_mod v (2 ^ (32 - k))).
  pose proof (Z.mod_pos_bound v (2 ^ (32 - k))).
  destruct (Z.ltb_spec v (2 ^ (32 - k))).
  - rewrite Z.div_small by lia. done.
  - assert (1 <= v / 2 ^ (32 - k)) by (apply Z.div_le_lower_bound; lia).
    apply Z.eqb_neq. nia.
Qed.

(** What the steps of [__ctzsi2] keep: [c] zero bits were dropped from [v0],
    and one of the [b] lowest bits that are left is set. *)
Definition ctz_inv (v0 b : Z) '((v, c) : Z * Z) : Prop :=
  v0 = v * 2 ^ c /\ 0 <= c /\ v mod 2 ^ b <> 0.

Lemma ctz_step_inv v0 k st :
  0 < k -> ctz_inv v0 (k + k) st -> ctz_inv v0 k (ctz_step (Z.ones k) k st).
Proof.
  intros Hk. destruct st as [v c]. intros (-> & Hc & Hv). unfold ctz_step, ctz_inv.
  rewrite land_low_mask by lia. destruct (Z.eqb_spec (v mod 2 ^ k) 0) as [E|E]; [|done].
  apply Z.mod_divide in E as [q ->]; [|lia].
  rewrite Z.shiftr_div_pow2, Z.div_mul by lia.
  split; [rewrite Z.pow_add_r by lia; lia|]. split; [lia|].
  intros E. apply Hv. rewrite Z.pow_add_r, Z.mul_mod_distr_r, E by lia. lia.
Qed.

(** What the steps of [__clzsi2] keep. *)
Definition clz_inv (v0 b : Z) '((v, c) : Z * Z) : Prop :=
  v = v0 * 2 ^ c /\ 0 <= c /\ 2 ^ (32 - b) <= v < 2 ^ 32.

Lemma clz_step_inv v0 k st :
  0 < k -> k + k <= 32 -> clz_inv v0 (k + k) st ->
  clz_inv v0 k (clz_step (Z.shiftl (Z.ones k) (32 - k)) k st).
Proof.
  intros Hk Hk2. destruct st as [v c]. intros (E & Hc & Hv). unfold clz_step, clz_inv.
  rewrite land_high_mask by (unfold in_u; lia).
  destruct (Z.ltb_spec v (2 ^ (32 - k))); [|lia].
  assert (Hp : 2 ^ (32 - k) * 2 ^ k = 2 ^ 32) by (rewrite <- Z.pow_add_r by lia; f_equal; lia).
  assert (Hq : 2 ^ (32 - (k + k)) * 2 ^ k = 2 ^ (32 - k))
    by (rewrite <- Z.pow_add_r by lia; f_equal; lia).
  rewrite Z.shiftl_mul_pow2 by lia. rewrite uwrap_small by (unfold in_u; nia).
  split; [rewrite Z.pow_add_r by lia; lia|]. split; [lia|]. nia.
Qed.

Lemma scaled_bounds v val c n :
  v = val * 2 ^ c -> 0 <= c -> 0 < val -> 0 <= n -> 2 ^ n <= v < 2 ^ (n + 1) ->
  2 ^ (n - c) <= val < 2 ^ (n + 1 - c).
Proof.
  intros E Hc Hval Hn Hv. assert (Hp : 0 < 2 ^ c) by (apply Z.pow_pos_nonneg; lia).
  assert (Hcn : 2 ^ c < 2 ^ (n + 1)) by nia.
  apply Z.pow_lt_mono_r_iff in Hcn; [|lia..].
  assert (2 ^ n = 2 ^ (n - c) * 2 ^ c) by (rewrite <- Z.pow_add_r by lia; f_equal; lia).
  assert (2 ^ (n + 1) = 2 ^ (n + 1 - c) * 2 ^ c)
    by (rewrite <- Z.pow_add_r by lia; f_equal; lia).
  nia.
Qed.

(** [__ctzsi2] counts the trailing and [__clzsi2] the leading zero bits of
    a 32-bit value; both give 32 for zero. *)
Theorem zero_bits_correct val :
  in_u 32 val ->
  (val = 0 -> ctzsi2 val = 32 /\ clzsi2 val = 32) /\
  (val <> 0 ->
     (exists q, val = (2 * q + 1) * 2 ^ ctzsi2 val /\ 0 <= ctzsi2 val) /\
     2 ^ (31 - clzsi2 val) <= val < 2 ^ (32 - clzsi2 val)).
Proof.
  intros [Hv0 Hv]. split; [by intros ->|]. intros Hz.
  unfold ctzsi2, clzsi2. replace (val =? 0) with false by lia. split.
  - assert (H : ctz_inv val 32 (val, 0)) by (cbn; rewrite Z.mod_small; lia).
    apply (ctz_step_inv _ 16), (ctz_step_inv _ 8), (ctz_step_inv _ 4),
      (ctz_step_inv _ 2) in H; [|lia..].
    change (Z.ones 16) with 0xffff in H. change (Z.ones 8) with 0xff in H.
    change (Z.ones 4) with 0xf in H. change (Z.ones 2) with 0x3 in H.
    destruct (ctz_step 0x3 2 _) as [v c]. destruct H as (E & Hc & Hm).
    change (Z.land v 1) with (Z.land v (Z.ones 1)). rewrite land_low_mask by lia.
    destruct (Z.eqb_spec (v mod 2 ^ 1) 0) as [E1|E1].
    + exists (v / 4). change (2 ^ 2) with 4 in Hm. change (2 ^ 1) with 2 in E1.
      rewrite Z.pow_add_r, Z.pow_1_r by lia. split; [|lia].
      assert (Hv4 : v = (2 * (v / 4) + 1) * 2) by (Z.div_mod_to_equations; lia).
      rewrite E, Hv4 at 1. lia.
    + exists (v / 2). change (2 ^ 1) with 2 in E1. split; [|done].
      assert (Hv2 : v = 2 * (v / 2) + 1) by (Z.div_mod_to_equations; lia).
      by rewrite E, Hv2 at 1.
  - assert (H : clz_inv val 32 (val, 0)) by (cbn; lia).
    apply (clz_step_inv _ 16), (clz_step_inv _ 8), (clz_step_inv _ 4),
      (clz_step_inv _ 2) in H; [|lia..].
    change (Z.shiftl (Z.ones 16) (32 - 16)) with 0xffff0000 in H.
    change (Z.shiftl (Z.ones 8) (32 - 8)) with 0xff000000 in H.
    change (Z.shiftl (Z.ones 4) (32 - 4)) with 0xf0000000 in H.
    change (Z.shiftl (Z.ones 2) (32 - 2)) with 0xc0000000 in H.
    destruct (clz_step 0xc0000000 2 _) as [v c]. destruct H as (E & Hc & Hm).
    change 0x80000000 with (Z.shiftl (Z.ones 1) (32 - 1)).
    rewrite land_high_mask by (unfold in_u; lia).
    destruct (Z.ltb_spec v (2 ^ (32 - 1))).
    + replace (31 - (c + 1)) with (30 - c) by lia.
      replace (32 - (c + 1)) with (30 + 1 - c) by lia. apply (scaled_bounds v); lia.
    + replace (32 - c) with (31 + 1 - c) by lia. apply (scaled_bounds v); lia.
Qed.

Lemma zero_bits_correct_witness :
  (exists q, 0x00580000 = (2 * q + 1) * 2 ^ ctzsi2 0x00580000 /\ 0 <= ctzsi2 0x00580000) /\
  2 ^ (31 - clzsi2 0x00580000) <= 0x00580000 < 2 ^ (32 - clzsi2 0x00580000).
Proof. refine (proj2 (zero_bits_correct 0x00580000 _) _); by_eval. Defined.
