(* ===== verification/L4Round.v ===== *)
(** * Rounding to flexpage and page sizes

    [l4_trunc_size], [l4_round_size], [l4_trunc_page] and [l4_round_page] come
    from the L4 system headers.  The components that call them are written
    against this interface; [shift_round] is one implementation of it. *)

From S2P Require Import Prelude.

(** The functions on addresses of [w] bits.  Rounding up is promised only
    where the result does not leave the address type. *)
Class L4_round (w : Z) := {
  l4_trunc_size : Z -> Z -> Z;
  l4_round_size : Z -> Z -> Z;
  l4_pageshift : Z;
  l4_pageshift_ok : 0 < l4_pageshift < w;
  l4_trunc_size_spec v b :
    in_u w v -> 0 <= b < w -> l4_trunc_size v b = v - v mod 2 ^ b;
  l4_round_size_spec v b :
    in_u w v -> 0 <= b < w -> in_u w (v + 2 ^ b - 1) ->
    l4_round_size v b = l4_trunc_size (v + 2 ^ b - 1) b;
}.

Section Pages.
Context {w : Z} `{!L4_round w}.

Definition l4_trunc_page (v : Z) : Z := l4_trunc_size v l4_pageshift.
Definition l4_round_page (v : Z) : Z := l4_round_size v l4_pageshift.
Definition l4_pagesize : Z := 2 ^ l4_pageshift.

Lemma trunc_size_bounds v b :
  in_u w v -> 0 <= b < w ->
  l4_trunc_size v b <= v < l4_trunc_size v b + 2 ^ b /\ 0 <= l4_trunc_size v b /\
  l4_trunc_size v b mod 2 ^ b = 0.
Proof.
  intros Hv Hb. rewrite l4_trunc_size_spec by done. unfold in_u in Hv.
  pose proof (Z.mod_pos_bound v (2 ^ b)). pose proof (Z.mod_le v (2 ^ b)).
  split; [lia|]. split; [lia|].
  rewrite (Z.div_mod v (2 ^ b)) at 1 by lia.
  replace (2 ^ b * (v / 2 ^ b) + v mod 2 ^ b - v mod 2 ^ b) with (v / 2 ^ b * 2 ^ b) by lia.
  apply Z.mod_mul. lia.
Qed.

Lemma round_size_bounds v b :
  in_u w v -> 0 <= b < w -> v + 2 ^ b - 1 < 2 ^ w ->
  v <= l4_round_size v b < v + 2 ^ b /\ l4_round_size v b mod 2 ^ b = 0.
Proof.
  intros Hv Hb Hlim. pose proof (Z.pow_pos_nonneg 2 b).
  assert (Hu : in_u w (v + 2 ^ b - 1)) by (unfold in_u in *; lia).
  rewrite l4_round_size_spec by done.
  destruct (trunc_size_bounds (v + 2 ^ b - 1) b Hu Hb) as (? & ? & ?). split; [lia|done].
Qed.

(** The rounded value is the least multiple that is not below. *)
Lemma round_size_least v b m :
  in_u w v -> 0 <= b < w -> v + 2 ^ b - 1 < 2 ^ w ->
  v <= m -> m mod 2 ^ b = 0 -> l4_round_size v b <= m.
Proof.
  intros Hv Hb Hlim Hm Hd. destruct (round_size_bounds v b Hv Hb Hlim) as [Hr Hrd].
  apply Z.mod_divide in Hd as [q ->], Hrd as [p Hp]; [|lia..]. rewrite Hp in *.
  assert (p < q + 1) by (apply (Z.mul_lt_mono_pos_r (2 ^ b)); lia). nia.
Qed.

(** The truncated value is the greatest multiple that is not above. *)
Lemma trunc_size_greatest v b m :
  in_u w v -> 0 <= b < w -> m <= v -> m mod 2 ^ b = 0 -> m <= l4_trunc_size v b.
Proof.
  intros Hv Hb Hm Hd. destruct (trunc_size_bounds v b Hv Hb) as (Hr & ? & Hrd).
  apply Z.mod_divide in Hd as [q ->], Hrd as [p Hp]; [|lia..]. rewrite Hp in *.
  assert (q < p + 1) by (apply (Z.mul_lt_mono_pos_r (2 ^ b)); lia). nia.
Qed.

Lemma pagesize_pos : 1 < l4_pagesize.
Proof.
  unfold l4_pagesize. pose proof l4_pageshift_ok. apply Z.pow_gt_1; lia.
Qed.
End Pages.

Definition shift_trunc (v b : Z) : Z := Z.shiftl (Z.shiftr v b) b.

(** Rounding by shifts, with 4096-byte pages. *)
#[refine] Definition shift_round (w : Z) (Hw : 12 < w) : L4_round w := {|
  l4_trunc_size := shift_trunc;
  l4_round_size v b := shift_trunc (uwrap w (v + 2 ^ b - 1)) b;
  l4_pageshift := 12;
|}.
Proof.
  - lia.
  - intros v b Hv Hb. unfold shift_trunc. rewrite Z.shiftl_mul_pow2, Z.shiftr_div_pow2 by lia.
    pose proof (Z.div_mod v (2 ^ b)). lia.
  - intros v b Hv Hb Hu. by rewrite uwrap_small.
Defined.

Definition round64 : L4_round 64 := shift_round 64 eq_refl.
Definition round32 : L4_round 32 := shift_round 32 eq_refl.
