(* ===== verification/RegionList.v ===== *)
(** * Memory regions of the boot loader

    [pkg/bootstrap/server/src/region.h] and [region.cc]: the regions of physical
    memory the boot loader tracks and the sorted list it keeps them in.
    Addresses are [unsigned long long] and wrap at 64 bits; the rounding
    functions are those of a machine with a 64-bit [l4_addr_t].  A pointer to an
    entry of the list is its index, a [char const *] its numeric value. *)

From Stdlib Require Import Sorting.Sorted.
From S2P Require Import Prelude L4Round.

(** [Region::Type] *)
Inductive region_type := No_mem | Kernel | Sigma0 | Boot | Root | Arch | Ram | Info.

#[global] Instance region_type_eq_dec : EqDecision region_type.
Proof. solve_decision. Defined.

(** [Region]; the subtype is stored in an [unsigned char]. *)
Record Region := {
  r_begin : Z;
  r_end : Z;
  r_name : Z;
  r_t : region_type;
  r_s : Z;
  r_eager : bool;
}.

#[global] Instance region_eq_dec : EqDecision Region.
Proof. solve_decision. Defined.

Definition region_at (begin : Z) : Region :=
  {| r_begin := begin; r_end := begin; r_name := 0; r_t := No_mem; r_s := 0;
     r_eager := false |}.

(** [Region(Type)] *)
Definition region_invalid : Region := region_at 0.

(** [assert(_begin <= _end)] *)
Definition assert_ordered (r : Region) : run Region :=
  if r_begin r <=? r_end r then Ret r else Asserted.

Definition region_make (begin end_ name : Z) (t : region_type) (sub : Z) (eager : bool)
  : run Region :=
  assert_ordered {| r_begin := begin; r_end := end_; r_name := name; r_t := t;
                    r_s := u8 sub; r_eager := eager |}.

Definition region_copy (other : Region) (begin end_ : Z) : run Region :=
  assert_ordered {| r_begin := begin; r_end := end_; r_name := r_name other;
                    r_t := r_t other; r_s := r_s other; r_eager := r_eager other |}.

Definition start_size (begin size name : Z) (t : region_type) (sub : Z) (eager : bool)
  : run Region :=
  if size =? 0 then Asserted
  else region_make begin (u64 (begin + size - 1)) name t sub eager.

(** [sizeof_T]: the size of the objects of the template's type. *)
Definition from_ptr (sizeof_T begin name : Z) (t : region_type) (sub : Z) (eager : bool) :=
  start_size begin sizeof_T name t sub eager.

Definition region_array (sizeof_T begin size name : Z) (t : region_type) (sub : Z)
  (eager : bool) := start_size begin (sizeof_T *[64] size) name t sub eager.

Definition set_begin (b : Z) (r : Region) : run Region :=
  assert_ordered {| r_begin := b; r_end := r_end r; r_name := r_name r;
                    r_t := r_t r; r_s := r_s r; r_eager := r_eager r |}.

Definition set_end (e : Z) (r : Region) : run Region :=
  assert_ordered {| r_begin := r_begin r; r_end := e; r_name := r_name r;
                    r_t := r_t r; r_s := r_s r; r_eager := r_eager r |}.

Definition size (r : Region) : Z := u64 (r_end r - r_begin r + 1).

(** [operator <] *)
Definition region_lt (r o : Region) : bool := r_end r <? r_begin o.

Definition overlaps (r o : Region) : bool :=
  negb (region_lt r o) && negb (region_lt o r).

Definition contains (r o : Region) : bool :=
  (r_begin r <=? r_begin o) && (r_end o <=? r_end r).

Definition intersect (r o : Region) : run Region :=
  if negb (overlaps r o) then Ret region_invalid
  else region_make (if r_begin o <? r_begin r then r_begin r else r_begin o)
                   (if r_end r <? r_end o then r_end r else r_end o)
                   (r_name r) (r_t r) (r_s r) false.

Definition invalid (r : Region) : bool := (r_begin r =? 0) && (r_end r =? 0).

(** [Region_list]: the entries from [_reg] to [_end], and room for [rl_max]. *)
Record Region_list := {
  rl_regs : list Region;
  rl_max : nat;
  rl_name : Z;
  rl_max_combined_size : Z;
  rl_address_limit : Z;
  rl_combined_size : Z;
}.

Definition rl_init (max : nat) (name max_combined_size address_limit : Z) : Region_list :=
  {| rl_regs := []; rl_max := max; rl_name := name;
     rl_max_combined_size := max_combined_size; rl_address_limit := address_limit;
     rl_combined_size := 0 |}.

Definition rl_with (regs : list Region) (combined : Z) (rl : Region_list) : Region_list :=
  {| rl_regs := regs; rl_max := rl_max rl; rl_name := rl_name rl;
     rl_max_combined_size := rl_max_combined_size rl;
     rl_address_limit := rl_address_limit rl; rl_combined_size := combined |}.

Abbreviation rl_set_regs regs rl := (rl_with regs (rl_combined_size rl) rl).

(** The index of the first entry with property [p]: the searches of [find] and
    [contains]. *)
Fixpoint index_of (p : Region -> bool) (l : list Region) : option nat :=
  match l with
  | [] => None
  | c :: t => if p c then Some 0%nat else S <$> index_of p t
  end.

Definition rl_find (o : Region) (rl : Region_list) : option nat :=
  index_of (fun c => overlaps c o) (rl_regs rl).

Definition rl_contains (o : Region) (rl : Region_list) : option nat :=
  index_of (fun c => contains c o) (rl_regs rl).

(** [remove]: the entries behind [r] move down. *)
Definition rl_remove (r : nat) (rl : Region_list) : Region_list :=
  rl_set_regs (delete r (rl_regs rl)) rl.

Section Region_list_ops.
Context `{!L4_round 64}.

(** The condition under which [optimize] merges entry [c] with its successor. *)
Definition mergeable (c n : Region) : bool :=
  bool_decide (r_t n = r_t c) && (r_s n =? r_s c) && (r_name n =? r_name c)
  && Bool.eqb (r_eager n) (r_eager c)
  && (l4_trunc_page (r_begin n) <=? l4_round_page (r_end c)).

(** The loop of [optimize], at entry [c]. *)
Fixpoint optimize_loop (fuel c : nat) (regs : list Region) : run (list Region) :=
  match fuel with
  | O => Fuel_out
  | S f =>
      match regs !! c with
      | None => Ret regs
      | Some rc =>
          match regs !! S c with
          | None => Ret regs
          | Some rn =>
              if mergeable rc rn then
                rc ← set_end (r_end rn) rc;
                optimize_loop f c (delete (S c) (<[c := rc]> regs))
              else optimize_loop f (S c) regs
          end
      end
  end.

(** Every round drops an entry or moves past one. *)
Definition optimize (rl : Region_list) : run Region_list :=
  regs ← optimize_loop (S (length (rl_regs rl))) 0 (rl_regs rl);
  mret (rl_set_regs regs rl).

(** The position [r] of the new entry in [add_nolimitcheck]. *)
Definition insert_pos (region : Region) (may_overlap : bool) (regs : list Region) : run nat :=
  match regs !! pred (length regs) with
  | None => Ret (length regs)
  | Some l =>
      if region_lt l region then Ret (length regs)
      else
        match index_of (fun r => negb (region_lt r region)) regs with
        | None => Ret (length regs)
        | Some i =>
            r ← or_oob (regs !! i);
            if negb may_overlap && negb (region_lt region r) then Panicked else Ret i
        end
  end.

Definition add_nolimitcheck (region : Region) (may_overlap : bool) (rl : Region_list)
  : run Region_list :=
  if r_begin region =? r_end region then Ret rl
  else
    rl ← (if (rl_max rl <=? length (rl_regs rl))%nat then
            rl ← optimize rl;
            if (rl_max rl <=? length (rl_regs rl))%nat then Panicked else Ret rl
          else Ret rl);
    i ← insert_pos region may_overlap (rl_regs rl);
    mret (rl_with (take i (rl_regs rl) ++ region :: drop i (rl_regs rl))
                  (rl_combined_size rl +[64] size region) rl).

Definition rl_add (region : Region) (may_overlap : bool) (rl : Region_list)
  : run Region_list :=
  if invalid region then Ret rl
  else if rl_address_limit rl <? r_begin region then Ret rl
  else
    mem ← (if rl_address_limit rl <=? r_end region
           then set_end (rl_address_limit rl -[64] 1) region else Ret region);
    if rl_max_combined_size rl <=? rl_combined_size rl then Ret rl
    else
      mem ← (if rl_max_combined_size rl <? rl_combined_size rl +[64] size mem
             then set_end (u64 (r_begin mem + rl_max_combined_size rl
                                - rl_combined_size rl - 1)) mem
             else Ret mem);
      add_nolimitcheck mem may_overlap rl.

(** [sub]: false when no entry contains [r]. *)
Definition rl_sub (r : Region) (rl : Region_list) : run (bool * Region_list) :=
  match rl_contains r rl with
  | None => Ret (false, rl)
  | Some i =>
      c ← or_oob (rl_regs rl !! i);
      if (r_begin c =? r_begin r) && (r_end c =? r_end r) then Ret (true, rl_remove i rl)
      else if r_begin c =? r_begin r then
        c ← set_begin (r_end r +[64] 1) c;
        mret (true, rl_set_regs (<[i := c]> (rl_regs rl)) rl)
      else if r_end c =? r_end r then
        c ← set_end (r_begin r -[64] 1) c;
        mret (true, rl_set_regs (<[i := c]> (rl_regs rl)) rl)
      else
        tail ← set_begin (r_end r +[64] 1) c;
        c ← set_end (r_begin r -[64] 1) c;
        rl ← rl_add tail false (rl_set_regs (<[i := c]> (rl_regs rl)) rl);
        mret (true, rl)
  end.

(** The loop of [find_free]; [size] and the bounds of the search stay fixed. *)
Fixpoint find_free_loop (fuel : nat) (rl : Region_list) (start end_ size align : Z) : run Z :=
  match fuel with
  | O => Fuel_out
  | S f =>
      let start := l4_round_size start align in
      if end_ <? u64 (start + size - 1) then Ret 0
      else
        probe ← start_size start size 0 No_mem 0 false;
        match rl_find probe rl with
        | None => Ret start
        | Some i =>
            z ← or_oob (rl_regs rl !! i);
            find_free_loop f rl (r_end z +[64] 1) end_ size align
        end
  end.

Definition find_free (fuel : nat) (search : Region) (_size align : Z) (rl : Region_list)
  : run Z :=
  find_free_loop fuel rl (r_begin search) (r_end search) (l4_round_size _size align) align.

(** The loop of [find_free_rev]. *)
Fixpoint find_free_rev_loop (fuel : nat) (rl : Region_list) (start end_ size align : Z)
  : run Z :=
  match fuel with
  | O => Fuel_out
  | S f =>
      let end_ := l4_trunc_size (u64 (end_ - size - 1)) align in
      if end_ <? start then Ret 0
      else
        probe ← start_size end_ size 0 No_mem 0 false;
        match rl_find probe rl with
        | None => Ret end_
        | Some i =>
            z ← or_oob (rl_regs rl !! i);
            find_free_rev_loop f rl start (r_begin z -[64] 1) size align
        end
  end.

Definition find_free_rev (fuel : nat) (search : Region) (_size align : Z)
  (rl : Region_list) : run Z :=
  find_free_rev_loop fuel rl (r_begin search) (r_end search)
    (l4_round_size _size align) align.

End Region_list_ops.

(** ** What the operations on single regions mean *)

(** Address [a] lies in [r]; both ends belong to the region. *)
Definition in_region (r : Region) (a : Z) : Prop := r_begin r <= a <= r_end r.

(** A region as the constructors leave it. *)
Definition region_ok (r : Region) : Prop :=
  in_u 64 (r_begin r) /\ in_u 64 (r_end r) /\ r_begin r <= r_end r.

#[global] Instance region_ok_dec r : Decision (region_ok r).
Proof. unfold region_ok. apply _. Defined.

Lemma region_lt_spec r o : region_lt r o = true <-> r_end r < r_begin o.
Proof. apply Z.ltb_lt. Qed.

Lemma overlaps_spec r o :
  overlaps r o = true <-> r_begin o <= r_end r /\ r_begin r <= r_end o.
Proof. unfold overlaps, region_lt. lia. Qed.

Lemma overlaps_sym r o : overlaps r o = overlaps o r.
Proof. unfold overlaps. apply andb_comm. Qed.

Lemma contains_spec r o :
  contains r o = true <-> r_begin r <= r_begin o /\ r_end o <= r_end r.
Proof. unfold contains. lia. Qed.

Lemma assert_ordered_Ret r r' :
  assert_ordered r = Ret r' <-> r' = r /\ r_begin r <= r_end r.
Proof.
  unfold assert_ordered. destruct (Z.leb_spec (r_begin r) (r_end r)); split.
  - by intros [= <-].
  - by intros [-> _].
  - done.
  - lia.
Qed.

(** The region algebra is that of address sets: two regions overlap exactly
    when they share an address, one contains the other exactly when every
    address of the other lies in it, and the intersection of two overlapping
    regions never trips the assertion and holds exactly the shared addresses;
    without an overlap it is the invalid region. *)
Theorem region_algebra r o :
  region_ok r -> region_ok o ->
  (overlaps r o = true <-> exists a, in_region r a /\ in_region o a) /\
  (contains r o = true <-> forall a, in_region o a -> in_region r a) /\
  (overlaps r o = true -> exists i, intersect r o = Ret i /\ region_ok i /\
     forall a, in_region i a <-> in_region r a /\ in_region o a) /\
  (overlaps r o = false -> intersect r o = Ret region_invalid).
Proof.
  intros Hr Ho. unfold region_ok, in_region, in_u in *. rewrite contains_spec.
  split; [|split; [|split]].
  - rewrite overlaps_spec. split; [|intros (a & ? & ?); lia].
    intros. exists (Z.max (r_begin r) (r_begin o)). lia.
  - split; [lia|]. intros Ha. pose proof (Ha (r_begin o)). pose proof (Ha (r_end o)). lia.
  - intros Hov. unfold intersect. rewrite Hov. cbn [negb]. apply overlaps_spec in Hov.
    eexists. split; [apply assert_ordered_Ret; split; [done|]|]; cbn [r_begin r_end].
    + split_ifs; lia.
    + split; [|intros a]; split_ifs; lia.
  - intros Hov. unfold intersect. by rewrite Hov.
Qed.

(** ** The list invariant *)

Abbreviation sorted_regions := (StronglySorted (fun r o => r_end r < r_begin o)).

(** The entries are regions, in ascending order without overlap, below the
    address limit, and fit the backing store; the accounted size respects its
    bound. *)
Record rl_ok (rl : Region_list) : Prop := {
  rl_entries : Forall region_ok (rl_regs rl);
  rl_sorted : sorted_regions (rl_regs rl);
  rl_room : (length (rl_regs rl) <= rl_max rl)%nat;
  rl_below : Forall (fun r => r_end r < rl_address_limit rl) (rl_regs rl);
  rl_limit : 0 < rl_address_limit rl < 2 ^ 64;
  rl_combined : 0 <= rl_combined_size rl <= rl_max_combined_size rl;
  rl_combined_max : rl_max_combined_size rl < 2 ^ 64;
}.

(** Address [a] belongs to some entry. *)
Definition covers (regs : list Region) (a : Z) : Prop := Exists (fun r => in_region r a) regs.

(** ** Lemmas on searches and sorted lists *)

Lemma index_of_Some p l i :
  index_of p l = Some i ->
  exists c, l !! i = Some c /\ p c = true /\ Forall (fun r => p r = false) (take i l).
Proof.
  revert i. induction l as [|c l IH]; intros i; cbn; [done|].
  destruct (p c) eqn:Hp; [intros [= <-]; exists c; by repeat constructor|].
  destruct (index_of p l) as [j|]; [|done]. intros [= <-].
  destruct (IH j eq_refl) as (r & ? & ? & ?). exists r. by repeat constructor.
Qed.

Lemma index_of_None p l : index_of p l = None <-> Forall (fun r => p r = false) l.
Proof.
  induction l as [|c l IH]; cbn; [done|]. rewrite Forall_cons_iff.
  destruct (p c); [by split; [|intros []]|].
  destruct (index_of p l); cbn; [|tauto].
  split; [done|]. intros [_ Hl]. by apply IH in Hl.
Qed.

Lemma sorted_app (l1 l2 : list Region) :
  sorted_regions (l1 ++ l2) <->
  sorted_regions l1 /\ sorted_regions l2 /\
  Forall (fun x => Forall (fun y => r_end x < r_begin y) l2) l1.
Proof. apply strongly_sorted_app. Qed.

Lemma sorted_insert (l1 l2 : list Region) r :
  sorted_regions (l1 ++ l2) ->
  Forall (fun x => r_end x < r_begin r) l1 -> Forall (fun y => r_end r < r_begin y) l2 ->
  sorted_regions (l1 ++ r :: l2).
Proof.
  rewrite !sorted_app. intros (H1 & H2 & H3) Hl Hr. split; [done|].
  split; [by constructor|]. apply Forall_forall. intros x Hx.
  constructor; [by apply (proj1 (Forall_forall _ _) Hl)|by apply (proj1 (Forall_forall _ _) H3)].
Qed.

Lemma covers_app l1 l2 a : covers (l1 ++ l2) a <-> covers l1 a \/ covers l2 a.
Proof. apply Exists_app. Qed.

Lemma covers_cons r l a : covers (r :: l) a <-> in_region r a \/ covers l a.
Proof. apply Exists_cons. Qed.

(** Replacing one entry by a region inside it. *)
Lemma sorted_shrink l1 c c' l2 :
  r_begin c <= r_begin c' -> r_end c' <= r_end c ->
  sorted_regions (l1 ++ c :: l2) -> sorted_regions (l1 ++ c' :: l2).
Proof.
  intros Hb He. rewrite !sorted_app. intros (H1 & H2 & H3).
  apply StronglySorted_inv in H2 as [H2 Hc]. split; [done|]. split.
  - constructor; [done|]. eapply Forall_impl; [|exact Hc]. cbn. intros. lia.
  - eapply Forall_impl; [|exact H3]. cbn. intros x Hx.
    apply Forall_cons_iff in Hx as [? ?]. constructor; [lia|done].
Qed.

(** Entries of a sorted list that precede one below an address are below it. *)
Lemma sorted_before_last l r :
  sorted_regions l -> Forall region_ok l -> l !! pred (length l) = Some r ->
  Forall (fun x => r_end x <= r_end r) l.
Proof.
  intros Hs Hok Hl. pose proof (take_drop_middle l _ _ Hl) as E.
  rewrite drop_ge in E by (destruct l; cbn; lia).
  rewrite <- E in Hs, Hok |- *. apply sorted_app in Hs as (_ & _ & H).
  apply Forall_app in Hok as [_ [Hr _]%Forall_cons_iff]. apply Forall_app. split.
  - eapply Forall_impl; [|exact H]. cbn. intros x [? _]%Forall_cons_iff.
    unfold region_ok in Hr. lia.
  - constructor; [lia|done].
Qed.

(** ** Insertion *)

(** Where [add_nolimitcheck] puts a region that overlaps no entry. *)
Lemma insert_pos_free region regs :
  sorted_regions regs -> Forall region_ok regs -> region_ok region ->
  Forall (fun r => overlaps r region = false) regs ->
  exists i, insert_pos region false regs = Ret i /\
    Forall (fun x => r_end x < r_begin region) (take i regs) /\
    Forall (fun y => r_end region < r_begin y) (drop i regs).
Proof.
  intros Hs Hok Hr Hov. unfold insert_pos.
  destruct (regs !! _) as [l|] eqn:El.
  2:{ exists (length regs). apply lookup_ge_None in El. destruct regs; [by repeat constructor|].
      cbn in El. lia. }
  destruct (region_lt l region) eqn:Hlt.
  { exists (length regs). rewrite take_ge, drop_ge by lia. split; [done|]. split; [|done].
    apply region_lt_spec in Hlt. eapply Forall_impl; [|exact (sorted_before_last _ _ Hs Hok El)].
    cbn. intros. lia. }
  destruct (index_of _ regs) as [i|] eqn:Ei.
  2:{ apply index_of_None in Ei. rewrite Forall_lookup in Ei. apply Ei in El. by rewrite Hlt in El. }
  apply index_of_Some in Ei as (r & Hi & Hnlt & Htake). rewrite Hi. cbn [or_oob mbind run_bind].
  pose proof (proj1 (Forall_lookup _ _) Hov i r Hi) as Hri. unfold overlaps in Hri.
  rewrite Hnlt in Hri. cbn [andb negb] in Hri. apply negb_false_iff in Hri. rewrite Hri.
  exists i. split; [done|]. apply region_lt_spec in Hri. split.
  - eapply Forall_impl; [|exact Htake]. cbn. intros x Hx.
    apply negb_false_iff in Hx. by apply region_lt_spec.
  - rewrite <- (take_drop_middle regs i r Hi) in Hs, Hok.
    rewrite (drop_S regs r i Hi). apply sorted_app in Hs as (_ & Hs & _).
    apply StronglySorted_inv in Hs as [_ Hs]. constructor; [done|].
    apply Forall_app in Hok as [_ [Hrok _]%Forall_cons_iff]. unfold region_ok in Hrok.
    eapply Forall_impl; [|exact Hs]. cbn. intros. lia.
Qed.

(** An overlap stops the machine. *)
Lemma insert_pos_overlap region regs :
  sorted_regions regs -> Forall region_ok regs -> region_ok region ->
  Exists (fun r => overlaps r region = true) regs ->
  insert_pos region false regs = Panicked.
Proof.
  intros Hs Hok Hr Hov. unfold insert_pos. apply Exists_exists in Hov as (o & Ho & Hov).
  apply list_elem_of_In, list_elem_of_lookup in Ho as [j Hj]. apply overlaps_spec in Hov.
  destruct (regs !! pred _) as [l|] eqn:El.
  2:{ apply lookup_ge_None in El. apply lookup_lt_Some in Hj. lia. }
  pose proof (sorted_before_last _ _ Hs Hok El) as Hl. rewrite Forall_lookup in Hl.
  specialize (Hl _ _ Hj). cbn in Hl.
  replace (region_lt l region) with false by (unfold region_lt; lia).
  destruct (index_of _ regs) as [i|] eqn:Ei.
  2:{ apply index_of_None in Ei. rewrite Forall_lookup in Ei. apply Ei in Hj.
      unfold region_lt in Hj. lia. }
  apply index_of_Some in Ei as (r & Hi & Hnlt & Htake). rewrite Hi. cbn [or_oob mbind run_bind].
  replace (region_lt region r) with false; [done|]. symmetry. apply Z.ltb_ge.
  destruct (Nat.lt_trichotomy i j) as [Hij|[->|Hij]].
  - rewrite <- (take_drop_middle regs i r Hi) in Hs. apply sorted_app in Hs as (_ & Hs & _).
    apply StronglySorted_inv in Hs as [_ Hs]. rewrite Forall_lookup in Hs.
    specialize (Hs (j - S i)%nat o). rewrite lookup_drop in Hs.
    replace (S i + (j - S i))%nat with j in Hs by lia. specialize (Hs Hj). cbn in Hs.
    rewrite Forall_lookup in Hok. pose proof (Hok i r Hi) as Hrok. unfold region_ok in Hrok. lia.
  - rewrite Hi in Hj. injection Hj as ->. lia.
  - rewrite Forall_lookup in Htake. specialize (Htake j o).
    rewrite lookup_take_lt in Htake by done. specialize (Htake Hj).
    unfold region_lt in Htake. lia.
Qed.

(** ** Merging *)

Section Region_list_laws.
Context `{!L4_round 64}.

(** Two neighbours [optimize] leaves alone. *)
Abbreviation unmergeable := (fun regs => forall i c n,
  regs !! i = Some c -> regs !! S i = Some n -> mergeable c n = false).

(** What merging does to a sorted list: the entries keep their order and the
    ends of the merged entries are ends of old entries. *)
Definition merged (regs regs' : list Region) : Prop :=
  Forall region_ok regs' /\ sorted_regions regs' /\
  (length regs' <= length regs)%nat /\
  (forall a, covers regs a -> covers regs' a) /\
  (forall r, r ∈ regs' -> exists o, o ∈ regs /\ r_end o = r_end r) /\
  (forall a, covers regs' a -> covers regs a \/
     exists c n, c ∈ regs /\ n ∈ regs /\ r_end c < a < r_begin n /\
       l4_trunc_page (r_begin n) <= l4_round_page (r_end c)).

Lemma merged_refl regs : Forall region_ok regs -> sorted_regions regs -> merged regs regs.
Proof. intros. repeat split; eauto. Qed.

(** One merge step, and what follows it. *)
Lemma merged_step pre c n rest regs' c' :
  c' = {| r_begin := r_begin c; r_end := r_end n; r_name := r_name c; r_t := r_t c;
          r_s := r_s c; r_eager := r_eager c |} ->
  mergeable c n = true -> sorted_regions (pre ++ c :: n :: rest) ->
  Forall region_ok (pre ++ c :: n :: rest) ->
  merged (pre ++ c' :: rest) regs' -> merged (pre ++ c :: n :: rest) regs'.
Proof.
  intros Hc' Hm Hs Hrok (Hok & Hso & Hlen & Hcov & Hend & Hback).
  assert (Hcn : r_end c < r_begin n).
  { apply sorted_app in Hs as (_ & Hs & _). apply StronglySorted_inv in Hs as [_ Hs].
    by apply Forall_cons_iff in Hs as [? _]. }
  assert (r_begin c <= r_end c /\ r_begin n <= r_end n).
  { rewrite Forall_app, !Forall_cons_iff in Hrok. unfold region_ok in Hrok. tauto. }
  assert (Hin : c ∈ pre ++ c :: n :: rest /\ n ∈ pre ++ c :: n :: rest).
  { rewrite !elem_of_app, !elem_of_cons. tauto. }
  assert (Hsub : forall x, x ∈ pre ++ c' :: rest ->
            x ∈ pre ++ c :: n :: rest \/ (r_begin x = r_begin c /\ r_end x = r_end n)).
  { intros x. rewrite !elem_of_app, !elem_of_cons. intros [?|[->|?]]; [tauto| |tauto].
    right. by rewrite Hc'. }
  split; [done|]. split; [done|]. split.
  { rewrite length_app in *. cbn in *. lia. }
  split; [|split].
  - intros a Ha. apply Hcov. rewrite covers_app, covers_cons in *. rewrite covers_cons in Ha.
    rewrite Hc'. unfold in_region in *. cbn [r_begin r_end].
    destruct Ha as [?|[?|[?|?]]]; auto; right; left; lia.
  - intros r Hr. destruct (Hend r Hr) as (o & Ho & Eo).
    destruct (Hsub o Ho) as [?|[_ ?]]; [exists o|exists n]; split; (tauto || congruence).
  - intros a Ha. destruct (Hback a Ha) as [Hold|(c1 & n1 & Hc1 & Hn1 & Hgap & Hpg)].
    + rewrite covers_app, covers_cons in Hold. rewrite covers_app, !covers_cons.
      rewrite Hc' in Hold. unfold in_region in *. cbn [r_begin r_end] in Hold.
      destruct Hold as [?|[Hin'|?]]; [tauto| |tauto].
      destruct (Z.le_gt_cases a (r_end c)); [left; right; left; lia|].
      destruct (Z.le_gt_cases (r_begin n) a); [left; right; right; left; lia|].
      right. exists c, n. split; [tauto|]. split; [tauto|]. split; [lia|].
      unfold mergeable in Hm. lia.
    + right. destruct (Hsub c1 Hc1) as [?|[_ Ec]], (Hsub n1 Hn1) as [?|[Eb _]];
        [exists c1, n1|exists c1, c|exists n, n1|exists n, c]; rewrite <- ?Ec, <- ?Eb;
        tauto.
Qed.

(** The list after [c->end(...)] and [remove(n)]. *)
Lemma merge_entries (pre rest : list Region) c n c' :
  delete (S (length pre)) (<[length pre := c']> (pre ++ c :: n :: rest)) = pre ++ c' :: rest.
Proof. induction pre as [|x pre IH]; [done|]. cbn. f_equal. apply IH. Qed.

Lemma lookup_second (pre rest : list Region) c n :
  (pre ++ c :: n :: rest) !! S (length pre) = Some n.
Proof. induction pre; [done|]. done. Qed.

(** Merging keeps the start and the attributes of the first entry. *)
Definition same_head (l l' : list Region) : Prop :=
  match l with
  | [] => l' = []
  | c :: _ => exists c' t', l' = c' :: t' /\ r_begin c' = r_begin c /\ r_name c' = r_name c /\
      r_t c' = r_t c /\ r_s c' = r_s c /\ r_eager c' = r_eager c
  end.

Lemma merged_sorted pre c n rest c' :
  r_begin c' = r_begin c -> r_end c' = r_end n ->
  sorted_regions (pre ++ c :: n :: rest) -> sorted_regions (pre ++ c' :: rest).
Proof.
  intros Eb Ee (H1 & H2 & H3)%sorted_app. apply sorted_app. split; [done|].
  apply StronglySorted_inv in H2 as [H2 _]. apply StronglySorted_inv in H2 as [H2 Hn].
  rewrite <- Ee in Hn. split; [by constructor|].
  eapply Forall_impl; [|exact H3]. cbn. intros x. rewrite !Forall_cons_iff, Eb. tauto.
Qed.

Lemma optimize_loop_spec fuel pre suf :
  sorted_regions (pre ++ suf) -> Forall region_ok (pre ++ suf) ->
  (length suf < fuel)%nat ->
  exists suf', optimize_loop fuel (length pre) (pre ++ suf) = Ret (pre ++ suf') /\
    merged (pre ++ suf) (pre ++ suf') /\ same_head suf suf' /\ unmergeable suf'.
Proof.
  revert pre suf. induction fuel as [|f IH]; intros pre suf Hs Hok Hf; [lia|].
  cbn [optimize_loop]. destruct suf as [|c [|n rest]].
  - exists []. rewrite lookup_ge_None_2 by (rewrite app_nil_r; lia).
    split; [done|]. split; [by apply merged_refl|done].
  - exists [c]. rewrite list_lookup_middle by done.
    rewrite lookup_ge_None_2 by (rewrite length_app; cbn; lia).
    split; [done|]. split; [by apply merged_refl|]. split; [by exists c, []|].
    intros [|i] c1 n1; cbn; done.
  - rewrite list_lookup_middle, lookup_second by done.
    destruct (mergeable c n) eqn:Hm.
    + set (c' := {| r_begin := r_begin c; r_end := r_end n; r_name := r_name c;
                    r_t := r_t c; r_s := r_s c; r_eager := r_eager c |}).
      assert (Hc' : region_ok c').
      { rewrite Forall_app, !Forall_cons_iff in Hok. apply sorted_app in Hs as (_ & Hs & _).
        apply StronglySorted_inv in Hs as [_ [Hcn _]%Forall_cons_iff].
        destruct Hok as (_ & Hc & Hn & _). unfold region_ok, in_u in *. cbn. lia. }
      assert (E : set_end (r_end n) c = Ret c').
      { apply assert_ordered_Ret. split; [done|]. unfold region_ok in Hc'. cbn in *. lia. }
      rewrite E. cbn [mbind run_bind]. rewrite merge_entries.
      destruct (IH pre (c' :: rest)) as (suf' & Er & Hmg & Hh & Hun).
      * by apply (merged_sorted pre c n).
      * rewrite Forall_app, !Forall_cons_iff in Hok. destruct Hok as (? & _ & _ & ?).
        apply Forall_app. split; [done|]. by constructor.
      * cbn in Hf |- *. lia.
      * exists suf'. split; [done|]. split; [by apply (merged_step pre c n rest _ c')|]. by split.
    + destruct (IH (pre ++ [c]) (n :: rest)) as (suf' & Er & Hmg & Hh & Hun);
        [by rewrite <- app_assoc..|cbn in Hf |- *; lia|].
      rewrite length_app, Nat.add_1_r, <- !app_assoc in Er. cbn [app] in Er.
      exists (c :: suf'). split; [done|]. rewrite <- !app_assoc in Hmg. split; [done|].
      split; [by exists c, suf'|].
      intros [|i] c1 n1; cbn; [|apply Hun]. intros [= <-].
      destruct Hh as (n' & t' & -> & Eb & En & Et & Es & Ee). intros [= <-].
      rewrite <- Hm. unfold mergeable. by rewrite Eb, En, Et, Es, Ee.
Qed.

Lemma optimize_merges rl :
  rl_ok rl -> exists regs', optimize rl = Ret (rl_set_regs regs' rl) /\
    merged (rl_regs rl) regs' /\ unmergeable regs'.
Proof.
  intros Hrl. destruct (optimize_loop_spec (S (length (rl_regs rl))) [] (rl_regs rl))
    as (regs' & E & Hm & _ & Hun); [apply Hrl|apply Hrl|lia|].
  exists regs'. cbn [app length] in E, Hm. unfold optimize. by rewrite E.
Qed.

Lemma merged_ok rl regs' :
  rl_ok rl -> merged (rl_regs rl) regs' -> rl_ok (rl_set_regs regs' rl).
Proof.
  intros [] (? & ? & ? & ? & Hend & ?). split; cbn; try done; [lia|].
  apply list.Forall_forall. intros r Hr. destruct (Hend r Hr) as (o & Ho & <-).
  by apply (proj1 (list.Forall_forall _ _) rl_below0).
Qed.

(** ** Adding *)

(** [add_nolimitcheck] on a list with room. *)
Lemma add_room region rl :
  rl_ok rl -> region_ok region -> (length (rl_regs rl) < rl_max rl)%nat ->
  r_begin region <> r_end region ->
  Forall (fun r => overlaps r region = false) (rl_regs rl) ->
  exists l1 l2, rl_regs rl = l1 ++ l2 /\
    Forall (fun x => r_end x < r_begin region) l1 /\
    Forall (fun y => r_end region < r_begin y) l2 /\
    add_nolimitcheck region false rl =
      Ret (rl_with (l1 ++ region :: l2) (rl_combined_size rl +[64] size region) rl).
Proof.
  intros Hrl Hr Hroom Hne Hov.
  destruct (insert_pos_free region (rl_regs rl)) as (i & E & Hl1 & Hl2);
    [apply Hrl|apply Hrl|done..|].
  exists (take i (rl_regs rl)), (drop i (rl_regs rl)). rewrite take_drop.
  split; [done|]. split; [done|]. split; [done|]. unfold add_nolimitcheck.
  rewrite (proj2 (Z.eqb_neq _ _) Hne). rewrite (proj2 (Nat.leb_gt _ _) Hroom).
  cbn [mbind run_bind]. rewrite E. done.
Qed.

Lemma add_overlap region rl :
  rl_ok rl -> region_ok region -> (length (rl_regs rl) < rl_max rl)%nat ->
  r_begin region <> r_end region ->
  Exists (fun r => overlaps r region = true) (rl_regs rl) ->
  add_nolimitcheck region false rl = Panicked.
Proof.
  intros Hrl Hr Hroom Hne Hov. unfold add_nolimitcheck.
  rewrite (proj2 (Z.eqb_neq _ _) Hne). rewrite (proj2 (Nat.leb_gt _ _) Hroom).
  cbn [mbind run_bind]. rewrite insert_pos_overlap by (done || apply Hrl). done.
Qed.

Lemma overlap_dec_list region regs :
  {Exists (fun r => overlaps r region = true) regs} +
  {Forall (fun r => overlaps r region = false) regs}.
Proof.
  destruct (decide (Exists (fun r => overlaps r region = true) regs)) as [|Hn]; [by left|].
  right. apply Forall_Exists_neg in Hn. eapply Forall_impl; [|exact Hn].
  cbn. intros r Hr. by apply not_true_is_false.
Qed.

(** The region [add] hands on fits both limits. *)
Lemma add_nolimitcheck_ok region rl rl' :
  rl_ok rl -> region_ok region -> r_end region < rl_address_limit rl ->
  rl_combined_size rl +[64] size region <= rl_max_combined_size rl ->
  add_nolimitcheck region false rl = Ret rl' -> rl_ok rl'.
Proof.
  intros Hrl Hr Hlim Hsz E.
  destruct (decide (r_begin region = r_end region)) as [He|Hne].
  { revert E. unfold add_nolimitcheck. rewrite He, Z.eqb_refl. by intros [= <-]. }
  assert (exists rl1, rl_ok rl1 /\ (length (rl_regs rl1) < rl_max rl1)%nat /\
            rl_address_limit rl1 = rl_address_limit rl /\
            rl_combined_size rl1 = rl_combined_size rl /\
            rl_max_combined_size rl1 = rl_max_combined_size rl /\
            add_nolimitcheck region false rl1 = Ret rl')
    as (rl1 & Hrl1 & Hroom & El & Ec & Em & E1).
  { destruct (Nat.leb_spec (rl_max rl) (length (rl_regs rl))) as [Hfull|]; [|by exists rl].
    revert E. unfold add_nolimitcheck at 1. rewrite (proj2 (Z.eqb_neq _ _) Hne).
    rewrite (proj2 (Nat.leb_le _ _) Hfull).
    destruct (optimize_merges rl Hrl) as (regs' & -> & Hm & _). cbn [mbind run_bind].
    pose proof (merged_ok _ _ Hrl Hm) as Hok.
    destruct (Nat.leb_spec (rl_max (rl_set_regs regs' rl))
                (length (rl_regs (rl_set_regs regs' rl)))); [done|].
    intros E. exists (rl_set_regs regs' rl). do 5 (split; [done|]).
    unfold add_nolimitcheck.
    rewrite (proj2 (Z.eqb_neq _ _) Hne), (proj2 (Nat.leb_gt _ _)) by done. exact E. }
  rewrite <- El in Hlim. rewrite <- Ec, <- Em in Hsz.
  destruct (overlap_dec_list region (rl_regs rl1)) as [Hov|Hov].
  { by rewrite (add_overlap region rl1) in E1. }
  destruct (add_room region rl1) as (l1 & l2 & Hl & Hl1 & Hl2 & Ea); [done..|].
  rewrite Ea in E1. injection E1 as <-. destruct Hrl1. rewrite Hl in *.
  rewrite length_app in *. rewrite Forall_app in rl_entries0, rl_below0.
  split; cbn; try done.
  - apply Forall_app. split; [tauto|]. constructor; tauto.
  - by apply sorted_insert.
  - rewrite length_app. cbn. lia.
  - apply Forall_app. split; [tauto|]. constructor; tauto.
  - split; [apply uwrap_nonneg; lia|done].
Qed.

Lemma size_below r lim :
  region_ok r -> r_end r < lim -> lim < 2 ^ 64 -> size r = r_end r - r_begin r + 1.
Proof. intros Hr ? ?. unfold size. apply uwrap_small. unfold region_ok, in_u in *. lia. Qed.

(** [add] drops the region or adds the part of it that both limits leave. *)
Lemma rl_add_clip region ov rl rl' :
  rl_ok rl -> region_ok region -> rl_add region ov rl = Ret rl' ->
  rl' = rl \/ exists mem, region_ok mem /\ r_begin mem = r_begin region /\
    r_end mem <= r_end region /\ r_end mem < rl_address_limit rl /\
    rl_combined_size rl +[64] size mem <= rl_max_combined_size rl /\
    add_nolimitcheck mem ov rl = Ret rl'.
Proof.
  intros Hrl Hr E. destruct Hrl. unfold rl_add in E.
  destruct (invalid region); [left; by injection E|].
  destruct (Z.ltb_spec (rl_address_limit rl) (r_begin region)); [left; by injection E|].
  apply run_bind_Ret in E as (m1 & Em & E).
  assert (Hm1 : region_ok m1 /\ r_begin m1 = r_begin region /\ r_end m1 <= r_end region /\
                r_end m1 < rl_address_limit rl).
  { unfold region_ok in *. destruct (Z.leb_spec (rl_address_limit rl) (r_end region)).
    - apply assert_ordered_Ret in Em as [-> Ho]. cbn in *.
      rewrite uwrap_small in * by (unfold in_u; lia). unfold in_u in *. lia.
    - injection Em as <-. unfold in_u in *. lia. }
  destruct Hm1 as (Hok1 & Eb1 & He1 & Hl1).
  destruct (Z.leb_spec (rl_max_combined_size rl) (rl_combined_size rl)); [left; by injection E|].
  apply run_bind_Ret in E as (m2 & Em2 & E). right. exists m2. revert Em2.
  rewrite (size_below m1 (rl_address_limit rl)) by (done || lia).
  assert (Hle1 : r_begin m1 <= r_end m1) by (unfold region_ok in Hok1; tauto).
  destruct (Z.ltb_spec (rl_max_combined_size rl)
              (rl_combined_size rl +[64] (r_end m1 - r_begin m1 + 1))) as [Hgt|Hle]; intros Em2.
  - assert (rl_max_combined_size rl < rl_combined_size rl + (r_end m1 - r_begin m1 + 1)).
    { pose proof (uwrap_le 64 (rl_combined_size rl + (r_end m1 - r_begin m1 + 1))). lia. }
    unfold region_ok, in_u in *.
    rewrite uwrap_small in Em2 by (unfold in_u; lia).
    apply assert_ordered_Ret in Em2 as [-> Ho]. cbn in *.
    unfold size. cbn. rewrite (uwrap_small 64 (_ - _ + 1)) by (unfold in_u; lia).
    rewrite uwrap_small by (unfold in_u; lia). repeat split; try lia. exact E.
  - injection Em2 as <-. rewrite (size_below m1 (rl_address_limit rl)) by (done || lia).
    repeat split; try (done || lia); apply Hok1.
Qed.

Lemma rl_add_ok region rl rl' :
  rl_ok rl -> region_ok region -> rl_add region false rl = Ret rl' -> rl_ok rl'.
Proof.
  intros Hrl Hr E. destruct (rl_add_clip _ _ _ _ Hrl Hr E) as [->|(mem & ? & _ & _ & ? & ? & Ea)];
    [done|]. by apply (add_nolimitcheck_ok mem rl).
Qed.

(** Without limits in the way, [add] is [add_nolimitcheck]. *)
Lemma rl_add_within region ov rl :
  rl_ok rl -> region_ok region -> invalid region = false ->
  r_end region < rl_address_limit rl ->
  rl_combined_size rl + (r_end region - r_begin region + 1) <= rl_max_combined_size rl ->
  rl_add region ov rl = add_nolimitcheck region ov rl.
Proof.
  intros [] Hr Hi Hlim Hsz. unfold rl_add. rewrite Hi.
  pose proof (size_below region (rl_address_limit rl) Hr ltac:(lia) ltac:(lia)) as Esz.
  unfold region_ok, in_u in Hr.
  rewrite (proj2 (Z.ltb_ge _ _)) by lia. rewrite !(proj2 (Z.leb_gt _ _)) by lia.
  cbn [mbind run_bind]. rewrite Esz, uwrap_small by (unfold in_u; lia).
  rewrite (proj2 (Z.ltb_ge _ _)) by lia. done.
Qed.

(** ** Removing *)

Lemma rl_regs_split rl i c :
  rl_regs rl !! i = Some c ->
  exists l1 l2, rl_regs rl = l1 ++ c :: l2 /\ length l1 = i.
Proof.
  intros Hi. exists (take i (rl_regs rl)), (drop (S i) (rl_regs rl)).
  rewrite take_drop_middle by done. split; [done|].
  rewrite length_take. apply lookup_lt_Some in Hi. lia.
Qed.

Lemma rl_delete_ok rl i : rl_ok rl -> rl_ok (rl_remove i rl).
Proof.
  intros Hrl. unfold rl_remove. destruct (rl_regs rl !! i) as [c|] eqn:Hi.
  2:{ apply lookup_ge_None in Hi.
      rewrite delete_take_drop, take_ge, drop_ge, app_nil_r by lia. by destruct rl, Hrl. }
  destruct (rl_regs_split rl i c Hi) as (l1 & l2 & E & <-). destruct Hrl. rewrite E in *.
  rewrite delete_middle. rewrite Forall_app, Forall_cons_iff in rl_entries0, rl_below0.
  rewrite length_app in *. cbn in rl_room0.
  split; cbn; try done; rewrite ?Forall_app, ?length_app; try tauto; [|lia].
  apply sorted_app in rl_sorted0 as (? & H2 & H3). apply StronglySorted_inv in H2 as [? _].
  apply sorted_app. split; [done|]. split; [done|]. eapply Forall_impl; [|exact H3].
  cbn. by intros x [_ ?]%Forall_cons_iff.
Qed.

(** Replacing the [i]-th entry by a part of it. *)
Lemma rl_shrink_ok rl i c c' :
  rl_ok rl -> rl_regs rl !! i = Some c -> region_ok c' ->
  r_begin c <= r_begin c' -> r_end c' <= r_end c ->
  rl_ok (rl_set_regs (<[i := c']> (rl_regs rl)) rl).
Proof.
  intros Hrl Hi Hc' Hb He. destruct (rl_regs_split rl i c Hi) as (l1 & l2 & E & <-).
  destruct Hrl. rewrite E in *. rewrite insert_app_r_alt, Nat.sub_diag by lia. cbn [insert list_insert].
  rewrite Forall_app, Forall_cons_iff in rl_entries0, rl_below0.
  rewrite length_app in *. cbn in rl_room0.
  split; cbn; try done; rewrite ?Forall_app, ?Forall_cons_iff, ?length_app; cbn; try tauto.
  - by apply (sorted_shrink l1 c).
  - split; [tauto|]. split; [|tauto]. lia.
Qed.

(** The part of [c] before and behind [r]. *)
Definition cut_head (c r : Region) : Region :=
  {| r_begin := r_begin c; r_end := r_begin r - 1; r_name := r_name c; r_t := r_t c;
     r_s := r_s c; r_eager := r_eager c |}.
Definition cut_tail (c r : Region) : Region :=
  {| r_begin := r_end r + 1; r_end := r_end c; r_name := r_name c; r_t := r_t c;
     r_s := r_s c; r_eager := r_eager c |}.

(** [sub] on an entry [c] that contains [r]: no assertion fails, and the outcome
    is one of four lists. *)
Lemma rl_sub_found rl r i :
  rl_ok rl -> region_ok r -> rl_contains r rl = Some i ->
  exists c, rl_regs rl !! i = Some c /\ region_ok c /\
    r_begin c <= r_begin r /\ r_end r <= r_end c /\
    rl_sub r rl =
      if (r_begin c =? r_begin r) && (r_end c =? r_end r) then Ret (true, rl_remove i rl)
      else if r_begin c =? r_begin r then
        Ret (true, rl_set_regs (<[i := cut_tail c r]> (rl_regs rl)) rl)
      else if r_end c =? r_end r then
        Ret (true, rl_set_regs (<[i := cut_head c r]> (rl_regs rl)) rl)
      else
        rl' ← rl_add (cut_tail c r) false
                (rl_set_regs (<[i := cut_head c r]> (rl_regs rl)) rl);
        mret (true, rl').
Proof.
  intros Hrl Hr Hi. unfold rl_sub. rewrite Hi. apply index_of_Some in Hi as (c & Hi & Hc & _).
  apply contains_spec in Hc as [Hb He]. exists c. rewrite Hi. cbn [or_oob mbind run_bind].
  pose proof (proj1 (Forall_lookup _ _) (rl_entries rl Hrl) i c Hi) as Hcok. cbn in Hcok.
  do 4 (split; [done|]). unfold region_ok, in_u in *.
  assert (Et : r_end r <> r_end c -> set_begin (r_end r +[64] 1) c = Ret (cut_tail c r)).
  { intros. rewrite uwrap_small by (unfold in_u; lia). apply assert_ordered_Ret.
    cbn. split; [done|lia]. }
  assert (Eh : r_begin c <> r_begin r -> set_end (r_begin r -[64] 1) c = Ret (cut_head c r)).
  { intros. rewrite uwrap_small by (unfold in_u; lia). apply assert_ordered_Ret.
    cbn. split; [done|lia]. }
  destruct (Z.eqb_spec (r_begin c) (r_begin r)), (Z.eqb_spec (r_end c) (r_end r));
    cbn [andb]; rewrite ?Et, ?Eh by lia; cbn [mbind run_bind]; rewrite ?Eh by lia; done.
Qed.

Lemma cut_ok c r :
  region_ok c -> region_ok r -> r_begin c <= r_begin r -> r_end r <= r_end c ->
  (r_end c <> r_end r -> region_ok (cut_tail c r)) /\
  (r_begin c <> r_begin r -> region_ok (cut_head c r)).
Proof. unfold region_ok, in_u. cbn. lia. Qed.

Lemma rl_sub_ok r rl b rl' :
  rl_ok rl -> region_ok r -> rl_sub r rl = Ret (b, rl') -> rl_ok rl'.
Proof.
  intros Hrl Hr. destruct (rl_contains r rl) as [i|] eqn:Hi.
  2:{ unfold rl_sub. rewrite Hi. by intros [= _ <-]. }
  destruct (rl_sub_found rl r i Hrl Hr Hi) as (c & Hci & Hc & Hb & He & ->).
  destruct (cut_ok c r Hc Hr Hb He) as [Ht Hh].
  assert (r_begin r <= r_end r) by (unfold region_ok in Hr; tauto).
  destruct (Z.eqb_spec (r_begin c) (r_begin r)), (Z.eqb_spec (r_end c) (r_end r));
    cbn [andb].
  - intros [= _ <-]. by apply rl_delete_ok.
  - intros [= _ <-]. apply (rl_shrink_ok rl i c); cbn; auto; lia.
  - intros [= _ <-]. apply (rl_shrink_ok rl i c); cbn; auto; lia.
  - intros (rl1 & Ea & [= _ <-])%run_bind_Ret. revert Ea. apply rl_add_ok; [|auto].
    apply (rl_shrink_ok rl i c); cbn; auto; lia.
Qed.

(** Cutting [r] out of the entry that contains it leaves the rest. *)
Lemma covers_cut l1 c l2 r X :
  sorted_regions (l1 ++ c :: l2) -> r_begin c <= r_begin r -> r_end r <= r_end c ->
  (forall a, covers X a <-> in_region c a /\ ~ in_region r a) ->
  forall a, covers (l1 ++ X ++ l2) a <-> covers (l1 ++ c :: l2) a /\ ~ in_region r a.
Proof.
  intros Hs Hb He HX a. rewrite !covers_app, covers_cons, HX.
  apply sorted_app in Hs as (_ & Hs & H1). apply StronglySorted_inv in Hs as [_ H2].
  assert (covers l1 a -> ~ in_region r a).
  { intros Ha. apply Exists_exists in Ha as (x & Hx & Ha).
    rewrite Forall_forall in H1. specialize (H1 x Hx). apply Forall_cons_iff in H1 as [? _].
    unfold in_region in *. lia. }
  assert (covers l2 a -> ~ in_region r a).
  { intros Ha. apply Exists_exists in Ha as (x & Hx & Ha).
    rewrite Forall_forall in H2. specialize (H2 x Hx). unfold in_region in *. lia. }
  tauto.
Qed.

(** The tail [sub] splits off finds its place in the list. *)
Lemma rl_sub_tail rl r i c :
  rl_ok rl -> region_ok r -> rl_regs rl !! i = Some c -> region_ok c ->
  (length (rl_regs rl) < rl_max rl)%nat -> r_begin c < r_begin r -> r_end r + 1 < r_end c ->
  rl_combined_size rl + (r_end c - r_end r) <= rl_max_combined_size rl ->
  exists rl', rl_add (cut_tail c r) false
                (rl_set_regs (<[i := cut_head c r]> (rl_regs rl)) rl) = Ret rl' /\
    forall a, covers (rl_regs rl') a <->
      covers (<[i := cut_head c r]> (rl_regs rl)) a \/ in_region (cut_tail c r) a.
Proof.
  intros Hrl Hr Hci Hc Hroom Hb He Hsz.
  destruct (cut_ok c r Hc Hr ltac:(lia) ltac:(lia)) as [Ht Hh].
  specialize (Ht ltac:(lia)). specialize (Hh ltac:(lia)).
  assert (Hlim : r_end c < rl_address_limit rl).
  { pose proof (rl_below rl Hrl) as Hl. rewrite Forall_lookup in Hl. by apply (Hl i). }
  set (rl1 := rl_set_regs (<[i := cut_head c r]> (rl_regs rl)) rl).
  assert (Hrl1 : rl_ok rl1).
  { apply (rl_shrink_ok rl i c); cbn; try done; try lia.
    unfold region_ok in Hr. lia. }
  assert (0 <= r_begin r <= r_end r) by (unfold region_ok, in_u in Hr; lia).
  rewrite rl_add_within; try done; [|unfold invalid; cbn; lia|cbn; lia].
  destruct (add_room (cut_tail c r) rl1) as (k1 & k2 & Ek & _ & _ & Ea); try done.
  - cbn. by rewrite length_insert.
  - cbn. lia.
  - apply Forall_lookup. intros j x Hj. cbn in Hj.
    destruct (rl_regs_split rl i c Hci) as (l1 & l2 & E & Hl1).
    pose proof (rl_sorted rl Hrl) as Hs. rewrite E in Hs, Hj.
    rewrite insert_app_r_alt, Hl1, Nat.sub_diag in Hj by lia. cbn in Hj.
    apply list_elem_of_lookup_2 in Hj. rewrite elem_of_app, elem_of_cons in Hj.
    apply sorted_app in Hs as (_ & Hs & H1). apply StronglySorted_inv in Hs as [_ H2].
    rewrite list.Forall_forall in H1, H2. unfold overlaps, region_lt.
    destruct Hj as [Hj|[->|Hj]].
    + specialize (H1 x Hj). apply Forall_cons_iff in H1 as [? _]. cbn. lia.
    + cbn. lia.
    + specialize (H2 x Hj). cbn in *. lia.
  - rewrite Ea. eexists. split; [done|]. intros a. cbn [rl_regs rl_with].
    rewrite covers_app, covers_cons. cbn in Ek. rewrite Ek, covers_app. tauto.
Qed.

(** [sub] takes a region out of the list: it reports false and changes
    nothing when no entry contains the region; otherwise, when there is room for
    one more entry, the tail it splits off is longer than one byte and the size
    account still has room for that tail, it reports true and the list then
    covers exactly the addresses it covered before without those of the region. *)
Theorem region_sub_spec r rl :
  rl_ok rl -> region_ok r -> (length (rl_regs rl) < rl_max rl)%nat ->
  (forall c, c ∈ rl_regs rl -> contains c r = true ->
     r_end c <> r_end r + 1 /\
     rl_combined_size rl + (r_end c - r_end r) <= rl_max_combined_size rl) ->
  (Forall (fun c => contains c r = false) (rl_regs rl) -> rl_sub r rl = Ret (false, rl)) /\
  (Exists (fun c => contains c r = true) (rl_regs rl) ->
     exists rl', rl_sub r rl = Ret (true, rl') /\
       forall a, covers (rl_regs rl') a <-> covers (rl_regs rl) a /\ ~ in_region r a).
Proof.
  intros Hrl Hr Hroom Htail. split.
  { intros Hno. unfold rl_sub, rl_contains. by rewrite (proj2 (index_of_None _ _) Hno). }
  intros Hex. destruct (rl_contains r rl) as [i|] eqn:Hi.
  2:{ apply index_of_None in Hi. apply Exists_exists in Hex as (c & Hc & E).
      rewrite Forall_forall in Hi. by rewrite (Hi c Hc) in E. }
  destruct (rl_sub_found rl r i Hrl Hr Hi) as (c & Hci & Hc & Hb & He & ->).
  destruct (Htail c) as [Hne Hsz];
    [by apply list_elem_of_lookup_2 in Hci|by apply contains_spec|].
  destruct (cut_ok c r Hc Hr Hb He) as [Ht Hh].
  destruct (rl_regs_split rl i c Hci) as (l1 & l2 & E & Hl1).
  pose proof (rl_sorted rl Hrl) as Hs.
  assert (Hcut : forall X, (forall a, covers X a <-> in_region c a /\ ~ in_region r a) ->
    forall a, covers (l1 ++ X ++ l2) a <-> covers (rl_regs rl) a /\ ~ in_region r a).
  { rewrite E in Hs |- *. intros X. by apply covers_cut. }
  assert (Hins : forall x, <[i := x]> (rl_regs rl) = l1 ++ [x] ++ l2).
  { intros x. rewrite E, insert_app_r_alt by lia. by rewrite Hl1, Nat.sub_diag. }
  assert (r_begin r <= r_end r) by (unfold region_ok in Hr; tauto).
  destruct (Z.eqb_spec (r_begin c) (r_begin r)), (Z.eqb_spec (r_end c) (r_end r));
    cbn [andb].
  - eexists. split; [done|]. cbn. rewrite E, <- Hl1, delete_middle, <- E. apply (Hcut []).
    intros a. unfold covers, in_region. rewrite Exists_nil. lia.
  - eexists. split; [done|]. cbn. rewrite Hins. apply Hcut.
    intros a. unfold covers. rewrite Exists_cons, Exists_nil. unfold in_region. cbn. lia.
  - eexists. split; [done|]. cbn. rewrite Hins. apply Hcut.
    intros a. unfold covers. rewrite Exists_cons, Exists_nil. unfold in_region. cbn. lia.
  - destruct (rl_sub_tail rl r i c Hrl Hr Hci) as (rl' & Ea & Hcov); [done || lia..|].
    rewrite Ea. exists rl'. split; [done|]. intros a. rewrite Hcov, Hins.
    rewrite <- (Hcut [cut_head c r; cut_tail c r]).
    + rewrite !covers_app. unfold covers. rewrite !Exists_cons, !Exists_nil. tauto.
    + intros b. unfold covers. rewrite !Exists_cons, Exists_nil. unfold in_region. cbn. lia.
Qed.

(** [add] of a region that lies below the address limit and within the size
    account, on a list with room: the machine stops exactly when the region
    overlaps an entry; otherwise the list then covers exactly the old addresses
    and those of the region, and the account grows by its size.  The one
    exception is a region of a single byte, which is left out. *)
Theorem region_add_spec region rl :
  rl_ok rl -> region_ok region -> invalid region = false ->
  (length (rl_regs rl) < rl_max rl)%nat -> r_end region < rl_address_limit rl ->
  rl_combined_size rl + (r_end region - r_begin region + 1) <= rl_max_combined_size rl ->
  (r_begin region = r_end region -> rl_add region false rl = Ret rl) /\
  (r_begin region <> r_end region ->
   (Exists (fun r => overlaps r region = true) (rl_regs rl) ->
      rl_add region false rl = Panicked) /\
   (Forall (fun r => overlaps r region = false) (rl_regs rl) ->
      exists rl', rl_add region false rl = Ret rl' /\
        (forall a, covers (rl_regs rl') a <-> covers (rl_regs rl) a \/ in_region region a) /\
        rl_combined_size rl' = rl_combined_size rl + (r_end region - r_begin region + 1))).
Proof.
  intros Hrl Hr Hinv Hroom Hlim Hsz. rewrite rl_add_within by done.
  split; [|intros Hne; split].
  - intros E. unfold add_nolimitcheck. by rewrite E, Z.eqb_refl.
  - intros Hov. by apply add_overlap.
  - intros Hov. destruct (add_room region rl) as (l1 & l2 & El & _ & _ & Ea); [done..|].
    rewrite Ea. eexists. split; [done|]. cbn. split.
    + intros a. rewrite El, !covers_app, covers_cons. tauto.
    + destruct Hrl. rewrite (size_below region (rl_address_limit rl)) by (done || lia).
      apply uwrap_small. unfold region_ok, in_u in *. lia.
Qed.

(** The states a list goes through. *)
Inductive rl_reach (rl0 : Region_list) : Region_list -> Prop :=
  | reach_init : rl_reach rl0 rl0
  | reach_add rl r rl' :
      rl_reach rl0 rl -> region_ok r -> rl_add r false rl = Ret rl' -> rl_reach rl0 rl'
  | reach_sub rl r b rl' :
      rl_reach rl0 rl -> region_ok r -> rl_sub r rl = Ret (b, rl') -> rl_reach rl0 rl'
  | reach_remove rl i : rl_reach rl0 rl -> rl_reach rl0 (rl_remove i rl)
  | reach_optimize rl rl' : rl_reach rl0 rl -> optimize rl = Ret rl' -> rl_reach rl0 rl'.


(** [optimize] ends without tripping an assertion: the list stays sorted and
    disjoint, covers every address it covered before, has no two neighbours left
    that it would merge, and an address that is new lies in a gap of less than
    two pages between two of the old entries. *)
Theorem optimize_spec rl :
  rl_ok rl -> Forall (fun r => r_end r + l4_pagesize <= 2 ^ 64) (rl_regs rl) ->
  exists rl', optimize rl = Ret rl' /\ rl_ok rl' /\
    (forall a, covers (rl_regs rl) a -> covers (rl_regs rl') a) /\
    (forall a, covers (rl_regs rl') a -> covers (rl_regs rl) a \/
       exists c n, c ∈ rl_regs rl /\ n ∈ rl_regs rl /\ r_end c < a < r_begin n /\
         r_begin n - r_end c < 2 * l4_pagesize) /\
    (forall i c n, rl_regs rl' !! i = Some c -> rl_regs rl' !! S i = Some n ->
       mergeable c n = false).
Proof.
  intros Hrl Hpg. destruct (optimize_merges rl Hrl) as (regs' & E & Hm & Hun).
  exists (rl_set_regs regs' rl). split; [done|]. split; [by apply merged_ok|].
  destruct Hm as (_ & _ & _ & Hcov & _ & Hback). split; [done|]. split; [|done].
  intros a Ha. destruct (Hback a Ha) as [?|(c & n & Hc & Hn & Hgap & Hp)]; [by left|].
  right. exists c, n. do 3 (split; [done|]).
  pose proof (proj1 (list.Forall_forall _ _) (rl_entries rl Hrl) c Hc) as (_ & Hce & _).
  pose proof (proj1 (list.Forall_forall _ _) (rl_entries rl Hrl) n Hn) as (Hnb & _ & _).
  pose proof (proj1 (list.Forall_forall _ _) Hpg c Hc) as Hcp. cbn in Hcp.
  pose proof l4_pageshift_ok. unfold l4_round_page, l4_trunc_page, l4_pagesize in *.
  destruct (round_size_bounds (r_end c) l4_pageshift) as [? _]; [done|lia..|].
  destruct (trunc_size_bounds (r_begin n) l4_pageshift) as (? & _ & _); [done|lia|]. lia.
Qed.

(** ** Searching free memory *)

(** The [size] bytes at [m] belong to no entry. *)
Definition free_block (regs : list Region) (m size : Z) : Prop :=
  forall x, m <= x < m + size -> ~ covers regs x.

(** An aligned place for [size] bytes in [start, end]. *)
Definition free_place (regs : list Region) (start end_ size align m : Z) : Prop :=
  start <= m /\ m + size - 1 <= end_ /\ m mod 2 ^ align = 0 /\ free_block regs m size.

Lemma find_probe rl m size :
  Forall region_ok (rl_regs rl) -> 0 <= m -> 0 < size -> m + size <= 2 ^ 64 ->
  exists probe, start_size m size 0 No_mem 0 false = Ret probe /\
    r_begin probe = m /\ r_end probe = m + size - 1 /\
    (rl_find probe rl = None -> free_block (rl_regs rl) m size).
Proof.
  intros Hok Hm Hsz Hlim. unfold start_size. rewrite (proj2 (Z.eqb_neq _ _)) by lia.
  rewrite uwrap_small by (unfold in_u; lia).
  eexists. split; [apply assert_ordered_Ret; split; [done|cbn; lia]|]. cbn.
  split; [done|]. split; [done|]. intros Hno%index_of_None x Hx Hc.
  apply Exists_exists in Hc as (r & Hr & Hc). rewrite Forall_forall in Hno.
  specialize (Hno r Hr). apply not_true_iff_false in Hno. apply Hno, overlaps_spec.
  unfold in_region in Hc. cbn. lia.
Qed.

(** The entries that end at or behind [start]: each round of the search leaves
    one of them behind. *)
Definition ahead (start : Z) (regs : list Region) : nat :=
  length (filter (fun r => start <= r_end r) regs).

Lemma ahead_le start start' regs :
  start <= start' -> (ahead start' regs <= ahead start regs)%nat.
Proof.
  intros. unfold ahead. induction regs as [|y regs IH]; [done|].
  rewrite !filter_cons. repeat case_decide; cbn; lia.
Qed.

Lemma ahead_lt start start' regs z :
  z ∈ regs -> start <= r_end z < start' -> (ahead start' regs < ahead start regs)%nat.
Proof.
  intros (l1 & l2 & ->)%list_elem_of_split Hb.
  pose proof (ahead_le start start' l1 ltac:(lia)).
  pose proof (ahead_le start start' l2 ltac:(lia)).
  unfold ahead in *. rewrite !list.filter_app, !length_app, !filter_cons.
  rewrite (decide_False (P := start' <= _)), (decide_True (P := start <= _)) by lia.
  cbn. lia.
Qed.

Lemma find_free_loop_spec fuel rl start end_ size align :
  Forall region_ok (rl_regs rl) -> 0 <= align < 64 -> 0 < size ->
  Forall (fun r => r_end r + size + 2 ^ align <= 2 ^ 64) (rl_regs rl) ->
  0 <= start -> start + size + 2 ^ align <= 2 ^ 64 + 1 -> (ahead start (rl_regs rl) < fuel)%nat ->
  (exists a, find_free_loop fuel rl start end_ size align = Ret a /\
     free_place (rl_regs rl) start end_ size align a /\
     forall m, free_place (rl_regs rl) start end_ size align m -> a <= m) \/
  (find_free_loop fuel rl start end_ size align = Ret 0 /\
   forall m, ~ free_place (rl_regs rl) start end_ size align m).
Proof.
  intros Hok Hal Hsz Hents. pose proof (Z.pow_pos_nonneg 2 align ltac:(lia) ltac:(lia)) as Hp.
  revert start. induction fuel as [|f IH]; intros start Hst Hlim Hf; [lia|].
  assert (Hu : in_u 64 start) by (unfold in_u; lia).
  destruct (round_size_bounds start align Hu Hal ltac:(lia)) as [Hs Hsal].
  assert (Hleast : forall m, free_place (rl_regs rl) start end_ size align m ->
                             l4_round_size start align <= m).
  { intros m (Hm & _ & Hmal & _). apply round_size_least; (done || lia). }
  cbn [find_free_loop]. set (s := l4_round_size start align) in *.
  rewrite uwrap_small by (unfold in_u; lia).
  destruct (Z.ltb_spec end_ (s + size - 1)) as [Hgt|Hle].
  { right. split; [done|]. intros m Hm. pose proof (Hleast m Hm).
    destruct Hm as (_ & Hm & _). lia. }
  destruct (find_probe rl s size) as (probe & -> & Epb & Epe & Hfree); [done|lia..|].
  cbn [mbind run_bind]. destruct (rl_find probe rl) as [i|] eqn:Hfi.
  2:{ left. exists s. split; [done|]. split; [|done]. split; [lia|]. split; [lia|]. by split; [|apply Hfree]. }
  apply index_of_Some in Hfi as (z & Hz & Hov & _). rewrite Hz. cbn [or_oob mbind run_bind].
  apply overlaps_spec in Hov as [Hov1 Hov2]. rewrite Epb, Epe in *.
  pose proof (proj1 (Forall_lookup _ _) Hok i z Hz) as (Hzb & Hze & Hzo).
  pose proof (proj1 (Forall_lookup _ _) Hents i z Hz) as Hzl. cbn in Hzl.
  rewrite uwrap_small by (unfold in_u in *; lia).
  apply list_elem_of_lookup_2 in Hz.
  assert (Hskip : forall m, free_place (rl_regs rl) start end_ size align m <->
                            free_place (rl_regs rl) (r_end z + 1) end_ size align m).
  { intros m. split; [|unfold free_place; intros (? & ?); split; [lia|done]].
    intros Hm. pose proof (Hleast m Hm) as Hsm. destruct Hm as (Hm1 & Hm2 & Hm3 & Hm4).
    split; [|done]. destruct (Z.le_gt_cases (r_end z + 1) m); [done|]. exfalso.
    apply (Hm4 (Z.max m (r_begin z))); [lia|]. apply Exists_exists. exists z.
    split; [by apply list_elem_of_In|]. unfold in_region. lia. }
  destruct (IH (r_end z + 1)) as [(a & E & Ha & Hmin)|[E Hno]].
  - unfold in_u in Hze. lia.
  - lia.
  - pose proof (ahead_lt start (r_end z + 1) (rl_regs rl) z Hz ltac:(lia)). lia.
  - left. exists a. split; [exact E|]. split; [by apply Hskip|]. intros m Hm. by apply Hmin, Hskip.
  - right. split; [exact E|]. intros m Hm. by apply (Hno m), Hskip.
Qed.

(** [find_free] ends after at most one round per entry and one more.  It
    returns the lowest aligned address in the search region at which the rounded
    size fits without touching an entry, and 0 when there is none, provided no
    address it computes wraps around. *)
Theorem find_free_spec rl search _size align :
  Forall region_ok (rl_regs rl) -> region_ok search -> 0 <= align < 64 ->
  0 < _size -> _size + 2 ^ align <= 2 ^ 64 ->
  Forall (fun r => r_end r + l4_round_size _size align + 2 ^ align <= 2 ^ 64) (rl_regs rl) ->
  r_begin search + l4_round_size _size align + 2 ^ align <= 2 ^ 64 ->
  let place := free_place (rl_regs rl) (r_begin search) (r_end search)
                 (l4_round_size _size align) align in
  let result := find_free (S (length (rl_regs rl))) search _size align rl in
  (exists a, result = Ret a /\ place a /\ forall m, place m -> a <= m) \/
  (result = Ret 0 /\ forall m, ~ place m).
Proof.
  intros Hok Hs Hal Hsz Hszl Hents Hlim. cbn zeta. unfold region_ok, in_u in Hs.
  pose proof (Z.pow_pos_nonneg 2 align ltac:(lia) ltac:(lia)).
  destruct (round_size_bounds _size align) as [? _]; [unfold in_u; lia|done|lia|].
  apply find_free_loop_spec; try done; try lia.
  apply Nat.lt_succ_r. apply length_filter.
Qed.

(** The entries that start at or before [end_]. *)
Definition behind (end_ : Z) (regs : list Region) : nat :=
  length (filter (fun r => r_begin r <= end_) regs).

Lemma behind_le end_ end' regs :
  end' <= end_ -> (behind end' regs <= behind end_ regs)%nat.
Proof.
  intros. unfold behind. induction regs as [|y regs IH]; [done|].
  rewrite !filter_cons. repeat case_decide; cbn; lia.
Qed.

Lemma behind_lt end_ end' regs z :
  z ∈ regs -> end' < r_begin z <= end_ -> (behind end' regs < behind end_ regs)%nat.
Proof.
  intros (l1 & l2 & ->)%list_elem_of_split Hb.
  pose proof (behind_le end_ end' l1 ltac:(lia)).
  pose proof (behind_le end_ end' l2 ltac:(lia)).
  unfold behind in *. rewrite !list.filter_app, !length_app, !filter_cons.
  rewrite (decide_False (P := _ <= end')), (decide_True (P := _ <= end_)) by lia.
  cbn. lia.
Qed.

Lemma find_free_rev_loop_spec fuel rl start end_ size align :
  Forall region_ok (rl_regs rl) -> 0 <= align < 64 -> 0 < size ->
  Forall (fun r => size + 2 <= r_begin r) (rl_regs rl) ->
  0 <= start -> size + 1 <= end_ < 2 ^ 64 -> (behind end_ (rl_regs rl) < fuel)%nat ->
  let spare := fun m => start <= m /\ m + size + 1 <= end_ /\ m mod 2 ^ align = 0 /\
                        free_block (rl_regs rl) m (size + 2) in
  (exists a, find_free_rev_loop fuel rl start end_ size align = Ret a /\
     free_place (rl_regs rl) start end_ size align a /\ forall m, spare m -> m <= a) \/
  (find_free_rev_loop fuel rl start end_ size align = Ret 0 /\ forall m, ~ spare m).
Proof.
  cbn zeta. intros Hok Hal Hsz Hents Hst.
  pose proof (Z.pow_pos_nonneg 2 align ltac:(lia) ltac:(lia)) as Hp.
  revert end_. induction fuel as [|f IH]; intros end_ Hlim Hf; [lia|].
  cbn [find_free_rev_loop]. rewrite (uwrap_small 64 (end_ - size - 1)) by (unfold in_u; lia).
  assert (Hu : in_u 64 (end_ - size - 1)) by (unfold in_u; lia).
  destruct (trunc_size_bounds (end_ - size - 1) align Hu Hal) as (Ht & Ht0 & Htal).
  assert (Hmost : forall m, m + size + 1 <= end_ -> m mod 2 ^ align = 0 ->
                            m <= l4_trunc_size (end_ - size - 1) align).
  { intros m Hm Hmal. apply trunc_size_greatest; (done || lia). }
  set (s := l4_trunc_size (end_ - size - 1) align) in *.
  destruct (Z.ltb_spec s start) as [Hlt|Hge].
  { right. split; [done|]. intros m (? & ? & ? & _). pose proof (Hmost m). lia. }
  destruct (find_probe rl s size) as (probe & -> & Epb & Epe & Hfree); [done|lia..|].
  cbn [mbind run_bind]. destruct (rl_find probe rl) as [i|] eqn:Hfi.
  2:{ left. exists s. split; [done|]. split; [|by intros m (? & ? & ? & _); apply Hmost].
      split; [lia|]. split; [lia|]. by split; [|apply Hfree]. }
  apply index_of_Some in Hfi as (z & Hz & Hov & _). rewrite Hz. cbn [or_oob mbind run_bind].
  apply overlaps_spec in Hov as [Hov1 Hov2]. rewrite Epb, Epe in *.
  pose proof (proj1 (Forall_lookup _ _) Hok i z Hz) as (Hzb & Hze & Hzo).
  pose proof (proj1 (Forall_lookup _ _) Hents i z Hz) as Hzl. cbn in Hzl.
  rewrite uwrap_small by (unfold in_u in *; lia). apply list_elem_of_lookup_2 in Hz.
  assert (Hskip : forall m, start <= m -> m + size + 1 <= end_ -> m mod 2 ^ align = 0 ->
            free_block (rl_regs rl) m (size + 2) -> m + size + 1 <= r_begin z - 1).
  { intros m Hm1 Hm2 Hm3 Hm4. pose proof (Hmost m Hm2 Hm3).
    destruct (Z.le_gt_cases (m + size + 1) (r_begin z - 1)); [done|]. exfalso.
    apply (Hm4 (Z.max m (r_begin z))); [lia|]. apply Exists_exists. exists z.
    split; [by apply list_elem_of_In|]. unfold in_region. lia. }
  destruct (IH (r_begin z - 1)) as [(a & E & Ha & Hmax)|[E Hno]].
  - unfold in_u in Hzb. lia.
  - pose proof (behind_lt end_ (r_begin z - 1) (rl_regs rl) z Hz ltac:(lia)). lia.
  - left. exists a. split; [exact E|]. split.
    + destruct Ha as (? & ? & ?). split; [done|]. split; [lia|done].
    + intros m (? & ? & ? & ?). apply Hmax. auto.
  - right. split; [exact E|]. intros m (? & ? & ? & ?). apply (Hno m). auto.
Qed.

(** [find_free_rev], when neither the end of the search region nor the start
    of an entry is closer to address 0 than the rounded size and two bytes: it
    ends, an address it returns is aligned, free and inside the search region,
    and lies above every place with two spare bytes behind it; it returns 0 only
    when there is no such place. *)
Theorem find_free_rev_spec rl search _size align :
  Forall region_ok (rl_regs rl) -> region_ok search -> 0 <= align < 64 ->
  0 < _size -> _size + 2 ^ align <= 2 ^ 64 ->
  Forall (fun r => l4_round_size _size align + 2 <= r_begin r) (rl_regs rl) ->
  l4_round_size _size align + 1 <= r_end search ->
  let size := l4_round_size _size align in
  let spare := fun m => r_begin search <= m /\ m + size + 1 <= r_end search /\
                 m mod 2 ^ align = 0 /\ free_block (rl_regs rl) m (size + 2) in
  let result := find_free_rev (S (length (rl_regs rl))) search _size align rl in
  (exists a, result = Ret a /\
     free_place (rl_regs rl) (r_begin search) (r_end search) size align a /\
     forall m, spare m -> m <= a) \/
  (result = Ret 0 /\ forall m, ~ spare m).
Proof.
  intros Hok Hs Hal Hsz Hszl Hents Hlim. cbn zeta. unfold region_ok, in_u in Hs.
  pose proof (Z.pow_pos_nonneg 2 align ltac:(lia) ltac:(lia)).
  destruct (round_size_bounds _size align) as [? _]; [unfold in_u; lia|done|lia|].
  apply find_free_rev_loop_spec; try done; try lia.
  apply Nat.lt_succ_r. apply length_filter.
Qed.

(** A region that starts exactly at the address limit passes the first check
    of [add] and is then cut to an end below its start: the assertion fails. *)
Theorem add_at_limit_asserts region ov rl :
  region_ok region -> 0 < rl_address_limit rl < 2 ^ 64 ->
  r_begin region = rl_address_limit rl -> rl_add region ov rl = Asserted.
Proof.
  intros Hr Hlim E. unfold region_ok in Hr. unfold rl_add.
  replace (invalid region) with false by (unfold invalid; lia).
  rewrite (proj2 (Z.ltb_ge _ _)) by lia.
  rewrite (proj2 (Z.leb_le (rl_address_limit rl) (r_end region))) by lia.
  rewrite uwrap_small by (unfold in_u; lia). unfold set_end, assert_ordered. cbn.
  by rewrite (proj2 (Z.leb_gt (r_begin region) _)) by lia.
Qed.

End Region_list_laws.

(** ** Examples *)

Module Region_example.
#[local] Existing Instance round64.

Definition ram (b e : Z) : Region :=
  {| r_begin := b; r_end := e; r_name := 0; r_t := Ram; r_s := 0; r_eager := false |}.

(** Two entries, room for four. *)
Definition rl : Region_list :=
  {| rl_regs := [ram 0x1000 0x4fff; ram 0x8000 0x9fff]; rl_max := 4; rl_name := 0;
     rl_max_combined_size := 2 ^ 64 - 1; rl_address_limit := 2 ^ 64 - 1;
     rl_combined_size := 0x6000 |}.

Lemma rl_sample_ok : rl_ok rl.
Proof.
  split; cbn; try lia.
  - repeat constructor; by_eval.
  - repeat constructor.
  - repeat constructor.
Defined.

Lemma region_algebra_witness :
  exists i, intersect (ram 0x1000 0x4fff) (ram 0x4000 0x7fff) = Ret i /\ region_ok i /\
    forall a, in_region i a <->
      in_region (ram 0x1000 0x4fff) a /\ in_region (ram 0x4000 0x7fff) a.
Proof.
  refine (proj1 (proj2 (proj2 (region_algebra (ram 0x1000 0x4fff) (ram 0x4000 0x7fff) _ _))) _);
    by_eval.
Defined.

Lemma region_add_spec_witness :
  exists rl', rl_add (ram 0x5000 0x7fff) false rl = Ret rl' /\
    (forall a, covers (rl_regs rl') a <-> covers (rl_regs rl) a \/ in_region (ram 0x5000 0x7fff) a) /\
    rl_combined_size rl' = rl_combined_size rl + (0x7fff - 0x5000 + 1).
Proof.
  refine (proj2 (proj2 (region_add_spec (ram 0x5000 0x7fff) rl rl_sample_ok _ _ _ _ _) _) _);
    by_eval.
Defined.

Lemma region_sub_spec_witness :
  exists rl', rl_sub (ram 0x2000 0x2fff) rl = Ret (true, rl') /\
    forall a, covers (rl_regs rl') a <-> covers (rl_regs rl) a /\ ~ in_region (ram 0x2000 0x2fff) a.
Proof.
  refine (proj2 (region_sub_spec (ram 0x2000 0x2fff) rl rl_sample_ok _ _ _) _).
  - by_eval.
  - cbn. lia.
  - intros c Hc. cbn [rl rl_regs rl_combined_size rl_max_combined_size] in *.
    apply elem_of_cons in Hc as [->|Hc]; [by_eval|].
    apply elem_of_cons in Hc as [->|Hc]; [done|]. by apply elem_of_nil in Hc.
  - constructor. by_eval.
Defined.

(** An empty list, and the list after one [add]. *)
Definition rl0 : Region_list := rl_init 4 0 (2 ^ 64 - 1) (2 ^ 64 - 1).
Definition rl1 : Region_list :=
  match rl_add (ram 0x1000 0x4fff) false rl0 with Ret r => r | _ => rl0 end.


Lemma optimize_spec_witness :
  exists rl', optimize rl = Ret rl' /\ rl_ok rl' /\
    (forall a, covers (rl_regs rl) a -> covers (rl_regs rl') a).
Proof.
  destruct (optimize_spec rl rl_sample_ok) as (rl' & E & Hok & Hc & _).
  - repeat constructor; by_eval.
  - exists rl'. auto.
Defined.

Lemma find_free_spec_witness :
  let place := free_place (rl_regs rl) 0 0xffff (l4_round_size 0x3000 12) 12 in
  let result := find_free 3 (ram 0 0xffff) 0x3000 12 rl in
  (exists a, result = Ret a /\ place a /\ forall m, place m -> a <= m) \/
  (result = Ret 0 /\ forall m, ~ place m).
Proof.
  refine (find_free_spec rl (ram 0 0xffff) 0x3000 12 _ _ _ _ _ _ _);
    repeat constructor; by_eval.
Defined.

Lemma find_free_rev_spec_witness :
  exists a, find_free_rev 3 (ram 0x1000 0xffff) 0x1000 12
              (rl_set_regs [ram 0x4000 0x4fff; ram 0xe000 0xefff] rl) = Ret a /\
    0x1000 <= a /\ a + 0x1000 - 1 <= 0xffff.
Proof.
  destruct (find_free_rev_spec (rl_set_regs [ram 0x4000 0x4fff; ram 0xe000 0xefff] rl)
              (ram 0x1000 0xffff) 0x1000 12) as [(a & E & Ha & _)|[E Hno]];
    [repeat constructor; by_eval ..| |].
  - exists a. split; [exact E|]. destruct Ha as (H1 & H2 & _). exact (conj H1 H2).
  - exfalso. apply (Hno 0x1000). split; [by_eval|]. split; [by_eval|]. split; [by_eval|].
    intros x Hx Hc. apply Exists_exists in Hc as (r & Hr & Hc). unfold in_region in Hc.
    change (l4_round_size 0x1000 12) with 0x1000 in Hx.
    destruct Hr as [<-|[<-|[]]]; cbn in Hc; lia.
Defined.

Lemma add_at_limit_asserts_witness :
  rl_add (ram 0x10000 0x1ffff) false
    (rl_init 4 0 (2 ^ 64 - 1) 0x10000) = Asserted.
Proof.
  refine (add_at_limit_asserts (ram 0x10000 0x1ffff) false
            (rl_init 4 0 (2 ^ 64 - 1) 0x10000) _ _ _); by_eval.
Defined.

(** [find_free_rev] subtracts without a check: in a search region that ends
    below the rounded size the subtraction wraps around, and on an empty list the
    function returns an address far outside of the search region. *)
Theorem find_free_rev_wraps :
  find_free_rev 1 (ram 0 0xfff) 0x1000 12 (rl_init 4 0 (2 ^ 64 - 1) (2 ^ 64 - 1))
  = Ret 0xfffffffffffff000.
Proof. by_eval. Qed.

(** [sub] loses memory: cutting the bytes 0x2000 to 0x4ffe out of an entry
    that ends at 0x4fff reports success and also drops the byte 0x4fff, which was
    not in the region to remove. *)
Theorem sub_drops_single_byte :
  exists rl', rl_sub (ram 0x2000 0x4ffe) rl = Ret (true, rl') /\
    covers (rl_regs rl) 0x4fff /\ ~ covers (rl_regs rl') 0x4fff.
Proof.
  exists (rl_set_regs [ram 0x1000 0x1fff; ram 0x8000 0x9fff] rl). split; [by_eval|]. split.
  - constructor. unfold in_region. cbn. lia.
  - intros Hc. apply Exists_exists in Hc as (r & [<-|[<-|[]]] & Hr); unfold in_region in Hr;
      cbn in Hr; lia.
Qed.
End Region_example.
