(* ===== verification/Reservations.v ===== *)
(** * Memory reservations of the 32-bit boot stage

    [pkg/bootstrap/server/src/ARCH-amd64/boot32/support.c]: the table of memory
    areas that later allocations must not touch.  The stage is compiled for
    32-bit mode, so [unsigned long] and pointers have 32 bits; an out-of-space
    [panic] never returns. *)

From S2P Require Import Prelude L4Round.

(** [struct Area] *)
Record Area := { a_start : Z; a_size : Z }.

#[global] Instance area_eq_dec : EqDecision Area.
Proof. solve_decision. Defined.

Definition Max_reservations : nat := 16.

Definition is_range_in_4g (start size : Z) : bool :=
  (size <=? 2 ^ 32) && (start <=? 2 ^ 32 - size).

(** The loop of [reservation_add]: [Some] table when an entry takes the area. *)
Fixpoint reservation_merge (_start _size : Z) (l : list Area) : option (list Area) :=
  match l with
  | [] => None
  | r :: t =>
      if (a_start r <=? _start) && (_start +[32] _size <=? a_start r +[32] a_size r)
      then Some (r :: t)
      else if a_start r +[32] a_size r =? _start
      then Some ({| a_start := a_start r; a_size := a_size r +[32] _size |} :: t)
      else if a_start r =? _start +[32] _size
      then Some ({| a_start := _start; a_size := a_size r |} :: t)
      else cons r <$> reservation_merge _start _size t
  end.

(** The last entry of a full table is stretched. *)
Definition reservation_stretch (_start _size : Z) (e : Area) : Area :=
  let e := if _start <? a_start e then {| a_start := _start; a_size := a_size e |} else e in
  if a_start e +[32] a_size e <? _start +[32] _size
  then {| a_start := a_start e; a_size := u32 (_start + _size - a_start e) |} else e.

Definition overlaps_reservation (l : list Area) (start size : Z) : Z :=
  match
    list_find (fun r => (a_start r <? start +[32] size)
                        && (start <? a_start r +[32] a_size r) = true) l
  with
  | Some (_, r) => a_start r +[32] a_size r
  | None => 0
  end.

Section Reservation_add.
Context `{!L4_round 32}.

Definition reservation_add (start size : Z) (l : list Area) : run (list Area) :=
  let _start := l4_trunc_page start in
  let _size := l4_round_page (u32 (start - _start + size)) in
  if negb (is_range_in_4g _start _size) then Panicked
  else
    match reservation_merge _start _size l with
    | Some l' => Ret l'
    | None =>
        if (length l <? Max_reservations)%nat
        then Ret (l ++ [{| a_start := _start; a_size := _size |}])
        else Ret (alter (reservation_stretch _start _size) (pred Max_reservations) l)
    end.

End Reservation_add.

(** ** Specification *)

(** Address [x] lies in the area. *)
Definition in_area (r : Area) (x : Z) : Prop := a_start r <= x < a_start r + a_size r.

Definition reserved (l : list Area) (x : Z) : Prop := Exists (fun r => in_area r x) l.

(** A non-empty area that ends below 4 GiB, so that its end is representable. *)
Definition area_ok (r : Area) : Prop :=
  0 <= a_start r /\ 0 < a_size r /\ a_start r + a_size r < 2 ^ 32.

Definition table_ok (l : list Area) : Prop :=
  Forall area_ok l /\ (length l <= Max_reservations)%nat.

#[global] Instance area_ok_dec r : Decision (area_ok r).
Proof. unfold area_ok. apply _. Defined.

Lemma area_end r : area_ok r -> a_start r +[32] a_size r = a_start r + a_size r.
Proof. intros Hr. apply uwrap_small. unfold area_ok, in_u in *. lia. Qed.

Lemma reserved_cons r l x : reserved (r :: l) x <-> in_area r x \/ reserved l x.
Proof. apply Exists_cons. Qed.

Lemma reserved_app l1 l2 x : reserved (l1 ++ l2) x <-> reserved l1 x \/ reserved l2 x.
Proof. apply Exists_app. Qed.

(** ** The overlap test *)

(** The overlap test, for this table and its callers. *)
Lemma overlaps_reservation_test l start size :
  Forall area_ok l -> 0 <= start -> 0 < size -> start + size < 2 ^ 32 ->
  let e := overlaps_reservation l start size in
  (e = 0 <-> forall x, start <= x < start + size -> ~ reserved l x) /\
  (e <> 0 -> exists r, r ∈ l /\ e = a_start r + a_size r /\ start < e /\
     exists x, start <= x < start + size /\ in_area r x).
Proof.
  intros Hok Hs Hsz Hlim. cbn zeta. unfold overlaps_reservation.
  rewrite (uwrap_small 32 (start + size)) by (unfold in_u; lia).
  destruct (list_find _ l) as [[i r]|] eqn:E.
  - apply list_find_Some in E as (Hi & Hr & _).
    pose proof (proj1 (Forall_lookup _ _) Hok i r Hi) as Hrok. cbn in Hrok.
    rewrite (area_end r Hrok) in *. apply andb_true_iff in Hr as [Hr1%Z.ltb_lt Hr2%Z.ltb_lt].
    unfold area_ok in Hrok.
    assert (Hx : exists x, start <= x < start + size /\ in_area r x).
    { exists (Z.max start (a_start r)). unfold in_area. lia. }
    split.
    + split; [lia|]. intros Hno. destruct Hx as (x & Hx & Hin). exfalso. apply (Hno x Hx).
      apply Exists_exists. exists r. split; [|done].
      apply list_elem_of_In. by apply list_elem_of_lookup_2 in Hi.
    + intros _. exists r. split; [by apply list_elem_of_lookup_2 in Hi|]. split; [done|].
      split; [lia|done].
  - split; [|done]. split; [|done]. intros _ x Hx Hres.
    apply list_find_None in E. apply Exists_exists in Hres as (r & Hr & Hin).
    rewrite Forall_forall in E, Hok. apply (E r Hr). specialize (Hok r Hr).
    rewrite (area_end r Hok). unfold in_area in Hin. apply andb_true_iff.
    split; apply Z.ltb_lt; lia.
Qed.

(** [overlaps_reservation] returns 0 exactly when no byte of the tested block
    is reserved; otherwise it returns the end of a reservation that shares a byte
    with the block, which lies behind the start of the block. *)
Theorem overlaps_reservation_spec l start size :
  Forall area_ok l -> 0 <= start -> 0 < size -> start + size < 2 ^ 32 ->
  let e := overlaps_reservation l start size in
  (e = 0 <-> forall x, start <= x < start + size -> ~ reserved l x) /\
  (e <> 0 -> exists r, r ∈ l /\ e = a_start r + a_size r /\ start < e /\
     exists x, start <= x < start + size /\ in_area r x).
Proof. apply overlaps_reservation_test. Qed.

(** ** Adding an area *)

(** Without an entry that starts where the new area ends, merging adds exactly
    the new area. *)
Lemma reservation_merge_spec n l l' :
  Forall area_ok l -> area_ok n ->
  Forall (fun r => a_start r <> a_start n + a_size n) l ->
  reservation_merge (a_start n) (a_size n) l = Some l' ->
  Forall area_ok l' /\ length l' = length l /\
  forall x, reserved l' x <-> reserved l x \/ in_area n x.
Proof.
  intros Hok Hn. revert l'. induction Hok as [|r t Hr Hok IH]; intros l' Hne; cbn; [done|].
  apply Forall_cons_iff in Hne as [Hne Hnt].
  rewrite (area_end r Hr), (area_end n Hn). unfold area_ok in Hr, Hn.
  destruct (Z.leb_spec (a_start r) (a_start n)), (Z.leb_spec (a_start n + a_size n)
    (a_start r + a_size r)); cbn [andb].
  1:{ intros [= <-]. split; [by constructor|]. split; [done|]. intros x.
      rewrite reserved_cons. assert (in_area n x -> in_area r x) by (unfold in_area; lia).
      tauto. }
  all: destruct (Z.eqb_spec (a_start r + a_size r) (a_start n)) as [E|E].
  1,3,5: intros [= <-]; rewrite uwrap_small by (unfold in_u; lia);
    split; [constructor; [unfold area_ok; cbn; lia|done]|]; split; [done|];
    intros x; rewrite !reserved_cons;
    enough (in_area {| a_start := a_start r; a_size := a_size r + a_size n |} x
            <-> in_area r x \/ in_area n x) by tauto; unfold in_area; cbn; lia.
  all: rewrite (proj2 (Z.eqb_neq _ _) Hne).
  all: destruct (reservation_merge (a_start n) (a_size n) t) as [t'|]; [|done];
    intros [= <-]; destruct (IH t' Hnt eq_refl) as (? & ? & Hres);
    split; [by constructor|]; split; [cbn; congruence|];
    intros x; rewrite !reserved_cons, Hres; tauto.
Qed.

Section Reservation_laws.
Context `{!L4_round 32}.

(** The whole pages [reservation_add] makes of an area. *)
Definition pages_of (start size : Z) : Area :=
  {| a_start := l4_trunc_page start;
     a_size := l4_round_page (start - l4_trunc_page start + size) |}.

Lemma pages_of_spec start size :
  0 <= start -> 0 < size -> start + size + l4_pagesize <= 2 ^ 32 ->
  area_ok (pages_of start size) /\
  u32 (start - l4_trunc_page start + size) = start - l4_trunc_page start + size /\
  is_range_in_4g (a_start (pages_of start size)) (a_size (pages_of start size)) = true /\
  forall x, start <= x < start + size -> in_area (pages_of start size) x.
Proof.
  intros Hs Hsz Hlim. pose proof l4_pageshift_ok. pose proof pagesize_pos.
  unfold pages_of, area_ok, in_area, l4_round_page, l4_trunc_page, l4_pagesize in *.
  cbn [a_start a_size].
  destruct (trunc_size_bounds start l4_pageshift) as (Ht & Ht0 & _); [unfold in_u; lia|lia|].
  destruct (round_size_bounds (start - l4_trunc_size start l4_pageshift + size) l4_pageshift)
    as [Hr _]; [unfold in_u; lia|lia|lia|].
  split; [lia|]. split; [apply uwrap_small; unfold in_u; lia|].
  split; [unfold is_range_in_4g; lia|lia].
Qed.

Lemma reservation_add_unfold start size l :
  0 <= start -> 0 < size -> start + size + l4_pagesize <= 2 ^ 32 ->
  let n := pages_of start size in
  reservation_add start size l =
    match reservation_merge (a_start n) (a_size n) l with
    | Some l' => Ret l'
    | None =>
        if (length l <? Max_reservations)%nat then Ret (l ++ [n])
        else Ret (alter (reservation_stretch (a_start n) (a_size n)) (pred Max_reservations) l)
    end.
Proof.
  intros Hs Hsz Hlim. destruct (pages_of_spec start size Hs Hsz Hlim) as (_ & E & Hg & _).
  unfold reservation_add. cbn zeta. rewrite E. unfold pages_of in *. cbn [a_start a_size] in *.
  by rewrite Hg.
Qed.

(** [reservation_add] reserves the pages of the area and keeps every earlier
    reservation: the table stays well-formed, and an address is reserved
    afterwards exactly when it was before or lies in one of the pages, which
    include the whole area.  This holds as long as the table has a free entry and
    no earlier reservation starts right where the new pages end. *)
Theorem reservation_add_spec start size l :
  table_ok l -> 0 <= start -> 0 < size -> start + size + l4_pagesize <= 2 ^ 32 ->
  (length l < Max_reservations)%nat ->
  Forall (fun r => a_start r <> a_start (pages_of start size) + a_size (pages_of start size)) l ->
  exists l', reservation_add start size l = Ret l' /\ table_ok l' /\
    (forall x, reserved l' x <-> reserved l x \/ in_area (pages_of start size) x) /\
    forall x, start <= x < start + size -> reserved l' x.
Proof.
  intros [Hok Hlen] Hs Hsz Hlim Hroom Hne.
  destruct (pages_of_spec start size Hs Hsz Hlim) as (Hn & _ & _ & Hin).
  rewrite reservation_add_unfold by done. cbn zeta. rewrite (proj2 (Nat.ltb_lt _ _) Hroom).
  destruct (reservation_merge _ _ l) as [l'|] eqn:E.
  - destruct (reservation_merge_spec _ _ _ Hok Hn Hne E) as (? & ? & Hres).
    exists l'. split; [done|]. split; [split; [done|lia]|]. split; [done|].
    intros x Hx. apply Hres. right. by apply Hin.
  - assert (Hres : forall x, reserved (l ++ [pages_of start size]) x <->
                             reserved l x \/ in_area (pages_of start size) x).
    { intros x. rewrite reserved_app, reserved_cons.
      enough (~ reserved [] x) by tauto. intros Hx%Exists_nil. done. }
    eexists. split; [done|]. split.
    + split; [apply Forall_app; split; [done|by constructor]|]. rewrite length_app. cbn. lia.
    + split; [done|]. intros x Hx. apply Hres. right. by apply Hin.
Qed.

(** The branch for an area that ends right where an entry starts moves the
    entry's start down and leaves its size: of a table with that one entry, the
    last bytes of the earlier reservation are no longer reserved. *)
Theorem reservation_before_loses start size r :
  area_ok r -> 0 <= start -> 0 < size -> start + size + l4_pagesize <= 2 ^ 32 ->
  a_start r = a_start (pages_of start size) + a_size (pages_of start size) ->
  exists l', reservation_add start size [r] = Ret l' /\
    l' = [{| a_start := l4_trunc_page start; a_size := a_size r |}] /\
    reserved [r] (a_start r + a_size r - 1) /\ ~ reserved l' (a_start r + a_size r - 1).
Proof.
  intros Hr Hs Hsz Hlim E.
  destruct (pages_of_spec start size Hs Hsz Hlim) as (Hn & _ & _ & _).
  rewrite reservation_add_unfold by done. cbn zeta. cbn [reservation_merge].
  rewrite (area_end r Hr), (area_end _ Hn), E, Z.eqb_refl. unfold area_ok in Hr, Hn.
  rewrite E in Hr. set (n := pages_of start size) in *.
  rewrite (proj2 (Z.leb_gt (a_start n + a_size n) (a_start n))) by lia. cbn [andb].
  rewrite (proj2 (Z.eqb_neq (a_start n + a_size n + a_size r) (a_start n))) by lia.
  eexists. split; [done|]. split; [done|]. unfold reserved. rewrite !Exists_cons, !Exists_nil.
  unfold in_area. cbn [a_start a_size]. split; [left; lia|]. intros [?|[]]. lia.
Qed.

(** A full table: an area that no entry takes and that lies wholly below the
    last entry moves that entry's start down without changing its size, so that
    the bytes the last entry reserved before are no longer in it. *)
Theorem reservation_full_loses start size l e :
  table_ok l -> 0 <= start -> 0 < size -> start + size + l4_pagesize <= 2 ^ 32 ->
  l !! pred Max_reservations = Some e ->
  a_start (pages_of start size) + a_size (pages_of start size) <= a_start e ->
  a_size (pages_of start size) <= a_size e ->
  reservation_merge (a_start (pages_of start size)) (a_size (pages_of start size)) l = None ->
  exists l' e', reservation_add start size l = Ret l' /\
    l' !! pred Max_reservations = Some e' /\
    in_area e (a_start e + a_size e - 1) /\ ~ in_area e' (a_start e + a_size e - 1).
Proof.
  intros [Hok Hlen] Hs Hsz Hlim He Hle Hsm Hm.
  destruct (pages_of_spec start size Hs Hsz Hlim) as (Hn & _ & _ & _).
  pose proof (proj1 (Forall_lookup _ _) Hok _ e He) as Heok. cbn beta in Heok.
  rewrite reservation_add_unfold by done. cbn zeta. rewrite Hm.
  apply lookup_lt_Some in He as Hlt. unfold Max_reservations in Hlt, Hlen. cbn in Hlt.
  rewrite (proj2 (Nat.ltb_ge _ _)) by (unfold Max_reservations; lia).
  eexists _, (reservation_stretch (a_start (pages_of start size)) (a_size (pages_of start size)) e).
  split; [done|]. split; [by rewrite list_lookup_alter, He|].
  unfold area_ok in *. set (n := pages_of start size) in *.
  unfold in_area, reservation_stretch. split; [lia|].
  rewrite (proj2 (Z.ltb_lt (a_start n) (a_start e))) by lia. cbn [a_start a_size].
  rewrite !uwrap_small by (unfold in_u; lia).
  rewrite (proj2 (Z.ltb_ge _ _)) by lia. cbn [a_start a_size]. lia.
Qed.

End Reservation_laws.

(** ** Examples *)

Module Reservation_example.
#[local] Existing Instance round32.

Definition image : Area := {| a_start := 0x100000; a_size := 0x80000 |}.

Lemma overlaps_reservation_spec_witness :
  let e := overlaps_reservation [image] 0x17f000 0x2000 in
  (e = 0 <-> forall x, 0x17f000 <= x < 0x17f000 + 0x2000 -> ~ reserved [image] x) /\
  (e <> 0 -> exists r, r ∈ [image] /\ e = a_start r + a_size r /\ 0x17f000 < e /\
     exists x, 0x17f000 <= x < 0x17f000 + 0x2000 /\ in_area r x).
Proof.
  refine (overlaps_reservation_spec [image] 0x17f000 0x2000 _ _ _ _); repeat constructor; by_eval.
Defined.

Lemma reservation_add_spec_witness :
  exists l', reservation_add 0x1234 0x100 [image] = Ret l' /\ table_ok l' /\
    (forall x, reserved l' x <-> reserved [image] x \/ in_area (pages_of 0x1234 0x100) x) /\
    forall x, 0x1234 <= x < 0x1234 + 0x100 -> reserved l' x.
Proof.
  refine (reservation_add_spec 0x1234 0x100 [image] _ _ _ _ _ _); [|by_eval..|].
  - split; [repeat constructor; by_eval|by_eval].
  - repeat constructor. by_eval.
Defined.

Lemma reservation_before_loses_witness :
  exists l', reservation_add 0xff000 0x1000 [image] = Ret l' /\
    l' = [{| a_start := l4_trunc_page 0xff000; a_size := a_size image |}] /\
    reserved [image] (a_start image + a_size image - 1) /\
    ~ reserved l' (a_start image + a_size image - 1).
Proof. refine (reservation_before_loses 0xff000 0x1000 image _ _ _ _ _); by_eval. Defined.

(** Sixteen separate pages. *)
Definition full : list Area :=
  (fun i => {| a_start := 0x100000 + 0x10000 * Z.of_nat i; a_size := 0x1000 |}) <$> seq 0 16.

Lemma reservation_full_loses_witness :
  exists l' e', reservation_add 0x40000 0x800 full = Ret l' /\
    l' !! pred Max_reservations = Some e' /\
    in_area {| a_start := 0x1f0000; a_size := 0x1000 |} (0x1f0000 + 0x1000 - 1) /\
    ~ in_area e' (0x1f0000 + 0x1000 - 1).
Proof.
  refine (reservation_full_loses 0x40000 0x800 full {| a_start := 0x1f0000; a_size := 0x1000 |}
            _ _ _ _ _ _ _ _); [|by_eval..].
  split; [repeat constructor; by_eval|by_eval].
Defined.
End Reservation_example.
