(* ===== verification/MmAlloc.v ===== *)
(** * The memory allocator of the 32-bit boot stage

    [pkg/bootstrap/server/src/ARCH-amd64/boot32/mm_alloc.c]: memory for the
    relocated 64-bit stage, taken from the RAM ranges of the multiboot memory map
    around the reservations of [Reservations].  The accessors of the multiboot
    map belong to a library; [Mb_mmap] is their interface and [mb_layout] what
    the allocator relies on.  Pointers are addresses, 0 is the null pointer. *)

From S2P Require Import Prelude L4Round Reservations.

(** The fields of [l4util_mb_addr_range_t] the allocator reads; [mr_memory]: the
    type is [MB_ART_MEMORY]. *)
Record mb_range := { mr_memory : bool; mr_addr : Z; mr_size : Z }.

Class Mb_mmap := {
  mmap_addr : Z;
  mmap_length : Z;
  l4util_mb_first_mmap_entry : Z;
  l4util_mb_next_mmap_entry : Z -> Z;
  (** the entry at an address; [None]: there is none, the access is invalid *)
  mb_entry : Z -> option mb_range;
}.

(** [mm_alloc_state]; [mbi] is the map itself. *)
Record mm_alloc_state := { ma_range : Z; ma_used : Z }.

Definition mm_alloc_init (st : mm_alloc_state) : mm_alloc_state :=
  {| ma_range := 0; ma_used := ma_used st |}.

Section Mm_alloc.
Context `{!Mb_mmap}.

Definition mm_alloc_range_in_map (range : Z) : bool :=
  (mmap_addr <=? range) && (range <? mmap_addr +[32] mmap_length).

Definition range_in_4G_for_size (size : Z) (st : mm_alloc_state) : run bool :=
  r ← or_oob (mb_entry (ma_range st));
  mret ((size <=? mr_size r -[64] ma_used st)
        && (u64 (mr_addr r + ma_used st + size) <=? 2 ^ 32)).

(** The loop of [next_ram_range]. *)
Fixpoint next_ram_loop (fuel : nat) (size : Z) (st : mm_alloc_state) : run mm_alloc_state :=
  match fuel with
  | O => Fuel_out
  | S f =>
      if ma_range st =? 0 then Ret st
      else
        r ← or_oob (mb_entry (ma_range st));
        fits ← (if mr_memory r then range_in_4G_for_size size st else Ret false);
        if (fits : bool) then Ret st
        else
          let n := l4util_mb_next_mmap_entry (ma_range st) in
          next_ram_loop f size
            {| ma_range := if mm_alloc_range_in_map n then n else 0; ma_used := ma_used st |}
  end.

Definition next_ram_range (fuel : nat) (size : Z) (st : mm_alloc_state) : run mm_alloc_state :=
  next_ram_loop fuel size
    {| ma_range := if ma_range st =? 0 then l4util_mb_first_mmap_entry
                   else l4util_mb_next_mmap_entry (ma_range st);
       ma_used := 0 |}.

(** The loop of [mm_alloc_alloc]. *)
Fixpoint mm_alloc_loop (fuel nfuel : nat) (resv : list Area) (size : Z) (st : mm_alloc_state)
  : run (Z * mm_alloc_state) :=
  match fuel with
  | O => Fuel_out
  | S f =>
      if ma_range st =? 0 then Ret (0, st)
      else
        r ← or_oob (mb_entry (ma_range st));
        let result := u32 (u32 (mr_addr r) + ma_used st) in
        let overlap := overlaps_reservation resv result size in
        if overlap =? 0 then
          Ret (result, {| ma_range := ma_range st; ma_used := ma_used st +[32] size |})
        else
          let st := {| ma_range := ma_range st; ma_used := u32 (overlap - mr_addr r) |} in
          more ← (if mr_size r <=? ma_used st then Ret true
                  else fits ← range_in_4G_for_size size st; Ret (negb fits));
          st ← (if (more : bool) then next_ram_range nfuel size st else Ret st);
          mm_alloc_loop f nfuel resv size st
  end.

Definition mm_alloc_alloc (fuel nfuel : nat) (resv : list Area) (size : Z)
  (st : mm_alloc_state) : run (Z * mm_alloc_state) :=
  more ← (if ma_range st =? 0 then Ret true
          else fits ← range_in_4G_for_size size st; Ret (negb fits));
  st ← (if (more : bool) then next_ram_range nfuel size st else Ret st);
  mm_alloc_loop fuel nfuel resv size st.

(** ** What the map looks like *)

(** The entries lie at [ptrs], one after the other, inside the bounds the map
    gives; behind the last one there is no entry. *)
Record mb_layout (ptrs : list Z) : Prop := {
  lay_first : l4util_mb_first_mmap_entry = default 0 (ptrs !! 0%nat);
  lay_entry i p : ptrs !! i = Some p ->
    0 < p /\ mmap_addr <= p < mmap_addr + mmap_length /\
    exists r, mb_entry p = Some r /\ 0 <= mr_addr r /\ 0 <= mr_size r /\
      mr_addr r + mr_size r < 2 ^ 64;
  lay_next i p : ptrs !! i = Some p ->
    l4util_mb_next_mmap_entry p = default (mmap_addr + mmap_length) (ptrs !! S i);
  lay_end : mb_entry (mmap_addr + mmap_length) = None /\ 0 < mmap_addr + mmap_length < 2 ^ 32;
}.

(** The range a state stands at: RAM, filled up to [ma_used]. *)
Definition at_range (ptrs : list Z) (st : mm_alloc_state) (i : nat) (r : mb_range) : Prop :=
  ptrs !! i = Some (ma_range st) /\ mb_entry (ma_range st) = Some r /\ mr_memory r = true /\
  0 <= mr_addr r /\ 0 <= mr_size r /\ mr_addr r + mr_size r < 2 ^ 64 /\
  0 <= ma_used st <= mr_size r /\ mr_addr r + ma_used st <= 2 ^ 32.

(** The block [size] bytes long at the fill mark fits the range and 4 GiB. *)
Definition fits_range (size : Z) (st : mm_alloc_state) (r : mb_range) : Prop :=
  ma_used st + size <= mr_size r /\ mr_addr r + ma_used st + size <= 2 ^ 32.

Lemma range_in_4G_spec ptrs size st i r :
  0 < size < 2 ^ 32 -> at_range ptrs st i r ->
  exists b : bool, range_in_4G_for_size size st = Ret b /\ (b = true <-> fits_range size st r).
Proof.
  intros Hs (_ & E & _ & ? & ? & ? & ? & ?). unfold range_in_4G_for_size. rewrite E.
  cbn [or_oob mbind run_bind]. eexists. split; [done|].
  rewrite !uwrap_small by (unfold in_u; lia). unfold fits_range. lia.
Qed.

(** A range the allocator turns to, still empty. *)
Lemma fresh_range ptrs size i p :
  mb_layout ptrs -> 0 < size < 2 ^ 32 -> ptrs !! i = Some p ->
  exists r (b : bool), mb_entry p = Some r /\
    range_in_4G_for_size size {| ma_range := p; ma_used := 0 |} = Ret b /\
    (mr_memory r = true -> b = true ->
       at_range ptrs {| ma_range := p; ma_used := 0 |} i r /\
       fits_range size {| ma_range := p; ma_used := 0 |} r).
Proof.
  intros Hlay Hs Hi. destruct (lay_entry _ Hlay i p Hi) as (Hp & _ & r & Er & Ha & Hsz & Hend).
  unfold range_in_4G_for_size. cbn. rewrite Er. cbn. eexists r, _. split; [done|].
  split; [done|]. intros Hm Hb. apply andb_true_iff in Hb as [Hb1 Hb2].
  rewrite uwrap_small in Hb1 by (unfold in_u; lia).
  rewrite uwrap_small in Hb2 by (unfold in_u; lia).
  unfold at_range, fits_range. cbn. rewrite Er. repeat split; try done; lia.
Qed.

(** The pointer behind entry [i]: in the map exactly when there is an entry. *)
Lemma next_in_map ptrs i p :
  mb_layout ptrs -> ptrs !! i = Some p ->
  mm_alloc_range_in_map (l4util_mb_next_mmap_entry p) = true /\
    ptrs !! S i = Some (l4util_mb_next_mmap_entry p) \/
  mm_alloc_range_in_map (l4util_mb_next_mmap_entry p) = false /\ ptrs !! S i = None /\
    l4util_mb_next_mmap_entry p = mmap_addr + mmap_length.
Proof.
  intros Hlay Hi. pose proof (lay_next _ Hlay i p Hi) as En.
  destruct (lay_end _ Hlay) as [_ Hend]. unfold mm_alloc_range_in_map.
  destruct (ptrs !! S i) as [q|] eqn:Hq; cbn in En; rewrite En.
  - left. destruct (lay_entry _ Hlay _ _ Hq) as (? & ? & _). split; [|done].
    unfold uwrap. rewrite Z.mod_small by lia. lia.
  - right. unfold uwrap. rewrite Z.mod_small by lia. split; [lia|done].
Qed.

(** The state after a search: no range, or one of index at least [i] that fits. *)
Definition found_from (ptrs : list Z) (size : Z) (i : nat) (st : mm_alloc_state) : Prop :=
  ma_range st = 0 \/
  exists j r, (i <= j)%nat /\ at_range ptrs st j r /\ fits_range size st r.

Lemma next_ram_loop_spec ptrs size fuel i p :
  mb_layout ptrs -> 0 < size < 2 ^ 32 -> ptrs !! i = Some p ->
  (length ptrs - i < fuel)%nat ->
  exists st, next_ram_loop fuel size {| ma_range := p; ma_used := 0 |} = Ret st /\
    found_from ptrs size i st.
Proof.
  intros Hlay Hs. revert i p. induction fuel as [|f IH]; intros i p Hi Hf; [lia|].
  apply lookup_lt_Some in Hi as Hlt. cbn [next_ram_loop ma_range].
  destruct (lay_entry _ Hlay i p Hi) as (Hp & _). rewrite (proj2 (Z.eqb_neq p 0)) by lia.
  destruct (fresh_range ptrs size i p Hlay Hs Hi) as (r & b & -> & Eb & Hat).
  cbn [or_oob mbind run_bind]. rewrite Eb.
  assert (Hnext : exists st, next_ram_loop f size
            {| ma_range := if mm_alloc_range_in_map (l4util_mb_next_mmap_entry p)
                           then l4util_mb_next_mmap_entry p else 0;
               ma_used := 0 |} = Ret st /\ found_from ptrs size i st).
  { destruct (next_in_map ptrs i p Hlay Hi) as [[-> Hq]|(-> & _ & _)].
    - apply lookup_lt_Some in Hq as Hlt'. destruct (IH (S i) _ Hq ltac:(lia)) as (st & E & Hst).
      exists st. split; [done|]. destruct Hst as [?|(j & r' & ? & ?)]; [by left|].
      right. exists j, r'. split; [lia|done].
    - exists {| ma_range := 0; ma_used := 0 |}. split; [|by left]. destruct f; [lia|done]. }
  destruct (mr_memory r); [|exact Hnext]. destruct b; [|exact Hnext].
  eexists. split; [done|]. right. exists i, r. split; [done|]. by apply Hat.
Qed.

(** [next_ram_range]: it leaves the map only from its last entry, and then reads
    what lies behind the map. *)
Lemma next_ram_range_spec ptrs size nfuel st k :
  mb_layout ptrs -> 0 < size < 2 ^ 32 -> (length ptrs < nfuel)%nat ->
  (ma_range st = 0 /\ k = 0%nat) \/ (exists i, k = S i /\ ptrs !! i = Some (ma_range st)) ->
  (next_ram_range nfuel size st = Oob /\ k <> 0%nat /\ ptrs !! k = None) \/
  exists st', next_ram_range nfuel size st = Ret st' /\ found_from ptrs size k st'.
Proof.
  intros Hlay Hs Hf Hk. unfold next_ram_range. destruct Hk as [[E ->]|(i & -> & Hi)].
  - right. rewrite E. cbn. rewrite (lay_first _ Hlay). destruct (ptrs !! 0%nat) as [p|] eqn:H0.
    + cbn. destruct (next_ram_loop_spec ptrs size nfuel 0 p) as (st' & ? & ?); [done..|lia|eauto].
    + cbn. eexists. split; [destruct nfuel; [lia|done]|by left].
  - destruct (lay_entry _ Hlay i _ Hi) as (Hp & _). rewrite (proj2 (Z.eqb_neq _ 0)) by lia.
    apply lookup_lt_Some in Hi as Hlt.
    destruct (next_in_map ptrs i _ Hlay Hi) as [[_ Hq]|(_ & Hno & En)].
    + right. apply (next_ram_loop_spec ptrs size nfuel (S i)); (done || lia).
    + left. rewrite En. destruct (lay_end _ Hlay) as [Hend Hpos].
      split; [|by split]. destruct nfuel; [lia|]. cbn.
      rewrite (proj2 (Z.eqb_neq _ 0)) by lia. by rewrite Hend.
Qed.

(** The reservations that end behind address [a]. *)
Definition resv_ahead (a : Z) (resv : list Area) : nat :=
  length (filter (fun r => a < a_start r + a_size r) resv).

Lemma resv_ahead_le a b resv : a <= b -> (resv_ahead b resv <= resv_ahead a resv)%nat.
Proof.
  intros. unfold resv_ahead. induction resv as [|y resv IH]; [done|].
  rewrite !filter_cons. repeat case_decide; cbn; lia.
Qed.

Lemma resv_ahead_lt a b resv r :
  r ∈ resv -> a < a_start r + a_size r <= b -> (resv_ahead b resv < resv_ahead a resv)%nat.
Proof.
  intros (l1 & l2 & ->)%list_elem_of_split Hb.
  pose proof (resv_ahead_le a b l1 ltac:(lia)). pose proof (resv_ahead_le a b l2 ltac:(lia)).
  unfold resv_ahead in *. rewrite !list.filter_app, !length_app, !filter_cons.
  rewrite (decide_False (P := b < _)), (decide_True (P := a < _)) by lia. cbn. lia.
Qed.

(** What a returned block is: RAM inside the range of the new state, below
    4 GiB, ending at the fill mark, free of reservations, and not before
    address [a] of the [i]-th range. *)
Definition good_block (ptrs : list Z) (resv : list Area) (size : Z) (i : nat) (a : Z)
  (p : Z) (st : mm_alloc_state) : Prop :=
  exists j r, at_range ptrs st j r /\ ((i < j)%nat \/ (i = j /\ a <= p)) /\
    mr_addr r <= p /\ p + size = mr_addr r + ma_used st /\
    p + size < 2 ^ 32 /\ forall x, p <= x < p + size -> ~ reserved resv x.

Lemma good_block_weaken ptrs resv size i a i' a' p st :
  (i < i')%nat \/ (i = i' /\ a <= a') ->
  good_block ptrs resv size i' a' p st -> good_block ptrs resv size i a p st.
Proof.
  intros Hle (j & r & Hat & Hpos & Hrest). exists j, r. split; [done|]. split; [|done]. lia.
Qed.

(** No RAM range reaches or crosses the 4 GiB boundary. *)
Definition ram_below_4g : Prop :=
  forall p r, mb_entry p = Some r -> mr_memory r = true ->
    mr_addr r + mr_size r < 2 ^ 32 \/ 2 ^ 32 <= mr_addr r.

(** The outcomes of the allocation loop from position [i], [a]. *)
Definition alloc_outcome (ptrs : list Z) (resv : list Area) (size : Z) (i : nat) (a : Z)
  (res : run (Z * mm_alloc_state)) : Prop :=
  res = Oob \/
  exists p st', res = Ret (p, st') /\
    ((p = 0 /\ ma_range st' = 0) \/ good_block ptrs resv size i a p st').

Lemma alloc_outcome_weaken ptrs resv size i a i' a' res :
  (i < i')%nat \/ (i = i' /\ a <= a') ->
  alloc_outcome ptrs resv size i' a' res -> alloc_outcome ptrs resv size i a res.
Proof.
  intros Hle [?|(p & st & ? & Hp)]; [by left|]. right. exists p, st. split; [done|].
  destruct Hp; [by left|]. right. by eapply good_block_weaken.
Qed.

(** The measure of the loop: the ranges left, and the reservations ahead in this
    one. *)
Definition rounds (ptrs : list Z) (resv : list Area) (i : nat) (a : Z) : nat :=
  (length ptrs - i) * S (length resv) + resv_ahead a resv.

Lemma rounds_next ptrs resv i j a b :
  (i < j)%nat -> (j < length ptrs)%nat -> (rounds ptrs resv j b < rounds ptrs resv i a)%nat.
Proof.
  intros Hij Hj. unfold rounds.
  assert (resv_ahead b resv <= length resv)%nat by apply length_filter. nia.
Qed.

(** Going on after a reservation was in the way: in this range if the block
    still fits behind it, or else in a later one. *)
Lemma alloc_advance ptrs resv size nfuel (k : mm_alloc_state -> run (Z * mm_alloc_state))
  st i r a (more : bool) :
  mb_layout ptrs -> 0 < size < 2 ^ 32 -> (length ptrs < nfuel)%nat ->
  ptrs !! i = Some (ma_range st) -> a <= mr_addr r + ma_used st ->
  (more = false ->
     alloc_outcome ptrs resv size i (mr_addr r + ma_used st) (k st)) ->
  (forall st', ma_range st' = 0 -> k st' = Ret (0, st')) ->
  (forall st' j r', (i < j)%nat -> at_range ptrs st' j r' -> fits_range size st' r' ->
     alloc_outcome ptrs resv size j (mr_addr r' + ma_used st') (k st')) ->
  alloc_outcome ptrs resv size i a
    (st' ← (if more then next_ram_range nfuel size st else Ret st); k st').
Proof.
  intros Hlay Hs Hnf Hi Ha Hstay Hnull Hlater. destruct more.
  - destruct (next_ram_range_spec ptrs size nfuel st (S i)) as [[-> _]|(st2 & -> & Hst2)];
      [done..|right; by exists i|by left|].
    cbn [mbind run_bind]. destruct Hst2 as [E|(j & r2 & Hij & Hat2 & Hfit2)].
    + right. exists 0, st2. rewrite Hnull by done. auto.
    + eapply alloc_outcome_weaken; [|by apply (Hlater st2 j r2)]. lia.
  - eapply alloc_outcome_weaken; [|by apply Hstay]. by right.
Qed.

Lemma mm_alloc_loop_null fuel nfuel resv size st :
  ma_range st = 0 -> mm_alloc_loop (S fuel) nfuel resv size st = Ret (0, st).
Proof. intros E. cbn. by rewrite E. Qed.

Lemma mm_alloc_loop_spec ptrs resv size nfuel fuel st i r :
  mb_layout ptrs -> ram_below_4g -> Forall area_ok resv -> 0 < size < 2 ^ 32 ->
  (length ptrs < nfuel)%nat -> at_range ptrs st i r -> fits_range size st r ->
  (rounds ptrs resv i (mr_addr r + ma_used st) < fuel)%nat ->
  alloc_outcome ptrs resv size i (mr_addr r + ma_used st)
    (mm_alloc_loop fuel nfuel resv size st).
Proof.
  intros Hlay Hram Hresv Hs Hnf. revert st i r.
  induction fuel as [|f IH]; intros st i r Hat Hfit Hf; [lia|].
  pose proof Hat as (Hi & Er & Hm & Ha & Hsz & Hend & Hu & Ha4).
  pose proof Hfit as [Hf1 Hf2]. apply lookup_lt_Some in Hi as Hlt.
  destruct (lay_entry _ Hlay i _ Hi) as (Hp & _).
  assert (Hr4 : mr_addr r + mr_size r < 2 ^ 32) by (destruct (Hram _ _ Er Hm); lia).
  cbn [mm_alloc_loop]. rewrite (proj2 (Z.eqb_neq _ 0)) by lia. rewrite Er.
  cbn [or_oob mbind run_bind]. rewrite (uwrap_small 32 (mr_addr r)) by (unfold in_u; lia).
  rewrite (uwrap_small 32 (mr_addr r + ma_used st)) by (unfold in_u; lia).
  destruct (overlaps_reservation_test resv (mr_addr r + ma_used st) size Hresv
              ltac:(lia) ltac:(lia) ltac:(lia)) as [Hfree Hhit].
  set (o := overlaps_reservation resv (mr_addr r + ma_used st) size) in *.
  destruct (Z.eqb_spec o 0) as [Ho|Ho].
  { right. eexists _, _. split; [done|]. right. exists i, r. cbn [ma_used ma_range].
    rewrite uwrap_small by (unfold in_u; lia). unfold at_range. cbn [ma_used ma_range].
    repeat split; try done; try lia. by apply Hfree. }
  destruct (Hhit Ho) as (a & Hain & Eo & Hgt & _).
  pose proof (proj1 (list.Forall_forall _ _) Hresv a Hain) as Haok. unfold area_ok in Haok.
  cbn [ma_used ma_range]. rewrite (uwrap_small 32 (o - mr_addr r)) by (unfold in_u; lia).
  set (st1 := {| ma_range := ma_range st; ma_used := o - mr_addr r |}).
  assert (Eo1 : mr_addr r + ma_used st1 = o) by (cbn; lia).
  assert (Hadv : forall more : bool, (more = false -> at_range ptrs st1 i r /\ fits_range size st1 r) ->
    alloc_outcome ptrs resv size i (mr_addr r + ma_used st)
      (st' ← (if more then next_ram_range nfuel size st1 else Ret st1);
       mm_alloc_loop f nfuel resv size st')).
  { intros more Hmore.
    pose proof (resv_ahead_lt (mr_addr r + ma_used st) o resv a Hain ltac:(lia)).
    apply (alloc_advance _ _ _ _ _ st1 i r); try done; [lia|..].
    - intros Hno. destruct (Hmore Hno). apply IH; try done. rewrite Eo1. unfold rounds in *. lia.
    - intros st' E. destruct f; [unfold rounds in Hf; lia|]. by apply mm_alloc_loop_null.
    - intros st' j r' Hij Hat' Hfit'. apply IH; try done. destruct Hat' as (Hj & _).
      apply lookup_lt_Some in Hj.
      pose proof (rounds_next ptrs resv i j (mr_addr r + ma_used st) (mr_addr r' + ma_used st') Hij Hj).
      lia. }
  destruct (Z.leb_spec (mr_size r) (o - mr_addr r)); [by apply Hadv|].
  assert (Hat1 : at_range ptrs st1 i r).
  { unfold at_range, st1. cbn. repeat split; try done; lia. }
  destruct (range_in_4G_spec ptrs size st1 i r Hs Hat1) as (b & -> & Hb).
  cbn [mbind run_bind]. apply Hadv. intros Hb'. split; [done|]. apply Hb. by destruct b.
Qed.

(** The states between two calls, and where the next block may lie. *)
Definition mm_state_at (ptrs : list Z) (st : mm_alloc_state) (i : nat) (a : Z) : Prop :=
  (ma_range st = 0 /\ i = 0%nat /\ a = 0) \/
  exists r, at_range ptrs st i r /\ a = mr_addr r + ma_used st.

(** [mm_alloc_alloc] ends, within a number of rounds given by the number of
    map entries and reservations.  Unless it reads behind the map, it returns null
    and stands at no range, or it returns a block that lies inside one RAM range
    of the map, below 4 GiB, touches no reservation and ends at the new fill mark
    of that range; the block is not before the fill mark the call started from, so
    it is disjoint from the blocks handed out since the allocator last started
    over. *)
Theorem mm_alloc_spec ptrs resv size st i a :
  mb_layout ptrs -> ram_below_4g -> Forall area_ok resv -> 0 < size < 2 ^ 32 ->
  mm_state_at ptrs st i a ->
  let result := mm_alloc_alloc (S (S (length ptrs) * S (length resv))) (S (length ptrs))
                  resv size st in
  result = Oob \/
  exists p st', result = Ret (p, st') /\
    ((p = 0 /\ ma_range st' = 0) \/ good_block ptrs resv size i a p st').
Proof.
  intros Hlay Hram Hresv Hs Hst. cbn zeta. set (fuel := (S (length ptrs) * S (length resv))%nat).
  assert (Hfuel : forall j b, (rounds ptrs resv j b < S fuel)%nat).
  { intros j b. unfold rounds, fuel.
    assert (resv_ahead b resv <= length resv)%nat by apply length_filter. nia. }
  unfold mm_alloc_alloc. destruct Hst as [(E0 & -> & ->)|(r & Hat & ->)].
  - rewrite E0. cbn [mbind run_bind Z.eqb].
    destruct (next_ram_range_spec ptrs size (S (length ptrs)) st 0) as [(_ & ? & _)|(st' & -> & Hst')];
      [done|done|lia|by left|done|]. cbn [mbind run_bind].
    destruct Hst' as [E|(j & r & Hj & Hat & Hfit)].
    + right. exists 0, st'. rewrite mm_alloc_loop_null by done. auto.
    + refine (alloc_outcome_weaken ptrs resv size 0 0 j (mr_addr r + ma_used st') _ _ _).
      * unfold at_range in Hat. lia.
      * apply mm_alloc_loop_spec; (done || lia).
  - pose proof Hat as (Hi & _). destruct (lay_entry _ Hlay i _ Hi) as (Hp & _).
    rewrite (proj2 (Z.eqb_neq _ 0)) by lia.
    destruct (range_in_4G_spec ptrs size st i r Hs Hat) as (b & -> & Hb).
    cbn [mbind run_bind].
    apply (alloc_advance _ _ _ _ _ st i r); try done; [lia|..].
    + intros Hno. apply mm_alloc_loop_spec; try done; [lia|]. apply Hb. by destruct b.
    + intros. by apply mm_alloc_loop_null.
    + intros. apply mm_alloc_loop_spec; (done || lia).
Qed.

(** A request that does not fit the last range of the map makes the allocator
    step behind the map and read the type of an entry that is not there: the test
    against the bounds of the map comes only after the next step. *)
Theorem mm_alloc_reads_past_map ptrs resv size st i r fuel nfuel :
  mb_layout ptrs -> 0 < size < 2 ^ 32 -> at_range ptrs st i r -> ptrs !! S i = None ->
  mr_size r < ma_used st + size -> (length ptrs < nfuel)%nat ->
  mm_alloc_alloc fuel nfuel resv size st = Oob.
Proof.
  intros Hlay Hs Hat Hlast Hbig Hnf. pose proof Hat as (Hi & _).
  destruct (lay_entry _ Hlay i _ Hi) as (Hp & _).
  unfold mm_alloc_alloc. rewrite (proj2 (Z.eqb_neq _ 0)) by lia.
  destruct (range_in_4G_spec ptrs size st i r Hs Hat) as (b & -> & Hb). cbn [mbind run_bind].
  assert (b = false) as -> by (destruct b; [unfold fits_range in Hb; lia|done]). cbn [negb].
  destruct (next_ram_range_spec ptrs size nfuel st (S i)) as [[-> _]|(st' & E & Hst')];
    [done..|right; by exists i|done|]. exfalso. revert E. unfold next_ram_range.
  rewrite (proj2 (Z.eqb_neq _ 0)) by lia.
  destruct (next_in_map ptrs i _ Hlay Hi) as [[_ Hq]|(_ & _ & ->)]; [congruence|].
  destruct (lay_end _ Hlay) as [Hend Hpos]. destruct nfuel; [lia|]. cbn.
  rewrite (proj2 (Z.eqb_neq _ 0)) by lia. by rewrite Hend.
Qed.

End Mm_alloc.

(** ** Examples *)

Module Mm_example.

(** Two RAM ranges of 64 KiB and 1 MiB with a hole between them; map entries of
    24 bytes. *)
#[local] Instance map : Mb_mmap := {|
  mmap_addr := 0x9000;
  mmap_length := 72;
  l4util_mb_first_mmap_entry := 0x9000;
  l4util_mb_next_mmap_entry p := p + 24;
  mb_entry p :=
    if p =? 0x9000 then Some {| mr_memory := true; mr_addr := 0x10000; mr_size := 0x10000 |}
    else if p =? 0x9018 then Some {| mr_memory := false; mr_addr := 0x20000; mr_size := 0x1000 |}
    else if p =? 0x9030 then Some {| mr_memory := true; mr_addr := 0x100000; mr_size := 0x100000 |}
    else None;
|}.

Definition ptrs : list Z := [0x9000; 0x9018; 0x9030].

(** The image occupies the start of the second range. *)
Definition resv : list Area := [{| a_start := 0x100000; a_size := 0x40000 |}].

Lemma layout : mb_layout ptrs.
Proof.
  split; [done| | |done].
  - intros [|[|[|i]]] p [= <-]; (split; [done|]); (split; [by_eval|]); eexists;
      (split; [reflexivity|]); by_eval.
  - intros [|[|[|i]]] p [= <-]; done.
Defined.

Lemma ram_below : ram_below_4g.
Proof.
  intros p r. cbn. repeat case_match; intros [= <-]; cbn; try done; left; lia.
Defined.

Definition start : mm_alloc_state := {| ma_range := 0; ma_used := 0 |}.

Lemma mm_alloc_spec_witness :
  let result := mm_alloc_alloc 9 4 resv 0x30000 start in
  result = Oob \/
  exists p st', result = Ret (p, st') /\
    ((p = 0 /\ ma_range st' = 0) \/ good_block ptrs resv 0x30000 0 0 p st').
Proof.
  refine (mm_alloc_spec ptrs resv 0x30000 start 0 0 layout ram_below _ _ _).
  - repeat constructor; by_eval.
  - by_eval.
  - left. by_eval.
Defined.

(** That call skips the first range and the image. *)
Example alloc_behind_image :
  mm_alloc_alloc 9 4 resv 0x30000 start
  = Ret (0x140000, {| ma_range := 0x9030; ma_used := 0x70000 |}).
Proof. by_eval. Qed.

Lemma mm_alloc_reads_past_map_witness :
  mm_alloc_alloc 9 4 resv 0x200000 {| ma_range := 0x9030; ma_used := 0x70000 |} = Oob.
Proof.
  refine (mm_alloc_reads_past_map ptrs resv 0x200000 {| ma_range := 0x9030; ma_used := 0x70000 |}
            2 {| mr_memory := true; mr_addr := 0x100000; mr_size := 0x100000 |} 9 4
            layout _ _ _ _ _); [by_eval|unfold at_range|..]; by_eval.
Defined.

(** A request that no range satisfies returns null and makes the allocator
    start over: the next request gets the block that was handed out first, again. *)
Theorem mm_alloc_hands_out_twice :
  let st1 := {| ma_range := 0x9000; ma_used := 0x8000 |} in
  mm_alloc_alloc 9 4 resv 0x8000 start = Ret (0x10000, st1) /\
  mm_alloc_alloc 9 4 resv 0x200000 st1 = Ret (0, {| ma_range := 0; ma_used := 0 |}) /\
  mm_alloc_alloc 9 4 resv 0x8000 {| ma_range := 0; ma_used := 0 |} = Ret (0x10000, st1).
Proof. cbn zeta. by_eval. Qed.
End Mm_example.
