(* ===== verification/MemcpyAligned.v ===== *)
(** * Copying aligned memory

    [pkg/bootstrap/server/src/memcpy_aligned.c]: a copy in chunks of eight 64-bit
    words, then single words, then single bytes.  Memory is one sequence of
    bytes, a pointer an offset into it; an access outside of it ends the
    computation with [Oob].  Words are little-endian. *)

From S2P Require Import Prelude.

Definition load64 (p : Z) (m : bytes) : run Z := or_oob (rd 8 p m).
Definition store64 (p v : Z) (m : bytes) : run bytes := or_oob (wr_bytes p (le_split 8 v) m).
Definition load8 (p : Z) (m : bytes) : run Z := or_oob (rd 1 p m).
Definition store8 (p v : Z) (m : bytes) : run bytes := or_oob (wr_bytes p (le_split 1 v) m).

(** [a0 = s8[i]; ... a7 = s8[i + 7]], here with the words left to load. *)
Fixpoint load_words (n : nat) (s8 i : Z) (m : bytes) : run (list Z) :=
  match n with
  | O => Ret []
  | S k => a ← load64 (s8 + 8 * i) m; t ← load_words k s8 (i + 1) m; mret (a :: t)
  end.

(** [d8[i] = a0; ... d8[i + 7] = a7] *)
Fixpoint store_words (ws : list Z) (d8 i : Z) (m : bytes) : run bytes :=
  match ws with
  | [] => Ret m
  | a :: t => m ← store64 (d8 + 8 * i) a m; store_words t d8 (i + 1) m
  end.

(** The first loop: eight words are loaded before any is stored. *)
Fixpoint copy_chunks (fuel : nat) (d8 s8 i sz8 : Z) (m : bytes) : run bytes :=
  match fuel with
  | O => Fuel_out
  | S f =>
      if i <? sz8 then
        ws ← load_words 8 s8 i m;
        m ← store_words ws d8 i m;
        copy_chunks f d8 s8 (i + 8) sz8 m
      else Ret m
  end.

(** The second loop. *)
Fixpoint copy_words (fuel : nat) (d8 s8 i sz8 : Z) (m : bytes) : run bytes :=
  match fuel with
  | O => Fuel_out
  | S f =>
      if i <? sz8 then
        a ← load64 (s8 + 8 * i) m;
        m ← store64 (d8 + 8 * i) a m;
        copy_words f d8 s8 (i + 1) sz8 m
      else Ret m
  end.

(** The third loop. *)
Fixpoint copy_tail (fuel : nat) (d1 s1 i n : Z) (m : bytes) : run bytes :=
  match fuel with
  | O => Fuel_out
  | S f =>
      if i <? n then
        a ← load8 (s1 + i) m;
        m ← store8 (d1 + i) a m;
        copy_tail f d1 s1 (i + 1) n m
      else Ret m
  end.

(** Every loop runs at most [size] times. *)
Definition memcpy_aligned (dst_aligned src_aligned size : Z) (m : bytes) : run bytes :=
  let fuel := S (Z.to_nat size) in
  let sz8 := Z.land (size / 8) (Z.lnot 7) in
  m ← copy_chunks fuel dst_aligned src_aligned 0 sz8 m;
  let s8 := src_aligned + 8 * sz8 in
  let d8 := dst_aligned + 8 * sz8 in
  let sz8 := Z.land (size / 8) 7 in
  m ← copy_words fuel d8 s8 0 sz8 m;
  copy_tail fuel (d8 + 8 * sz8) (s8 + 8 * sz8) 0 (size mod 8) m.

(** ** Specification *)

(** [m'] is [m] with the first [k] bytes at [src] copied to [dst]. *)
Definition copied (dst src k : Z) (m m' : bytes) : Prop :=
  length m' = length m /\
  forall i, 0 <= i < zlen m ->
    m' !! Z.to_nat i =
    if decide (dst <= i < dst + k) then m !! Z.to_nat (i - dst + src) else m !! Z.to_nat i.

(** Both areas lie in memory and do not overlap. *)
Definition disjoint_areas (dst src size : Z) (m : bytes) : Prop :=
  0 <= dst /\ 0 <= src /\ 0 <= size /\ dst + size <= zlen m /\ src + size <= zlen m /\
  (dst + size <= src \/ src + size <= dst).

Lemma copied_0 dst src m : copied dst src 0 m m.
Proof. split; [done|]. intros i Hi. rewrite decide_False by lia. done. Qed.

Section Copy.
Context (dst src size : Z) (m : bytes).
Hypothesis Hareas : disjoint_areas dst src size m.
Hypothesis Hbytes : bytes_ok m.

(** A partly copied memory still has the original source bytes. *)
Lemma copied_load j k n m' :
  copied dst src j m m' -> 0 <= j <= size -> 0 <= k -> 0 <= n -> k + n <= size ->
  rd_bytes (src + k) n m' = Some (slice (src + k) n m).
Proof.
  destruct Hareas as (Hd & Hs & Hsz & Hdm & Hsm & Hdis). intros [Hlen Hcp] Hj Hk Hn Hkn.
  assert (Hz : zlen m' = zlen m) by by apply zlen_eq.
  apply rd_bytes_Some. repeat split; try lia. apply list_eq. intros i.
  destruct (decide (Z.of_nat i < n)).
  - rewrite <- (Nat2Z.id i), !slice_lookup by lia. rewrite Hcp by lia.
    rewrite decide_False by lia. done.
  - pose proof (zlen_slice (src + k) n m ltac:(lia) Hn ltac:(lia)) as Hl1.
    pose proof (zlen_slice (src + k) n m' ltac:(lia) Hn ltac:(lia)) as Hl2.
    unfold zlen in Hl1, Hl2. rewrite !lookup_ge_None_2 by lia. done.
Qed.

(** Storing the next source bytes extends the copy. *)
Lemma copied_store k n m' :
  copied dst src k m m' -> 0 <= k -> 0 <= n -> k + n <= size ->
  exists m2, wr_bytes (dst + k) (slice (src + k) n m) m' = Some m2 /\
    copied dst src (k + n) m m2.
Proof.
  destruct Hareas as (Hd & Hs & Hsz & Hdm & Hsm & Hdis). intros [Hlen Hcp] Hk Hn Hkn.
  assert (Hz : zlen m' = zlen m) by by apply zlen_eq.
  assert (Hl : zlen (slice (src + k) n m) = n) by (apply zlen_slice; lia).
  destruct (wr_bytes_Some (dst + k) (slice (src + k) n m) m') as (m2 & E & Hl2); [lia..|].
  exists m2. split; [done|]. split; [lia|]. intros i Hi.
  rewrite (wr_bytes_lookup _ _ _ _ i E) by lia. rewrite Hl. case_decide.
  - rewrite decide_True by lia. rewrite slice_lookup by lia. f_equal. lia.
  - rewrite Hcp by lia. destruct (decide (dst <= i < dst + k)).
    + rewrite decide_True by lia. done.
    + rewrite decide_False by lia. done.
Qed.

(** The word of [n] bytes at offset [k] of the source. *)
Definition word (n : nat) (k : Z) : Z := le_combine (slice (src + k) (Z.of_nat n) m).

Lemma word_bytes n k :
  0 <= k -> k + Z.of_nat n <= size -> le_split n (word n k) = slice (src + k) (Z.of_nat n) m.
Proof.
  destruct Hareas as (Hd & Hs & Hsz & Hdm & Hsm & Hdis). intros Hk Hn.
  pose proof (zlen_slice (src + k) (Z.of_nat n) m ltac:(lia) ltac:(lia) ltac:(lia)) as Hl.
  unfold zlen in Hl. apply Nat2Z.inj in Hl. rewrite <- Hl at 1.
  apply le_split_combine, bytes_ok_slice, Hbytes.
Qed.

Lemma word_load j k n m' :
  copied dst src j m m' -> 0 <= j <= size -> 0 <= k -> k + Z.of_nat n <= size ->
  rd (Z.of_nat n) (src + k) m' = Some (word n k).
Proof. intros. unfold rd. by rewrite (copied_load j) by (done || lia). Qed.

Lemma word_store k n m' :
  copied dst src k m m' -> 0 <= k -> k + Z.of_nat n <= size ->
  exists m2, wr_bytes (dst + k) (le_split n (word n k)) m' = Some m2 /\
    copied dst src (k + Z.of_nat n) m m2.
Proof. intros. rewrite word_bytes by done. apply copied_store; (done || lia). Qed.

Lemma load_words_spec j n k i s8 m' :
  copied dst src j m m' -> 0 <= j <= size -> 0 <= k -> k + 8 * Z.of_nat n <= size ->
  s8 + 8 * i = src + k ->
  load_words n s8 i m' = Ret ((fun q => word 8 (k + 8 * Z.of_nat q)) <$> seq 0 n).
Proof.
  intros Hc Hj. revert k i. induction n as [|n IH]; intros k i Hk Hn E; [done|].
  cbn [load_words]. unfold load64. rewrite E.
  pose proof (word_load j k 8 m' Hc Hj Hk ltac:(lia)) as Hw.
  change (Z.of_nat 8) with 8 in Hw. rewrite Hw. cbn [or_oob mbind run_bind].
  rewrite (IH (k + 8)) by lia. cbn [mbind run_bind mret run_ret seq fmap list_fmap].
  rewrite Z.mul_0_r, Z.add_0_r, <- seq_shift, <- list_fmap_compose. do 2 f_equal.
  apply list_fmap_ext. intros _ q _. cbn. f_equal. lia.
Qed.

Lemma store_words_spec n k i d8 m' :
  copied dst src k m m' -> 0 <= k -> k + 8 * Z.of_nat n <= size -> d8 + 8 * i = dst + k ->
  exists m2, store_words ((fun q => word 8 (k + 8 * Z.of_nat q)) <$> seq 0 n) d8 i m' = Ret m2 /\
    copied dst src (k + 8 * Z.of_nat n) m m2.
Proof.
  revert k i m'. induction n as [|n IH]; intros k i m' Hc Hk Hn E.
  - exists m'. cbn. by rewrite Z.add_0_r.
  - cbn [seq fmap list_fmap store_words]. unfold store64. rewrite E, Z.mul_0_r, Z.add_0_r.
    destruct (word_store k 8 m' Hc Hk ltac:(lia)) as (m1 & -> & Hc1).
    change (Z.of_nat 8) with 8 in Hc1. cbn [or_oob mbind run_bind].
    destruct (IH (k + 8) (i + 1) m1 Hc1) as (m2 & E2 & Hc2); [lia..|].
    exists m2. replace (k + 8 * Z.of_nat (S n)) with (k + 8 + 8 * Z.of_nat n) by lia.
    split; [|done]. rewrite <- E2, <- seq_shift, <- list_fmap_compose. f_equal.
    apply list_fmap_ext. intros _ q _. cbn. f_equal. lia.
Qed.

Lemma copy_chunks_spec fuel q i sz8 m' :
  copied dst src (8 * i) m m' -> 0 <= i -> sz8 = i + 8 * Z.of_nat q -> 8 * sz8 <= size ->
  (q < fuel)%nat ->
  exists m2, copy_chunks fuel dst src i sz8 m' = Ret m2 /\ copied dst src (8 * sz8) m m2.
Proof.
  revert q i m'. induction fuel as [|f IH]; intros q i m' Hc Hi Eq Hsz Hf; [lia|].
  cbn [copy_chunks]. destruct q as [|q].
  { rewrite (proj2 (Z.ltb_ge _ _)) by lia. exists m'. split; [done|].
    by replace sz8 with i by lia. }
  rewrite (proj2 (Z.ltb_lt _ _)) by lia.
  rewrite (load_words_spec (8 * i) 8 (8 * i)) by (done || lia). cbn [mbind run_bind].
  destruct (store_words_spec 8 (8 * i) i dst m' Hc) as (m1 & -> & Hc1); [lia..|].
  cbn [mbind run_bind]. apply (IH q); try lia.
  by replace (8 * (i + 8)) with (8 * i + 8 * Z.of_nat 8) by lia.
Qed.

Lemma copy_words_spec fuel b i sz8 m' :
  copied dst src (b + 8 * i) m m' -> 0 <= b -> 0 <= i <= sz8 -> b + 8 * sz8 <= size ->
  sz8 - i < Z.of_nat fuel ->
  exists m2, copy_words fuel (dst + b) (src + b) i sz8 m' = Ret m2 /\
    copied dst src (b + 8 * sz8) m m2.
Proof.
  revert i m'. induction fuel as [|f IH]; intros i m' Hc Hb Hi Hsz Hf; [lia|].
  cbn [copy_words]. destruct (Z.ltb_spec i sz8).
  2:{ exists m'. split; [done|]. by replace sz8 with i by lia. }
  unfold load64, store64.
  pose proof (word_load (b + 8 * i) (b + 8 * i) 8 m' Hc ltac:(lia) ltac:(lia) ltac:(lia)) as Hw.
  change (Z.of_nat 8) with 8 in Hw.
  replace (src + b + 8 * i) with (src + (b + 8 * i)) by lia. rewrite Hw.
  cbn [or_oob mbind run_bind]. replace (dst + b + 8 * i) with (dst + (b + 8 * i)) by lia.
  destruct (word_store (b + 8 * i) 8 m' Hc) as (m1 & -> & Hc1); [lia..|].
  cbn [or_oob mbind run_bind]. apply IH; try lia.
  by replace (b + 8 * (i + 1)) with (b + 8 * i + Z.of_nat 8) by lia.
Qed.

Lemma copy_tail_spec fuel b i n m' :
  copied dst src (b + i) m m' -> 0 <= b -> 0 <= i <= n -> b + n <= size ->
  n - i < Z.of_nat fuel ->
  exists m2, copy_tail fuel (dst + b) (src + b) i n m' = Ret m2 /\ copied dst src (b + n) m m2.
Proof.
  revert i m'. induction fuel as [|f IH]; intros i m' Hc Hb Hi Hsz Hf; [lia|].
  cbn [copy_tail]. destruct (Z.ltb_spec i n).
  2:{ exists m'. split; [done|]. by replace n with i by lia. }
  unfold load8, store8.
  pose proof (word_load (b + i) (b + i) 1 m' Hc ltac:(lia) ltac:(lia) ltac:(lia)) as Hw.
  change (Z.of_nat 1) with 1 in Hw.
  replace (src + b + i) with (src + (b + i)) by lia. rewrite Hw.
  cbn [or_oob mbind run_bind]. replace (dst + b + i) with (dst + (b + i)) by lia.
  destruct (word_store (b + i) 1 m' Hc) as (m1 & -> & Hc1); [lia..|].
  cbn [or_oob mbind run_bind]. apply IH; try lia.
  by replace (b + (i + 1)) with (b + i + Z.of_nat 1) by lia.
Qed.

Lemma memcpy_aligned_copies :
  exists m', memcpy_aligned dst src size m = Ret m' /\ copied dst src size m m'.
Proof.
  pose proof Hareas as (Hd & Hs & Hsz & Hdm & Hsm & Hdis). unfold memcpy_aligned. cbn zeta.
  assert (Hq : 0 <= size / 8) by (apply Z.div_pos; lia).
  replace (Z.land (size / 8) 7) with ((size / 8) mod 8)
    by (change 7 with (Z.ones 3); by rewrite Z.land_ones by lia).
  replace (Z.land (size / 8) (Z.lnot 7)) with (8 * (size / 8 / 8)).
  2:{ change 7 with (Z.ones 3). rewrite <- Z.ldiff_land, Z.ldiff_ones_r by lia.
      rewrite Z.shiftl_mul_pow2, Z.shiftr_div_pow2 by lia. change (2 ^ 3) with 8. lia. }
  pose proof (Z.div_mod size 8 ltac:(lia)). pose proof (Z.mod_pos_bound size 8 ltac:(lia)).
  pose proof (Z.div_mod (size / 8) 8 ltac:(lia)).
  pose proof (Z.mod_pos_bound (size / 8) 8 ltac:(lia)).
  assert (0 <= size / 8 / 8) by (apply Z.div_pos; lia).
  destruct (copy_chunks_spec (S (Z.to_nat size)) (Z.to_nat (size / 8 / 8)) 0
              (8 * (size / 8 / 8)) m) as (m1 & -> & Hc1); [apply copied_0|lia..|].
  cbn [mbind run_bind].
  destruct (copy_words_spec (S (Z.to_nat size)) (8 * (8 * (size / 8 / 8))) 0
              ((size / 8) mod 8) m1) as (m2 & -> & Hc2); [by rewrite Z.add_0_r|lia..|].
  cbn [mbind run_bind].
  destruct (copy_tail_spec (S (Z.to_nat size)) (8 * (8 * (size / 8 / 8)) + 8 * ((size / 8) mod 8)) 0
              (size mod 8) m2) as (m3 & E3 & Hc3); [by rewrite Z.add_0_r|lia..|].
  exists m3. rewrite <- E3, <- !Z.add_assoc. split; [done|].
  by replace size with
    (8 * (8 * (size / 8 / 8)) + 8 * ((size / 8) mod 8) + size mod 8) at 1 by lia.
Qed.
End Copy.

(** [memcpy_aligned] ends, touches no byte outside of the two areas, and is a
    plain copy: for areas that lie in memory and do not overlap, every byte of the
    destination is the byte of the source at the same offset, and every other byte
    of memory is unchanged, whatever the size is modulo eight or sixty-four. *)
Theorem memcpy_aligned_spec dst src size m :
  disjoint_areas dst src size m -> bytes_ok m ->
  exists m', memcpy_aligned dst src size m = Ret m' /\ length m' = length m /\
    forall i, 0 <= i < zlen m ->
      m' !! Z.to_nat i =
      if decide (dst <= i < dst + size) then m !! Z.to_nat (i - dst + src)
      else m !! Z.to_nat i.
Proof. intros. by apply memcpy_aligned_copies. Qed.

(** 85 bytes: one chunk, two words and five bytes. *)
Definition memcpy_sample : bytes := (fun i => Z.of_nat i mod 251) <$> seq 0 200.

Lemma memcpy_aligned_spec_witness :
  exists m', memcpy_aligned 104 8 85 memcpy_sample = Ret m' /\
    length m' = length memcpy_sample /\
    forall i, 0 <= i < zlen memcpy_sample ->
      m' !! Z.to_nat i =
      if decide (104 <= i < 104 + 85) then memcpy_sample !! Z.to_nat (i - 104 + 8)
      else memcpy_sample !! Z.to_nat i.
Proof.
  refine (memcpy_aligned_spec 104 8 85 memcpy_sample _ _).
  - unfold disjoint_areas. change (zlen memcpy_sample) with 200. lia.
  - refine (bool_decide_unpack _ _). vm_compute. exact I.
Defined.
