(* ===== verification/Paging.v ===== *)
(** * Page tables of the 64-bit boot

    [pkg/bootstrap/server/src/ARCH-amd64/paging.c] and [paging.h]: mapping a range
    into a four-level page table, and [ptab_alloc] and [base_paging_init] of
    [boot32/boot_cpu.c], which map all memory one to one before the switch to
    64-bit mode.  The mapping code is written against the interface [Ptab_alloc]
    of an allocator of zeroed tables; the pool of the 32-bit stage is an instance
    of it.  Memory is a map from the addresses of table entries to their values;
    an access to an entry outside of it ends with [Oob]. *)

From S2P Require Import Prelude.

(** ** Constants and helpers *)

Definition PAGE_SIZE : Z := Z.shiftl 1 12.
Definition PAGE_MASK : Z := PAGE_SIZE - 1.
Definition PTAB_VALID : Z := 0x1.
Definition PTAB_WRITE : Z := 0x2.
Definition PTAB_USER : Z := 0x4.
Definition PTAB_PFN : Z := 0x000ffffffffff000.
Definition PTAB_PS : Z := 0x80.

Definition PTAB_LEVEL_PML4E : nat := 3.
Definition PTAB_LEVEL_PDPE : nat := 2.
Definition PTAB_LEVEL_PDE : nat := 1.
Definition PTAB_LEVEL_PTE : nat := 0.
Definition PTAB_SHIFT_PER_LEVEL : Z := 9.
Definition PTAB_ENTRY_NUM : Z := 512.
Definition PTAB_ENTRY_MASK : Z := PTAB_ENTRY_NUM - 1.

(** [x & ~PAGE_MASK]: the mask is an [int] and is sign-extended. *)
Definition trunc_page (x : Z) : Z := Z.land x (u64 (Z.lnot PAGE_MASK)).
Definition round_page (x : Z) : Z := trunc_page (x +[64] PAGE_MASK).

Definition ptab_shift (level : nat) : Z := 12 + Z.of_nat level * PTAB_SHIFT_PER_LEVEL.
Definition ptab_size (level : nat) : Z := Z.shiftl 1 (ptab_shift level).
Definition ptab_mask (level : nat) : Z := ptab_size level - 1.

(** The address of the entry of table [ptab_pa] for [la]. *)
Definition find_ptabe (ptab_pa : Z) (level : nat) (la : Z) : Z :=
  ptab_pa + 8 * Z.land (Z.shiftr la (ptab_shift level)) PTAB_ENTRY_MASK.

Definition is_ptab_aligned (level : nat) (addr : Z) : bool :=
  Z.land addr (ptab_mask level) =? 0.

(** [cpu_info_t] *)
Record cpu_info_t := { feature_flags : Z; feature_flags_ext : Z }.
Definition CPUF_PSE : Z := Z.shiftl 1 3.
Definition CPUFEXT_PDPE1GB : Z := Z.shiftl 1 26.

Definition allow_leaf (cpu_info : cpu_info_t) (level : nat) : bool :=
  match level with
  | O => true
  | 1%nat => negb (Z.land (feature_flags cpu_info) CPUF_PSE =? 0)
  | 2%nat => negb (Z.land (feature_flags_ext cpu_info) CPUFEXT_PDPE1GB =? 0)
  | _ => false
  end.

Definition leaf_bit (level : nat) : Z :=
  if (level =? PTAB_LEVEL_PDE)%nat || (level =? PTAB_LEVEL_PDPE)%nat then PTAB_PS else 0.

Definition is_leaf (level : nat) (ptabe : Z) : bool :=
  (level =? PTAB_LEVEL_PTE)%nat || negb (Z.land ptabe (leaf_bit level) =? 0).

Definition is_valid (ptabe : Z) : bool := negb (Z.land ptabe PTAB_VALID =? 0).

(** ** The allocator of tables *)

Abbreviation pmem := (gmap Z Z).

(** [pt_tables]: the tables handed out so far; [pt_inv]: what the allocator keeps
    between calls. *)
Class Ptab_alloc (A : Type) := {
  ptab_alloc : A * pmem -> run (Z * (A * pmem));
  pt_tables : A -> Z -> Prop;
  pt_inv : A -> pmem -> Prop;
}.

(** A new table is a zeroed page that was not handed out before; the other tables
    keep their entries.  An allocator that ran out of memory stops the machine, or
    it returns a page that is no table memory. *)
Class Ptab_alloc_laws (A : Type) `{!Ptab_alloc A} : Prop := {
  ptab_alloc_ends a mem :
    pt_inv a mem -> ptab_alloc (a, mem) = Panicked \/ exists r, ptab_alloc (a, mem) = Ret r;
  ptab_alloc_inv a mem t a' mem' :
    pt_inv a mem -> ptab_alloc (a, mem) = Ret (t, (a', mem')) -> pt_inv a' mem';
  ptab_write_inv a mem q i v :
    pt_inv a mem -> pt_tables a q -> 0 <= i < PTAB_ENTRY_NUM ->
    pt_inv a (<[q + 8 * i := v]> mem);
  ptab_alloc_table a mem t a' mem' :
    pt_inv a mem -> ptab_alloc (a, mem) = Ret (t, (a', mem')) ->
    0 <= t < 2 ^ 32 /\ t mod PAGE_SIZE = 0 /\
    (forall q i, pt_tables a q -> 0 <= i < PTAB_ENTRY_NUM ->
       mem' !! (q + 8 * i) = mem !! (q + 8 * i)) /\
    ((~ pt_tables a t /\ (forall q, pt_tables a' q <-> q = t \/ pt_tables a q) /\
      (forall i, 0 <= i < PTAB_ENTRY_NUM -> mem' !! (t + 8 * i) = Some 0)) \/
     (~ pt_tables a t /\ (forall q, pt_tables a' q <-> pt_tables a q) /\
      (forall i, 0 <= i < PTAB_ENTRY_NUM -> mem' !! (t + 8 * i) = None)));
}.

(** ** Mapping *)

Section Mapping.
Context {A : Type} `{!Ptab_alloc A} (cpu_info : cpu_info_t).

(** [la], [pa] and [size] behind their pointers. *)
Record cursor := { c_la : Z; c_pa : Z; c_size : Z }.

Definition rd_ptabe (e : Z) (st : A * pmem) : run Z := or_oob (st.2 !! e).
Definition wr_ptabe (e v : Z) (st : A * pmem) : A * pmem := (st.1, <[e := v]> st.2).

(** The body of the loop of [ptab_map_level]; [descend] is the recursive call on
    the next level, absent at the lowest one. *)
Definition map_entry (descend : option (Z -> cursor -> A * pmem -> run (cursor * (A * pmem))))
  (level : nat) (ptab_pa mapping_bits : Z) (c : cursor) (st : A * pmem)
  : run (cursor * (A * pmem)) :=
  let ptabe := find_ptabe ptab_pa level (c_la c) in
  let ptab_page_size := ptab_size level in
  e ← rd_ptabe ptabe st;
  let st1 :=
    if allow_leaf cpu_info level && negb (is_valid e)
       && is_ptab_aligned level (c_la c) && is_ptab_aligned level (c_pa c)
       && (ptab_page_size <=? c_size c)
    then wr_ptabe ptabe
           (Z.lor (Z.lor (Z.lor (c_pa c) PTAB_VALID) mapping_bits) (leaf_bit level)) st
    else st in
  e ← rd_ptabe ptabe st1;
  if allow_leaf cpu_info level && is_valid e && is_leaf level e then
    Ret ({| c_la := c_la c +[64] ptab_page_size; c_pa := c_pa c +[64] ptab_page_size;
            c_size := c_size c -[64] (if ptab_page_size <=? c_size c
                                      then ptab_page_size else c_size c) |}, st1)
  else
    match descend with
    | None => Asserted
    | Some descend =>
        st2 ← (if negb (is_valid e) then
                 '(next_ptab_pa, st2) ← ptab_alloc st1;
                 mret (wr_ptabe ptabe
                   (Z.lor (Z.lor (Z.land next_ptab_pa PTAB_PFN) PTAB_VALID) mapping_bits) st2)
               else Ret st1);
        e ← rd_ptabe ptabe st2;
        descend (Z.land e PTAB_PFN) c st2
    end.

(** [do ... while]: at most [fuel] rounds. *)
Fixpoint map_loop (body : cursor -> A * pmem -> run (cursor * (A * pmem))) (level fuel : nat)
  (c : cursor) (st : A * pmem) : run (cursor * (A * pmem)) :=
  match fuel with
  | O => Fuel_out
  | S f =>
      '(c, st) ← body c st;
      if (0 <? c_size c) && negb (is_ptab_aligned (S level) (c_la c))
      then map_loop body level f c st
      else Ret (c, st)
  end.

(** A table has 512 entries, so 512 rounds per level. *)
Fixpoint ptab_map_level (level : nat) (ptab_pa mapping_bits : Z) (c : cursor) (st : A * pmem)
  {struct level} : run (cursor * (A * pmem)) :=
  map_loop
    (map_entry
       (match level with
        | O => None
        | S l => Some (fun ptab_pa => ptab_map_level l ptab_pa mapping_bits)
        end) level ptab_pa mapping_bits)
    level 512 c st.

Definition ptab_map_range (pml4_pa la pa size mapping_bits : Z) (st : A * pmem)
  : run (A * pmem) :=
  if size =? 0 then Asserted
  else if negb (la <? u64 (la + size - 1)) then Asserted
  else
    let size := round_page (u64 (la - trunc_page la + size)) in
    let la := trunc_page la in
    let pa := trunc_page pa in
    '(_, st) ← ptab_map_level PTAB_LEVEL_PML4E pml4_pa mapping_bits
                 {| c_la := la; c_pa := pa; c_size := size |} st;
    mret st.

End Mapping.

(** ** The table pool of the 32-bit stage *)

(** The static variables of [ptab_alloc] and the fields of [boot32_info] it
    sets; [pool] is where the linker put the pool. *)
Record pool_state := {
  pool : Z;
  pdirs : Z;
  initialized : bool;
  ptab64_addr : Z;
  ptab64_size : Z;
}.

Definition POOL_SIZE : Z := Z.shiftl 6 12.

(** [memset(pool, 0, sizeof(pool))], by entries. *)
Definition zero_pool (pool : Z) (mem : pmem) : pmem :=
  foldr (fun i m => <[pool + 8 * Z.of_nat i := 0]> m) mem (seq 0 (Z.to_nat (POOL_SIZE / 8))).

Definition pool_init (p : pool_state) (mem : pmem) : pool_state * pmem :=
  if initialized p then (p, mem)
  else ({| pool := pool p;
           pdirs := Z.land (u32 (pool p + PAGE_SIZE - 1)) (u32 (Z.lnot PAGE_MASK));
           initialized := true; ptab64_addr := pool p; ptab64_size := POOL_SIZE |},
        zero_pool (pool p) mem).

Definition pool_alloc '((p, mem) : pool_state * pmem) : run (Z * (pool_state * pmem)) :=
  let '(p, mem) := pool_init p mem in
  if pool p +[32] POOL_SIZE <? pdirs p then Panicked
  else Ret (pdirs p, ({| pool := pool p; pdirs := pdirs p +[32] PAGE_SIZE;
                         initialized := initialized p; ptab64_addr := ptab64_addr p;
                         ptab64_size := ptab64_size p |}, mem)).

(** What the pool looks like between calls. *)
Definition pool_inv (p : pool_state) (mem : pmem) : Prop :=
  0 < pool p /\ pool p mod PAGE_SIZE = 0 /\ pool p + POOL_SIZE + PAGE_SIZE < 2 ^ 32 /\
  (forall a, pool p + POOL_SIZE <= a -> mem !! a = None) /\
  (initialized p = true ->
     pool p <= pdirs p <= pool p + POOL_SIZE + PAGE_SIZE /\ pdirs p mod PAGE_SIZE = 0 /\
     forall a, pdirs p <= a < pool p + POOL_SIZE -> a mod 8 = 0 -> mem !! a = Some 0).

#[global] Instance pool_ptab_alloc : Ptab_alloc pool_state := {|
  ptab_alloc := pool_alloc;
  pt_tables p q := initialized p = true /\ pool p <= q < pdirs p /\
    q < pool p + POOL_SIZE /\ q mod PAGE_SIZE = 0;
  pt_inv := pool_inv;
|}.

(** The part of [base_paging_init] before the hardware is switched. *)
Definition base_paging_init (cpu_info : cpu_info_t) (phys_mem_max : Z) (st : pool_state * pmem)
  : run (Z * (pool_state * pmem)) :=
  '(base_pml4_pa, st) ← ptab_alloc st;
  st ← ptab_map_range cpu_info base_pml4_pa 0 0 phys_mem_max (Z.lor PTAB_WRITE PTAB_USER) st;
  mret (base_pml4_pa, st).

(** ** The translation a table describes *)

(** The walk of the MMU from table [p] of a level; [None]: not mapped. *)
Fixpoint translate (mem : pmem) (level : nat) (p x : Z) : option Z :=
  e ← mem !! find_ptabe p level x;
  if negb (is_valid e) then None
  else if is_leaf level e then Some (Z.land e PTAB_PFN + x mod ptab_size level)
  else match level with O => None | S l => translate mem l (Z.land e PTAB_PFN) x end.

(** ** Arithmetic of entries and indices *)

Abbreviation sz := ptab_size.

Lemma ptab_size_pow level : ptab_size level = 2 ^ ptab_shift level.
Proof.
  unfold ptab_size. rewrite Z.shiftl_mul_pow2; [lia|].
  unfold ptab_shift, PTAB_SHIFT_PER_LEVEL. lia.
Qed.

Lemma ptab_size_0 : ptab_size 0 = PAGE_SIZE.
Proof. done. Qed.

Lemma ptab_size_S level : ptab_size (S level) = ptab_size level * 512.
Proof.
  rewrite !ptab_size_pow. change 512 with (2 ^ 9). rewrite <- Z.pow_add_r.
  - f_equal. unfold ptab_shift, PTAB_SHIFT_PER_LEVEL. lia.
  - unfold ptab_shift, PTAB_SHIFT_PER_LEVEL. lia.
  - lia.
Qed.

Lemma ptab_size_pos level : 0 < ptab_size level.
Proof. rewrite ptab_size_pow. apply Z.pow_pos_nonneg; unfold ptab_shift, PTAB_SHIFT_PER_LEVEL; lia. Qed.

(** Every larger size is a multiple of the page size. *)
Lemma ptab_size_page level : exists q, 0 < q /\ ptab_size level = q * PAGE_SIZE.
Proof.
  induction level as [|l (q & Hq & E)]; [exists 1; by rewrite ptab_size_0|].
  exists (512 * q). rewrite ptab_size_S, E. lia.
Qed.

(** The index of [x] in a table. *)
Definition ptab_idx (level : nat) (x : Z) : Z := (x / ptab_size level) mod 512.

Lemma find_ptabe_idx p level x : find_ptabe p level x = p + 8 * ptab_idx level x.
Proof.
  unfold find_ptabe, ptab_idx. change PTAB_ENTRY_MASK with (Z.ones 9).
  rewrite Z.land_ones, ptab_size_pow by lia. change (2 ^ 9) with 512.
  rewrite Z.shiftr_div_pow2; [done|]. unfold ptab_shift, PTAB_SHIFT_PER_LEVEL. lia.
Qed.

Lemma ptab_idx_range level x : 0 <= ptab_idx level x < 512.
Proof. apply Z.mod_pos_bound. lia. Qed.

Lemma is_ptab_aligned_spec level x : is_ptab_aligned level x = (x mod ptab_size level =? 0).
Proof.
  unfold is_ptab_aligned, ptab_mask. rewrite ptab_size_pow.
  assert (0 <= ptab_shift level) by (unfold ptab_shift, PTAB_SHIFT_PER_LEVEL; lia).
  replace (2 ^ ptab_shift level - 1) with (Z.ones (ptab_shift level))
    by (rewrite Z.ones_equiv; lia).
  by rewrite Z.land_ones.
Qed.

(** The number of the entry block that [x] lies in, at the level above. *)
Lemma block_up level x : x / ptab_size (S level) = x / ptab_size level / 512.
Proof.
  rewrite ptab_size_S, Z.div_div; [done|..]; pose proof (ptab_size_pos level); lia.
Qed.

Lemma block_idx level x n :
  x / ptab_size (S level) = n -> x / ptab_size level = n * 512 + ptab_idx level x.
Proof.
  rewrite block_up. intros <-. unfold ptab_idx.
  pose proof (Z.div_mod (x / ptab_size level) 512). lia.
Qed.

(** An entry put together from a page address and flags. *)
Lemma entry_fields a f :
  a mod PAGE_SIZE = 0 -> 0 <= a < 2 ^ 52 -> 0 <= f < PAGE_SIZE ->
  Z.land (Z.lor a f) PTAB_PFN = a /\
  forall k, 0 <= k < 12 -> Z.testbit (Z.lor a f) k = Z.testbit f k.
Proof.
  intros Ha Hr Hf. apply Z.mod_divide in Ha as [q ->]; [|done].
  change PAGE_SIZE with (2 ^ 12) in *. split.
  - rewrite Z.land_lor_distr_l.
    replace (Z.land f PTAB_PFN) with 0.
    + rewrite Z.lor_0_r. change PTAB_PFN with (Z.shiftl (Z.ones 40) 12).
      rewrite <- Z.shiftl_mul_pow2, <- Z.shiftl_land by lia.
      rewrite Z.land_ones by lia. rewrite Z.mod_small; [done|]. lia.
    + symmetry. apply Z.bits_inj_0. intros n. rewrite Z.land_spec.
      change PTAB_PFN with (Z.shiftl (Z.ones 40) 12).
      destruct (Z.lt_ge_cases n 12).
      * destruct (Z.lt_ge_cases n 0); [by rewrite !Z.testbit_neg_r by lia|].
        rewrite Z.shiftl_spec_low by lia. apply andb_false_r.
      * rewrite <- (Z.mod_small f (2 ^ 12)) by lia. by rewrite Z.mod_pow2_bits_high by lia.
  - intros k Hk. rewrite Z.lor_spec, Z.mul_pow2_bits_low by lia. done.
Qed.

Lemma is_valid_testbit e : is_valid e = Z.testbit e 0.
Proof. by apply (land_pow2_testbit e 0). Qed.

Lemma is_leaf_testbit level e :
  (level = 1%nat \/ level = 2%nat) -> is_leaf level e = Z.testbit e 7.
Proof. intros [->| ->]; unfold is_leaf; cbn; by apply (land_pow2_testbit e 7). Qed.

Lemma flags_range bits lb :
  0 <= bits < 128 -> lb = 0 \/ lb = PTAB_PS -> 0 <= Z.lor (Z.lor PTAB_VALID bits) lb < PAGE_SIZE.
Proof.
  intros Hb Hlb. change PAGE_SIZE with (2 ^ 12).
  apply lor_lt_pow2; [lia|apply lor_lt_pow2; unfold PTAB_VALID; lia|].
  destruct Hlb as [->| ->]; unfold PTAB_PS; lia.
Qed.

Lemma flags_bits bits lb :
  0 <= bits < 128 ->
  Z.testbit (Z.lor (Z.lor PTAB_VALID bits) lb) 0 = true /\
  Z.testbit (Z.lor (Z.lor PTAB_VALID bits) lb) 7 = Z.testbit lb 7.
Proof.
  intros Hb. rewrite !Z.lor_spec. split; [done|].
  replace (Z.testbit bits 7) with false; [done|]. symmetry.
  rewrite <- (Z.mod_small bits (2 ^ 7)) by lia. apply Z.mod_pow2_bits_high. lia.
Qed.

Lemma leaf_entry level pa bits :
  (level <= 2)%nat -> pa mod PAGE_SIZE = 0 -> 0 <= pa < 2 ^ 52 -> 0 <= bits < 128 ->
  let e := Z.lor (Z.lor (Z.lor pa PTAB_VALID) bits) (leaf_bit level) in
  is_valid e = true /\ is_leaf level e = true /\ Z.land e PTAB_PFN = pa.
Proof.
  intros Hl Ha Hr Hb. cbn zeta. rewrite <- !Z.lor_assoc, (Z.lor_assoc PTAB_VALID).
  assert (Hlb : leaf_bit level = 0 \/ leaf_bit level = PTAB_PS) by (unfold leaf_bit; case_match; auto).
  destruct (entry_fields pa _ Ha Hr (flags_range bits _ Hb Hlb)) as [Hpfn Hbit].
  destruct (flags_bits bits (leaf_bit level) Hb) as [Hv Hps].
  split; [rewrite is_valid_testbit, Hbit by lia; done|]. split; [|done].
  destruct level as [|[|[|]]]; [done|..|lia]; rewrite is_leaf_testbit, Hbit by lia; by rewrite Hps.
Qed.

Lemma table_entry level t bits :
  (0 < level)%nat -> t mod PAGE_SIZE = 0 -> 0 <= t < 2 ^ 32 -> 0 <= bits < 128 -> (level <= 3)%nat ->
  let e := Z.lor (Z.lor (Z.land t PTAB_PFN) PTAB_VALID) bits in
  is_valid e = true /\ is_leaf level e = false /\ Z.land e PTAB_PFN = t.
Proof.
  intros Hl Ha Hr Hb Hl3. cbn zeta.
  replace (Z.land t PTAB_PFN) with t.
  2:{ symmetry. rewrite <- (Z.lor_0_r t) at 1. apply entry_fields; [done|lia|done]. }
  rewrite <- Z.lor_assoc, <- (Z.lor_0_r (Z.lor PTAB_VALID bits)).
  destruct (entry_fields t (Z.lor (Z.lor PTAB_VALID bits) 0)) as [Hpfn Hbit];
    [done|lia|by apply flags_range; [|left]|].
  destruct (flags_bits bits 0 Hb) as [Hv Hps].
  split; [rewrite is_valid_testbit, Hbit by lia; done|]. split; [|done].
  destruct level as [|[|[|[|]]]]; try lia; try (rewrite is_leaf_testbit, Hbit by lia; by rewrite Hps).
  unfold is_leaf, leaf_bit. cbn. by rewrite Z.land_0_r.
Qed.

(** ** The tree of tables *)

(** The level of each table and the number of the block of addresses it serves:
    a table of level [L] with number [n] serves the addresses [x] with
    [x / ptab_size (S L) = n]. *)
Abbreviation tabs := (gmap Z (nat * Z)).

Record tables_ok (mem : pmem) (tb : tabs) : Prop := {
  tk_page p L n : tb !! p = Some (L, n) ->
    p mod PAGE_SIZE = 0 /\ 0 <= p < 2 ^ 32 /\ (L <= 3)%nat;
  tk_entry p L n i : tb !! p = Some (L, n) -> 0 <= i < 512 ->
    exists e, mem !! (p + 8 * i) = Some e /\
      (is_valid e = true -> is_leaf L e = false ->
       exists l, L = S l /\ tb !! Z.land e PTAB_PFN = Some (l, n * 512 + i));
  tk_inj p q v : tb !! p = Some v -> tb !! q = Some v -> p = q;
  tk_parent q l n : tb !! q = Some (l, n) -> (l < 3)%nat ->
    exists p e, tb !! p = Some (S l, n / 512) /\ mem !! (p + 8 * (n mod 512)) = Some e /\
      is_valid e = true /\ is_leaf (S l) e = false /\ Z.land e PTAB_PFN = q;
}.

Lemma entry_addr_inj p q i j :
  p mod PAGE_SIZE = 0 -> q mod PAGE_SIZE = 0 -> 0 <= i < 512 -> 0 <= j < 512 ->
  p + 8 * i = q + 8 * j -> p = q /\ i = j.
Proof.
  intros [a ->]%Z.mod_divide [b ->]%Z.mod_divide Hi Hj E; [|done..].
  change PAGE_SIZE with 4096 in *. lia.
Qed.

(** Entries of different tables, or at different indices, do not alias. *)
Lemma entry_ne mem tb p q v w i j :
  tables_ok mem tb -> tb !! p = Some v -> tb !! q = Some w ->
  0 <= i < 512 -> 0 <= j < 512 -> (p, i) <> (q, j) -> p + 8 * i <> q + 8 * j.
Proof.
  intros Hok Hp Hq Hi Hj Hne E. destruct v as [L n], w as [L' n'].
  destruct (tk_page _ _ Hok p L n Hp) as (? & _), (tk_page _ _ Hok q L' n' Hq) as (? & _).
  destruct (entry_addr_inj p q i j) as [-> ->]; done.
Qed.

(** Writing an entry that points to no table, over one that pointed to none. *)
Lemma tables_ok_leaf mem tb p L n i e0 e :
  tables_ok mem tb -> tb !! p = Some (L, n) -> 0 <= i < 512 ->
  mem !! (p + 8 * i) = Some e0 -> is_valid e0 = false -> is_leaf L e = true ->
  tables_ok (<[p + 8 * i := e]> mem) tb.
Proof.
  intros Hok Hp Hi He0 Hv0 Hlf. split; [apply Hok| |apply Hok|].
  - intros q L' n' j Hq Hj. destruct (decide (q + 8 * j = p + 8 * i)) as [E|E].
    + destruct (tk_page _ _ Hok _ _ _ Hp) as (Hpp & _), (tk_page _ _ Hok _ _ _ Hq) as (Hqp & _).
      destruct (entry_addr_inj q p j i) as [-> ->]; try done. exists e.
      rewrite lookup_insert_eq. split; [done|]. rewrite Hp in Hq. injection Hq as <- <-. congruence.
    + rewrite lookup_insert_ne by congruence. by apply (tk_entry _ _ Hok).
  - intros q l n' Hq Hl. destruct (tk_parent _ _ Hok q l n' Hq Hl) as (p' & e' & ? & He' & Hv' & ?).
    exists p', e'. split; [done|]. rewrite lookup_insert_ne; [done|].
    intros E. rewrite <- E, He0 in He'. congruence.
Qed.

(** The child table [i] of a table with number [n] has number [n * 512 + i]. *)
Lemma child_number n i : 0 <= i < 512 -> (n * 512 + i) / 512 = n /\ (n * 512 + i) mod 512 = i.
Proof.
  intros Hi. split; [symmetry; apply (Z.div_unique _ _ _ i); lia|].
  symmetry. apply (Z.mod_unique _ _ n); lia.
Qed.

(** Below an unused entry there is no table. *)
Lemma unused_entry mem tb p l n i e0 :
  tables_ok mem tb -> tb !! p = Some (S l, n) -> 0 <= i < 512 ->
  mem !! (p + 8 * i) = Some e0 -> is_valid e0 = false ->
  forall q, tb !! q <> Some (l, n * 512 + i).
Proof.
  intros Hok Hp Hi He0 Hv0 q Hq. destruct (tk_page _ _ Hok _ _ _ Hp) as (_ & _ & HpL).
  destruct (tk_parent _ _ Hok q l _ Hq ltac:(lia)) as (p' & e' & Hp' & He' & Hv' & _).
  destruct (child_number n i Hi) as [E1 E2]. rewrite E1 in Hp'. rewrite E2 in He'.
  assert (p' = p) as -> by by eapply (tk_inj _ _ Hok). congruence.
Qed.

(** Adding a zeroed table below an unused entry. *)
Lemma tables_ok_table mem mem1 tb p l n i t e0 e :
  tables_ok mem tb -> tb !! p = Some (S l, n) -> 0 <= i < 512 ->
  mem !! (p + 8 * i) = Some e0 -> is_valid e0 = false ->
  t mod PAGE_SIZE = 0 -> 0 <= t < 2 ^ 32 -> tb !! t = None ->
  (forall q v j, tb !! q = Some v -> 0 <= j < 512 -> mem1 !! (q + 8 * j) = mem !! (q + 8 * j)) ->
  (forall j, 0 <= j < 512 -> mem1 !! (t + 8 * j) = Some 0) ->
  is_valid e = true -> is_leaf (S l) e = false -> Z.land e PTAB_PFN = t ->
  tables_ok (<[p + 8 * i := e]> mem1) (<[t := (l, n * 512 + i)]> tb).
Proof.
  intros Hok Hp Hi He0 Hv0 Htp Htr Htn Hsame Hzero Hv Hlf Hpfn.
  destruct (tk_page _ _ Hok _ _ _ Hp) as (Hpp & Hpr & HpL).
  assert (Hpt : p <> t) by congruence.
  pose proof (unused_entry mem tb p l n i e0 Hok Hp Hi He0 Hv0) as Hno.
  split.
  - intros q L' n'. rewrite lookup_insert_Some. intros [[<- [= <- <-]]|[_ Hq]];
      [repeat split; (done || lia)|by apply (tk_page _ _ Hok) in Hq].
  - intros q L' n' j Hq Hj. destruct (decide (q = t)) as [->|Hqt].
    + rewrite lookup_insert_eq in Hq. injection Hq as <- <-. exists 0.
      rewrite lookup_insert_ne; [|intros E; by destruct (entry_addr_inj p t i j Hpp Htp Hi Hj E)].
      rewrite Hzero by done. by split.
    + rewrite lookup_insert_ne in Hq by done. destruct (decide (q + 8 * j = p + 8 * i)) as [E|E].
      * destruct (tk_page _ _ Hok _ _ _ Hq) as (Hqp & _).
        destruct (entry_addr_inj q p j i) as [-> ->]; try done. exists e.
        rewrite lookup_insert_eq. split; [done|]. intros _ _. rewrite Hp in Hq.
        injection Hq as <- <-. exists l. by rewrite Hpfn, lookup_insert_eq.
      * destruct (tk_entry _ _ Hok q L' n' j Hq Hj) as (e' & He' & Hnext). exists e'.
        rewrite lookup_insert_ne by congruence. rewrite (Hsame q _ j Hq Hj).
        split; [done|]. intros Hv' Hlf'. destruct (Hnext Hv' Hlf') as (l' & -> & Ht').
        exists l'. split; [done|]. rewrite lookup_insert_ne; [done|]. congruence.
  - intros q q' v. rewrite !lookup_insert_Some.
    intros [[<- <-]|[_ Hq]] [[<- E]|[_ Hq']]; try done; try (by apply Hno in Hq').
    + subst v. by apply Hno in Hq.
    + by eapply (tk_inj _ _ Hok).
  - intros q l' n'. rewrite lookup_insert_Some. intros [[<- [= <- <-]]|[Hqt Hq]] Hl.
    + exists p, e. destruct (child_number n i Hi) as [-> ->].
      rewrite lookup_insert_eq. by rewrite lookup_insert_ne by done.
    + destruct (tk_parent _ _ Hok q l' n' Hq Hl) as (p' & e' & Hp' & He' & Hv' & Hlf' & E').
      assert (0 <= n' mod 512 < 512) by (apply Z.mod_pos_bound; lia).
      exists p', e'. rewrite lookup_insert_ne by congruence. split; [done|].
      rewrite lookup_insert_ne by (intros E; rewrite <- E in He'; congruence).
      by rewrite (Hsame p' _ _ Hp').
Qed.

(** ** Translation and change *)

(** A walk at [x] reads, in each table, only the entry that [x] selects. *)
Lemma translate_frame mem mem' tb L p n x :
  tables_ok mem tb -> tb !! p = Some (L, n) -> x / ptab_size (S L) = n ->
  (forall q L' n', tb !! q = Some (L', n') -> (L' <= L)%nat -> x / ptab_size (S L') = n' ->
     mem' !! (q + 8 * ptab_idx L' x) = mem !! (q + 8 * ptab_idx L' x)) ->
  translate mem' L p x = translate mem L p x.
Proof.
  intros Hok. revert p n. induction L as [|l IH]; intros p n Hp Hx Hsame;
    match type of Hp with _ = Some (?L, _) =>
      destruct (tk_entry _ _ Hok p L n (ptab_idx L x) Hp (ptab_idx_range L x)) as (e & He & Hnext);
      pose proof (Hsame p L n Hp ltac:(lia) Hx) as Hs
    end; cbn [translate]; rewrite find_ptabe_idx, Hs, He; cbn [mbind option_bind];
    destruct (is_valid e) eqn:Hv; cbn [negb]; try done;
    destruct (is_leaf _ e) eqn:Hlf; try done.
  destruct (Hnext eq_refl eq_refl) as (l' & [= <-] & Ht).
  apply (IH _ _ Ht); [by apply block_idx|]. intros q L' n' Hq HL'. apply Hsame; [done|lia].
Qed.

(** One level of the walk. *)
Lemma translate_table mem l p x e :
  mem !! (p + 8 * ptab_idx (S l) x) = Some e -> is_valid e = true -> is_leaf (S l) e = false ->
  translate mem (S l) p x = translate mem l (Z.land e PTAB_PFN) x.
Proof.
  intros He Hv Hlf. cbn [translate]. rewrite find_ptabe_idx, He. cbn [mbind option_bind].
  by rewrite Hv, Hlf.
Qed.

Lemma translate_leaf mem L p x e :
  mem !! (p + 8 * ptab_idx L x) = Some e -> is_valid e = true -> is_leaf L e = true ->
  translate mem L p x = Some (Z.land e PTAB_PFN + x mod ptab_size L).
Proof.
  intros He Hv Hlf. destruct L; cbn [translate]; rewrite find_ptabe_idx, He;
    cbn [mbind option_bind]; by rewrite Hv, Hlf.
Qed.

Lemma translate_unused mem L p x e :
  mem !! (p + 8 * ptab_idx L x) = Some e -> is_valid e = false -> translate mem L p x = None.
Proof.
  intros He Hv. destruct L; cbn [translate]; rewrite find_ptabe_idx, He;
    cbn [mbind option_bind]; by rewrite Hv.
Qed.

Section Mapping_laws.
Context {A : Type} `{!Ptab_alloc A} `{!Ptab_alloc_laws A} (cpu_info : cpu_info_t).

(** Tables and allocator fit together. *)
Definition world_ok (a : A) (mem : pmem) (tb : tabs) : Prop :=
  pt_inv a mem /\ tables_ok mem tb /\ forall q v, tb !! q = Some v -> pt_tables a q.

(** From one state to the next, the addresses from [la] to [la'] were mapped with
    offset [k] below table [p] of level [L] and number [n], and nothing else. *)
Record mapped (k : Z) (L : nat) (p n la la' : Z) (a : A) (mem : pmem) (tb : tabs)
  (a' : A) (mem' : pmem) (tb' : tabs) : Prop := {
  mp_ok : world_ok a' mem' tb';
  mp_sub q v : tb !! q = Some v -> tb' !! q = Some v;
  mp_frame q L' n' i : tb !! q = Some (L', n') -> 0 <= i < 512 ->
    (L < L')%nat \/ (forall x, la <= x < la' -> x / ptab_size L' <> n' * 512 + i) ->
    mem' !! (q + 8 * i) = mem !! (q + 8 * i);
  mp_in x : la <= x < la' -> translate mem' L p x = Some (x + k);
  mp_out x : x / ptab_size (S L) = n -> ~ la <= x < la' ->
    translate mem' L p x = translate mem L p x;
}.

Lemma mapped_trans k L p n la la1 la2 a mem tb a1 mem1 tb1 a2 mem2 tb2 :
  la <= la1 <= la2 -> (forall x, la <= x < la1 -> x / ptab_size (S L) = n) ->
  mapped k L p n la la1 a mem tb a1 mem1 tb1 ->
  mapped k L p n la1 la2 a1 mem1 tb1 a2 mem2 tb2 ->
  mapped k L p n la la2 a mem tb a2 mem2 tb2.
Proof.
  intros Hle Hblk H1 H2. split.
  - apply H2.
  - intros q v Hq. by apply (mp_sub _ _ _ _ _ _ _ _ _ _ _ _ H2), (mp_sub _ _ _ _ _ _ _ _ _ _ _ _ H1).
  - intros q L' n' i Hq Hi Hd.
    rewrite (mp_frame _ _ _ _ _ _ _ _ _ _ _ _ H2 q L' n' i);
      [apply (mp_frame _ _ _ _ _ _ _ _ _ _ _ _ H1 q L' n' i)|
       by apply (mp_sub _ _ _ _ _ _ _ _ _ _ _ _ H1)|done|]; try done;
      (destruct Hd as [?|Hd]; [by left|right; intros x Hx; apply Hd; lia]).
  - intros x Hx. destruct (Z.lt_ge_cases x la1).
    + rewrite (mp_out _ _ _ _ _ _ _ _ _ _ _ _ H2 x) by (lia || apply Hblk; lia).
      apply (mp_in _ _ _ _ _ _ _ _ _ _ _ _ H1). lia.
    + apply (mp_in _ _ _ _ _ _ _ _ _ _ _ _ H2). lia.
  - intros x Hxn Hx. rewrite (mp_out _ _ _ _ _ _ _ _ _ _ _ _ H2 x) by (done || lia).
    apply (mp_out _ _ _ _ _ _ _ _ _ _ _ _ H1); [done|lia].
Qed.

(** ** One entry *)

(** Two addresses in one block share the larger blocks too. *)
Lemma same_block_up L' L x y :
  (L' <= L)%nat -> x / ptab_size L' = y / ptab_size L' -> x / ptab_size L = y / ptab_size L.
Proof.
  induction 1 as [|L HL IH]; [done|]. intros E. rewrite !block_up, IH by done. done.
Qed.

Lemma same_block L la x :
  la <= x < (la / ptab_size L + 1) * ptab_size L -> x / ptab_size L = la / ptab_size L.
Proof.
  intros Hx. pose proof (ptab_size_pos L) as Hp. symmetry.
  pose proof (Z.div_mod la (ptab_size L) ltac:(lia)).
  pose proof (Z.mod_pos_bound la (ptab_size L) ltac:(lia)).
  apply (Z.div_unique _ _ _ (x - ptab_size L * (la / ptab_size L))); lia.
Qed.

Lemma same_block_idx L la x :
  x / ptab_size L = la / ptab_size L -> ptab_idx L x = ptab_idx L la.
Proof. intros E. unfold ptab_idx. by rewrite E. Qed.

Lemma idx_same_block L n la x :
  la / ptab_size (S L) = n -> x / ptab_size (S L) = n -> ptab_idx L x = ptab_idx L la ->
  x / ptab_size L = la / ptab_size L.
Proof. intros Hla Hx E. rewrite (block_idx L x n Hx), (block_idx L la n Hla). lia. Qed.

(** A leaf is written. *)
Lemma leaf_step L p n la pa e0 e a mem tb :
  world_ok a mem tb -> tb !! p = Some (L, n) -> la / ptab_size (S L) = n ->
  la mod ptab_size L = 0 -> mem !! (p + 8 * ptab_idx L la) = Some e0 -> is_valid e0 = false ->
  is_valid e = true -> is_leaf L e = true -> Z.land e PTAB_PFN = pa ->
  mapped (pa - la) L p n la (la + ptab_size L) a mem tb
    a (<[p + 8 * ptab_idx L la := e]> mem) tb.
Proof.
  intros (Hinv & Hok & Hown) Hp Hla Hal He0 Hv0 Hv Hlf Hpfn.
  pose proof (ptab_idx_range L la) as Hi. pose proof (ptab_size_pos L) as Hpos.
  pose proof (Z.div_mod la (ptab_size L) ltac:(lia)) as Hdm.
  destruct (tk_page _ _ Hok _ _ _ Hp) as (Hpp & _).
  assert (Hsame : forall q L' n' j, tb !! q = Some (L', n') -> 0 <= j < 512 ->
    (q = p -> L' = L -> n' = n -> j <> ptab_idx L la) ->
    <[p + 8 * ptab_idx L la := e]> mem !! (q + 8 * j) = mem !! (q + 8 * j)).
  { intros q L' n' j Hq Hj Hne. apply lookup_insert_ne. intros E.
    destruct (tk_page _ _ Hok _ _ _ Hq) as (Hqp & _).
    destruct (entry_addr_inj q p j (ptab_idx L la)) as [-> ->]; try done.
    rewrite Hp in Hq. injection Hq as <- <-. by apply Hne. }
  split.
  - split; [apply ptab_write_inv; eauto|]. split; [by eapply tables_ok_leaf|done].
  - done.
  - intros q L' n' j Hq Hj Hd. apply (Hsame q L' n' j Hq Hj). intros -> -> -> ->.
    destruct Hd as [?|Hd]; [lia|]. apply (Hd la); [lia|]. by apply block_idx.
  - intros x Hx. rewrite (translate_leaf _ L p x e); try done.
    + rewrite Hpfn. f_equal. replace (x mod ptab_size L) with (x - la); [lia|].
      apply (Z.mod_unique _ _ (la / ptab_size L)); lia.
    + rewrite (same_block_idx L la) by (apply same_block; lia). apply lookup_insert_eq.
  - intros x Hxn Hx. apply (translate_frame mem _ tb L p n); try done.
    intros q L' n' Hq _ Hxq. apply (Hsame q L' n' _ Hq (ptab_idx_range _ _)).
    intros _ -> -> Ei. apply Hx. apply (idx_same_block L n la x Hla Hxn) in Ei.
    pose proof (Z.div_mod x (ptab_size L) ltac:(lia)).
    pose proof (Z.mod_pos_bound x (ptab_size L) ltac:(lia)). lia.
Qed.

(** A table is put below an unused entry: no translation changes. *)
Lemma table_step l p n la t e0 e a mem tb a1 mem1 :
  world_ok a mem tb -> tb !! p = Some (S l, n) -> la / ptab_size (S (S l)) = n ->
  mem !! (p + 8 * ptab_idx (S l) la) = Some e0 -> is_valid e0 = false ->
  pt_inv a1 mem1 -> (forall q, pt_tables a1 q <-> q = t \/ pt_tables a q) ->
  ~ pt_tables a t -> t mod PAGE_SIZE = 0 -> 0 <= t < 2 ^ 32 ->
  (forall q i, pt_tables a q -> 0 <= i < 512 -> mem1 !! (q + 8 * i) = mem !! (q + 8 * i)) ->
  (forall i, 0 <= i < 512 -> mem1 !! (t + 8 * i) = Some 0) ->
  is_valid e = true -> is_leaf (S l) e = false -> Z.land e PTAB_PFN = t ->
  let i := ptab_idx (S l) la in
  let mem2 := <[p + 8 * i := e]> mem1 in
  let tb2 := <[t := (l, n * 512 + i)]> tb in
  world_ok a1 mem2 tb2 /\ (forall q v, tb !! q = Some v -> tb2 !! q = Some v) /\
  (forall q L' n' j, tb !! q = Some (L', n') -> 0 <= j < 512 -> (q, j) <> (p, i) ->
     mem2 !! (q + 8 * j) = mem !! (q + 8 * j)) /\
  (forall x, x / ptab_size (S (S l)) = n ->
     translate mem2 (S l) p x = translate mem (S l) p x).
Proof.
  intros (Hinv & Hok & Hown) Hp Hla He0 Hv0 Hinv1 Htabs Hfresh Htp Htr Hsame1 Hzero Hv Hlf Hpfn.
  cbn zeta. pose proof (ptab_idx_range (S l) la) as Hi. set (i := ptab_idx (S l) la) in *.
  assert (Htn : tb !! t = None).
  { destruct (tb !! t) as [v|] eqn:E; [|done]. by apply Hown in E. }
  assert (Hpt : p <> t) by congruence.
  destruct (tk_page _ _ Hok _ _ _ Hp) as (Hpp & _).
  assert (Hsame : forall q L' n' j, tb !! q = Some (L', n') -> 0 <= j < 512 -> (q, j) <> (p, i) ->
    <[p + 8 * i := e]> mem1 !! (q + 8 * j) = mem !! (q + 8 * j)).
  { intros q L' n' j Hq Hj Hne. rewrite lookup_insert_ne.
    - apply Hsame1; [|done]. by eapply Hown.
    - intros E. by apply (entry_ne mem tb q p _ _ j i Hok Hq Hp Hj Hi Hne). }
  split; [|split; [|split; [done|]]].
  - split; [apply ptab_write_inv; [done|apply Htabs; right; by eapply Hown|done]|]. split.
    + eapply (tables_ok_table mem); try done. intros q v j Hq Hj. apply Hsame1; [|done].
      by eapply Hown.
    + intros q v. rewrite lookup_insert_Some. intros [[<- _]|[_ Hq]]; apply Htabs; [by left|].
      right. by eapply Hown.
  - intros q v Hq. rewrite lookup_insert_ne; [done|]. congruence.
  - intros x Hx. destruct (decide (ptab_idx (S l) x = i)) as [Ei|Ei].
    + rewrite (translate_unused mem (S l) p x e0) by (rewrite ?Ei; done).
      rewrite (translate_table _ l p x e) by (rewrite ?Ei; done || apply lookup_insert_eq).
      rewrite Hpfn. apply (translate_unused _ l t x 0); [|done].
      rewrite lookup_insert_ne; [apply Hzero, ptab_idx_range|]. intros E.
      by destruct (entry_addr_inj p t i (ptab_idx l x) Hpp Htp Hi (ptab_idx_range _ _) E).
    + apply (translate_frame mem _ tb (S l) p n); try done. intros q L' n' Hq HL' Hxq.
      apply (Hsame q L' n' _ Hq (ptab_idx_range _ _)). intros [= -> E].
      rewrite Hp in Hq. injection Hq as <- <-. done.
Qed.

(** What a child table maps, its parent maps. *)
Lemma descend_lift k l p n la la1 t e a mem tb a2 mem2 tb2 :
  world_ok a mem tb -> tb !! p = Some (S l, n) -> la / ptab_size (S (S l)) = n ->
  la1 <= (la / ptab_size (S l) + 1) * ptab_size (S l) ->
  mem !! (p + 8 * ptab_idx (S l) la) = Some e -> is_valid e = true -> is_leaf (S l) e = false ->
  Z.land e PTAB_PFN = t ->
  mapped k l t (n * 512 + ptab_idx (S l) la) la la1 a mem tb a2 mem2 tb2 ->
  mapped k (S l) p n la la1 a mem tb a2 mem2 tb2.
Proof.
  intros (Hinv & Hok & Hown) Hp Hla Hend He Hv Hlf Hpfn [Hok2 Hsub Hframe Hin Hout].
  pose proof (block_idx (S l) la n Hla) as Hblk.
  assert (Hpe : forall j, 0 <= j < 512 -> mem2 !! (p + 8 * j) = mem !! (p + 8 * j)).
  { intros j Hj. apply (Hframe p (S l) n j Hp Hj). left. lia. }
  assert (Hwalk : forall x, ptab_idx (S l) x = ptab_idx (S l) la ->
    translate mem2 (S l) p x = translate mem2 l t x /\
    translate mem (S l) p x = translate mem l t x).
  { intros x Ei. split; rewrite (translate_table _ l p x e), ?Hpfn; try done; rewrite Ei; [|done].
    rewrite Hpe by apply ptab_idx_range. done. }
  split; [done|done|..].
  - intros q L' n' i Hq Hi Hd. apply (Hframe q L' n' i Hq Hi).
    destruct Hd as [?|?]; [left; lia|by right].
  - intros x Hx. destruct (Hwalk x) as [-> _]; [|by apply Hin].
    apply same_block_idx, same_block. lia.
  - intros x Hxn Hx. destruct (decide (ptab_idx (S l) x = ptab_idx (S l) la)) as [Ei|Ei].
    + destruct (Hwalk x Ei) as [-> ->]. apply Hout; [|done].
      rewrite (block_idx (S l) x n Hxn). by rewrite Ei.
    + apply (translate_frame mem _ tb (S l) p n); try done. intros q L' n' Hq HL' Hxq.
      apply (Hframe q L' n' _ Hq (ptab_idx_range _ _)).
      destruct (decide (L' = S l)) as [->|HL]; [left; lia|]. right. intros y Hy Ey. apply Ei.
      rewrite <- (block_idx L' x n' Hxq) in Ey.
      apply (same_block_up L' (S l)) in Ey; [|lia]. apply same_block_idx.
      rewrite <- Ey. apply same_block. lia.
Qed.

(** Frames compose with the step that only changes one entry of [p]. *)
Lemma mapped_after_table k l p n la la1 i a mem tb a1 mem1 tb1 a2 mem2 tb2 :
  la < la1 -> la / ptab_size (S l) = n * 512 + i ->
  tb !! p = Some (S l, n) ->
  (forall q v, tb !! q = Some v -> tb1 !! q = Some v) ->
  (forall q L' n' j, tb !! q = Some (L', n') -> 0 <= j < 512 -> (q, j) <> (p, i) ->
     mem1 !! (q + 8 * j) = mem !! (q + 8 * j)) ->
  (forall x, x / ptab_size (S (S l)) = n ->
     translate mem1 (S l) p x = translate mem (S l) p x) ->
  mapped k (S l) p n la la1 a1 mem1 tb1 a2 mem2 tb2 ->
  mapped k (S l) p n la la1 a mem tb a2 mem2 tb2.
Proof.
  intros Hlt Hi Hp Hsub1 Hsame1 Htr1 [Hok2 Hsub Hframe Hin Hout]. split; [done|auto|..].
  - intros q L' n' j Hq Hj Hd. rewrite (Hframe q L' n' j (Hsub1 _ _ Hq) Hj Hd).
    apply (Hsame1 q L' n' j Hq Hj). intros [= -> ->]. rewrite Hp in Hq. injection Hq as <- <-.
    destruct Hd as [?|Hd]; [lia|]. apply (Hd la); [lia|done].
  - done.
  - intros x Hxn Hx. rewrite Hout by done. by apply Htr1.
Qed.

(** ** Levels *)

Definition cursor_ok (c : cursor) : Prop :=
  0 <= c_la c /\ 0 <= c_pa c /\ 0 < c_size c /\
  c_la c mod PAGE_SIZE = 0 /\ c_pa c mod PAGE_SIZE = 0 /\ c_size c mod PAGE_SIZE = 0 /\
  c_la c + c_size c <= 2 ^ 48 /\ c_pa c + c_size c <= 2 ^ 52.

(** The cursor after mapping up to [la']. *)
Definition cursor_at (c : cursor) (la' : Z) : cursor :=
  {| c_la := la'; c_pa := la' + (c_pa c - c_la c); c_size := c_la c + c_size c - la' |}.

(** The machine stops, a table beyond the table memory is touched, or the range up
    to [la'] is mapped. *)
Definition outcome (L : nat) (p n la' : Z) (c : cursor) (a : A) (mem : pmem) (tb : tabs)
  (r : run (cursor * (A * pmem))) : Prop :=
  r = Panicked \/ r = Oob \/
  exists a' mem' tb', r = Ret (cursor_at c la', (a', mem')) /\
    mapped (c_pa c - c_la c) L p n (c_la c) la' a mem tb a' mem' tb'.

Definition unmapped (L : nat) (p n : Z) (c : cursor) (mem : pmem) : Prop :=
  forall x, c_la c <= x < c_la c + c_size c -> x / ptab_size (S L) = n ->
    translate mem L p x = None.

(** Where a block of the given level that holds [la] ends, or the range does. *)
Definition stop (L : nat) (c : cursor) : Z :=
  Z.min (c_la c + c_size c) ((c_la c / ptab_size L + 1) * ptab_size L).

Definition level_spec (bits : Z) (L : nat) : Prop := forall p n c a mem tb,
  world_ok a mem tb -> tb !! p = Some (L, n) -> c_la c / ptab_size (S L) = n ->
  cursor_ok c -> unmapped L p n c mem ->
  outcome L p n (stop (S L) c) c a mem tb
    (ptab_map_level cpu_info L p bits c (a, mem)).

Lemma stop_gt L c : cursor_ok c -> c_la c < stop L c.
Proof.
  intros (? & _ & ? & _). unfold stop. pose proof (ptab_size_pos L).
  pose proof (Z.div_mod (c_la c) (ptab_size L) ltac:(lia)).
  pose proof (Z.mod_pos_bound (c_la c) (ptab_size L) ltac:(lia)). lia.
Qed.

(** A page that is no table memory faults at once. *)
Lemma ptab_map_level_oob L t bits c a mem :
  mem !! find_ptabe t L (c_la c) = None ->
  ptab_map_level cpu_info L t bits c (a, mem) = Oob.
Proof.
  intros E. destruct L; cbn [ptab_map_level map_loop]; unfold map_entry, rd_ptabe; cbn [snd];
    rewrite E; done.
Qed.

Lemma aligned_size L c :
  cursor_ok c -> L = 0%nat ->
  is_ptab_aligned L (c_la c) = true /\ is_ptab_aligned L (c_pa c) = true /\
  (ptab_size L <=? c_size c) = true.
Proof.
  intros (? & ? & ? & Hla & Hpa & Hsz & _) ->. rewrite !is_ptab_aligned_spec, ptab_size_0.
  rewrite Hla, Hpa. split; [done|]. split; [done|].
  apply Z.mod_divide in Hsz as [q Hq]; [|done]. change PAGE_SIZE with 4096 in *. lia.
Qed.

(** Going down through an entry that points to a table. *)
Lemma descend_spec bits l p n c e a mem tb :
  level_spec bits l -> world_ok a mem tb -> tb !! p = Some (S l, n) ->
  c_la c / ptab_size (S (S l)) = n -> cursor_ok c -> unmapped (S l) p n c mem ->
  mem !! (p + 8 * ptab_idx (S l) (c_la c)) = Some e -> is_valid e = true ->
  is_leaf (S l) e = false ->
  outcome (S l) p n (stop (S l) c) c a mem tb
    (ptab_map_level cpu_info l (Z.land e PTAB_PFN) bits c (a, mem)).
Proof.
  intros IH Hw Hp Hla Hc Hun He Hv Hlf. pose proof Hw as (_ & Hok & _).
  destruct (tk_entry _ _ Hok p (S l) n _ Hp (ptab_idx_range (S l) (c_la c))) as (e' & He' & Hnext).
  assert (e' = e) as -> by congruence. destruct (Hnext Hv Hlf) as (l' & [= <-] & Ht).
  destruct (IH (Z.land e PTAB_PFN) _ c a mem tb Hw Ht) as [?|[?|(a' & mem' & tb' & E & Hm)]].
  - by apply block_idx.
  - done.
  - intros x Hx Hxn. rewrite <- (translate_table mem l p x e); try done.
    + apply Hun; [done|]. rewrite block_up, Hxn. by destruct (child_number n _ (ptab_idx_range (S l) (c_la c))).
    + rewrite (same_block_idx (S l) (c_la c)); [done|]. by rewrite Hxn, (block_idx (S l) (c_la c) n Hla).
  - by left.
  - by right; left.
  - right; right. exists a', mem', tb'. split; [done|].
    eapply descend_lift; try done. unfold stop. lia.
Qed.

(** Going down through an unused entry: a table is allocated first. *)
Lemma descend_new_spec bits l p n c e0 a mem tb :
  level_spec bits l -> 0 <= bits < 128 -> world_ok a mem tb -> tb !! p = Some (S l, n) ->
  c_la c / ptab_size (S (S l)) = n -> cursor_ok c -> unmapped (S l) p n c mem ->
  mem !! (p + 8 * ptab_idx (S l) (c_la c)) = Some e0 -> is_valid e0 = false ->
  outcome (S l) p n (stop (S l) c) c a mem tb
    (st2 ← ('(next_ptab_pa, st2) ← ptab_alloc (a, mem);
            mret (wr_ptabe (p + 8 * ptab_idx (S l) (c_la c))
              (Z.lor (Z.lor (Z.land next_ptab_pa PTAB_PFN) PTAB_VALID) bits) st2));
     e ← rd_ptabe (p + 8 * ptab_idx (S l) (c_la c)) st2;
     ptab_map_level cpu_info l (Z.land e PTAB_PFN) bits c st2).
Proof.
  intros IH Hb Hw Hp Hla Hc Hun He0 Hv0. pose proof Hw as (Hinv & Hok & Hown).
  destruct (tk_page _ _ Hok _ _ _ Hp) as (Hpp & Hpr & HL).
  destruct (ptab_alloc_ends a mem Hinv) as [->|[[t [a1 mem1]] E]]; [by left|].
  pose proof (ptab_alloc_inv a mem t a1 mem1 Hinv E) as Hinv1.
  destruct (ptab_alloc_table a mem t a1 mem1 Hinv E) as (Htr & Htp & Hsame & Hnew).
  rewrite E. cbn [mbind run_bind mret run_ret]. unfold rd_ptabe, wr_ptabe. cbn [fst snd].
  rewrite lookup_insert_eq. cbn [or_oob mbind run_bind].
  destruct (table_entry (S l) t bits ltac:(lia) Htp Htr Hb HL) as (Hv & Hlf & Hpfn).
  set (e := Z.lor (Z.lor (Z.land t PTAB_PFN) PTAB_VALID) bits) in *.
  destruct Hnew as [(Hfresh & Htabs & Hzero)|(Hfresh & _ & Hnone)].
  - destruct (table_step l p n (c_la c) t e0 e a mem tb a1 mem1)
      as (Hw2 & Hsub2 & Hsame2 & Htr2); [done..|].
    set (mem2 := <[p + 8 * ptab_idx (S l) (c_la c) := e]> mem1) in *.
    set (tb2 := <[t := (l, n * 512 + ptab_idx (S l) (c_la c))]> tb) in *.
    destruct (descend_spec bits l p n c e a1 mem2 tb2) as [?|[?|(a' & mem' & tb' & E' & Hm)]];
      try done.
    + by apply Hsub2.
    + intros x Hx Hxn. rewrite Htr2 by done. by apply Hun.
    + apply lookup_insert_eq.
    + by left.
    + by right; left.
    + right; right. exists a', mem', tb'. split; [done|].
      eapply mapped_after_table; try done; [by apply stop_gt|by apply block_idx].
  - right; left. rewrite Hpfn. apply ptab_map_level_oob. rewrite find_ptabe_idx.
    rewrite lookup_insert_ne; [apply Hnone, ptab_idx_range|]. intros Ea.
    destruct (entry_addr_inj p t (ptab_idx (S l) (c_la c)) (ptab_idx l (c_la c)))
      as [-> _]; try done; try apply ptab_idx_range. apply Hfresh. by eapply Hown.
Qed.

Lemma map_entry_spec bits L p n c a mem tb :
  match L with O => True | S l => level_spec bits l end ->
  0 <= bits < 128 -> world_ok a mem tb -> tb !! p = Some (L, n) ->
  c_la c / ptab_size (S L) = n -> cursor_ok c -> unmapped L p n c mem ->
  outcome L p n (stop L c) c a mem tb
    (map_entry cpu_info
       (match L with
        | O => None
        | S l => Some (fun ptab_pa => ptab_map_level cpu_info l ptab_pa bits)
        end) L p bits c (a, mem)).
Proof.
  intros IH Hb Hw Hp Hla Hc Hun. pose proof Hw as (Hinv & Hok & Hown).
  destruct (tk_page _ _ Hok _ _ _ Hp) as (Hpp & Hpr & HL).
  destruct (tk_entry _ _ Hok p L n _ Hp (ptab_idx_range L (c_la c))) as (e0 & He0 & _).
  pose proof Hc as (Hla0 & Hpa0 & Hs0 & Hlap & Hpap & Hsp & Hlim & Hplim).
  unfold map_entry. cbv zeta. rewrite find_ptabe_idx.
  assert (Erd : rd_ptabe (p + 8 * ptab_idx L (c_la c)) (a, mem) = Ret e0)
    by (unfold rd_ptabe; cbn [snd]; by rewrite He0).
  rewrite Erd. cbn [mbind run_bind].
  assert (Hnl : is_valid e0 = true -> is_leaf L e0 = false).
  { intros Hv. apply not_true_is_false. intros Hlf.
    assert (Hno : translate mem L p (c_la c) = None) by (apply Hun; [lia|done]).
    by rewrite (translate_leaf mem L p (c_la c) e0) in Hno. }
  destruct (allow_leaf cpu_info L && negb (is_valid e0) && is_ptab_aligned L (c_la c)
            && is_ptab_aligned L (c_pa c) && (ptab_size L <=? c_size c)) eqn:Hwr.
  - rewrite !andb_true_iff, negb_true_iff, !is_ptab_aligned_spec in Hwr.
    destruct Hwr as ((((Hal & Hv0) & Hla1%Z.eqb_eq) & Hpa1%Z.eqb_eq) & Hsz%Z.leb_le).
    assert (HL2 : (L <= 2)%nat) by (destruct L as [|[|[|[|]]]]; (done || lia)).
    unfold rd_ptabe, wr_ptabe. cbn [fst snd]. rewrite lookup_insert_eq.
    cbn [or_oob mbind run_bind].
    destruct (leaf_entry L (c_pa c) bits HL2 Hpap ltac:(lia) Hb) as (Hv & Hlf & Hpfn).
    rewrite Hal, Hv, Hlf. cbn [andb]. rewrite (proj2 (Z.leb_le _ _) Hsz).
    pose proof (ptab_size_pos L) as Hpos. rewrite !uwrap_small by (unfold in_u; lia).
    assert (Estop : stop L c = c_la c + ptab_size L).
    { unfold stop. pose proof (Z.div_mod (c_la c) (ptab_size L) ltac:(lia)). lia. }
    right; right. eexists a, _, tb. split.
    + rewrite Estop. unfold cursor_at. f_equal. f_equal. f_equal; lia.
    + rewrite Estop. by eapply leaf_step.
  - rewrite Erd. cbn [mbind run_bind].
    replace (allow_leaf cpu_info L && is_valid e0 && is_leaf L e0) with false.
    2:{ destruct (is_valid e0); [rewrite Hnl by done|]; by rewrite ?andb_false_r. }
    destruct L as [|l].
    { destruct (aligned_size 0 c Hc eq_refl) as (E1 & E2 & E3). rewrite E1, E2, E3 in Hwr.
      destruct (is_valid e0); [|done]. by specialize (Hnl eq_refl). }
    destruct (is_valid e0) eqn:Hv0; cbn [negb].
    + cbn [mbind run_bind]. rewrite Erd. cbn [mbind run_bind]. apply descend_spec; auto.
    + by eapply descend_new_spec.
Qed.

(** ** The loop over a table *)

Lemma block_bounds L x :
  x / ptab_size L * ptab_size L <= x < (x / ptab_size L + 1) * ptab_size L.
Proof.
  pose proof (ptab_size_pos L). pose proof (Z.div_mod x (ptab_size L) ltac:(lia)).
  pose proof (Z.mod_pos_bound x (ptab_size L) ltac:(lia)). lia.
Qed.

(** An entry's block ends inside the table's block. *)
Lemma block_end_le L x :
  (x / ptab_size L + 1) * ptab_size L <= (x / ptab_size (S L) + 1) * ptab_size (S L).
Proof.
  rewrite block_up, ptab_size_S. pose proof (ptab_size_pos L).
  pose proof (Z.div_mod (x / ptab_size L) 512 ltac:(lia)).
  pose proof (Z.mod_pos_bound (x / ptab_size L) 512 ltac:(lia)). nia.
Qed.

Lemma page_multiple L q : (q * ptab_size L) mod PAGE_SIZE = 0.
Proof.
  destruct (ptab_size_page L) as (r & _ & ->). rewrite Z.mul_assoc. by apply Z.mod_mul.
Qed.

Lemma cursor_at_ok c la' :
  cursor_ok c -> c_la c <= la' < c_la c + c_size c -> la' mod PAGE_SIZE = 0 ->
  cursor_ok (cursor_at c la').
Proof.
  intros (H1 & H2 & H3 & H4%Z.mod_divide & H5%Z.mod_divide & H6%Z.mod_divide & H7 & H8) Hle Hm;
    [|done..]. apply Z.mod_divide in Hm; [|done].
  destruct H4 as [q4 E4], H5 as [q5 E5], H6 as [q6 E6], Hm as [qm Em].
  unfold cursor_ok, cursor_at. cbn [c_la c_pa c_size]. repeat split; try lia;
    (apply Z.mod_divide; [done|]).
  - by exists qm.
  - exists (qm + (q5 - q4)). lia.
  - exists (q4 + q6 - qm). lia.
Qed.

(** After one entry that is not the last: the next index, the same table. *)
Lemma next_entry L la n :
  la / ptab_size (S L) = n -> (la / ptab_size L + 1) * ptab_size L < (n + 1) * ptab_size (S L) ->
  ((la / ptab_size L + 1) * ptab_size L) / ptab_size (S L) = n /\
  ptab_idx L ((la / ptab_size L + 1) * ptab_size L) = ptab_idx L la + 1.
Proof.
  intros Hn Hlt. pose proof (ptab_size_pos L) as Hpos.
  assert (E : (la / ptab_size L + 1) * ptab_size L / ptab_size L = la / ptab_size L + 1)
    by (apply Z.div_mul; lia).
  pose proof (block_idx L la n Hn) as Hblk. pose proof (ptab_idx_range L la).
  rewrite ptab_size_S in Hlt.
  assert (la / ptab_size L + 1 < (n + 1) * 512)
    by (apply (Z.mul_lt_mono_pos_r (ptab_size L)); lia).
  split.
  - rewrite block_up, E. symmetry. apply (Z.div_unique _ _ _ (ptab_idx L la + 1)); lia.
  - unfold ptab_idx at 1. rewrite E. symmetry. apply (Z.mod_unique _ _ n); lia.
Qed.

Lemma map_loop_spec bits L p n fuel c a mem tb :
  match L with O => True | S l => level_spec bits l end ->
  0 <= bits < 128 -> world_ok a mem tb -> tb !! p = Some (L, n) ->
  c_la c / ptab_size (S L) = n -> cursor_ok c -> unmapped L p n c mem ->
  512 - ptab_idx L (c_la c) <= Z.of_nat fuel ->
  outcome L p n (stop (S L) c) c a mem tb
    (map_loop
       (map_entry cpu_info
          (match L with
           | O => None
           | S l => Some (fun ptab_pa => ptab_map_level cpu_info l ptab_pa bits)
           end) L p bits) L fuel c (a, mem)).
Proof.
  intros IHL Hb. revert c a mem tb. induction fuel as [|f IH];
    intros c a mem tb Hw Hp Hla Hc Hun Hf.
  { pose proof (ptab_idx_range L (c_la c)). lia. }
  cbn [map_loop].
  destruct (map_entry_spec bits L p n c a mem tb IHL Hb Hw Hp Hla Hc Hun)
    as [->|[->|(a1 & mem1 & tb1 & -> & Hm)]]; [by left|by right; left|].
  cbn [mbind run_bind]. set (la1 := stop L c) in *.
  pose proof (stop_gt L c Hc : c_la c < la1) as Hgt.
  pose proof (block_end_le L (c_la c)) as Hble. pose proof (block_bounds (S L) (c_la c)) as Hbb.
  rewrite Hla in Hble, Hbb.
  assert (Hla1 : la1 <= c_la c + c_size c /\ la1 <= (c_la c / ptab_size L + 1) * ptab_size L)
    by (unfold la1, stop; lia).
  rewrite is_ptab_aligned_spec. cbn [c_la c_size cursor_at].
  destruct (Z.ltb_spec 0 (c_la c + c_size c - la1)) as [Hmore|Hdone]; cbn [andb].
  2:{ right; right. exists a1, mem1, tb1.
      replace (stop (S L) c) with la1 by (unfold stop at 1; rewrite Hla; lia). done. }
  assert (Ela1 : la1 = (c_la c / ptab_size L + 1) * ptab_size L) by (unfold la1, stop in *; lia).
  destruct (Z.eqb_spec (la1 mod ptab_size (S L)) 0) as [Hal|Hal]; cbn [negb].
  { right; right. exists a1, mem1, tb1. apply Z.mod_divide in Hal as [q Hq];
      [|pose proof (ptab_size_pos (S L)); lia].
    assert (q = n + 1).
    { pose proof (ptab_size_pos (S L)).
      assert (n < q) by (apply (Z.mul_lt_mono_pos_r (ptab_size (S L))); lia).
      assert (q < n + 2) by (apply (Z.mul_lt_mono_pos_r (ptab_size (S L))); lia). lia. }
    replace (stop (S L) c) with la1 by (unfold stop at 1; rewrite Hla; subst q; lia). done. }
  assert (Hne : la1 <> (n + 1) * ptab_size (S L)).
  { intros E. apply Hal. rewrite E. apply Z.mod_mul. pose proof (ptab_size_pos (S L)). lia. }
  destruct (next_entry L (c_la c) n Hla ltac:(lia)) as [Hn1 Hi1]. rewrite <- Ela1 in Hn1, Hi1.
  assert (Hc1 : cursor_ok (cursor_at c la1))
    by (apply cursor_at_ok; [done|lia|rewrite Ela1; apply page_multiple]).
  assert (Hin : forall x, c_la c <= x < la1 -> x / ptab_size (S L) = n).
  { intros x Hx. rewrite <- Hla. apply same_block. rewrite Hla. lia. }
  destruct (IH (cursor_at c la1) a1 mem1 tb1) as [->|[->|(a2 & mem2 & tb2 & -> & Hm2)]];
    [apply Hm|by apply (mp_sub _ _ _ _ _ _ _ _ _ _ _ _ Hm)|done|done| |cbn; lia
    |by left|by right; left|].
  { intros x Hx Hxn. cbn in Hx. rewrite (mp_out _ _ _ _ _ _ _ _ _ _ _ _ Hm x) by (done || lia).
    apply Hun; [lia|done]. }
  right; right. exists a2, mem2, tb2.
  assert (Est : stop (S L) (cursor_at c la1) = stop (S L) c).
  { unfold stop. cbn [c_la c_size cursor_at]. rewrite Hn1, Hla. lia. }
  rewrite Est in *. split.
  - unfold cursor_at. cbn [c_la c_pa c_size]. do 3 f_equal; lia.
  - cbn [c_la c_pa cursor_at] in Hm2.
    replace (la1 + (c_pa c - c_la c) - la1) with (c_pa c - c_la c) in Hm2 by lia.
    eapply mapped_trans; try done. unfold stop. rewrite Hla. lia.
Qed.

Lemma ptab_map_level_spec bits L : 0 <= bits < 128 -> level_spec bits L.
Proof.
  intros Hb. induction L as [|l IH]; intros p n c a mem tb Hw Hp Hla Hc Hun;
    cbn [ptab_map_level]; apply map_loop_spec; try done;
    match goal with |- 512 - ptab_idx ?L ?x <= _ => pose proof (ptab_idx_range L x) end; lia.
Qed.

(** ** Ranges *)

Lemma trunc_page_spec x : in_u 64 x -> trunc_page x = x / PAGE_SIZE * PAGE_SIZE.
Proof.
  intros Hx. unfold trunc_page. change (u64 (Z.lnot PAGE_MASK)) with (Z.shiftl (Z.ones 52) 12).
  by apply (land_high_ones x 12 52).
Qed.

Lemma trunc_page_bounds x :
  in_u 64 x -> trunc_page x <= x < trunc_page x + PAGE_SIZE /\ 0 <= trunc_page x /\
  trunc_page x mod PAGE_SIZE = 0.
Proof.
  intros Hx. rewrite trunc_page_spec by done. unfold in_u in Hx.
  pose proof (Z.div_mod x PAGE_SIZE ltac:(done)). pose proof (Z.mod_pos_bound x PAGE_SIZE ltac:(done)).
  assert (0 <= x / PAGE_SIZE) by (apply Z.div_pos; [lia|done]).
  change PAGE_SIZE with 4096 in *. split; [lia|]. split; [lia|]. by apply Z.mod_mul.
Qed.

Lemma round_page_bounds x :
  0 <= x -> x + PAGE_SIZE <= 2 ^ 64 ->
  x <= round_page x < x + PAGE_SIZE /\ round_page x mod PAGE_SIZE = 0.
Proof.
  intros Hx Hlim. unfold round_page, PAGE_MASK. change PAGE_SIZE with 4096 in *.
  rewrite uwrap_small by (unfold in_u; lia).
  destruct (trunc_page_bounds (x + (4096 - 1))) as (? & _ & ?); [unfold in_u; lia|].
  change PAGE_SIZE with 4096 in *. split; [lia|done].
Qed.

Lemma map_range_outcome bits p la pa size a mem tb :
  world_ok a mem tb -> tb !! p = Some (3%nat, 0) -> 0 <= bits < 128 ->
  0 <= la -> 2 <= size -> la + size + PAGE_SIZE <= 2 ^ 48 ->
  0 <= pa -> pa + size + 2 * PAGE_SIZE <= 2 ^ 52 ->
  let lo := trunc_page la in
  let len := round_page (la - lo + size) in
  (forall x, lo <= x < lo + len -> translate mem 3 p x = None) ->
  let r := ptab_map_range cpu_info p la pa size bits (a, mem) in
  r = Panicked \/ r = Oob \/
  exists a' mem' tb', r = Ret (a', mem') /\
    mapped (trunc_page pa - lo) 3 p 0 lo (lo + len) a mem tb a' mem' tb'.
Proof.
  intros Hw Hp Hb Hla Hsz Hlim Hpa Hplim. cbn zeta. intros Hun.
  change PAGE_SIZE with 4096 in *.
  destruct (trunc_page_bounds la) as (Hl1 & Hl2 & Hl3); [unfold in_u; lia|].
  destruct (trunc_page_bounds pa) as (Hp1 & Hp2 & Hp3); [unfold in_u; lia|].
  change PAGE_SIZE with 4096 in *. set (lo := trunc_page la) in *.
  destruct (round_page_bounds (la - lo + size)) as [Hr1 Hr2]; [lia|change PAGE_SIZE with 4096; lia|].
  change PAGE_SIZE with 4096 in *. set (len := round_page (la - lo + size)) in *.
  unfold ptab_map_range. rewrite (proj2 (Z.eqb_neq size 0)) by lia.
  rewrite (uwrap_small 64 (la + size - 1)) by (unfold in_u; lia).
  rewrite (proj2 (Z.ltb_lt _ _)) by lia. cbn [negb]. cbv zeta. fold lo.
  rewrite (uwrap_small 64 (la - lo + size)) by (unfold in_u; lia). fold len.
  set (c := {| c_la := lo; c_pa := trunc_page pa; c_size := len |}).
  assert (Hc : cursor_ok c).
  { unfold cursor_ok, c. cbn [c_la c_pa c_size]. change PAGE_SIZE with 4096. repeat split; lia. }
  assert (Hn : forall x, 0 <= x < 2 ^ 48 -> x / ptab_size 4 = 0).
  { intros x Hx. apply Z.div_small. exact Hx. }
  assert (Est : stop 4 c = lo + len).
  { unfold stop, c. cbn [c_la c_size]. rewrite Hn by lia. change (ptab_size 4) with (2 ^ 48). lia. }
  destruct (ptab_map_level_spec bits 3 Hb p 0 c a mem tb Hw Hp) as [E|[E|(a' & mem' & tb' & E & Hm)]].
  - apply Hn. cbn. lia.
  - done.
  - intros x Hx _. by apply Hun.
  - left. change PTAB_LEVEL_PML4E with 3%nat. by rewrite E.
  - right; left. change PTAB_LEVEL_PML4E with 3%nat. by rewrite E.
  - right; right. exists a', mem', tb'. change PTAB_LEVEL_PML4E with 3%nat. rewrite E.
    split; [done|]. rewrite Est in Hm. exact Hm.
Qed.


End Mapping_laws.

(** ** The pool keeps the laws *)

Lemma zero_pool_lookup pool mem a :
  zero_pool pool mem !! a =
  if decide (pool <= a < pool + POOL_SIZE /\ (a - pool) mod 8 = 0) then Some 0 else mem !! a.
Proof.
  unfold zero_pool. change POOL_SIZE with 24576. change (Z.to_nat (24576 / 8)) with 3072%nat.
  assert (Hin : forall l, foldr (fun i m => <[pool + 8 * Z.of_nat i := 0]> m) mem l !! a =
            if decide (Exists (fun i => a = pool + 8 * Z.of_nat i) l) then Some 0 else mem !! a).
  { intros l. induction l as [|i l IH]; cbn [foldr].
    - rewrite decide_False; [done|]. by intros ?%Exists_nil.
    - destruct (decide (a = pool + 8 * Z.of_nat i)) as [->|Hne].
      + rewrite lookup_insert_eq, decide_True; [done|]. by left.
      + rewrite lookup_insert_ne, IH by done. apply decide_ext. rewrite Exists_cons. tauto. }
  rewrite Hin. apply decide_ext. rewrite Exists_exists. split.
  - intros (i & Hi%in_seq & ->). split; [lia|].
    replace (pool + 8 * Z.of_nat i - pool) with (Z.of_nat i * 8) by lia. by apply Z.mod_mul.
  - intros [Ha [q Hq]%Z.mod_divide]; [|done]. exists (Z.to_nat q).
    split; [apply in_seq; lia|lia].
Qed.

Lemma page_gap p q : p mod PAGE_SIZE = 0 -> q mod PAGE_SIZE = 0 -> p < q -> p + PAGE_SIZE <= q.
Proof.
  intros [a ->]%Z.mod_divide [b ->]%Z.mod_divide Hlt; [|done..]. change PAGE_SIZE with 4096 in *. lia.
Qed.

Lemma page_add p : p mod PAGE_SIZE = 0 -> (p + PAGE_SIZE) mod PAGE_SIZE = 0.
Proof. intros Hp. by rewrite <- (Z.mul_1_l PAGE_SIZE) at 1; rewrite Z_mod_plus_full. Qed.

(** After the first part of [ptab_alloc] the pool is initialised. *)
Lemma pool_init_spec p mem :
  pool_inv p mem ->
  let r := pool_init p mem in
  pool_inv r.1 r.2 /\ initialized r.1 = true /\ pool r.1 = pool p /\
  (forall q, pt_tables p q <-> pt_tables r.1 q) /\
  (forall q i, pt_tables p q -> 0 <= i < 512 -> r.2 !! (q + 8 * i) = mem !! (q + 8 * i)).
Proof.
  intros (Hp0 & Hpal & Hplim & Hnone & Hini). unfold pool_init. destruct (initialized p) eqn:Ei.
  { cbn. repeat split; try done; try lia; by apply Hini. }
  cbn zeta. cbn [fst snd].
  assert (Epd : Z.land (u32 (pool p + PAGE_SIZE - 1)) (u32 (Z.lnot PAGE_MASK)) = pool p).
  { change (u32 (Z.lnot PAGE_MASK)) with (Z.shiftl (Z.ones 20) 12).
    change PAGE_SIZE with 4096 in *. change POOL_SIZE with 24576 in *.
    rewrite uwrap_small by (unfold in_u; lia).
    rewrite (land_high_ones _ 12 20) by lia. apply Z.mod_divide in Hpal as [k Hk]; [|done].
    rewrite Hk. change (2 ^ 12) with 4096.
    replace (k * 4096 + 4096 - 1) with (4095 + k * 4096) by lia. rewrite Z.div_add by lia.
    change (4095 / 4096) with 0. lia. }
  rewrite Epd. split; [|split; [done|split; [done|split]]].
  - unfold pool_inv. cbn. do 3 (split; [done|]). split.
    + intros a Ha. rewrite zero_pool_lookup, decide_False by lia. by apply Hnone.
    + intros _. change PAGE_SIZE with 4096. change POOL_SIZE with 24576 in *.
      split; [lia|]. split; [done|]. intros a Ha Ha8. rewrite zero_pool_lookup.
      rewrite decide_True; [done|]. change POOL_SIZE with 24576. split; [done|].
      apply Z.mod_divide in Hpal as [k Hk], Ha8 as [k' Hk']; [|done..].
      change PAGE_SIZE with 4096 in Hk. apply Z.mod_divide; [done|]. exists (k' - k * 512). lia.
  - intros q. cbn. rewrite Ei. split; [by intros [? _]|]. intros (_ & ? & _). lia.
  - intros q i [Hf _]. congruence.
Qed.

Lemma pool_end_aligned p mem : pool_inv p mem -> (pool p + POOL_SIZE) mod PAGE_SIZE = 0.
Proof.
  intros (_ & Hpal & _). change POOL_SIZE with (6 * PAGE_SIZE). by rewrite Z_mod_plus_full.
Qed.

Lemma pool_alloc_inv p mem t p' mem' :
  pool_inv p mem -> pool_alloc (p, mem) = Ret (t, (p', mem')) -> pool_inv p' mem'.
Proof.
  intros Hinv. destruct (pool_init_spec p mem Hinv) as (Hinv1 & Hi1 & _).
  unfold pool_alloc. destruct (pool_init p mem) as [p1 mem1].
  cbn [fst snd] in *. destruct Hinv1 as (Hp0 & Hpal & Hplim & Hnone & Hini).
  destruct (Hini Hi1) as (Hpd & Hpdal & Hz).
  assert (0 < PAGE_SIZE) by done. assert (0 < POOL_SIZE) by done.
  rewrite (uwrap_small 32 (pool p1 + POOL_SIZE)) by (unfold in_u; lia).
  destruct (Z.ltb_spec (pool p1 + POOL_SIZE) (pdirs p1)); [done|]. intros [= <- <- <-].
  rewrite uwrap_small by (unfold in_u; lia). unfold pool_inv. cbn [pool pdirs initialized].
  do 4 (split; [done|]). intros _. split; [lia|].
  split; [by apply page_add|]. intros a Ha. apply Hz. lia.
Qed.

Lemma pool_write_inv p mem q i v :
  pool_inv p mem -> pt_tables p q -> 0 <= i < 512 -> pool_inv p (<[q + 8 * i := v]> mem).
Proof.
  intros Hinv (Hi & Hq1 & Hq2 & Hqal) Hr.
  pose proof (page_gap q _ Hqal (pool_end_aligned p mem Hinv) Hq2) as Hg1.
  destruct Hinv as (Hp0 & Hpal & Hplim & Hnone & Hini).
  destruct (Hini Hi) as (Hpd & Hpdal & Hz).
  assert (Hg2 : q + PAGE_SIZE <= pdirs p) by (apply page_gap; [done|done|lia]).
  change PAGE_SIZE with 4096 in *. do 3 (split; [done|]). split.
  - intros a Ha. rewrite lookup_insert_ne by lia. by apply Hnone.
  - intros _. split; [done|]. split; [done|]. intros a Ha Ha8.
    rewrite lookup_insert_ne by lia. by apply Hz.
Qed.

Lemma pool_alloc_table p mem t p' mem' :
  pool_inv p mem -> pool_alloc (p, mem) = Ret (t, (p', mem')) ->
  0 <= t < 2 ^ 32 /\ t mod PAGE_SIZE = 0 /\
  (forall q i, pt_tables p q -> 0 <= i < 512 -> mem' !! (q + 8 * i) = mem !! (q + 8 * i)) /\
  ((~ pt_tables p t /\ (forall q, pt_tables p' q <-> q = t \/ pt_tables p q) /\
    (forall i, 0 <= i < 512 -> mem' !! (t + 8 * i) = Some 0)) \/
   (~ pt_tables p t /\ (forall q, pt_tables p' q <-> pt_tables p q) /\
    (forall i, 0 <= i < 512 -> mem' !! (t + 8 * i) = None))).
Proof.
  intros Hinv.
  destruct (pool_init_spec p mem Hinv) as (Hinv1 & Hi1 & _ & Htab & Hsame).
  unfold pool_alloc. destruct (pool_init p mem) as [p1 mem1]. cbn [fst snd] in *.
  pose proof (pool_end_aligned p1 mem1 Hinv1) as Hendal.
  destruct Hinv1 as (Hp0 & Hpal & Hplim & Hnone & Hini). destruct (Hini Hi1) as (Hpd & Hpdal & Hz).
  assert (0 < PAGE_SIZE) by done. assert (0 < POOL_SIZE) by done.
  rewrite (uwrap_small 32 (pool p1 + POOL_SIZE)) by (unfold in_u; lia).
  destruct (Z.ltb_spec (pool p1 + POOL_SIZE) (pdirs p1)) as [|Hle]; [done|].
  intros [= <- <- <-]. rewrite uwrap_small by (unfold in_u; lia).
  split; [lia|]. split; [done|]. split; [done|].
  assert (Hnot : ~ pt_tables p (pdirs p1)) by (rewrite Htab; cbn; lia).
  destruct (Z.lt_ge_cases (pdirs p1) (pool p1 + POOL_SIZE)) as [Hin|Hout].
  - left. split; [done|].
    pose proof (page_gap _ _ Hpdal Hendal Hin) as Hroom. split.
    + intros q. rewrite Htab. cbn [pt_tables pool_ptab_alloc pool pdirs initialized]. rewrite Hi1.
      split.
      * intros (_ & Hq & Hq2 & Hqal). destruct (decide (q = pdirs p1)); [by left|right].
        split; [done|]. split; [|by split].
        destruct (Z.lt_ge_cases q (pdirs p1)); [lia|].
        pose proof (page_gap (pdirs p1) q Hpdal Hqal ltac:(lia)). lia.
      * intros [->|(_ & ? & ? & ?)]; repeat split; (done || lia).
    + intros i Hi. apply Hz; [change PAGE_SIZE with 4096 in *; lia|].
      apply Z.mod_divide in Hpdal as [k Hk]; [|done]. rewrite Hk.
      apply Z.mod_divide; [done|]. exists (k * 512 + i). change PAGE_SIZE with 4096. lia.
  - right. split; [done|]. split.
    + intros q. rewrite Htab. cbn [pt_tables pool_ptab_alloc pool pdirs initialized]. rewrite Hi1.
      split; intros (? & ? & ? & ?); repeat split; (done || lia).
    + intros i Hi. apply Hnone. lia.
Qed.

#[global] Instance pool_ptab_alloc_laws : Ptab_alloc_laws pool_state.
Proof.
  split; [|exact pool_alloc_inv|exact pool_write_inv|exact pool_alloc_table].
  intros p mem _. cbn [ptab_alloc pool_ptab_alloc]. unfold pool_alloc.
  destruct (pool_init p mem) as [p1 mem1]. split_if; [by left|right; eauto].
Qed.

(** ** The identity mapping *)

(** A single zeroed table: nothing is mapped. *)
Lemma tables_ok_root mem p :
  p mod PAGE_SIZE = 0 -> 0 <= p < 2 ^ 32 ->
  (forall i, 0 <= i < 512 -> mem !! (p + 8 * i) = Some 0) ->
  tables_ok mem {[p := (3%nat, 0)]} /\ forall x, translate mem 3 p x = None.
Proof.
  intros Hp Hr Hz. split; [split|].
  - intros q L n [<- [= <- <-]]%lookup_singleton_Some. repeat split; (done || lia).
  - intros q L n i [<- [= <- <-]]%lookup_singleton_Some Hi. exists 0. by rewrite Hz.
  - intros q q' v [<- _]%lookup_singleton_Some [<- _]%lookup_singleton_Some. done.
  - intros q l n [<- [= <- <-]]%lookup_singleton_Some Hl. lia.
  - intros x. apply (translate_unused mem 3 p x 0); [apply Hz, ptab_idx_range|done].
Qed.

(** [base_paging_init] from an unused pool: it ends, and unless the pool is
    too small, the first page table then maps every byte of memory below the given
    limit to itself and nothing beyond the limit rounded up to a page. *)
Theorem base_paging_init_identity cpu_info phys_mem_max p mem :
  pool_inv p mem -> initialized p = false -> 2 <= phys_mem_max ->
  phys_mem_max + PAGE_SIZE <= 2 ^ 48 ->
  let r := base_paging_init cpu_info phys_mem_max (p, mem) in
  r = Panicked \/ r = Oob \/
  exists root p' mem', r = Ret (root, (p', mem')) /\
    (forall x, 0 <= x < phys_mem_max -> translate mem' 3 root x = Some x) /\
    (forall x, round_page phys_mem_max <= x < 2 ^ 48 -> translate mem' 3 root x = None).
Proof.
  intros Hinv Hini Hmin Hmax. cbn zeta. unfold base_paging_init.
  change (pool_inv p mem) with (pt_inv p mem) in Hinv.
  destruct (ptab_alloc_ends p mem Hinv) as [->|[[root [p1 mem1]] E]]; [by left|].
  pose proof (ptab_alloc_inv p mem root p1 mem1 Hinv E) as Hinv1.
  destruct (ptab_alloc_table p mem root p1 mem1 Hinv E) as (Hr & Hral & _ & Hnew).
  rewrite E. cbn [mbind run_bind].
  destruct Hnew as [(_ & Htabs & Hzero)|(_ & _ & Hnone)].
  - destruct (tables_ok_root mem1 root Hral Hr Hzero) as [Htok Hun].
    assert (Hlo : trunc_page 0 = 0) by done.
    destruct (map_range_outcome cpu_info (Z.lor PTAB_WRITE PTAB_USER) root 0 0 phys_mem_max
                p1 mem1 {[root := (3%nat, 0)]}) as [->|[->|(p2 & mem2 & tb2 & -> & Hm)]];
      [|by apply lookup_singleton_eq|done|lia|lia|change PAGE_SIZE with 4096 in *; lia|lia
       |change PAGE_SIZE with 4096 in *; lia|by intros; apply Hun|by left|by right; left|].
    { split; [done|]. split; [done|]. intros q v [<- _]%lookup_singleton_Some. apply Htabs. by left. }
    right; right. exists root, p2, mem2. split; [done|]. destruct Hm as [_ _ _ Hin Hout].
    rewrite Hlo in *. change (0 - 0 + phys_mem_max) with phys_mem_max in *.
    destruct (round_page_bounds phys_mem_max) as [Hrb _];
      [lia|change PAGE_SIZE with 4096 in *; lia|].
    split; intros x Hx.
    + rewrite Hin by lia. f_equal. lia.
    + assert (0 <= x < 2 ^ 48) by lia. rewrite Hout, Hun; [done|by apply Z.div_small|lia].
  - right; left. unfold ptab_map_range. rewrite (proj2 (Z.eqb_neq _ 0)) by lia.
    rewrite (uwrap_small 64 (0 + _ - 1)) by (unfold in_u; change PAGE_SIZE with 4096 in *; lia).
    rewrite (proj2 (Z.ltb_lt _ _)) by lia. cbn [negb]. cbv zeta.
    rewrite ptab_map_level_oob; [done|]. rewrite find_ptabe_idx. apply Hnone, ptab_idx_range.
Qed.

(** ** Examples *)

Module Paging_example.

(** The pool at 2 MiB, not used yet. *)
Definition pool0 : pool_state :=
  {| pool := 0x200000; pdirs := 0; initialized := false; ptab64_addr := 0; ptab64_size := 0 |}.

Lemma pool0_inv : pool_inv pool0 ∅.
Proof. split; [done|]. split; [done|]. split; [done|]. split; [|done]. intros. apply lookup_empty. Defined.

Definition with_pse : cpu_info_t := {| feature_flags := CPUF_PSE; feature_flags_ext := 0 |}.
Definition without_pse : cpu_info_t := {| feature_flags := 0; feature_flags_ext := 0 |}.

Lemma base_paging_init_identity_witness :
  let r := base_paging_init with_pse (Z.shiftl 4 30) (pool0, ∅) in
  r = Panicked \/ r = Oob \/
  exists root p' mem', r = Ret (root, (p', mem')) /\
    (forall x, 0 <= x < Z.shiftl 4 30 -> translate mem' 3 root x = Some x) /\
    (forall x, round_page (Z.shiftl 4 30) <= x < 2 ^ 48 -> translate mem' 3 root x = None).
Proof.
  refine (base_paging_init_identity with_pse (Z.shiftl 4 30) pool0 ∅ pool0_inv _ _ _); by_eval.
Defined.

(** The pages a run has taken from the pool, if it returned. *)
Definition pages_taken (r : run (Z * (pool_state * pmem))) : option Z :=
  match r with Ret (_, (p, _)) => Some ((pdirs p - pool p) / PAGE_SIZE) | _ => None end.

(** With 2 MiB pages the pool is exactly large enough for 4 GiB. *)
Example pool_fits_4g :
  pages_taken (base_paging_init with_pse (Z.shiftl 4 30) (pool0, ∅)) = Some 6.
Proof. by_eval. Qed.

(** The state with one empty table. *)
Definition st1 : pool_state * pmem :=
  ({| pool := 0x200000; pdirs := 0x201000; initialized := true; ptab64_addr := 0x200000;
      ptab64_size := POOL_SIZE |}, zero_pool 0x200000 ∅).

Lemma st1_alloc : pool_alloc (pool0, ∅) = Ret (0x200000, (st1.1, st1.2)).
Proof. reflexivity. Defined.

Lemma st1_world :
  world_ok st1.1 st1.2 {[0x200000 := (3%nat, 0)]} /\
  forall x, translate st1.2 3 0x200000 x = None.
Proof.
  destruct (pool_alloc_table pool0 ∅ _ _ _ pool0_inv st1_alloc)
    as (Hr & Hal & _ & [(_ & Htab & Hz)|(_ & _ & Hn)]).
  - destruct (tables_ok_root st1.2 0x200000 Hal Hr Hz) as [Hok Hun]. split; [|done].
    split; [exact (pool_alloc_inv pool0 ∅ _ _ _ pool0_inv st1_alloc)|]. split; [done|].
    intros q v [<- _]%lookup_singleton_Some. apply Htab. by left.
  - exfalso. assert (E : st1.2 !! 0x200000 = Some 0).
    { cbn [st1 snd]. rewrite zero_pool_lookup, decide_True; [done|]. by_eval. }
    specialize (Hn 0 ltac:(lia)). change (0x200000 + 8 * 0) with 0x200000 in Hn. congruence.
Defined.


(** The pool's check comes one page late: without large pages, mapping 8 MiB
    takes a seventh page, which lies behind the pool, and the tables are continued
    there. *)
Theorem pool_overrun :
  base_paging_init without_pse (Z.shiftl 8 20) (pool0, ∅) = Oob.
Proof. by_eval. Qed.

(** The translation of [x] after the first 2 MiB were mapped and then the range
    from 1 MiB to 4 MiB was requested. *)
Definition mapped_twice (x : Z) : run (option Z) :=
  '(root, st) ← base_paging_init with_pse 0x200000 (pool0, ∅);
  st ← ptab_map_range with_pse root 0x100000 0x100000 0x300000 (Z.lor PTAB_WRITE PTAB_USER) st;
  mret (translate st.2 3 root x).

(** A request that starts inside an existing large page: the cursor advances by
    the size of the large page instead of to its end, so that the first part of
    the memory behind that page is left out although the call succeeds. *)
Theorem map_range_leaves_hole :
  mapped_twice 0x100000 = Ret (Some 0x100000) /\
  mapped_twice 0x200000 = Ret None /\ mapped_twice 0x2ff000 = Ret None /\
  mapped_twice 0x300000 = Ret (Some 0x300000).
Proof. by_eval. Qed.
End Paging_example.
