(* ===== verification/DriverMem.v ===== *)
(** * Memory a virtio driver shares with its device

    [pkg/l4virtio/include/server/l4virtio]: [Driver_mem_region_t] is one
    dataspace of the driver, mapped into the device's address space;
    [Driver_mem_list_t] holds the regions of one device and translates the
    addresses the driver puts into descriptors.  Addresses and machine words
    have 64 bits.  A pointer to a region of the list is its index. *)

From S2P Require Import Prelude L4Round.

(** [Driver_mem_region_t]. *)
Record mem_region := {
  drv_base : Z;
  trans_offset : Z;
  r_size : Z;
  r_rw : bool;
  r_ds : Z;
  ds_offset : Z;
  local_base : Z;
}.

(** The default constructor: only the size is set; nothing reads the others. *)
Definition no_region : mem_region :=
  {| drv_base := 0; trans_offset := 0; r_size := 0; r_rw := false; r_ds := 0;
     ds_offset := 0; local_base := 0 |}.

(** The answer of [Dataspace::info]: the size and whether it is writable. *)
Inductive ds_info := Ds_stats (size : Z) (writable : bool) | Ds_error (e : errno).

(** The services of the environment: the dataspace and the region map. *)
Class Ds_env := {
  ds_stat : Z -> ds_info;
  (** [rm()->attach]: size, read-write, dataspace, offset; the local address *)
  rm_attach : Z -> bool -> Z -> Z -> errno + Z;
}.

(** An attached area lies in the address space. *)
Class Ds_env_laws `{!Ds_env} := {
  rm_attach_in_space size rw ds off base :
    rm_attach size rw ds off = inr base -> in_u 64 base /\ base + size <= 2 ^ 64;
  ds_stat_size ds sz w : ds_stat ds = Ds_stats sz w -> in_u 64 sz;
}.

Section Region.
Context `{!L4_round 64, !Ds_env}.

(** The attaching second half of the constructor. *)
Definition attach_region (drv off ds size : Z) (rw : bool) : errno + mem_region :=
  match rm_attach size rw ds off with
  | inl e => inl e
  | inr base =>
      inr {| drv_base := drv; trans_offset := drv -[64] base; r_size := size; r_rw := rw;
             r_ds := ds; ds_offset := off; local_base := base |}
  end.

Definition region_new (base size offset ds : Z) : errno + mem_region :=
  let drv := l4_trunc_page base in
  let off := l4_trunc_page offset in
  match ds_stat ds with
  | Ds_stats info_size writable =>
      let ds_size := l4_round_page info_size in
      if ds_size <? l4_pagesize then inl EINVAL
      else if ds_size <=? off then inl ERANGE
      else
        let size := l4_round_page size in
        if ds_size <? size then inl EINVAL
        else if ds_size -[64] size <? off then inl EINVAL
        else if (2 ^ 64 - 1) -[64] size <? drv then inl EINVAL
        else attach_region drv off ds size writable
  | Ds_error ENOSYS => attach_region drv off ds size true
  | Ds_error e => inl e
  end.
End Region.

(** [contains]: the driver's area of [size] bytes at [base] is in the region. *)
Definition contains (r : mem_region) (base size : Z) : bool :=
  if base <? drv_base r then false
  else if drv_base r + r_size r -[64] 1 <? base then false
  else if r_size r <? size then false
  else if r_size r -[64] size <? base -[64] drv_base r then false
  else true.

(** [local]: the local address of a driver address. *)
Definition local (r : mem_region) (p : Z) : Z := p -[64] trans_offset r.

(** [Driver_mem_list_t]. *)
Record mem_list := { slots : list mem_region; ml_max : Z; ml_free : Z }.

Definition ml_empty : mem_list := {| slots := []; ml_max := 0; ml_free := 0 |}.

Definition ml_init (max : Z) : mem_list :=
  {| slots := replicate (Z.to_nat max) no_region; ml_max := max; ml_free := 0 |}.

Definition full (l : mem_list) : bool := ml_free l =? ml_max l.

Definition ml_add `{!L4_round 64, !Ds_env} (base size offset ds : Z) (l : mem_list)
    : errno + (mem_list * Z) :=
  if full l then inl ENOMEM
  else match region_new base size offset ds with
       | inl e => inl e
       | inr r =>
           inr ({| slots := <[Z.to_nat (ml_free l) := r]> (slots l);
                   ml_max := ml_max l; ml_free := ml_free l + 1 |}, ml_free l)
       end.

(** The loop of [remove]: [n] rounds from index [i] on. *)
Fixpoint shift_down (n : nat) (i : nat) (s : list mem_region) : list mem_region :=
  match n with
  | O => s
  | S m =>
      let s := match s !! S i with Some r => <[i := r]> s | None => s end in
      shift_down m (S i) s
  end.

Definition ml_remove (r : Z) (l : mem_list) : errno + mem_list :=
  if (r <? 0) || (ml_free l <=? r) then inl ERANGE
  else
    let s := shift_down (Z.to_nat (ml_free l - 1 - (r + 1))) (Z.to_nat (r + 1)) (slots l) in
    inr {| slots := <[Z.to_nat (ml_free l - 1) := no_region]> s;
           ml_max := ml_max l; ml_free := ml_free l - 1 |}.

(** The regions in use. *)
Definition live (l : mem_list) : list mem_region := take (Z.to_nat (ml_free l)) (slots l).

Fixpoint find_from (i : Z) (base size : Z) (s : list mem_region) : option (Z * mem_region) :=
  match s with
  | [] => None
  | r :: t => if contains r base size then Some (i, r) else find_from (i + 1) base size t
  end.

Definition ml_find (base size : Z) (l : mem_list) : option (Z * mem_region) :=
  find_from 0 base size (live l).

(** ** Containment and translation *)

(** What translation needs: the region is mapped within the address space. *)
Definition mapped (r : mem_region) : Prop :=
  in_u 64 (local_base r) /\ 0 <= r_size r /\ local_base r + r_size r <= 2 ^ 64 /\
  in_u 64 (drv_base r) /\ trans_offset r = drv_base r -[64] local_base r.

(** An accepted area, as seen by the driver, has its bytes in the region. *)
Lemma contains_inside r base size :
  in_u 64 (drv_base r) -> in_u 64 (r_size r) -> in_u 64 base -> in_u 64 size ->
  contains r base size = true ->
  drv_base r <= base /\ base - drv_base r + size <= r_size r /\
  base - drv_base r <= Z.max 0 (r_size r - 1).
Proof.
  unfold contains, in_u. intros Hd Hs Hb Hz. split_ifs; try done. intros _.
  rewrite (uwrap_small 64 (base - _)), (uwrap_small 64 (r_size r - size)) in * by (unfold in_u; lia).
  split; [lia|]. split; [lia|].
  destruct (Z.lt_ge_cases (drv_base r + r_size r) 1); [lia|].
  destruct (Z.lt_ge_cases (drv_base r + r_size r - 1) (2 ^ 64)).
  2: { rewrite (uwrap_over 64 (_ + _ - 1)) in * by lia. lia. }
  rewrite (uwrap_small 64 (_ + _ - 1)) in * by (unfold in_u; lia). lia.
Qed.

(** An area inside of a region that does not wrap is accepted. *)
Lemma contains_complete r base size :
  0 <= drv_base r -> 0 <= size -> r_size r < 2 ^ 64 -> drv_base r + r_size r <= 2 ^ 64 ->
  drv_base r <= base < drv_base r + r_size r -> base + size <= drv_base r + r_size r ->
  contains r base size = true.
Proof.
  intros ? ? ? ? ? ?. unfold contains.
  rewrite !(uwrap_small 64 _) by (unfold in_u; lia). split_ifs; lia.
Qed.

(** The local area of an accepted area lies in the local mapping of the region. *)
Lemma contains_local r base size :
  mapped r -> in_u 64 base -> in_u 64 size -> r_size r < 2 ^ 64 ->
  contains r base size = true ->
  local_base r <= local r base /\ local r base + size <= local_base r + r_size r /\
  local r base = local_base r + (base - drv_base r).
Proof.
  intros ([H1 H1'] & H2 & H3 & H4 & H5) Hb Hs Hlt Hc. unfold in_u in *.
  apply contains_inside in Hc as (Hc1 & Hc2 & Hc3); [|unfold in_u; lia..].
  unfold local. rewrite H5, uwrap_sub_r, uwrap_small by (unfold in_u; lia). lia.
Qed.

(** ** The constructor *)

Section Region_new.
Context `{!L4_round 64, !Ds_env, !Ds_env_laws}.

Lemma attach_region_mapped drv off ds size rw r :
  in_u 64 drv -> in_u 64 size -> attach_region drv off ds size rw = inr r ->
  mapped r /\ drv_base r = drv /\ r_size r = size /\ r_rw r = rw /\ r_ds r = ds /\
  ds_offset r = off.
Proof.
  unfold attach_region. intros Hd Hs. destruct (rm_attach size rw ds off) as [e|base] eqn:E; [done|].
  intros [= <-]. pose proof (rm_attach_in_space _ _ _ _ _ E). unfold mapped, in_u in *. cbn.
  repeat split; try lia.
Qed.

(** A region whose dataspace reports its size: it starts at a page of the
    driver, does not wrap, and its pages exist in the dataspace. *)
Definition backed (r : mem_region) : Prop :=
  drv_base r mod l4_pagesize = 0 /\ drv_base r + r_size r < 2 ^ 64 /\
  exists sz w, ds_stat (r_ds r) = Ds_stats sz w /\ r_rw r = w /\
    ds_offset r + r_size r <= l4_round_page sz.

Lemma region_new_backed base size offset ds sz w r :
  in_u 64 base -> in_u 64 offset -> 0 <= size <= 2 ^ 64 - l4_pagesize ->
  sz <= 2 ^ 64 - l4_pagesize ->
  ds_stat ds = Ds_stats sz w -> region_new base size offset ds = inr r ->
  mapped r /\ backed r.
Proof.
  intros Hb Ho Hs Hsz E. pose proof (ds_stat_size _ _ _ E) as Hu.
  pose proof l4_pageshift_ok as Hps. pose proof pagesize_pos as Hpp.
  unfold region_new, backed, l4_round_page, l4_trunc_page, l4_pagesize in *. rewrite E.
  unfold in_u in Hu.
  destruct (round_size_bounds sz l4_pageshift) as [Hr1 _]; [unfold in_u; lia|lia..|].
  destruct (round_size_bounds size l4_pageshift) as [Hr2 _]; [unfold in_u; lia|lia..|].
  destruct (trunc_size_bounds base l4_pageshift) as (Hd1 & Hd2 & Hd3); [done|lia|].
  destruct (trunc_size_bounds offset l4_pageshift) as (Ho1 & Ho2 & _); [done|lia|].
  unfold in_u in *. split_ifs; try done. intros Ha.
  rewrite !(uwrap_small 64 (_ - _)) in * by (unfold in_u; lia).
  apply attach_region_mapped in Ha as (Hm & -> & -> & -> & -> & ->); [|unfold in_u; lia..].
  split; [done|]. repeat split; [done|lia|]. exists sz, w. split; [done|]. split; [done|lia].
Qed.

(** In every case the region is usable for translation. *)
Lemma region_new_mapped base size offset ds r :
  in_u 64 base -> 0 <= size <= 2 ^ 64 - l4_pagesize ->
  region_new base size offset ds = inr r -> mapped r /\ r_size r < 2 ^ 64.
Proof.
  intros Hb Hs. pose proof l4_pageshift_ok as Hps. pose proof pagesize_pos as Hpp.
  unfold region_new, l4_round_page, l4_trunc_page, l4_pagesize in *.
  destruct (round_size_bounds size l4_pageshift) as [Hr _]; [unfold in_u; lia|lia..|].
  destruct (trunc_size_bounds base l4_pageshift) as (Hd1 & Hd2 & _); [done|lia|].
  unfold in_u in *. intros Ha.
  destruct (ds_stat ds) as [sz w|e]; [|destruct e]; split_ifs; try done;
    apply attach_region_mapped in Ha as (Hm & _ & -> & _); unfold in_u; try lia; (split; [done|lia]).
Qed.
End Region_new.

(** ** The list *)

Definition ml_inv (l : mem_list) : Prop :=
  0 <= ml_free l <= ml_max l /\ length (slots l) = Z.to_nat (ml_max l) /\
  Forall (fun r => mapped r /\ r_size r < 2 ^ 64) (live l).

Lemma length_live l : ml_inv l -> length (live l) = Z.to_nat (ml_free l).
Proof. intros (H1 & H2 & _). unfold live. rewrite length_take. lia. Qed.

Lemma ml_init_inv max : 0 <= max -> ml_inv (ml_init max).
Proof.
  intros H. unfold ml_inv, ml_init, live. cbn. rewrite length_replicate.
  split; [lia|]. split; [done|]. constructor.
Qed.

Lemma shift_down_length n i s : length (shift_down n i s) = length s.
Proof.
  revert i s. induction n as [|n IH]; intros i s; [done|]. cbn. rewrite IH.
  destruct (s !! S i); [apply length_insert|done].
Qed.

Lemma shift_down_lookup n i s j :
  (n = 0 \/ i + n < length s)%nat ->
  shift_down n i s !! j =
  if decide (i <= j < i + n)%nat then s !! S j else s !! j.
Proof.
  revert i s. induction n as [|n IH]; intros i s Hlen.
  - cbn. rewrite decide_False by lia. done.
  - cbn. destruct (lookup_lt_is_Some_2 s (S i)) as [r Hr]; [lia|]. 
    rewrite Hr, IH by (rewrite length_insert; lia).
    destruct (decide (j = i)) as [->|Hne].
    + rewrite decide_False, decide_True by lia. rewrite list_lookup_insert_eq by lia. done.
    + repeat case_decide; try lia; by rewrite list_lookup_insert_ne by lia.
Qed.

(** What [remove] does: unless the region is the last one, it stays, and the
    region behind it is dropped. *)
Lemma ml_remove_live r l :
  ml_inv l -> 0 <= r < ml_free l ->
  exists l', ml_remove r l = inr l' /\ ml_free l' = ml_free l - 1 /\ ml_max l' = ml_max l /\
    length (slots l') = length (slots l) /\
    live l' = delete (Z.to_nat (Z.min (r + 1) (ml_free l - 1))) (live l).
Proof.
  intros Hinv Hr. pose proof Hinv as (H1 & H2 & _). unfold ml_remove.
  replace ((r <? 0) || (ml_free l <=? r)) with false by lia.
  eexists. split; [done|]. cbn. split; [done|]. split; [done|].
  split; [by rewrite length_insert, shift_down_length|]. unfold live. cbn.
  rewrite take_insert_ge by lia. set (f := Z.to_nat (ml_free l)).
  replace (Z.to_nat (ml_free l - 1)) with (f - 1)%nat by lia.
  apply list_eq. intros j. destruct (decide (j < f - 1)%nat) as [Hj|Hj].
  - rewrite lookup_take_lt, shift_down_lookup by lia.
    destruct (decide (j < Z.to_nat (Z.min (r + 1) (ml_free l - 1))))%nat.
    + rewrite list_lookup_delete_lt, lookup_take_lt by lia. rewrite decide_False by lia. done.
    + rewrite list_lookup_delete_ge, lookup_take_lt by lia. rewrite decide_True by lia. done.
  - rewrite lookup_take_ge by lia. symmetry. apply lookup_ge_None_2.
    rewrite length_delete; [rewrite length_take; lia|].
    apply lookup_lt_is_Some_2. rewrite length_take. lia.
Qed.

Lemma ml_add_live `{!L4_round 64, !Ds_env} base size offset ds l l' i :
  ml_inv l -> ml_add base size offset ds l = inr (l', i) ->
  exists r, region_new base size offset ds = inr r /\ i = ml_free l /\
    ml_free l' = ml_free l + 1 /\ ml_max l' = ml_max l /\ ml_free l < ml_max l /\
    length (slots l') = length (slots l) /\ live l' = live l ++ [r].
Proof.
  intros (H1 & H2 & _). unfold ml_add, full. split_if; [done|].
  destruct (region_new base size offset ds) as [e|r]; [done|]. intros [= <- <-].
  exists r. cbn. split; [done|]. split; [done|]. split; [done|]. split; [done|]. split; [lia|].
  split; [apply length_insert|]. unfold live. cbn.
  replace (Z.to_nat (ml_free l + 1)) with (S (Z.to_nat (ml_free l))) by lia.
  rewrite (take_S_r _ _ r) by (apply list_lookup_insert_eq; lia).
  rewrite take_insert_ge by lia. done.
Qed.

Lemma ml_add_inv `{!L4_round 64, !Ds_env, !Ds_env_laws} base size offset ds l l' i :
  ml_inv l -> in_u 64 base -> 0 <= size <= 2 ^ 64 - l4_pagesize ->
  ml_add base size offset ds l = inr (l', i) -> ml_inv l'.
Proof.
  intros Hinv Hb Hs Ha. destruct (ml_add_live _ _ _ _ _ _ _ Hinv Ha) as (r & Hr & ? & ? & ? & ? & Hl & Hlv).
  destruct Hinv as (Hf & Hn & Hall). unfold ml_inv. rewrite Hlv, Hl.
  split; [lia|]. split; [congruence|].
  apply Forall_app. split; [done|]. constructor; [|done]. by eapply region_new_mapped.
Qed.

Lemma ml_remove_inv r l l' : ml_inv l -> ml_remove r l = inr l' -> ml_inv l'.
Proof.
  intros Hinv Hr. destruct (decide (0 <= r < ml_free l)) as [Hd|Hd].
  - destruct (ml_remove_live r l Hinv Hd) as (l1 & E & Hf & Hm & Hl & Hlv).
    rewrite E in Hr. injection Hr as <-. destruct Hinv as (H1 & H2 & H3). unfold ml_inv.
    rewrite Hlv, Hf, Hm, Hl. split; [lia|]. split; [done|]. by apply Forall_delete.
  - unfold ml_remove in Hr. by replace ((r <? 0) || (ml_free l <=? r)) with true in Hr by lia.
Qed.

Lemma find_from_Some i base size s k r :
  find_from i base size s = Some (k, r) <->
  exists n, k = i + Z.of_nat n /\ s !! n = Some r /\ contains r base size = true /\
    Forall (fun q => contains q base size = false) (take n s).
Proof.
  revert i. induction s as [|q s IH]; intros i; cbn.
  - split; [done|]. by intros (n & _ & H & _).
  - destruct (contains q base size) eqn:E; [|rewrite IH]; split.
    + intros [= <- <-]. exists 0%nat. cbn. repeat split; [lia|done..|constructor].
    + intros (n & -> & Hn & Hc & Hf). destruct n as [|n]; cbn in *.
      * injection Hn as <-. f_equal. f_equal. lia.
      * apply Forall_cons_iff in Hf as [Hf _]. congruence.
    + intros (n & -> & Hn & Hc & Hf). exists (S n). cbn. repeat split; [lia|done..|by constructor].
    + intros (n & -> & Hn & Hc & Hf). destruct n as [|n]; cbn in *; [congruence|].
      exists n. apply Forall_cons_iff in Hf as [_ Hf]. repeat split; [lia|done..].
Qed.

Lemma find_from_None i base size s :
  find_from i base size s = None <-> Forall (fun q => contains q base size = false) s.
Proof.
  revert i. induction s as [|q s IH]; intros i; cbn; [done|]. rewrite Forall_cons_iff.
  destruct (contains q base size) eqn:E; [|rewrite IH]; intuition congruence.
Qed.

(** The lists a device can hold: any order of registrations and removals. *)
Inductive ml_reach `{!L4_round 64, !Ds_env} : mem_list -> Prop :=
  | reach_empty : ml_reach ml_empty
  | reach_init max : in_u 32 max -> ml_reach (ml_init max)
  | reach_add base size offset ds l l' i :
      ml_reach l -> in_u 64 base -> 0 <= size <= 2 ^ 64 - l4_pagesize ->
      ml_add base size offset ds l = inr (l', i) -> ml_reach l'
  | reach_remove r l l' : ml_reach l -> ml_remove r l = inr l' -> ml_reach l'.

Lemma ml_reach_inv `{!L4_round 64, !Ds_env, !Ds_env_laws} l : ml_reach l -> ml_inv l.
Proof.
  induction 1 as [|max Hm|base size offset ds l l' i _ IH Hb Hs Ha|r l l' _ IH Hr].
  - by apply (ml_init_inv 0).
  - apply ml_init_inv, Hm.
  - by eapply ml_add_inv.
  - by eapply ml_remove_inv.
Qed.

Lemma ml_find_live base size l k r :
  ml_inv l -> in_u 64 base -> in_u 64 size -> ml_find base size l = Some (k, r) ->
  0 <= k < ml_free l /\ live l !! Z.to_nat k = Some r /\ contains r base size = true /\
  mapped r /\ r_size r < 2 ^ 64.
Proof.
  intros Hinv Hb Hs Hf. apply find_from_Some in Hf as (n & -> & Hn & Hc & _).
  pose proof (lookup_lt_Some _ _ _ Hn) as Hlt. rewrite length_live in Hlt by done.
  destruct Hinv as (_ & _ & Hall). rewrite list.Forall_forall in Hall.
  destruct (Hall r) as [Hm Hz]; [by eapply list_elem_of_lookup_2|].
  split; [lia|]. split; [|done]. replace (Z.to_nat (0 + Z.of_nat n)) with n by lia. done.
Qed.

(** Address translation is safe: in every state of a device's region list,
    whatever address and length a driver writes into a descriptor, the area that
    [find] and [local] yield lies completely inside of the local mapping of one
    registered region, at the offset the driver's address has in it; and nothing
    is found exactly when no registered region accepts the area. *)
Theorem ml_find_safe `{!L4_round 64, !Ds_env, !Ds_env_laws} l base size :
  ml_reach l -> in_u 64 base -> in_u 64 size ->
  match ml_find base size l with
  | Some (k, r) =>
      0 <= k < ml_free l /\ live l !! Z.to_nat k = Some r /\
      local_base r <= local r base /\
      local r base + size <= local_base r + r_size r <= 2 ^ 64 /\
      local r base - local_base r = base - drv_base r
  | None => Forall (fun r => contains r base size = false) (live l)
  end.
Proof.
  intros Hl Hb Hs. apply ml_reach_inv in Hl.
  destruct (ml_find base size l) as [[k r]|] eqn:E; [|by eapply find_from_None].
  destruct (ml_find_live _ _ _ _ _ Hl Hb Hs E) as (Hk & Hlv & Hc & Hm & Hz).
  destruct (contains_local r base size Hm Hb Hs Hz Hc) as (? & ? & ?). unfold mapped in Hm.
  repeat split; try done; lia.
Qed.

(** [remove] of a region that is not the last one keeps this region and drops
    the one registered after it: the loop starts one slot too far. *)
Theorem ml_remove_drops_next l r a b :
  ml_inv l -> 0 <= r < ml_free l - 1 -> live l !! Z.to_nat r = Some a ->
  live l !! Z.to_nat (r + 1) = Some b ->
  exists l', ml_remove r l = inr l' /\ live l' = delete (Z.to_nat (r + 1)) (live l) /\
    live l' !! Z.to_nat r = Some a.
Proof.
  intros Hinv Hr Ha Hb. destruct (ml_remove_live r l Hinv ltac:(lia)) as (l' & E & _ & _ & _ & Hlv).
  exists l'. split; [done|]. replace (Z.min (r + 1) (ml_free l - 1)) with (r + 1) in Hlv by lia.
  split; [done|]. rewrite Hlv, list_lookup_delete_lt by lia. done.
Qed.

Module Mem_example.
#[local] Existing Instance round64.

(** Two megabytes of driver memory in each dataspace, writable unless number 7;
    number 9 does not implement [info]. *)
#[local] Instance env : Ds_env := {|
  ds_stat ds := if ds =? 9 then Ds_error ENOSYS else Ds_stats 0x200000 (negb (ds =? 7));
  rm_attach size rw ds off :=
    if (0 <=? ds) && (ds <? 100) && (0 <=? size) && (size <=? 0x200000)
    then inr (0x10000000 + ds * 0x200000) else inl ENOMEM;
|}.

#[local] Instance env_laws : Ds_env_laws.
Proof.
  split.
  - intros size rw ds off base. cbn. split_if; [|done]. intros [= <-]. unfold in_u. lia.
  - intros ds sz w. cbn. split_if; [done|]. intros [= <- <-]. by_eval.
Qed.

Definition added (r : errno + (mem_list * Z)) : mem_list :=
  match r with inr (l, _) => l | inl _ => ml_empty end.

Definition one : mem_list := added (ml_add 0x40000000 0x200000 0 1 (ml_init 4)).
Definition two : mem_list := added (ml_add 0x80000000 0x1000 0x3000 7 one).

Lemma two_reach : ml_reach two.
Proof.
  apply (reach_add 0x80000000 0x1000 0x3000 7 one _ 1); [|by_eval..|reflexivity].
  apply (reach_add 0x40000000 0x200000 0 1 (ml_init 4) _ 0); [|by_eval..|reflexivity].
  apply reach_init. by_eval.
Qed.

Lemma ml_find_safe_witness :
  exists k r, ml_find 0x80000800 0x800 two = Some (k, r) /\ k = 1 /\
    local_base r <= local r 0x80000800 /\
    local r 0x80000800 + 0x800 <= local_base r + r_size r.
Proof.
  pose proof (ml_find_safe two 0x80000800 0x800 two_reach ltac:(by_eval) ltac:(by_eval)) as H.
  assert (is_Some (ml_find 0x80000800 0x800 two)) as [[k r] E] by (by eexists).
  rewrite E in H. exists k, r. split; [exact E|]. split.
  - vm_compute in E. by injection E as <- _.
  - destruct H as (_ & _ & H1 & [H2 _] & _). split; [exact H1|exact H2].
Defined.

Lemma ml_remove_drops_next_witness :
  exists l' a, live two !! 0%nat = Some a /\ ml_remove 0 two = inr l' /\
    live l' = [a] /\ drv_base a = 0x40000000.
Proof.
  destruct (ml_remove_drops_next two 0
              (List.nth 0 (live two) no_region) (List.nth 1 (live two) no_region)
              ltac:(by apply ml_reach_inv, two_reach) ltac:(by_eval) eq_refl eq_refl)
    as (l' & E & Hl & Ha).
  exists l', (List.nth 0 (live two) no_region). split; [reflexivity|]. split; [exact E|].
  split; [|reflexivity]. rewrite Hl. reflexivity.
Defined.
End Mem_example.
