(* ===== verification/Virtqueue.v ===== *)
(** * Virtqueues

    [pkg/l4virtio/include/virtqueue] and the queue of
    [pkg/l4virtio/include/server/virtio]: the descriptor table and the two rings
    device and driver share, the device's operations ([Svr::Virtqueue]) and the
    driver's ([Driver::Virtqueue]).  [vring] is the memory behind the three
    pointers of a queue, [vqueue] what one side keeps for itself.  A request
    ([Head_desc]) is the index of its descriptor. *)

From S2P Require Import Prelude L4Round.

(** ** Data *)

(** [Virtqueue::Desc]. *)
Record desc := { d_addr : Z; d_len : Z; d_flags : Z; d_next : Z }.

Definition flag_next (d : desc) : bool := Z.testbit (d_flags d) 0.
Definition flag_write (d : desc) : bool := Z.testbit (d_flags d) 1.
Definition flag_indirect (d : desc) : bool := Z.testbit (d_flags d) 2.

(** The shared memory: [Desc] table, [Avail], [Used]. *)
Record vring := {
  vr_desc : list desc;
  avail_flags : Z;
  avail_idx : Z;
  avail_ring : list Z;
  used_flags : Z;
  used_idx : Z;
  used_ring : list (Z * Z);
}.

(** The members of [L4virtio::Virtqueue]; a descriptor pointer of 0 is a disabled
    queue. *)
Record vqueue := {
  q_desc : Z;
  q_avail : Z;
  q_used : Z;
  current_avail : Z;
  idx_mask : Z;
}.

Definition vq_off : vqueue :=
  {| q_desc := 0; q_avail := 0; q_used := 0; current_avail := 0; idx_mask := 0 |}.

Definition set_current (c : Z) (q : vqueue) : vqueue :=
  {| q_desc := q_desc q; q_avail := q_avail q; q_used := q_used q;
     current_avail := c; idx_mask := idx_mask q |}.

Definition set_descs (ds : list desc) (r : vring) : vring :=
  {| vr_desc := ds; avail_flags := avail_flags r; avail_idx := avail_idx r;
     avail_ring := avail_ring r; used_flags := used_flags r; used_idx := used_idx r;
     used_ring := used_ring r |}.

Definition set_avail (i : Z) (l : list Z) (r : vring) : vring :=
  {| vr_desc := vr_desc r; avail_flags := avail_flags r; avail_idx := i; avail_ring := l;
     used_flags := used_flags r; used_idx := used_idx r; used_ring := used_ring r |}.

Definition set_used (f i : Z) (l : list (Z * Z)) (r : vring) : vring :=
  {| vr_desc := vr_desc r; avail_flags := avail_flags r; avail_idx := avail_idx r;
     avail_ring := avail_ring r; used_flags := f; used_idx := i; used_ring := l |}.

(** A store to an array element. *)
Definition store {A} (i : Z) (x : A) (l : list A) : run (list A) :=
  if (0 <=? i) && (i <? zlen l) then Ret (<[Z.to_nat i := x]> l) else Oob.

Definition load {A} (i : Z) (l : list A) : run A :=
  if 0 <=? i then or_oob (l !! Z.to_nat i) else Oob.

(** ** Setting up a queue *)

Definition disable (q : vqueue) : vqueue :=
  {| q_desc := 0; q_avail := q_avail q; q_used := q_used q;
     current_avail := current_avail q; idx_mask := idx_mask q |}.

Definition ready (q : vqueue) : bool := negb (q_desc q =? 0).

Definition vq_num (q : vqueue) : Z := idx_mask q + 1.

Definition Desc_align : Z := 4.
Definition Avail_align : Z := 1.
Definition Used_align : Z := 2.

Definition desc_size (num : Z) : Z := num *[32] 16.
Definition avail_size (num : Z) : Z := u32 (2 *[32] num + 6).
Definition used_size (num : Z) : Z := u32 (8 *[32] num + 6).

Definition total_size `{!L4_round 64} (num : Z) : Z :=
  l4_round_size (desc_size num +[64] avail_size num) Used_align +[64] used_size num.

Definition setup (num desc avail used : Z) (q : vqueue) : run vqueue :=
  if 0x10000 <? num then Raised
  else Ret {| q_desc := desc; q_avail := avail; q_used := used;
              current_avail := 0; idx_mask := u16 (num - 1) |}.

Definition setup_simple `{!L4_round 64} (num ring : Z) (q : vqueue) : run vqueue :=
  let avail := l4_round_size (ring +[64] desc_size num) Avail_align in
  let used := l4_round_size (avail +[64] avail_size num) Used_align in
  setup num ring avail used q.

(** ** The device *)

Definition desc_avail (q : vqueue) (r : vring) : bool :=
  negb (current_avail q =? avail_idx r).

Definition next_avail (q : vqueue) (r : vring) : run (vqueue * option Z) :=
  if desc_avail q r then
    let head := Z.land (current_avail q) (idx_mask q) in
    i ← load head (avail_ring r);
    mret (set_current (current_avail q +[16] 1) q, Some i)
  else mret (q, None).

Definition rewind_avail (d : Z) (q : vqueue) : vqueue :=
  set_current (current_avail q -[16] Z.land (current_avail q -[32] d) (idx_mask q)) q.

Definition consumed (d len : Z) (q : vqueue) (r : vring) : run vring :=
  let i := Z.land (used_idx r) (idx_mask q) in
  l ← store i (u16 d, len) (used_ring r);
  mret (set_used (used_flags r) (used_idx r +[16] 1) l r).

(** The loop over the elements of [consumed(begin, end)]: [added] so far. *)
Fixpoint consumed_loop (es : list (Z * Z)) (idx added mask : Z) (l : list (Z * Z))
    : run (Z * list (Z * Z)) :=
  match es with
  | [] => mret (added, l)
  | (d, len) :: es =>
      l ← store (Z.land (idx + added) mask) (u16 d, len) l;
      consumed_loop es idx (added +[16] 1) mask l
  end.

Definition consumed_range (es : list (Z * Z)) (q : vqueue) (r : vring) : run vring :=
  '(added, l) ← consumed_loop es (used_idx r) 0 (idx_mask q) (used_ring r);
  mret (set_used (used_flags r) (used_idx r +[16] added) l r).

Definition disable_notify (q : vqueue) (r : vring) : vring :=
  if ready q then set_used (Z.setbit (used_flags r) 0) (used_idx r) (used_ring r) r else r.

Definition enable_notify (q : vqueue) (r : vring) : vring :=
  if ready q then set_used (Z.clearbit (used_flags r) 0) (used_idx r) (used_ring r) r else r.

Definition no_notify_guest (r : vring) : bool := Z.testbit (avail_flags r) 0.
Definition no_notify_host (r : vring) : bool := Z.testbit (used_flags r) 0.

(** ** The driver *)

Definition Eoq : Z := 0xffff.

(** [Driver::Virtqueue]: the queue and the head of the list of free descriptors. *)
Record drv_queue := { dq : vqueue; next_free : Z }.

Definition set_next (n : Z) (d : desc) : desc :=
  {| d_addr := d_addr d; d_len := d_len d; d_flags := d_flags d; d_next := n |}.

(** [_desc[i].next = n] *)
Definition link (i n : Z) (ds : list desc) : run (list desc) :=
  d ← load i ds; store i (set_next n d) ds.

(** The loop of [initialize_rings] that links descriptor [d] and the [n - 1] after it. *)
Fixpoint link_loop (n : nat) (d : Z) (ds : list desc) : run (list desc) :=
  match n with
  | O => mret ds
  | S m => ds ← link d (u16 (d + 1)) ds; link_loop m (d + 1) ds
  end.

Definition initialize_rings (num : Z) (q : drv_queue) (r : vring) : run (drv_queue * vring) :=
  ds ← link_loop (Z.to_nat (num - 1)) 0 (vr_desc r);
  ds ← link (num - 1) Eoq ds;
  mret ({| dq := dq q; next_free := 0 |},
        set_used (used_flags r) 0 (used_ring r) (set_avail 0 (avail_ring r) (set_descs ds r))).

Definition alloc_descriptor (q : drv_queue) (r : vring) : run (drv_queue * Z) :=
  let idx := next_free q in
  if idx =? Eoq then mret (q, Eoq)
  else d ← load idx (vr_desc r); mret ({| dq := dq q; next_free := d_next d |}, idx).

Definition enqueue_descriptor (descno : Z) (q : drv_queue) (r : vring) : run vring :=
  if idx_mask (dq q) <? descno then Raised
  else
    l ← store (Z.land (avail_idx r) (idx_mask (dq q))) descno (avail_ring r);
    mret (set_avail (avail_idx r +[16] 1) l r).

(** Writing a descriptor through the reference [desc()] returns. *)
Definition write_desc (descno : Z) (d : desc) (q : drv_queue) (r : vring) : run vring :=
  if idx_mask (dq q) <? descno then Raised
  else ds ← store descno d (vr_desc r); mret (set_descs ds r).

(** The index of the finished request, [Eoq] if there is none, and [*len] where it
    is set. *)
Definition find_next_used (q : drv_queue) (r : vring) : run (drv_queue * Z * option Z) :=
  if current_avail (dq q) =? used_idx r then mret (q, Eoq, None)
  else
    elem ← load (Z.land (current_avail (dq q)) (idx_mask (dq q))) (used_ring r);
    mret ({| dq := set_current (current_avail (dq q) +[16] 1) (dq q);
             next_free := next_free q |}, u16 (fst elem), Some (snd elem)).

Definition free_descriptor (head tail : Z) (q : drv_queue) (r : vring) : run (drv_queue * vring) :=
  if (idx_mask (dq q) <? head) || (idx_mask (dq q) <? tail) then Raised
  else
    ds ← link tail (next_free q) (vr_desc r);
    mret ({| dq := dq q; next_free := head |}, set_descs ds r).

(** ** Ring windows *)

(** The elements [l] stand in [ring] from position [start] on, modulo its size. *)
Definition window {A} (num : Z) (ring : list A) (start : Z) (l : list A) : Prop :=
  forall j x, l !! j = Some x -> ring !! Z.to_nat ((start + Z.of_nat j) mod num) = Some x.

Section Window.
Context {A : Type} (num : Z) (Hnum : 0 < num).

Lemma window_nil ring start : window (A := A) num ring start [].
Proof. by intros j x. Qed.

Lemma window_head ring start (x : A) l :
  window num ring start (x :: l) -> ring !! Z.to_nat (start mod num) = Some x.
Proof. intros H. specialize (H 0%nat x eq_refl). by rewrite Z.add_0_r in H. Qed.

Lemma window_tail ring start (x : A) l :
  window num ring start (x :: l) -> window num ring (start + 1) l.
Proof.
  intros H j y Hj. specialize (H (S j) y Hj). rewrite <- H. do 3 f_equal. lia.
Qed.

Lemma window_mod ring start start' (l : list A) :
  start mod num = start' mod num -> window num ring start l -> window num ring start' l.
Proof.
  intros E H j x Hj. rewrite <- (H j x Hj). do 2 f_equal.
  rewrite Zplus_mod, <- E, <- Zplus_mod. done.
Qed.

(** Appending where there is room overwrites no element. *)
Lemma window_snoc ring start (x : A) l :
  zlen ring = num -> zlen l < num -> window num ring start l ->
  window num (<[Z.to_nat ((start + zlen l) mod num) := x]> ring) start (l ++ [x]).
Proof.
  intros Hlen Hl H j y Hj. unfold zlen in *.
  assert (Hm : forall k, 0 <= k mod num < num) by (intros; by apply Z.mod_pos_bound).
  apply lookup_app_Some in Hj as [Hj|[Hge Hj]].
  - pose proof (lookup_lt_Some _ _ _ Hj) as Hlt.
    rewrite list_lookup_insert_ne; [by apply H|]. intros E.
    apply (f_equal Z.of_nat) in E. rewrite !Z2Nat.id in E by apply Hm.
    pose proof (Z.div_mod (start + Z.of_nat (length l)) num).
    pose proof (Z.div_mod (start + Z.of_nat j) num).
    set (a := (start + Z.of_nat (length l)) / num) in *.
    set (b := (start + Z.of_nat j) / num) in *.
    assert (num * (a - b) = Z.of_nat (length l) - Z.of_nat j) by lia.
    assert (a - b = 0 \/ 1 <= a - b \/ a - b <= -1) as [?|[?|?]] by lia; nia.
  - apply list_lookup_singleton_Some in Hj as [Hj0 <-].
    replace j with (length l) by lia. apply list_lookup_insert_eq.
    pose proof (Hm (start + Z.of_nat (length l))). lia.
Qed.
End Window.

Lemma store_ok {A} i (x : A) l :
  0 <= i < zlen l -> store i x l = Ret (<[Z.to_nat i := x]> l).
Proof. intros H. unfold store. by replace ((0 <=? i) && (i <? zlen l)) with true by lia. Qed.

Lemma load_ok {A} i (x : A) l : 0 <= i -> l !! Z.to_nat i = Some x -> load i l = Ret x.
Proof. intros H E. unfold load. rewrite E. by replace (0 <=? i) with true by lia. Qed.

Lemma load_lt {A} i (l : list A) :
  0 <= i < zlen l -> exists x, l !! Z.to_nat i = Some x /\ load i l = Ret x.
Proof.
  intros H. unfold zlen in H. destruct (lookup_lt_is_Some_2 l (Z.to_nat i)) as [x Hx]; [lia|].
  exists x. split; [done|]. apply load_ok; [lia|done].
Qed.

Lemma zlen_insert {A} i (x : A) l : zlen (<[i := x]> l) = zlen l.
Proof. unfold zlen. by rewrite length_insert. Qed.

(** Masking with a size that is a power of two. *)
Lemma land_mask x k : 0 <= k -> Z.land x (2 ^ k - 1) = x mod 2 ^ k.
Proof. intros H. rewrite <- Z.land_ones by lia. by rewrite Z.ones_equiv, <- Z.sub_1_r. Qed.

Lemma mod_pow2_u16 x k : 0 <= k <= 16 -> u16 x mod 2 ^ k = x mod 2 ^ k.
Proof.
  intros H. unfold uwrap. replace 16 with (k + (16 - k)) by lia. rewrite Z.pow_add_r by lia.
  rewrite Z.rem_mul_r by lia. rewrite Z.mul_comm, Z_mod_plus_full. apply Z.mod_mod. lia.
Qed.

(** ** Device and driver together

    The operations the two sides perform on one queue, and the abstract queue
    they implement: each descriptor is free, held by the driver, waiting for the
    device, held by the device, or waiting for the driver. *)

Record vsys := { s_ring : vring; s_dev : vqueue; s_drv : drv_queue }.

Inductive vop :=
  | Alloc
  | Fill (i : Z) (d : desc)
  | Enqueue (i : Z)
  | Take
  | Finish (i len : Z)
  | Finish_range (es : list (Z * Z))
  | Collect
  | Free (l : list Z).

Inductive vobs := O_none | O_idx (i : Z) | O_req (i : option Z) | O_used (i : Z) (len : option Z).

Definition with_ring (s : vsys) (r : vring) : vsys :=
  {| s_ring := r; s_dev := s_dev s; s_drv := s_drv s |}.

Definition vexec (op : vop) (s : vsys) : run (vsys * vobs) :=
  let r := s_ring s in
  let drv q := {| s_ring := r; s_dev := s_dev s; s_drv := q |} in
  match op with
  | Alloc => '(q, i) ← alloc_descriptor (s_drv s) r; mret (drv q, O_idx i)
  | Fill i d => r ← write_desc i d (s_drv s) r; mret (with_ring s r, O_none)
  | Enqueue i => r ← enqueue_descriptor i (s_drv s) r; mret (with_ring s r, O_none)
  | Take =>
      '(q, o) ← next_avail (s_dev s) r;
      mret ({| s_ring := r; s_dev := q; s_drv := s_drv s |}, O_req o)
  | Finish i len => r ← consumed i len (s_dev s) r; mret (with_ring s r, O_none)
  | Finish_range es => r ← consumed_range es (s_dev s) r; mret (with_ring s r, O_none)
  | Collect => '(q, i, len) ← find_next_used (s_drv s) r; mret (drv q, O_used i len)
  | Free l =>
      '(q, r) ← free_descriptor (List.hd 0 l) (List.last l 0) (s_drv s) r;
      mret ({| s_ring := r; s_dev := s_dev s; s_drv := q |}, O_none)
  end.

Record aqueue := {
  a_free : list Z;
  a_owned : list Z;
  a_avail : list Z;
  a_dev : list Z;
  a_used : list (Z * Z);
}.

Definition without (l m : list Z) : list Z := filter (fun i => i ∉ l) m.

Definition aexec (op : vop) (a : aqueue) : aqueue * vobs :=
  let (free, owned, avail, dev, used) := a in
  match op with
  | Alloc =>
      match free with
      | [] => (a, O_idx Eoq)
      | i :: f => (Build_aqueue f (i :: owned) avail dev used, O_idx i)
      end
  | Fill _ _ => (a, O_none)
  | Enqueue i => (Build_aqueue free (without [i] owned) (avail ++ [i]) dev used, O_none)
  | Take =>
      match avail with
      | [] => (a, O_req None)
      | i :: t => (Build_aqueue free owned t (dev ++ [i]) used, O_req (Some i))
      end
  | Finish i len => (Build_aqueue free owned avail (without [i] dev) (used ++ [(i, len)]), O_none)
  | Finish_range es =>
      (Build_aqueue free owned avail (without (fst <$> es) dev) (used ++ es), O_none)
  | Collect =>
      match used with
      | [] => (a, O_used Eoq None)
      | (i, len) :: t => (Build_aqueue free (i :: owned) avail dev t, O_used i (Some len))
      end
  | Free l => (Build_aqueue (l ++ free) (without l owned) avail dev used, O_none)
  end.

(** The descriptors of [l] are chained through their [next] members. *)
Fixpoint linked (ds : list desc) (l : list Z) : Prop :=
  match l with
  | i :: ((j :: _) as t) => (exists d, ds !! Z.to_nat i = Some d /\ d_next d = j) /\ linked ds t
  | _ => True
  end.

(** The protocol: each side passes on only what it holds, and the driver frees
    chains it has linked. *)
Definition allowed (s : vsys) (a : aqueue) (op : vop) : Prop :=
  match op with
  | Alloc | Take | Collect => True
  | Fill i _ | Enqueue i => i ∈ a_owned a
  | Finish i _ => i ∈ a_dev a
  | Finish_range es => NoDup (fst <$> es) /\ forall i, i ∈ fst <$> es -> i ∈ a_dev a
  | Free l =>
      l <> [] /\ NoDup l /\ (forall i, i ∈ l -> i ∈ a_owned a) /\ linked (vr_desc (s_ring s)) l
  end.

(** The list of free descriptors in memory. *)
Fixpoint chain (ds : list desc) (h : Z) (l : list Z) : Prop :=
  match l with
  | [] => h = Eoq
  | i :: t => h = i /\ i <> Eoq /\ exists d, ds !! Z.to_nat i = Some d /\ chain ds (d_next d) t
  end.

Definition parts (a : aqueue) : list Z :=
  a_free a ++ a_owned a ++ a_avail a ++ a_dev a ++ (fst <$> a_used a).

(** How many of [num] descriptors can be used: the index [Eoq] marks the end of
    the free list. *)
Definition usable (num : Z) : Z := Z.min num Eoq.

Record refines (k : Z) (s : vsys) (a : aqueue) : Prop := {
  rf_descs : zlen (vr_desc (s_ring s)) = 2 ^ k;
  rf_avail_len : zlen (avail_ring (s_ring s)) = 2 ^ k;
  rf_used_len : zlen (used_ring (s_ring s)) = 2 ^ k;
  rf_dev_mask : idx_mask (s_dev s) = 2 ^ k - 1;
  rf_drv_mask : idx_mask (dq (s_drv s)) = 2 ^ k - 1;
  rf_dev_cur : in_u 16 (current_avail (s_dev s));
  rf_drv_cur : in_u 16 (current_avail (dq (s_drv s)));
  rf_free : chain (vr_desc (s_ring s)) (next_free (s_drv s)) (a_free a);
  rf_avail : window (2 ^ k) (avail_ring (s_ring s)) (current_avail (s_dev s)) (a_avail a);
  rf_avail_idx : avail_idx (s_ring s) = u16 (current_avail (s_dev s) + zlen (a_avail a));
  rf_used : window (2 ^ k) (used_ring (s_ring s)) (current_avail (dq (s_drv s))) (a_used a);
  rf_used_idx : used_idx (s_ring s) = u16 (current_avail (dq (s_drv s)) + zlen (a_used a));
  rf_parts : parts a ≡ₚ seqZ 0 (usable (2 ^ k));
}.

Lemma chain_insert ds i d h l :
  i ∉ l -> Forall (fun j => 0 <= j) l -> 0 <= i -> chain ds h l -> chain (<[Z.to_nat i := d]> ds) h l.
Proof.
  revert h. induction l as [|j l IH]; intros h Hni Hall Hi; [done|]. cbn.
  apply not_elem_of_cons in Hni as [Hne Hni]. apply Forall_cons_iff in Hall as [Hj Hall].
  intros (-> & HE & e & He & Hc). split; [done|]. split; [done|]. exists e.
  rewrite list_lookup_insert_ne by lia. split; [done|]. by apply IH.
Qed.

(** Prepending a linked chain, whose last descriptor is made to point to the head. *)
Lemma chain_app ds h l1 l t e :
  chain ds h l -> Forall (fun j => 0 <= j /\ j <> Eoq) (l1 ++ [t]) -> NoDup (l1 ++ [t]) ->
  linked ds (l1 ++ [t]) -> ds !! Z.to_nat t = Some e -> t ∉ l -> Forall (fun j => 0 <= j) l ->
  chain (<[Z.to_nat t := set_next h e]> ds) (List.hd 0 (l1 ++ [t])) (l1 ++ t :: l).
Proof.
  intros Hc Hall Hnd Hlk Ht Hni Hpos. induction l1 as [|i l1 IH]; cbn in *.
  - apply Forall_cons_iff in Hall as [[Ht0 HtE] _]. split; [done|]. split; [done|].
    eexists. split; [apply list_lookup_insert_eq; by eapply lookup_lt_Some|]. cbn.
    by apply chain_insert.
  - apply Forall_cons_iff in Hall as [[Hi0 HiE] Hall]. apply list.NoDup_cons in Hnd as [Hin Hnd].
    split; [done|]. split; [done|].
    assert (i <> t) by (intros ->; apply Hin, elem_of_app; right; constructor).
    assert (0 <= t) by (rewrite Forall_app in Hall; destruct Hall as [_ Hall];
      apply Forall_cons_iff in Hall as [[? _] _]; done).
    destruct l1 as [|j l1]; cbn in *; destruct Hlk as [(d & Hd & Hdn) Hlk];
      exists d; rewrite list_lookup_insert_ne by lia; (split; [done|]); rewrite Hdn; by apply IH.
Qed.

Lemma without_perm l m :
  NoDup l -> NoDup m -> (forall i, i ∈ l -> i ∈ m) -> m ≡ₚ l ++ without l m.
Proof.
  intros Hl Hm Hin. apply NoDup_Permutation; [done| |].
  - apply list.NoDup_app. split; [done|]. split; [|by apply list.NoDup_filter].
    intros i Hi Hw. apply list_elem_of_filter in Hw as [Hw _]. done.
  - intros i. unfold without. rewrite elem_of_app, list_elem_of_filter.
    specialize (Hin i). destruct (decide (i ∈ l)); tauto.
Qed.

Lemma without_perm1 i m : NoDup m -> i ∈ m -> m ≡ₚ i :: without [i] m.
Proof.
  intros Hm Hi. apply (without_perm [i] m); [apply NoDup_singleton|done|].
  intros j ->%list_elem_of_singleton. done.
Qed.

Lemma in_owned a i : i ∈ a_owned a -> i ∈ parts a.
Proof. intros Hi. unfold parts. rewrite !elem_of_app. tauto. Qed.

Lemma in_dev a i : i ∈ a_dev a -> i ∈ parts a.
Proof. intros Hi. unfold parts. rewrite !elem_of_app. tauto. Qed.

Lemma owned_len a i : i ∈ a_owned a -> 1 <= zlen (a_owned a).
Proof. unfold zlen. destruct (a_owned a); [by intros ?%not_elem_of_nil|]. cbn. lia. Qed.

Section Refines.
Context {k : Z} (Hk : 0 <= k <= 16).

Lemma pow2_bounds : 1 <= 2 ^ k <= 65536.
Proof.
  split; [apply (Z.pow_le_mono_r 2 0 k); lia|]. apply (Z.pow_le_mono_r 2 k 16); lia.
Qed.

Context {s : vsys} {a : aqueue} (H : refines k s a).

Lemma parts_nodup : NoDup (parts a).
Proof. rewrite (rf_parts _ _ _ H). apply NoDup_seqZ. Qed.

Lemma parts_range i : i ∈ parts a -> 0 <= i < 2 ^ k /\ i <> Eoq.
Proof.
  rewrite (rf_parts _ _ _ H), elem_of_seqZ. unfold usable. unfold Eoq. lia.
Qed.

Lemma parts_len : zlen (parts a) = usable (2 ^ k).
Proof.
  unfold zlen. rewrite (rf_parts _ _ _ H), length_seqZ. pose proof pow2_bounds.
  unfold usable, Eoq. lia.
Qed.

Lemma parts_lens :
  zlen (a_free a) + zlen (a_owned a) + zlen (a_avail a) + zlen (a_dev a) + zlen (a_used a)
  = usable (2 ^ k).
Proof.
  rewrite <- parts_len. unfold parts, zlen. rewrite !length_app, length_fmap. lia.
Qed.

Lemma owned_nodup : NoDup (a_owned a).
Proof.
  pose proof parts_nodup as Hn. unfold parts in Hn.
  apply list.NoDup_app in Hn as (_ & _ & Hn). by apply list.NoDup_app in Hn as (Hn & _ & _).
Qed.

Lemma dev_nodup : NoDup (a_dev a).
Proof.
  pose proof parts_nodup as Hn. unfold parts in Hn. do 3 apply list.NoDup_app in Hn as (_ & _ & Hn).
  by apply list.NoDup_app in Hn as (Hn & _ & _).
Qed.

Lemma free_pos : Forall (fun j => 0 <= j) (a_free a).
Proof.
  apply list.Forall_forall. intros i Hi. apply parts_range. unfold parts. rewrite elem_of_app. by left.
Qed.

Lemma owned_not_free i : i ∈ a_owned a -> i ∉ a_free a.
Proof.
  intros Hi Hf. pose proof parts_nodup as Hn. unfold parts in Hn. apply list.NoDup_app in Hn as (_ & Hn & _).
  apply (Hn i Hf). rewrite elem_of_app. by left.
Qed.

End Refines.

(** The 16-bit counters tell an empty ring from one that holds elements. *)
Lemma counter_eqb c n : in_u 16 c -> 0 <= n < 2 ^ 16 -> (c =? u16 (c + n)) = (n =? 0).
Proof.
  unfold in_u. intros Hc Hn. destruct (Z.eqb_spec n 0) as [->|Hne].
  - rewrite Z.add_0_r, uwrap_small by (unfold in_u; lia). apply Z.eqb_refl.
  - apply Z.eqb_neq. destruct (Z.lt_ge_cases (c + n) (2 ^ 16)).
    + rewrite uwrap_small by (unfold in_u; lia). lia.
    + rewrite uwrap_over by lia. lia.
Qed.

Lemma zlen_eqb_0 {A} (l : list A) : (zlen l =? 0) = match l with [] => true | _ => false end.
Proof. by destruct l. Qed.

(** ** The refinement, operation by operation *)

Definition simulates (k : Z) (op : vop) (s : vsys) (a : aqueue) : Prop :=
  exists s', vexec op s = Ret (s', snd (aexec op a)) /\ refines k s' (fst (aexec op a)).

Section Simulation.
Context {k : Z} (Hk : 0 <= k <= 16) {s : vsys} {a : aqueue} (H : refines k s a).

Lemma mask_slot q x : idx_mask q = 2 ^ k - 1 -> Z.land x (idx_mask q) = x mod 2 ^ k.
Proof. intros ->. apply land_mask. lia. Qed.

Lemma slot_range x : 0 <= x mod 2 ^ k < 2 ^ k.
Proof. apply Z.mod_pos_bound. pose proof (pow2_bounds Hk). lia. Qed.

Lemma lens_bound : zlen (a_avail a) < 2 ^ 16 /\ zlen (a_used a) < 2 ^ 16.
Proof.
  pose proof (parts_lens Hk H) as Hl. unfold usable, Eoq in Hl.
  pose proof (zlen_nonneg (a_free a)). pose proof (zlen_nonneg (a_owned a)).
  pose proof (zlen_nonneg (a_avail a)). pose proof (zlen_nonneg (a_dev a)).
  pose proof (zlen_nonneg (a_used a)). lia.
Qed.

Lemma sim_alloc : simulates k Alloc s a.
Proof.
  unfold simulates, vexec, alloc_descriptor. pose proof (rf_free _ _ _ H) as Hf.
  pose proof (parts_range Hk H) as Hr. pose proof (rf_parts _ _ _ H) as Hp.
  destruct a as [free owned avail dev used]; cbn in *. destruct free as [|i f]; cbn in Hf |- *.
  - rewrite Hf, Z.eqb_refl. eexists. split; [reflexivity|]. by destruct s.
  - destruct Hf as (Hi & HE & d & Hd & Hc). rewrite Hi, (proj2 (Z.eqb_neq i Eoq)) by done.
    destruct (Hr i) as [Hi0 _]; [unfold parts; rewrite elem_of_app; left; by left|].
    rewrite (load_ok _ d) by (done || lia).
    eexists. split; [reflexivity|]. destruct H. split; cbn in *; try done.
    etransitivity; [|exact Hp]. unfold parts. cbn.
    symmetry. apply Permutation_middle.
Qed.

Lemma sim_fill i d : allowed s a (Fill i d) -> simulates k (Fill i d) s a.
Proof.
  cbn. intros Hi. unfold simulates, vexec, write_desc.
  pose proof (parts_range Hk H i (in_owned a i Hi)) as [Hr _].
  pose proof (owned_not_free H i Hi) as Hnf. pose proof (free_pos Hk H) as Hpos.
  rewrite (rf_drv_mask _ _ _ H). replace (2 ^ k - 1 <? i) with false by lia.
  rewrite store_ok by (rewrite (rf_descs _ _ _ H); lia).
  eexists. split; [by destruct a|]. replace (fst (aexec (Fill i d) a)) with a by (by destruct a).
  destruct H. split; cbn in *; try done; [by rewrite zlen_insert|]. apply chain_insert; [done..|lia|done].
Qed.

Lemma sim_enqueue i : allowed s a (Enqueue i) -> simulates k (Enqueue i) s a.
Proof.
  cbn. intros Hi. unfold simulates, vexec, enqueue_descriptor.
  pose proof (parts_range Hk H i (in_owned a i Hi)) as [Hr _]. pose proof (owned_len a i Hi) as Hol.
  pose proof (without_perm1 i _ (owned_nodup H) Hi) as Hw.
  pose proof (parts_lens Hk H) as Hl. pose proof lens_bound as [Hla _].
  pose proof (zlen_nonneg (a_free a)). pose proof (zlen_nonneg (a_dev a)).
  pose proof (zlen_nonneg (a_used a)). pose proof (pow2_bounds Hk).
  replace (idx_mask (dq (s_drv s)) <? i) with false by (rewrite (rf_drv_mask _ _ _ H); lia).
  rewrite mask_slot by apply (rf_drv_mask _ _ _ H).
  rewrite store_ok by (rewrite (rf_avail_len _ _ _ H); apply slot_range).
  pose proof (rf_parts _ _ _ H) as Hp.
  destruct a as [free owned avail dev used]; cbn in *. eexists. split; [reflexivity|].
  destruct H. split; cbn in *; try done.
  - by rewrite zlen_insert.
  - rewrite rf_avail_idx0, mod_pow2_u16 by done. apply window_snoc; [lia|done| |done].
    unfold usable in Hl. lia.
  - rewrite rf_avail_idx0, uwrap_add_l. f_equal. rewrite zlen_app. unfold zlen at 3. cbn. lia.
  - etransitivity; [|exact Hp]. unfold parts. cbn. rewrite Hw at 2. apply Permutation_app_head.
    rewrite <- app_assoc. cbn. by rewrite <- !Permutation_middle.
Qed.

Lemma sim_take : simulates k Take s a.
Proof.
  unfold simulates, vexec, next_avail, desc_avail. pose proof lens_bound as [Hla _].
  pose proof (zlen_nonneg (a_avail a)). pose proof (rf_parts _ _ _ H) as Hp.
  rewrite (rf_avail_idx _ _ _ H), counter_eqb, zlen_eqb_0 by (apply (rf_dev_cur _ _ _ H) || lia).
  rewrite mask_slot by apply (rf_dev_mask _ _ _ H).
  pose proof (rf_avail _ _ _ H) as Hw.
  destruct a as [free owned avail dev used]; cbn in *. destruct avail as [|i t]; cbn.
  - eexists. split; [reflexivity|]. by destruct s.
  - rewrite (load_ok _ i) by (first [by eapply window_head | apply slot_range]).
    eexists. split; [reflexivity|]. destruct H. split; cbn in *; try done.
    + by apply uwrap_range.
    + apply window_tail in Hw. apply (window_mod _ _ (current_avail (s_dev s) + 1)); [|done].
      by rewrite mod_pow2_u16.
    + rewrite rf_avail_idx0, uwrap_add_l. f_equal. unfold zlen. cbn [length]. lia.
    + etransitivity; [|exact Hp]. unfold parts. cbn. do 2 apply Permutation_app_head.
      rewrite <- app_assoc. cbn. by rewrite <- !Permutation_middle.
Qed.

(** Elements appended one after the other stay where the reader looks for them. *)
Lemma consumed_loop_window es idx added l used cur :
  Forall (fun e => in_u 16 (fst e)) es -> in_u 16 added -> added + zlen es < 2 ^ 16 ->
  zlen l = 2 ^ k -> zlen used + zlen es <= 2 ^ k ->
  (idx + added) mod 2 ^ k = (cur + zlen used) mod 2 ^ k -> window (2 ^ k) l cur used ->
  exists l', consumed_loop es idx added (2 ^ k - 1) l = Ret (added + zlen es, l') /\
    zlen l' = 2 ^ k /\ window (2 ^ k) l' cur (used ++ es).
Proof.
  pose proof (pow2_bounds Hk) as Hp.
  revert added l used. induction es as [|[d len] es IH]; intros added l used Hes Ha Hlt Hl Hr Hm Hw.
  - exists l. cbn. rewrite app_nil_r. unfold zlen at 1. cbn. by rewrite Z.add_0_r.
  - apply Forall_cons_iff in Hes as [Hd Hes]. cbn in Hd. cbn [consumed_loop].
    assert (Hz : zlen ((d, len) :: es) = zlen es + 1) by (unfold zlen; cbn [length]; lia).
    pose proof (zlen_nonneg es). pose proof (zlen_nonneg used). unfold in_u in Ha.
    rewrite land_mask, store_ok by (try rewrite Hl; try apply slot_range; lia).
    rewrite (uwrap_small 16 d) by done. cbn [mbind run_bind].
    rewrite (uwrap_small 16 (added + 1)) by (unfold in_u; lia).
    destruct (IH (added + 1) (<[Z.to_nat ((idx + added) mod 2 ^ k) := (d, len)]> l)
                (used ++ [(d, len)])) as (l' & E & Hl' & Hw');
      rewrite ?zlen_insert, ?zlen_app; try done; unfold in_u, zlen in *; cbn [length] in *; try lia.
    + rewrite Z.add_assoc, Zplus_mod, Hm, <- Zplus_mod. f_equal. lia.
    + rewrite Hm. apply window_snoc; unfold zlen; [lia|lia|lia|done].
    + exists l'. rewrite E. split; [do 2 f_equal; lia|]. split; [done|].
      by rewrite <- app_assoc in Hw'.
Qed.

Lemma sim_finish_range es : allowed s a (Finish_range es) -> simulates k (Finish_range es) s a.
Proof.
  cbn. intros [Hnd Hin]. unfold simulates, vexec, consumed_range.
  pose proof (without_perm _ _ Hnd (dev_nodup H) Hin) as Hw.
  pose proof (parts_lens Hk H) as Hl. pose proof lens_bound as [_ Hlu].
  pose proof (zlen_nonneg (a_free a)). pose proof (zlen_nonneg (a_owned a)).
  pose proof (zlen_nonneg (a_avail a)). pose proof (zlen_nonneg (without (fst <$> es) (a_dev a))).
  pose proof (zlen_nonneg (a_used a)). pose proof (zlen_nonneg es).
  assert (Hd : zlen (a_dev a) = zlen es + zlen (without (fst <$> es) (a_dev a))).
  { unfold zlen. rewrite Hw at 1. rewrite length_app, length_fmap. lia. }
  unfold usable, Eoq in Hl. pose proof (rf_parts _ _ _ H) as Hp.
  destruct (consumed_loop_window es (used_idx (s_ring s)) 0 (used_ring (s_ring s)) (a_used a)
              (current_avail (dq (s_drv s)))) as (l' & E & Hl' & Hw').
  { apply list.Forall_forall. intros e He. destruct (parts_range Hk H (fst e)) as [Hr _].
    - apply in_dev, Hin. by apply list_elem_of_fmap_2.
    - pose proof (pow2_bounds Hk). unfold in_u. lia. }
  { unfold in_u. lia. }
  { lia. }
  { apply (rf_used_len _ _ _ H). }
  { lia. }
  { by rewrite (rf_used_idx _ _ _ H), Z.add_0_r, mod_pow2_u16. }
  { apply (rf_used _ _ _ H). }
  rewrite (rf_dev_mask _ _ _ H), E.
  destruct a as [free owned avail dev used]; cbn in *. eexists. split; [reflexivity|].
  destruct H. split; cbn in *; try done.
  - rewrite rf_used_idx0, uwrap_add_l. f_equal. rewrite zlen_app. lia.
  - etransitivity; [|exact Hp]. unfold parts. cbn. do 3 apply Permutation_app_head.
    transitivity ((fst <$> es) ++ without (fst <$> es) dev ++ (fst <$> used)).
    + rewrite fmap_app, app_assoc. apply Permutation_app_comm.
    + rewrite app_assoc. by rewrite <- Hw.
Qed.

Lemma sim_finish i len : allowed s a (Finish i len) -> simulates k (Finish i len) s a.
Proof.
  cbn. intros Hi. destruct (sim_finish_range [(i, len)]) as (s' & E & Hs).
  { cbn. split; [apply NoDup_singleton|]. by intros j ->%list_elem_of_singleton. }
  exists s'. destruct a as [free owned avail dev used]; cbn in *. split; [|done].
  unfold consumed_range in E. cbn in E. unfold consumed. rewrite Z.add_0_r in E.
  destruct (store _ _ _) as [l| | | | |]; cbn in *; try done.
Qed.

Lemma sim_collect : simulates k Collect s a.
Proof.
  unfold simulates, vexec, find_next_used. pose proof lens_bound as [_ Hlu].
  pose proof (zlen_nonneg (a_used a)). pose proof (rf_parts _ _ _ H) as Hp.
  pose proof (parts_range Hk H) as Hr.
  rewrite (rf_used_idx _ _ _ H), counter_eqb, zlen_eqb_0 by (apply (rf_drv_cur _ _ _ H) || lia).
  rewrite mask_slot by apply (rf_drv_mask _ _ _ H).
  pose proof (rf_used _ _ _ H) as Hw.
  destruct a as [free owned avail dev used]; cbn in *. destruct used as [|[i len] t]; cbn.
  - eexists. split; [reflexivity|]. by destruct s.
  - rewrite (load_ok _ (i, len)) by (first [by eapply window_head | apply slot_range]). cbn.
    assert (Hi : in_u 16 i).
    { destruct (Hr i) as [Hi _]; [unfold parts; cbn; rewrite !elem_of_app; do 4 right; by left|].
      pose proof (pow2_bounds Hk). unfold in_u. lia. }
    rewrite (uwrap_small 16 i) by done.
    eexists. split; [reflexivity|]. destruct H. split; cbn in *; try done.
    + by apply uwrap_range.
    + apply window_tail in Hw. apply (window_mod _ _ (current_avail (dq (s_drv s)) + 1)); [|done].
      by rewrite mod_pow2_u16.
    + rewrite rf_used_idx0, uwrap_add_l. f_equal. unfold zlen. cbn [length]. lia.
    + etransitivity; [|exact Hp]. unfold parts. cbn. apply Permutation_app_head.
      by rewrite <- !Permutation_middle.
Qed.

Lemma sim_free l : allowed s a (Free l) -> simulates k (Free l) s a.
Proof.
  cbn. intros (Hne & Hnd & Hin & Hlk). unfold simulates, vexec, free_descriptor.
  destruct (exists_last Hne) as (l1 & t & ->). rewrite List.last_last.
  assert (Hall : Forall (fun j => 0 <= j < 2 ^ k /\ j <> Eoq) (l1 ++ [t])).
  { apply list.Forall_forall. intros j Hj. by apply (parts_range Hk H), in_owned, Hin. }
  assert (Ht : 0 <= t < 2 ^ k) by (apply Forall_app in Hall as [_ Hall];
    apply Forall_cons_iff in Hall as [[? _] _]; done).
  assert (Hh : 0 <= List.hd 0 (l1 ++ [t]) < 2 ^ k).
  { destruct l1 as [|j l1]; [done|]. by apply Forall_cons_iff in Hall as [[? _] _]. }
  assert (Hto : t ∈ a_owned a) by (apply Hin; rewrite elem_of_app; right; by left).
  pose proof (owned_not_free H t Hto) as Hnf. pose proof (free_pos Hk H) as Hpos.
  pose proof (without_perm _ _ Hnd (owned_nodup H) Hin) as Hw.
  replace (_ || _) with false by (rewrite (rf_drv_mask _ _ _ H); lia). unfold link.
  destruct (load_lt t (vr_desc (s_ring s))) as (e & He & Hld); [rewrite (rf_descs _ _ _ H); lia|].
  rewrite Hld. cbn [mbind run_bind]. rewrite store_ok by (rewrite (rf_descs _ _ _ H); lia).
  pose proof (rf_parts _ _ _ H) as Hp. pose proof (rf_free _ _ _ H) as Hc.
  destruct a as [free owned avail dev used]; cbn in *. eexists. split; [reflexivity|].
  destruct H. split; cbn in *; try done.
  - by rewrite zlen_insert.
  - rewrite <- app_assoc. cbn. eapply chain_app; try done.
    eapply Forall_impl; [|exact Hall]. cbn. intros j [? ?]. split; [lia|done].
  - etransitivity; [|exact Hp]. unfold parts. cbn.
    rewrite <- (app_assoc (l1 ++ [t])), Permutation_app_swap_app.
    apply Permutation_app_head. rewrite (app_assoc (l1 ++ [t])). by rewrite <- Hw.
Qed.

(** Every operation the protocol allows. *)
Lemma sim_step op : allowed s a op -> simulates k op s a.
Proof.
  destruct op; eauto using sim_alloc, sim_fill, sim_enqueue, sim_take, sim_finish,
    sim_finish_range, sim_collect, sim_free.
Qed.
End Simulation.

(** ** Initialisation *)

Lemma link_ok i n ds d :
  0 <= i -> ds !! Z.to_nat i = Some d -> link i n ds = Ret (<[Z.to_nat i := set_next n d]> ds).
Proof.
  intros Hi Hd. unfold link. rewrite (load_ok i d) by done. cbn [mbind run_bind].
  apply store_ok. pose proof (lookup_lt_Some _ _ _ Hd). unfold zlen. lia.
Qed.

(** The links of the descriptors below [i]. *)
Definition linked_upto (i : Z) (ds : list desc) : Prop :=
  forall j, 0 <= j < i -> exists d, ds !! Z.to_nat j = Some d /\ d_next d = u16 (j + 1).

Lemma link_loop_ok n i ds :
  0 <= i -> i + Z.of_nat n <= zlen ds -> linked_upto i ds ->
  exists ds', link_loop n i ds = Ret ds' /\ zlen ds' = zlen ds /\ linked_upto (i + Z.of_nat n) ds'.
Proof.
  revert i ds. induction n as [|n IH]; intros i ds Hi Hlen Hl.
  - exists ds. by rewrite Z.add_0_r.
  - cbn [link_loop]. destruct (load_lt i ds) as (d & Hd & _); [lia|].
    rewrite (link_ok i _ ds d) by done. cbn [mbind run_bind].
    destruct (IH (i + 1) (<[Z.to_nat i := set_next (u16 (i + 1)) d]> ds)) as (ds' & E & Hz & Hl').
    + lia.
    + rewrite zlen_insert. lia.
    + intros j Hj. destruct (decide (j = i)) as [->|].
      * eexists. split; [apply list_lookup_insert_eq; by eapply lookup_lt_Some|done].
      * rewrite list_lookup_insert_ne by lia. apply Hl. lia.
    + exists ds'. rewrite zlen_insert in Hz. split; [done|]. split; [done|].
      replace (i + Z.of_nat (S n)) with (i + 1 + Z.of_nat n) by lia. done.
Qed.

(** The free list from descriptor [i] on. *)
Lemma chain_seqZ ds n i :
  0 <= i -> i + Z.of_nat n <= Eoq ->
  (forall j, i <= j < i + Z.of_nat n -> exists d, ds !! Z.to_nat j = Some d /\
     d_next d = if j + 1 =? i + Z.of_nat n then Eoq else j + 1) ->
  chain ds (if (n =? 0)%nat then Eoq else i) (seqZ i (Z.of_nat n)).
Proof.
  revert i. induction n as [|n IH]; intros i Hi Hlim Hl; [done|].
  rewrite seqZ_cons by lia. cbn [Nat.eqb chain]. split; [done|]. split; [unfold Eoq in *; lia|].
  destruct (Hl i) as (d & Hd & Hn); [lia|]. exists d. split; [done|].
  replace (Z.succ i) with (i + 1) by lia. replace (Z.pred (Z.of_nat (S n))) with (Z.of_nat n) by lia.
  replace (d_next d) with (if (n =? 0)%nat then Eoq else i + 1).
  - apply IH; [lia|lia|]. intros j Hj. destruct (Hl j) as (e & He & Hne); [lia|].
    exists e. split; [done|]. rewrite Hne. by replace (i + 1 + Z.of_nat n) with (i + Z.of_nat (S n)) by lia.
  - rewrite Hn. destruct (Z.eqb_spec (i + 1) (i + Z.of_nat (S n))), (Nat.eqb_spec n 0); unfold Eoq in *; lia.
Qed.

(** A freshly initialised queue: everything is free. *)
Definition a_fresh (num : Z) : aqueue := Build_aqueue (seqZ 0 (usable num)) [] [] [] [].

Lemma initialize_rings_refines k dev drv r :
  0 <= k <= 16 -> zlen (vr_desc r) = 2 ^ k -> zlen (avail_ring r) = 2 ^ k ->
  zlen (used_ring r) = 2 ^ k -> idx_mask dev = 2 ^ k - 1 -> idx_mask (dq drv) = 2 ^ k - 1 ->
  current_avail dev = 0 -> current_avail (dq drv) = 0 ->
  exists drv' r', initialize_rings (2 ^ k) drv r = Ret (drv', r') /\
    refines k {| s_ring := r'; s_dev := dev; s_drv := drv' |} (a_fresh (2 ^ k)).
Proof.
  intros Hk Hd Ha Hu Hm1 Hm2 Hc1 Hc2. pose proof (pow2_bounds Hk) as Hp. unfold initialize_rings.
  destruct (link_loop_ok (Z.to_nat (2 ^ k - 1)) 0 (vr_desc r)) as (ds & E & Hz & Hl);
    [lia|lia|intros j Hj; lia|]. rewrite E. cbn [mbind run_bind].
  destruct (load_lt (2 ^ k - 1) ds) as (d & Hdd & _); [lia|].
  rewrite (link_ok (2 ^ k - 1) Eoq ds d) by (done || lia).
  eexists _, _. split; [reflexivity|].
  split; cbn; rewrite ?zlen_insert, ?Hc1, ?Hc2; try congruence;
    try apply window_nil; try (unfold in_u; lia); try reflexivity.
  - assert (Hus : 1 <= usable (2 ^ k) <= Eoq) by (unfold usable, Eoq; lia).
    pose proof (chain_seqZ (<[Z.to_nat (2 ^ k - 1):=set_next Eoq d]> ds)
                  (Z.to_nat (usable (2 ^ k))) 0) as Hcs.
    rewrite (proj2 (Nat.eqb_neq _ 0)), Z2Nat.id in Hcs by lia. apply Hcs; [lia|lia|].
    intros j Hj. destruct (decide (j = 2 ^ k - 1)) as [->|Hne].
    + eexists. split; [apply list_lookup_insert_eq; by eapply lookup_lt_Some|]. cbn.
      split_if; [done|]. unfold usable, Eoq in *. lia.
    + rewrite list_lookup_insert_ne by lia. destruct (Hl j) as (e & He & Hen); [unfold usable, Eoq in *; lia|].
      exists e. split; [done|]. rewrite Hen, uwrap_small by (unfold in_u, usable, Eoq in *; lia).
      split_if; [|done]. unfold usable, Eoq in *. lia.
  - unfold parts. cbn. by rewrite app_nil_r.
Qed.

(** ** The contract *)

Fixpoint vrun (ops : list vop) (s : vsys) : run (vsys * list vobs) :=
  match ops with
  | [] => mret (s, [])
  | op :: ops => '(s, o) ← vexec op s; '(s, os) ← vrun ops s; mret (s, o :: os)
  end.

Fixpoint arun (ops : list vop) (a : aqueue) : aqueue * list vobs :=
  match ops with
  | [] => (a, [])
  | op :: ops => let '(a, o) := aexec op a in let '(a, os) := arun ops a in (a, o :: os)
  end.

(** Each operation is allowed when it is its turn. *)
Fixpoint allowed_run (ops : list vop) (s : vsys) (a : aqueue) : Prop :=
  match ops with
  | [] => True
  | op :: ops =>
      allowed s a op /\
      forall s' o, vexec op s = Ret (s', o) -> allowed_run ops s' (fst (aexec op a))
  end.

Lemma vrun_refines k ops s a :
  0 <= k <= 16 -> refines k s a -> allowed_run ops s a ->
  exists s', vrun ops s = Ret (s', snd (arun ops a)) /\ refines k s' (fst (arun ops a)).
Proof.
  intros Hk. revert s a. induction ops as [|op ops IH]; intros s a H Hall.
  - by exists s.
  - destruct Hall as [Ha Hall]. destruct (sim_step Hk H op Ha) as (s1 & E & H1).
    destruct (IH s1 (fst (aexec op a)) H1 (Hall _ _ E)) as (s2 & E2 & H2).
    exists s2. cbn [vrun arun]. rewrite E. cbn [mbind run_bind]. rewrite E2.
    destruct (aexec op a) as [a1 o]. cbn in *. by destruct (arun ops a1).
Qed.

(** C1. A virtqueue implements two first-in first-out queues between driver and
    device: starting from initialised rings of any size [2 ^ k] up to [2 ^ 16],
    every sequence of operations in which driver and device pass on only
    descriptors they hold runs without an access outside of the rings and without
    an exception, and each operation returns what the abstract queue returns,
    where each descriptor is at one place at a time, requests arrive at the device
    in the order of [enqueue_descriptor] and come back in the order of
    [consumed], however often the 16-bit counters wrap around. *)
Theorem virtqueue_refines k dev drv r ops :
  0 <= k <= 16 -> zlen (vr_desc r) = 2 ^ k -> zlen (avail_ring r) = 2 ^ k ->
  zlen (used_ring r) = 2 ^ k -> idx_mask dev = 2 ^ k - 1 -> idx_mask (dq drv) = 2 ^ k - 1 ->
  current_avail dev = 0 -> current_avail (dq drv) = 0 ->
  exists drv' r', initialize_rings (2 ^ k) drv r = Ret (drv', r') /\
    let s := {| s_ring := r'; s_dev := dev; s_drv := drv' |} in
    (allowed_run ops s (a_fresh (2 ^ k)) ->
     exists s', vrun ops s = Ret (s', snd (arun ops (a_fresh (2 ^ k)))) /\
       refines k s' (fst (arun ops (a_fresh (2 ^ k))))).
Proof.
  intros Hk Hd Ha Hu Hm1 Hm2 Hc1 Hc2.
  destruct (initialize_rings_refines k dev drv r) as (drv' & r' & E & H); try done.
  exists drv', r'. split; [done|]. intros s Hall. by apply vrun_refines.
Qed.

(** ** Giving requests back *)

(** [rewind_avail] returns the device to the position [p] at which it took the
    request with descriptor [d] exactly when this descriptor's index equals the
    ring slot of that position, modulo the size, and fewer requests were taken
    since than the ring has slots; otherwise requests are skipped or repeated.
    The comment of the function asks for neither. *)
Theorem rewind_avail_iff k q d p :
  0 <= k <= 16 -> idx_mask q = 2 ^ k - 1 -> in_u 16 (current_avail q) -> in_u 16 d -> in_u 16 p ->
  current_avail (rewind_avail d q) = p <->
  d mod 2 ^ k = p mod 2 ^ k /\ u16 (current_avail q - p) < 2 ^ k.
Proof.
  intros Hk Hm Hc Hd Hp. pose proof (pow2_bounds Hk) as H2. unfold rewind_avail, in_u in *. cbn.
  rewrite Hm, land_mask by lia. set (c := current_avail q) in *.
  replace (uwrap 32 (c - d) mod 2 ^ k) with ((c - d) mod 2 ^ k).
  2: { unfold uwrap. replace 32 with (k + (32 - k)) by lia. rewrite Z.pow_add_r by lia.
       rewrite Z.rem_mul_r, Z.mul_comm, Z_mod_plus_full by lia. rewrite Z.mod_mod; lia. }
  pose proof (Z.mod_pos_bound (c - d) (2 ^ k)) as Hb. set (x := (c - d) mod 2 ^ k) in *.
  assert (Hx : exists t, c - d = x + 2 ^ k * t)
    by (exists ((c - d) / 2 ^ k); pose proof (Z.div_mod (c - d) (2 ^ k)); lia).
  destruct Hx as [t Ht]. transitivity (u16 (c - p) = x).
  - split; intros E.
    + rewrite <- E, uwrap_sub_r. replace (c - (c - x)) with x by lia. apply uwrap_small. unfold in_u. lia.
    + rewrite <- E, uwrap_sub_r. replace (c - (c - p)) with p by lia. by apply uwrap_small.
  - split.
    + intros E. split; [|lia]. assert (x mod 2 ^ k = (c - p) mod 2 ^ k)
        by (rewrite <- E; by apply mod_pow2_u16).
      replace d with (c - x + (- t) * 2 ^ k) by lia. rewrite Z_mod_plus_full.
      rewrite Zminus_mod, H, <- Zminus_mod. f_equal. lia.
    + intros [E Hlt]. rewrite <- (Z.mod_small (u16 (c - p)) (2 ^ k)) by (pose proof (uwrap_nonneg 16 (c - p)); lia).
      rewrite mod_pow2_u16 by done. subst x. rewrite Zminus_mod, <- E, <- Zminus_mod. done.
Qed.

(** ** Memory layout *)

Lemma ring_sizes n :
  0 <= n <= 65536 ->
  desc_size n = 16 * n /\ avail_size n = 2 * n + 6 /\ used_size n = 8 * n + 6.
Proof.
  intros Hn. unfold desc_size, avail_size, used_size.
  rewrite (uwrap_small 32 (n * 16)), (uwrap_small 32 (2 * n)), (uwrap_small 32 (8 * n))
    by (unfold in_u; lia).
  rewrite (uwrap_small 32 (2 * n + 6)), (uwrap_small 32 (8 * n + 6)) by (unfold in_u; lia). lia.
Qed.

(** [setup_simple] places the descriptor table, the available ring and the used
    ring one after the other, aligned as virtio demands, within the [total_size]
    bytes the caller provides. *)
Theorem setup_simple_layout `{!L4_round 64} k base q :
  0 <= k <= 16 -> 0 <= base -> base mod 2 ^ Desc_align = 0 -> base + total_size (2 ^ k) + 4 <= 2 ^ 64 ->
  exists q', setup_simple (2 ^ k) base q = Ret q' /\ vq_num q' = 2 ^ k /\ current_avail q' = 0 /\
    q_desc q' = base /\
    base + desc_size (2 ^ k) <= q_avail q' /\ q_avail q' mod 2 ^ Avail_align = 0 /\
    q_avail q' + avail_size (2 ^ k) <= q_used q' /\ q_used q' mod 2 ^ Used_align = 0 /\
    q_used q' + used_size (2 ^ k) = base + total_size (2 ^ k).
Proof.
  intros Hk Hb Hal Hlim. pose proof (pow2_bounds Hk) as Hn. set (n := 2 ^ k) in *.
  destruct (ring_sizes n) as (Hs1 & Hs2 & Hs3); [lia|].
  unfold setup_simple, setup, total_size, Avail_align, Used_align, Desc_align in *.
  rewrite Hs1, Hs2, Hs3 in *. change (2 ^ 4) with 16 in Hal.
  rewrite (uwrap_small 64 (16 * n + _)) in * by (unfold in_u; lia).
  destruct (round_size_bounds (16 * n + (2 * n + 6)) 2) as [Ht Htm]; [unfold in_u; lia|lia..|].
  set (t := l4_round_size (16 * n + (2 * n + 6)) 2) in *.
  change (2 ^ 2) with 4 in *. change (2 ^ 1) with 2.
  rewrite (uwrap_small 64 (t + _)) in * by (unfold in_u; lia).
  rewrite (uwrap_small 64 (base + _)) by (unfold in_u; lia).
  destruct (round_size_bounds (base + 16 * n) 1) as [Ha Ham]; [unfold in_u; lia|lia..|].
  set (a := l4_round_size (base + 16 * n) 1) in *. change (2 ^ 1) with 2 in *.
  assert (Hae : a = base + 16 * n) by (Z.div_mod_to_equations; lia).
  rewrite (uwrap_small 64 (a + _)) by (unfold in_u; lia).
  destruct (round_size_bounds (a + (2 * n + 6)) 2) as [Hu Hum]; [unfold in_u; lia|lia..|].
  set (u := l4_round_size (a + (2 * n + 6)) 2) in *. change (2 ^ 2) with 4 in *.
  assert (Hue : u = base + t) by (Z.div_mod_to_equations; lia).
  replace (0x10000 <? n) with false by lia. eexists. split; [reflexivity|]. unfold vq_num. cbn.
  rewrite uwrap_small by (unfold in_u; lia). repeat split; try done; lia.
Qed.

Module Queue_example.
Definition d0 : desc := {| d_addr := 0; d_len := 0; d_flags := 0; d_next := 0 |}.

Definition ring4 : vring :=
  {| vr_desc := replicate 4 d0; avail_flags := 0; avail_idx := 0; avail_ring := replicate 4 0;
     used_flags := 0; used_idx := 0; used_ring := replicate 4 (0, 0) |}.

Definition queue4 : vqueue :=
  {| q_desc := 0x1000; q_avail := 0x1040; q_used := 0x1050; current_avail := 0; idx_mask := 3 |}.

Definition drv4 : drv_queue := {| dq := queue4; next_free := Eoq |}.

(** The driver takes two descriptors and offers the second one first; the device
    finishes them in its own order. *)
Definition ops4 : list vop :=
  [Alloc; Alloc; Fill 1 {| d_addr := 0x2000; d_len := 64; d_flags := 0; d_next := 0 |};
   Enqueue 1; Enqueue 0; Take; Take; Take; Finish 0 10; Finish 1 20; Collect; Collect; Collect;
   Free [1]; Free [0]; Alloc].

(** An operation whose step is known by evaluation. *)
Ltac allow :=
  match goal with
  | |- allowed_run (_ :: _) _ _ =>
      split; [ cbn; repeat split; try discriminate; try (intros ? ->%list_elem_of_singleton);
               refine (bool_decide_unpack _ _); vm_compute; exact I
             | let s := fresh in let o := fresh in let E := fresh in
               intros s o E; vm_compute in E; injection E as <- <-;
               match goal with |- allowed_run ?l ?s ?a =>
                 let a' := eval vm_compute in a in change (allowed_run l s a') end ]
  end.

Lemma virtqueue_refines_witness :
  exists drv' r' s', initialize_rings 4 drv4 ring4 = Ret (drv', r') /\
    vrun ops4 {| s_ring := r'; s_dev := queue4; s_drv := drv' |} =
      Ret (s', [O_idx 0; O_idx 1; O_none; O_none; O_none; O_req (Some 1); O_req (Some 0); O_req None;
                O_none; O_none; O_used 0 (Some 10); O_used 1 (Some 20); O_used Eoq None; O_none;
                O_none; O_idx 0]).
Proof.
  destruct (virtqueue_refines 2 queue4 drv4 ring4 ops4 ltac:(lia) eq_refl eq_refl eq_refl eq_refl
              eq_refl eq_refl eq_refl) as (drv' & r' & E & H).
  vm_compute in E. injection E as <- <-. destruct H as (s' & Hr & _).
  - unfold ops4. repeat allow. exact I.
  - eexists _, _, s'. split; [reflexivity|]. exact Hr.
Defined.

Lemma rewind_avail_iff_witness : current_avail (rewind_avail 2 (set_current 1 queue4)) = 0xfffe.
Proof.
  apply (proj2 (rewind_avail_iff 2 (set_current 1 queue4) 2 0xfffe ltac:(lia) eq_refl
           ltac:(by_eval) ltac:(by_eval) ltac:(by_eval))).
  by_eval.
Defined.

(** A driver that offers descriptor 1 in slot 0: the request is lost. *)
Example rewind_skips_request :
  let r := set_avail 2 [1; 0; 0; 0] ring4 in
  exists q, next_avail queue4 r = Ret (q, Some 1) /\
    next_avail (rewind_avail 1 q) r = Ret (set_current 2 queue4, Some 0).
Proof. eexists. split; reflexivity. Qed.

(** All requests of a full queue taken: nothing is given back. *)
Example rewind_full_queue :
  current_avail (rewind_avail 0 (set_current 4 queue4)) = 4.
Proof. reflexivity. Qed.

#[local] Existing Instance round64.

Lemma setup_simple_layout_witness :
  exists q', setup_simple 256 0x40000 vq_off = Ret q' /\ q_avail q' = 0x41000 /\
    q_used q' = 0x41208 /\ q_used q' + used_size 256 = 0x40000 + total_size 256.
Proof.
  assert (Hlim : 0x40000 + total_size (2 ^ 8) + 4 <= 2 ^ 64) by (vm_compute; discriminate).
  destruct (setup_simple_layout 8 0x40000 vq_off ltac:(lia) ltac:(lia) eq_refl Hlim)
    as (q' & E & H). vm_compute in E. injection E as <-.
  eexists. split; [reflexivity|]. split; [reflexivity|]. split; [reflexivity|]. apply H.
Defined.
End Queue_example.
