(* ===== verification/RequestProc.v ===== *)
(** * Buffers and descriptor chains

    [pkg/l4virtio/include/server/virtio]: [Data_buffer] and [Request_processor],
    which walks the chain of descriptors of a request, with the [load_desc]
    functions of [Driver_mem_list_t] ([server/l4virtio]) that check and translate
    the addresses found there.  Memory is the address space of the device, byte
    by byte; the descriptor table of a queue is kept apart as a list, the device
    never writes to it. *)

From S2P Require Import Prelude L4Round DriverMem Virtqueue.

(** ** Memory *)

Definition memory : Type := Z -> Z.

Definition mem_rd (m : memory) (a n : Z) : bytes := (fun i => m (a + i)) <$> seqZ 0 n.

Definition mem_wr (a : Z) (l : bytes) (m : memory) : memory := fun x =>
  if (a <=? x) && (x <? a + zlen l) then List.nth (Z.to_nat (x - a)) l 0 else m x.

Definition memcpy (dst src n : Z) (m : memory) : memory := mem_wr dst (mem_rd m src n) m.

(** ** [Data_buffer] *)

Record buffer := { pos : Z; left : Z }.

Definition buf_done (b : buffer) : bool := left b =? 0.

Definition UINT_MAX : Z := 2 ^ 32 - 1.

Definition advance (n : Z) (b : buffer) : buffer := {| pos := pos b + n; left := left b -[32] n |}.

(** The buffer itself, the destination, the memory and the number of bytes copied. *)
Definition copy_to (b dst : buffer) (max : Z) (m : memory) : buffer * buffer * memory * Z :=
  let n := Z.min (Z.min (left b) (left dst)) max in
  (advance n b, advance n dst, memcpy (pos dst) (pos b) n m, n).

Definition skip (n : Z) (b : buffer) : buffer * Z :=
  let k := Z.min (left b) n in (advance k b, k).

(** ** [Request_processor] *)

(** [Bad_descriptor::Error]. *)
Inductive bad := Bad_address | Bad_rights | Bad_flags | Bad_next | Bad_size.

#[global] Instance bad_eq_dec : EqDecision bad.
Proof. solve_decision. Defined.

(** A descriptor table: the one of the queue, or one in memory. *)
Inductive dtable := Ring_table (ds : list desc) | Mem_table (a : Z).

(** The sixteen bytes of a descriptor in memory. *)
Definition desc_at (m : memory) (a : Z) : desc :=
  {| d_addr := le_combine (mem_rd m a 8); d_len := le_combine (mem_rd m (a + 8) 4);
     d_flags := le_combine (mem_rd m (a + 12) 2); d_next := le_combine (mem_rd m (a + 14) 2) |}.

Definition read_desc (t : dtable) (i : Z) (m : memory) : run desc :=
  match t with
  | Ring_table ds => load i ds
  | Mem_table a => Ret (desc_at m (a + 16 * i))
  end.

Record req_proc := { rp_table : dtable; rp_current : desc; rp_num : Z }.

(** [load_desc] for an indirect table. *)
Definition load_desc_table (d : desc) (l : mem_list) : bad + dtable :=
  match ml_find (d_addr d) (d_len d) l with
  | None => inl Bad_address
  | Some (_, r) => inr (Mem_table (local r (d_addr d)))
  end.

(** [load_desc] for a [Buffer]. *)
Definition load_desc_buf (d : desc) (l : mem_list) : bad + buffer :=
  match ml_find (d_addr d) (d_len d) l with
  | None => inl Bad_address
  | Some (_, r) => inr {| pos := local r (d_addr d); left := d_len d |}
  end.

(** Exceptions of a computation in [run]. *)
Abbreviation throws A := (run (bad + A)).

Definition rethrow {A} (o : bad + A) : throws A := Ret o.

(** Continue unless an exception was thrown. *)
Definition tbind {A B} (m : throws A) (f : A -> throws B) : throws B :=
  m ≫= fun o => match o with inl e => Ret (inl e) | inr a => f a end.

Notation "x '<-?' m ; f" := (tbind m (fun x => f))
  (at level 100, m at level 90, f at level 200, right associativity).
(** [start] for the request with head descriptor [head] of a queue with table [ds]
    and [num] entries. *)
Definition rp_start (l : mem_list) (ds : list desc) (num head : Z) (m : memory)
    : throws (req_proc * buffer) :=
  cur ← load head ds;
  rp <-? (if flag_indirect cur then
            t <-? rethrow (load_desc_table cur l);
            let n := u16 (d_len cur / 16) in
            if n =? 0 then Ret (inl Bad_size)
            else c ← read_desc t 0 m; Ret (inr {| rp_table := t; rp_current := c; rp_num := n |})
          else Ret (inr {| rp_table := Ring_table ds; rp_current := cur; rp_num := u16 num |}));
  b <-? rethrow (load_desc_buf (rp_current rp) l);
  Ret (inr (rp, b)).

Definition has_more (rp : req_proc) : bool := flag_next (rp_current rp).

(** [next]: [None] when the chain has ended. *)
Definition rp_next (l : mem_list) (rp : req_proc) (m : memory) : throws (option (req_proc * buffer)) :=
  if negb (has_more rp) then Ret (inr None)
  else if rp_num rp <=? d_next (rp_current rp) then Ret (inl Bad_next)
  else
    c ← read_desc (rp_table rp) (d_next (rp_current rp)) m;
    let rp := {| rp_table := rp_table rp; rp_current := c; rp_num := rp_num rp |} in
    b <-? rethrow (load_desc_buf c l);
    Ret (inr (Some (rp, b))).

(** ** Safety of the walk *)

Definition desc_ok (d : desc) : Prop :=
  in_u 64 (d_addr d) /\ in_u 32 (d_len d) /\ in_u 16 (d_flags d) /\ in_u 16 (d_next d).

Definition mem_ok (m : memory) : Prop := forall a, byte_ok (m a).

(** [n] bytes at the local address [a] are memory the driver shares. *)
Definition shared (l : mem_list) (a n : Z) : Prop :=
  exists r, r ∈ live l /\ local_base r <= a /\ a + n <= local_base r + r_size r <= 2 ^ 64.

Definition buf_ok (l : mem_list) (b : buffer) : Prop := shared l (pos b) (left b) /\ in_u 32 (left b).

Definition rp_ok (l : mem_list) (rp : req_proc) : Prop :=
  desc_ok (rp_current rp) /\ in_u 16 (rp_num rp) /\
  match rp_table rp with
  | Ring_table ds => rp_num rp <= zlen ds /\ Forall desc_ok ds
  | Mem_table a => shared l a (16 * rp_num rp)
  end.

Lemma mem_rd_ok m a n : mem_ok m -> bytes_ok (mem_rd m a n).
Proof. intros H. apply Forall_fmap, list.Forall_forall. intros i _. apply H. Qed.

Lemma zlen_mem_rd m a n : 0 <= n -> zlen (mem_rd m a n) = n.
Proof. intros H. unfold zlen, mem_rd. rewrite length_fmap, length_seqZ. lia. Qed.

Lemma desc_at_ok m a : mem_ok m -> desc_ok (desc_at m a).
Proof.
  intros H. unfold desc_ok, desc_at, in_u. cbn [d_addr d_len d_flags d_next].
  pose proof (le_combine_bound _ (mem_rd_ok m a 8 H)) as H1.
  pose proof (le_combine_bound _ (mem_rd_ok m (a + 8) 4 H)) as H2.
  pose proof (le_combine_bound _ (mem_rd_ok m (a + 12) 2 H)) as H3.
  pose proof (le_combine_bound _ (mem_rd_ok m (a + 14) 2 H)) as H4.
  rewrite zlen_mem_rd in * by lia. done.
Qed.

Lemma find_shared l base size k r :
  ml_inv l -> in_u 64 base -> in_u 64 size -> ml_find base size l = Some (k, r) ->
  shared l (local r base) size.
Proof.
  intros Hl Hb Hs E. destruct (ml_find_live _ _ _ _ _ Hl Hb Hs E) as (_ & Hlv & Hc & Hm & Hz).
  destruct (contains_local r base size Hm Hb Hs Hz Hc) as (? & ? & _). exists r.
  split; [by eapply list_elem_of_lookup_2|]. destruct Hm as (_ & _ & ? & _). lia.
Qed.

Lemma desc_ok_len d : desc_ok d -> in_u 64 (d_len d).
Proof. unfold desc_ok, in_u. lia. Qed.

Lemma load_desc_buf_ok l d b :
  ml_inv l -> desc_ok d -> load_desc_buf d l = inr b -> buf_ok l b.
Proof.
  intros Hl Hd. pose proof (desc_ok_len d Hd) as Hn. destruct Hd as (Ha & Hlen & _).
  unfold load_desc_buf. destruct (ml_find _ _ _) as [[k r]|] eqn:E; [|done].
  intros [= <-]. split; [|done]. by eapply find_shared.
Qed.

Lemma load_desc_table_ok l d t :
  ml_inv l -> desc_ok d -> load_desc_table d l = inr t ->
  exists a, t = Mem_table a /\ shared l a (d_len d).
Proof.
  intros Hl Hd. pose proof (desc_ok_len d Hd) as Hn. destruct Hd as (Ha & Hlen & _).
  unfold load_desc_table. destruct (ml_find _ _ _) as [[k r]|] eqn:E; [|done].
  intros [= <-]. eexists. split; [done|]. by eapply find_shared.
Qed.

Lemma shared_shorter l a n n' : n' <= n -> shared l a n -> shared l a n'.
Proof. intros Hn (r & ? & ? & ?). exists r. repeat split; [done|lia..]. Qed.

(** Results of a step of the walk: no stray access. *)
Definition walk_ok (l : mem_list) (o : throws (option (req_proc * buffer))) : Prop :=
  match o with
  | Ret (inr (Some (rp, b))) => rp_ok l rp /\ buf_ok l b
  | Ret _ => True
  | _ => False
  end.

Lemma rp_next_safe l rp m : ml_inv l -> mem_ok m -> rp_ok l rp -> walk_ok l (rp_next l rp m).
Proof.
  intros Hl Hm (Hc & Hn & Ht). unfold rp_next. split_if; [done|]. split_if; [done|].
  destruct Hc as (_ & _ & _ & Hnx). unfold in_u in Hnx, Hn.
  assert (exists c, read_desc (rp_table rp) (d_next (rp_current rp)) m = Ret c /\ desc_ok c) as (c & -> & Hc).
  { destruct (rp_table rp) as [ds|a]; cbn.
    - destruct Ht as [Hlen Hall]. destruct (load_lt (d_next (rp_current rp)) ds) as (c & Hc & ->); [lia|].
      exists c. split; [done|]. rewrite list.Forall_forall in Hall. by eapply Hall, list_elem_of_lookup_2.
    - eexists. split; [done|]. by apply desc_at_ok. }
  cbn. destruct (load_desc_buf c l) as [e|b] eqn:E; [done|]. cbn. split; [|by eapply load_desc_buf_ok].
  split; [done|]. split; [done|]. done.
Qed.

Lemma rp_start_safe l ds num head m :
  ml_inv l -> mem_ok m -> Forall desc_ok ds -> zlen ds = num -> num <= 2 ^ 16 ->
  match rp_start l ds num head m with
  | Ret (inr (rp, b)) => rp_ok l rp /\ buf_ok l b
  | Ret (inl _) => True
  | Oob => ~ (0 <= head < num)
  | _ => False
  end.
Proof.
  intros Hl Hm Hds Hlen Hnum. unfold rp_start. destruct (decide (0 <= head < num)) as [Hh|Hh].
  2: { unfold load, or_oob. split_if; [|done]. unfold zlen in Hlen.
       rewrite lookup_ge_None_2 by lia. done. }
  destruct (load_lt head ds) as (c & Hc & ->); [lia|].
  assert (Hcok : desc_ok c) by (rewrite list.Forall_forall in Hds; by eapply Hds, list_elem_of_lookup_2).
  cbn [mbind run_bind]. destruct (flag_indirect c).
  - destruct (load_desc_table c l) as [e|t] eqn:Et; [done|].
    destruct (load_desc_table_ok l c t Hl Hcok Et) as (a & -> & Hsh). cbn. split_if; [done|]. cbn.
    destruct (load_desc_buf _ l) as [e|b] eqn:Eb; [done|]. cbn.
    assert (Hd : desc_ok (desc_at m (a + 16 * 0))) by (by apply desc_at_ok).
    split; [|by eapply load_desc_buf_ok]. split; [done|]. split; [by apply uwrap_range|].
    cbn. eapply shared_shorter; [|exact Hsh]. pose proof Hcok as (_ & Hl0 & _). unfold in_u in Hl0.
    pose proof (uwrap_le 16 (d_len c / 16)). pose proof (Z.div_pos (d_len c) 16).
    pose proof (Z.mul_div_le (d_len c) 16). lia.
  - cbn. destruct (load_desc_buf c l) as [e|b] eqn:Eb; [done|]. cbn.
    split; [|by eapply load_desc_buf_ok]. split; [done|]. split; [by apply uwrap_range|]. cbn.
    split; [|done]. etransitivity; [apply uwrap_le; lia|lia].
Qed.

(** The states a walk can be in; the driver may change memory, and with it
    indirect tables, between the steps. *)
Inductive walk (l : mem_list) (ds : list desc) (head : Z) : req_proc -> buffer -> Prop :=
  | walk_start m rp b :
      mem_ok m -> rp_start l ds (zlen ds) head m = Ret (inr (rp, b)) -> walk l ds head rp b
  | walk_next m rp b rp' b' :
      walk l ds head rp b -> mem_ok m -> rp_next l rp m = Ret (inr (Some (rp', b'))) ->
      walk l ds head rp' b'.

Lemma walk_inv l ds head rp b :
  ml_inv l -> Forall desc_ok ds -> zlen ds <= 2 ^ 16 -> walk l ds head rp b ->
  rp_ok l rp /\ buf_ok l b.
Proof.
  intros Hl Hds Hn. induction 1 as [m rp b Hm E|m rp b rp' b' _ [IH _] Hm E].
  - pose proof (rp_start_safe l ds (zlen ds) head m Hl Hm Hds eq_refl Hn) as H. by rewrite E in H.
  - pose proof (rp_next_safe l rp m Hl Hm IH) as H. by rewrite E in H.
Qed.

(** C12. Walking a descriptor chain is safe against any driver: whatever the
    descriptors contain, indirect tables included, and however the driver changes
    its memory while the device walks, every buffer the device is given lies
    inside of memory the driver has registered, and the next step reads its
    descriptor from the queue's table or from registered memory, or reports a bad
    descriptor. *)
Theorem descriptor_walk_safe `{!L4_round 64, !Ds_env, !Ds_env_laws} l ds head rp b m :
  ml_reach l -> Forall desc_ok ds -> zlen ds <= 2 ^ 16 -> mem_ok m -> walk l ds head rp b ->
  shared l (pos b) (left b) /\
  match rp_next l rp m with
  | Ret (inr (Some (rp', b'))) => shared l (pos b') (left b') /\ walk l ds head rp' b'
  | Ret (inr None) => has_more rp = false
  | Ret (inl e) => e = Bad_next \/ e = Bad_address
  | _ => False
  end.
Proof.
  intros Hl Hds Hn Hm Hw. apply ml_reach_inv in Hl. destruct (walk_inv _ _ _ _ _ Hl Hds Hn Hw) as [Hrp [Hb _]].
  split; [done|]. pose proof (rp_next_safe l rp m Hl Hm Hrp) as Hok.
  destruct (rp_next l rp m) as [[e|[[rp' b']|]]| | | | |] eqn:E; try done.
  - unfold rp_next in E. split_ifs; simplify_eq; [by left|]. right.
    apply run_bind_Ret in E as (c & _ & E). unfold load_desc_buf in E.
    by destruct (ml_find _ _ _) as [[? ?]|]; simplify_eq/=.
  - destruct Hok as [_ [Hs _]]. split; [done|]. by eapply walk_next.
  - unfold rp_next in E. destruct (has_more rp); [|done]. cbn in E. split_if; [done|].
    apply run_bind_Ret in E as (c & _ & E). unfold load_desc_buf in E.
    by destruct (ml_find _ _ _) as [[? ?]|]; simplify_eq/=.
Qed.

(** The head of a request is taken from the available ring without a check:
    when the driver puts an index there that is not below the queue size, the
    device accepts the request and reads its first descriptor from outside of the
    descriptor table. *)
Theorem request_head_unchecked l m r q h :
  idx_mask q + 1 = zlen (vr_desc r) -> in_u 16 (current_avail q) -> 0 <= idx_mask q ->
  desc_avail q r = true ->
  avail_ring r !! Z.to_nat (Z.land (current_avail q) (idx_mask q)) = Some h ->
  zlen (vr_desc r) <= h ->
  next_avail q r = Ret (set_current (current_avail q +[16] 1) q, Some h) /\
  rp_start l (vr_desc r) (vq_num q) h m = Oob.
Proof.
  intros Hm Hc Hmask Ha Hs Hh. unfold next_avail. rewrite Ha, (load_ok _ h); [|apply Z.land_nonneg; lia|done].
  split; [done|]. unfold rp_start, load. pose proof (zlen_nonneg (vr_desc r)).
  replace (0 <=? h) with true by lia. unfold zlen in Hh. rewrite lookup_ge_None_2 by lia. done.
Qed.

Module Walk_example.
Import Mem_example.
#[local] Existing Instances round64 env env_laws.

Definition no_mem : memory := fun _ => 0.

(** A chain of two buffers, the second one ends the chain; the third descriptor
    is its own successor. *)
Definition descs : list desc :=
  [{| d_addr := 0x40000100; d_len := 64; d_flags := 1; d_next := 1 |};
   {| d_addr := 0x80000000; d_len := 32; d_flags := 0; d_next := 0 |};
   {| d_addr := 0x40000000; d_len := 0; d_flags := 1; d_next := 2 |};
   {| d_addr := 0x50000000; d_len := 8; d_flags := 0; d_next := 0 |}].

Lemma descs_ok : Forall desc_ok descs.
Proof. unfold descs. repeat (constructor; [by_eval|]). constructor. Qed.

Definition rp0 : req_proc :=
  {| rp_table := Ring_table descs; rp_current := List.nth 0 descs Queue_example.d0; rp_num := 4 |}.

Lemma descriptor_walk_safe_witness :
  let b := {| pos := 0x10200100; left := 64 |} in
  shared two (pos b) (left b) /\
  exists rp' b', rp_next two rp0 no_mem = Ret (inr (Some (rp', b'))) /\ shared two (pos b') (left b').
Proof.
  assert (Hw : walk two descs 0 rp0 {| pos := 0x10200100; left := 64 |}).
  { apply (walk_start two descs 0 no_mem); [intros a; by_eval|]. reflexivity. }
  destruct (descriptor_walk_safe two descs 0 rp0 _ no_mem two_reach descs_ok ltac:(by_eval)
              ltac:(intros a; by_eval) Hw) as [H1 H2].
  split; [exact H1|]. eexists _, _. split; [reflexivity|]. exact (proj1 H2).
Defined.

(** Descriptor 2 yields an empty buffer and itself as the next descriptor. *)
Definition rp_loop : req_proc :=
  {| rp_table := Ring_table descs; rp_current := List.nth 2 descs Queue_example.d0; rp_num := 4 |}.

Example self_loop m :
  rp_next two rp_loop m = Ret (inr (Some (rp_loop, {| pos := 0x10200000; left := 0 |}))).
Proof. reflexivity. Qed.

Lemma request_head_unchecked_witness :
  let r := set_avail 1 [700; 0; 0; 0] Queue_example.ring4 in
  next_avail Queue_example.queue4 r = Ret (set_current 1 Queue_example.queue4, Some 700) /\
  rp_start two (vr_desc r) 4 700 no_mem = Oob.
Proof.
  apply (request_head_unchecked two no_mem (set_avail 1 [700; 0; 0; 0] Queue_example.ring4)
           Queue_example.queue4 700); by_eval.
Defined.
End Walk_example.
