(* ===== verification/VirtioDev.v ===== *)
(** * The device side of the virtio transport

    [pkg/l4virtio/include/server/l4virtio] and [include/virtio.h]: the
    configuration page of a device ([Dev_config]) and the protocol of status
    writes, queue configuration and memory registration ([Device_t]).  What a
    concrete device contributes, the virtual methods, is the class [Device_cb].
    The driver can write to the whole configuration page at any time; the device
    keeps its own copy of the status. *)

From S2P Require Import Prelude L4Round DriverMem Virtqueue RequestProc.

(** ** Feature bitmaps *)

(** The maps have six words; the functions accept eight. *)
Definition l4virtio_set_feature (feat : Z) (map : list Z) : run (list Z) :=
  let idx := feat / 32 in
  if idx <? 8 then w ← load idx map; store idx (Z.setbit w (feat mod 32)) map else Ret map.

Definition l4virtio_clear_feature (feat : Z) (map : list Z) : run (list Z) :=
  let idx := feat / 32 in
  if idx <? 8 then w ← load idx map; store idx (Z.clearbit w (feat mod 32)) map else Ret map.

Definition l4virtio_get_feature (feat : Z) (map : list Z) : run bool :=
  let idx := feat / 32 in
  if 8 <=? idx then Ret false else w ← load idx map; Ret (Z.testbit w (feat mod 32)).

Definition FEATURE_VERSION_1 : Z := 32.
Definition FEATURE_CMD_CONFIG : Z := 160.

(** ** [Dev_config] *)

(** The members of [l4virtio_config_hdr_t] the device uses. *)
Record config_hdr := {
  h_magic : Z;
  h_version : Z;
  h_device : Z;
  h_vendor : Z;
  h_num_queues : Z;
  h_queues_offset : Z;
  h_irq_status : Z;
  h_status : Z;
  h_cfg_device_notify_index : Z;
  h_cmd : Z;
  h_dev_features : list Z;
  h_driver_features : list Z;
  h_generation : Z;
}.

(** [l4virtio_config_queue_t]. *)
Record config_queue := {
  qc_num_max : Z;
  qc_num : Z;
  qc_ready : Z;
  qc_driver_notify_index : Z;
  qc_desc_addr : Z;
  qc_avail_addr : Z;
  qc_used_addr : Z;
  qc_device_notify_index : Z;
}.

Definition sizeof_config_hdr : Z := 0x100.
Definition sizeof_config_queue : Z := 40.

(** [Dev_config]; [c_hdr] and [c_qcs] are the shared page. *)
Record dev_config := {
  c_vendor : Z;
  c_device : Z;
  c_qoffset : Z;
  c_nqueues : Z;
  c_host_features : list Z;
  c_status : Z;
  c_hdr : config_hdr;
  c_qcs : list config_queue;
}.

Definition set_hdr (h : config_hdr) (c : dev_config) : dev_config :=
  {| c_vendor := c_vendor c; c_device := c_device c; c_qoffset := c_qoffset c;
     c_nqueues := c_nqueues c; c_host_features := c_host_features c; c_status := c_status c;
     c_hdr := h; c_qcs := c_qcs c |}.

Definition hdr_status (s : Z) (h : config_hdr) : config_hdr :=
  {| h_magic := h_magic h; h_version := h_version h; h_device := h_device h;
     h_vendor := h_vendor h; h_num_queues := h_num_queues h;
     h_queues_offset := h_queues_offset h; h_irq_status := h_irq_status h; h_status := s;
     h_cfg_device_notify_index := h_cfg_device_notify_index h; h_cmd := h_cmd h;
     h_dev_features := h_dev_features h; h_driver_features := h_driver_features h;
     h_generation := h_generation h |}.

Definition hdr_irq_cmd (irq cmd : Z) (h : config_hdr) : config_hdr :=
  {| h_magic := h_magic h; h_version := h_version h; h_device := h_device h;
     h_vendor := h_vendor h; h_num_queues := h_num_queues h;
     h_queues_offset := h_queues_offset h; h_irq_status := irq; h_status := h_status h;
     h_cfg_device_notify_index := h_cfg_device_notify_index h; h_cmd := cmd;
     h_dev_features := h_dev_features h; h_driver_features := h_driver_features h;
     h_generation := h_generation h |}.

Definition hdr_generation (g : Z) (h : config_hdr) : config_hdr :=
  {| h_magic := h_magic h; h_version := h_version h; h_device := h_device h;
     h_vendor := h_vendor h; h_num_queues := h_num_queues h;
     h_queues_offset := h_queues_offset h; h_irq_status := h_irq_status h;
     h_status := h_status h; h_cfg_device_notify_index := h_cfg_device_notify_index h;
     h_cmd := h_cmd h; h_dev_features := h_dev_features h;
     h_driver_features := h_driver_features h; h_generation := g |}.

(** [align] rounds the size of the device configuration up to 16 bytes. *)
Definition cfg_align (x : Z) : Z := Z.land (x +[32] 0xf) (2 ^ 32 - 16).

Definition set_status (s : Z) (c : dev_config) : dev_config :=
  {| c_vendor := c_vendor c; c_device := c_device c; c_qoffset := c_qoffset c;
     c_nqueues := c_nqueues c; c_host_features := c_host_features c; c_status := s;
     c_hdr := hdr_status s (c_hdr c); c_qcs := c_qcs c |}.

Definition add_irq_status (s : Z) (c : dev_config) : dev_config :=
  set_hdr (hdr_irq_cmd (Z.lor (h_irq_status (c_hdr c)) s) (h_cmd (c_hdr c)) (c_hdr c)) c.

Definition reset_cmd (c : dev_config) : dev_config :=
  set_hdr (hdr_irq_cmd (h_irq_status (c_hdr c)) 0 (c_hdr c)) c.

Definition set_device_needs_reset (c : dev_config) : dev_config :=
  set_status (Z.setbit (c_status c) 6) c.

Definition L4VIRTIO_MAGIC : Z := 0x74726976.

Definition reset_hdr (inc_generation : bool) (c : dev_config) : dev_config :=
  let h := c_hdr c in
  set_hdr
    {| h_magic := L4VIRTIO_MAGIC; h_version := 2; h_device := c_device c; h_vendor := c_vendor c;
       h_num_queues := c_nqueues c; h_queues_offset := c_qoffset c; h_irq_status := 0;
       h_status := 0; h_cfg_device_notify_index := h_cfg_device_notify_index h;
       h_cmd := h_cmd h; h_dev_features := c_host_features c;
       h_driver_features := h_driver_features h;
       h_generation := if inc_generation then h_generation h +[32] 1 else h_generation h |} c.

Definition qconfig (index : Z) (c : dev_config) : option config_queue :=
  if c_qoffset c <? sizeof_config_hdr then None
  else if c_nqueues c <=? index then None
  else c_qcs c !! Z.to_nat index.

Definition reset_queue (index num_max : Z) (inc_generation : bool) (notify : Z) (c : dev_config)
    : dev_config * bool :=
  match qconfig index c with
  | None => (c, false)
  | Some qc =>
      let qc := {| qc_num_max := u16 num_max; qc_num := 0; qc_ready := 0;
                   qc_driver_notify_index := qc_driver_notify_index qc;
                   qc_desc_addr := qc_desc_addr qc; qc_avail_addr := qc_avail_addr qc;
                   qc_used_addr := qc_used_addr qc; qc_device_notify_index := u16 notify |} in
      let h := c_hdr c in
      ({| c_vendor := c_vendor c; c_device := c_device c; c_qoffset := c_qoffset c;
          c_nqueues := c_nqueues c; c_host_features := c_host_features c;
          c_status := c_status c;
          c_hdr := if inc_generation then hdr_generation (h_generation h +[32] 1) h else h;
          c_qcs := <[Z.to_nat index := qc]> (c_qcs c) |}, true)
  end.

Section Config.
Context `{!L4_round 64}.

Definition change_queue_config (num_queues : Z) (c : dev_config) : dev_config * bool :=
  if l4_pagesize <? sizeof_config_queue * num_queues + c_qoffset c then (c, false)
  else (reset_hdr true
          {| c_vendor := c_vendor c; c_device := c_device c; c_qoffset := c_qoffset c;
             c_nqueues := num_queues; c_host_features := c_host_features c;
             c_status := c_status c; c_hdr := c_hdr c; c_qcs := c_qcs c |}, true).

(** The constructor on a page with the contents [h] and [qcs]. *)
Definition config_new (vendor device cfg_size num_queues : Z) (h : config_hdr)
    (qcs : list config_queue) : run dev_config :=
  let qoffset := 0x100 +[32] cfg_align cfg_size in
  let fits := sizeof_config_queue * num_queues + qoffset <=? l4_pagesize in
  let h := {| h_magic := h_magic h; h_version := h_version h; h_device := h_device h;
              h_vendor := h_vendor h; h_num_queues := h_num_queues h;
              h_queues_offset := h_queues_offset h; h_irq_status := h_irq_status h;
              h_status := h_status h; h_cfg_device_notify_index := h_cfg_device_notify_index h;
              h_cmd := h_cmd h; h_dev_features := h_dev_features h;
              h_driver_features := replicate 6 0; h_generation := 0 |} in
  fs ← l4virtio_set_feature FEATURE_VERSION_1 (replicate 6 0);
  mret (reset_hdr false
          {| c_vendor := vendor; c_device := device;
             c_qoffset := if fits then qoffset else 0;
             c_nqueues := if fits then num_queues else 0;
             c_host_features := fs; c_status := 0; c_hdr := h; c_qcs := qcs |}).
End Config.

(** ** [Device_t] *)

Record device (D : Type) := { dv_cfg : dev_config; dv_mem : mem_list; dv_priv : D }.
Arguments Build_device {D} _ _ _.
Arguments dv_cfg {D} _.
Arguments dv_mem {D} _.
Arguments dv_priv {D} _.

Definition on_cfg {D} (f : dev_config -> dev_config) (d : device D) : device D :=
  Build_device (f (dv_cfg d)) (dv_mem d) (dv_priv d).

(** The virtual methods. *)
Class Device_cb (D : Type) := {
  cb_reset : device D -> device D;
  cb_check_features : device D -> device D * bool;
  cb_check_queues : device D -> device D * bool;
  cb_reconfig_queue : Z -> device D -> device D * l4_ret;
  cb_cfg_changed : Z -> device D -> device D;
  cb_trigger_config_irq : device D -> device D;
}.

(** [Dev_status]. *)
Definition acked (s : Z) : bool := Z.testbit s 0.
Definition driver (s : Z) : bool := Z.testbit s 1.
Definition driver_ok (s : Z) : bool := Z.testbit s 2.
Definition features_ok (s : Z) : bool := Z.testbit s 3.
Definition fail_state (s : Z) : Z := Z.land (Z.shiftr s 6) 3.
Definition set_fail_state (f s : Z) : Z := Z.lor (Z.land s 0x3f) (Z.shiftl f 6).
Definition running (s : Z) : bool := s =? 0xf.

Definition CMD_SET_STATUS : Z := 0x01000000.
Definition CMD_CFG_QUEUE : Z := 0x02000000.
Definition CMD_CFG_CHANGED : Z := 0x04000000.
Definition CMD_MASK : Z := 0xff000000.

Section Device.
Context {D : Type} `{!Device_cb D}.

(** Some word of the first bitmap has a bit that is missing in the second. *)
Definition unoffered (guest host : list Z) : bool :=
  existsb (fun p => negb (Z.land (fst p) (Z.lnot (snd p)) =? 0)) (zip guest host).

Definition check_features_internal (d : device D) : run (device D * bool) :=
  let guest := h_driver_features (c_hdr (dv_cfg d)) in
  v1 ← l4virtio_get_feature FEATURE_VERSION_1 guest;
  if negb v1 then mret (d, false)
  else if unoffered guest (c_host_features (dv_cfg d)) then mret (d, false)
  else mret (cb_check_features d).

Definition check_and_update_status (status : Z) (d : device D) : run (device D) :=
  let current := c_status (dv_cfg d) in
  let write s d := on_cfg (set_status s) d in
  if status =? 0 then mret (write status d)
  else if negb (fail_state current =? 0) || negb (fail_state status =? 0) then
    if fail_state current =? fail_state status then mret d
    else mret (write (set_fail_state (Z.lor (fail_state current) (fail_state status)) current) d)
  else if (negb (acked status) && driver status)
          || (negb (driver status) && features_ok status)
          || (negb (features_ok status) && driver_ok status)
  then mret (write (Z.setbit current 6) d)
  else
    '(d, status) ←
      (if features_ok status && negb (driver_ok status) then
         '(d, ok) ← check_features_internal d;
         mret (d, if ok : bool then status else Z.clearbit status 3)
       else mret (d, status));
    if running status then
      let '(d, ok) := cb_check_queues d in
      if ok then mret (write status d) else mret (write (Z.setbit current 6) d)
    else mret (write status d).

(** [_set_status] with the 32-bit value of the driver; the status is its low byte. *)
Definition op_set_status (new_status : Z) (d : device D) : run (device D) :=
  let d := if new_status =? 0 then on_cfg (reset_hdr true) (cb_reset d) else d in
  check_and_update_status (u8 new_status) d.

Definition op_config_queue (queue : Z) (d : device D) : device D * l4_ret :=
  let s := c_status (dv_cfg d) in
  if negb (fail_state s =? 0) || negb (acked s) || negb (driver s) then (d, Err EIO)
  else cb_reconfig_queue queue d.

Definition handle_mem_cmd_write (d : device D) : run (device D * bool) :=
  let cmd := h_cmd (c_hdr (dv_cfg d)) in
  let op := Z.land cmd CMD_MASK in
  let arg := Z.land cmd (Z.lnot CMD_MASK) in
  if op =? 0 then mret (d, false)
  else
    d ← (if op =? CMD_SET_STATUS then op_set_status arg d
         else if op =? CMD_CFG_QUEUE then mret (fst (cb_reconfig_queue arg d))
         else if op =? CMD_CFG_CHANGED then mret (cb_cfg_changed arg d)
         else mret d);
    mret (on_cfg reset_cmd d, true).

Definition device_error (d : device D) : device D :=
  let d := on_cfg set_device_needs_reset (cb_reset d) in
  if driver_ok (c_status (dv_cfg d)) then cb_trigger_config_irq d else d.

(** [setup_queue] on queue [q] with configuration slot [qn]. *)
Definition setup_queue (q : vqueue) (qn num_max : Z) (d : device D) : run (vqueue * bool) :=
  match qconfig qn (dv_cfg d) with
  | None => mret (q, false)
  | Some qc =>
      if qc_ready qc =? 0 then mret (disable q, true)
      else
        let num := qc_num qc in
        let desc := qc_desc_addr qc in
        let avail := qc_avail_addr qc in
        let used := qc_used_addr qc in
        if (num =? 0) || (num_max <? num) then mret (q, false)
        else if negb (Z.land num (num -[32] 1) =? 0) then mret (q, false)
        else if negb (Z.land desc 0xf =? 0) then mret (q, false)
        else if negb (Z.land avail 0x1 =? 0) then mret (q, false)
        else if negb (Z.land used 0x3 =? 0) then mret (q, false)
        else
          match ml_find desc (desc_size num) (dv_mem d) with
          | None => mret (q, false)
          | Some (_, di) =>
              match ml_find avail (avail_size num) (dv_mem d) with
              | None => mret (q, false)
              | Some (_, ai) =>
                  match ml_find used (used_size num) (dv_mem d) with
                  | None => mret (q, false)
                  | Some (_, ui) =>
                      if negb (r_rw ui) then mret (q, false)
                      else q ← setup num (local di desc) (local ai avail) (local ui used) q;
                           mret (q, true)
                  end
              end
          end
  end.

Definition check_n_init_shm `{!L4_round 64, !Ds_env} (ds base size offset : Z) (d : device D)
    : errno + device D :=
  if full (dv_mem d) then inl ENOMEM
  else match ml_add base size offset ds (dv_mem d) with
       | inl e => inl e
       | inr (l, _) => inr (Build_device (dv_cfg d) l (dv_priv d))
       end.
End Device.

(** ** The status register *)

(** The bits are set in the order ACKNOWLEDGE, DRIVER, FEATURES_OK, DRIVER_OK. *)
Definition ordered (s : Z) : bool :=
  implb (driver s) (acked s) && implb (features_ok s) (driver s)
  && implb (driver_ok s) (features_ok s).

(** The decision of [check_and_update_status], given the answers of the device. *)
Definition status_next (current status : Z) (features queues : bool) : Z :=
  if status =? 0 then 0
  else if negb (fail_state current =? 0) || negb (fail_state status =? 0) then
    if fail_state current =? fail_state status then current
    else set_fail_state (Z.lor (fail_state current) (fail_state status)) current
  else if (negb (acked status) && driver status)
          || (negb (driver status) && features_ok status)
          || (negb (features_ok status) && driver_ok status)
  then Z.setbit current 6
  else
    let status :=
      if features_ok status && negb (driver_ok status) && negb features
      then Z.clearbit status 3 else status in
    if running status && negb queues then Z.setbit current 6 else status.

Definition in_byte (s : Z) : bool := (0 <=? s) && (s <? 256).

Lemma in_byte_iff s : in_byte s = true <-> in_u 8 s.
Proof. unfold in_byte, in_u. lia. Qed.

(** What the single updates do to a status byte [c]. *)
Lemma needs_reset_facts c :
  in_u 8 c ->
  let n := Z.setbit c 6 in
  in_u 8 n /\ (ordered c = true -> ordered n = true) /\ fail_state n <> 0 /\
  Z.land (fail_state n) (fail_state c) = fail_state c /\ Z.land n 0x3f = Z.land c 0x3f.
Proof.
  intros Hc. pose proof (all_bytes (fun c => let n := Z.setbit c 6 in
    in_byte n && implb (ordered c) (ordered n) && negb (fail_state n =? 0)
    && (Z.land (fail_state n) (fail_state c) =? fail_state c)
    && (Z.land n 0x3f =? Z.land c 0x3f)) ltac:(vm_compute; reflexivity) c Hc) as H.
  cbv zeta in H |- *. rewrite !andb_true_iff, in_byte_iff, negb_true_iff, implb_true_iff, !Z.eqb_eq,
    Z.eqb_neq in H. tauto.
Qed.

Lemma set_fail_facts c f :
  in_u 8 c -> 0 <= f < 4 ->
  let n := set_fail_state f c in
  in_u 8 n /\ (ordered c = true -> ordered n = true) /\ fail_state n = f /\
  Z.land n 0x3f = Z.land c 0x3f.
Proof.
  intros Hc Hf. pose proof (all_bytes (fun c => forallb (fun f => let n := set_fail_state f c in
    in_byte n && implb (ordered c) (ordered n) && (fail_state n =? f)
    && (Z.land n 0x3f =? Z.land c 0x3f)) [0; 1; 2; 3]) ltac:(vm_compute; reflexivity) c Hc) as H.
  rewrite forallb_forall in H. specialize (H f). cbv zeta in H |- *.
  rewrite !andb_true_iff, in_byte_iff, implb_true_iff, !Z.eqb_eq in H.
  assert (Hin : In f [0; 1; 2; 3]) by (cbn; lia). apply H in Hin. tauto.
Qed.

Lemma clear_features_facts s :
  in_u 8 s ->
  let n := Z.clearbit s 3 in
  in_u 8 n /\ fail_state n = fail_state s /\ running n = false /\
  (implb (driver s) (acked s) = true -> driver_ok s = false -> ordered n = true).
Proof.
  intros Hs. pose proof (all_bytes (fun s => let n := Z.clearbit s 3 in
    in_byte n && (fail_state n =? fail_state s) && negb (running n)
    && implb (implb (driver s) (acked s)) (implb (negb (driver_ok s)) (ordered n)))
    ltac:(vm_compute; reflexivity) s Hs) as H.
  cbv zeta in H |- *. rewrite !andb_true_iff, in_byte_iff, negb_true_iff in H.
  destruct H as [[[? ?%Z.eqb_eq] ?] H]. split; [done|]. split; [done|]. split; [done|].
  intros Hx Hy. by rewrite Hx, Hy in H.
Qed.

Lemma fail_state_range s : 0 <= fail_state s < 4.
Proof.
  unfold fail_state. change 3 with (Z.ones 2). rewrite Z.land_ones by lia.
  apply Z.mod_pos_bound. lia.
Qed.

Lemma lor_fail_state a b :
  let f := Z.lor (fail_state a) (fail_state b) in
  0 <= f < 4 /\ Z.land f (fail_state a) = fail_state a /\
  (fail_state a <> 0 \/ fail_state b <> 0 -> f <> 0).
Proof.
  pose proof (fail_state_range a) as Ha. pose proof (fail_state_range b) as Hb. cbv zeta.
  generalize dependent (fail_state a). generalize dependent (fail_state b). intros y Hy x Hx.
  assert (x = 0 \/ x = 1 \/ x = 2 \/ x = 3) as Ex by lia.
  assert (y = 0 \/ y = 1 \/ y = 2 \/ y = 3) as Ey by lia.
  destruct Ex as [->|[->|[->| ->]]], Ey as [->|[->|[->| ->]]];
    (split; [by_eval|]); (split; [reflexivity|]); intros [?|?]; done.
Qed.

Section Status.
Context (c s : Z) (f q : bool) (Hc : in_u 8 c) (Hs : in_u 8 s).

(** The status stays a byte with its bits in order. *)
Lemma status_next_ordered :
  ordered c = true -> in_u 8 (status_next c s f q) /\ ordered (status_next c s f q) = true.
Proof.
  intros Ho. destruct (needs_reset_facts c Hc) as (Hr1 & Hr2 & _).
  destruct (lor_fail_state c s) as [Hf _].
  destruct (set_fail_facts c _ Hc Hf) as (Hf1 & Hf2 & _).
  destruct (clear_features_facts s Hs) as (Hk1 & _ & _ & Hk2). unfold status_next.
  split_ifs; eauto; try done; try (split; [done|]); unfold ordered in *;
    destruct (acked s), (driver s), (features_ok s), (driver_ok s); try done; by apply Hk2.
Qed.

(** Unless the driver writes 0, failure bits stay, and a failed device changes
    nothing but these bits. *)
Lemma status_next_sticky :
  s <> 0 ->
  Z.land (fail_state (status_next c s f q)) (fail_state c) = fail_state c /\
  (fail_state c <> 0 -> Z.land (status_next c s f q) 0x3f = Z.land c 0x3f).
Proof.
  intros Hne. destruct (needs_reset_facts c Hc) as (_ & _ & _ & Hr1 & Hr2).
  destruct (lor_fail_state c s) as (Hf & Hf' & _).
  destruct (set_fail_facts c _ Hc Hf) as (_ & _ & Hf1 & Hf2). unfold status_next.
  replace (s =? 0) with false by lia.
  destruct (Z.eqb_spec (fail_state c) 0) as [E|E]; cbn [negb orb].
  - rewrite E. split; [by rewrite Z.land_0_r|done].
  - split_if; [by rewrite Z.land_diag|]. by rewrite Hf1.
Qed.

(** A device that was not failed and is not failed by the write ends with the
    status the driver wrote, FEATURES_OK cleared where the features were refused;
    all four bits and nothing else are set only after the queues were checked. *)
Lemma status_next_written :
  s <> 0 -> fail_state c = 0 -> fail_state (status_next c s f q) = 0 ->
  (status_next c s f q = s \/ f = false /\ status_next c s f q = Z.clearbit s 3) /\
  (running (status_next c s f q) = true -> q = true).
Proof.
  intros Hne E. destruct (needs_reset_facts c Hc) as (_ & _ & Hr & _).
  destruct (lor_fail_state c s) as (Hf & _ & Hf').
  destruct (set_fail_facts c _ Hc Hf) as (_ & _ & Hf1 & _).
  destruct (clear_features_facts s Hs) as (_ & _ & Hk & _). unfold status_next.
  replace (s =? 0) with false by lia. rewrite E, Z.eqb_refl. cbn [negb orb].
  destruct (Z.eqb_spec (fail_state s) 0) as [E2|E2]; cbn [negb].
  - split_ifs; intros Hn; try done; rewrite ?andb_true_iff, ?andb_false_iff, ?negb_true_iff, ?negb_false_iff in *;
      destr; try congruence; (split; [auto|]); intros; try congruence; intuition congruence.
  - replace (0 =? fail_state s) with false by lia. rewrite E in Hf1, Hf'. rewrite Hf1.
    intros Hn. exfalso. apply Hf'; [by right|done].
Qed.

(** The running status is reached only by writing it to a device that works. *)
Lemma status_next_running :
  s <> 0 -> running (status_next c s f q) = true -> fail_state c = 0 /\ s = 0xf.
Proof.
  intros Hne Hr. unfold running in Hr. apply Z.eqb_eq in Hr.
  assert (Hf0 : fail_state (status_next c s f q) = 0) by (by rewrite Hr).
  destruct status_next_sticky as [H1 _]; [done|]. rewrite Hf0 in H1. cbn in H1.
  destruct status_next_written as [[H2|[_ H2]] _]; [done..| |].
  - split; [done|congruence].
  - exfalso. destruct (clear_features_facts s Hs) as (_ & _ & Hk & _). rewrite <- H2, Hr in Hk. done.
Qed.
End Status.

(** ** The protocol *)

Definition words_ok (l : list Z) : Prop := length l = 6%nat /\ Forall (in_u 32) l.

Definition qc_typed (q : config_queue) : Prop :=
  in_u 16 (qc_num_max q) /\ in_u 16 (qc_num q) /\ in_u 16 (qc_ready q) /\
  in_u 16 (qc_driver_notify_index q) /\ in_u 64 (qc_desc_addr q) /\ in_u 64 (qc_avail_addr q) /\
  in_u 64 (qc_used_addr q) /\ in_u 16 (qc_device_notify_index q).

Definition hdr_typed (h : config_hdr) : Prop :=
  in_u 32 (h_irq_status h) /\ in_u 32 (h_status h) /\ in_u 32 (h_cmd h) /\
  in_u 32 (h_generation h) /\ words_ok (h_dev_features h) /\ words_ok (h_driver_features h).

(** The values fit the members that hold them. *)
Definition cfg_typed (c : dev_config) : Prop :=
  words_ok (c_host_features c) /\ in_u 8 (c_status c) /\ hdr_typed (c_hdr c) /\
  Forall qc_typed (c_qcs c).

(** What [Device_t] relies on in its virtual methods: they leave the status to it. *)
Class Device_cb_laws (D : Type) `{!Device_cb D} := {
  cb_reset_keeps d : c_status (dv_cfg (cb_reset d)) = c_status (dv_cfg d);
  cb_features_keeps d : c_status (dv_cfg (fst (cb_check_features d))) = c_status (dv_cfg d);
  cb_queues_keeps d : c_status (dv_cfg (fst (cb_check_queues d))) = c_status (dv_cfg d);
  cb_reconfig_keeps q d : c_status (dv_cfg (fst (cb_reconfig_queue q d))) = c_status (dv_cfg d);
  cb_changed_keeps r d : c_status (dv_cfg (cb_cfg_changed r d)) = c_status (dv_cfg d);
  cb_irq_keeps d : c_status (dv_cfg (cb_trigger_config_irq d)) = c_status (dv_cfg d);
  cb_reset_typed d : cfg_typed (dv_cfg d) -> cfg_typed (dv_cfg (cb_reset d));
  cb_features_typed d : cfg_typed (dv_cfg d) -> cfg_typed (dv_cfg (fst (cb_check_features d)));
  cb_queues_typed d : cfg_typed (dv_cfg d) -> cfg_typed (dv_cfg (fst (cb_check_queues d)));
  cb_reconfig_typed q d :
    cfg_typed (dv_cfg d) -> cfg_typed (dv_cfg (fst (cb_reconfig_queue q d)));
  cb_changed_typed r d : cfg_typed (dv_cfg d) -> cfg_typed (dv_cfg (cb_cfg_changed r d));
  cb_irq_typed d : cfg_typed (dv_cfg d) -> cfg_typed (dv_cfg (cb_trigger_config_irq d));
}.

(** Take a well-typed configuration apart and show another one to be. *)
Ltac typed :=
  repeat match goal with
  | H : cfg_typed _ |- _ => unfold cfg_typed, hdr_typed in H
  | H : _ /\ _ |- _ => destruct H
  | |- cfg_typed _ => unfold cfg_typed, hdr_typed; cbn
  | |- _ /\ _ => split
  end; try done.

Lemma in_u_byte_word s : in_u 8 s -> in_u 32 s.
Proof. unfold in_u. lia. Qed.

Lemma set_status_typed s c : in_u 8 s -> cfg_typed c -> cfg_typed (set_status s c).
Proof. intros Hs Ht. typed. by apply in_u_byte_word. Qed.

Lemma reset_hdr_typed b c : cfg_typed c -> cfg_typed (reset_hdr b c).
Proof. intros Ht. typed. destruct b; [by apply uwrap_range|done]. Qed.

Lemma reset_cmd_typed c : cfg_typed c -> cfg_typed (reset_cmd c).
Proof. intros Ht. typed. Qed.

Section Protocol.
Context {D : Type} `{!Device_cb D, !Device_cb_laws D}.

Lemma check_features_internal_ok d :
  cfg_typed (dv_cfg d) ->
  exists d' ok, check_features_internal d = Ret (d', ok) /\
    c_status (dv_cfg d') = c_status (dv_cfg d) /\ cfg_typed (dv_cfg d').
Proof.
  intros Ht. pose proof Ht as (_ & _ & (_ & _ & _ & _ & _ & [Hlen _]) & _).
  unfold check_features_internal, l4virtio_get_feature, FEATURE_VERSION_1.
  change (32 / 32) with 1. change (8 <=? 1) with false. cbv iota.
  destruct (load_lt 1 (h_driver_features (c_hdr (dv_cfg d)))) as (w & _ & ->); [unfold zlen; lia|].
  cbn. split_if; [by eexists _, _|]. split_if; [by eexists _, _|].
  destruct (cb_check_features d) as [d' ok] eqn:E. exists d', ok. split; [done|].
  pose proof (cb_features_keeps d) as Hk. pose proof (cb_features_typed d Ht) as Hty.
  by rewrite E in Hk, Hty.
Qed.

(** A status write always completes and decides by [status_next]. *)
Lemma check_and_update_status_spec s d :
  in_u 8 s -> cfg_typed (dv_cfg d) ->
  exists d' f q, check_and_update_status s d = Ret d' /\
    c_status (dv_cfg d') = status_next (c_status (dv_cfg d)) s f q /\
    (in_u 8 (c_status (dv_cfg d')) -> cfg_typed (dv_cfg d')).
Proof.
  intros Hs Ht. unfold check_and_update_status, status_next.
  assert (Hw : forall x (d1 : device D), cfg_typed (dv_cfg d1) -> in_u 8 x ->
    cfg_typed (dv_cfg (on_cfg (set_status x) d1)))
    by (intros; by apply set_status_typed).
  set (c := c_status (dv_cfg d)).
  destruct (Z.eqb_spec s 0) as [->|_]; [eexists _, true, true; split; [done|]; split; [done|]; by apply Hw|].
  destruct (_ || _).
  { destruct (_ =? _); eexists _, true, true; (split; [done|]); split; try done; by apply Hw. }
  destruct (_ || _); [eexists _, true, true; split; [done|]; split; [done|]; by apply Hw|].
  assert (exists d1 f, cfg_typed (dv_cfg d1) /\
    (if features_ok s && negb (driver_ok s)
     then '(d1, ok) ← check_features_internal d; mret (d1, if ok : bool then s else Z.clearbit s 3)
     else mret (d, s))
    = Ret (d1, if features_ok s && negb (driver_ok s) && negb f then Z.clearbit s 3 else s))
    as (d1 & f & Hd1 & ->).
  { destruct (features_ok s && negb (driver_ok s)); [|by exists d, true].
    destruct (check_features_internal_ok d Ht) as (d1 & ok & -> & _ & Hd1).
    exists d1, ok. by destruct ok. }
  cbn [mbind run_bind].
  set (n := if features_ok s && negb (driver_ok s) && negb f then Z.clearbit s 3 else s).
  destruct (running n) eqn:Er.
  - pose proof (cb_queues_typed d1 Hd1) as Hq. destruct (cb_check_queues d1) as [d2 q]. cbn in Hq.
    exists (on_cfg (set_status (if q : bool then n else Z.setbit c 6)) d2), f, q. fold n. rewrite Er.
    split; [by destruct q|]. split; [by destruct q|]. by apply Hw.
  - exists (on_cfg (set_status n) d1), f, true. fold n. rewrite Er.
    split; [done|]. split; [done|]. by apply Hw.
Qed.

(** Writing all four bits to a device that has not failed. *)
Lemma check_status_running d :
  fail_state (c_status (dv_cfg d)) = 0 ->
  check_and_update_status 0xf d =
  Ret (let '(d1, ok) := cb_check_queues d in
       on_cfg (set_status (if ok : bool then 0xf else Z.setbit (c_status (dv_cfg d)) 6)) d1).
Proof.
  intros E. unfold check_and_update_status. rewrite E. cbn. by destruct (cb_check_queues d) as [d1 []].
Qed.

(** Everything that can happen to a device: requests of the driver, internal
    errors, changes of the registered memory, and the driver writing to the shared
    page. *)
Inductive dev_reach : device D -> Prop :=
  | dr_new d : cfg_typed (dv_cfg d) -> c_status (dv_cfg d) = 0 -> dev_reach d
  | dr_set_status n d d' : dev_reach d -> op_set_status n d = Ret d' -> dev_reach d'
  | dr_config_queue n d : dev_reach d -> dev_reach (fst (op_config_queue n d))
  | dr_command d d' b : dev_reach d -> handle_mem_cmd_write d = Ret (d', b) -> dev_reach d'
  | dr_error d : dev_reach d -> dev_reach (device_error d)
  | dr_memory l d : dev_reach d -> dev_reach (Build_device (dv_cfg d) l (dv_priv d))
  | dr_page h qcs d :
      dev_reach d -> hdr_typed h -> Forall qc_typed qcs ->
      dev_reach (on_cfg (fun c =>
        {| c_vendor := c_vendor c; c_device := c_device c; c_qoffset := c_qoffset c;
           c_nqueues := c_nqueues c; c_host_features := c_host_features c;
           c_status := c_status c; c_hdr := h; c_qcs := qcs |}) d).

Definition dev_inv (d : device D) : Prop :=
  cfg_typed (dv_cfg d) /\ ordered (c_status (dv_cfg d)) = true.

Lemma op_set_status_inv n d :
  dev_inv d -> exists d', op_set_status n d = Ret d' /\ dev_inv d'.
Proof.
  intros [Ht Ho]. unfold op_set_status.
  set (d0 := if n =? 0 then on_cfg (reset_hdr true) (cb_reset d) else d).
  assert (H0 : cfg_typed (dv_cfg d0) /\ c_status (dv_cfg d0) = c_status (dv_cfg d)).
  { subst d0. destruct (n =? 0); [|done]. cbn. split; [|apply cb_reset_keeps].
    by apply reset_hdr_typed, cb_reset_typed. }
  destruct H0 as [Ht0 E0].
  destruct (check_and_update_status_spec (u8 n) d0) as (d' & f & q & E & Hn & Hty);
    [by apply uwrap_range|done|].
  exists d'. split; [done|]. rewrite E0 in Hn. pose proof Ht as (_ & Hc & _).
  destruct (status_next_ordered (c_status (dv_cfg d)) (u8 n) f q) as [H1 H2]; [done|by apply uwrap_range|done|].
  rewrite <- Hn in H1, H2. split; [by apply Hty|done].
Qed.

Lemma dev_inv_keep d d' :
  dev_inv d -> cfg_typed (dv_cfg d') -> c_status (dv_cfg d') = c_status (dv_cfg d) -> dev_inv d'.
Proof. intros [_ Ho] Ht E. split; [done|]. by rewrite E. Qed.

Lemma handle_mem_cmd_write_inv d :
  dev_inv d -> exists d' b, handle_mem_cmd_write d = Ret (d', b) /\ dev_inv d'.
Proof.
  intros Hd. unfold handle_mem_cmd_write. split_if; [by eexists _, _|].
  set (arg := Z.land _ (Z.lnot _)).
  assert (exists d1, (if Z.land (h_cmd (c_hdr (dv_cfg d))) CMD_MASK =? CMD_SET_STATUS
     then op_set_status arg d
     else if Z.land (h_cmd (c_hdr (dv_cfg d))) CMD_MASK =? CMD_CFG_QUEUE
          then mret (fst (cb_reconfig_queue arg d))
          else if Z.land (h_cmd (c_hdr (dv_cfg d))) CMD_MASK =? CMD_CFG_CHANGED
               then mret (cb_cfg_changed arg d) else mret d) = Ret d1 /\ dev_inv d1)
    as (d1 & -> & Hd1).
  { split_if; [by apply op_set_status_inv|]. pose proof Hd as [Ht _].
    split_if; [|split_if]; (eexists; split; [done|]); eapply dev_inv_keep; try done.
    - by apply cb_reconfig_typed.
    - apply cb_reconfig_keeps.
    - by apply cb_changed_typed.
    - apply cb_changed_keeps. }
  eexists _, _. split; [done|]. pose proof Hd1 as [Ht1 _]. eapply dev_inv_keep; [done|by apply reset_cmd_typed|done].
Qed.

Lemma device_error_inv d : dev_inv d -> dev_inv (device_error d).
Proof.
  intros [Ht Ho]. unfold device_error. pose proof (cb_reset_keeps d) as E.
  pose proof (cb_reset_typed d Ht) as Ht1. pose proof Ht as (_ & Hc & _).
  destruct (needs_reset_facts _ Hc) as (Hn1 & Hn2 & _).
  assert (H1 : dev_inv (on_cfg set_device_needs_reset (cb_reset d))).
  { unfold dev_inv, on_cfg, set_device_needs_reset. cbn [dv_cfg]. rewrite E.
    split; [by apply set_status_typed|by apply Hn2]. }
  split_if; [|done]. eapply dev_inv_keep; [exact H1|by apply cb_irq_typed, H1|by rewrite cb_irq_keeps].
Qed.

Lemma dev_reach_inv d : dev_reach d -> dev_inv d.
Proof.
  induction 1 as [d Ht E|n d d' _ IH E|n d _ IH|d d' b _ IH E|d _ IH|l d _ IH|h qcs d _ [IH1 IH2] Hh Hq].
  - split; [done|]. by rewrite E.
  - destruct (op_set_status_inv n d IH) as (d1 & E1 & H1). congruence.
  - unfold op_config_queue. split_if; [done|]. pose proof IH as [Ht _].
    eapply dev_inv_keep; [done|by apply cb_reconfig_typed|apply cb_reconfig_keeps].
  - destruct (handle_mem_cmd_write_inv d IH) as (d1 & b1 & E1 & H1). congruence.
  - by apply device_error_inv.
  - exact IH.
  - split; [|done]. destruct IH1 as (Hf & Hs & _). by split.
Qed.

Lemma op_set_status_nonzero d n d' :
  dev_inv d -> u8 n <> 0 -> op_set_status n d = Ret d' ->
  check_and_update_status (u8 n) d = Ret d' /\
  exists f q, c_status (dv_cfg d') = status_next (c_status (dv_cfg d)) (u8 n) f q.
Proof.
  intros [Ht _] Hn. unfold op_set_status. destruct (Z.eqb_spec n 0) as [->|_]; [done|]. intros E.
  split; [done|].
  destruct (check_and_update_status_spec (u8 n) d) as (d1 & f & q & E1 & Hs & _);
    [by apply uwrap_range|done|].
  rewrite E1 in E. injection E as <-. eauto.
Qed.

Lemma op_set_status_zero d n d' :
  u8 n = 0 -> op_set_status n d = Ret d' ->
  c_status (dv_cfg d') = 0 /\ dv_priv d' = dv_priv (if n =? 0 then cb_reset d else d).
Proof. intros Hn. unfold op_set_status. rewrite Hn. cbn. intros [= <-]. by destruct (n =? 0). Qed.

(** C32. The device's view of the protocol is robust: in every state reachable by
    any sequence of status writes, queue configurations, commands, device errors
    and driver writes to the shared page, all registers hold values of their
    type, the status bits are set in the order of the virtio initialisation
    sequence, and the next status write or command completes. *)
Theorem device_status_invariant d n :
  dev_reach d ->
  cfg_typed (dv_cfg d) /\ ordered (c_status (dv_cfg d)) = true /\
  (exists d', op_set_status n d = Ret d') /\ (exists r, handle_mem_cmd_write d = Ret r).
Proof.
  intros [Ht Ho]%dev_reach_inv. split; [done|]. split; [done|].
  destruct (op_set_status_inv n d (conj Ht Ho)) as (d' & E & _).
  destruct (handle_mem_cmd_write_inv d (conj Ht Ho)) as (d1 & b & E1 & _). eauto.
Qed.

(** A failed device stays failed until the driver resets it: a status write
    other than 0 keeps DEVICE_NEEDS_RESET and FAILED where they are set, and
    changes none of the other status bits then. *)
Theorem failed_until_reset d n d' :
  dev_reach d -> u8 n <> 0 -> op_set_status n d = Ret d' ->
  Z.land (fail_state (c_status (dv_cfg d'))) (fail_state (c_status (dv_cfg d))) =
    fail_state (c_status (dv_cfg d)) /\
  (fail_state (c_status (dv_cfg d)) <> 0 ->
   Z.land (c_status (dv_cfg d')) 0x3f = Z.land (c_status (dv_cfg d)) 0x3f).
Proof.
  intros Hd%dev_reach_inv Hn E. pose proof Hd as [(_ & Hc & _) _].
  destruct (op_set_status_nonzero d n d' Hd Hn E) as (_ & f & q & Hs).
  rewrite Hs. by apply status_next_sticky.
Qed.

(** A status value whose low byte is 0 but which is not 0, such as 0x100,
    clears the status register without resetting the device: queues and the rest
    of the device's state stay as they are. *)
Theorem status_truncated_skips_reset n d :
  u8 n = 0 -> n <> 0 -> op_set_status n d = Ret (on_cfg (set_status 0) d).
Proof.
  intros Hn Hne. unfold op_set_status. rewrite Hn. by replace (n =? 0) with false by lia.
Qed.
End Protocol.

(** ** Queue setup *)

Lemma land_pred_pow2 n : 0 < n -> Z.land n (n - 1) = 0 -> exists k, 0 <= k /\ n = 2 ^ k.
Proof.
  intros Hn H. exists (Z.log2 n). split; [apply Z.log2_nonneg|].
  destruct (Z.log2_spec n Hn) as [H1 H2]. rewrite Z.pow_succ_r in H2 by apply Z.log2_nonneg.
  destruct (Z.eq_dec n (2 ^ Z.log2 n)) as [|Hne]; [done|]. exfalso.
  assert (Hlog : Z.log2 (n - 1) = Z.log2 n).
  { apply Z.log2_unique; [apply Z.log2_nonneg|]. rewrite Z.pow_succ_r by apply Z.log2_nonneg. lia. }
  assert (Hb : Z.testbit (Z.land n (n - 1)) (Z.log2 n) = false) by (rewrite H; apply Z.bits_0).
  rewrite Z.land_spec, Z.bit_log2 in Hb by lia. rewrite <- Hlog, Z.bit_log2 in Hb; [done|].
  assert (1 < n) by (destruct (Z.eq_dec n 1) as [->|]; [done|lia]). lia.
Qed.

Lemma in_u_16_64 x : in_u 16 x -> in_u 64 x.
Proof. unfold in_u. lia. Qed.

Lemma qconfig_typed n c qc : Forall qc_typed (c_qcs c) -> qconfig n c = Some qc -> qc_typed qc.
Proof.
  intros Hall. unfold qconfig. split_ifs; try done. intros E. rewrite list.Forall_forall in Hall.
  by eapply Hall, list_elem_of_lookup_2.
Qed.

Section Queue_setup.
Context {D : Type} `{!L4_round 64, !Ds_env, !Ds_env_laws}.

(** C37. Whatever a driver writes into a queue's configuration slot, the queue the
    device accepts and enables has a power-of-two size that does not exceed the
    device's limit, and its descriptor table and rings lie, with their full size
    and alignment, inside of memory the driver has registered, the used ring in
    memory that is writable; setting up a queue always completes. *)
Theorem setup_queue_safe (q : vqueue) qn num_max (d : device D) :
  ml_reach (dv_mem d) -> Forall qc_typed (c_qcs (dv_cfg d)) ->
  exists q' ok, setup_queue q qn num_max d = Ret (q', ok) /\
    (ok = false -> q' = q) /\
    (ok = true ->
       (q' = disable q /\ ready q' = false) \/
       exists k qc, 0 <= k <= 16 /\ qconfig qn (dv_cfg d) = Some qc /\ qc_num qc = 2 ^ k /\
         vq_num q' = 2 ^ k /\ 2 ^ k <= num_max /\ current_avail q' = 0 /\
         shared (dv_mem d) (q_desc q') (desc_size (2 ^ k)) /\
         shared (dv_mem d) (q_avail q') (avail_size (2 ^ k)) /\
         shared (dv_mem d) (q_used q') (used_size (2 ^ k)) /\
         (exists i r, ml_find (qc_used_addr qc) (used_size (2 ^ k)) (dv_mem d) = Some (i, r) /\
            r_rw r = true /\ q_used q' = local r (qc_used_addr qc)) /\
         qc_desc_addr qc mod 16 = 0 /\ qc_avail_addr qc mod 2 = 0 /\ qc_used_addr qc mod 4 = 0).
Proof.
  intros Hl Hqs. apply ml_reach_inv in Hl. unfold setup_queue.
  destruct (qconfig qn (dv_cfg d)) as [qc|] eqn:Eq; [|by exists q, false].
  destruct (qconfig_typed _ _ _ Hqs Eq) as (_ & Hn & _ & _ & Hd & Ha & Hu & _).
  destruct (Z.eqb_spec (qc_ready qc) 0); [exists (disable q), true; by repeat split; auto|].
  destruct (_ || _) eqn:E0; [by exists q, false|]. unfold in_u in Hn.
  destruct (Z.eqb_spec (Z.land (qc_num qc) (qc_num qc -[32] 1)) 0) as [E1|]; cbn [negb]; [|by exists q, false].
  rewrite (uwrap_small 32) in E1 by (unfold in_u; lia).
  destruct (land_pred_pow2 (qc_num qc)) as (k & Hk0 & Hk); [lia|done|].
  assert (Hk16 : k <= 16) by (destruct (Z.le_gt_cases k 16) as [|Hgt]; [done|];
    pose proof (Z.pow_lt_mono_r 2 16 k); lia).
  destruct (Z.eqb_spec (Z.land (qc_desc_addr qc) 0xf) 0) as [E2|]; cbn [negb]; [|by exists q, false].
  destruct (Z.eqb_spec (Z.land (qc_avail_addr qc) 0x1) 0) as [E3|]; cbn [negb]; [|by exists q, false].
  destruct (Z.eqb_spec (Z.land (qc_used_addr qc) 0x3) 0) as [E4|]; cbn [negb]; [|by exists q, false].
  destruct (ring_sizes (qc_num qc)) as (Hs1 & Hs2 & Hs3); [lia|].
  destruct (ml_find (qc_desc_addr qc) _ _) as [[? di]|] eqn:F1; [|by exists q, false].
  destruct (ml_find (qc_avail_addr qc) _ _) as [[? ai]|] eqn:F2; [|by exists q, false].
  destruct (ml_find (qc_used_addr qc) _ _) as [[? ui]|] eqn:F3; [|by exists q, false].
  destruct (r_rw ui) eqn:Erw; cbn [negb]; [|by exists q, false]. unfold setup. pose proof F3 as F4.
  replace (0x10000 <? qc_num qc) with false by lia. eexists _, true. split; [done|]. split; [done|].
  intros _. right. exists k, qc. rewrite <- Hk.
  apply find_shared in F1, F2, F3; try done; try (unfold in_u; lia). unfold vq_num. cbn.
  rewrite uwrap_small by (unfold in_u; lia).
  change 15 with (Z.ones 4) in E2. change 1 with (Z.ones 1) in E3. change 3 with (Z.ones 2) in E4.
  rewrite Z.land_ones in E2, E3, E4 by lia. repeat split; try done; try lia. eauto.
Qed.
End Queue_setup.

(** ** Features *)

Lemma load_store_eq {A} i (x : A) l l' : store i x l = Ret l' -> load i l' = Ret x.
Proof.
  unfold store, load. split_if; [|done]. intros [= <-]. unfold zlen in *.
  replace (0 <=? i) with true by lia. by rewrite list_lookup_insert_eq by lia.
Qed.

Lemma load_store_ne {A} i j (x : A) l l' : i <> j -> store i x l = Ret l' -> load j l' = load j l.
Proof.
  unfold store, load. split_if; [|done]. intros Hne [= <-]. destruct (0 <=? j) eqn:E; [|done].
  by rewrite list_lookup_insert_ne by lia.
Qed.

(** Setting a feature below 192 makes exactly this feature visible; from 192
    on, where the check still passes, the access leaves the six-word map. *)
Theorem set_feature_spec feat map :
  length map = 6%nat -> 0 <= feat ->
  (feat < 192 -> exists map', l4virtio_set_feature feat map = Ret map' /\
     l4virtio_get_feature feat map' = Ret true /\
     forall other, 0 <= other < 192 -> other <> feat ->
       l4virtio_get_feature other map' = l4virtio_get_feature other map) /\
  (192 <= feat < 256 -> l4virtio_set_feature feat map = Oob) /\
  (256 <= feat -> l4virtio_set_feature feat map = Ret map).
Proof.
  intros Hlen Hf. unfold l4virtio_set_feature, l4virtio_get_feature.
  pose proof (Z.mod_pos_bound feat 32 ltac:(lia)) as Hmod.
  pose proof (Z.div_mod feat 32 ltac:(lia)) as Hdm. split; [|split]; intros Hr.
  - replace (feat / 32 <? 8) with true by lia. replace (8 <=? feat / 32) with false by lia.
    destruct (load_lt (feat / 32) map) as (w & _ & Hw); [unfold zlen; lia|]. rewrite Hw. cbn [mbind run_bind].
    destruct (store (feat / 32) (Z.setbit w (feat mod 32)) map) as [map'| | | | |] eqn:E;
      try (unfold store in E; split_if; [done|unfold zlen in *; lia]).
    exists map'. split; [done|]. rewrite (load_store_eq _ _ _ _ E). cbn [mbind run_bind].
    split; [by rewrite Z.setbit_eq by lia|]. intros other Ho Hne.
    pose proof (Z.mod_pos_bound other 32 ltac:(lia)). pose proof (Z.div_mod other 32 ltac:(lia)).
    replace (8 <=? other / 32) with false by lia. destruct (Z.eq_dec (feat / 32) (other / 32)) as [Ed|Ed].
    + rewrite <- Ed, (load_store_eq _ _ _ _ E), Hw. cbn [mbind run_bind]. by rewrite Z.setbit_neq by lia.
    + by rewrite (load_store_ne _ _ _ _ _ Ed E).
  - replace (feat / 32 <? 8) with true by lia. unfold load. replace (0 <=? feat / 32) with true by lia.
    by rewrite lookup_ge_None_2 by lia.
  - by replace (feat / 32 <? 8) with false by lia.
Qed.
