(* ===== verification/VirtioNet.v ===== *)
(** * The virtio network device

    [pkg/virtio-net-switch/server/switch/virtio_net.h]: the two queues of a port
    with the batching of notifications ([Virtqueue::kick_queue]), and the methods
    [Device_t] calls ([Device_cb] of [VirtioDev]). *)

From S2P Require Import Prelude L4Round DriverMem Virtqueue RequestProc VirtioDev.

(** ** Queues that remember notifications *)

Record kqueue := { kq : vqueue; do_kick : bool; kick_pending : bool }.

Definition kq_off : kqueue := {| kq := vq_off; do_kick := true; kick_pending := false |}.

Definition with_vq (q : vqueue) (k : kqueue) : kqueue :=
  {| kq := q; do_kick := do_kick k; kick_pending := kick_pending k |}.

(** The ring tells whether the driver wants interrupts. *)
Definition kick_queue (r : vring) (k : kqueue) : kqueue * bool :=
  if no_notify_guest r then (k, false)
  else if do_kick k then (k, true)
  else ({| kq := kq k; do_kick := do_kick k; kick_pending := true |}, false).

Definition kick_enable_get_pending (k : kqueue) : kqueue * bool :=
  ({| kq := kq k; do_kick := true; kick_pending := kick_pending k |}, kick_pending k).

Definition kick_disable_and_remember (k : kqueue) : kqueue :=
  {| kq := kq k; do_kick := false; kick_pending := false |}.

(** ** [Virtio_net] *)

(** [_q[Rx]], [_q[Tx]], [_vq_max], [_negotiated_features]; [net_irqs] counts the
    triggers of [_kick_guest_irq]. *)
Record virtio_net := {
  net_rx : kqueue;
  net_tx : kqueue;
  net_vq_max : Z;
  net_features : Z;
  net_irqs : nat;
}.

Definition Rx : Z := 0.
Definition Tx : Z := 1.

Definition net_queue (i : Z) (n : virtio_net) : kqueue := if i =? Rx then net_rx n else net_tx n.

Definition set_net_queue (i : Z) (k : kqueue) (n : virtio_net) : virtio_net :=
  {| net_rx := if i =? Rx then k else net_rx n; net_tx := if i =? Rx then net_tx n else k;
     net_vq_max := net_vq_max n; net_features := net_features n; net_irqs := net_irqs n |}.

Definition trigger (n : virtio_net) : virtio_net :=
  {| net_rx := net_rx n; net_tx := net_tx n; net_vq_max := net_vq_max n;
     net_features := net_features n; net_irqs := S (net_irqs n) |}.

Abbreviation net_dev := (device virtio_net).

Definition on_priv (f : virtio_net -> virtio_net) (d : net_dev) : net_dev :=
  Build_device (dv_cfg d) (dv_mem d) (f (dv_priv d)).

Definition IRQ_STATUS_VRING : Z := 1.
Definition IRQ_STATUS_CONFIG : Z := 2.

Definition reset_queue_configs (n : virtio_net) (c : dev_config) : dev_config :=
  fst (reset_queue Tx (net_vq_max n) false 0 (fst (reset_queue Rx (net_vq_max n) false 0 c))).

Definition net_reset (d : net_dev) : net_dev :=
  let off k := with_vq (disable (kq k)) k in
  let n := dv_priv d in
  let n := {| net_rx := off (net_rx n); net_tx := off (net_tx n); net_vq_max := net_vq_max n;
              net_features := net_features n; net_irqs := net_irqs n |} in
  Build_device (reset_hdr false (reset_queue_configs n (dv_cfg d))) (dv_mem d) n.

(** [setup_queue] cannot fail otherwise than by its result: the queue size has 16
    bits ([setup_queue_safe]). *)
Definition net_reconfig_queue (index : Z) (d : net_dev) : net_dev * l4_ret :=
  if 2 <=? index then (d, Err ERANGE)
  else
    let k := net_queue index (dv_priv d) in
    match setup_queue (kq k) index (net_vq_max (dv_priv d)) d with
    | Ret (q, ok) =>
        (on_priv (set_net_queue index (with_vq q k)) d, if ok : bool then Ok else Err EINVAL)
    | _ => (d, Err EINVAL)
    end.

Definition negotiated_features (i : Z) (c : dev_config) : Z :=
  Z.land (List.nth (Z.to_nat i) (h_driver_features (c_hdr c)) 0)
         (List.nth (Z.to_nat i) (c_host_features c) 0).

Definition net_check_features (d : net_dev) : net_dev * bool :=
  (on_priv (fun n => {| net_rx := net_rx n; net_tx := net_tx n; net_vq_max := net_vq_max n;
                        net_features := negotiated_features 0 (dv_cfg d);
                        net_irqs := net_irqs n |}) d, true).

Definition net_check_queues (d : net_dev) : net_dev * bool :=
  if ready (kq (net_rx (dv_priv d))) && ready (kq (net_tx (dv_priv d))) then (d, true)
  else (net_reset d, false).

Definition net_config_irq (d : net_dev) : net_dev :=
  on_priv trigger (on_cfg (add_irq_status IRQ_STATUS_CONFIG) d).

#[export] Instance net_cb : Device_cb virtio_net := {|
  cb_reset := net_reset;
  cb_check_features := net_check_features;
  cb_check_queues := net_check_queues;
  cb_reconfig_queue := net_reconfig_queue;
  cb_cfg_changed := fun _ d => d;
  cb_trigger_config_irq := net_config_irq;
|}.

(** [notify_queue] for queue [i] with ring [r]. *)
Definition notify_queue (i : Z) (r : vring) (d : net_dev) : net_dev :=
  let '(k, kick) := kick_queue r (net_queue i (dv_priv d)) in
  let d := on_priv (set_net_queue i k) d in
  if kick : bool then on_priv trigger (on_cfg (add_irq_status IRQ_STATUS_VRING) d) else d.

Definition kick_emit_and_enable (d : net_dev) : net_dev :=
  let '(rx, p1) := kick_enable_get_pending (net_rx (dv_priv d)) in
  let '(tx, p2) := kick_enable_get_pending (net_tx (dv_priv d)) in
  let d := on_priv (fun n => set_net_queue Tx tx (set_net_queue Rx rx n)) d in
  if p1 || p2 then on_priv trigger (on_cfg (add_irq_status IRQ_STATUS_VRING) d) else d.

Definition kick_disable (d : net_dev) : net_dev :=
  on_priv (fun n =>
    set_net_queue Tx (kick_disable_and_remember (net_tx n))
      (set_net_queue Rx (kick_disable_and_remember (net_rx n)) n)) d.

(** The features the device offers: indirect descriptors, merged receive buffers,
    version 1; the bits are those of the first feature word. *)
Definition FEATURE_RING_INDIRECT_DESC : Z := 28.
Definition FEATURE_MRG_RXBUF : Z := 15.

Definition mrg_rxbuf (d : net_dev) : bool := Z.testbit (net_features (dv_priv d)) FEATURE_MRG_RXBUF.

(** The constructor [Virtio_net(vq_max)] on a fresh configuration. *)
Definition net_new (vq_max : Z) (c : dev_config) : run net_dev :=
  let hf := Z.setbit (Z.setbit 0 FEATURE_RING_INDIRECT_DESC) FEATURE_MRG_RXBUF in
  fs ← store 0 hf (c_host_features c);
  fs ← l4virtio_set_feature FEATURE_VERSION_1 fs;
  let c := {| c_vendor := c_vendor c; c_device := c_device c; c_qoffset := c_qoffset c;
              c_nqueues := c_nqueues c; c_host_features := fs; c_status := c_status c;
              c_hdr := c_hdr c; c_qcs := c_qcs c |} in
  let n := {| net_rx := kq_off; net_tx := kq_off; net_vq_max := vq_max; net_features := 0;
              net_irqs := 0 |} in
  mret (Build_device (reset_queue_configs n (reset_hdr false c)) ml_empty n).

(** ** The device keeps the rules of [Device_t] *)

Lemma reset_queue_status i n b x c : c_status (fst (reset_queue i n b x c)) = c_status c.
Proof. unfold reset_queue. by destruct (qconfig i c). Qed.

Lemma reset_queue_typed i n b x c : cfg_typed c -> cfg_typed (fst (reset_queue i n b x c)).
Proof.
  intros Ht. unfold reset_queue. destruct (qconfig i c) as [qc|] eqn:E; [|done]. cbn.
  pose proof Ht as (_ & _ & _ & Hq). pose proof (qconfig_typed _ _ _ Hq E) as (?&?&?&?&?&?&?&?).
  destruct b; typed; try (by apply uwrap_range); (apply Forall_insert; [done|]); unfold qc_typed; cbn;
  repeat match goal with |- _ /\ _ => split end; try done; by apply uwrap_range.
Qed.

Lemma reset_queue_configs_typed n c : cfg_typed c -> cfg_typed (reset_queue_configs n c).
Proof. intros Ht. unfold reset_queue_configs. by apply reset_queue_typed, reset_queue_typed. Qed.

Lemma reset_queue_configs_status n c : c_status (reset_queue_configs n c) = c_status c.
Proof. unfold reset_queue_configs. by rewrite !reset_queue_status. Qed.

Lemma add_irq_status_typed s c : in_u 32 s -> cfg_typed c -> cfg_typed (add_irq_status s c).
Proof.
  intros Hs Ht. typed. unfold in_u in *. apply lor_lt_pow2; lia.
Qed.

#[export] Instance net_laws : Device_cb_laws virtio_net.
Proof.
  split; cbn.
  - intros d. apply (reset_queue_configs_status _ (dv_cfg d)).
  - done.
  - intros d. unfold net_check_queues. split_if; [done|]. apply (reset_queue_configs_status _ (dv_cfg d)).
  - intros q d. unfold net_reconfig_queue. split_if; [done|]. by destruct (setup_queue _ _ _ _) as [[? ?]| | | | |].
  - done.
  - done.
  - intros d Ht. by apply reset_hdr_typed, reset_queue_configs_typed.
  - done.
  - intros d Ht. unfold net_check_queues. split_if; [done|]. by apply reset_hdr_typed, reset_queue_configs_typed.
  - intros q d Ht. unfold net_reconfig_queue. split_if; [done|].
    by destruct (setup_queue _ _ _ _) as [[? ?]| | | | |].
  - done.
  - intros d Ht. by apply add_irq_status_typed.
Qed.

(** When a status write leaves the network device running (exactly the four
    driver bits set), both of its virtqueues are ready, so that checking them
    again changes nothing. *)
Theorem net_running_queues_ready (d d' : net_dev) n :
  dev_reach d -> op_set_status n d = Ret d' -> running (c_status (dv_cfg d')) = true ->
  ready (kq (net_rx (dv_priv d'))) = true /\ ready (kq (net_tx (dv_priv d'))) = true /\
  net_check_queues d' = (d', true).
Proof.
  intros Hd%dev_reach_inv E Hr. pose proof Hd as [(_ & Hc & _) _].
  destruct (decide (u8 n = 0)) as [En|En].
  { destruct (op_set_status_zero d n d' En E) as [E0 _]. by rewrite E0 in Hr. }
  destruct (op_set_status_nonzero d n d' Hd En E) as (E1 & f & q & Hn).
  assert (Hs : fail_state (c_status (dv_cfg d)) = 0 /\ u8 n = 0xf).
  { rewrite Hn in Hr. apply (status_next_running _ _ f q Hc); [by apply uwrap_range|done..]. }
  destruct Hs as [Hf Hs]. rewrite Hs in E1. rewrite check_status_running in E1 by done.
  injection E1 as <-. cbn in Hr |- *. unfold net_check_queues in *.
  destruct (ready (kq (net_rx (dv_priv d))) && ready (kq (net_tx (dv_priv d)))) eqn:Hq.
  { cbn. rewrite Hq. by apply andb_true_iff in Hq as []. }
  cbn in Hr. exfalso.
  destruct (needs_reset_facts _ Hc) as (_ & _ & Hnz & _). apply Hnz.
  unfold running in Hr. apply Z.eqb_eq in Hr. by rewrite Hr.
Qed.

(** After a device error both queues are off, DEVICE_NEEDS_RESET is set, and
    the driver is notified exactly when it had finished its initialisation. *)
Theorem net_device_error (d : net_dev) :
  dev_reach d ->
  let d' := device_error d in
  ready (kq (net_rx (dv_priv d'))) = false /\ ready (kq (net_tx (dv_priv d'))) = false /\
  fail_state (c_status (dv_cfg d')) <> 0 /\
  net_irqs (dv_priv d') =
    (if driver_ok (c_status (dv_cfg d)) then S (net_irqs (dv_priv d)) else net_irqs (dv_priv d)).
Proof.
  intros Hd%dev_reach_inv. cbv zeta. pose proof Hd as [(_ & Hc & _) _].
  destruct (needs_reset_facts _ Hc) as (_ & _ & Hnz & _). unfold device_error.
  assert (Es : c_status (dv_cfg (on_cfg set_device_needs_reset (cb_reset d)))
               = Z.setbit (c_status (dv_cfg d)) 6).
  { change (c_status (dv_cfg (on_cfg set_device_needs_reset (cb_reset d))))
      with (Z.setbit (c_status (dv_cfg (cb_reset d))) 6). by rewrite cb_reset_keeps. }
  rewrite Es. unfold driver_ok. rewrite Z.setbit_neq by lia.
  destruct (Z.testbit (c_status (dv_cfg d)) 2); [rewrite cb_irq_keeps|]; rewrite Es; done.
Qed.

(** ** Batched notifications *)

(** Notifications of the two queues while kicks are disabled. *)
Fixpoint notify_all (l : list (Z * vring)) (d : net_dev) : net_dev :=
  match l with
  | [] => d
  | (i, r) :: l => notify_all l (notify_queue i r d)
  end.

Definition wanted (l : list (Z * vring)) : bool := existsb (fun p => negb (no_notify_guest (snd p))) l.

Lemma notify_queue_disabled i r d :
  do_kick (net_rx (dv_priv d)) = false -> do_kick (net_tx (dv_priv d)) = false ->
  let d' := notify_queue i r d in
  do_kick (net_rx (dv_priv d')) = false /\ do_kick (net_tx (dv_priv d')) = false /\
  net_irqs (dv_priv d') = net_irqs (dv_priv d) /\
  kick_pending (net_rx (dv_priv d')) || kick_pending (net_tx (dv_priv d')) =
  kick_pending (net_rx (dv_priv d)) || kick_pending (net_tx (dv_priv d)) || negb (no_notify_guest r).
Proof.
  intros H1 H2. cbv zeta. unfold notify_queue, kick_queue, net_queue, set_net_queue.
  destruct (no_notify_guest r); [|destruct (i =? Rx) eqn:E; rewrite ?H1, ?H2]; cbn; rewrite ?E; cbn.
  - by destruct (i =? Rx); cbn; rewrite ?orb_false_r.
  - rewrite orb_true_r. done.
  - rewrite !orb_true_r. done.
Qed.

Lemma notify_all_disabled l d :
  do_kick (net_rx (dv_priv d)) = false -> do_kick (net_tx (dv_priv d)) = false ->
  let d' := notify_all l d in
  net_irqs (dv_priv d') = net_irqs (dv_priv d) /\
  kick_pending (net_rx (dv_priv d')) || kick_pending (net_tx (dv_priv d')) =
  kick_pending (net_rx (dv_priv d)) || kick_pending (net_tx (dv_priv d)) || wanted l.
Proof.
  revert d. induction l as [|[i r] l IH]; intros d H1 H2; [by cbn; rewrite orb_false_r|].
  destruct (notify_queue_disabled i r d H1 H2) as (H3 & H4 & H5 & H6).
  destruct (IH (notify_queue i r d) H3 H4) as [IH1 IH2]. cbn. cbv zeta in IH1, IH2.
  rewrite IH1, IH2, H5, H6. split; [done|]. by rewrite <- !orb_assoc.
Qed.

(** Between [kick_disable_and_remember] and [kick_emit_and_enable] no
    interrupt is sent; afterwards exactly one is, however many requests were
    finished, if for at least one of them the driver had not switched interrupts
    off, and none otherwise. *)
Theorem notifications_batched (d : net_dev) (l : list (Z * vring)) :
  net_irqs (dv_priv (notify_all l (kick_disable d))) = net_irqs (dv_priv d) /\
  net_irqs (dv_priv (kick_emit_and_enable (notify_all l (kick_disable d)))) =
    (if wanted l then S (net_irqs (dv_priv d)) else net_irqs (dv_priv d)).
Proof.
  destruct (notify_all_disabled l (kick_disable d) eq_refl eq_refl) as [H1 H2].
  cbv zeta in H1, H2. cbn in H2. split; [done|].
  unfold kick_emit_and_enable, kick_enable_get_pending. rewrite H2.
  destruct (wanted l); cbn; by rewrite H1.
Qed.

Module Net_example.
Import Mem_example.
#[local] Existing Instances round64 env env_laws.

Definition blank_hdr : config_hdr :=
  {| h_magic := 0; h_version := 0; h_device := 0; h_vendor := 0; h_num_queues := 0;
     h_queues_offset := 0; h_irq_status := 0; h_status := 0; h_cfg_device_notify_index := 0;
     h_cmd := 0; h_dev_features := replicate 6 0; h_driver_features := replicate 6 0;
     h_generation := 0 |}.

Definition blank_qc : config_queue :=
  {| qc_num_max := 0; qc_num := 0; qc_ready := 0; qc_driver_notify_index := 0; qc_desc_addr := 0;
     qc_avail_addr := 0; qc_used_addr := 0; qc_device_notify_index := 0 |}.

Definition ret {A} (a : A) (r : run A) : A := match r with Ret x => x | _ => a end.

Definition blank_cfg : dev_config :=
  {| c_vendor := 0; c_device := 0; c_qoffset := 0; c_nqueues := 0; c_host_features := [];
     c_status := 0; c_hdr := blank_hdr; c_qcs := [] |}.

Definition no_net : virtio_net :=
  {| net_rx := kq_off; net_tx := kq_off; net_vq_max := 0; net_features := 0; net_irqs := 0 |}.

(** A fresh device with two queues of up to 256 entries and the memory of
    [Mem_example]. *)
Definition fresh : net_dev :=
  ret (Build_device blank_cfg ml_empty no_net)
      (c ← config_new 0x44 1 16 2 blank_hdr [blank_qc; blank_qc]; net_new 256 c).

(** What the driver writes to the page: it accepts all features and places two
    queues of four entries. *)
Definition qc4 (a : Z) : config_queue :=
  {| qc_num_max := 256; qc_num := 4; qc_ready := 1; qc_driver_notify_index := 0;
     qc_desc_addr := a; qc_avail_addr := a + 0x40; qc_used_addr := a + 0x50;
     qc_device_notify_index := 0 |}.

Definition page (d : net_dev) : net_dev :=
  on_cfg (fun c =>
    {| c_vendor := c_vendor c; c_device := c_device c; c_qoffset := c_qoffset c;
       c_nqueues := c_nqueues c; c_host_features := c_host_features c; c_status := c_status c;
       c_hdr := {| h_magic := 0; h_version := 0; h_device := 0; h_vendor := 0; h_num_queues := 0;
                   h_queues_offset := 0; h_irq_status := 0; h_status := 0;
                   h_cfg_device_notify_index := 0; h_cmd := 0; h_dev_features := replicate 6 0;
                   h_driver_features := [0x10008000; 1; 0; 0; 0; 0]; h_generation := 0 |};
       c_qcs := [qc4 0x40000000; qc4 0x40001000] |}) d.

Definition status (n : Z) (d : net_dev) : net_dev := ret d (op_set_status n d).
Definition queue (n : Z) (d : net_dev) : net_dev := fst (op_config_queue n d).

Definition set_up : net_dev :=
  queue 1 (queue 0 (status 11 (status 3 (status 1 (page (Build_device (dv_cfg fresh) two (dv_priv fresh))))))).

Lemma status_reach n d : dev_reach d -> dev_reach (status n d).
Proof.
  intros H. unfold status, ret. destruct (op_set_status n d) eqn:E; try exact H.
  eapply dr_set_status; [exact H|exact E].
Qed.

Ltac words := split; [reflexivity|repeat (constructor; [by_eval|]); constructor].

Lemma set_up_reach : dev_reach set_up.
Proof.
  unfold set_up, queue. do 2 apply dr_config_queue. do 3 apply status_reach. apply dr_page.
  - apply dr_memory, dr_new; [|reflexivity]. split; [words|]. split; [by_eval|]. split.
    + do 4 (split; [by_eval|]). split; words.
    + repeat (constructor; [by_eval|]). constructor.
  - do 4 (split; [by_eval|]). split; words.
  - repeat (constructor; [by_eval|]). constructor.
Qed.

Lemma device_status_invariant_witness :
  ordered (c_status (dv_cfg set_up)) = true /\ c_status (dv_cfg set_up) = 11.
Proof. split; [apply (device_status_invariant set_up 0 set_up_reach)|vm_compute; reflexivity]. Defined.

Lemma net_running_queues_ready_witness :
  exists d', op_set_status 15 set_up = Ret d' /\
    ready (kq (net_rx (dv_priv d'))) = true /\ q_used (kq (net_tx (dv_priv d'))) = 0x10201050.
Proof.
  assert (E : op_set_status 15 set_up = Ret (status 15 set_up)) by (vm_compute; reflexivity).
  assert (Hr : running (c_status (dv_cfg (status 15 set_up))) = true) by (vm_compute; reflexivity).
  exists (status 15 set_up). split; [exact E|].
  split; [apply (net_running_queues_ready set_up _ 15 set_up_reach E Hr)|vm_compute; reflexivity].
Defined.

Lemma net_device_error_witness :
  net_irqs (dv_priv (device_error (status 15 set_up))) = 1%nat /\
  ready (kq (net_tx (dv_priv (device_error (status 15 set_up))))) = false.
Proof.
  destruct (net_device_error (status 15 set_up) (status_reach 15 _ set_up_reach)) as (_ & H1 & _ & H2).
  split; [rewrite H2; vm_compute; reflexivity|exact H1].
Defined.

(** FAILED is reported by the driver; a later attempt to go on has no effect. *)
Lemma failed_until_reset_witness :
  let d := status 0x80 set_up in
  exists d', op_set_status 15 d = Ret d' /\ c_status (dv_cfg d) = 0x8b /\
    Z.land (c_status (dv_cfg d')) 0x3f = Z.land (c_status (dv_cfg d)) 0x3f.
Proof.
  intros d. assert (E : op_set_status 15 d = Ret (status 15 d)) by (vm_compute; reflexivity).
  exists (status 15 d). split; [exact E|]. split; [vm_compute; reflexivity|].
  apply (failed_until_reset d 15 (status 15 d) (status_reach 0x80 _ set_up_reach)); [by_eval|exact E|].
  vm_compute. discriminate.
Defined.

Lemma status_truncated_skips_reset_witness :
  op_set_status 0x100 (status 15 set_up) = Ret (on_cfg (set_status 0) (status 15 set_up)) /\
  ready (kq (net_rx (dv_priv (status 15 set_up)))) = true.
Proof.
  split; [|vm_compute; reflexivity].
  apply (status_truncated_skips_reset 0x100 (status 15 set_up)); [reflexivity|discriminate].
Defined.

Lemma setup_queue_safe_witness :
  exists q', setup_queue vq_off 0 256 set_up = Ret (q', true) /\ vq_num q' = 4 /\
    shared (dv_mem set_up) (q_desc q') (desc_size 4).
Proof.
  assert (Hq : Forall qc_typed (c_qcs (dv_cfg set_up)))
    by (apply (dev_reach_inv set_up set_up_reach)).
  assert (Hm : dv_mem set_up = two) by (vm_compute; reflexivity).
  assert (Hl : ml_reach (dv_mem set_up)) by (rewrite Hm; exact two_reach).
  destruct (setup_queue_safe vq_off 0 256 set_up Hl Hq) as (q' & ok & E & _ & H).
  assert (Eo : ok = true) by (vm_compute in E; congruence).
  destruct (H Eo) as [[H1 _]|(k & qc & _ & _ & Hk & Hn & _ & _ & Hs & _)].
  - exfalso. rewrite H1 in E. vm_compute in E. discriminate.
  - assert (Hk4 : 2 ^ k = 4) by (rewrite <- Hn; vm_compute in E; injection E as <- _; reflexivity).
    exists q'. rewrite Hk4 in *. rewrite <- Eo at 1. split; [exact E|]. split; [exact Hn|exact Hs].
Defined.

Lemma set_feature_spec_witness :
  exists m, l4virtio_set_feature 32 (replicate 6 0) = Ret m /\ l4virtio_get_feature 32 m = Ret true /\
    l4virtio_set_feature 200 (replicate 6 0) = Oob.
Proof.
  destruct (set_feature_spec 32 (replicate 6 0) eq_refl ltac:(lia)) as (H & _ & _).
  destruct (set_feature_spec 200 (replicate 6 0) eq_refl ltac:(lia)) as (_ & H2 & _).
  destruct (H ltac:(lia)) as (m & E & Hg & _). exists m. split; [exact E|]. split; [exact Hg|].
  apply H2. lia.
Defined.

(** Reserved bits in the status bypass the check of the queues: DRIVER_OK is set
    while both queues are off. *)
Example status_reserved_bits :
  exists d', op_set_status 0x1f fresh = Ret d' /\ driver_ok (c_status (dv_cfg d')) = true /\
    ready (kq (net_rx (dv_priv d'))) = false.
Proof. eexists. split; [vm_compute; reflexivity|]. split; reflexivity. Qed.
End Net_example.
