(* ===== verification/MacTable.v ===== *)
(** * MAC addresses and the MAC table of the network switch

    [pkg/virtio-net-switch/server/switch/mac_addr.h] and [mac_table.h].  A port is
    its address, 0 the null pointer; an [Entry*] is the index of the entry in the
    array. *)

From stdpp Require Import sorting fin_maps.
From S2P Require Import Prelude.
#[local] Open Scope Z_scope.

(** ** [Mac_addr] *)

Definition Addr_length : Z := 6.
Definition Addr_unknown : Z := 0.

(** The constructor from the six bytes of a packet, and [from_uncached]. *)
Definition mac_of_bytes (src : bytes) : Z :=
  let b i := List.nth i src 0 in
  Z.lor (Z.lor (Z.lor (Z.lor (Z.lor (b 0%nat) (Z.shiftl (b 1%nat) 8)) (Z.shiftl (b 2%nat) 16))
                      (Z.shiftl (b 3%nat) 24)) (Z.shiftl (b 4%nat) 32)) (Z.shiftl (b 5%nat) 40).

Definition is_broadcast (mac : Z) : bool := Z.testbit mac 0.

Definition is_unknown (mac : Z) : bool := mac =? Addr_unknown.

Definition to_array (mac : Z) : bytes :=
  [Z.land mac 0xff; Z.land (Z.shiftr mac 8) 0xff; Z.land (Z.shiftr mac 16) 0xff;
   Z.land (Z.shiftr mac 24) 0xff; Z.land (Z.shiftr mac 32) 0xff; Z.land (Z.shiftr mac 40) 0xff].

(** ** [Mac_table] *)

(** [std::tuple<Mac_addr, l4_uint16_t>], ordered lexicographically. *)
Abbreviation mac_key := (Z * Z)%type.

Definition key_le (a b : mac_key) : Prop := fst a < fst b \/ fst a = fst b /\ snd a <= snd b.

#[global] Instance key_le_dec : RelDecision key_le.
Proof. intros a b. unfold key_le. apply _. Defined.

Record entry := { e_port : Z; e_addr : Z; e_vlan : Z }.

Definition no_entry : entry := {| e_port := 0; e_addr := Addr_unknown; e_vlan := 0 |}.

Definition e_key (e : entry) : mac_key := (e_addr e, e_vlan e).

Record mac_table := {
  mt_map : gmap mac_key nat;
  mt_entries : list entry;
  mt_rr : Z;
}.

Definition mt_new (size : nat) : mac_table :=
  {| mt_map := ∅; mt_entries := replicate size no_entry; mt_rr := 0 |}.

(** The entry an iterator's [second] points to. *)
Definition entry_at (i : nat) (t : mac_table) : entry := default no_entry (mt_entries t !! i).

Definition mt_lookup (dst vlan : Z) (t : mac_table) : Z :=
  match mt_map t !! (dst, vlan) with
  | Some i => e_port (entry_at i t)
  | None => 0
  end.

Definition mt_learn (src port vlan : Z) (t : mac_table) : mac_table :=
  let rr := Z.to_nat (mt_rr t) in
  match mt_map t !! (src, vlan) with
  | None =>
      let m := <[(src, vlan) := rr]> (mt_map t) in
      let old := entry_at rr t in
      let m := if negb (e_port old =? 0) then delete (e_key old) m else m in
      {| mt_map := m;
         mt_entries := <[rr := {| e_port := port; e_addr := src; e_vlan := vlan |}]> (mt_entries t);
         mt_rr := (mt_rr t + 1) mod zlen (mt_entries t) |}
  | Some i =>
      let e := entry_at i t in
      {| mt_map := mt_map t;
         mt_entries := <[i := {| e_port := port; e_addr := e_addr e; e_vlan := e_vlan e |}]> (mt_entries t);
         mt_rr := mt_rr t |}
  end.

(** One element of the map under the iterator of [flush]. *)
Definition flush_key (port : Z) (t : mac_table) (k : mac_key) : mac_table :=
  match mt_map t !! k with
  | Some i =>
      if e_port (entry_at i t) =? port
      then {| mt_map := delete k (mt_map t); mt_entries := <[i := no_entry]> (mt_entries t);
              mt_rr := mt_rr t |}
      else t
  | None => t
  end.

(** The keys in the order of the map. *)
Definition map_keys (t : mac_table) : list mac_key := merge_sort key_le (fst <$> map_to_list (mt_map t)).

Definition mt_flush (port : Z) (t : mac_table) : mac_table :=
  foldl (flush_key port) t (map_keys t).

(** The [assert] at the end of [flush]. *)
Definition flush_asserts (port : Z) (t : mac_table) : bool :=
  forallb (fun k => match mt_map t !! k with
                    | Some i => negb (e_port (entry_at i t) =? port)
                    | None => true
                    end) (map_keys t).

(** ** MAC addresses as numbers *)

Lemma lor_shift a b n : 0 <= n -> 0 <= a < 2 ^ n -> Z.lor a (Z.shiftl b n) = a + b * 2 ^ n.
Proof.
  intros Hn Ha. rewrite Z.shiftl_mul_pow2, Z.lor_comm, lor_disjoint by lia. lia.
Qed.

(** The first byte on the wire is the least significant one. *)
Lemma mac_of_bytes_le b : length b = 6%nat -> bytes_ok b -> mac_of_bytes b = le_combine b.
Proof.
  intros Hl Hb. destruct b as [|b0 [|b1 [|b2 [|b3 [|b4 [|b5 [|]]]]]]]; try done.
  repeat (apply Forall_cons_iff in Hb as [? Hb]). unfold byte_ok in *.
  unfold mac_of_bytes. cbn [List.nth le_combine]. 
  rewrite (lor_shift b0 b1 8), (lor_shift _ b2 16), (lor_shift _ b3 24), (lor_shift _ b4 32),
    (lor_shift _ b5 40) by lia. lia.
Qed.

Lemma land_ff x : Z.land x 0xff = x mod 256.
Proof. change 0xff with (Z.ones 8). by rewrite Z.land_ones by lia. Qed.

Lemma to_array_le mac : to_array mac = le_split 6 mac.
Proof.
  unfold to_array, le_split. rewrite !land_ff, !Z.shiftr_div_pow2 by lia.
  rewrite !Z.div_div by lia. done.
Qed.

(** A MAC address survives the conversion to a number and back, in both
    directions, and the broadcast test sees the group bit of the first byte. *)
Theorem mac_roundtrip :
  (forall b, length b = 6%nat -> bytes_ok b ->
     to_array (mac_of_bytes b) = b /\ 0 <= mac_of_bytes b < 2 ^ 48 /\
     is_broadcast (mac_of_bytes b) = Z.odd (List.hd 0 b)) /\
  (forall mac, 0 <= mac < 2 ^ 48 -> mac_of_bytes (to_array mac) = mac).
Proof.
  split.
  - intros b Hl Hb. rewrite mac_of_bytes_le by done. split; [|split].
    + rewrite to_array_le, <- Hl. by apply le_split_combine.
    + pose proof (le_combine_bound b Hb) as H. unfold zlen in H. by rewrite Hl in H.
    + destruct b as [|b0 b]; [done|]. unfold is_broadcast. cbn [List.hd le_combine].
      rewrite Z.bit0_odd, Z.odd_add, Z.odd_mul. cbn. by destruct (Z.odd b0).
  - intros mac Hm. rewrite to_array_le, mac_of_bytes_le; [by apply (le_combine_split 6)|done|].
    cbn. repeat (constructor; [apply Z.mod_pos_bound; lia|]). constructor.
Qed.

(** ** The table as a finite map *)

(** What the table means: the port of each known address. *)
Definition mt_abs (t : mac_table) : gmap mac_key Z := (fun i => e_port (entry_at i t)) <$> mt_map t.

(** Map and entries refer to each other one to one; free entries have no port. *)
Record mt_inv (size : nat) (t : mac_table) : Prop := {
  mi_len : length (mt_entries t) = size;
  mi_rr : 0 <= mt_rr t < Z.of_nat size;
  mi_map k i : mt_map t !! k = Some i ->
    exists e, mt_entries t !! i = Some e /\ e_port e <> 0 /\ e_key e = k;
  mi_ent i e : mt_entries t !! i = Some e -> e_port e <> 0 -> mt_map t !! e_key e = Some i;
}.

Lemma mt_lookup_abs dst vlan t : mt_lookup dst vlan t = default 0 (mt_abs t !! (dst, vlan)).
Proof. unfold mt_lookup, mt_abs. rewrite lookup_fmap. by destruct (mt_map t !! _). Qed.

Lemma mt_new_inv size : (0 < size)%nat -> mt_inv size (mt_new size).
Proof.
  intros Hs. split; cbn; [apply length_replicate|lia| |].
  - intros k i H. by rewrite lookup_empty in H.
  - intros i e H He. by apply lookup_replicate in H as [-> _].
Qed.

Section Table.
Context {size : nat} {t : mac_table} (H : mt_inv size t).

Lemma entry_at_lookup i e : mt_entries t !! i = Some e -> entry_at i t = e.
Proof. intros E. unfold entry_at. by rewrite E. Qed.

Lemma rr_entry : mt_entries t !! Z.to_nat (mt_rr t) = Some (entry_at (Z.to_nat (mt_rr t)) t).
Proof.
  destruct H as [Hl Hr _ _]. destruct (lookup_lt_is_Some_2 (mt_entries t) (Z.to_nat (mt_rr t))) as [e E]; [lia|].
  by rewrite (entry_at_lookup _ _ E).
Qed.

(** Two keys never share an entry. *)
Lemma map_inj k k' i : mt_map t !! k = Some i -> mt_map t !! k' = Some i -> k = k'.
Proof.
  intros H1 H2. destruct (mi_map _ _ H _ _ H1) as (e & He & _ & <-).
  destruct (mi_map _ _ H _ _ H2) as (e' & He' & _ & <-). congruence.
Qed.

(** *** [learn] *)

Lemma learn_known_inv k v p i :
  p <> 0 -> mt_map t !! (k, v) = Some i -> mt_inv size (mt_learn k p v t).
Proof.
  intros Hp E. unfold mt_learn. rewrite E. destruct (mi_map _ _ H _ _ E) as (e & He & Hne & Hk).
  rewrite (entry_at_lookup _ _ He). split; cbn.
  - rewrite length_insert. apply H.
  - apply H.
  - intros k' j Hj. destruct (decide (j = i)) as [->|Hij].
    + eexists. split; [apply list_lookup_insert_eq; by eapply lookup_lt_Some|]. cbn. split; [done|].
      rewrite (map_inj _ _ _ Hj E), <- Hk. done.
    + rewrite list_lookup_insert_ne by done. by apply (mi_map _ _ H).
  - intros j e' Hj Hp'. destruct (decide (j = i)) as [->|Hij].
    + rewrite list_lookup_insert_eq in Hj by (by eapply lookup_lt_Some). injection Hj as <-.
      change (e_key _) with (e_key e). by rewrite Hk.
    + rewrite list_lookup_insert_ne in Hj by done. by apply (mi_ent _ _ H).
Qed.

Lemma learn_known_abs k v p i :
  mt_map t !! (k, v) = Some i -> mt_abs (mt_learn k p v t) = <[(k, v) := p]> (mt_abs t).
Proof.
  intros E. apply map_eq. intros k'. unfold mt_abs at 1, mt_learn. rewrite E. cbn.
  destruct (mi_map _ _ H _ _ E) as (e & He & _). pose proof (lookup_lt_Some _ _ _ He) as Hlt.
  rewrite lookup_fmap. destruct (decide (k' = (k, v))) as [->|Hne].
  - rewrite lookup_insert_eq, E. cbn. unfold entry_at. cbn. by rewrite list_lookup_insert_eq.
  - rewrite lookup_insert_ne by done. unfold mt_abs. rewrite lookup_fmap.
    destruct (mt_map t !! k') as [j|] eqn:Ej; [|done]. cbn. f_equal. unfold entry_at. cbn.
    rewrite list_lookup_insert_ne; [done|]. intros ->. by apply Hne, (map_inj k' (k, v) j).
Qed.

(** The entry that gives way to a new address. *)
Definition victim : option mac_key :=
  let e := entry_at (Z.to_nat (mt_rr t)) t in if e_port e =? 0 then None else Some (e_key e).

Lemma victim_known k : victim = Some k -> mt_map t !! k = Some (Z.to_nat (mt_rr t)).
Proof.
  unfold victim. destruct (Z.eqb_spec (e_port (entry_at (Z.to_nat (mt_rr t)) t)) 0); [done|].
  intros [= <-]. by apply (mi_ent _ _ H), n; first apply rr_entry.
Qed.

Lemma not_victim k i : mt_map t !! k = Some i -> victim <> Some k -> i <> Z.to_nat (mt_rr t).
Proof.
  intros E Hv ->. apply Hv. destruct (mi_map _ _ H _ _ E) as (e & He & Hp & Hk).
  unfold victim. rewrite (entry_at_lookup _ _ He). replace (e_port e =? 0) with false by lia. by rewrite Hk.
Qed.

(** The map after learning a new address. *)
Lemma learn_new_map k v p :
  mt_map t !! (k, v) = None ->
  mt_map (mt_learn k p v t) =
    <[(k, v) := Z.to_nat (mt_rr t)]> (match victim with Some x => delete x (mt_map t) | None => mt_map t end).
Proof.
  intros E. unfold mt_learn, victim. rewrite E. cbn.
  destruct (Z.eqb_spec (e_port (entry_at (Z.to_nat (mt_rr t)) t)) 0) as [|Hne]; [done|]. cbn.
  apply delete_insert_ne. intros Hk.
  assert (Hv : victim = Some (k, v)).
  { unfold victim. rewrite Hk. by replace (_ =? 0) with false by lia. }
  apply victim_known in Hv. congruence.
Qed.

Lemma learn_new_lookup k v p k' i :
  mt_map t !! (k, v) = None -> mt_map (mt_learn k p v t) !! k' = Some i ->
  k' = (k, v) /\ i = Z.to_nat (mt_rr t) \/
  k' <> (k, v) /\ victim <> Some k' /\ mt_map t !! k' = Some i /\ i <> Z.to_nat (mt_rr t).
Proof.
  intros E. rewrite learn_new_map by done. intros Hi. destruct (decide (k' = (k, v))) as [->|Hne].
  - rewrite lookup_insert_eq in Hi. left. split; [done|congruence].
  - right. rewrite lookup_insert_ne in Hi by done. split; [done|].
    assert (victim <> Some k' /\ mt_map t !! k' = Some i) as [Hv Hi'].
    { destruct victim as [x|]; [|done]. apply lookup_delete_Some in Hi as [Hx Hi]. split; [congruence|done]. }
    split; [done|]. split; [done|]. by apply (not_victim k').
Qed.

Lemma learn_new_entries k v p :
  mt_map t !! (k, v) = None ->
  mt_entries (mt_learn k p v t) =
    <[Z.to_nat (mt_rr t) := {| e_port := p; e_addr := k; e_vlan := v |}]> (mt_entries t) /\
  mt_rr (mt_learn k p v t) = (mt_rr t + 1) mod Z.of_nat size.
Proof. intros E. unfold mt_learn. rewrite E. cbn. split; [done|]. unfold zlen. by rewrite (mi_len _ _ H). Qed.

Lemma learn_new_inv k v p : p <> 0 -> mt_map t !! (k, v) = None -> mt_inv size (mt_learn k p v t).
Proof.
  intros Hp E. destruct (learn_new_entries k v p E) as [He Hr].
  pose proof (mi_rr _ _ H) as Hrr. pose proof (mi_len _ _ H) as Hlen. split.
  - by rewrite He, length_insert.
  - rewrite Hr. apply Z.mod_pos_bound. lia.
  - intros k' i Hi. rewrite He. apply learn_new_lookup in Hi as [[-> ->]|(_ & _ & Hi & Hne)]; [| |done].
    + eexists. split; [apply list_lookup_insert_eq; lia|done].
    + rewrite list_lookup_insert_ne by done. by apply (mi_map _ _ H).
  - intros i e Hi Hpe. rewrite He in Hi. rewrite learn_new_map by done.
    destruct (decide (i = Z.to_nat (mt_rr t))) as [->|Hne].
    + rewrite list_lookup_insert_eq in Hi by lia. injection Hi as <-. apply lookup_insert_eq.
    + rewrite list_lookup_insert_ne in Hi by done. pose proof (mi_ent _ _ H _ _ Hi Hpe) as Hm.
      rewrite lookup_insert_ne by congruence. destruct victim as [x|] eqn:Ev; [|done].
      rewrite lookup_delete_ne; [done|]. intros ->. pose proof (victim_known _ Ev). congruence.
Qed.

Lemma learn_new_abs k v p :
  mt_map t !! (k, v) = None ->
  mt_abs (mt_learn k p v t) =
    <[(k, v) := p]> (match victim with Some x => delete x (mt_abs t) | None => mt_abs t end).
Proof.
  intros E. destruct (learn_new_entries k v p E) as [He _].
  pose proof (mi_rr _ _ H) as Hrr. pose proof (mi_len _ _ H) as Hlen.
  apply map_eq. intros k'. unfold mt_abs at 1. rewrite lookup_fmap.
  destruct (mt_map (mt_learn k p v t) !! k') as [i|] eqn:Ei.
  - cbn. unfold entry_at. rewrite He.
    apply learn_new_lookup in Ei as [[-> ->]|(Hne & Hv & Hi & Hir)]; [| |done].
    + rewrite lookup_insert_eq, list_lookup_insert_eq by lia. done.
    + rewrite lookup_insert_ne, list_lookup_insert_ne by done.
      assert (Hx : mt_abs t !! k' = Some (e_port (entry_at i t))).
      { unfold mt_abs. by rewrite lookup_fmap, Hi. }
      unfold entry_at in Hx. rewrite <- Hx. destruct victim as [x|]; [|done].
      rewrite lookup_delete_ne by congruence. done.
  - cbn. symmetry. rewrite learn_new_map in Ei by done.
    apply lookup_insert_None in Ei as [Ei Hne]. rewrite lookup_insert_ne by done.
    destruct victim as [x|].
    + apply lookup_delete_None in Ei as [->|Ei]; [apply lookup_delete_eq|].
      rewrite lookup_delete_None. right. unfold mt_abs. by rewrite lookup_fmap, Ei.
    + unfold mt_abs. by rewrite lookup_fmap, Ei.
Qed.

(** *** [flush] *)

Lemma flush_key_inv p k : mt_inv size (flush_key p t k).
Proof.
  unfold flush_key. destruct (mt_map t !! k) as [i|] eqn:E; [|done]. split_if; [|done].
  destruct (mi_map _ _ H _ _ E) as (e & He & Hp & Hk). split; cbn.
  - rewrite length_insert. apply H.
  - apply H.
  - intros k' j Hj. apply lookup_delete_Some in Hj as [Hne Hj].
    rewrite list_lookup_insert_ne; [by apply (mi_map _ _ H)|].
    intros ->. by apply Hne, (map_inj k k' j).
  - intros j e' Hj Hp'. destruct (decide (j = i)) as [->|Hij].
    + rewrite list_lookup_insert_eq in Hj by (by eapply lookup_lt_Some). by injection Hj as <-.
    + rewrite list_lookup_insert_ne in Hj by done. pose proof (mi_ent _ _ H _ _ Hj Hp') as Hm.
      rewrite lookup_delete_ne by congruence. done.
Qed.

Lemma flush_key_abs p k k' :
  mt_abs (flush_key p t k) !! k' =
  if decide (k' = k /\ mt_abs t !! k' = Some p) then None else mt_abs t !! k'.
Proof.
  unfold flush_key. destruct (mt_map t !! k) as [i|] eqn:E.
  2: { rewrite decide_False; [done|]. intros [-> Hx]. unfold mt_abs in Hx. by rewrite lookup_fmap, E in Hx. }
  assert (Hk : mt_abs t !! k = Some (e_port (entry_at i t))) by (unfold mt_abs; by rewrite lookup_fmap, E).
  destruct (Z.eqb_spec (e_port (entry_at i t)) p) as [Hp|Hp].
  2: { rewrite decide_False; [done|]. intros [-> Hx]. congruence. }
  destruct (decide (k' = k)) as [->|Hne].
  - rewrite decide_True by (split; congruence). unfold mt_abs. cbn. by rewrite lookup_fmap, lookup_delete_eq.
  - rewrite decide_False by (intros [? _]; done). unfold mt_abs. cbn. rewrite !lookup_fmap, lookup_delete_ne by done.
    destruct (mt_map t !! k') as [j|] eqn:Ej; [|done]. cbn. f_equal. unfold entry_at. cbn.
    rewrite list_lookup_insert_ne; [done|]. intros ->. by apply Hne, (map_inj k' k j).
Qed.
End Table.

Lemma flush_keys size p ks t :
  mt_inv size t -> mt_inv size (foldl (flush_key p) t ks) /\
  forall k, mt_abs (foldl (flush_key p) t ks) !! k =
    if decide (k ∈ ks /\ mt_abs t !! k = Some p) then None else mt_abs t !! k.
Proof.
  revert t. induction ks as [|k0 ks IH]; intros t H.
  - split; [done|]. intros k. rewrite decide_False; [done|]. intros [Hk _]. by apply not_elem_of_nil in Hk.
  - cbn. destruct (IH (flush_key p t k0) (flush_key_inv H p k0)) as [IH1 IH2]. split; [done|].
    intros k. rewrite IH2, (flush_key_abs H).
    destruct (decide (k = k0 /\ mt_abs t !! k = Some p)) as [[-> Hp]|Hd].
    + rewrite decide_False by (by intros [_ ?]). rewrite decide_True; [done|]. split; [by left|done].
    + destruct (decide (k ∈ ks /\ mt_abs t !! k = Some p)) as [[Hi Hp]|Hi].
      * rewrite decide_True; [done|]. split; [by right|done].
      * rewrite decide_False; [done|]. intros [[->|Hin]%elem_of_cons Hp]; tauto.
Qed.

Lemma elem_of_map_keys k t : k ∈ map_keys t <-> is_Some (mt_map t !! k).
Proof.
  unfold map_keys. rewrite merge_sort_Permutation. split.
  - intros Hk. apply list_elem_of_fmap in Hk as ((k' & i) & -> & Hi).
    apply elem_of_map_to_list in Hi. by exists i.
  - intros [i Hi]. apply list_elem_of_fmap. exists (k, i). split; [done|]. by apply elem_of_map_to_list.
Qed.

Lemma mt_flush_abs size p t :
  mt_inv size t ->
  mt_inv size (mt_flush p t) /\ mt_abs (mt_flush p t) = filter (fun kq => snd kq <> p) (mt_abs t).
Proof.
  intros H. destruct (flush_keys size p (map_keys t) t H) as [H1 H2]. split; [done|].
  apply map_eq. intros k. unfold mt_flush. rewrite H2. symmetry.
  destruct (mt_abs t !! k) as [q|] eqn:E.
  - assert (Hk : k ∈ map_keys t).
    { apply elem_of_map_keys. unfold mt_abs in E. rewrite lookup_fmap in E.
      destruct (mt_map t !! k) as [i|]; [by exists i|done]. }
    case_decide as Hd.
    + destruct Hd as [_ [= ->]]. apply map_lookup_filter_None. right. intros x Hx. cbn. intros Hne. congruence.
    + apply map_lookup_filter_Some. split; [done|]. cbn. intros ->. by apply Hd.
  - rewrite decide_False by (by intros [_ ?]). apply map_lookup_filter_None. by left.
Qed.

(** ** The contract of the table *)

(** Learning an address in a table of [cap] entries, abstractly: a known address
    moves to the new port, an unknown one is added, and another address may have
    to go. *)
Inductive learn_step (cap : nat) (k : mac_key) (p : Z) (m : gmap mac_key Z) : gmap mac_key Z -> Prop :=
  | learn_update : is_Some (m !! k) -> learn_step cap k p m (<[k := p]> m)
  | learn_add : m !! k = None -> (size m < cap)%nat -> learn_step cap k p m (<[k := p]> m)
  | learn_evict x : m !! k = None -> is_Some (m !! x) -> learn_step cap k p m (<[k := p]> (delete x m)).

Lemma map_indices_nodup cap t : mt_inv cap t -> NoDup (snd <$> map_to_list (mt_map t)).
Proof.
  intros H. apply NoDup_fmap_2_strong; [|apply NoDup_map_to_list].
  intros [k i] [k' i'] Hk Hk' E. cbn in E. subst i'. apply elem_of_map_to_list in Hk, Hk'.
  by rewrite (map_inj H k k' i).
Qed.

(** No more addresses than entries, and one less when the next entry is free. *)
Lemma mt_size cap t :
  mt_inv cap t -> (size (mt_abs t) <= cap)%nat /\
  (e_port (entry_at (Z.to_nat (mt_rr t)) t) = 0 -> (size (mt_abs t) < cap)%nat).
Proof.
  intros H. unfold mt_abs. rewrite map_size_fmap, <- length_map_to_list, <- (length_fmap snd).
  pose proof (map_indices_nodup cap t H) as Hnd. pose proof (mi_rr _ _ H) as Hr.
  assert (Hin : forall i, i ∈ snd <$> map_to_list (mt_map t) -> (i < cap)%nat /\
            (e_port (entry_at i t) <> 0)).
  { intros i Hi. apply list_elem_of_fmap in Hi as ((k & j) & -> & Hj). apply elem_of_map_to_list in Hj.
    destruct (mi_map _ _ H _ _ Hj) as (e & He & Hp & _). cbn. rewrite (entry_at_lookup _ _ He).
    split; [|done]. rewrite <- (mi_len _ _ H). by eapply lookup_lt_Some. }
  split.
  - rewrite <- (length_seq cap 0). apply submseteq_length, NoDup_submseteq; [done|].
    intros i Hi. apply elem_of_seq. destruct (Hin i Hi). lia.
  - intros Hz. apply (Nat.lt_le_trans _ (length (Z.to_nat (mt_rr t) :: (snd <$> map_to_list (mt_map t)))));
      [cbn; lia|].
    rewrite <- (length_seq cap 0). apply submseteq_length, NoDup_submseteq.
    + constructor; [|done]. intros Hi. by destruct (Hin _ Hi).
    + intros i [->|Hi]%elem_of_cons; apply elem_of_seq; [lia|]. destruct (Hin i Hi). lia.
Qed.

Lemma mt_learn_inv cap k p v t : mt_inv cap t -> p <> 0 -> mt_inv cap (mt_learn k p v t).
Proof.
  intros H Hp. destruct (mt_map t !! (k, v)) as [i|] eqn:E.
  - by eapply learn_known_inv.
  - by apply learn_new_inv.
Qed.

Lemma mt_abs_None t k : mt_map t !! k = None <-> mt_abs t !! k = None.
Proof. unfold mt_abs. rewrite lookup_fmap. by destruct (mt_map t !! k). Qed.

Lemma mt_learn_step cap k p v t :
  mt_inv cap t -> learn_step cap (k, v) p (mt_abs t) (mt_abs (mt_learn k p v t)).
Proof.
  intros H. destruct (mt_map t !! (k, v)) as [i|] eqn:E.
  - rewrite (learn_known_abs H k v p i E). apply learn_update. unfold mt_abs. rewrite lookup_fmap, E. by eexists.
  - rewrite (learn_new_abs H k v p E). pose proof (proj1 (mt_abs_None _ _) E) as Ea.
    destruct victim as [x|] eqn:Ev.
    + apply learn_evict; [done|]. apply (victim_known H) in Ev. unfold mt_abs. rewrite lookup_fmap, Ev. by eexists.
    + apply learn_add; [done|]. apply (mt_size cap t H). unfold victim in Ev. split_if; [lia|done].
Qed.

(** What learning adds, and that it adds nothing else. *)
Lemma mt_learn_lookup cap k p v t :
  mt_inv cap t ->
  mt_abs (mt_learn k p v t) !! (k, v) = Some p /\
  forall key x, mt_abs (mt_learn k p v t) !! key = Some x ->
    (key = (k, v) /\ x = p) \/ mt_abs t !! key = Some x.
Proof.
  intros H. destruct (mt_learn_step cap k p v t H) as [_|_ _|y _ _];
    (split; [by rewrite lookup_insert_eq|]); intros key x E;
    apply lookup_insert_Some in E as [[<- <-]|[_ E]]; auto.
  apply lookup_delete_Some in E as [_ E]. auto.
Qed.

(** No address of the port is left, as [flush] asserts. *)
Lemma flush_asserts_hold cap p t : mt_inv cap t -> flush_asserts p (mt_flush p t) = true.
Proof.
  intros H. unfold flush_asserts. apply forallb_forall. intros k _.
  destruct (mt_map (mt_flush p t) !! k) as [i|] eqn:E; [|done].
  assert (Ha : mt_abs (mt_flush p t) !! k = Some (e_port (entry_at i (mt_flush p t))))
    by (unfold mt_abs; by rewrite lookup_fmap, E).
  rewrite (proj2 (mt_flush_abs cap p t H)) in Ha.
  apply map_lookup_filter_Some in Ha as [_ Hne]. cbn in Hne. lia.
Qed.

(** The tables a switch can have. *)
Inductive mt_reach (cap : nat) : mac_table -> Prop :=
  | mr_new : mt_reach cap (mt_new cap)
  | mr_learn k p v t : mt_reach cap t -> p <> 0 -> mt_reach cap (mt_learn k p v t)
  | mr_flush p t : mt_reach cap t -> mt_reach cap (mt_flush p t).

Lemma mt_reach_inv cap t : (0 < cap)%nat -> mt_reach cap t -> mt_inv cap t.
Proof.
  intros Hc. induction 1 as [|k p v t _ IH Hp|p t _ IH].
  - by apply mt_new_inv.
  - by apply mt_learn_inv.
  - by apply (mt_flush_abs cap).
Qed.


(** ** How long an address is remembered *)

Fixpoint learn_all (l : list (Z * Z * Z)) (t : mac_table) : mac_table :=
  match l with
  | [] => t
  | (k, p, v) :: l => learn_all l (mt_learn k p v t)
  end.

(** The port [key] was last seen at. *)
Fixpoint last_port (key : mac_key) (p : Z) (l : list (Z * Z * Z)) : Z :=
  match l with
  | [] => p
  | (k, q, v) :: l => last_port key (if decide ((k, v) = key) then q else p) l
  end.

Lemma learn_known_keeps cap k v q t key i :
  mt_inv cap t -> is_Some (mt_map t !! (k, v)) -> mt_map t !! key = Some i ->
  let t' := mt_learn k q v t in
  mt_map t' !! key = Some i /\ mt_rr t' = mt_rr t /\
  e_port (entry_at i t') = if decide ((k, v) = key) then q else e_port (entry_at i t).
Proof.
  intros H [j Hj] Hi. cbv zeta. unfold mt_learn. rewrite Hj. unfold entry_at. cbn.
  split; [done|]. split; [done|]. destruct (mi_map _ _ H _ _ Hj) as (e & He & _).
  pose proof (lookup_lt_Some _ _ _ He) as Hlt. case_decide as Hd.
  - rewrite Hd in Hj. replace j with i in * by congruence. by rewrite list_lookup_insert_eq.
  - rewrite list_lookup_insert_ne; [done|]. intros ->. by apply Hd, (map_inj H _ _ i).
Qed.

Lemma learn_new_keeps cap k v q t key i :
  mt_inv cap t -> mt_map t !! (k, v) = None -> mt_map t !! key = Some i -> i <> Z.to_nat (mt_rr t) ->
  let t' := mt_learn k q v t in
  mt_map t' !! key = Some i /\ mt_rr t' = (mt_rr t + 1) mod Z.of_nat cap /\
  e_port (entry_at i t') = e_port (entry_at i t).
Proof.
  intros H E Hi Hne. cbv zeta. destruct (learn_new_entries H k v q E) as [He Hr].
  split; [|split; [done|unfold entry_at at 1; rewrite He, list_lookup_insert_ne by congruence; done]].
  rewrite (learn_new_map H) by done. rewrite lookup_insert_ne by congruence.
  destruct victim as [x|] eqn:Ev; [|done]. apply (victim_known H) in Ev.
  rewrite lookup_delete_ne; [done|]. intros ->. congruence.
Qed.

Lemma survives cap key i g l t p :
  (0 < cap)%nat -> mt_inv cap t -> Forall (fun x => snd (fst x) <> 0) l ->
  mt_map t !! key = Some i -> e_port (entry_at i t) = p ->
  Z.of_nat i = (mt_rr t + g) mod Z.of_nat cap -> 0 <= g < Z.of_nat cap -> zlen l <= g ->
  mt_abs (learn_all l t) !! key = Some (last_port key p l).
Proof.
  intros Hc. revert g t p. induction l as [|[[k q] v] l IH]; intros g t p H Hl Hi Hp Hg Hgb Hlen.
  - cbn. unfold mt_abs. rewrite lookup_fmap, Hi. cbn. by rewrite Hp.
  - apply Forall_cons_iff in Hl as [Hq Hl]. cbn in Hq. pose proof (mt_learn_inv cap k q v t H Hq) as H'.
    assert (Hz : zlen ((k, q, v) :: l) = zlen l + 1) by (unfold zlen; cbn [length]; lia).
    pose proof (zlen_nonneg l). cbn [learn_all last_port].
    destruct (mt_map t !! (k, v)) as [j|] eqn:E.
    + destruct (learn_known_keeps cap k v q t key i H ltac:(by eexists) Hi) as (H1 & H2 & H3).
      apply (IH g); try done; [by rewrite H3, Hp|by rewrite H2|lia].
    + pose proof (mi_rr _ _ H) as Hr.
      assert (Hne : i <> Z.to_nat (mt_rr t)).
      { intros Ei. rewrite Ei, Z2Nat.id in Hg by lia.
        pose proof (Z.div_mod (mt_rr t + g) (Z.of_nat cap) ltac:(lia)).
        assert ((mt_rr t + g) / Z.of_nat cap = 0 \/ (mt_rr t + g) / Z.of_nat cap = 1) as [Hd|Hd] by nia; nia. }
      destruct (learn_new_keeps cap k v q t key i H E Hi Hne) as (H1 & H2 & H3).
      rewrite decide_False by congruence.
      apply (IH (g - 1)); try done; [by rewrite H3| |lia..].
      rewrite H2, Zplus_mod_idemp_l, Hg. f_equal. lia.
Qed.

(** A newly learned address is remembered, with the port it was last seen at,
    until as many other addresses have been learned as the table has entries. *)
Theorem learned_address_survives cap t k v p l :
  (0 < cap)%nat -> mt_reach cap t -> p <> 0 -> Forall (fun x => snd (fst x) <> 0) l ->
  mt_lookup k v t = 0 -> (length l < cap)%nat ->
  mt_lookup k v (learn_all l (mt_learn k p v t)) = last_port (k, v) p l.
Proof.
  intros Hc Ht Hp Hl Hu Hlen. pose proof (mt_reach_inv cap t Hc Ht) as H.
  assert (E : mt_map t !! (k, v) = None).
  { rewrite mt_lookup_abs in Hu. apply mt_abs_None. destruct (mt_map t !! (k, v)) as [i|] eqn:E.
    - destruct (mi_map _ _ H _ _ E) as (e & He & Hpe & _). unfold mt_abs in Hu.
      rewrite lookup_fmap, E in Hu. cbn in Hu. rewrite (entry_at_lookup _ _ He) in Hu. done.
    - unfold mt_abs. by rewrite lookup_fmap, E. }
  pose proof (mi_rr _ _ H) as Hr. pose proof (mi_len _ _ H) as Hn.
  destruct (learn_new_entries H k v p E) as [He Hrr].
  rewrite mt_lookup_abs, (survives cap (k, v) (Z.to_nat (mt_rr t)) (Z.of_nat cap - 1) l _ p);
    try done; unfold zlen; try lia.
  - by apply learn_new_inv.
  - rewrite (learn_new_map H) by done. apply lookup_insert_eq.
  - unfold entry_at. rewrite He, list_lookup_insert_eq by lia. done.
  - rewrite Hrr, Zplus_mod_idemp_l. replace (mt_rr t + 1 + (Z.of_nat cap - 1)) with (mt_rr t + 1 * Z.of_nat cap) by lia.
    rewrite Z_mod_plus_full, Z.mod_small; lia.
Qed.

Module Table_example.
(** A table of three entries; ports 100, 200 and 300. *)
Definition t3 : mac_table :=
  learn_all [(0x11, 100, 1); (0x22, 200, 1); (0x33, 300, 2)] (mt_new 3).

Lemma t3_reach : mt_reach 3 t3.
Proof. unfold t3. cbn [learn_all]. repeat (apply mr_learn; [|discriminate]). apply mr_new. Qed.


Lemma learned_address_survives_witness :
  mt_lookup 0x44 7 (learn_all [(0x55, 100, 1); (0x44, 200, 7)] (mt_learn 0x44 300 7 t3)) = 200.
Proof.
  rewrite (learned_address_survives 3 t3 0x44 7 300 [(0x55, 100, 1); (0x44, 200, 7)]); try lia.
  - vm_compute. reflexivity.
  - exact t3_reach.
  - repeat constructor; discriminate.
  - vm_compute. reflexivity.
  - cbn. lia.
Defined.

(** After a flush the table has room, yet learning evicts a known address: the
    ring position, not a free entry, decides. *)
Example evicts_although_not_full :
  let t := mt_flush 200 t3 in
  size (mt_abs t) = 2%nat /\ mt_lookup 0x11 1 t = 100 /\
  mt_lookup 0x11 1 (mt_learn 0x66 300 1 t) = 0.
Proof. vm_compute. repeat split. Qed.
End Table_example.
