(* ===== verification/Vlan.v ===== *)
(** * Rewriting VLAN tags while a packet is copied

    [pkg/virtio-net-switch/server/switch/vlan.h]: [Virtio_vlan_mangle] copies a
    packet from one chain of buffers to another, piece by piece, adding or removing
    the VLAN tag behind the two MAC addresses; [virtio_net.h]: the packet header. *)

From S2P Require Import Prelude L4Round DriverMem Virtqueue RequestProc.

Definition VLAN_ID_NATIVE : Z := 0xffff.
Definition VLAN_ID_TRUNK : Z := 0xfffe.

Definition vlan_valid_id (id : Z) : bool := (0 <? id) && (id <? 0xfff).

(** [Virtio_vlan_mangle]. *)
Record mangle := { m_tci : Z; m_mac_remaining : Z; m_tag_remaining : Z }.

Definition mangle_none : mangle := {| m_tci := 0; m_mac_remaining := 0; m_tag_remaining := 0 |}.
Definition mangle_add (tci : Z) : mangle :=
  {| m_tci := tci; m_mac_remaining := 12; m_tag_remaining := 4 |}.
Definition mangle_remove : mangle :=
  {| m_tci := 0xffff; m_mac_remaining := 12; m_tag_remaining := -4 |}.

Definition tag_bytes (tci : Z) : bytes := [0x81; 0x00; u8 (Z.shiftr tci 8); u8 (Z.land tci 0xff)].

(** The state, [dst], [src], the memory and the number of bytes copied. *)
Definition copy_pkt (g : mangle) (dst src : buffer) (m : memory)
    : mangle * buffer * buffer * memory * Z :=
  if m_tci g =? 0 then
    let '(src, dst, m, n) := copy_to src dst UINT_MAX m in (g, dst, src, m, n)
  else if negb (m_mac_remaining g =? 0) then
    let '(src, dst, m, n) := copy_to src dst (m_mac_remaining g) m in
    ({| m_tci := m_tci g; m_mac_remaining := m_mac_remaining g -[8] n;
        m_tag_remaining := m_tag_remaining g |}, dst, src, m, n)
  else if 0 <? m_tag_remaining g then
    let n := Z.min (m_tag_remaining g) (left dst) in
    let m := mem_wr (pos dst) (slice (4 - m_tag_remaining g) n (tag_bytes (m_tci g))) m in
    ({| m_tci := m_tci g; m_mac_remaining := m_mac_remaining g;
        m_tag_remaining := swrap 8 (m_tag_remaining g - n) |}, fst (skip n dst), src, m, n)
  else if m_tag_remaining g <? 0 then
    let '(src, k) := skip (- m_tag_remaining g) src in
    ({| m_tci := m_tci g; m_mac_remaining := m_mac_remaining g;
        m_tag_remaining := swrap 8 (m_tag_remaining g + k) |}, dst, src, m, 0)
  else
    let '(src, dst, m, n) := copy_to src dst UINT_MAX m in (g, dst, src, m, n).

(** [Virtio_net::Hdr]. *)
Record net_hdr := {
  nh_flags : Z;
  nh_gso_type : Z;
  nh_hdr_len : Z;
  nh_gso_size : Z;
  nh_csum_start : Z;
  nh_csum_offset : Z;
  nh_num_buffers : Z;
}.

Definition need_csum (h : net_hdr) : bool := Z.testbit (nh_flags h) 0.

Definition rewrite_hdr (g : mangle) (h : net_hdr) : net_hdr :=
  if negb (m_tci g =? 0) && need_csum h then
    {| nh_flags := nh_flags h; nh_gso_type := nh_gso_type h; nh_hdr_len := nh_hdr_len h;
       nh_gso_size := nh_gso_size h;
       nh_csum_start := if m_tci g =? 0xffff then nh_csum_start h -[16] 4 else nh_csum_start h +[16] 4;
       nh_csum_offset := nh_csum_offset h; nh_num_buffers := nh_num_buffers h |}
  else h.

(** ** The packet as a whole *)

(** What is still to be written for the rest [p] of the packet. *)
Definition mangle_out (g : mangle) (p : bytes) : bytes :=
  if m_tci g =? 0 then p
  else
    take (Z.to_nat (m_mac_remaining g)) p ++
    (if 0 <? m_tag_remaining g
     then drop (Z.to_nat (4 - m_tag_remaining g)) (tag_bytes (m_tci g))
          ++ drop (Z.to_nat (m_mac_remaining g)) p
     else drop (Z.to_nat (m_mac_remaining g - m_tag_remaining g)) p).

Definition mangle_ok (g : mangle) : Prop :=
  in_u 16 (m_tci g) /\ 0 <= m_mac_remaining g <= 12 /\ -4 <= m_tag_remaining g <= 4.

(** Data follows the place where a tag is inserted, or the tag that is removed. *)
Definition mangle_live (g : mangle) (p : bytes) : Prop :=
  m_tci g <> 0 -> m_tag_remaining g <> 0 ->
  m_mac_remaining g + Z.max 0 (- m_tag_remaining g) < zlen p.

(** What is left to do. *)
Definition mangle_work (g : mangle) (p : bytes) : Z := zlen p + Z.max 0 (m_tag_remaining g).

(** ** Memory *)

Definition disj (a n b k : Z) : Prop := a + n <= b \/ b + k <= a.

Lemma mem_rd_ext m m' a n : (forall i, 0 <= i < n -> m (a + i) = m' (a + i)) -> mem_rd m a n = mem_rd m' a n.
Proof.
  intros H. unfold mem_rd. apply list_fmap_ext. intros i x Hx. apply H.
  apply list_elem_of_lookup_2, elem_of_seqZ in Hx. lia.
Qed.

Lemma mem_wr_outside a l m x : (x < a \/ a + zlen l <= x) -> mem_wr a l m x = m x.
Proof. intros H. unfold mem_wr. by replace ((a <=? x) && (x <? a + zlen l)) with false by lia. Qed.

Lemma mem_rd_wr_disj a n b l m : disj a n b (zlen l) -> mem_rd (mem_wr b l m) a n = mem_rd m a n.
Proof.
  intros H. apply mem_rd_ext. intros i Hi. apply mem_wr_outside. unfold disj in H. lia.
Qed.

Lemma mem_rd_wr_same a l m : mem_rd (mem_wr a l m) a (zlen l) = l.
Proof.
  apply list_eq. intros i. unfold mem_rd. rewrite list_lookup_fmap.
  destruct (decide (i < length l)%nat) as [Hi|Hi].
  - rewrite lookup_seqZ_lt by (unfold zlen; lia). cbn. unfold mem_wr.
    replace ((a <=? _) && (_ <? _)) with true by (unfold zlen; lia).
    replace (Z.to_nat (a + (0 + Z.of_nat i) - a)) with i by lia.
    destruct (lookup_lt_is_Some_2 l i Hi) as [x Hx]. rewrite Hx. f_equal.
    by apply nth_lookup_Some with (d := 0) in Hx.
  - rewrite lookup_seqZ_ge by (unfold zlen; lia). cbn. symmetry. apply lookup_ge_None. lia.
Qed.

Lemma mem_rd_split m a n k : 0 <= k <= n -> mem_rd m a n = mem_rd m a k ++ mem_rd m (a + k) (n - k).
Proof.
  intros H. unfold mem_rd. replace n with (k + (n - k)) at 1 by lia. rewrite seqZ_app, fmap_app by lia.
  f_equal. replace (0 + k) with (k + 0) by lia. rewrite <- fmap_add_seqZ, <- list_fmap_compose.
  apply list_fmap_ext. intros i x _. cbn. f_equal. lia.
Qed.

Lemma mem_rd_take m a n k : 0 <= k <= n -> take (Z.to_nat k) (mem_rd m a n) = mem_rd m a k.
Proof.
  intros H. rewrite (mem_rd_split m a n k) by done. apply take_app_length'.
  pose proof (zlen_mem_rd m a k ltac:(lia)) as Hl. unfold zlen in Hl. lia.
Qed.

Lemma mem_rd_drop m a n k : 0 <= k <= n -> drop (Z.to_nat k) (mem_rd m a n) = mem_rd m (a + k) (n - k).
Proof.
  intros H. rewrite (mem_rd_split m a n k) by done. apply drop_app_length'.
  pose proof (zlen_mem_rd m a k ltac:(lia)) as Hl. unfold zlen in Hl. lia.
Qed.

Lemma zlen_take {A} n (l : list A) : 0 <= n <= zlen l -> zlen (take (Z.to_nat n) l) = n.
Proof. unfold zlen. rewrite length_take. lia. Qed.

Lemma zlen_drop {A} n (l : list A) : 0 <= n <= zlen l -> zlen (drop (Z.to_nat n) l) = zlen l - n.
Proof. unfold zlen. rewrite length_drop. lia. Qed.

(** ** One call of [copy_pkt] *)

(** The effect of a call on source data [c], the rest [r] of the packet, and the
    destination: [n] bytes are consumed, [o] is written. *)
Record copies (g : mangle) (dst src : buffer) (m : memory) (c r : bytes)
    (g' : mangle) (n : Z) (o : bytes) : Prop := {
  cp_eq : exists m', copy_pkt g dst src m = (g', advance (zlen o) dst, advance n src, m', zlen o) /\
    forall x, m' x = mem_wr (pos dst) o m x;
  cp_n : 0 <= n <= left src;
  cp_o : zlen o <= left dst;
  cp_out : mangle_out g (c ++ r) = o ++ mangle_out g' (drop (Z.to_nat n) c ++ r);
  cp_ok : mangle_ok g';
  cp_live : mangle_live g' (drop (Z.to_nat n) c ++ r);
  cp_work : mangle_work g' (drop (Z.to_nat n) c ++ r) <= mangle_work g (c ++ r);
  cp_progress : 0 < left src -> 0 < left dst ->
    mangle_work g' (drop (Z.to_nat n) c ++ r) < mangle_work g (c ++ r);
}.

Section Copy.
Context (g : mangle) (dst src : buffer) (m : memory) (c r : bytes).
Context (Hg : mangle_ok g) (Hd : in_u 32 (left dst)) (Hs : in_u 32 (left src)).
Context (Hc : c = mem_rd m (pos src) (left src)) (Hl : mangle_live g (c ++ r)).

Lemma src_len : zlen c = left src.
Proof. rewrite Hc. apply zlen_mem_rd. unfold in_u in Hs. lia. Qed.

Lemma copied n : 0 <= n <= left src -> mem_rd m (pos src) n = take (Z.to_nat n) c.
Proof. intros Hn. rewrite Hc. by rewrite mem_rd_take. Qed.

Lemma drop_src n : 0 <= n <= left src -> drop (Z.to_nat n) c ++ r = drop (Z.to_nat n) (c ++ r).
Proof. intros Hn. rewrite drop_app_le; [done|]. pose proof src_len as H. unfold zlen in H. lia. Qed.

Lemma take_src n : 0 <= n <= left src -> take (Z.to_nat n) c = take (Z.to_nat n) (c ++ r).
Proof. intros Hn. rewrite take_app_le; [done|]. pose proof src_len as H. unfold zlen in H. lia. Qed.

Lemma advance_0 b : in_u 32 (left b) -> advance 0 b = b.
Proof.
  intros Hb. destruct b as [p l]. unfold advance. cbn in *. rewrite Z.add_0_r, Z.sub_0_r.
  by rewrite uwrap_small.
Qed.

(** Copying data through, at most [mx] bytes of it. *)
Lemma copies_through g' mx :
  0 <= mx ->
  let n := Z.min (Z.min (left src) (left dst)) mx in
  copy_pkt g dst src m = (let '(b, d, m', k) := copy_to src dst mx m in (g', d, b, m', k)) ->
  mangle_ok g' -> m_tag_remaining g' = m_tag_remaining g ->
  mangle_live g' (drop (Z.to_nat n) (c ++ r)) ->
  mangle_out g (c ++ r) = take (Z.to_nat n) (c ++ r) ++ mangle_out g' (drop (Z.to_nat n) (c ++ r)) ->
  (0 < left src -> 0 < left dst -> 0 < mx) ->
  copies g dst src m c r g' n (take (Z.to_nat n) c).
Proof.
  intros Hmx n E Hok Ht Hlv Ho Hpr. unfold in_u in *. pose proof src_len as Hlen.
  assert (Hn : 0 <= n <= left src) by lia.
  assert (Hto : zlen (take (Z.to_nat n) c) = n) by (apply zlen_take; lia).
  assert (Hw : mangle_work g' (drop (Z.to_nat n) c ++ r) = mangle_work g (c ++ r) - n).
  { unfold mangle_work. rewrite Ht, !zlen_app, zlen_drop by lia. lia. }
  split; rewrite ?Hto, ?Hw.
  - eexists. rewrite E. unfold copy_to. fold n. split; [reflexivity|].
    intros x. unfold memcpy. by rewrite copied.
  - done.
  - lia.
  - rewrite drop_src, take_src by done. done.
  - done.
  - by rewrite drop_src.
  - lia.
  - lia.
Qed.

Lemma step_pass : m_tci g = 0 -> exists g' n o, copies g dst src m c r g' n o.
Proof.
  intros E. exists g. eexists _, _. apply (copies_through g UINT_MAX); unfold UINT_MAX; try done; try lia.
  - unfold copy_pkt. rewrite E. cbn [Z.eqb]. by destruct (copy_to _ _ _ _) as [[[? ?] ?] ?].
  - by intros H.
  - unfold mangle_out. rewrite E. cbn [Z.eqb]. by rewrite take_drop.
Qed.

Lemma step_mac : m_tci g <> 0 -> m_mac_remaining g <> 0 -> exists g' n o, copies g dst src m c r g' n o.
Proof.
  intros E1 E2. destruct Hg as (Ht & Hm & Htag). unfold in_u in *.
  set (n := Z.min (Z.min (left src) (left dst)) (m_mac_remaining g)).
  exists {| m_tci := m_tci g; m_mac_remaining := m_mac_remaining g - n; m_tag_remaining := m_tag_remaining g |}, n.
  eexists. pose proof src_len as Hlen. pose proof (zlen_nonneg r) as Hr.
  apply (copies_through _ (m_mac_remaining g)); cbn; try done; try lia.
  - unfold copy_pkt. replace (m_tci g =? 0) with false by lia.
    replace (m_mac_remaining g =? 0) with false by lia. cbn [negb]. unfold copy_to. fold n.
    rewrite (uwrap_small 8) by (unfold in_u; lia). done.
  - unfold mangle_ok, in_u. cbn. lia.
  - unfold mangle_live in *. cbn. intros _ H0. specialize (Hl E1 H0).
    rewrite zlen_app in Hl.
    fold n. rewrite zlen_drop by (rewrite zlen_app; lia). rewrite zlen_app. lia.
  - fold n. unfold mangle_out. cbn. replace (m_tci g =? 0) with false by lia.
    replace (Z.to_nat (m_mac_remaining g)) with (Z.to_nat n + Z.to_nat (m_mac_remaining g - n))%nat by lia.
    rewrite <- take_take_drop, <- app_assoc. do 2 f_equal. rewrite !drop_drop. split_if.
    + done.
    + f_equal. lia.
Qed.

Lemma step_add :
  m_tci g <> 0 -> m_mac_remaining g = 0 -> 0 < m_tag_remaining g ->
  exists g' n o, copies g dst src m c r g' n o.
Proof.
  intros E1 E2 E3. destruct Hg as (Ht & Hm & Htag). pose proof Hd as Hd'. unfold in_u in Hd'.
  set (k := Z.min (m_tag_remaining g) (left dst)).
  set (o := slice (4 - m_tag_remaining g) k (tag_bytes (m_tci g))).
  set (g' := {| m_tci := m_tci g; m_mac_remaining := 0; m_tag_remaining := m_tag_remaining g - k |}).
  exists g', 0, o. assert (Ho : zlen o = k) by (apply zlen_slice; unfold zlen; cbn; lia).
  assert (Hout : mangle_out g (c ++ r) = o ++ mangle_out g' (c ++ r)).
  { unfold mangle_out. cbn. rewrite E2. replace (m_tci g =? 0) with false by lia.
    replace (0 <? m_tag_remaining g) with true by lia. change (Z.to_nat 0) with 0%nat.
    rewrite !take_0, !drop_0, !app_nil_l.
    assert (Htg : drop (Z.to_nat (4 - m_tag_remaining g)) (tag_bytes (m_tci g)) =
                  o ++ drop (Z.to_nat (4 - (m_tag_remaining g - k))) (tag_bytes (m_tci g))).
    { unfold o, slice. replace (Z.to_nat (4 - (m_tag_remaining g - k)))
        with (Z.to_nat (4 - m_tag_remaining g) + Z.to_nat k)%nat by lia.
      rewrite <- drop_drop. by rewrite take_drop. }
    rewrite Htg, <- app_assoc. f_equal. destruct (Z.ltb_spec 0 (m_tag_remaining g - k)) as [?|?]; [done|].
    replace (Z.to_nat (4 - (m_tag_remaining g - k))) with 4%nat by lia.
    replace (Z.to_nat (0 - (m_tag_remaining g - k))) with 0%nat by lia. done. }
  split; rewrite ?Ho; change (Z.to_nat 0) with 0%nat; rewrite ?drop_0; try done.
  - eexists. unfold copy_pkt. replace (m_tci g =? 0) with false by lia. rewrite E2. cbn [Z.eqb negb].
    replace (0 <? m_tag_remaining g) with true by lia. fold k. unfold skip. cbn [fst].
    replace (Z.min (left dst) k) with k by lia. rewrite (advance_0 src Hs).
    rewrite swrap_small by lia. split; [reflexivity|]. done.
  - unfold in_u in Hs. lia.
  - lia.
  - unfold mangle_ok. cbn. unfold in_u in *. lia.
  - unfold mangle_live in *. cbn. intros _ _. specialize (Hl E1 ltac:(lia)). lia.
  - unfold mangle_work. cbn. lia.
  - unfold mangle_work. cbn. lia.
Qed.

Lemma step_remove :
  m_tci g <> 0 -> m_mac_remaining g = 0 -> m_tag_remaining g < 0 ->
  exists g' n o, copies g dst src m c r g' n o.
Proof.
  intros E1 E2 E3. destruct Hg as (Ht & Hm & Htag). pose proof Hs as Hs'. unfold in_u in Hs'.
  pose proof src_len as Hlen. set (k := Z.min (left src) (- m_tag_remaining g)).
  exists {| m_tci := m_tci g; m_mac_remaining := 0; m_tag_remaining := m_tag_remaining g + k |}, k, [].
  split; cbn [app]; change (zlen (@nil Z)) with 0.
  - exists m. unfold copy_pkt. replace (m_tci g =? 0) with false by lia. rewrite E2. cbn [Z.eqb negb].
    replace (0 <? m_tag_remaining g) with false by lia. replace (m_tag_remaining g <? 0) with true by lia.
    unfold skip. fold k. rewrite (advance_0 dst Hd), swrap_small by lia. split; [done|].
    intros x. symmetry. apply mem_wr_outside. change (zlen (@nil Z)) with 0. lia.
  - lia.
  - unfold in_u in Hd. lia.
  - rewrite drop_src by lia. unfold mangle_out. cbn. rewrite E2.
    replace (m_tci g =? 0) with false by lia. replace (0 <? m_tag_remaining g) with false by lia.
    replace (0 <? m_tag_remaining g + k) with false by lia.
    change (Z.to_nat 0) with 0%nat. rewrite !take_0, !app_nil_l, drop_drop. f_equal. lia.
  - unfold mangle_ok. cbn. unfold in_u in *. lia.
  - unfold mangle_live in *. cbn. intros _ _. specialize (Hl E1 ltac:(lia)).
    rewrite zlen_app in Hl |- *. rewrite zlen_drop by lia. lia.
  - unfold mangle_work. cbn. rewrite !zlen_app, zlen_drop by lia. lia.
  - unfold mangle_work. cbn. rewrite !zlen_app, zlen_drop by lia. lia.
Qed.

Lemma step_rest :
  m_tci g <> 0 -> m_mac_remaining g = 0 -> m_tag_remaining g = 0 ->
  exists g' n o, copies g dst src m c r g' n o.
Proof.
  intros E1 E2 E3. exists g. eexists _, _.
  apply (copies_through g UINT_MAX); unfold UINT_MAX; try done; try lia.
  - unfold copy_pkt. replace (m_tci g =? 0) with false by lia. rewrite E2, E3.
    cbn [Z.eqb Z.ltb Z.compare negb]. by destruct (copy_to _ _ _ _) as [[[? ?] ?] ?].
  - unfold mangle_live. rewrite E3. lia.
  - unfold mangle_out. replace (m_tci g =? 0) with false by lia. rewrite E2, E3.
    change (0 <? 0) with false. change (Z.to_nat (0 - 0)) with 0%nat. change (Z.to_nat 0) with 0%nat.
    by rewrite !take_0, !drop_0, !app_nil_l, take_drop.
Qed.

(** Every call copies some part of the packet and makes progress. *)
Lemma copy_pkt_step : exists g' n o, copies g dst src m c r g' n o.
Proof.
  destruct (Z.eq_dec (m_tci g) 0); [by apply step_pass|].
  destruct (Z.eq_dec (m_mac_remaining g) 0); [|by apply step_mac].
  destruct (Z.lt_trichotomy (m_tag_remaining g) 0) as [?|[?|?]].
  - by apply step_remove.
  - by apply step_rest.
  - by apply step_add.
Qed.
End Copy.

(** Nothing is to be written only when nothing is left of the packet. *)
Lemma mangle_out_nil g p :
  mangle_ok g -> mangle_live g p -> mangle_out g p = [] -> p = [].
Proof.
  intros (_ & Hm & Ht) Hl. unfold mangle_out, mangle_live in *.
  destruct (Z.eqb_spec (m_tci g) 0) as [|Hne]; [done|].
  intros [E1 E2]%app_eq_nil. destruct (Z.eq_dec (m_tag_remaining g) 0) as [E0|E0].
  - rewrite E0 in E2. change (0 <? 0) with false in E2. cbv iota in E2.
    rewrite Z.sub_0_r in E2. rewrite <- (take_drop (Z.to_nat (m_mac_remaining g)) p), E1, E2. done.
  - exfalso. specialize (Hl Hne E0). apply (f_equal zlen) in E2.
    destruct (Z.ltb_spec 0 (m_tag_remaining g)).
    + rewrite zlen_app, zlen_drop in E2 by (unfold zlen; cbn; lia).
      pose proof (zlen_nonneg (drop (Z.to_nat (m_mac_remaining g)) p)). unfold zlen in E2 at 1. cbn in E2.
      change (zlen (@nil Z)) with 0 in E2. lia.
    + rewrite zlen_drop in E2 by lia. change (zlen (@nil Z)) with 0 in E2. lia.
Qed.

(** At the end of the packet there is nothing left to write. *)
Lemma mangle_out_end g : mangle_ok g -> mangle_live g [] -> mangle_out g [] = [].
Proof.
  intros (_ & Hm & _) Hl. unfold mangle_out. destruct (Z.eqb_spec (m_tci g) 0) as [|Hne]; [done|].
  destruct (Z.eq_dec (m_tag_remaining g) 0) as [E0|E0].
  - rewrite E0. change (0 <? 0) with false. cbv iota. by rewrite take_nil, drop_nil.
  - specialize (Hl Hne E0). change (zlen (@nil Z)) with 0 in Hl. lia.
Qed.

(** The two rewritings as functions on whole packets. *)
Lemma mangle_add_out tci p :
  tci <> 0 -> mangle_out (mangle_add tci) p = take 12 p ++ tag_bytes tci ++ drop 12 p.
Proof. intros H. unfold mangle_out. cbn. by replace (tci =? 0) with false by lia. Qed.

Lemma mangle_remove_out p : mangle_out mangle_remove p = take 12 p ++ drop 16 p.
Proof. done. Qed.

(** Adding a VLAN tag to a packet and removing it again gives the packet and
    its header back, for every VLAN and every packet with both MAC addresses. *)
Theorem vlan_tag_roundtrip tci p h :
  0 < tci < 0xffff -> 12 <= zlen p -> in_u 16 (nh_csum_start h) ->
  mangle_out mangle_remove (mangle_out (mangle_add tci) p) = p /\
  rewrite_hdr mangle_remove (rewrite_hdr (mangle_add tci) h) = h.
Proof.
  intros Ht Hp Hc. split.
  - rewrite mangle_add_out, mangle_remove_out by lia.
    assert (Hl : length (take 12 p) = 12%nat) by (rewrite length_take; unfold zlen in Hp; lia).
    rewrite take_app_length' by done. rewrite drop_app_ge by lia. rewrite Hl.
    change (16 - 12)%nat with (length (tag_bytes tci)). rewrite drop_app_length. apply take_drop.
  - destruct h as [fl gt hl gs cs co nb]. unfold rewrite_hdr, need_csum, mangle_add, mangle_remove. cbn in *.
    replace (tci =? 0) with false by lia. replace (tci =? 65535) with false by lia. cbn.
    destruct (Z.odd fl) eqn:E; cbn; rewrite ?E; [|done]. f_equal.
    rewrite uwrap_sub_l. replace (cs + 4 - 4) with cs by lia. by apply uwrap_small.
Qed.

Lemma vlan_tag_roundtrip_witness :
  let p := [1;2;3;4;5;6; 7;8;9;10;11;12; 8;0; 69] in
  mangle_out (mangle_add 0x123) p = [1;2;3;4;5;6; 7;8;9;10;11;12; 0x81;0;1;0x23; 8;0; 69] /\
  mangle_out mangle_remove (mangle_out (mangle_add 0x123) p) = p.
Proof.
  split; [reflexivity|].
  apply (vlan_tag_roundtrip 0x123 [1;2;3;4;5;6; 7;8;9;10;11;12; 8;0; 69]
           {| nh_flags := 1; nh_gso_type := 0; nh_hdr_len := 0; nh_gso_size := 0; nh_csum_start := 34;
              nh_csum_offset := 16; nh_num_buffers := 0 |}); by_eval.
Defined.
