(* ===== verification/NetRequest.v ===== *)
(** * Requests of the network switch and their transfers

    [pkg/virtio-net-switch/server/switch]: [request.h] ([Net_request],
    [Net_transfer]), [request_l4virtio.h] ([Virtio_net_request]) and
    [request_ixl.h] ([Ixl_net_request]).  A request is one packet a port wants to
    send; each destination reads it through a transfer of its own.  [Net_transfer]
    is the interface the ports copy from; [feed] states what a transfer promises. *)

From S2P Require Import Prelude L4Round DriverMem Virtqueue RequestProc VirtioDev VirtioNet MacTable Vlan.

(** ** Looking into a packet *)

Definition has_vlan (pkt : buffer) (m : memory) : bool :=
  if (pos pkt =? 0) || (left pkt <? 14) then false
  else (m (pos pkt + 12) =? 0x81) && (m (pos pkt + 13) =? 0x00).

Definition req_vlan_id (pkt : buffer) (m : memory) : Z :=
  if negb (has_vlan pkt m) || (left pkt <? 16) then VLAN_ID_NATIVE
  else Z.land (Z.lor (Z.shiftl (m (pos pkt + 14)) 8) (m (pos pkt + 15))) 0xfff.

Definition dst_mac (pkt : buffer) (m : memory) : Z :=
  if negb (pos pkt =? 0) && (Addr_length <=? left pkt)
  then mac_of_bytes (mem_rd m (pos pkt) 6) else Addr_unknown.

Definition src_mac (pkt : buffer) (m : memory) : Z :=
  if negb (pos pkt =? 0) && (Addr_length * 2 <=? left pkt)
  then mac_of_bytes (mem_rd m (pos pkt + Addr_length) 6) else Addr_unknown.

(** ** The packet header in memory *)

Definition sizeof_hdr : Z := 12.

Definition hdr_at (m : memory) (a : Z) : net_hdr :=
  {| nh_flags := m a; nh_gso_type := m (a + 1);
     nh_hdr_len := le_combine (mem_rd m (a + 2) 2); nh_gso_size := le_combine (mem_rd m (a + 4) 2);
     nh_csum_start := le_combine (mem_rd m (a + 6) 2);
     nh_csum_offset := le_combine (mem_rd m (a + 8) 2);
     nh_num_buffers := le_combine (mem_rd m (a + 10) 2) |}.

Definition hdr_bytes (h : net_hdr) : bytes :=
  [u8 (nh_flags h); u8 (nh_gso_type h)] ++ le_split 2 (nh_hdr_len h) ++ le_split 2 (nh_gso_size h)
  ++ le_split 2 (nh_csum_start h) ++ le_split 2 (nh_csum_offset h) ++ le_split 2 (nh_num_buffers h).

(** ** [Virtio_net_request] *)

(** [_head], [_req_proc], [_pkt]; a header of 0 marks an invalid request. *)
Record vnet_request := { vq_head : Z; vq_rp : req_proc; vq_pkt : buffer; vq_header : Z }.

Definition valid (r : vnet_request) : bool := negb (vq_header r =? 0).

(** The constructor for the request at [head]. *)
Definition virtio_request (l : mem_list) (ds : list desc) (num head : Z) (m : memory)
    : throws vnet_request :=
  x <-? rp_start l ds num head m;
  let '(rp, first) := x in
  let '(pkt, skipped) := skip sizeof_hdr first in
  let invalid := {| vq_head := head; vq_rp := rp; vq_pkt := pkt; vq_header := 0 |} in
  if negb (skipped =? sizeof_hdr) then Ret (inr invalid)
  else if buf_done pkt then
    o <-? rp_next l rp m;
    match o with
    | None => Ret (inr invalid)
    | Some (rp, pkt) =>
        Ret (inr {| vq_head := head; vq_rp := rp; vq_pkt := pkt; vq_header := pos first |})
    end
  else Ret (inr {| vq_head := head; vq_rp := rp; vq_pkt := pkt; vq_header := pos first |}).

(** ** Transfers *)

(** [Net_transfer]: the buffer, which the destination moves forward, [done],
    [copy_header] (on the old contents of the destination's header). *)
Class Net_transfer (T : Type) := {
  cur_buf : T -> buffer;
  set_cur_buf : buffer -> T -> T;
  tr_done : T -> memory -> throws (T * bool);
  copy_header : T -> memory -> net_hdr -> net_hdr;
}.

(** A transfer moves on only when its buffer is used up, and keeps its header. *)
Class Net_transfer_laws (T : Type) `{!Net_transfer T} := {
  cur_set_buf b t : cur_buf (set_cur_buf b t) = b;
  set_set_buf b b' t : set_cur_buf b (set_cur_buf b' t) = set_cur_buf b t;
  tr_done_more t m : left (cur_buf t) <> 0 -> tr_done t m = Ret (inr (t, false));
  tr_done_header t t' m b m' h :
    tr_done t m = Ret (inr (t', b)) -> copy_header t' m' h = copy_header t m' h;
}.

Record vnet_transfer := { vt_buf : buffer; vt_rp : req_proc; vt_mem : mem_list; vt_header : Z }.

Definition virtio_transfer (l : mem_list) (r : vnet_request) : vnet_transfer :=
  {| vt_buf := vq_pkt r; vt_rp := vq_rp r; vt_mem := l; vt_header := vq_header r |}.

Definition virtio_done (t : vnet_transfer) (m : memory) : throws (vnet_transfer * bool) :=
  if buf_done (vt_buf t) then
    o <-? rp_next (vt_mem t) (vt_rp t) m;
    match o with
    | None => Ret (inr (t, true))
    | Some (rp, b) =>
        Ret (inr ({| vt_buf := b; vt_rp := rp; vt_mem := vt_mem t; vt_header := vt_header t |}, false))
    end
  else Ret (inr (t, false)).

#[export] Instance virtio_net_transfer : Net_transfer vnet_transfer := {|
  cur_buf := vt_buf;
  set_cur_buf b t := {| vt_buf := b; vt_rp := vt_rp t; vt_mem := vt_mem t; vt_header := vt_header t |};
  tr_done := virtio_done;
  copy_header t m _ := hdr_at m (vt_header t);
|}.

#[export] Instance virtio_net_transfer_laws : Net_transfer_laws vnet_transfer.
Proof.
  split; [done..| |].
  - intros t m H. cbn in *. unfold virtio_done, buf_done.
    by replace (left (vt_buf t) =? 0) with false by lia.
  - intros t t' m b m' h. cbn. unfold virtio_done. split_if; [|by intros [= <-]].
    destruct (rp_next _ _ _) as [[e|[[rp x]|]]| | | | |]; by intros [= <-].
Qed.

(** [Ixl_net_transfer]: the one buffer of a received frame. *)
Definition ixl_header (old : net_hdr) : net_hdr :=
  {| nh_flags := Z.clearbit (Z.clearbit (nh_flags old) 1) 0; nh_gso_type := 0;
     nh_hdr_len := sizeof_hdr; nh_gso_size := 0; nh_csum_start := 0; nh_csum_offset := 0;
     nh_num_buffers := 1 |}.

Record ixl_transfer := { it_buf : buffer }.

#[export] Instance ixl_net_transfer : Net_transfer ixl_transfer := {|
  cur_buf := it_buf;
  set_cur_buf b _ := {| it_buf := b |};
  tr_done t _ := Ret (inr (t, buf_done (it_buf t)));
  copy_header _ _ old := ixl_header old;
|}.

#[export] Instance ixl_net_transfer_laws : Net_transfer_laws ixl_transfer.
Proof.
  split; [done..| |done]. intros t m H. cbn in *. unfold buf_done.
  by replace (left (it_buf t) =? 0) with false by lia.
Qed.

(** ** What a transfer delivers *)

Section Feed.
Context {T : Type} `{!Net_transfer T, !Net_transfer_laws T}.

(** In all memories of [M] the transfer [t] yields the bytes [p], from at most
    [n] further buffers, none of them empty. *)
Inductive feed (M : memory -> Prop) : T -> bytes -> nat -> Prop :=
  | feed_end t :
      left (cur_buf t) = 0 -> (forall m, M m -> tr_done t m = Ret (inr (t, true))) -> feed M t [] 0
  | feed_next t t' p n :
      left (cur_buf t) = 0 -> (forall m, M m -> tr_done t m = Ret (inr (t', false))) ->
      0 < left (cur_buf t') -> feed M t' p n -> feed M t p (S n)
  | feed_data t c p n :
      0 < left (cur_buf t) -> in_u 32 (left (cur_buf t)) ->
      (forall m, M m -> mem_rd m (pos (cur_buf t)) (left (cur_buf t)) = c) ->
      feed M (set_cur_buf (advance (left (cur_buf t)) (cur_buf t)) t) p n -> feed M t (c ++ p) n.

Lemma advance_left n b : 0 <= n <= left b -> in_u 32 (left b) -> left (advance n b) = left b - n.
Proof. intros Hn Hb. unfold advance, in_u in *. cbn. apply uwrap_small. unfold in_u. lia. Qed.

Lemma advance_advance a b buf :
  0 <= a -> 0 <= b -> a + b <= left buf -> in_u 32 (left buf) ->
  advance b (advance a buf) = advance (a + b) buf.
Proof.
  intros Ha Hb Hs Hu. unfold advance, in_u in *. cbn.
  rewrite !uwrap_small by (rewrite ?uwrap_small by (unfold in_u; lia); unfold in_u; lia).
  f_equal; lia.
Qed.

(** Data at hand. *)
Lemma feed_inv_data M t p n :
  feed M t p n -> 0 < left (cur_buf t) ->
  exists c p', p = c ++ p' /\ in_u 32 (left (cur_buf t)) /\
    (forall m, M m -> mem_rd m (pos (cur_buf t)) (left (cur_buf t)) = c) /\
    feed M (set_cur_buf (advance (left (cur_buf t)) (cur_buf t)) t) p' n.
Proof. inversion 1; subst; intros Hl; [lia|lia|]. eauto 10. Qed.

(** Taking the first [k] bytes of the buffer. *)
Lemma feed_advance M t c p n k :
  in_u 32 (left (cur_buf t)) -> zlen c = left (cur_buf t) ->
  (forall m, M m -> mem_rd m (pos (cur_buf t)) (left (cur_buf t)) = c) ->
  feed M (set_cur_buf (advance (left (cur_buf t)) (cur_buf t)) t) p n ->
  0 <= k <= left (cur_buf t) ->
  feed M (set_cur_buf (advance k (cur_buf t)) t) (drop (Z.to_nat k) c ++ p) n.
Proof.
  intros Hu Hc Hm Hf Hk. unfold in_u in Hu. destruct (Z.eq_dec k (left (cur_buf t))) as [->|Hne].
  - rewrite drop_ge; [done|]. unfold zlen in Hc. lia.
  - assert (Hl : left (advance k (cur_buf t)) = left (cur_buf t) - k) by (apply advance_left; unfold in_u; lia).
    apply feed_data; rewrite cur_set_buf.
    + lia.
    + unfold in_u. lia.
    + intros m HM. rewrite Hl, <- (Hm m HM), mem_rd_drop by lia. done.
    + rewrite Hl, set_set_buf, advance_advance by (unfold in_u; lia).
      replace (k + (left (cur_buf t) - k)) with (left (cur_buf t)) by lia. done.
Qed.

(** What [done] answers. *)
Lemma feed_done M t p n m :
  feed M t p n -> M m ->
  (p = [] /\ tr_done t m = Ret (inr (t, true))) \/
  (exists t' n', tr_done t m = Ret (inr (t', false)) /\ feed M t' p n' /\ 0 < left (cur_buf t') /\
     (n' <= n)%nat).
Proof.
  intros Hf HM. destruct Hf as [t Hl Hd|t t' p n Hl Hd Hp Hf|t c p n Hl Hu Hc Hf].
  - left. auto.
  - right. exists t', n. repeat split; auto.
  - right. exists t, n. split; [apply tr_done_more; lia|]. split; [by apply feed_data|]. split; [done|lia].
Qed.
End Feed.

(** ** A received frame *)

Lemma ixl_feed (M : memory -> Prop) b c :
  in_u 32 (left b) -> 0 < left b -> (forall m, M m -> mem_rd m (pos b) (left b) = c) ->
  feed M {| it_buf := b |} c 0.
Proof.
  intros Hu Hl Hc. rewrite <- (app_nil_r c). apply feed_data; cbn; try done.
  assert (Hz : left (advance (left b) b) = 0) by (rewrite advance_left by (unfold in_u in *; lia); lia).
  apply feed_end; cbn; [done|]. intros m _. unfold buf_done. by rewrite Hz.
Qed.

(** ** A chain of descriptors *)

(** In all memories of [M] the chain behind [rp] consists of the buffers [bs]. *)
Inductive chain_of (M : memory -> Prop) (l : mem_list) : req_proc -> list buffer -> Prop :=
  | chain_end rp : (forall m, M m -> rp_next l rp m = Ret (inr None)) -> chain_of M l rp []
  | chain_more rp rp' b bs :
      (forall m, M m -> rp_next l rp m = Ret (inr (Some (rp', b)))) ->
      chain_of M l rp' bs -> chain_of M l rp (b :: bs).

(** The contents of buffers. *)
Definition gather (m : memory) (bs : list buffer) : bytes :=
  flat_map (fun b => mem_rd m (pos b) (left b)) bs.

(** Memories that agree on the contents of all buffers agree on those of each. *)
Lemma gather_split (M : memory -> Prop) b bs cs m0 m :
  0 <= left b -> (forall m, M m -> gather m (b :: bs) = cs) -> M m0 -> M m ->
  mem_rd m (pos b) (left b) = mem_rd m0 (pos b) (left b) /\ gather m bs = gather m0 bs.
Proof.
  intros Hl Hcs H0 H1. apply app_inj_1.
  - pose proof (zlen_mem_rd m (pos b) (left b) Hl). pose proof (zlen_mem_rd m0 (pos b) (left b) Hl).
    unfold zlen in *. lia.
  - transitivity cs; [by apply (Hcs m)|symmetry; by apply (Hcs m0)].
Qed.

Lemma virtio_feed_end (M : memory -> Prop) l rp bs h cs b0 :
  left b0 = 0 -> chain_of M l rp bs -> Forall (fun b => in_u 32 (left b) /\ 0 < left b) bs ->
  (forall m, M m -> gather m bs = cs) -> (exists m, M m) ->
  feed M {| vt_buf := b0; vt_rp := rp; vt_mem := l; vt_header := h |} cs (length bs).
Proof.
  intros H0 Hc. revert cs b0 H0. induction Hc as [rp Hn|rp rp' b bs Hn _ IH]; intros cs b0 H0 Hb Hcs [m0 HM0].
  - rewrite <- (Hcs m0 HM0). apply feed_end; cbn; [done|]. intros m HM. unfold virtio_done, buf_done. cbn.
    rewrite H0. cbn. by rewrite (Hn m HM).
  - apply Forall_cons_iff in Hb as [[Hu Hl] Hb]. cbn [length].
    apply (feed_next _ _ {| vt_buf := b; vt_rp := rp'; vt_mem := l; vt_header := h |}); cbn; try done.
    + intros m HM. unfold virtio_done, buf_done. cbn. rewrite H0. cbn. by rewrite (Hn m HM).
    + pose proof (Hcs m0 HM0) as E0. cbn in E0. rewrite <- E0.
      pose proof (fun m => gather_split M b bs cs m0 m ltac:(lia) Hcs HM0) as Hsplit.
      apply feed_data; cbn; try done; [intros m HM; by apply Hsplit|].
      apply IH; [|done|intros m HM; by apply Hsplit|by exists m0].
      rewrite advance_left by (unfold in_u in *; lia). lia.
Qed.

(** A valid request feeds its packet to each of its transfers. *)
Lemma virtio_feed (M : memory -> Prop) l r bs cs :
  chain_of M l (vq_rp r) bs -> Forall (fun b => in_u 32 (left b) /\ 0 < left b) (vq_pkt r :: bs) ->
  (forall m, M m -> gather m (vq_pkt r :: bs) = cs) -> (exists m, M m) ->
  feed M (virtio_transfer l r) cs (length bs).
Proof.
  intros Hc Hb Hcs [m0 HM0].
  apply Forall_cons_iff in Hb as [[Hu Hl] Hb]. pose proof (Hcs m0 HM0) as E0. cbn in E0. rewrite <- E0.
  pose proof (fun m => gather_split M (vq_pkt r) bs cs m0 m ltac:(lia) Hcs HM0) as Hsplit.
  apply feed_data; cbn; try done; [intros m HM; by apply Hsplit|].
  apply virtio_feed_end; try done; [|intros m HM; by apply Hsplit|by exists m0].
  rewrite advance_left by (unfold in_u in *; lia). lia.
Qed.

(** ** Requests are built from shared memory only *)

Lemma shared_sub l a n a' n' : a <= a' -> a' + n' <= a + n -> shared l a n -> shared l a' n'.
Proof. intros H1 H2 (r & Hr & H3 & H4). exists r. repeat split; [done|lia..]. Qed.

(** Making a request out of the next descriptor chain of a driver, whatever it
    contains, ends without a stray access, and a valid request has its header and
    its packet buffer inside of memory the driver has registered; so has each
    buffer its transfers move on to. *)
Theorem virtio_request_safe `{!L4_round 64, !Ds_env, !Ds_env_laws} l ds head m :
  ml_reach l -> Forall desc_ok ds -> zlen ds <= 2 ^ 16 -> 0 <= head < zlen ds -> mem_ok m ->
  exists o, virtio_request l ds (zlen ds) head m = Ret o /\
  forall r, o = inr r -> vq_head r = head /\
    (valid r = true ->
       shared l (vq_header r) sizeof_hdr /\ buf_ok l (vq_pkt r) /\
       forall m', mem_ok m' ->
         exists o', virtio_done (virtio_transfer l r) m' = Ret o' /\
         forall t d, o' = inr (t, d) -> buf_ok l (vt_buf t) /\ vt_header t = vq_header r).
Proof.
  intros Hl Hds Hn Hh Hm. apply ml_reach_inv in Hl. unfold virtio_request.
  pose proof (rp_start_safe l ds (zlen ds) head m Hl Hm Hds eq_refl Hn) as Hst.
  destruct (rp_start l ds (zlen ds) head m) as [[e|[rp b]]| | | | |]; try done.
  { eexists. split; [done|]. done. }
  destruct Hst as [Hrp [Hsh Hu]]. cbn. unfold skip, sizeof_hdr.
  destruct (Z.eqb_spec (Z.min (left b) 12) 12) as [E12|E12]; cbn.
  2: { eexists. split; [done|]. by intros r [= <-]. }
  rewrite E12. unfold buf_done. pose proof Hu as Hu'. unfold in_u in Hu'.
  rewrite (advance_left 12 b) by (done || lia).
  assert (Hhdr : shared l (pos b) 12) by (eapply shared_sub; [| |exact Hsh]; lia).
  assert (Hgo : forall rp' b', rp_ok l rp' -> buf_ok l b' -> forall m', mem_ok m' ->
    exists o', virtio_done (virtio_transfer l {| vq_head := head; vq_rp := rp'; vq_pkt := b'; vq_header := pos b |}) m' = Ret o' /\
      forall t d, o' = inr (t, d) -> buf_ok l (vt_buf t) /\ vt_header t = pos b).
  { intros rp' b' Hrp' Hb' m' Hm'. unfold virtio_done, virtio_transfer. cbn. split_if.
    - pose proof (rp_next_safe l rp' m' Hl Hm' Hrp') as Hnx.
      destruct (rp_next l rp' m') as [[e|[[rp2 b2]|]]| | | | |]; try done; cbn; eexists; (split; [done|]);
        try done; intros t d [= <- <-]; cbn; try done; split; [apply Hnx|done].
    - eexists. split; [done|]. by intros t d [= <- <-]. }
  destruct (Z.eqb_spec (left b - 12) 0) as [E0|E0].
  - pose proof (rp_next_safe l rp m Hl Hm Hrp) as Hnx.
    destruct (rp_next l rp m) as [[e|[[rp2 b2]|]]| | | | |]; try done; cbn; eexists; (split; [done|]);
      [done| |by intros r [= <-]].
    intros r [= <-]. destruct Hnx as [Hrp2 Hb2]. split; [done|]. intros _. cbn. auto.
  - eexists. split; [done|]. intros r [= <-]. split; [done|]. intros _. cbn. split; [done|].
    assert (Hb : buf_ok l (advance 12 b)).
    { split; [|unfold in_u; rewrite advance_left by (done || lia); lia].
      rewrite advance_left by (done || lia). eapply shared_sub; [| |exact Hsh]; cbn; lia. }
    auto.
Qed.

Module Request_example.
Import Mem_example Walk_example.
#[local] Existing Instances round64 env env_laws.

(** The first chain of [Walk_example]: header and 52 bytes, then 32 bytes. *)
Lemma virtio_request_safe_witness :
  exists r, virtio_request two descs 4 0 no_mem = Ret (inr r) /\ valid r = true /\
    shared two (vq_header r) 12 /\ buf_ok two (vq_pkt r).
Proof.
  destruct (virtio_request_safe two descs 0 no_mem two_reach descs_ok ltac:(by_eval) ltac:(by_eval)
              ltac:(intros a; by_eval)) as (o & E & H).
  destruct o as [e|r]; [vm_compute in E; discriminate|].
  destruct (H r eq_refl) as [_ Hv]. exists r. split; [exact E|].
  assert (V : valid r = true) by (vm_compute in E; injection E as <-; reflexivity).
  split; [exact V|]. destruct (Hv V) as (H1 & H2 & _). split; [exact H1|exact H2].
Defined.
End Request_example.
