(* ===== verification/SwitchPort.v ===== *)
(** * Ports of the network switch

    [pkg/virtio-net-switch/server/switch]: [port.h] ([Port_iface], the VLAN
    settings of a port), [port_ixl.h] and [port_l4virtio.h], whose
    [handle_request] copies one packet to the port. *)

From S2P Require Import Prelude L4Round DriverMem Virtqueue RequestProc VirtioDev VirtioNet.
From S2P Require Import MacTable Vlan NetRequest.

(** ** VLAN settings: [Port_iface] *)

Record port := {
  p_vlan_id : Z;
  p_bloom : Z;
  p_vlan_ids : gset Z;
  p_vlan_all : bool;
  p_mac : Z;
}.

(** The constructor gives no value to [_vlan_all]; [any] is what the memory holds. *)
Definition port_new (any : bool) : port :=
  {| p_vlan_id := VLAN_ID_NATIVE; p_bloom := 0; p_vlan_ids := ∅; p_vlan_all := any;
     p_mac := Addr_unknown |}.

Definition is_trunk (p : port) : bool := p_vlan_id p =? VLAN_ID_TRUNK.
Definition is_native (p : port) : bool := p_vlan_id p =? VLAN_ID_NATIVE.
Definition is_access (p : port) : bool := negb (is_trunk p) && negb (is_native p).

Definition set_vlan_access (id : Z) (p : port) : run port :=
  if vlan_valid_id id then
    Ret {| p_vlan_id := id; p_bloom := 0; p_vlan_ids := ∅; p_vlan_all := p_vlan_all p;
           p_mac := p_mac p |}
  else Asserted.

Definition vlan_bloom_hash (id : Z) : Z := u32 (Z.shiftl 1 (Z.land id 31)).

Fixpoint trunk_loop (ids : list Z) (filter : Z) (s : gset Z) : run (Z * gset Z) :=
  match ids with
  | [] => Ret (filter, s)
  | id :: ids =>
      if vlan_valid_id id then trunk_loop ids (Z.lor filter (vlan_bloom_hash id)) ({[id]} ∪ s)
      else Asserted
  end.

Definition set_vlan_trunk (ids : list Z) (p : port) : run port :=
  '(f, s) ← trunk_loop ids 0 ∅;
  mret {| p_vlan_id := VLAN_ID_TRUNK; p_bloom := f; p_vlan_ids := s; p_vlan_all := p_vlan_all p;
          p_mac := p_mac p |}.

Definition set_vlan_trunk_all (p : port) : port :=
  {| p_vlan_id := VLAN_ID_TRUNK; p_bloom := u32 (-1); p_vlan_ids := p_vlan_ids p;
     p_vlan_all := true; p_mac := p_mac p |}.

Definition set_monitor (p : port) : port :=
  {| p_vlan_id := VLAN_ID_TRUNK; p_bloom := 0; p_vlan_ids := p_vlan_ids p;
     p_vlan_all := p_vlan_all p; p_mac := p_mac p |}.

Definition match_vlan (id : Z) (p : port) : bool :=
  if id =? p_vlan_id p then true
  else if p_vlan_all p then true
  else if Z.land (p_bloom p) (vlan_bloom_hash id) =? 0 then false
  else bool_decide (id ∈ p_vlan_ids p).

Definition create_vlan_mangle (dst src : port) : mangle :=
  if is_trunk dst then
    if negb (is_trunk src) && negb (is_native src) then mangle_add (p_vlan_id src) else mangle_none
  else if is_trunk src then mangle_remove else mangle_none.

(** *** The bloom filter never hides a VLAN *)

Lemma vlan_bloom_hash_pow2 id : 0 <= id -> vlan_bloom_hash id = 2 ^ (id mod 32).
Proof.
  intros H. unfold vlan_bloom_hash. change 31 with (Z.ones 5). rewrite Z.land_ones by lia.
  pose proof (Z.mod_pos_bound id (2 ^ 5) ltac:(lia)) as Hm. change (2 ^ 5) with 32 in *.
  rewrite Z.shiftl_1_l. apply uwrap_small. unfold in_u.
  split; [lia|]. apply Z.pow_lt_mono_r; lia.
Qed.

Lemma trunk_loop_spec ids f s :
  Forall (fun i => vlan_valid_id i = true) ids ->
  exists f' s', trunk_loop ids f s = Ret (f', s') /\ s' = list_to_set ids ∪ s /\
    (forall k, 0 <= k -> Z.testbit f k = true -> Z.testbit f' k = true) /\
    (forall i, i ∈ ids -> Z.testbit f' (i mod 32) = true).
Proof.
  intros H. revert f s. induction H as [|i ids Hi _ IH]; intros f s.
  - exists f, s. cbn. split; [done|]. split; [set_solver|]. split; [done|]. by intros i ?%not_elem_of_nil.
  - cbn. rewrite Hi. destruct (IH (Z.lor f (vlan_bloom_hash i)) ({[i]} ∪ s)) as (f' & s' & -> & -> & Hk & Hin).
    eexists _, _. split; [done|]. split; [set_solver|].
    assert (Hpos : 0 <= i) by (unfold vlan_valid_id in Hi; lia).
    split; [intros k Hk0 Hb; apply Hk; [done|]; by rewrite Z.lor_spec, Hb|].
    intros j [->|Hj]%elem_of_cons; [|by apply Hin].
    pose proof (Z.mod_pos_bound i 32). apply Hk; [lia|].
    rewrite Z.lor_spec, vlan_bloom_hash_pow2, Z.pow2_bits_true by lia. apply orb_true_r.
Qed.

(** The VLANs a trunk port accepts are exactly the configured ones, the bloom
    filter in front of the set rejects none of them; and a configuration with an
    invalid identifier trips the assertion. *)
Theorem trunk_port_vlans ids p :
  (Forall (fun i => vlan_valid_id i = true) ids ->
   exists p', set_vlan_trunk ids p = Ret p' /\ is_trunk p' = true /\
     forall id, 0 <= id -> id <> VLAN_ID_TRUNK -> p_vlan_all p = false ->
       match_vlan id p' = bool_decide (id ∈ ids)) /\
  (Exists (fun i => vlan_valid_id i = false) ids -> set_vlan_trunk ids p = Asserted).
Proof.
  split.
  - intros Hv. unfold set_vlan_trunk. destruct (trunk_loop_spec ids 0 ∅ Hv) as (f & s & -> & -> & _ & Hin).
    eexists. split; [done|]. split; [done|]. intros id H0 Ht Ha. unfold match_vlan. cbn.
    replace (id =? VLAN_ID_TRUNK) with false by lia. rewrite Ha, vlan_bloom_hash_pow2 by done.
    pose proof (Z.mod_pos_bound id 32). pose proof (land_pow2_testbit f (id mod 32)) as Hb.
    destruct (decide (id ∈ ids)) as [Hi|Hi].
    + rewrite (bool_decide_true (id ∈ ids)) by done. rewrite Hin in Hb by done.
      apply negb_true_iff in Hb; [|lia]. rewrite Hb. apply bool_decide_true. set_solver.
    + rewrite (bool_decide_false (id ∈ ids)) by done. split_if; [done|]. apply bool_decide_false. set_solver.
  - intros He. unfold set_vlan_trunk.
    assert (Hl : forall f s, trunk_loop ids f s = Asserted); [|by rewrite Hl].
    induction He as [i ids Hi|i ids _ IH]; intros f s; cbn; [by rewrite Hi|].
    split_if; [apply IH|done].
Qed.

(** [_vlan_all] is never initialised: when the memory of a new port happens to
    hold a nonzero value, an access port of one VLAN accepts the packets of every
    VLAN. *)
Theorem vlan_all_uninitialised id other p :
  vlan_valid_id id = true -> set_vlan_access id (port_new true) = Ret p -> match_vlan other p = true.
Proof.
  unfold set_vlan_access. intros ->. intros [= <-]. unfold match_vlan. cbn. by destruct (other =? id).
Qed.

(** With the value [false] an access port accepts its own VLAN only. *)
Lemma access_port_vlan id other p :
  vlan_valid_id id = true -> set_vlan_access id (port_new false) = Ret p ->
  match_vlan other p = (other =? id).
Proof.
  unfold set_vlan_access. intros ->. intros [= <-]. unfold match_vlan. cbn.
  destruct (other =? id); [done|]. by rewrite Z.land_0_l.
Qed.

(** ** Copying a packet to the network card: [Ixl_port::handle_request] *)

(** [Port_iface::Result], with the amount of data transferred. *)
Inductive result := Delivered (bytes_transferred : Z) | Exception | Dropped.

(** The calls to the driver of the card that hand a packet buffer back. *)
Inductive ixl_call := Pkt_buf_free (buf : Z) | Tx_batch (buf size : Z).

Section Transfer.
Context {T : Type} `{!Net_transfer T, !Net_transfer_laws T}.

(** The loop, with the destination at its end; [None]: the packet does not fit. *)
Fixpoint ixl_loop (fuel : nat) (g : mangle) (dst : buffer) (t : T) (m : memory)
    : run (memory * (bad + option buffer)) :=
  match fuel with
  | O => Fuel_out
  | S f =>
      o ← tr_done t m;
      match o with
      | inl e => mret (m, inl e)
      | inr (t, true) => mret (m, inr (Some dst))
      | inr (t, false) =>
          if buf_done dst then mret (m, inr None)
          else
            let '(g, dst, src, m, _) := copy_pkt g dst (cur_buf t) m in
            ixl_loop f g dst (set_cur_buf src t) m
      end
  end.

(** [alloc]: the packet buffer [pkt_buf_alloc] gives, if any, and the address and
    size of its data; [tx]: whether [tx_batch] accepts a frame of the given size. *)
Definition ixl_handle_request (fuel : nat) (p src_port : port) (alloc : option (Z * Z * Z))
    (tx : Z -> bool) (t : T) (m : memory) : run (memory * list ixl_call * (bad + result)) :=
  let g := create_vlan_mangle p src_port in
  match alloc with
  | None => mret (m, [], inr Dropped)
  | Some (buf, data, max_size) =>
      '(m, o) ← ixl_loop fuel g {| pos := data; left := max_size |} t m;
      match o with
      | inl e => mret (m, [Pkt_buf_free buf], inl e)
      | inr None => mret (m, [Pkt_buf_free buf], inr Dropped)
      | inr (Some dst) =>
          let size := max_size -[32] left dst in
          if tx size then mret (m, [Tx_batch buf size], inr (Delivered size))
          else mret (m, [Tx_batch buf size; Pkt_buf_free buf], inr Dropped)
      end
  end.

(** The memory outside of the area does not change. *)
Definition frame (a n : Z) (m m' : memory) : Prop :=
  forall x, x < a \/ a + n <= x -> m' x = m x.

Lemma only_window_refl a n m : frame a n m m.
Proof. by intros x _. Qed.

Lemma only_window_trans a n m1 m2 m3 : frame a n m1 m2 -> frame a n m2 m3 -> frame a n m1 m3.
Proof. intros H1 H2 x Hx. rewrite H2 by done. by apply H1. Qed.

(** Writes of two pieces one after the other. *)
Lemma mem_rd_append a o1 o2 m m1 m2 :
  (forall x, m1 x = mem_wr a o1 m x) -> frame (a + zlen o1) (zlen o2) m1 m2 ->
  mem_rd m2 (a + zlen o1) (zlen o2) = o2 -> mem_rd m2 a (zlen (o1 ++ o2)) = o1 ++ o2.
Proof.
  intros H1 H2 H3. pose proof (zlen_nonneg o1). pose proof (zlen_nonneg o2). rewrite zlen_app.
  rewrite (mem_rd_split m2 a _ (zlen o1)) by lia.
  replace (zlen o1 + zlen o2 - zlen o1) with (zlen o2) by lia. rewrite H3. f_equal.
  transitivity (mem_rd m1 a (zlen o1)); [apply mem_rd_ext; intros i Hi; apply H2; lia|].
  rewrite <- (mem_rd_wr_same a o1 m) at 2. apply mem_rd_ext. intros i _. apply H1.
Qed.

(** The whole loop, for a destination of [left dst] bytes. *)
Lemma ixl_loop_spec (M : memory -> Prop) a n fuel g dst t p k m :
  (forall m m', M m -> frame a n m m' -> M m') -> M m ->
  a <= pos dst -> pos dst + left dst <= a + n -> in_u 32 (left dst) ->
  feed M t p k -> mangle_ok g -> mangle_live g p ->
  mangle_work g p + Z.of_nat k < Z.of_nat fuel ->
  let out := mangle_out g p in
  if zlen out <=? left dst
  then exists m', ixl_loop fuel g dst t m = Ret (m', inr (Some (advance (zlen out) dst))) /\
         mem_rd m' (pos dst) (zlen out) = out /\ frame (pos dst) (zlen out) m m'
  else exists m', ixl_loop fuel g dst t m = Ret (m', inr None) /\ frame (pos dst) (left dst) m m'.
Proof.
  intros HMf. revert g dst t p k m. induction fuel as [|f IH]; intros g dst t p k m HM Ha Hn Hd Hf Hg Hl Hw out.
  { unfold mangle_work in Hw. pose proof (zlen_nonneg p). lia. }
  cbn [ixl_loop]. destruct (feed_done M t p k m Hf HM) as [[-> E]|(t' & k' & E & Hf' & Hl' & Hk)]; rewrite E; cbn.
  - (* the packet is complete *)
    assert (Ho : out = []) by (by apply mangle_out_end).
    rewrite Ho. change (zlen (@nil Z)) with 0. unfold in_u in Hd. replace (0 <=? left dst) with true by lia.
    exists m. rewrite advance_0 by done. split; [done|]. split; [done|apply only_window_refl].
  - unfold buf_done. unfold in_u in Hd. destruct (feed_inv_data M t' p k' Hf' Hl') as (c & r & -> & Hu & Hc & Hfr).
    destruct (Z.eqb_spec (left dst) 0) as [E0|E0].
    + assert (Ho : out <> []).
      { intros Ho. apply mangle_out_nil in Ho; [|done|done]. apply app_eq_nil in Ho as [-> _].
        specialize (Hc m HM). apply (f_equal zlen) in Hc. rewrite zlen_mem_rd in Hc by lia.
        change (zlen (@nil Z)) with 0 in Hc. lia. }
      assert (1 <= zlen out) by (destruct out; [done|unfold zlen; cbn [length]; lia]).
      rewrite E0. replace (zlen out <=? 0) with false by lia. exists m. split; [done|apply only_window_refl].
    + destruct (copy_pkt_step g dst (cur_buf t') m c r Hg Hd Hu (eq_sym (Hc m HM)) Hl) as (g' & q & o & Hcp).
      destruct Hcp as [[m1 [Ecp Hm1]] Hq Ho Hout Hok Hlv _ Hpr].
      rewrite Ecp. pose proof (zlen_nonneg o).
      assert (Hfr1 : frame (pos dst) (zlen o) m m1).
      { intros x Hx. rewrite Hm1. by apply mem_wr_outside. }
      assert (HM1 : M m1).
      { apply (HMf m); [done|]. intros x Hx. apply Hfr1. lia. }
      assert (Hzc : zlen c = left (cur_buf t')) by (rewrite <- (Hc m HM); apply zlen_mem_rd; lia).
      pose proof (feed_advance M t' c r k' q Hu Hzc Hc Hfr Hq) as Hfa.
      assert (Hld : left (advance (zlen o) dst) = left dst - zlen o) by (apply advance_left; unfold in_u; lia).
      specialize (IH g' (advance (zlen o) dst) (set_cur_buf (advance q (cur_buf t')) t')
                    (drop (Z.to_nat q) c ++ r) k' m1 HM1).
      cbn [pos] in IH. rewrite Hld in IH.
      specialize (IH ltac:(cbn; lia) ltac:(cbn; lia) ltac:(unfold in_u; lia) Hfa Hok Hlv).
      specialize (IH ltac:(lia)). cbv zeta in IH. subst out. rewrite Hout, zlen_app.
      set (o2 := mangle_out g' (drop (Z.to_nat q) c ++ r)) in *. pose proof (zlen_nonneg o2).
      destruct (Z.leb_spec (zlen o2) (left dst - zlen o)) as [Hfit|Hfit].
      * replace (zlen o + zlen o2 <=? left dst) with true by lia.
        destruct IH as (m' & E1 & E2 & E3). exists m'. rewrite E1. cbn in E2, E3. split.
        -- by rewrite advance_advance by (unfold in_u; lia).
        -- split; [rewrite <- zlen_app; by eapply mem_rd_append|].
           apply (only_window_trans _ _ _ m1); intros x Hx; [apply Hfr1|apply E3]; lia.
      * replace (zlen o + zlen o2 <=? left dst) with false by lia. destruct IH as (m' & E1 & E2). exists m'.
        split; [exact E1|]. cbn [pos] in E2. cbn [pos advance] in E2.
        apply (only_window_trans _ _ _ m1); intros x Hx; [apply Hfr1|apply E2]; lia.
Qed.

(** The packet as the port [dst] sends it out. *)
Definition sent (dst src : port) (p : bytes) : bytes := mangle_out (create_vlan_mangle dst src) p.

(** A tag is added between the addresses and the rest on the way from an access
    port to a trunk port, removed on the way from a trunk port, and otherwise
    nothing changes. *)
Lemma sent_cases dst src p :
  p_vlan_id src <> 0 ->
  sent dst src p =
    if is_trunk dst then
      if is_access src then take 12 p ++ tag_bytes (p_vlan_id src) ++ drop 12 p else p
    else if is_trunk src then take 12 p ++ drop 16 p else p.
Proof.
  intros Hs. unfold sent, create_vlan_mangle, is_access. destruct (is_trunk dst).
  - split_if; [by apply mangle_add_out|done].
  - split_if; [apply mangle_remove_out|done].
Qed.

Lemma create_vlan_mangle_ok dst src p :
  in_u 16 (p_vlan_id src) -> 16 < zlen p ->
  mangle_ok (create_vlan_mangle dst src) /\ mangle_live (create_vlan_mangle dst src) p /\
  mangle_work (create_vlan_mangle dst src) p <= zlen p + 4.
Proof.
  intros Hs Hp. unfold create_vlan_mangle, mangle_ok, mangle_live, mangle_work, in_u in *.
  destruct (is_trunk dst); split_if; cbn; lia.
Qed.

(** A packet for the network card ends up in the card's buffer exactly as the
    VLAN settings of the two ports demand, or it is dropped because it does not
    fit or the card refuses it; memory outside of the buffer is untouched, and
    the packet buffer is handed to the card or freed, never both and never
    forgotten. *)
Theorem ixl_delivers (M : memory -> Prop) fuel p src buf data max_size tx (t : T) pkt k m :
  (forall m m', M m -> frame data max_size m m' -> M m') -> M m ->
  feed M t pkt k -> 16 < zlen pkt -> zlen pkt + 4 + Z.of_nat k < Z.of_nat fuel ->
  in_u 16 (p_vlan_id src) -> in_u 32 max_size ->
  let out := sent p src pkt in
  exists m', frame data max_size m m' /\
    if (zlen out <=? max_size) && tx (zlen out) then
      ixl_handle_request fuel p src (Some (buf, data, max_size)) tx t m
        = Ret (m', [Tx_batch buf (zlen out)], inr (Delivered (zlen out))) /\
      mem_rd m' data (zlen out) = out
    else exists calls,
      ixl_handle_request fuel p src (Some (buf, data, max_size)) tx t m
        = Ret (m', calls ++ [Pkt_buf_free buf], inr Dropped) /\
      calls = if zlen out <=? max_size then [Tx_batch buf (zlen out)] else [].
Proof.
  intros HMf HM Hf Hp Hk Hs Hu out. destruct (create_vlan_mangle_ok p src pkt Hs Hp) as (Hg & Hl & Hw).
  pose proof (ixl_loop_spec M data max_size fuel _ {| pos := data; left := max_size |} t pkt k m
                HMf HM (Z.le_refl _) (Z.le_refl _) Hu Hf Hg Hl ltac:(lia)) as Hspec.
  cbv zeta in Hspec. fold (sent p src pkt) in Hspec. fold out in Hspec. unfold ixl_handle_request.
  pose proof (zlen_nonneg out). cbn [left pos] in Hspec.
  destruct (Z.leb_spec (zlen out) max_size) as [Hfit|Hfit]; destruct Hspec as (m' & -> & H1).
  - destruct H1 as [H1 H2]. cbn. exists m'. split; [intros x Hx; apply H2; lia|].
    rewrite (uwrap_small 32 (max_size - zlen out)) by (unfold in_u in *; lia).
    replace (max_size - (max_size - zlen out)) with (zlen out) by lia.
    rewrite uwrap_small by (unfold in_u in *; lia).
    destruct (tx (zlen out)); [done|]. by exists [Tx_batch buf (zlen out)].
  - exists m'. split; [done|]. cbn. by exists [].
Qed.
End Transfer.

Module Port_example.

Definition got (r : run port) : port := match r with Ret p => p | _ => port_new false end.

Definition access5 : port := got (set_vlan_access 5 (port_new false)).
Definition trunk57 : port := got (set_vlan_trunk [5; 7] (port_new false)).

Lemma trunk_port_vlans_witness :
  (exists p, set_vlan_trunk [5; 37] (port_new false) = Ret p /\ is_trunk p = true /\
     match_vlan 37 p = true /\ match_vlan 69 p = false) /\
  set_vlan_trunk [5; 4095] (port_new false) = Asserted.
Proof.
  split.
  - destruct (trunk_port_vlans [5; 37] (port_new false)) as [H _].
    destruct H as (p & E & Ht & Hm); [repeat (constructor; [reflexivity|]); constructor|].
    exists p. split; [exact E|]. split; [exact Ht|].
    split; rewrite Hm; try by_eval; vm_compute; reflexivity.
  - apply (trunk_port_vlans [5; 4095] (port_new false)). right. left. reflexivity.
Defined.

Lemma vlan_all_uninitialised_witness :
  exists p, set_vlan_access 5 (port_new true) = Ret p /\ match_vlan 9 p = true.
Proof.
  eexists. split; [reflexivity|]. apply (vlan_all_uninitialised 5 9); reflexivity.
Defined.

(** A frame of 20 bytes at address 100. *)
Definition frame20 : bytes := seqZ 1 20.
Definition mem20 : memory := mem_wr 100 frame20 (fun _ => 0).

Lemma ixl_delivers_witness :
  exists m', ixl_handle_request 30 trunk57 access5 (Some (7, 4096, 1500)) (fun _ => true)
               {| it_buf := {| pos := 100; left := 20 |} |} mem20
             = Ret (m', [Tx_batch 7 24], inr (Delivered 24)) /\
    mem_rd m' 4096 24 = [1;2;3;4;5;6;7;8;9;10;11;12; 0x81;0;0;5; 13;14;15;16;17;18;19;20].
Proof.
  destruct (ixl_delivers (fun m => frame 4096 1500 mem20 m) 30 trunk57 access5 7 4096 1500
              (fun _ => true) {| it_buf := {| pos := 100; left := 20 |} |} frame20 0 mem20)
    as (m' & _ & H).
  - intros m m' H1 H2. eapply only_window_trans; [exact H1|exact H2].
  - apply only_window_refl.
  - apply (ixl_feed _ {| pos := 100; left := 20 |}); [by_eval..|]. intros m H. cbn [pos left].
    transitivity (mem_rd mem20 100 20); [|vm_compute; reflexivity].
    apply mem_rd_ext. intros i Hi. apply H. lia.
  - by_eval.
  - by_eval.
  - by_eval.
  - by_eval.
  - exists m'. replace (zlen (sent trunk57 access5 frame20)) with 24 in H by (vm_compute; reflexivity).
    destruct H as [H1 H2]. split; [exact H1|]. rewrite H2. vm_compute. reflexivity.
Defined.
End Port_example.
