(* ===== verification/VirtioPort.v ===== *)
(** * Copying a packet to a virtio port

    [pkg/virtio-net-switch/server/switch/port_l4virtio.h]:
    [L4virtio_port::handle_request] copies one packet into the receive queue of
    the port's driver: behind a header, over as many buffers of a descriptor chain
    as needed, and over several chains when the driver has negotiated merged
    receive buffers.  A round of the loop is one step on [xfer], the local
    variables of the function. *)

From S2P Require Import Prelude L4Round DriverMem Virtqueue RequestProc VirtioDev VirtioNet.
From S2P Require Import MacTable Vlan NetRequest SwitchPort.

Section Port.
Context {T : Type} `{!Net_transfer T}.

(** ** The receive queue of the device *)

Definition rx_vq (d : net_dev) : vqueue := kq (net_rx (dv_priv d)).

Definition set_rx_vq (q : vqueue) (d : net_dev) : net_dev :=
  on_priv (fun n => set_net_queue Rx (with_vq q (net_rx n)) n) d.

Definition rx_rewind (h : Z) (d : net_dev) : net_dev := set_rx_vq (rewind_avail h (rx_vq d)) d.

(** [finish] of one request, and of a range. *)
Definition finish (h len : Z) (r : vring) (d : net_dev) : run (net_dev * vring) :=
  r ← consumed h len (rx_vq d) r; mret (notify_queue Rx r d, r).

Definition finish_range (es : list (Z * Z)) (r : vring) (d : net_dev) : run (net_dev * vring) :=
  r ← consumed_range es (rx_vq d) r; mret (notify_queue Rx r d, r).

(** ** The loop *)

(** [dst_head] with its [dst_req_proc]; a [dst_header] of 0 is the null pointer. *)
Record xfer := {
  x_dev : net_dev;
  x_mem : memory;
  x_mangle : mangle;
  x_src : T;
  x_dst : buffer;
  x_head : option (Z * req_proc);
  x_header : Z;
  x_total : Z;
  x_num_merged : Z;
  x_total_merged : Z;
  x_consumed : list (Z * Z);
}.

(** The device, its receive ring, memory, and the result or the exception of the
    source. *)
Abbreviation outcome := (net_dev * vring * memory * (bad + result))%type.

(** [rewind_avail] to the first descriptor chain of the transfer, if there is one. *)
Definition abort (s : xfer) : net_dev :=
  match x_consumed s, x_head s with
  | (h, _) :: _, _ => rx_rewind h (x_dev s)
  | [], Some (h, _) => rx_rewind h (x_dev s)
  | [], None => x_dev s
  end.

Definition abort_consumed (s : xfer) : net_dev :=
  match x_consumed s with (h, _) :: _ => rx_rewind h (x_dev s) | [] => x_dev s end.

(** After the loop. *)
Definition deliver (r : vring) (s : xfer) : run outcome :=
  if x_header s =? 0 then mret (x_dev s, r, x_mem s, inr Dropped)
  else
    let num n := mem_wr (x_header s + 10) (le_split 2 n) (x_mem s) in
    match x_head s, x_consumed s with
    | None, _ => Asserted
    | Some (h, _), [] =>
        if negb (x_num_merged s =? 1) then Asserted
        else
          '(d, r) ← finish h (u32 (x_total s)) r (x_dev s);
          mret (d, r, num 1, inr (Delivered (u64 (x_total s))))
    | Some (h, _), es =>
        '(d, r) ← finish_range (es ++ [(h, u32 (x_total s))]) r (x_dev s);
        mret (d, r, num (x_num_merged s), inr (Delivered (x_total s +[64] x_total_merged s)))
    end.

(** A new [dst_head], with the header in front of the first one. *)
Definition next_head (r : vring) (s : xfer) : run (Z * req_proc * xfer + outcome) :=
  let d := x_dev s in
  if negb (ready (rx_vq d)) then mret (inr (d, r, x_mem s, inr Dropped))
  else
    '(q, o) ← next_avail (rx_vq d) r;
    let d := set_rx_vq q d in
    match o with
    | None => mret (inr (abort_consumed s, r, x_mem s, inr Dropped))
    | Some h =>
        o ← rp_start (dv_mem d) (vr_desc r) (vq_num q) h (x_mem s);
        match o with
        | inl _ => mret (inr (device_error d, r, x_mem s, inr Exception))
        | inr (rp, dst) =>
            let next dst header total m := inl (h, rp,
              {| x_dev := d; x_mem := m; x_mangle := x_mangle s; x_src := x_src s; x_dst := dst;
                 x_head := Some (h, rp); x_header := header; x_total := total;
                 x_num_merged := x_num_merged s +[16] 1; x_total_merged := x_total_merged s;
                 x_consumed := x_consumed s |}) in
            if x_header s =? 0 then
              if left dst <? sizeof_hdr then Raised
              else
                let hdr := copy_header (x_src s) (x_mem s) (hdr_at (x_mem s) (pos dst)) in
                let m := mem_wr (pos dst) (hdr_bytes (rewrite_hdr (x_mangle s) hdr)) (x_mem s) in
                mret (next (fst (skip sizeof_hdr dst)) (pos dst) sizeof_hdr m)
            else mret (next dst (x_header s) (x_total s) (x_mem s))
        end
    end.

(** Copy into the current buffer, or the next one of the chain, or give the chain
    up for the next one. *)
Definition copy_round (r : vring) (h : Z) (rp : req_proc) (s : xfer) : run (xfer + outcome) :=
  let copy rp dst :=
    let '(g, dst, src, m, n) := copy_pkt (x_mangle s) dst (cur_buf (x_src s)) (x_mem s) in
    mret (inl
      {| x_dev := x_dev s; x_mem := m; x_mangle := g; x_src := set_cur_buf src (x_src s);
         x_dst := dst; x_head := Some (h, rp); x_header := x_header s;
         x_total := swrap 32 (x_total s + n); x_num_merged := x_num_merged s;
         x_total_merged := x_total_merged s; x_consumed := x_consumed s |}) in
  if negb (buf_done (x_dst s)) then copy rp (x_dst s)
  else
    o ← rp_next (dv_mem (x_dev s)) rp (x_mem s);
    match o with
    | inl _ => mret (inr (device_error (x_dev s), r, x_mem s, inr Exception))
    | inr (Some (rp, dst)) => copy rp dst
    | inr None =>
        if mrg_rxbuf (x_dev s) then
          mret (inl
            {| x_dev := x_dev s; x_mem := x_mem s; x_mangle := x_mangle s; x_src := x_src s;
               x_dst := x_dst s; x_head := None; x_header := x_header s; x_total := 0;
               x_num_merged := x_num_merged s;
               x_total_merged := x_total_merged s +[64] x_total s;
               x_consumed := x_consumed s ++ [(h, u32 (x_total s))] |})
        else mret (inr (rx_rewind h (x_dev s), r, x_mem s, inr Dropped))
    end.

Definition set_src (t : T) (s : xfer) : xfer :=
  {| x_dev := x_dev s; x_mem := x_mem s; x_mangle := x_mangle s; x_src := t; x_dst := x_dst s;
     x_head := x_head s; x_header := x_header s; x_total := x_total s;
     x_num_merged := x_num_merged s; x_total_merged := x_total_merged s;
     x_consumed := x_consumed s |}.

(** One round. *)
Definition vio_step (r : vring) (s : xfer) : run (xfer + outcome) :=
  o ← tr_done (x_src s) (x_mem s);
  match o with
  | inl e => mret (inr (abort s, r, x_mem s, inl e))
  | inr (t, true) => o ← deliver r (set_src t s); mret (inr o)
  | inr (t, false) =>
      o ← match x_head s with
          | None => next_head r (set_src t s)
          | Some (h, rp) => mret (inl (h, rp, set_src t s))
          end;
      match o with
      | inr o => mret (inr o)
      | inl (h, rp, s) => copy_round r h rp s
      end
  end.

Fixpoint vio_loop (fuel : nat) (r : vring) (s : xfer) : run outcome :=
  match fuel with
  | O => Fuel_out
  | S f => o ← vio_step r s; match o with inl s => vio_loop f r s | inr o => mret o end
  end.

Definition xfer_start (p src_port : port) (t : T) (d : net_dev) (m : memory) : xfer :=
  {| x_dev := d; x_mem := m; x_mangle := create_vlan_mangle p src_port; x_src := t;
     x_dst := {| pos := 0; left := 0 |}; x_head := None; x_header := 0; x_total := 0;
     x_num_merged := 0; x_total_merged := 0; x_consumed := [] |}.

Definition vio_handle_request (fuel : nat) (p src_port : port) (t : T)
    (d : net_dev) (r : vring) (m : memory) : run outcome :=
  vio_loop fuel r (xfer_start p src_port t d m).

(** ** Destination buffers *)

Definition outside (bs : list buffer) (x : Z) : Prop :=
  Forall (fun b => x < pos b \/ pos b + left b <= x) bs.

(** Memory changes in the buffers only. *)
Definition only_in (bs : list buffer) (m m' : memory) : Prop :=
  forall x, outside bs x -> m' x = m x.

Fixpoint room (bs : list buffer) : Z := match bs with [] => 0 | b :: bs => left b + room bs end.

Fixpoint apart (bs : list buffer) : Prop :=
  match bs with
  | [] => True
  | b :: bs => Forall (fun b' => disj (pos b) (left b) (pos b') (left b')) bs /\ apart bs
  end.

Definition bufs_ok (bs : list buffer) : Prop := Forall (fun b => in_u 32 (left b)) bs /\ apart bs.

Lemma only_in_refl bs m : only_in bs m m.
Proof. by intros x _. Qed.

Lemma only_in_trans bs m1 m2 m3 : only_in bs m1 m2 -> only_in bs m2 m3 -> only_in bs m1 m3.
Proof. intros H1 H2 x Hx. rewrite H2 by done. by apply H1. Qed.

Lemma only_in_mono bs bs' m m' :
  (forall x, outside bs' x -> outside bs x) -> only_in bs m m' -> only_in bs' m m'.
Proof. intros H H1 x Hx. by apply H1, H. Qed.

Lemma only_in_app_l bs bs' m m' : only_in bs m m' -> only_in (bs ++ bs') m m'.
Proof. apply only_in_mono. intros x [H _]%Forall_app. done. Qed.

Lemma only_in_app_r bs bs' m m' : only_in bs' m m' -> only_in (bs ++ bs') m m'.
Proof. apply only_in_mono. intros x [_ H]%Forall_app. done. Qed.

Lemma room_nonneg bs : Forall (fun b => in_u 32 (left b)) bs -> 0 <= room bs.
Proof. induction 1 as [|b bs Hb _ IH]; cbn; [done|]. unfold in_u in Hb. lia. Qed.

Lemma zlen_gather m bs : Forall (fun b => in_u 32 (left b)) bs -> zlen (gather m bs) = room bs.
Proof.
  induction 1 as [|b bs Hb _ IH]; cbn; [done|]. unfold in_u in Hb. rewrite zlen_app, zlen_mem_rd by lia.
  unfold gather in IH. by rewrite IH.
Qed.

Lemma bufs_ok_nonneg b bs : bufs_ok (b :: bs) -> 0 <= left b.
Proof. intros [Hu _]. apply Forall_cons_iff in Hu as [Hu _]. apply Hu. Qed.

(** The front part of the first buffer is used up. *)
Section Used.
Context (b : buffer) (bs : list buffer) (n : Z).
Context (Hok : bufs_ok (b :: bs)) (Hn : 0 <= n <= left b).

Lemma used_left : left (advance n b) = left b - n.
Proof. destruct Hok as [Hu _]. apply Forall_cons_iff in Hu as [Hu _]. by apply advance_left. Qed.

Lemma used_ok : bufs_ok (advance n b :: bs).
Proof.
  destruct Hok as [Hu [Ha Hap]]. apply Forall_cons_iff in Hu as [Hu Hus]. pose proof used_left as E.
  split; [constructor; [unfold in_u in *; lia|done]|]. split; [|done].
  eapply Forall_impl; [|exact Ha]. intros b' Hb'. unfold disj in *. rewrite E. cbn [pos advance]. lia.
Qed.

Lemma used_outside x : outside (b :: bs) x -> outside (advance n b :: bs) x.
Proof.
  intros [H1 H2]%Forall_cons_iff. constructor; [|done]. rewrite used_left. cbn [pos advance]. lia.
Qed.

Lemma used_room : room (b :: bs) = n + room (advance n b :: bs).
Proof. cbn [room]. rewrite used_left. lia. Qed.

(** What lies in the used part is not in the rest. *)
Lemma used_before x : pos b <= x < pos b + n -> outside (advance n b :: bs) x.
Proof.
  destruct Hok as [_ [Ha _]]. intros Hx. constructor; [cbn [pos advance]; lia|].
  eapply Forall_impl; [|exact Ha]. intros b' Hb'. unfold disj in Hb'. cbn beta. lia.
Qed.

(** Data written to the used part stays when the rest is filled. *)
Lemma used_gather o m m1 m' :
  zlen o = n -> (forall x, m1 x = mem_wr (pos b) o m x) -> only_in (advance n b :: bs) m1 m' ->
  gather m' (b :: bs) = o ++ gather m' (advance n b :: bs).
Proof.
  intros Ho H1 H2. unfold gather. cbn [flat_map]. rewrite (mem_rd_split m' (pos b) (left b) n) by done.
  rewrite used_left. cbn [pos advance]. rewrite <- app_assoc. f_equal.
  transitivity (mem_rd (mem_wr (pos b) o m) (pos b) (zlen o)); [rewrite Ho|apply mem_rd_wr_same].
  apply mem_rd_ext. intros i Hi. rewrite <- H1. apply H2, used_before. lia.
Qed.

Lemma used_only_in o m m1 m' :
  zlen o = n -> (forall x, m1 x = mem_wr (pos b) o m x) -> only_in (advance n b :: bs) m1 m' ->
  only_in (b :: bs) m m'.
Proof.
  intros Ho H1 H2 x Hx. rewrite H2 by (by apply used_outside). rewrite H1. apply mem_wr_outside.
  apply Forall_cons_iff in Hx as [Hx _]. lia.
Qed.
End Used.

Lemma mangle_work_nonneg g p : 0 <= mangle_work g p.
Proof. unfold mangle_work. pose proof (zlen_nonneg p). lia. Qed.

(** ** Filling one descriptor chain *)

Definition steps (r : vring) : relation xfer := rtc (fun s s' => vio_step r s = Ret (inl s')).

Lemma steps_loop r s s' o :
  steps r s s' -> vio_step r s' = Ret (inr o) ->
  exists n, forall fuel, (n <= fuel)%nat -> vio_loop fuel r s = Ret o.
Proof.
  intros Hs Ho. induction Hs as [s|s s1 s' E _ IH].
  - exists 1%nat. intros [|f] Hf; [lia|]. cbn. by rewrite Ho.
  - destruct (IH Ho) as [n Hn]. exists (S n). intros [|f] Hf; [lia|]. cbn. rewrite E. apply Hn. lia.
Qed.

(** The state after a round that copied [n] bytes. *)
Definition copied_to (s : xfer) (h : Z) (rp : req_proc) (t : T) (g : mangle) (dst src : buffer)
    (m : memory) (n : Z) : xfer :=
  {| x_dev := x_dev s; x_mem := m; x_mangle := g; x_src := set_cur_buf src t; x_dst := dst;
     x_head := Some (h, rp); x_header := x_header s; x_total := swrap 32 (x_total s + n);
     x_num_merged := x_num_merged s; x_total_merged := x_total_merged s;
     x_consumed := x_consumed s |}.

Lemma step_copy r s h rp rp' t dst g' dst' src' m' n :
  x_head s = Some (h, rp) -> tr_done (x_src s) (x_mem s) = Ret (inr (t, false)) ->
  (if buf_done (x_dst s) then rp_next (dv_mem (x_dev s)) rp (x_mem s) = Ret (inr (Some (rp', dst)))
   else rp' = rp /\ dst = x_dst s) ->
  copy_pkt (x_mangle s) dst (cur_buf t) (x_mem s) = (g', dst', src', m', n) ->
  vio_step r s = Ret (inl (copied_to s h rp' t g' dst' src' m' n)).
Proof.
  intros Hh Ht Hd Hc. unfold vio_step. rewrite Ht. cbn. rewrite Hh. cbn. unfold copy_round. cbn.
  destruct (buf_done (x_dst s)); cbn.
  - rewrite Hd. cbn. by rewrite Hc.
  - destruct Hd as [-> ->]. by rewrite Hc.
Qed.

(** The source ends, or the chain does. *)
Record filled (M : memory -> Prop) (l : mem_list) (h : Z) (bs : list buffer) (out : bytes) (s s' : xfer) : Prop := {
  fl_dev : x_dev s' = x_dev s;
  fl_header : x_header s' = x_header s;
  fl_num : x_num_merged s' = x_num_merged s;
  fl_merged : x_total_merged s' = x_total_merged s;
  fl_consumed : x_consumed s' = x_consumed s;
  fl_only : only_in bs (x_mem s) (x_mem s');
  fl_total : x_total s' = x_total s + Z.min (zlen out) (room bs);
  fl_data : take (Z.to_nat (zlen out)) (gather (x_mem s') bs) = take (Z.to_nat (room bs)) out;
  fl_head : exists rp, x_head s' = Some (h, rp) /\
    (room bs < zlen out -> left (x_dst s') = 0 /\ chain_of M l rp []);
  fl_src : exists p k, feed M (x_src s') p k /\ mangle_ok (x_mangle s') /\
    mangle_live (x_mangle s') p /\
    mangle_out (x_mangle s') p = drop (Z.to_nat (room bs)) out;
}.

Lemma filled_copy M l h b bs o out s s1 s' :
  bufs_ok (b :: bs) -> zlen o <= left b ->
  (forall x, x_mem s1 x = mem_wr (pos b) o (x_mem s) x) ->
  x_dev s1 = x_dev s -> x_header s1 = x_header s -> x_num_merged s1 = x_num_merged s ->
  x_total_merged s1 = x_total_merged s -> x_consumed s1 = x_consumed s ->
  x_total s1 = x_total s + zlen o ->
  filled M l h (advance (zlen o) b :: bs) out s1 s' -> filled M l h (b :: bs) (o ++ out) s s'.
Proof.
  intros Hok Hn Hm Hd Hh Hnm Htm Hc Ht F. pose proof (zlen_nonneg o) as Ho0.
  assert (Hn' : 0 <= zlen o <= left b) by lia.
  pose proof (used_room b bs (zlen o) Hok Hn') as Hr.
  pose proof (room_nonneg _ (proj1 (used_ok b bs (zlen o) Hok Hn'))) as Hr0.
  destruct F as [F1 F2 F3 F4 F5 F6 F7 F8 F9 F10]. pose proof (zlen_nonneg out).
  set (bs' := advance (zlen o) b :: bs) in *.
  assert (Ez : Z.to_nat (room (b :: bs)) = (length o + Z.to_nat (room bs'))%nat) by (unfold zlen in *; lia).
  split; rewrite ?Hd, ?Hh, ?Hnm, ?Htm, ?Hc in *; try done.
  - by eapply used_only_in.
  - rewrite F7, Ht, Hr, zlen_app. lia.
  - rewrite (used_gather b bs (zlen o) Hok Hn' o (x_mem s) (x_mem s1) (x_mem s') eq_refl Hm F6).
    rewrite Ez, zlen_app. replace (Z.to_nat (zlen o + zlen out)) with (length o + Z.to_nat (zlen out))%nat
      by (unfold zlen in *; lia).
    rewrite !take_app_add. fold bs'. by rewrite F8.
  - destruct F9 as (rp & E1 & E2). exists rp. split; [done|]. intros Hlt. apply E2.
    rewrite Hr, zlen_app in Hlt. lia.
  - by rewrite Ez, drop_app_add.
Qed.

Lemma filled_skip M l h b bs out s s' :
  left b = 0 -> filled M l h bs out s s' -> filled M l h (b :: bs) out s s'.
Proof.
  intros Hb F. assert (Er : room (b :: bs) = room bs) by (cbn; lia).
  assert (Eg : forall m, gather m (b :: bs) = gather m bs) by (intros m; cbn; by rewrite Hb).
  destruct F as [F1 F2 F3 F4 F5 F6 F7 F8 F9 F10]. split; rewrite ?Er, ?Eg; try done.
  intros x Hx. apply F6. by apply Forall_cons_iff in Hx as [_ Hx].
Qed.

(** A chain is being filled: the source has [p] left, and [bs] follows the current
    buffer. *)
Record filling (M : memory -> Prop) (l : mem_list) (area : list buffer) (h : Z) (rp : req_proc)
    (p : bytes) (k : nat) (bs : list buffer) (s : xfer) : Prop := {
  fi_head : x_head s = Some (h, rp);
  fi_list : dv_mem (x_dev s) = l;
  fi_mem : M (x_mem s);
  fi_src : feed M (x_src s) p k;
  fi_ok : mangle_ok (x_mangle s);
  fi_live : mangle_live (x_mangle s) p;
  fi_chain : chain_of M l rp bs;
  fi_bufs : bufs_ok (x_dst s :: bs);
  fi_area x : outside area x -> outside (x_dst s :: bs) x;
  fi_total : 0 <= x_total s;
  fi_max : x_total s + zlen (mangle_out (x_mangle s) p) < 2 ^ 31;
}.

Context `{!Net_transfer_laws T}.
Context (M : memory -> Prop) (l : mem_list) (area : list buffer) (r : vring).
Context (HMf : forall m m', M m -> only_in area m m' -> M m').

(** One round of copying into [b], the current buffer or the next one. *)
Lemma fill_round s h rp rp' p k bs t' k' b bs' :
  filling M l area h rp p k bs s ->
  tr_done (x_src s) (x_mem s) = Ret (inr (t', false)) -> feed M t' p k' -> 0 < left (cur_buf t') ->
  (if buf_done (x_dst s) then rp_next (dv_mem (x_dev s)) rp (x_mem s) = Ret (inr (Some (rp', b)))
   else rp' = rp /\ b = x_dst s) ->
  chain_of M l rp' bs' -> bufs_ok (b :: bs') -> (forall x, outside area x -> outside (b :: bs') x) ->
  exists s1 p1 o,
    vio_step r s = Ret (inl s1) /\ filling M l area h rp' p1 k' bs' s1 /\
    mangle_out (x_mangle s) p = o ++ mangle_out (x_mangle s1) p1 /\
    x_dst s1 = advance (zlen o) b /\
    (0 < left b -> mangle_work (x_mangle s1) p1 < mangle_work (x_mangle s) p) /\
    mangle_work (x_mangle s1) p1 <= mangle_work (x_mangle s) p /\
    forall s', filled M l h (x_dst s1 :: bs') (mangle_out (x_mangle s1) p1) s1 s' ->
      filled M l h (b :: bs') (mangle_out (x_mangle s) p) s s'.
Proof.
  intros [Fh Fl Fm Fs Fo Fv _ _ _ Ft Fx] Et Hf Hl Hb Hch Hbs Har.
  destruct (feed_inv_data M t' p k' Hf Hl) as (c & rest & -> & Hu & Hc & Hfr).
  pose proof (bufs_ok_nonneg _ _ Hbs) as Hb0. pose proof Hbs as [Hbu _].
  apply Forall_cons_iff in Hbu as [Hbu _].
  destruct (copy_pkt_step (x_mangle s) b (cur_buf t') (x_mem s) c rest Fo Hbu Hu (eq_sym (Hc _ Fm)) Fv)
    as (g' & q & o & [[m1 [Ecp Hm1]] Hq Ho Hout Hok Hlv Hle Hpr]).
  pose proof (zlen_nonneg o) as Ho0. pose proof (zlen_nonneg (mangle_out g' (drop (Z.to_nat q) c ++ rest))) as Ho1.
  rewrite Hout, zlen_app in Fx.
  assert (Hzc : zlen c = left (cur_buf t')) by (rewrite <- (Hc _ Fm); apply zlen_mem_rd; unfold in_u in Hu; lia).
  assert (Htot : swrap 32 (x_total s + zlen o) = x_total s + zlen o) by (apply swrap_small; lia).
  exists (copied_to s h rp' t' g' (advance (zlen o) b) (advance q (cur_buf t')) m1 (zlen o)),
    (drop (Z.to_nat q) c ++ rest), o.
  split; [by eapply step_copy|]. split; [|split; [done|split; [done|split; [by intros; apply Hpr|split; [done|]]]]].
  - split; cbn; try done.
    + apply (HMf (x_mem s)); [done|]. intros x Hx. rewrite Hm1. apply mem_wr_outside.
      apply Har, Forall_cons_iff in Hx as [Hx _]. lia.
    + apply (feed_advance M t' c rest k' q); done.
    + apply used_ok; [done|lia].
    + intros x Hx. apply used_outside; [done|lia|by apply Har].
    + lia.
    + lia.
  - intros s' F. rewrite Hout. eapply filled_copy; [done|done|..|exact F]; cbn; done.
Qed.

(** Nothing to do in this chain: the packet or the chain is used up. *)
Lemma filled_stop s h rp p k bs :
  filling M l area h rp p k bs s ->
  p = [] \/ left (x_dst s) = 0 /\ bs = [] ->
  filled M l h (x_dst s :: bs) (mangle_out (x_mangle s) p) s s.
Proof.
  intros [Fh Fl Fm Fs Fo Fv Fc Fb _ Ft Fx] Hstop.
  pose proof (room_nonneg _ (proj1 Fb)) as Hr. set (out := mangle_out (x_mangle s) p) in *.
  pose proof (zlen_nonneg out) as Ho.
  assert (Hz : out = [] \/ room (x_dst s :: bs) = 0 /\ left (x_dst s) = 0 /\ bs = []).
  { destruct Hstop as [->|[E ->]]; [left|right; cbn; auto with lia]. by apply mangle_out_end. }
  split; try done.
  - destruct Hz as [->|(Hz & _)]; [change (zlen (@nil Z)) with 0|]; lia.
  - destruct Hz as [->|(Hz & _)]; [by rewrite take_nil|].
    pose proof (zlen_gather (x_mem s) _ (proj1 Fb)) as Hg. rewrite Hz in Hg |- *.
    unfold zlen in Hg. destruct (gather _ _); [by rewrite take_nil|done].
  - exists rp. split; [done|]. intros Hlt. destruct Hz as [E|(_ & ? & ->)]; [|done].
    rewrite E in Hlt. change (zlen (@nil Z)) with 0 in Hlt. lia.
  - exists p, k. split; [done|]. split; [done|]. split; [done|]. fold out.
    destruct Hz as [->|(Hz & _)]; [by rewrite drop_nil|by rewrite Hz].
Qed.

Lemma chain_fill n s h rp p k bs :
  filling M l area h rp p k bs s ->
  (Z.to_nat (mangle_work (x_mangle s) p) + length bs <= n)%nat ->
  exists s', steps r s s' /\ filled M l h (x_dst s :: bs) (mangle_out (x_mangle s) p) s s'.
Proof.
  revert s rp p k bs. induction n as [n IH] using lt_wf_ind. intros s rp p k bs F Hn. pose proof F as [].
  destruct (feed_done M (x_src s) p k (x_mem s) fi_src0 fi_mem0) as [[-> E]|(t' & k' & E & Hf & Hl & _)].
  { exists s. split; [apply rtc_refl|]. eapply filled_stop; [done|by left]. }
  pose proof (mangle_work_nonneg (x_mangle s) p) as Hw0.
  destruct (buf_done (x_dst s)) eqn:Eb.
  - apply Z.eqb_eq in Eb. destruct fi_chain0 as [rp Hend|rp rp' b bs Hmore Hch].
    { exists s. split; [apply rtc_refl|]. eapply filled_stop; [done|by right]. }
    destruct (fill_round s h rp rp' p k (b :: bs) t' k' b bs F E Hf Hl) as (s1 & p1 & o & E1 & F1 & _ & _ & _ & Hle & Hfin).
    + unfold buf_done. rewrite Eb. cbn. rewrite fi_list0. by apply Hmore.
    + done.
    + destruct fi_bufs0 as [Hu [_ Hap]]. apply Forall_cons_iff in Hu as [_ Hu]. done.
    + intros x Hx. specialize (fi_area0 x Hx). by apply Forall_cons_iff in fi_area0 as [_ ?].
    + destruct (IH (n - 1)%nat ltac:(cbn in Hn; lia) s1 rp' p1 k' bs F1) as (s' & Hst & Hfl); [cbn in Hn; lia|].
      exists s'. split; [by eapply rtc_l|]. apply filled_skip; [done|]. by apply Hfin.
  - destruct (fill_round s h rp rp p k bs t' k' (x_dst s) bs F E Hf Hl) as (s1 & p1 & o & E1 & F1 & _ & _ & Hlt & _ & Hfin);
      [by rewrite Eb|done..|].
    apply Z.eqb_neq in Eb. pose proof (bufs_ok_nonneg _ _ fi_bufs0). specialize (Hlt ltac:(lia)).
    pose proof (mangle_work_nonneg (x_mangle s1) p1).
    destruct (IH (n - 1)%nat ltac:(lia) s1 rp p1 k' bs F1) as (s' & Hst & Hfl); [lia|].
    exists s'. split; [by eapply rtc_l|]. by apply Hfin.
Qed.

(** ** Runs of the loop *)

Definition runs (s : xfer) (o : outcome) : Prop :=
  exists n, forall fuel, (n <= fuel)%nat -> vio_loop fuel r s = Ret o.

Lemma runs_end s o : vio_step r s = Ret (inr o) -> runs s o.
Proof. intros E. exists 1%nat. intros [|f] Hf; [lia|]. cbn. by rewrite E. Qed.

Lemma runs_step s s' o : vio_step r s = Ret (inl s') -> runs s' o -> runs s o.
Proof.
  intros E [n Hn]. exists (S n). intros [|f] Hf; [lia|]. cbn. rewrite E. apply Hn. lia.
Qed.

Lemma runs_steps s s' o : steps r s s' -> runs s' o -> runs s o.
Proof. intros H Ho. induction H as [|s s1 s' E _ IH]; [done|]. eapply runs_step; eauto. Qed.

(** States with the same next round. *)
Lemma runs_same s s' o : vio_step r s = vio_step r s' -> runs s' o -> runs s o.
Proof.
  intros E [n Hn]. exists (S n). intros [|f] Hf; [lia|]. specialize (Hn (S f) ltac:(lia)).
  cbn in Hn |- *. by rewrite E.
Qed.

(** ** The chains the driver offers *)

(** The chains behind the entries of the available ring, in all memories of [M]. *)
Inductive offers : vqueue -> list (Z * list buffer) -> Prop :=
  | offers_none q : desc_avail q r = false -> offers q []
  | offers_chain q q' h rp b bs hs :
      next_avail q r = Ret (q', Some h) ->
      (forall m, M m -> rp_start l (vr_desc r) (vq_num q') h m = Ret (inr (rp, b))) ->
      chain_of M l rp bs -> offers q' hs -> offers q ((h, b :: bs) :: hs).

Definition bufs (hs : list (Z * list buffer)) : list buffer := flat_map snd hs.

(** The entries of the used ring for [n] bytes. *)
Fixpoint entries (n : Z) (hs : list (Z * list buffer)) : list (Z * Z) :=
  match hs with
  | [] => []
  | (h, bs) :: hs => if n <=? room bs then [(h, n)] else (h, room bs) :: entries (n - room bs) hs
  end.

Lemma entries_bound n hs : zlen (entries n hs) <= zlen hs.
Proof.
  revert n. induction hs as [|[h bs] hs IH]; intros n; cbn; [done|]. rewrite zlen_cons.
  split_if; [unfold zlen; cbn [length]; lia|]. rewrite zlen_cons. specialize (IH (n - room bs)). lia.
Qed.

Lemma room_app bs bs' : room (bs ++ bs') = room bs + room bs'.
Proof. induction bs as [|b bs IH]; cbn; lia. Qed.

Lemma gather_app m bs bs' : gather m (bs ++ bs') = gather m bs ++ gather m bs'.
Proof. apply flat_map_app. Qed.

Lemma bufs_ok_app bs bs' :
  bufs_ok (bs ++ bs') ->
  bufs_ok bs /\ bufs_ok bs' /\
  Forall (fun b => Forall (fun b' => disj (pos b) (left b) (pos b') (left b')) bs') bs.
Proof.
  intros [Hu Ha]. apply Forall_app in Hu as [Hu Hu']. unfold bufs_ok. revert Hu Ha.
  induction bs as [|b bs IH]; intros Hu Ha; [done|]. cbn [apart app] in *. destruct Ha as [Hb Ha].
  apply Forall_app in Hb as [Hb Hb']. apply Forall_cons_iff in Hu as [Hu0 Hu].
  destruct (IH Hu Ha) as ((_ & H1) & H2 & H3).
  split; [split; [by constructor|done]|]. split; [done|]. by constructor.
Qed.

(** Filling other buffers does not disturb these. *)
Lemma gather_keep bs bs' m m' :
  bufs_ok (bs ++ bs') -> only_in bs' m m' -> gather m' bs = gather m bs.
Proof.
  intros Hok Hm. destruct (bufs_ok_app _ _ Hok) as (_ & _ & Hd). clear Hok.
  induction Hd as [|b bs Hb _ IH]; [done|]. unfold gather in *. cbn [flat_map]. rewrite IH. f_equal.
  apply mem_rd_ext. intros i Hi. apply Hm. eapply Forall_impl; [|exact Hb].
  intros b' Hd. unfold disj in Hd. cbn beta. lia.
Qed.

(** ** Rounds at the ends of chains *)

Lemma consumed_one h len q : consumed h len q r = consumed_range [(h, len)] q r.
Proof.
  unfold consumed, consumed_range. cbn [consumed_loop]. rewrite Z.add_0_r.
  by destruct (store _ _ (used_ring r)).
Qed.

Lemma deliver_ok s h rp r' :
  x_head s = Some (h, rp) -> x_header s <> 0 ->
  (x_consumed s = [] -> x_num_merged s = 1 /\ x_total_merged s = 0) ->
  0 <= x_total s < 2 ^ 31 -> 0 <= x_total_merged s < 2 ^ 63 ->
  consumed_range (x_consumed s ++ [(h, x_total s)]) (rx_vq (x_dev s)) r = Ret r' ->
  deliver r s = Ret (notify_queue Rx r' (x_dev s), r',
                     mem_wr (x_header s + 10) (le_split 2 (x_num_merged s)) (x_mem s),
                     inr (Delivered (x_total_merged s + x_total s))).
Proof.
  intros Hh Hd Hc Ht Hm E. unfold deliver. replace (x_header s =? 0) with false by lia. rewrite Hh.
  assert (Hu : u32 (x_total s) = x_total s) by (apply uwrap_small; unfold in_u; lia). rewrite Hu.
  destruct (x_consumed s) as [|e es].
  - destruct (Hc eq_refl) as [-> ->]. cbn [Z.eqb negb app] in *. unfold finish. rewrite consumed_one, E. cbn.
    by rewrite uwrap_small by (unfold in_u; lia).
  - unfold finish_range. rewrite E. cbn. rewrite uwrap_small by (unfold in_u; lia). by rewrite (Z.add_comm (x_total s)).
Qed.

(** The chain is set aside for the next one. *)
Definition set_aside (s : xfer) (h : Z) (t : T) : xfer :=
  {| x_dev := x_dev s; x_mem := x_mem s; x_mangle := x_mangle s; x_src := t; x_dst := x_dst s;
     x_head := None; x_header := x_header s; x_total := 0; x_num_merged := x_num_merged s;
     x_total_merged := x_total_merged s +[64] x_total s;
     x_consumed := x_consumed s ++ [(h, u32 (x_total s))] |}.

Lemma step_full s h rp t :
  x_head s = Some (h, rp) -> tr_done (x_src s) (x_mem s) = Ret (inr (t, false)) ->
  left (x_dst s) = 0 -> rp_next (dv_mem (x_dev s)) rp (x_mem s) = Ret (inr None) ->
  vio_step r s =
    if mrg_rxbuf (x_dev s) then Ret (inl (set_aside s h t))
    else Ret (inr (rx_rewind h (x_dev s), r, x_mem s, inr Dropped)).
Proof.
  intros Hh Ht Hd Hn. unfold vio_step. rewrite Ht. cbn. rewrite Hh. cbn. unfold copy_round, buf_done. cbn.
  rewrite Hd. cbn. rewrite Hn. cbn. by destruct (mrg_rxbuf (x_dev s)).
Qed.

(** A round without a chain behaves as one on the next chain. *)
Definition on_chain (s : xfer) (q : vqueue) (h : Z) (rp : req_proc) (b : buffer) : xfer :=
  {| x_dev := set_rx_vq q (x_dev s); x_mem := x_mem s; x_mangle := x_mangle s; x_src := x_src s;
     x_dst := b; x_head := Some (h, rp); x_header := x_header s; x_total := x_total s;
     x_num_merged := x_num_merged s +[16] 1; x_total_merged := x_total_merged s;
     x_consumed := x_consumed s |}.

Lemma step_next_chain s q h rp b :
  x_head s = None -> left (cur_buf (x_src s)) <> 0 -> x_header s <> 0 ->
  ready (rx_vq (x_dev s)) = true -> next_avail (rx_vq (x_dev s)) r = Ret (q, Some h) ->
  rp_start (dv_mem (x_dev s)) (vr_desc r) (vq_num q) h (x_mem s) = Ret (inr (rp, b)) ->
  vio_step r s = vio_step r (on_chain s q h rp b).
Proof.
  intros Hh Ht Hd Hr Hn Hs. unfold vio_step. cbn. rewrite !tr_done_more by done. cbn. rewrite Hh.
  unfold next_head. cbn. rewrite Hr. cbn. rewrite Hn. cbn. rewrite Hs. cbn.
  by replace (x_header s =? 0) with false by lia.
Qed.

(** The first chain gets the header. *)
Definition on_first (s : xfer) (q : vqueue) (h : Z) (rp : req_proc) (b : buffer) : xfer :=
  {| x_dev := set_rx_vq q (x_dev s);
     x_mem := mem_wr (pos b)
                (hdr_bytes (rewrite_hdr (x_mangle s) (copy_header (x_src s) (x_mem s) (hdr_at (x_mem s) (pos b)))))
                (x_mem s);
     x_mangle := x_mangle s; x_src := x_src s; x_dst := advance sizeof_hdr b;
     x_head := Some (h, rp); x_header := pos b; x_total := sizeof_hdr;
     x_num_merged := x_num_merged s +[16] 1; x_total_merged := x_total_merged s;
     x_consumed := x_consumed s |}.

Lemma step_first_chain s q h rp b :
  x_head s = None -> left (cur_buf (x_src s)) <> 0 -> x_header s = 0 ->
  ready (rx_vq (x_dev s)) = true -> next_avail (rx_vq (x_dev s)) r = Ret (q, Some h) ->
  rp_start (dv_mem (x_dev s)) (vr_desc r) (vq_num q) h (x_mem s) = Ret (inr (rp, b)) ->
  sizeof_hdr <= left b ->
  vio_step r s = vio_step r (on_first s q h rp b).
Proof.
  intros Hh Ht Hd Hr Hn Hs Hb. unfold vio_step. cbn. rewrite !tr_done_more by done. cbn. rewrite Hh.
  unfold next_head. cbn. rewrite Hr. cbn. rewrite Hn. cbn. rewrite Hs. cbn. rewrite Hd. cbn.
  replace (left b <? sizeof_hdr) with false by lia. cbn.
  by replace (Z.min (left b) sizeof_hdr) with sizeof_hdr by lia.
Qed.

(** ** Filling as many chains as it takes *)

Definition bump (n : Z) (q : vqueue) : vqueue := set_current (current_avail q +[16] n) q.

Lemma bump_0 q : in_u 16 (current_avail q) -> bump 0 q = q.
Proof. intros H. destruct q. unfold bump, set_current. cbn in *. by rewrite Z.add_0_r, uwrap_small. Qed.

Lemma bump_bump a b q : bump a (bump b q) = bump (b + a) q.
Proof. unfold bump, set_current. cbn. by rewrite uwrap_add_l, Z.add_assoc. Qed.

Lemma next_avail_bump q q' h : next_avail q r = Ret (q', Some h) -> q' = bump 1 q.
Proof.
  unfold next_avail. split_if; [|done]. intros E. apply run_bind_Ret in E as (i & _ & E). injection E as <- _. done.
Qed.

Lemma rx_set_vq q (d : net_dev) : rx_vq (set_rx_vq q d) = q.
Proof. done. Qed.

Lemma set_set_rx_vq q q' (d : net_dev) : set_rx_vq q (set_rx_vq q' d) = set_rx_vq q d.
Proof. done. Qed.

Lemma set_rx_vq_same (d : net_dev) : set_rx_vq (rx_vq d) d = d.
Proof. by destruct d as [c ml [[q dk kp] ? ? ? ?]]. Qed.

(** An exhausted source. *)
Lemma feed_nil t k m : feed M t [] k -> M m -> tr_done t m = Ret (inr (t, true)).
Proof.
  intros Hf HM. destruct (feed_done M t [] k m Hf HM) as [[_ E]|(t' & k' & _ & Hf' & Hl & _)]; [done|].
  destruct (feed_inv_data M t' [] k' Hf' Hl) as (c & p & E & _ & Hc & _). symmetry in E.
  apply app_eq_nil in E as [-> _]. specialize (Hc m HM). apply (f_equal zlen) in Hc.
  rewrite zlen_mem_rd in Hc by lia. change (zlen (@nil Z)) with 0 in Hc. lia.
Qed.

(** A source with data. *)
Lemma feed_more g t p k m :
  mangle_ok g -> mangle_live g p -> mangle_out g p <> [] -> feed M t p k -> M m ->
  exists t' k', tr_done t m = Ret (inr (t', false)) /\ feed M t' p k' /\ 0 < left (cur_buf t').
Proof.
  intros Hg Hl Hne Hf HM. destruct (feed_done M t p k m Hf HM) as [[-> _]|(t' & k' & E & Hf' & Hp & _)].
  - by rewrite mangle_out_end in Hne.
  - by exists t', k'.
Qed.

(** What the states before a chain is filled have in common. *)
Record in_transfer (hs : list (Z * list buffer)) (bs : list buffer) (n : Z) (s : xfer) : Prop := {
  it_header : x_header s <> 0;
  it_ready : ready (rx_vq (x_dev s)) = true;
  it_current : in_u 16 (current_avail (rx_vq (x_dev s)));
  it_offers : offers (rx_vq (x_dev s)) hs;
  it_bufs : bufs_ok (bs ++ bufs hs);
  it_area x : outside area x -> outside (bufs hs) x;
  it_first : x_consumed s = [] -> x_num_merged s = 1 /\ x_total_merged s = 0;
  it_num : 1 <= x_num_merged s /\ x_num_merged s + zlen hs < 2 ^ 16;
  it_max : 0 <= x_total_merged s /\ x_total_merged s + x_total s + n < 2 ^ 31;
}.

(** The end of the transfer: [n] more bytes, the chains [es] finished. *)
Definition finished (s : xfer) (n : Z) (es : list (Z * Z)) (m' : memory) : Prop :=
  forall r', consumed_range (x_consumed s ++ es) (rx_vq (x_dev s)) r = Ret r' ->
    runs s (notify_queue Rx r' (set_rx_vq (bump (zlen es - 1) (rx_vq (x_dev s))) (x_dev s)), r',
            mem_wr (x_header s + 10) (le_split 2 (x_num_merged s + zlen es - 1)) m',
            inr (Delivered (x_total_merged s + x_total s + n))).

Lemma finished_last s s' h rp p k bs hs out :
  filling M l area h rp p k bs s -> in_transfer hs (x_dst s :: bs) (zlen out) s ->
  steps r s s' -> filled M l h (x_dst s :: bs) out s s' -> zlen out <= room (x_dst s :: bs) ->
  finished s (zlen out) [(h, x_total s + zlen out)] (x_mem s') /\
  take (Z.to_nat (zlen out)) (gather (x_mem s') ((x_dst s :: bs) ++ bufs hs)) = out.
Proof.
  intros F I Hst [F1 F2 F3 F4 F5 F6 F7 F8 (rp' & F9 & _) (p' & k' & Hf & Hg & Hl & Ho)] Hfit.
  destruct F as [_ Fl Fm _ _ _ _ Fb Fa Ft Fx]. destruct I as [I1 I2 I3 I4 I5 I6 I7 I8 I9].
  pose proof (zlen_nonneg out) as Ho0. rewrite Z.min_l in F7 by done. split.
  - intros r' E.
    assert (Hnil : p' = []).
    { apply (mangle_out_nil (x_mangle s')); [done..|]. rewrite Ho. apply drop_ge. unfold zlen in *. lia. }
    subst p'. assert (HM' : M (x_mem s')).
    { apply (HMf (x_mem s)); [done|]. eapply only_in_mono; [exact Fa|done]. }
    eapply runs_steps; [exact Hst|]. apply runs_end. unfold vio_step.
    rewrite (feed_nil _ _ _ Hf HM'). cbn [mbind run_bind].
    change (deliver r (set_src (x_src s') s')) with (deliver r s').
    change (zlen [(h, x_total s + zlen out)]) with 1. rewrite bump_0 by done. rewrite set_rx_vq_same.
    rewrite (deliver_ok s' h rp' r'); rewrite ?F1, ?F2, ?F3, ?F4, ?F5, ?F7; try done; try lia.
    replace (x_num_merged s + 1 - 1) with (x_num_merged s) by lia. by rewrite Z.add_assoc.
  - rewrite gather_app, take_app_le.
    2: { pose proof (zlen_gather (x_mem s') _ (proj1 Fb)) as Hz. unfold zlen in *. lia. }
    rewrite F8. apply take_ge. unfold zlen in *. lia.
Qed.

(** The next chain after a full one. *)
Lemma next_filling s s' h rp p k bs hs out :
  filling M l area h rp p k bs s -> in_transfer hs (x_dst s :: bs) (zlen out) s ->
  filled M l h (x_dst s :: bs) out s s' -> room (x_dst s :: bs) < zlen out ->
  mrg_rxbuf (x_dev s) = true -> out = mangle_out (x_mangle s) p ->
  match hs with
  | [] => True
  | (h1, bs1) :: hs1 => exists t' k' p' rp1 b1 bs2,
      bs1 = b1 :: bs2 /\
      let s3 := on_chain (set_aside s' h t') (bump 1 (rx_vq (x_dev s))) h1 rp1 b1 in
      (forall o, runs s3 o -> runs s' o) /\
      filling M l area h1 rp1 p' k' bs2 s3 /\
      in_transfer hs1 (x_dst s3 :: bs2) (zlen out - room (x_dst s :: bs)) s3 /\
      x_total_merged s3 = x_total_merged s + x_total s + room (x_dst s :: bs) /\
      x_consumed s3 = x_consumed s ++ [(h, x_total s + room (x_dst s :: bs))] /\
      x_num_merged s3 = x_num_merged s + 1 /\
      mangle_out (x_mangle s3) p' = drop (Z.to_nat (room (x_dst s :: bs))) out
  end.
Proof.
  intros F I [F1 F2 F3 F4 F5 F6 F7 F8 (rp' & F9 & F9') (p' & k' & Hf & Hg & Hl & Ho)] Hfull Hmrg Eout.
  destruct F as [_ Fl Fm _ _ _ _ Fb Fa Ft Fx]. destruct I as [I1 I2 I3 I4 I5 I6 I7 I8 I9].
  destruct hs as [|[h1 bs1] hs1]; [done|]. destruct (F9' Hfull) as [Hd0 Hend].
  pose proof (room_nonneg _ (proj1 Fb)) as Hr0. rewrite Z.min_r in F7 by lia.
  set (c := room (x_dst s :: bs)) in *.
  assert (HM' : M (x_mem s')) by (apply (HMf (x_mem s)); [done|]; eapply only_in_mono; [exact Fa|done]).
  assert (Hzd : zlen (drop (Z.to_nat c) out) = zlen out - c) by (apply zlen_drop; lia).
  assert (Hne : mangle_out (x_mangle s') p' <> []).
  { rewrite Ho. intros E. rewrite E in Hzd. change (zlen (@nil Z)) with 0 in Hzd. lia. }
  destruct (feed_more _ _ p' k' (x_mem s') Hg Hl Hne Hf HM') as (t' & k1 & Et & Hf' & Hlt).
  inversion I4 as [|q q' h1' rp1 b1 bs2 hs1' Hnx Hst Hch Hof]; subst.
  apply next_avail_bump in Hnx as Eq. subst q'. cbn [bufs flat_map snd] in I5, I6.
  fold (bufs hs1) in I5, I6. apply bufs_ok_app in I5 as (_ & I5 & _).
  pose proof (bufs_ok_app _ _ I5) as (Hok1 & _).
  rewrite zlen_cons in I8. exists t', k1, p', rp1, b1, bs2. split; [done|].
  assert (Ec : left (x_dst s) + room bs = c) by done. set (s3 := on_chain _ _ _ _ _). split; [|split; [|split; [|split; [|split; [|split]]]]].
  - intros o Hrun. eapply runs_step.
    + rewrite (step_full s' h rp' t'); [by rewrite F1, Hmrg|done..|].
      inversion Hend as [? Hn|]; subst. rewrite F1, Fl. by apply Hn.
    + eapply runs_same; [|exact Hrun]. unfold s3.
      apply step_next_chain; cbn [set_aside x_head x_src x_header x_dev x_mem]; rewrite ?F1, ?F2; try done; [lia|].
      rewrite Fl. by apply Hst.
  - split; cbn; rewrite ?F1, ?F7; try done; try lia.
    + intros x Hx. specialize (I6 x Hx). by apply Forall_app in I6 as [I6 _].
    + rewrite Ho, Hzd. lia.
  - split; cbn; rewrite ?F1, ?F2, ?F3, ?F4, ?F5, ?F7; try done.
    + by apply uwrap_range.
    + intros x Hx. specialize (I6 x Hx). by apply Forall_app in I6 as [_ I6].
    + by intros [_ ?]%app_eq_nil.
    + rewrite uwrap_small by (unfold in_u; pose proof (zlen_nonneg hs1); lia). lia.
    + rewrite Ec, uwrap_small by (unfold in_u; lia). lia.
  - cbn [s3 on_chain set_aside x_total_merged]. rewrite F4, F7, uwrap_small by (unfold in_u; lia). lia.
  - cbn [s3 on_chain set_aside x_consumed]. rewrite F5, F7, uwrap_small by (unfold in_u; lia). done.
  - cbn. rewrite F3. apply uwrap_small. unfold in_u. pose proof (zlen_nonneg hs1). lia.
  - done.
Qed.

(** The used entries when [n] more bytes follow [t] bytes in the chain of [h]. *)
Definition all_entries (t n : Z) (h : Z) (bs : list buffer) (hs : list (Z * list buffer)) : list (Z * Z) :=
  if n <=? room bs then [(h, t + n)] else (h, t + room bs) :: entries (n - room bs) hs.

Lemma all_entries_0 n h bs hs : all_entries 0 n h bs hs = entries n ((h, bs) :: hs).
Proof. done. Qed.

Lemma fill_runs hs s h rp p k bs out :
  filling M l area h rp p k bs s -> in_transfer hs (x_dst s :: bs) (zlen out) s ->
  out = mangle_out (x_mangle s) p ->
  zlen out <= room (x_dst s :: bs) \/
  mrg_rxbuf (x_dev s) = true /\ zlen out <= room ((x_dst s :: bs) ++ bufs hs) ->
  exists m', only_in ((x_dst s :: bs) ++ bufs hs) (x_mem s) m' /\
    take (Z.to_nat (zlen out)) (gather m' ((x_dst s :: bs) ++ bufs hs)) = out /\
    finished s (zlen out) (all_entries (x_total s) (zlen out) h (x_dst s :: bs) hs) m'.
Proof.
  revert s h rp p k bs out. induction hs as [|[h1 bs1] hs IH]; intros s h rp p k bs out F I Eo Hroom;
    (destruct (chain_fill _ s h rp p k bs F (Nat.le_refl _)) as (s' & Hst & Hfl); rewrite <- Eo in Hfl;
     unfold all_entries; destruct (Z.leb_spec (zlen out) (room (x_dst s :: bs))) as [Hfit|Hfit];
     [exists (x_mem s'); destruct (finished_last s s' h rp p k bs _ out F I Hst Hfl Hfit);
      split; [apply only_in_app_l; by destruct Hfl|done]|]).
  { destruct Hroom as [?|[_ Hr]]; [lia|]. rewrite room_app in Hr. cbn in Hr, Hfit. lia. }
  destruct Hroom as [?|[Hmrg Hr]]; [lia|].
  destruct (next_filling s s' h rp p k bs _ out F I Hfl Hfit Hmrg Eo)
    as (t' & k' & p' & rp1 & b1 & bs2 & -> & Hs3). cbv zeta in Hs3.
  set (s3 := on_chain _ _ _ _ _) in Hs3. destruct Hs3 as (Hrun & F3 & I3 & E1 & E2 & E3 & E4).
  set (c := room (x_dst s :: bs)) in *. pose proof (room_nonneg _ (proj1 (fi_bufs _ _ _ _ _ _ _ _ _ F))) as Hc0.
  fold c in Hc0. assert (Hzd : zlen (drop (Z.to_nat c) out) = zlen out - c) by (apply zlen_drop; lia).
  rewrite <- Hzd in I3. assert (Ed : x_dev s' = x_dev s) by apply Hfl.
  assert (Eh : x_header s' = x_header s) by apply Hfl.
  destruct (IH s3 h1 rp1 p' k' bs2 (drop (Z.to_nat c) out) F3 I3 (eq_sym E4)) as (m' & Ho & Hg & Hfin).
  { right. split; [change (mrg_rxbuf (x_dev s') = true); by rewrite Ed|].
    rewrite Hzd. cbn [bufs flat_map snd] in Hr. fold (bufs hs) in Hr.
    rewrite !room_app in *. change (room (x_dst s3 :: bs2)) with (room (b1 :: bs2)). lia. }
  change (x_total s3) with 0 in Hfin. rewrite all_entries_0, Hzd in Hfin.
  change (x_dst s3 :: bs2) with (b1 :: bs2) in *. change (x_mem s3) with (x_mem s') in Ho.
  exists m'. cbn [bufs flat_map snd]. fold (bufs hs). destruct Hfl as [_ _ _ _ _ F6 _ F8 _ _].
  assert (Hbufs : bufs_ok ((x_dst s :: bs) ++ (b1 :: bs2) ++ bufs hs)) by apply I.
  split; [|split].
  - apply (only_in_trans _ _ (x_mem s')); [by apply only_in_app_l|by apply only_in_app_r].
  - rewrite gather_app, (gather_keep _ _ (x_mem s') m' Hbufs Ho).
    assert (Hlen : length (gather (x_mem s') (x_dst s :: bs)) = Z.to_nat c).
    { pose proof (zlen_gather (x_mem s') (x_dst s :: bs)) as Hz. unfold zlen in Hz. fold c in Hz.
      destruct (bufs_ok_app _ _ Hbufs) as ([Hu _] & _). specialize (Hz Hu). lia. }
    rewrite take_ge in F8 by (unfold zlen in *; lia). rewrite F8, take_app_ge by (rewrite length_take; unfold zlen in *; lia).
    rewrite length_take. replace (Z.to_nat (zlen out) - _)%nat with (Z.to_nat (zlen out - c)) by (unfold zlen in *; lia).
    rewrite <- Hzd, Hg. apply take_drop.
  - intros r' E. eapply runs_steps; [exact Hst|]. apply Hrun.
    specialize (Hfin r'). rewrite zlen_cons. set (es := entries (zlen out - c) ((h1, b1 :: bs2) :: hs)) in *.
    change (x_dev s3) with (set_rx_vq (bump 1 (rx_vq (x_dev s))) (x_dev s')) in Hfin.
    change (x_header s3) with (x_header s') in Hfin. change (x_total s3) with 0 in Hfin.
    rewrite E1, E2, E3, Ed, Eh, rx_set_vq, set_set_rx_vq, bump_bump, <- app_assoc in Hfin.
    replace (1 + zlen es - 1) with (1 + (zlen es - 1)) by lia.
    replace (x_num_merged s + (1 + zlen es) - 1) with (x_num_merged s + 1 + zlen es - 1) by lia.
    replace (x_total_merged s + x_total s + zlen out)
      with (x_total_merged s + x_total s + c + 0 + (zlen out - c)) by lia.
    by apply Hfin.
Qed.
End Port.

(** ** A whole transfer *)

Definition set_num_buffers (n : Z) (h : net_hdr) : net_hdr :=
  {| nh_flags := nh_flags h; nh_gso_type := nh_gso_type h; nh_hdr_len := nh_hdr_len h;
     nh_gso_size := nh_gso_size h; nh_csum_start := nh_csum_start h;
     nh_csum_offset := nh_csum_offset h; nh_num_buffers := n |}.

Lemma hdr_bytes_num n h : hdr_bytes (set_num_buffers n h) = take 10 (hdr_bytes h) ++ le_split 2 n.
Proof. done. Qed.

Lemma zlen_hdr_bytes h : zlen (hdr_bytes h) = sizeof_hdr.
Proof. done. Qed.

Lemma gather_outside bs m m' :
  (forall x, m' x <> m x -> outside bs x) -> gather m' bs = gather m bs.
Proof.
  intros H. unfold gather. induction bs as [|b bs IH]; [done|]. cbn [flat_map]. f_equal.
  - apply mem_rd_ext. intros i Hi. destruct (Z.eq_dec (m' (pos b + i)) (m (pos b + i))) as [|Hne]; [done|].
    apply H, Forall_cons_iff in Hne as [Hne _]. lia.
  - apply IH. intros x Hx. by apply H, Forall_cons_iff in Hx as [_ Hx].
Qed.

Lemma gather_used m b bs n :
  in_u 32 (left b) -> 0 <= n <= left b ->
  gather m (b :: bs) = mem_rd m (pos b) n ++ gather m (advance n b :: bs).
Proof.
  intros Hu Hn. unfold gather. cbn [flat_map]. rewrite (mem_rd_split m (pos b) (left b) n) by done.
  rewrite advance_left by done. by rewrite <- app_assoc.
Qed.

(** The header is completed last. *)
Lemma header_completed b bs hb n m m1 m' :
  bufs_ok (b :: bs) -> sizeof_hdr <= left b -> zlen hb = sizeof_hdr ->
  (forall x, m1 x = mem_wr (pos b) hb m x) -> only_in (advance sizeof_hdr b :: bs) m1 m' ->
  let mf := mem_wr (pos b + 10) (le_split 2 n) m' in
  gather mf (b :: bs) = (take 10 hb ++ le_split 2 n) ++ gather m' (advance sizeof_hdr b :: bs) /\
  only_in (b :: bs) m mf.
Proof.
  intros Hok Hb Hz H1 H2 mf. pose proof (used_before b bs sizeof_hdr Hok ltac:(unfold sizeof_hdr in *; lia)) as Hbef.
  assert (Hu : in_u 32 (left b)) by (destruct Hok as [Hu _]; by apply Forall_cons_iff in Hu as [Hu _]).
  assert (Hmf : forall x, x < pos b + 10 \/ pos b + 12 <= x -> mf x = m' x)
    by (intros x Hx; apply mem_wr_outside; change (zlen (le_split 2 n)) with 2; lia).
  unfold sizeof_hdr in *. split.
  - rewrite (gather_used mf b bs 12) by (done || lia). f_equal.
    + rewrite (mem_rd_split mf (pos b) 12 10) by lia. f_equal.
      * transitivity (take (Z.to_nat 10) (mem_rd (mem_wr (pos b) hb m) (pos b) (zlen hb))).
        -- rewrite Hz, mem_rd_take by lia. apply mem_rd_ext. intros i Hi. rewrite Hmf by lia.
           rewrite <- H1. apply H2, Hbef. lia.
        -- by rewrite mem_rd_wr_same.
      * apply (mem_rd_wr_same (pos b + 10) (le_split 2 n)).
    + apply gather_outside. intros x Hx. apply Hbef.
      destruct (Z.lt_ge_cases x (pos b + 10)); [by rewrite Hmf in Hx by lia|].
      destruct (Z.lt_ge_cases x (pos b + 12)); [lia|by rewrite Hmf in Hx by lia].
  - intros x Hx. pose proof Hx as [Hxb _]%Forall_cons_iff. rewrite Hmf by lia.
    eapply (used_only_in b bs 12 Hok); [lia|exact Hz|exact H1|exact H2|done].
Qed.

Lemma consumed_range_ok es q r k :
  0 <= k -> idx_mask q = 2 ^ k - 1 -> zlen (used_ring r) = 2 ^ k ->
  exists r', consumed_range es q r = Ret r'.
Proof.
  intros Hk Hm Hl. unfold consumed_range. rewrite Hm.
  assert (H : forall added u, zlen u = 2 ^ k ->
            exists x, consumed_loop es (used_idx r) added (2 ^ k - 1) u = Ret x).
  { induction es as [|[h n] es IH]; intros added u Hu; [by eexists|]. cbn [consumed_loop].
    rewrite land_mask by done. pose proof (Z.mod_pos_bound (used_idx r + added) (2 ^ k) ltac:(lia)).
    rewrite store_ok by lia. cbn [mbind run_bind]. apply IH. by rewrite zlen_insert. }
  destruct (H 0 (used_ring r) Hl) as [[a u] ->]. by eexists.
Qed.

Section Delivery.
Context {T : Type} `{!Net_transfer T, !Net_transfer_laws T}.

(** The driver of the receiving port offers the chain of [h] with the buffers [b ::
    bs] and after it the chains [hs]; memory is one of [M] whatever is written to
    these buffers. *)
Record receiver (M : memory -> Prop) (d : net_dev) (r : vring) (h : Z) (b : buffer)
    (bs : list buffer) (hs : list (Z * list buffer)) : Prop := {
  rc_mem m m' : M m -> only_in (b :: bs ++ bufs hs) m m' -> M m';
  rc_ready : ready (rx_vq d) = true;
  rc_current : in_u 16 (current_avail (rx_vq d));
  rc_size : exists k, 0 <= k /\ idx_mask (rx_vq d) = 2 ^ k - 1 /\ zlen (used_ring r) = 2 ^ k;
  rc_offers : offers M (dv_mem d) r (rx_vq d) ((h, b :: bs) :: hs);
  rc_bufs : bufs_ok (b :: bs ++ bufs hs);
  rc_number : zlen hs < 2 ^ 16 - 1;
  rc_first : sizeof_hdr <= left b /\ pos b <> 0;
}.

Lemma first_filling M d r h b bs hs p src (t : T) m pkt k :
  receiver M d r h b bs hs -> M m -> feed M t pkt k -> 16 < zlen pkt -> in_u 16 (p_vlan_id src) ->
  12 + zlen (sent p src pkt) < 2 ^ 31 ->
  let area := b :: bs ++ bufs hs in
  exists t' k' rp,
    let s1 := on_first (set_src t' (xfer_start p src t d m)) (bump 1 (rx_vq d)) h rp b in
    (forall o, runs r s1 o -> runs r (xfer_start p src t d m) o) /\
    filling M (dv_mem d) area h rp pkt k' bs s1 /\
    in_transfer M (dv_mem d) area r hs (x_dst s1 :: bs) (zlen (sent p src pkt)) s1 /\
    (forall m' x, copy_header t' m' x = copy_header t m' x).
Proof.
  intros [R1 R2 R3 R4 R5 R6 R7 [R8 R9]] HM Hf Hp Hs Hn area.
  destruct (create_vlan_mangle_ok p src pkt Hs Hp) as (Hg & Hl & _).
  destruct (feed_done M t pkt k m Hf HM) as [[-> _]|(t' & k' & Et & Hf' & Hlt & _)].
  { change (zlen (@nil Z)) with 0 in Hp. lia. }
  inversion R5 as [|q q' h' rp b' bs' hs' Hnx Hst Hch Hof]; subst.
  apply next_avail_bump in Hnx as Eq. subst q'. exists t', k', rp. intros s1.
  assert (Hadv : bufs_ok (advance sizeof_hdr b :: bs ++ bufs hs))
    by (apply used_ok; [done|unfold sizeof_hdr in *; lia]).
  pose proof (bufs_ok_app (advance sizeof_hdr b :: bs) (bufs hs) Hadv) as (Hok & _).
  assert (Hout : forall x, outside area x -> outside (advance sizeof_hdr b :: bs ++ bufs hs) x).
  { intros x Hx. apply used_outside; [done|unfold sizeof_hdr in *; lia|done]. }
  split; [|split; [|split]].
  - intros o Hrun. eapply runs_same; [|exact Hrun]. transitivity (vio_step r (set_src t' (xfer_start p src t d m))).
    + unfold vio_step. cbn [x_src xfer_start x_mem set_src]. rewrite Et, tr_done_more by lia. done.
    + apply step_first_chain; try done; [cbn; lia|]. by apply Hst.
  - split; try done.
    + apply (R1 m); [done|]. intros x [Hx _]%Forall_cons_iff. apply mem_wr_outside.
      rewrite zlen_hdr_bytes. lia.
    + intros x Hx. specialize (Hout x Hx). by apply (Forall_app _ (_ :: _)) in Hout as [Hout _].
  - split; try done.
    + by apply uwrap_range.
    + intros x Hx. specialize (Hout x Hx). by apply (Forall_app _ (_ :: _)) in Hout as [_ Hout].
    + change (x_num_merged s1) with 1. pose proof (zlen_nonneg hs). lia.
  - intros m' x. by apply (tr_done_header t t' m false).
Qed.

End Delivery.

(** ** Transfers that fail *)

Section Failure.
Context {T : Type} `{!Net_transfer T, !Net_transfer_laws T}.

(** Without merged receive buffers a packet that is too long for the first
    chain is dropped: nothing enters the used ring, and the chain is put back with
    [rewind_avail]. *)
Theorem virtio_port_drops (M : memory -> Prop) d r h b bs hs p src (t : T) m pkt k :
  receiver M d r h b bs hs -> M m -> feed M t pkt k -> 16 < zlen pkt -> in_u 16 (p_vlan_id src) ->
  let n := sizeof_hdr + zlen (sent p src pkt) in
  n < 2 ^ 31 -> room (b :: bs) < n -> mrg_rxbuf d = false ->
  exists m' fuel0, only_in (b :: bs ++ bufs hs) m m' /\
    forall fuel, (fuel0 <= fuel)%nat ->
      vio_handle_request fuel p src t d r m =
        Ret (set_rx_vq (rewind_avail h (bump 1 (rx_vq d))) d, r, m', inr Dropped).
Proof.
  intros Hrc HM Hf Hp Hs n Hn Hroom Hmrg.
  destruct (first_filling M d r h b bs hs p src t m pkt k Hrc HM Hf Hp Hs Hn) as (t' & k' & rp & Hs1).
  cbv zeta in Hs1. set (s1 := on_first _ _ _ _ _) in Hs1. destruct Hs1 as (Hrun & F & I & Hcp).
  pose proof Hrc as [R1 _ _ _ _ R6 _ [R8 _]].
  assert (Hn12 : 0 <= sizeof_hdr <= left b) by (unfold sizeof_hdr in *; lia).
  pose proof (used_room b bs sizeof_hdr (proj1 (bufs_ok_app (b :: bs) (bufs hs) R6)) Hn12) as Hru.
  destruct (chain_fill M (dv_mem d) (b :: bs ++ bufs hs) r R1 _ s1 h rp pkt k' bs F (Nat.le_refl _))
    as (s' & Hst & [F1 F2 F3 F4 F5 F6 F7 F8 (rp' & F9 & F9') (p' & k1 & Hf' & Hg & Hl & Ho)]).
  change (x_dst s1 :: bs) with (advance sizeof_hdr b :: bs) in *.
  change (mangle_out (x_mangle s1) pkt) with (sent p src pkt) in *.
  assert (Hfull : room (advance sizeof_hdr b :: bs) < zlen (sent p src pkt)) by lia.
  destruct (F9' Hfull) as [Hd0 Hend]. inversion Hend as [? Hnx|]; subst.
  assert (HM1 : M (x_mem s1)) by apply F.
  assert (HM' : M (x_mem s')) by (apply (R1 (x_mem s1)); [done|]; eapply only_in_mono; [apply F|done]).
  destruct (feed_more M (x_mangle s') (x_src s') p' k1 (x_mem s') Hg Hl) as (t2 & k2 & Et & _); [|done..|].
  { rewrite Ho. intros E. apply (f_equal zlen) in E.
    pose proof (room_nonneg _ (proj1 (fi_bufs _ _ _ _ _ _ _ _ _ F))) as Hr0.
    change (x_dst s1 :: bs) with (advance sizeof_hdr b :: bs) in Hr0.
    rewrite zlen_drop in E by lia. change (zlen (@nil Z)) with 0 in E. lia. }
  assert (Hr : runs r (xfer_start p src t d m) (rx_rewind h (x_dev s'), r, x_mem s', inr Dropped)).
  { apply Hrun. eapply runs_steps; [exact Hst|]. apply runs_end.
    rewrite (step_full r s' h rp' t2); [|done..|by rewrite F1; apply Hnx].
    rewrite F1. by change (mrg_rxbuf (x_dev s1)) with (mrg_rxbuf d); rewrite Hmrg. }
  destruct Hr as [fuel0 Hr]. exists (x_mem s'), fuel0. split.
  - apply (used_only_in b (bs ++ bufs hs) sizeof_hdr R6 Hn12
             (hdr_bytes (rewrite_hdr (create_vlan_mangle p src) (copy_header t m (hdr_at m (pos b)))))
             m (x_mem s1)).
    + done.
    + intros x. cbn. by rewrite Hcp.
    + by apply (only_in_app_l (_ :: _)).
  - intros fuel Hfuel. unfold vio_handle_request. rewrite (Hr fuel Hfuel), F1. done.
Qed.
End Failure.

(** *** A chain that is its own successor *)

(** An empty buffer followed by the same descriptor. *)
Definition cyclic (t : vnet_transfer) : Prop :=
  left (vt_buf t) = 0 /\
  exists b, left b = 0 /\ forall m, rp_next (vt_mem t) (vt_rp t) m = Ret (inr (Some (vt_rp t, b))).

Lemma cyclic_done t m :
  cyclic t -> exists t', virtio_done t m = Ret (inr (t', false)) /\ cyclic t'.
Proof.
  intros (E & b & Hb & Hn). eexists. split.
  - unfold virtio_done, buf_done. rewrite E. cbn. by rewrite Hn.
  - split; [done|]. by exists b.
Qed.

(** A round on an empty source buffer copies nothing. *)
Lemma cyclic_copy g dst t m :
  m_tci g = 0 -> cyclic t -> in_u 32 (left dst) ->
  exists src m', copy_pkt g dst (vt_buf t) m = (g, dst, src, m', 0) /\ cyclic (set_cur_buf src t).
Proof.
  intros Hg (E & b & Hb & Hn) Hd. unfold copy_pkt, copy_to. rewrite Hg, E. cbn [Z.eqb].
  unfold in_u in Hd. replace (Z.min (Z.min 0 (left dst)) UINT_MAX) with 0 by (unfold UINT_MAX; lia).
  rewrite (advance_0 dst) by done. eexists _, _. split; [done|]. split; [cbn; by rewrite E|]. by exists b.
Qed.

(** A driver can stop the switch: when a packet it sends reaches an empty
    descriptor that names itself as its successor, neither the copy to a virtio
    port nor the one to the network card ever ends. *)
Theorem cyclic_chain_hangs (t : vnet_transfer) m g dst :
  cyclic t -> m_tci g = 0 -> in_u 32 (left dst) -> 0 < left dst ->
  (forall fuel, ixl_loop fuel g dst t m = Fuel_out) /\
  (forall fuel r d h rp hdr total num merged cs,
     vio_loop fuel r {| x_dev := d; x_mem := m; x_mangle := g; x_src := t; x_dst := dst;
                        x_head := Some (h, rp); x_header := hdr; x_total := total;
                        x_num_merged := num; x_total_merged := merged; x_consumed := cs |} = Fuel_out).
Proof.
  intros Hc Hg Hu Hd. split.
  - intros fuel. revert t m Hc. induction fuel as [|f IH]; intros t m Hc; [done|]. cbn.
    destruct (cyclic_done t m Hc) as (t' & E & Hc'). rewrite E. cbn.
    unfold buf_done. replace (left dst =? 0) with false by lia.
    destruct (cyclic_copy g dst t' m Hg Hc' Hu) as (src & m' & -> & Hc''). by apply IH.
  - intros fuel r d h rp hdr total num merged cs. revert t m total Hc.
    induction fuel as [|f IH]; intros t m total Hc; [done|]. cbn [vio_loop].
    destruct (cyclic_done t m Hc) as (t' & E & Hc'). unfold vio_step. cbn. rewrite E. cbn.
    unfold copy_round, buf_done. cbn. replace (left dst =? 0) with false by lia. cbn.
    destruct (cyclic_copy g dst t' m Hg Hc' Hu) as (src & m' & -> & Hc''). cbn. by apply IH.
Qed.

Module Delivery_example.
Import Mem_example Walk_example Net_example Port_example.
#[local] Existing Instances round64 env env_laws.

(** A running port with merged receive buffers, two chains of one buffer each. *)
Definition dev : net_dev := status 15 set_up.

Definition rx_descs (n : Z) : list desc :=
  [{| d_addr := 0x40000100; d_len := n; d_flags := 2; d_next := 0 |};
   {| d_addr := 0x40000200; d_len := 64; d_flags := 2; d_next := 0 |};
   Queue_example.d0; Queue_example.d0].

Definition rx_ring (n : Z) : vring :=
  {| vr_desc := rx_descs n; avail_flags := 0; avail_idx := 2; avail_ring := [0; 1; 0; 0];
     used_flags := 0; used_idx := 0; used_ring := replicate 4 (0, 0) |}.

Definition buf0 (n : Z) : buffer := {| pos := 0x10200100; left := n |}.
Definition buf1 : buffer := {| pos := 0x10200200; left := 64 |}.

Definition mems (n : Z) (m : memory) : Prop := only_in [buf0 n; buf1] mem20 m.

Lemma rx_receiver (d : net_dev) n :
  dv_mem d = two -> rx_vq d = rx_vq dev -> 12 <= n <= 64 ->
  receiver (mems n) d (rx_ring n) 0 (buf0 n) [] [(1, [buf1])].
Proof.
  intros Hm Hq Hn. split; rewrite ?Hm, ?Hq.
  - intros m m' H1 H2. eapply only_in_trans; [exact H1|exact H2].
  - vm_compute. reflexivity.
  - vm_compute. split; [discriminate|reflexivity].
  - exists 2. split; [lia|]. split; vm_compute; reflexivity.
  - assert (Hf : find_from 0 0x40000100 n (live two) =
                 Some (0, default no_region (live two !! 0%nat))).
    { let v := eval vm_compute in (live two) in change (live two) with v.
      cbn [find_from]. unfold contains. cbn - [Z.ltb uwrap Z.sub].
      change (1073742080 <? 1073741824) with false. change (1073741824 + 2097152 -[64] 1 <? 1073742080) with false.
      cbv iota. replace (2097152 <? n) with false by lia.
      rewrite (uwrap_small 64 (2097152 - n)) by (unfold in_u; lia).
      change (1073742080 -[64] 1073741824) with 256. by replace (2097152 - n <? 256) with false by lia. }
    set (d0 := {| d_addr := 0x40000100; d_len := n; d_flags := 2; d_next := 0 |}).
    set (rp := {| rp_table := Ring_table (rx_descs n); rp_current := d0; rp_num := 4 |}).
    apply (offers_chain _ _ _ _ (bump 1 (rx_vq dev)) 0 rp).
    + reflexivity.
    + intros m _. transitivity (b <-? rethrow (load_desc_buf d0 two); Ret (inr (rp, b))); [reflexivity|].
      unfold load_desc_buf, ml_find. cbn [d_addr d_len d0]. rewrite Hf. reflexivity.
    + apply chain_end. reflexivity.
    + apply (offers_chain _ _ _ _ (bump 2 (rx_vq dev)) 1
               {| rp_table := Ring_table (rx_descs n);
                  rp_current := {| d_addr := 0x40000200; d_len := 64; d_flags := 2; d_next := 0 |}; rp_num := 4 |}).
      * reflexivity.
      * reflexivity.
      * apply chain_end. reflexivity.
      * apply offers_none. reflexivity.
  - change (bufs_ok [buf0 n; buf1]). split.
    + apply Forall_cons_2; [cbn; unfold in_u; lia|]. apply Forall_cons_2; [cbn; unfold in_u; lia|constructor].
    + split; [|split; [constructor|exact I]]. apply Forall_cons_2; [|constructor]. cbn. unfold disj. lia.
  - vm_compute. reflexivity.
  - cbn. unfold sizeof_hdr. split; [lia|done].
Qed.

Definition card : ixl_transfer := {| it_buf := {| pos := 100; left := 20 |} |}.

Lemma card_feed n : 12 <= n <= 64 -> feed (mems n) card frame20 0.
Proof.
  intros Hn. apply (ixl_feed _ {| pos := 100; left := 20 |}); [by_eval..|]. intros m H. cbn [pos left].
  transitivity (mem_rd mem20 100 20); [|vm_compute; reflexivity].
  apply mem_rd_ext. intros i Hi. apply H. repeat (constructor; [cbn; lia|]). constructor.
Qed.


(** The same device without merged receive buffers. *)
Definition dev_plain : net_dev :=
  on_priv (fun n => {| net_rx := net_rx n; net_tx := net_tx n; net_vq_max := net_vq_max n;
                       net_features := 0x10000000; net_irqs := net_irqs n |}) dev.

Lemma virtio_port_drops_witness :
  exists m' fuel0, forall fuel, (fuel0 <= fuel)%nat ->
    vio_handle_request fuel trunk57 access5 card dev_plain (rx_ring 20) mem20
    = Ret (dev_plain, rx_ring 20, m', inr Dropped).
Proof.
  destruct (virtio_port_drops (mems 20) dev_plain (rx_ring 20) 0 (buf0 20) [] [(1, [buf1])] trunk57 access5
              card mem20 frame20 0) as (m' & fuel0 & _ & H).
  - apply rx_receiver; [reflexivity..|lia].
  - apply only_in_refl.
  - apply card_feed. lia.
  - by_eval.
  - by_eval.
  - vm_compute. reflexivity.
  - vm_compute. reflexivity.
  - vm_compute. reflexivity.
  - exists m', fuel0. intros fuel Hf. rewrite (H fuel Hf). vm_compute. reflexivity.
Defined.

Lemma cyclic_chain_hangs_witness :
  let t := {| vt_buf := {| pos := 0x10200000; left := 0 |}; vt_rp := rp_loop; vt_mem := two; vt_header := 1 |} in
  forall fuel, ixl_loop fuel mangle_none {| pos := 4096; left := 1500 |} t no_mem = Fuel_out.
Proof.
  intros t. apply (cyclic_chain_hangs t no_mem mangle_none {| pos := 4096; left := 1500 |}).
  - split; [reflexivity|]. exists {| pos := 0x10200000; left := 0 |}. split; [reflexivity|].
    intros m. apply self_loop.
  - reflexivity.
  - by_eval.
  - reflexivity.
Defined.

(** The packet of the sender: 12 bytes of header and 20 of data, then an empty
    descriptor. *)
Definition tx_descs : list desc :=
  [{| d_addr := 0x40001000; d_len := 32; d_flags := 1; d_next := 1 |};
   {| d_addr := 0x40001100; d_len := 0; d_flags := 0; d_next := 0 |};
   Queue_example.d0; Queue_example.d0].

Definition tx_transfer : vnet_transfer :=
  match virtio_request two tx_descs 4 0 no_mem with
  | Ret (inr q) => virtio_transfer two q
  | _ => {| vt_buf := {| pos := 0; left := 0 |}; vt_rp := rp_loop; vt_mem := two; vt_header := 0 |}
  end.

(** When the data just fills the first chain, the empty descriptor makes the loop
    give the chain up; the packet then ends without a chain and the assertion on
    [dst_head] fails. *)
Example null_head_asserts :
  vio_handle_request 10 access5 access5 tx_transfer dev (rx_ring 32) no_mem = Asserted.
Proof. vm_compute. reflexivity. Qed.

(** A first buffer of less than twelve bytes throws an exception that is not a
    [Bad_descriptor]. *)
Example small_buffer_raises :
  vio_handle_request 10 access5 access5 tx_transfer dev (rx_ring 8) no_mem = Raised.
Proof. vm_compute. reflexivity. Qed.

(** The rights of a region are not looked at: a receive buffer in memory that is
    mapped read-only is written to. *)
Example read_only_buffer :
  let r := {| vr_desc := [{| d_addr := 0x80000000; d_len := 64; d_flags := 2; d_next := 0 |};
                          Queue_example.d0; Queue_example.d0; Queue_example.d0];
              avail_flags := 0; avail_idx := 1; avail_ring := [0; 0; 0; 0];
              used_flags := 0; used_idx := 0; used_ring := replicate 4 (0, 0) |} in
  (exists k x, ml_find 0x80000000 64 two = Some (k, x) /\ r_rw x = false) /\
  match vio_handle_request 10 access5 access5 tx_transfer dev r no_mem with
  | Ret (_, r', _, o) => o = inr (Delivered 32) /\ take 1 (used_ring r') = [(0, 32)]
  | _ => False
  end.
Proof. vm_compute. split; [by eexists _, _|done]. Qed.
End Delivery_example.
