(* ===== verification/Switch.v ===== *)
(** * The network switch

    [pkg/virtio-net-switch/server/switch]: [switch.h] and [switch.cc]
    ([Virtio_switch]), [filter.h] and [filter.cc], and [create_port] of [main.cc].
    What the switch needs from its ports is the interface [Switch_env]; ports are
    known by their address, 0 is the null pointer.  [SwitchWorld] implements the
    interface with virtio ports. *)

From S2P Require Import Prelude L4Round DriverMem Virtqueue RequestProc VirtioDev VirtioNet.
From S2P Require Import MacTable Vlan NetRequest SwitchPort.

(** ** The ports, as the switch sees them *)

Class Switch_env (W Req : Type) := {
  settings : Z -> W -> port;
  is_gone : Z -> W -> bool;
  delete_port : Z -> W -> W;
  packet_mem : W -> memory;
  req_packet : Req -> buffer;
  (** [dst->handle_request(src, req.transfer_src())] *)
  send_to : Z -> Z -> Req -> W -> run (W * (bad + result));
  get_tx_request : Z -> W -> run (W * (bad + option Req));
  (** the destructor of a request of a port *)
  end_request : Z -> Req -> W -> run W;
  (** the card's port fetches received frames to answer *)
  tx_work_pending : Z -> W -> W * bool;
  (** [disable_notify] and [enable_notify] on both queues *)
  queues_notify : bool -> Z -> W -> W;
  (** [rx_notify_emit_and_enable], [rx_notify_disable_and_remember] *)
  rx_notify : bool -> Z -> W -> W;
  port_error : Z -> W -> W;
  reschedule_pending_tx : Z -> W -> W;
}.

(** Handling packets never changes how a port is configured. *)
Class Switch_env_laws (W Req : Type) `{!Switch_env W Req} := {
  send_keeps dst src q w w' o p : send_to dst src q w = Ret (w', o) -> settings p w' = settings p w;
  get_keeps a w w' o p : get_tx_request a w = Ret (w', o) -> settings p w' = settings p w;
  end_keeps a q w w' p : end_request a q w = Ret w' -> settings p w' = settings p w;
  pending_keeps a w p : settings p (fst (tx_work_pending a w)) = settings p w;
  queues_keeps b a w p : settings p (queues_notify b a w) = settings p w;
  rx_keeps b a w p : settings p (rx_notify b a w) = settings p w;
  error_keeps a w p : settings p (port_error a w) = settings p w;
  reschedule_keeps a w p : settings p (reschedule_pending_tx a w) = settings p w;
  delete_keeps a w p : p <> a -> settings p (delete_port a w) = settings p w;
}.

(** ** State *)

(** [Port_statistics]. *)
Record stats := {
  tx_num : Z; tx_dropped : Z; tx_bytes : Z; rx_num : Z; rx_dropped : Z; rx_bytes : Z;
}.

Definition no_stats : stats :=
  {| tx_num := 0; tx_dropped := 0; tx_bytes := 0; rx_num := 0; rx_dropped := 0; rx_bytes := 0 |}.

Definition stat_tx (bytes : Z) (s : stats) : stats :=
  {| tx_num := tx_num s +[64] 1; tx_dropped := tx_dropped s; tx_bytes := tx_bytes s +[64] bytes;
     rx_num := rx_num s; rx_dropped := rx_dropped s; rx_bytes := rx_bytes s |}.

Definition stat_rx (bytes : Z) (s : stats) : stats :=
  {| tx_num := tx_num s; tx_dropped := tx_dropped s; tx_bytes := tx_bytes s;
     rx_num := rx_num s +[64] 1; rx_dropped := rx_dropped s; rx_bytes := rx_bytes s +[64] bytes |}.

Definition stat_drop (s : stats) : stats :=
  {| tx_num := tx_num s; tx_dropped := tx_dropped s +[64] 1; tx_bytes := tx_bytes s;
     rx_num := rx_num s; rx_dropped := rx_dropped s; rx_bytes := rx_bytes s |}.

(** [Virtio_switch], with the statistics of its ports. *)
Record switch := {
  sw_ports : list Z;
  sw_monitor : Z;
  sw_max_ports : Z;
  sw_mac : mac_table;
  sw_stats : gmap Z stats;
}.

Definition Tx_burst : Z := 128.

Definition switch_new (max_ports : Z) (table_size : nat) : switch :=
  {| sw_ports := []; sw_monitor := 0; sw_max_ports := max_ports; sw_mac := mt_new table_size;
     sw_stats := ∅ |}.

Definition set_ports (l : list Z) (s : switch) : switch :=
  {| sw_ports := l; sw_monitor := sw_monitor s; sw_max_ports := sw_max_ports s; sw_mac := sw_mac s;
     sw_stats := sw_stats s |}.

Definition set_monitor_port (p : Z) (s : switch) : switch :=
  {| sw_ports := sw_ports s; sw_monitor := p; sw_max_ports := sw_max_ports s; sw_mac := sw_mac s;
     sw_stats := sw_stats s |}.

Definition set_mac (t : mac_table) (s : switch) : switch :=
  {| sw_ports := sw_ports s; sw_monitor := sw_monitor s; sw_max_ports := sw_max_ports s; sw_mac := t;
     sw_stats := sw_stats s |}.

Definition count (p : Z) (f : stats -> stats) (s : switch) : switch :=
  {| sw_ports := sw_ports s; sw_monitor := sw_monitor s; sw_max_ports := sw_max_ports s;
     sw_mac := sw_mac s; sw_stats := <[p := f (default no_stats (sw_stats s !! p))]> (sw_stats s) |}.

(** ** The monitor's filter *)

(** [filter.cc]: only ARP packets pass; packets too short to tell do, too. *)
Definition filter_arp (pkt : buffer) (m : memory) : bool :=
  if left pkt <=? 13 then false
  else negb (Z.lor (Z.shiftl (m (pos pkt + 12)) 8) (m (pos pkt + 13)) =? 0x0806).

(** [filter_request]; [port_filter] tells whether the example filter is compiled in. *)
Definition filter_request (port_filter : bool) (pkt : buffer) (m : memory) : bool :=
  if port_filter then filter_arp pkt m else false.

(** ** Ports come and go *)

Section Switch.
Context {W Req : Type} `{!Switch_env W Req}.
Context (port_filter : bool).

Definition port_mac (p : Z) (w : W) : Z := p_mac (settings p w).

Definition add_port (p : Z) (w : W) (s : switch) : switch * bool :=
  if zlen (sw_ports s) =? sw_max_ports s then (s, false)
  else if negb (is_unknown (port_mac p w)) &&
          existsb (fun q => port_mac q w =? port_mac p w) (sw_ports s) then (s, false)
  else (set_ports (sw_ports s ++ [p]) s, true).

Definition add_monitor_port (p : Z) (s : switch) : switch * bool :=
  if sw_monitor s =? 0 then (set_monitor_port p s, true) else (s, false).

Definition port_available (monitor : bool) (s : switch) : bool :=
  if monitor then sw_monitor s =? 0 else zlen (sw_ports s) <? sw_max_ports s.

(** The loop of [check_ports] over the ports [todo]; [kept] are those before the
    iterator. *)
Fixpoint check_loop (kept todo : list Z) (s : switch) (w : W) : run (switch * W) :=
  match todo with
  | [] => mret (set_ports kept s, w)
  | p :: todo =>
      if is_gone p w then
        let t := mt_flush p (sw_mac s) in
        if flush_asserts p t then check_loop kept todo (set_mac t s) (delete_port p w)
        else Asserted
      else check_loop (kept ++ [p]) todo s w
  end.

Definition check_ports (s : switch) (w : W) : run (switch * W) :=
  '(s, w) ← check_loop [] (sw_ports s) s w;
  if negb (sw_monitor s =? 0) && is_gone (sw_monitor s) w
  then mret (set_monitor_port 0 s, delete_port (sw_monitor s) w)
  else mret (s, w).

(** ** Switching a packet *)

(** State and exceptions. *)
Definition act (A : Type) : Type := switch -> W -> run (switch * W * (bad + A)).

Definition act_ret {A} (a : A) : act A := fun s w => mret (s, w, inr a).

Definition act_bind {A B} (m : act A) (f : A -> act B) : act B := fun s w =>
  '(s, w, o) ← m s w;
  match o with inl e => mret (s, w, inl e) | inr a => f a s w end.

Definition act_world (f : W -> W) : act unit := fun s w => mret (s, f w, inr tt).
Definition act_switch (f : switch -> switch) : act unit := fun s w => mret (f s, w, inr tt).

Notation "m ;; f" := (act_bind m (fun _ => f)) (at level 100, right associativity).

(** The lambda [handle_request] of [handle_tx_request]. *)
Definition hand_over (dst src : Z) (q : Req) : act unit := fun s w =>
  '(w, o) ← send_to dst src q w;
  match o with
  | inl e => mret (s, w, inl e)
  | inr (Delivered n) => mret (count src (stat_rx n) (count dst (stat_tx n) s), w, inr tt)
  | inr _ => mret (count dst stat_drop s, w, inr tt)
  end.

Definition to_monitor (src : Z) (q : Req) : act unit := fun s w =>
  if negb (sw_monitor s =? 0) && negb (filter_request port_filter (req_packet q) (packet_mem w))
  then hand_over (sw_monitor s) src q s w
  else mret (s, w, inr tt).

(** The loop over all ports. *)
Fixpoint flood (targets : list Z) (src vlan : Z) (q : Req) : act unit :=
  match targets with
  | [] => act_ret tt
  | t :: targets =>
      (fun s w =>
         if negb (t =? src) && match_vlan vlan (settings t w) then hand_over t src q s w
         else mret (s, w, inr tt)) ;;
      flood targets src vlan q
  end.

(** Which packets a port may not send. *)
Definition refused (p : port) (pkt : buffer) (m : memory) : bool :=
  (is_trunk p && negb (match_vlan (req_vlan_id pkt m) p)) || (is_access p && has_vlan pkt m).

Definition packet_vlan (p : port) (pkt : buffer) (m : memory) : Z :=
  if has_vlan pkt m then req_vlan_id pkt m else p_vlan_id p.

Definition handle_tx_request (src : Z) (q : Req) : act unit := fun s w =>
  let p := settings src w in
  let pkt := req_packet q in
  let m := packet_mem w in
  if refused p pkt m then mret (count src stat_drop s, w, inr tt)
  else
    let dst := dst_mac pkt m in
    let vlan := packet_vlan p pkt m in
    let s := set_mac (mt_learn (src_mac pkt m) src vlan (sw_mac s)) s in
    let target := if is_broadcast dst then 0 else mt_lookup dst vlan (sw_mac s) in
    if negb (target =? 0) then
      if negb (target =? src) then (hand_over target src q ;; to_monitor src q) s w
      else mret (s, w, inr tt)
    else (flood (sw_ports s) src vlan q ;; to_monitor src q) s w.

(** The loop of [handle_tx_requests], which counts the requests; an exception
    destroys the request as well. *)
Fixpoint tx_requests_loop (fuel : nat) (p num : Z) : act Z := fun s w =>
  match fuel with
  | O => Fuel_out
  | S f =>
      '(w, o) ← get_tx_request p w;
      match o with
      | inl e => mret (s, w, inl e)
      | inr None => mret (s, w, inr num)
      | inr (Some q) =>
          '(s, w, o) ← handle_tx_request p q s w;
          w ← end_request p q w;
          match o with
          | inl e => mret (s, w, inl e)
          | inr _ =>
              let num := num +[32] 1 in
              if Tx_burst <=? num then mret (s, w, inr num) else tx_requests_loop f p num s w
          end
      end
  end.

(** Every round of the loop counts up to [Tx_burst]. *)
Definition handle_tx_requests (p num : Z) : act Z := tx_requests_loop (Z.to_nat (Tx_burst - num)) p num.

Definition all_rx_notify (on : bool) : act unit := fun s w =>
  mret (s, foldl (fun w p => rx_notify on p w) w (sw_ports s), inr tt).

(** The loop of [handle_l4virtio_port_tx]; [num]: [num_reqs_handled]. *)
Fixpoint port_tx_loop (fuel : nat) (p num : Z) (s : switch) (w : W) : run (switch * W * bool) :=
  match fuel with
  | O => Fuel_out
  | S f =>
      let w := queues_notify false p w in
      if Tx_burst <=? num then mret (s, reschedule_pending_tx p w, false)
      else
        '(s, w, o) ← (all_rx_notify false ;; handle_tx_requests p num) s w;
        match o with
        | inl _ =>
            '(s, w, _) ← all_rx_notify true s (port_error p w);
            mret (s, w, false)
        | inr num =>
            '(s, w, _) ← all_rx_notify true s w;
            let w := queues_notify true p w in
            let '(w, more) := tx_work_pending p w in
            if more : bool then port_tx_loop f p num s w else mret (s, w, true)
        end
  end.

Definition handle_l4virtio_port_tx (fuel : nat) (p : Z) : switch -> W -> run (switch * W * bool) :=
  port_tx_loop fuel p 0.

Definition handle_ixl_port_tx (p : Z) (s : switch) (w : W) : run (switch * W * (bad + bool)) :=
  '(s, w, o) ← (all_rx_notify false ;; handle_tx_requests p 0) s w;
  match o with
  | inl e => mret (s, w, inl e)
  | inr num =>
      '(s, w, _) ← all_rx_notify true s w;
      if Tx_burst <=? num then
        let '(w, more) := tx_work_pending p w in
        if more : bool then mret (s, reschedule_pending_tx p w, inr false) else mret (s, w, inr true)
      else mret (s, w, inr true)
  end.

(** ** Where a packet goes *)

Context `{!Switch_env_laws W Req}.

(** The ports other than the monitor that get the packet, in this order. *)
Definition recipients (src : Z) (q : Req) (s : switch) (w : W) : list Z :=
  let p := settings src w in
  let pkt := req_packet q in
  let m := packet_mem w in
  let vlan := packet_vlan p pkt m in
  let dst := dst_mac pkt m in
  let t := mt_learn (src_mac pkt m) src vlan (sw_mac s) in
  let target := if is_broadcast dst then 0 else mt_lookup dst vlan t in
  if refused p pkt m then []
  else if negb (target =? 0) then (if target =? src then [] else [target])
  else base.filter (fun t => t <> src /\ match_vlan vlan (settings t w) = true) (sw_ports s).

Definition learned (src : Z) (q : Req) (s : switch) (w : W) : switch :=
  let pkt := req_packet q in
  let m := packet_mem w in
  set_mac (mt_learn (src_mac pkt m) src (packet_vlan (settings src w) pkt m) (sw_mac s)) s.

(** Hand a packet to each of the ports. *)
Fixpoint hand_all (l : list Z) (src : Z) (q : Req) : act unit :=
  match l with
  | [] => act_ret tt
  | t :: l => act_bind (hand_over t src q) (fun _ => hand_all l src q)
  end.

(** The switch apart from its statistics. *)
Definition same_switch (s s' : switch) : Prop :=
  sw_ports s' = sw_ports s /\ sw_monitor s' = sw_monitor s /\ sw_max_ports s' = sw_max_ports s /\
  sw_mac s' = sw_mac s.

Definition same_settings (w w' : W) : Prop := forall p, settings p w' = settings p w.

Lemma hand_over_keeps dst src q s w s' w' o :
  hand_over dst src q s w = Ret (s', w', o) -> same_switch s s' /\ same_settings w w'.
Proof.
  unfold hand_over. intros E. apply run_bind_Ret in E as ([w1 r] & E1 & E).
  assert (Hw : same_settings w w1) by (intros p; by eapply send_keeps).
  destruct r as [e|[n| |]]; injection E as <- <- <-; done.
Qed.

(** The loop of the flood hands the packet to the members of the VLAN. *)
Lemma flood_hands ts src vlan q s w w0 :
  same_settings w0 w ->
  flood ts src vlan q s w =
  hand_all (base.filter (fun t => t <> src /\ match_vlan vlan (settings t w0) = true) ts) src q s w.
Proof.
  revert s w. induction ts as [|t ts IH]; intros s w Hw; [done|]. cbn [flood]. unfold act_bind.
  rewrite Hw, filter_cons.
  destruct (negb (t =? src) && match_vlan vlan (settings t w0)) eqn:E.
  - apply andb_true_iff in E as [E1 E2]. rewrite decide_True by (split; [lia|done]).
    cbn [hand_all]. unfold act_bind.
    destruct (hand_over t src q s w) as [[[s1 w1] [e|u]]| | | | |] eqn:Eh; cbn; try done.
    apply IH. destruct (hand_over_keeps _ _ _ _ _ _ _ _ Eh) as [_ Hk]. intros p. by rewrite Hk, Hw.
  - rewrite decide_False; [by apply IH|]. intros [E1 E2]. rewrite E2, andb_true_r in E. lia.
Qed.

(** The sender itself is the port the packet is for. *)
Definition back_home (src : Z) (q : Req) (s : switch) (w : W) : bool :=
  let m := packet_mem w in
  let dst := dst_mac (req_packet q) m in
  negb (is_broadcast dst) &&
  (mt_lookup dst (packet_vlan (settings src w) (req_packet q) m) (sw_mac (learned src q s w)) =? src).

(** The whole of [handle_tx_request]. *)
Lemma handle_tx_request_eq src q s w :
  src <> 0 ->
  handle_tx_request src q s w =
    if refused (settings src w) (req_packet q) (packet_mem w)
    then Ret (count src stat_drop s, w, inr tt)
    else act_bind (hand_all (recipients src q s w) src q)
           (fun _ => if back_home src q s w then act_ret tt else to_monitor src q)
           (learned src q s w) w.
Proof.
  intros Hs. unfold handle_tx_request, recipients, back_home, learned.
  destruct (refused _ _ _); [done|]. cbn [sw_mac set_mac sw_ports].
  set (vlan := packet_vlan _ _ _). set (t := mt_learn _ _ _ _). destruct (is_broadcast _).
  - cbn [Z.eqb negb andb]. unfold act_bind. by rewrite (flood_hands _ _ _ _ _ w w) by done.
  - cbn [negb andb]. destruct (Z.eqb_spec (mt_lookup (dst_mac (req_packet q) (packet_mem w)) vlan t) 0) as [E|E]; cbn [negb].
    + rewrite E. replace (0 =? src) with false by lia.
      unfold act_bind. by rewrite (flood_hands _ _ _ _ _ w w) by done.
    + destruct (Z.eqb_spec (mt_lookup (dst_mac (req_packet q) (packet_mem w)) vlan t) src) as [E1|E1]; cbn [negb].
      * done.
      * cbn [hand_all]. unfold act_bind. destruct (hand_over _ _ _ _ _) as [[[s1 w1] [e|u]]| | | | |]; done.
Qed.

(** ** The invariant of the switch *)

(** A port takes part in a VLAN; native ports may use any tag. *)
Definition takes_part (v p : Z) (w : W) : Prop :=
  match_vlan v (settings p w) = true \/ is_native (settings p w) = true.

Record table_inv (cap : nat) (ports : list Z) (t : mac_table) (w : W) : Prop := {
  ti_table : mt_inv cap t;
  ti_port a v p : mt_abs t !! (a, v) = Some p -> p ∈ ports /\ takes_part v p w;
}.

Record sw_inv (cap : nat) (s : switch) (w : W) : Prop := {
  si_ports : NoDup (sw_ports s) /\ 0 ∉ sw_ports s;
  si_monitor : sw_monitor s ∉ sw_ports s;
  si_max : zlen (sw_ports s) <= sw_max_ports s;
  si_table : table_inv cap (sw_ports s) (sw_mac s) w;
  si_mac p q : p ∈ sw_ports s -> q ∈ sw_ports s -> port_mac p w = port_mac q w ->
    p = q \/ is_unknown (port_mac p w) = true;
}.

Lemma packet_vlan_member p pkt m :
  refused p pkt m = false -> match_vlan (packet_vlan p pkt m) p = true \/ is_native p = true.
Proof.
  unfold refused, packet_vlan. intros [H1 H2]%orb_false_iff.
  destruct (is_native p) eqn:En; [by right|left].
  destruct (has_vlan pkt m) eqn:Ev; [|unfold match_vlan; by rewrite Z.eqb_refl].
  unfold is_access in H2. rewrite En in H2. cbn in H2. rewrite andb_true_r in H2.
  apply andb_false_iff in H2 as [H2|H2]; [|done]. apply negb_false_iff in H2. rewrite H2 in H1. cbn in H1.
  by apply negb_false_iff in H1.
Qed.

Lemma table_inv_world cap ports t w w' :
  (forall p, p ∈ ports -> settings p w' = settings p w) -> table_inv cap ports t w -> table_inv cap ports t w'.
Proof.
  intros Hw [H1 H2]. split; [done|]. intros a v p E. destruct (H2 a v p E) as [Hp Ht]. split; [done|].
  unfold takes_part in *. by rewrite Hw.
Qed.

Lemma table_inv_learn cap ports t w src q s :
  src <> 0 -> src ∈ ports -> refused (settings src w) (req_packet q) (packet_mem w) = false ->
  sw_mac s = t -> table_inv cap ports t w -> table_inv cap ports (sw_mac (learned src q s w)) w.
Proof.
  intros H0 Hs Hr <- [H1 H2]. cbn. split; [by apply mt_learn_inv|]. intros a v p E.
  apply (mt_learn_lookup cap) in E as [[[= -> ->] ->]|E]; [|by eapply H2|done].
  split; [done|]. by apply packet_vlan_member.
Qed.

Lemma table_inv_flush cap ports t w p :
  table_inv cap ports t w ->
  mt_inv cap (mt_flush p t) /\
  forall a v x, mt_abs (mt_flush p t) !! (a, v) = Some x -> x <> p /\ x ∈ ports /\ takes_part v x w.
Proof.
  intros [H1 H2]. destruct (mt_flush_abs cap p t H1) as [H3 H4]. split; [done|]. intros a v x E.
  rewrite H4 in E. apply map_lookup_filter_Some in E as [E Hne]. destruct (H2 a v x E). by cbn in Hne.
Qed.

Lemma sw_inv_world cap s w w' :
  (forall p, p ∈ sw_ports s -> settings p w' = settings p w) -> sw_inv cap s w -> sw_inv cap s w'.
Proof.
  intros Hw [H1 Hm H2 H3 H4]. split; [done..| |].
  - by eapply table_inv_world.
  - intros p q Hp Hq. unfold port_mac. rewrite !Hw by done. by apply H4.
Qed.

Lemma sw_inv_same cap s s' w w' :
  same_switch s s' -> same_settings w w' -> sw_inv cap s w -> sw_inv cap s' w'.
Proof.
  intros (E1 & E2 & E3 & E4) Hw H. apply (sw_inv_world cap s w w') in H; [|by intros].
  destruct H as [H1 Hm H2 H3 H4]. split; rewrite ?E1, ?E2, ?E3, ?E4; done.
Qed.

Lemma add_port_inv cap p w s :
  p <> 0 -> p <> sw_monitor s -> p ∉ sw_ports s -> sw_inv cap s w -> sw_inv cap (fst (add_port p w s)) w.
Proof.
  intros H0 Hpm Hp [[H1 H1'] Hmon H2 H3 H4]. unfold add_port. destruct (Z.eqb_spec (zlen (sw_ports s)) (sw_max_ports s)) as [E|E]; [done|].
  destruct (negb (is_unknown (port_mac p w)) && _) eqn:Em; [done|]. cbn. split; cbn.
  - split; [|set_solver]. apply list.NoDup_app. split; [done|]. split; [set_solver|]. apply NoDup_singleton.
  - set_solver.
  - rewrite zlen_app. change (zlen [p]) with 1. lia.
  - destruct H3 as [T1 T2]. split; [done|]. intros a v x Ex. destruct (T2 a v x Ex). set_solver.
  - assert (Hnew : forall q, q ∈ sw_ports s -> port_mac q w = port_mac p w -> is_unknown (port_mac p w) = true).
    { intros q Hq Eq. destruct (is_unknown (port_mac p w)); [done|]. cbn in Em.
      assert (existsb (fun q => port_mac q w =? port_mac p w) (sw_ports s) = true); [|congruence].
      apply existsb_exists. exists q. split; [by apply list_elem_of_In|lia]. }
    intros x y Hx Hy Exy. apply elem_of_app in Hx, Hy.
    destruct Hx as [Hx| ->%list_elem_of_singleton], Hy as [Hy| ->%list_elem_of_singleton].
    + by apply H4.
    + right. rewrite Exy. by apply (Hnew x).
    + right. apply (Hnew y); [done|by symmetry].
    + by left.
Qed.

(** The loop of [check_ports] keeps the invariant for the ports not yet removed;
    its assertion holds. *)
Lemma check_loop_inv cap kept todo s w :
  sw_inv cap (set_ports (kept ++ todo) s) w ->
  exists s' w', check_loop kept todo s w = Ret (s', w') /\ sw_inv cap s' w' /\
    sw_monitor s' = sw_monitor s /\ sw_max_ports s' = sw_max_ports s /\
    (forall p, p ∈ sw_ports s' -> p ∈ kept ++ todo) /\
    (forall p, p ∈ kept -> p ∈ sw_ports s').
Proof.
  revert kept s w. induction todo as [|p todo IH]; intros kept s w H; cbn.
  - rewrite app_nil_r in *. exists (set_ports kept s), w. done.
  - destruct (is_gone p w).
    + destruct H as [[H1 H1'] Hmon H2 H3 H4]. cbn in *.
      rewrite (flush_asserts_hold cap) by apply H3. destruct (table_inv_flush cap _ _ w p H3) as [F1 F2].
      apply list.NoDup_app in H1 as (N1 & N2 & N3). apply list.NoDup_cons in N3 as [N3 N4].
      assert (Hk : forall x, x ∈ kept ++ todo -> x <> p /\ settings x (delete_port p w) = settings x w).
      { intros x Hx. assert (x <> p) by set_solver. split; [done|]. by apply delete_keeps. }
      destruct (IH kept (set_mac (mt_flush p (sw_mac s)) s) (delete_port p w)) as (s' & w' & E & Hi & Hm & Hx & Hp & Hq).
      * split; cbn.
        -- split; [|set_solver]. apply list.NoDup_app. split; [done|]. split; [set_solver|done].
        -- set_solver.
        -- rewrite zlen_app, zlen_cons in H2. rewrite zlen_app. lia.
        -- split; [done|]. intros a v x Ex. destruct (F2 a v x Ex) as (Hne & Hin & Ht).
           assert (Hx : x ∈ kept ++ todo) by set_solver. split; [done|].
           unfold takes_part in *. by rewrite (proj2 (Hk x Hx)).
        -- intros x y Hx Hy. unfold port_mac. rewrite (proj2 (Hk x Hx)), (proj2 (Hk y Hy)). apply H4; set_solver.
      * exists s', w'. split; [done|]. split; [done|]. split; [done|]. split; [done|].
        split; [|done]. intros x Hxs. specialize (Hp x Hxs). set_solver.
    + destruct (IH (kept ++ [p]) s w) as (s' & w' & E & Hi & Hm & Hx & Hp & Hq); [by rewrite <- app_assoc|].
      exists s', w'. rewrite <- app_assoc in Hp. split; [done|]. split; [done|]. split; [done|]. split; [done|].
      split; [done|]. intros x Hxk. apply Hq. set_solver.
Qed.

Lemma check_ports_inv cap s w s' w' :
  sw_inv cap s w -> check_ports s w = Ret (s', w') -> sw_inv cap s' w'.
Proof.
  intros H. pose proof (si_monitor _ _ _ H) as Hmon. unfold check_ports. destruct (check_loop_inv cap [] (sw_ports s) s w) as (s1 & w1 & -> & Hi & Hm & _ & Hp & _).
  { by destruct s. }
  cbn. destruct (negb (sw_monitor s1 =? 0) && is_gone (sw_monitor s1) w1); intros [= <- <-]; [|done].
  apply (sw_inv_world cap s1 w1 (delete_port (sw_monitor s1) w1)) in Hi.
  { destruct Hi as [[? ?] ? ? ? ?]. by split. }
  intros p Hps. apply delete_keeps.
  intros ->. apply Hmon. rewrite <- Hm. by apply Hp.
Qed.

(** *** Sending packets *)

(** The switch and its ports, apart from the table and the statistics. *)
Definition same_ports (s s' : switch) : Prop :=
  sw_ports s' = sw_ports s /\ sw_monitor s' = sw_monitor s /\ sw_max_ports s' = sw_max_ports s.

(** An action that sends packets of the port [src]. *)
Definition sends {A} (cap : nat) (m : act A) : Prop := forall s w s' w' o,
  sw_inv cap s w -> m s w = Ret (s', w', o) ->
  sw_inv cap s' w' /\ same_ports s s' /\ same_settings w w'.

Lemma same_switch_ports s s' : same_switch s s' -> same_ports s s'.
Proof. by intros (? & ? & ? & _). Qed.

Lemma sends_ret {A} cap (a : A) : sends cap (act_ret a).
Proof. intros s w s' w' o H [= <- <- _]. done. Qed.

Lemma sends_bind {A B} cap (m : act A) (f : A -> act B) :
  sends cap m -> (forall a, sends cap (f a)) -> sends cap (act_bind m f).
Proof.
  intros Hm Hf s w s' w' o H E. unfold act_bind in E. apply run_bind_Ret in E as ([[s1 w1] o1] & E1 & E).
  destruct (Hm _ _ _ _ _ H E1) as (H1 & P1 & W1). destruct o1 as [e|a]; [injection E as <- <- _; done|].
  destruct (Hf a _ _ _ _ _ H1 E) as (H2 & (P2 & P3 & P4) & W2). split; [done|]. destruct P1 as (Q1 & Q2 & Q3).
  split; [split; [congruence|split; congruence]|]. intros p. by rewrite W2, W1.
Qed.

Lemma sends_hand_over cap dst src q : sends cap (hand_over dst src q).
Proof.
  intros s w s' w' o H E. destruct (hand_over_keeps _ _ _ _ _ _ _ _ E) as [Hs Hw].
  split; [by eapply sw_inv_same|]. split; [by apply same_switch_ports|done].
Qed.

Lemma sends_hand_all cap l src q : sends cap (hand_all l src q).
Proof. induction l as [|t l IH]; [apply sends_ret|]. apply sends_bind; [apply sends_hand_over|done]. Qed.

Lemma sends_to_monitor cap src q : sends cap (to_monitor src q).
Proof.
  intros s w s' w' o H. unfold to_monitor. split_if; [by apply sends_hand_over|]. intros [= <- <- _]. done.
Qed.

Lemma learned_inv cap src q s w :
  sw_inv cap s w -> src ∈ sw_ports s -> refused (settings src w) (req_packet q) (packet_mem w) = false ->
  sw_inv cap (learned src q s w) w.
Proof.
  intros [[H1 H1'] Hm H2 H3 H4] Hs Hr. split; try done. apply (table_inv_learn _ _ (sw_mac s)); try done.
  by intros ->.
Qed.

Lemma handle_tx_request_inv cap src q s w s' w' o :
  sw_inv cap s w -> src ∈ sw_ports s -> handle_tx_request src q s w = Ret (s', w', o) ->
  sw_inv cap s' w' /\ same_ports s s' /\ same_settings w w'.
Proof.
  intros H Hs E. assert (H0 : src <> 0) by (intros ->; by destruct (si_ports _ _ _ H)).
  rewrite handle_tx_request_eq in E by done.
  destruct (refused _ _ _) eqn:Er; [injection E as <- <- _; split; [by destruct H|done]|].
  eapply sends_bind in E; [exact E|apply sends_hand_all| |by apply learned_inv].
  intros _. split_if; [apply sends_ret|apply sends_to_monitor].
Qed.

Lemma tx_requests_loop_inv cap fuel p num s w s' w' o :
  sw_inv cap s w -> p ∈ sw_ports s -> tx_requests_loop fuel p num s w = Ret (s', w', o) ->
  sw_inv cap s' w' /\ same_ports s s' /\ same_settings w w'.
Proof.
  revert num s w. induction fuel as [|f IH]; intros num s w H Hp E; [done|]. cbn in E.
  apply run_bind_Ret in E as ([w1 r] & E1 & E).
  assert (W1 : same_settings w w1) by (intros x; by eapply get_keeps).
  assert (H1 : sw_inv cap s w1) by (apply (sw_inv_world cap s w); [by intros|done]).
  destruct r as [e|[q|]]; [injection E as <- <- _; done| |injection E as <- <- _; done].
  apply run_bind_Ret in E as ([[s2 w2] r] & E2 & E). apply run_bind_Ret in E as (w3 & E3 & E).
  destruct (handle_tx_request_inv cap p q s w1 s2 w2 r H1 Hp E2) as (H2 & P2 & W2).
  assert (W3 : same_settings w2 w3) by (intros x; by eapply end_keeps).
  assert (H3 : sw_inv cap s2 w3) by (apply (sw_inv_world cap s2 w2); [by intros|done]).
  assert (Hall : same_settings w w3) by (intros x; by rewrite W3, W2, W1).
  destruct r as [e|u]; [injection E as <- <- _; done|]. split_if; [injection E as <- <- _; done|].
  assert (Hp' : p ∈ sw_ports s2) by (destruct P2 as [-> _]; done).
  destruct (IH _ _ _ H3 Hp' E) as (H4 & (Q1 & Q2 & Q3) & W4). destruct P2 as (P1 & P2 & P3).
  split; [done|]. split; [split; [congruence|split; congruence]|]. intros x. by rewrite W4, Hall.
Qed.

Lemma all_rx_notify_world on s w s' w' o :
  all_rx_notify on s w = Ret (s', w', o) -> s' = s /\ same_settings w w'.
Proof.
  intros [= <- <- _]. split; [done|]. generalize (sw_ports s) as l. intros l.
  revert w. induction l as [|p l IH]; intros w x; [done|]. cbn. by rewrite IH, rx_keeps.
Qed.

Lemma handle_tx_requests_inv cap p num s w s' w' o :
  sw_inv cap s w -> p ∈ sw_ports s ->
  act_bind (all_rx_notify false) (fun _ => handle_tx_requests p num) s w = Ret (s', w', o) ->
  sw_inv cap s' w' /\ same_ports s s' /\ same_settings w w'.
Proof.
  intros H Hp E. unfold act_bind in E. apply run_bind_Ret in E as ([[s1 w1] r] & E1 & E).
  destruct (all_rx_notify_world _ _ _ _ _ _ E1) as [-> W1]. destruct r as [e|u]; [injection E1 as _ E1; done|].
  apply tx_requests_loop_inv with (cap := cap) in E; [|by apply (sw_inv_world cap s w); [intros|]|done].
  destruct E as (H2 & P2 & W2). split; [done|]. split; [done|]. intros x. by rewrite W2, W1.
Qed.

Lemma port_tx_loop_inv cap fuel p num s w s' w' b :
  sw_inv cap s w -> p ∈ sw_ports s -> port_tx_loop fuel p num s w = Ret (s', w', b) ->
  sw_inv cap s' w' /\ same_ports s s' /\ same_settings w w'.
Proof.
  revert num s w. induction fuel as [|f IH]; intros num s w H Hp E; [done|]. cbn [port_tx_loop] in E.
  assert (W0 : same_settings w (queues_notify false p w)) by (intros x; by apply queues_keeps).
  assert (H0 : sw_inv cap s (queues_notify false p w)) by (apply (sw_inv_world cap s w); [by intros|done]).
  destruct (Tx_burst <=? num).
  { injection E as <- <- _.
    assert (Hall : same_settings w (reschedule_pending_tx p (queues_notify false p w)))
      by (intros x; by rewrite reschedule_keeps, W0).
    split; [by apply (sw_inv_world cap s w); [intros|]|done]. }
  apply run_bind_Ret in E as ([[s1 w1] r] & E1 & E).
  destruct (handle_tx_requests_inv cap p num s _ s1 w1 r H0 Hp E1) as (H1 & P1 & W1).
  assert (Hp1 : p ∈ sw_ports s1) by (destruct P1 as [-> _]; done).
  destruct r as [e|num']; apply run_bind_Ret in E as ([[s2 w2] u] & E2 & E);
    apply all_rx_notify_world in E2 as [-> W2].
  - injection E as <- <- _.
    assert (Hall : same_settings w w2) by (intros x; by rewrite W2, error_keeps, W1, W0).
    split; [|done]. apply (sw_inv_world cap s1 w1); [intros x _; by rewrite W2, error_keeps|done].
  - destruct (tx_work_pending p (queues_notify true p w2)) as [w3 more] eqn:Ep.
    assert (W3 : same_settings w1 w3).
    { intros x. pose proof (pending_keeps p (queues_notify true p w2) x) as Hk. rewrite Ep in Hk.
      cbn in Hk. by rewrite Hk, queues_keeps, W2. }
    assert (Hall : same_settings w w3) by (intros x; by rewrite W3, W1, W0).
    assert (H3 : sw_inv cap s1 w3) by (apply (sw_inv_world cap s1 w1); [by intros|done]).
    destruct more; [|injection E as <- <- _; done].
    destruct (IH _ _ _ H3 Hp1 E) as (H4 & (Q1 & Q2 & Q3) & W4). destruct P1 as (P1 & P2 & P3).
    split; [done|]. split; [split; [congruence|split; congruence]|]. intros x. by rewrite W4, Hall.
Qed.

(** ** Reachable switches *)

Inductive sw_reach (cap : nat) : switch -> W -> Prop :=
  | sr_new max w : 0 <= max -> sw_reach cap (switch_new max cap) w
  | sr_add p s w :
      sw_reach cap s w -> p <> 0 -> p <> sw_monitor s -> p ∉ sw_ports s ->
      sw_reach cap (fst (add_port p w s)) w
  | sr_monitor p s w :
      sw_reach cap s w -> p ∉ sw_ports s -> sw_reach cap (fst (add_monitor_port p s)) w
  | sr_check s w s' w' : sw_reach cap s w -> check_ports s w = Ret (s', w') -> sw_reach cap s' w'
  | sr_tx fuel p s w s' w' b :
      sw_reach cap s w -> p ∈ sw_ports s -> handle_l4virtio_port_tx fuel p s w = Ret (s', w', b) ->
      sw_reach cap s' w'
  | sr_ixl p s w s' w' o :
      sw_reach cap s w -> p ∈ sw_ports s -> handle_ixl_port_tx p s w = Ret (s', w', o) ->
      sw_reach cap s' w'
  (** drivers act, ports are created *)
  | sr_world s w w' :
      sw_reach cap s w -> (forall p, p ∈ sw_ports s -> settings p w' = settings p w) -> sw_reach cap s w'.

Lemma sw_new_inv cap max w : (0 < cap)%nat -> 0 <= max -> sw_inv cap (switch_new max cap) w.
Proof.
  intros Hc Hm. split; cbn.
  - split; [constructor|set_solver].
  - set_solver.
  - done.
  - split; [by apply mt_new_inv|]. intros a v p E. cbn in E. unfold mt_abs in E. cbn in E.
    by rewrite fmap_empty, lookup_empty in E.
  - intros p q Hp. by apply not_elem_of_nil in Hp.
Qed.

Lemma handle_ixl_inv cap p s w s' w' o :
  sw_inv cap s w -> p ∈ sw_ports s -> handle_ixl_port_tx p s w = Ret (s', w', o) -> sw_inv cap s' w'.
Proof.
  intros H Hp E. unfold handle_ixl_port_tx in E. apply run_bind_Ret in E as ([[s1 w1] r] & E1 & E).
  destruct (handle_tx_requests_inv cap p 0 s w s1 w1 r H Hp E1) as (H1 & _ & _).
  destruct r as [e|num]; [by injection E as <- <- _|].
  apply run_bind_Ret in E as ([[s2 w2] u] & E2 & E). apply all_rx_notify_world in E2 as [-> W2].
  assert (H2 : sw_inv cap s1 w2) by (by eapply sw_inv_world; [intros x _; apply W2|]).
  split_if; [|by injection E as <- <- _].
  pose proof (pending_keeps p w2) as Hk. destruct (tx_work_pending p w2) as [w3 more]. cbn in Hk.
  destruct more; injection E as <- <- _; eapply sw_inv_world; try exact H2; intros x _;
    by rewrite ?reschedule_keeps, Hk.
Qed.

Lemma sw_reach_inv cap s w : (0 < cap)%nat -> sw_reach cap s w -> sw_inv cap s w.
Proof.
  intros Hc. induction 1 as [max w Hm|p s w _ IH H0 Hm Hp|p s w _ IH Hp|s w s' w' _ IH E
                            |fuel p s w s' w' b _ IH Hp E|p s w s' w' o _ IH Hp E|s w w' _ IH Hw].
  - by apply sw_new_inv.
  - by apply add_port_inv.
  - unfold add_monitor_port. split_if; [|done]. destruct IH as [[? ?] ? ? ? ?]. by split.
  - by eapply check_ports_inv.
  - by eapply port_tx_loop_inv.
  - by eapply handle_ixl_inv.
  - by eapply sw_inv_world.
Qed.

(** C33. The switch never holds a reference to a port that is gone: after any
    sequence of ports being added and removed and packets being switched, every
    port in the MAC table is one of its ports, none is listed twice or is the
    monitor, there are no more than the configured number, no two of them have
    the same known MAC address, and removing ports always succeeds. *)
Theorem switch_ports_valid cap s w :
  (0 < cap)%nat -> sw_reach cap s w ->
  (forall dst vlan, mt_lookup dst vlan (sw_mac s) <> 0 -> mt_lookup dst vlan (sw_mac s) ∈ sw_ports s) /\
  NoDup (sw_ports s) /\ 0 ∉ sw_ports s /\ sw_monitor s ∉ sw_ports s /\
  zlen (sw_ports s) <= sw_max_ports s /\
  (forall p q, p ∈ sw_ports s -> q ∈ sw_ports s -> port_mac p w = port_mac q w ->
     is_unknown (port_mac p w) = false -> p = q) /\
  exists s' w', check_ports s w = Ret (s', w').
Proof.
  intros Hc Hr. pose proof (sw_reach_inv cap s w Hc Hr) as H. pose proof H as [[H1 H1'] Hm H2 [H3 H3'] H4].
  split; [|split; [done|split; [done|split; [done|split; [done|split]]]]].
  - intros dst vlan. rewrite mt_lookup_abs. destruct (mt_abs (sw_mac s) !! (dst, vlan)) as [p|] eqn:E; [|done].
    intros _. cbn. by destruct (H3' _ _ _ E).
  - intros p q Hp Hq E Hu. destruct (H4 p q Hp Hq E) as [|Hk]; [done|congruence].
  - unfold check_ports. destruct (check_loop_inv cap [] (sw_ports s) s w) as (s1 & w1 & -> & _).
    { by destruct s. }
    cbn. split_if; by eexists _, _.
Qed.


(** A native port is not confined: a packet it sends with the tag of a VLAN is
    forwarded to the access and trunk ports of that VLAN, although ports of a VLAN
    and native ports are meant to be separated. *)
Theorem native_port_enters_vlan src t q s w :
  is_native (settings src w) = true -> t ∈ sw_ports s -> t <> src ->
  has_vlan (req_packet q) (packet_mem w) = true ->
  match_vlan (req_vlan_id (req_packet q) (packet_mem w)) (settings t w) = true ->
  is_broadcast (dst_mac (req_packet q) (packet_mem w)) = true ->
  refused (settings src w) (req_packet q) (packet_mem w) = false /\ t ∈ recipients src q s w.
Proof.
  intros Hn Ht Hne Hv Hm Hb. assert (Hr : refused (settings src w) (req_packet q) (packet_mem w) = false).
  { unfold refused, is_access. rewrite Hn. unfold is_native in Hn. unfold is_trunk.
    apply Z.eqb_eq in Hn. rewrite Hn. cbn. done. }
  split; [done|]. unfold recipients, packet_vlan. rewrite Hr, Hb, Hv. cbn [negb Z.eqb].
  by apply list_elem_of_filter.
Qed.

(** ** Bursts *)

Lemma tx_requests_fuel k f p num s w :
  0 <= num < Tx_burst -> k = Z.to_nat (Tx_burst - num) ->
  tx_requests_loop (k + f) p num s w = tx_requests_loop k p num s w /\
  forall s' w' n, tx_requests_loop k p num s w = Ret (s', w', inr n) -> num <= n <= Tx_burst.
Proof.
  revert num s w. induction k as [|k IH]; intros num s w Hn Hk; [lia|]. unfold Tx_burst in *.
  cbn [Nat.add tx_requests_loop].
  destruct (get_tx_request p w) as [[w1 [e|[q|]]]| | | | |]; cbn [mbind run_bind]; try done.
  2: { split; [done|]. intros s' w' n [= _ _ <-]. lia. }
  destruct (handle_tx_request p q s w1) as [[[s2 w2] r]| | | | |]; cbn [mbind run_bind]; try done.
  destruct (end_request p q w2) as [w3| | | | |]; cbn [mbind run_bind]; try done.
  destruct r as [e|u]; [done|]. unfold Tx_burst.
  rewrite (uwrap_small 32 (num + 1)) by (unfold in_u; lia).
  destruct (Z.leb_spec 128 (num + 1)) as [Hge|Hlt].
  - split; [done|]. intros s' w' n [= _ _ <-]. lia.
  - destruct (IH (num + 1) s2 w3 ltac:(lia) ltac:(lia)) as [E Hb]. split; [done|].
    intros s' w' n En. specialize (Hb _ _ _ En). lia.
Qed.

(** A port gets at most a burst of requests handled in a row: the loop ends
    after that many rounds at the latest, more fuel makes no difference, and the
    count it returns never exceeds the limit. *)
Theorem tx_burst_bounded fuel p num s w :
  0 <= num < Tx_burst -> (Z.to_nat (Tx_burst - num) <= fuel)%nat ->
  tx_requests_loop fuel p num s w = handle_tx_requests p num s w /\
  forall s' w' n, handle_tx_requests p num s w = Ret (s', w', inr n) -> num <= n <= Tx_burst.
Proof.
  intros Hn Hf. unfold handle_tx_requests. set (k := Z.to_nat (Tx_burst - num)) in *.
  replace fuel with (k + (fuel - k))%nat by lia. by apply tx_requests_fuel.
Qed.
End Switch.
