(* ===== verification/SwitchWorld.v ===== *)
(** * A switch with virtio ports

    [pkg/virtio-net-switch/server/switch]: [port_l4virtio.h] (the transmit side of
    [L4virtio_port]), [request_l4virtio.h] ([get_request], [drop_requests],
    [finish]) and [create_port] of [main.cc].  [world] holds the memory and the
    ports; it implements the interface [Switch_env] of the switch. *)

From S2P Require Import Prelude L4Round DriverMem Virtqueue RequestProc VirtioDev VirtioNet.
From S2P Require Import MacTable Vlan NetRequest SwitchPort VirtioPort Switch.

(** ** Ports *)

(** A [Port]: its settings, the device, the two rings of its driver, whether the
    client is gone, and how often it was rescheduled. *)
Record vport := {
  vp_cfg : port;
  vp_dev : net_dev;
  vp_rx : vring;
  vp_tx : vring;
  vp_gone : bool;
  vp_rescheduled : nat;
}.

Definition with_dev (d : net_dev) (rx tx : vring) (p : vport) : vport :=
  {| vp_cfg := vp_cfg p; vp_dev := d; vp_rx := rx; vp_tx := tx; vp_gone := vp_gone p;
     vp_rescheduled := vp_rescheduled p |}.

Definition tx_vq (d : net_dev) : vqueue := kq (net_tx (dv_priv d)).

Definition set_tx_vq (q : vqueue) (d : net_dev) : net_dev :=
  on_priv (fun n => set_net_queue Tx (with_vq q (net_tx n)) n) d.

(** [finish] on the transmit queue. *)
Definition tx_finish (h len : Z) (r : vring) (d : net_dev) : run (net_dev * vring) :=
  r ← consumed h len (tx_vq d) r; mret (notify_queue Tx r d, r).

(** [Virtio_net_request::finish]. *)
Definition req_finish (h : Z) (r : vring) (d : net_dev) : run (net_dev * vring) :=
  if ready (tx_vq d) then tx_finish h 0 r d else mret (d, r).

(** [get_request]: an invalid request is destroyed at once. *)
Definition get_request (r : vring) (m : memory) (d : net_dev)
    : run (net_dev * vring * (bad + option vnet_request)) :=
  if negb (ready (tx_vq d)) then mret (d, r, inr None)
  else
    '(q, o) ← next_avail (tx_vq d) r;
    let d := set_tx_vq q d in
    match o with
    | None => mret (d, r, inr None)
    | Some h =>
        o ← virtio_request (dv_mem d) (vr_desc r) (vq_num q) h m;
        match o with
        | inl e => mret (d, r, inl e)
        | inr req =>
            if valid req then mret (d, r, inr (Some req))
            else '(d, r) ← req_finish (vq_head req) r d; mret (d, r, inr None)
        end
    end.

(** The loop of [drop_requests]. *)
Fixpoint drop_loop (fuel : nat) (r : vring) (m : memory) (d : net_dev)
    : run (net_dev * vring * (bad + unit)) :=
  '(q, o) ← next_avail (tx_vq d) r;
  match o with
  | None => mret (set_tx_vq q d, r, inr tt)
  | Some h =>
      match fuel with
      | O => Fuel_out
      | S f =>
          let d := set_tx_vq q d in
          o ← rp_start (dv_mem d) (vr_desc r) (vq_num q) h m;
          match o with
          | inl e => mret (d, r, inl e)
          | inr _ => '(d, r) ← tx_finish h 0 r d; drop_loop f r m d
          end
      end
  end.

(** One round per request in the ring. *)
Definition drop_requests (r : vring) (m : memory) (d : net_dev)
    : run (net_dev * vring * (bad + unit)) :=
  if negb (ready (tx_vq d)) then mret (d, r, inr tt)
  else drop_loop (Z.to_nat (avail_idx r -[16] current_avail (tx_vq d))) r m d.

(** ** The world *)

Record world := { w_mem : memory; w_ports : gmap Z vport }.

Definition get_settings (p : Z) (w : world) : port :=
  match w_ports w !! p with Some x => vp_cfg x | None => port_new false end.

(** Use of a port; a dangling pointer is an invalid access. *)
Definition with_port {A} (p : Z) (w : world) (f : vport -> run A) : run A :=
  match w_ports w !! p with Some x => f x | None => Oob end.

Definition put_port (p : Z) (x : vport) (w : world) : world :=
  {| w_mem := w_mem w; w_ports := <[p := x]> (w_ports w) |}.

Definition on_port (p : Z) (f : vport -> vport) (w : world) : world :=
  match w_ports w !! p with Some x => put_port p (f x) w | None => w end.

Definition port_notify (on : bool) (x : vport) : vport :=
  let f := if on then enable_notify else disable_notify in
  with_dev (vp_dev x) (f (rx_vq (vp_dev x)) (vp_rx x)) (f (tx_vq (vp_dev x)) (vp_tx x)) x.

Definition port_kick (on : bool) (x : vport) : vport :=
  with_dev ((if on then kick_emit_and_enable else kick_disable) (vp_dev x)) (vp_rx x) (vp_tx x) x.

Definition port_device_error (x : vport) : vport := with_dev (device_error (vp_dev x)) (vp_rx x) (vp_tx x) x.

Definition port_reschedule (x : vport) : vport :=
  {| vp_cfg := vp_cfg x; vp_dev := vp_dev x; vp_rx := vp_rx x; vp_tx := vp_tx x; vp_gone := vp_gone x;
     vp_rescheduled := S (vp_rescheduled x) |}.

Definition port_tx_pending (x : vport) : bool :=
  ready (tx_vq (vp_dev x)) && desc_avail (tx_vq (vp_dev x)) (vp_tx x).

(** [handle_irq] of a monitor port: its transmit queue is emptied. *)
Fixpoint monitor_irq (fuel : nat) (m : memory) (x : vport) : run (vport * (bad + unit)) :=
  match fuel with
  | O => Fuel_out
  | S f =>
      let x := port_notify false x in
      '(d, tx, o) ← drop_requests (vp_tx x) m (vp_dev x);
      let x := with_dev d (vp_rx x) tx x in
      match o with
      | inl e => mret (x, inl e)
      | inr _ =>
          let x := port_notify true x in
          if port_tx_pending x then monitor_irq f m x else mret (x, inr tt)
      end
  end.

Definition world_send (fuel : nat) (dst src : Z) (q : vnet_request) (w : world)
    : run (world * (bad + result)) :=
  with_port dst w (fun x => with_port src w (fun y =>
    '(d, rx, m, o) ← vio_handle_request fuel (vp_cfg x) (vp_cfg y)
                       (virtio_transfer (dv_mem (vp_dev y)) q) (vp_dev x) (vp_rx x) (w_mem w);
    mret (put_port dst (with_dev d rx (vp_tx x) x) {| w_mem := m; w_ports := w_ports w |}, o))).

Definition world_get (p : Z) (w : world) : run (world * (bad + option vnet_request)) :=
  with_port p w (fun x =>
    '(d, tx, o) ← get_request (vp_tx x) (w_mem w) (vp_dev x);
    mret (put_port p (with_dev d (vp_rx x) tx x) w, o)).

Definition world_end (p : Z) (q : vnet_request) (w : world) : run world :=
  with_port p w (fun x =>
    '(d, tx) ← req_finish (vq_head q) (vp_tx x) (vp_dev x);
    mret (put_port p (with_dev d (vp_rx x) tx x) w)).

(** [fuel] bounds the copying of one packet. *)
#[export] Instance virtio_world (fuel : nat) : Switch_env world vnet_request := {|
  settings := get_settings;
  is_gone p w := match w_ports w !! p with Some x => vp_gone x | None => false end;
  delete_port p w := {| w_mem := w_mem w; w_ports := delete p (w_ports w) |};
  packet_mem := w_mem;
  req_packet := vq_pkt;
  send_to := world_send fuel;
  get_tx_request := world_get;
  end_request := world_end;
  tx_work_pending p w :=
    (w, match w_ports w !! p with Some x => port_tx_pending x | None => false end);
  queues_notify on p := on_port p (port_notify on);
  rx_notify on p := on_port p (port_kick on);
  port_error p := on_port p port_device_error;
  reschedule_pending_tx p := on_port p port_reschedule;
|}.

(** *** The world keeps the rules of the switch *)

Lemma put_settings p x y w a :
  w_ports w !! p = Some y -> vp_cfg x = vp_cfg y -> get_settings a (put_port p x w) = get_settings a w.
Proof.
  intros E Hx. unfold get_settings. cbn. destruct (decide (a = p)) as [->|Hne].
  - by rewrite lookup_insert_eq, E.
  - by rewrite lookup_insert_ne.
Qed.

Lemma on_settings p f w a :
  (forall x, vp_cfg (f x) = vp_cfg x) -> get_settings a (on_port p f w) = get_settings a w.
Proof.
  intros Hf. unfold on_port. destruct (w_ports w !! p) as [x|] eqn:E; [|done]. by eapply put_settings.
Qed.

Lemma with_port_Ret {A} p w (f : vport -> run A) a :
  with_port p w f = Ret a -> exists x, w_ports w !! p = Some x /\ f x = Ret a.
Proof. unfold with_port. destruct (w_ports w !! p) as [x|]; [|done]. by exists x. Qed.

#[export] Instance virtio_world_laws fuel : @Switch_env_laws _ _ (virtio_world fuel).
Proof.
  split; cbn.
  - intros dst src q w w' o p E. apply with_port_Ret in E as (x & Hx & E). apply with_port_Ret in E as (y & Hy & E).
    apply run_bind_Ret in E as ([[[d rx] m] r] & _ & E). injection E as <- _.
    change (get_settings p w) with (get_settings p {| w_mem := m; w_ports := w_ports w |}).
    by eapply put_settings.
  - intros a w w' o p E. apply with_port_Ret in E as (x & Hx & E).
    apply run_bind_Ret in E as ([[d tx] r] & _ & E). injection E as <- _. by eapply put_settings.
  - intros a q w w' p E. apply with_port_Ret in E as (x & Hx & E).
    apply run_bind_Ret in E as ([d tx] & _ & E). injection E as <-. by eapply put_settings.
  - done.
  - intros b a w p. by apply on_settings.
  - intros b a w p. by apply on_settings.
  - intros a w p. by apply on_settings.
  - intros a w p. by apply on_settings.
  - intros a w p Hne. unfold get_settings. cbn. by rewrite lookup_delete_ne.
Qed.

(** ** Creating a port *)

(** The settings of a new port; [any]: the memory under [_vlan_all]. *)
Definition new_settings (monitor : bool) (access : Z) (trunk : list Z) (trunk_all any : bool)
    (mac : option Z) : run port :=
  let p0 := port_new any in
  let p0 := {| p_vlan_id := p_vlan_id p0; p_bloom := p_bloom p0; p_vlan_ids := p_vlan_ids p0;
               p_vlan_all := p_vlan_all p0; p_mac := default Addr_unknown mac |} in
  if monitor then mret (set_monitor p0)
  else if negb (access =? 0) then set_vlan_access access p0
  else if trunk_all then mret (set_vlan_trunk_all p0)
  else if negb (bool_decide (trunk = [])) then set_vlan_trunk trunk p0
  else mret p0.

(** [create_port] after its arguments are parsed; [p] is the address of the new
    object, whose device is [d] with rings [rx] and [tx].  Its name, a random MAC
    address and the trusted dataspaces are left out. *)
Definition create_port (monitor : bool) (access : Z) (trunk : list Z) (trunk_all any : bool)
    (mac : option Z) (p : Z) (d : net_dev) (rx tx : vring) (fuel : nat) (s : switch) (w : world)
    : run (switch * world * l4_ret) :=
  if negb (port_available monitor s) then mret (s, w, Err ENOMEM)
  else if negb (access =? 0) && (negb (bool_decide (trunk = [])) || trunk_all)
  then mret (s, w, Err EINVAL)
  else
    c ← new_settings monitor access trunk trunk_all any mac;
    let w' := put_port p {| vp_cfg := c; vp_dev := d; vp_rx := rx; vp_tx := tx; vp_gone := false;
                            vp_rescheduled := 0 |} w in
    let '(s', added) := if monitor then add_monitor_port p s
                        else add_port (Switch_env0 := virtio_world fuel) p w' s in
    if added : bool then mret (s', w', Ok)
    else mret (s', {| w_mem := w_mem w'; w_ports := delete p (w_ports w') |}, Err ENOMEM).

(** A failed attempt changes nothing; a successful one adds the port. *)
Lemma create_port_spec monitor access trunk trunk_all any mac p d rx tx fuel s w s' w' e :
  w_ports w !! p = None ->
  create_port monitor access trunk trunk_all any mac p d rx tx fuel s w = Ret (s', w', e) ->
  match e with
  | Err _ => s' = s /\ w' = w
  | Ok => (if monitor then s' = set_monitor_port p s /\ sw_monitor s = 0
           else s' = set_ports (sw_ports s ++ [p]) s /\ zlen (sw_ports s) < sw_max_ports s) /\
          exists c, new_settings monitor access trunk trunk_all any mac = Ret c /\ get_settings p w' = c
  end.
Proof.
  intros Hp. unfold create_port. destruct (port_available monitor s) eqn:Ea; cbn; [|by intros [= <- <- <-]].
  split_if; [by intros [= <- <- <-]|]. intros E. apply run_bind_Ret in E as (c & Ec & E).
  assert (Hdel : forall x, {| w_mem := w_mem w; w_ports := delete p (<[p := x]> (w_ports w)) |} = w).
  { intros x. destruct w as [m ps]. cbn in *. by rewrite delete_insert_id. }
  assert (Hget : forall x, get_settings p (put_port p x w) = vp_cfg x)
    by (intros x; unfold get_settings; cbn; by rewrite lookup_insert_eq).
  destruct monitor; cbn in E, Ea.
  - unfold add_monitor_port in E. rewrite Ea in E. injection E as <- <- <-. apply Z.eqb_eq in Ea.
    split; [done|]. exists c. split; [done|]. apply Hget.
  - unfold add_port in E. apply Z.ltb_lt in Ea. replace (zlen (sw_ports s) =? sw_max_ports s) with false in E by lia.
    destruct (_ && _) in E; injection E as <- <- <-.
    + split; [done|]. apply Hdel.
    + split; [done|]. exists c. split; [done|]. apply Hget.
Qed.

(** ** Dropping requests *)

Lemma tx_finish_avail h len r d d' r' :
  tx_finish h len r d = Ret (d', r') -> avail_idx r' = avail_idx r /\ tx_vq d' = tx_vq d.
Proof.
  unfold tx_finish. intros E. apply run_bind_Ret in E as (r1 & E1 & E). injection E as <- <-.
  unfold consumed in E1. apply run_bind_Ret in E1 as (u & _ & E1). injection E1 as <-. split; [done|].
  unfold notify_queue, kick_queue. destruct (no_notify_guest _); [done|].
  by destruct (do_kick (net_queue Tx (dv_priv d))).
Qed.

Lemma load_ends {A} i (l : list A) : load i l <> Fuel_out.
Proof. unfold load, or_oob. split_if; [|done]. by destruct (l !! _). Qed.

Lemma rp_start_ends l ds num head m : rp_start l ds num head m <> Fuel_out.
Proof.
  unfold rp_start, rethrow. destruct (load head ds) as [c| | | | |] eqn:E; try done; [|by apply load_ends in E].
  cbn [mbind run_bind]. destruct (flag_indirect c).
  - unfold load_desc_table. destruct (ml_find _ _ l) as [[k r]|]; cbn; [|done]. split_if; [done|]. cbn.
    by destruct (load_desc_buf _ _).
  - cbn. by destruct (load_desc_buf _ _).
Qed.

Lemma drop_loop_ends fuel r m d :
  in_u 16 (avail_idx r) -> in_u 16 (current_avail (tx_vq d)) ->
  fuel = Z.to_nat (avail_idx r -[16] current_avail (tx_vq d)) ->
  drop_loop fuel r m d <> Fuel_out /\
  forall d' r', drop_loop fuel r m d = Ret (d', r', inr tt) -> desc_avail (tx_vq d') r' = false.
Proof.
  revert r d. induction fuel as [|f IH]; intros r d Ha Hc Hf.
  - assert (E : desc_avail (tx_vq d) r = false).
    { unfold desc_avail. apply negb_false_iff, Z.eqb_eq. unfold in_u, uwrap in *.
      pose proof (Z.mod_pos_bound (avail_idx r - current_avail (tx_vq d)) (2 ^ 16) ltac:(lia)).
      assert (E0 : (avail_idx r - current_avail (tx_vq d)) mod 2 ^ 16 = 0) by lia.
      pose proof (Z.div_mod (avail_idx r - current_avail (tx_vq d)) (2 ^ 16) ltac:(lia)). nia. }
    cbn. unfold next_avail. rewrite E. cbn. split; [done|]. by intros d' r' [= <- <-].
  - cbn [drop_loop]. unfold next_avail. destruct (desc_avail (tx_vq d) r) eqn:E; cbn [mbind run_bind].
    2: { cbn. split; [done|]. by intros d' r' [= <- <-]. }
    destruct (load _ (avail_ring r)) as [h| | | | |] eqn:El; cbn; try done.
    2: { by apply load_ends in El. }
    set (q := set_current _ (tx_vq d)).
    destruct (rp_start _ _ _ _ _) as [[e|x]| | | | |] eqn:Es; cbn; try done.
    2: { by apply rp_start_ends in Es. }
    destruct (tx_finish h 0 r (set_tx_vq q d)) as [[d1 r1]| | | | |] eqn:Ef; cbn; try done.
    + apply tx_finish_avail in Ef as [E1 E2]. change (tx_vq (set_tx_vq q d)) with q in E2.
      apply IH; rewrite ?E1, ?E2; [done|by apply uwrap_range|].
      unfold q. cbn [current_avail set_current]. rewrite uwrap_sub_r.
      replace (avail_idx r - (current_avail (tx_vq d) + 1)) with ((avail_idx r - current_avail (tx_vq d)) - 1) by lia.
      rewrite <- (uwrap_sub_l 16 (avail_idx r - current_avail (tx_vq d)) 1).
      pose proof (uwrap_range 16 (avail_idx r - current_avail (tx_vq d)) ltac:(lia)) as Hr.
      rewrite (uwrap_small 16 (_ - 1)) by (unfold in_u in *; lia). lia.
    + unfold tx_finish in Ef. destruct (consumed _ _ _ _) eqn:Ec; try done.
      unfold consumed, store in Ec. by split_if.
Qed.

(** A monitor port that has its requests dropped ends up with an empty transmit
    queue, however many there were, unless one of the descriptors is bad; the
    loop over the requests always ends. *)
Theorem drop_requests_empties r m d :
  in_u 16 (avail_idx r) -> in_u 16 (current_avail (tx_vq d)) ->
  drop_requests r m d <> Fuel_out /\
  (ready (tx_vq d) = true ->
   forall d' r', drop_requests r m d = Ret (d', r', inr tt) -> desc_avail (tx_vq d') r' = false).
Proof.
  intros Ha Hc. unfold drop_requests. destruct (ready (tx_vq d)); cbn; [|done].
  destruct (drop_loop_ends _ r m d Ha Hc eq_refl) as [H1 H2]. auto.
Qed.

Module World_example.
Import Mem_example Walk_example Net_example Port_example Delivery_example.
#[local] Existing Instances round64 env env_laws.
#[local] Instance fueled : Switch_env world vnet_request := virtio_world 100.

Definition rx_at (a : Z) : vring :=
  {| vr_desc := [{| d_addr := a; d_len := 128; d_flags := 2; d_next := 0 |};
                 Queue_example.d0; Queue_example.d0; Queue_example.d0];
     avail_flags := 0; avail_idx := 1; avail_ring := [0; 0; 0; 0];
     used_flags := 0; used_idx := 0; used_ring := replicate 4 (0, 0) |}.

(** One request of 12 + 20 bytes at the driver's address 0x40001000. *)
Definition tx_one : vring :=
  {| vr_desc := [{| d_addr := 0x40001000; d_len := 32; d_flags := 0; d_next := 0 |};
                 Queue_example.d0; Queue_example.d0; Queue_example.d0];
     avail_flags := 0; avail_idx := 1; avail_ring := [0; 0; 0; 0];
     used_flags := 0; used_idx := 0; used_ring := replicate 4 (0, 0) |}.

Definition vport_of (c : port) (a : Z) (tx : vring) : vport :=
  {| vp_cfg := c; vp_dev := dev; vp_rx := rx_at a; vp_tx := tx; vp_gone := false; vp_rescheduled := 0 |}.

Definition access7 : port := got (set_vlan_access 7 (port_new false)).

(** A broadcast of the station 02:00:00:00:00:01; [tag] stands behind the addresses. *)
Definition packet (tag : bytes) : bytes :=
  replicate 12 0 ++ [255;255;255;255;255;255; 2;0;0;0;0;1] ++ tag ++ [8;0; 1;2;3;4;5;6].

Definition world_with (tag : bytes) : world :=
  {| w_mem := mem_wr 0x10201000 (packet tag) (fun _ => 0);
     w_ports := <[1 := vport_of access5 0x40002000 tx_one]>
               (<[2 := vport_of trunk57 0x40003000 Queue_example.ring4]>
               (<[3 := vport_of access7 0x40004000 Queue_example.ring4]>
               (<[4 := vport_of (port_new false) 0x40005000 tx_one]> ∅))) |}.

Definition sw4 : switch :=
  fold_left (fun s p => fst (add_port p (world_with []) s)) [1; 2; 3; 4] (switch_new 4 8).

Lemma sw4_reach : sw_reach false 8 sw4 (world_with []).
Proof.
  unfold sw4. cbn [fold_left].
  repeat (apply sr_add; [|discriminate|vm_compute; discriminate|
            refine (bool_decide_unpack _ _); vm_compute; exact I]).
  by apply sr_new.
Qed.

Definition no_req : vnet_request :=
  {| vq_head := 0; vq_rp := rp0; vq_pkt := {| pos := 0; left := 0 |}; vq_header := 0 |}.

(** The request of port 1, or 4. *)
Definition req1 (tag : bytes) : vnet_request :=
  match virtio_request two (vr_desc tx_one) 4 0 (w_mem (world_with tag)) with
  | Ret (inr q) => q
  | _ => no_req
  end.

Lemma in_ports p : p ∈ [1; 2; 3; 4] -> p ∈ sw_ports sw4.
Proof. by vm_compute. Qed.


Lemma switch_ports_valid_witness :
  mt_lookup 0x010000000002 5 (sw_mac (learned 1 (req1 []) sw4 (world_with []))) = 1 /\
  NoDup (sw_ports sw4) /\ zlen (sw_ports sw4) <= 4 /\
  exists s' w', check_ports sw4 (world_with []) = Ret (s', w').
Proof.
  split; [vm_compute; reflexivity|].
  destruct (switch_ports_valid false 8 sw4 (world_with []) ltac:(lia) sw4_reach) as (_ & H1 & _ & _ & H2 & _ & H3).
  split; [exact H1|]. split; [exact H2|exact H3].
Defined.

(** The native port 4 reaches the ports of VLAN 7. *)
Lemma native_port_enters_vlan_witness :
  3 ∈ recipients 4 (req1 [0x81; 0; 0; 7]) sw4 (world_with [0x81; 0; 0; 7]) /\
  is_access (settings 3 (world_with [0x81; 0; 0; 7])) = true.
Proof.
  split; [|vm_compute; reflexivity].
  apply (native_port_enters_vlan 4 3 (req1 [0x81; 0; 0; 7]) sw4 (world_with [0x81; 0; 0; 7]));
    [vm_compute; reflexivity|apply in_ports; do 2 right; left|discriminate|vm_compute; reflexivity..].
Defined.

Definition count_of (o : run (switch * world * (bad + Z))) : option Z :=
  match o with Ret (_, _, inr n) => Some n | _ => None end.

Lemma count_of_Some o n : count_of o = Some n -> exists s w, o = Ret (s, w, inr n).
Proof. destruct o as [[[s w] [e|k]]| | | | |]; try done. intros [= ->]. by exists s, w. Qed.

Lemma tx_burst_bounded_witness :
  exists s' w', handle_tx_requests false 1 0 sw4 (world_with []) = Ret (s', w', inr 1) /\
    tx_requests_loop false 200 1 0 sw4 (world_with []) = Ret (s', w', inr 1).
Proof.
  destruct (tx_burst_bounded false 200 1 0 sw4 (world_with []) ltac:(by_eval) ltac:(unfold Tx_burst; lia)) as [E _].
  assert (Hn : count_of (handle_tx_requests false 1 0 sw4 (world_with [])) = Some 1) by (vm_compute; reflexivity).
  destruct (count_of_Some _ _ Hn) as (s' & w' & Ho). exists s', w'. split; [exact Ho|]. rewrite E. exact Ho.
Defined.

Lemma drop_requests_empties_witness :
  exists d' r', drop_requests tx_one no_mem dev = Ret (d', r', inr tt) /\
    desc_avail (tx_vq d') r' = false.
Proof.
  assert (Ho : exists d' r', drop_requests tx_one no_mem dev = Ret (d', r', inr tt))
    by (eexists _, _; vm_compute; reflexivity).
  destruct Ho as (d' & r' & Ho). exists d', r'. split; [exact Ho|].
  assert (H1 : in_u 16 (avail_idx tx_one)) by (split; [discriminate|reflexivity]).
  assert (H2 : in_u 16 (current_avail (tx_vq dev))) by (vm_compute; split; [discriminate|reflexivity]).
  assert (H3 : ready (tx_vq dev) = true) by (vm_compute; reflexivity).
  exact (proj2 (drop_requests_empties tx_one no_mem dev H1 H2) H3 d' r' Ho).
Defined.

(** A bad descriptor in the transmit queue of a monitor port is an exception of
    its interrupt handler. *)
Example monitor_bad_descriptor :
  let tx := set_descs [{| d_addr := 0; d_len := 32; d_flags := 0; d_next := 0 |};
                       Queue_example.d0; Queue_example.d0; Queue_example.d0] tx_one in
  match monitor_irq 1 no_mem (vport_of (set_monitor (port_new false)) 0x40002000 tx) with
  | Ret (_, o) => o = inl Bad_address
  | _ => False
  end.
Proof. vm_compute. reflexivity. Qed.

(** The whole way: the driver of port 1 kicks the switch, the frame is in the
    receive buffer of the trunk port with a tag of VLAN 5, 36 bytes are reported
    there, and the request is finished. *)
Example end_to_end :
  match handle_l4virtio_port_tx false 3 1 sw4 (world_with []) with
  | Ret (s', w', b) =>
      b = true /\
      mem_rd (w_mem w') 0x10203000 36 =
        [0;0;0;0;0;0;0;0;0;0;1;0; 255;255;255;255;255;255; 2;0;0;0;0;1; 0x81;0;0;5;
         8;0; 1;2;3;4;5;6] /\
      (fun x => take 1 (used_ring (vp_rx x))) <$> w_ports w' !! 2 = Some [(0, 36)] /\
      (fun x => used_idx (vp_tx x)) <$> w_ports w' !! 1 = Some 1 /\
      (fun x => net_irqs (dv_priv (vp_dev x))) <$> w_ports w' !! 2 = Some 1%nat
  | _ => False
  end.
Proof. vm_compute. repeat split; reflexivity. Qed.
End World_example.
