(* ===== verification/Klog.v ===== *)
(** * The kernel log ring

    [src/pkg/klog/lib/klog.cc] with the levels and facilities of [klog.h]: a ring
    of the last 256 messages, printed on the console when they are severe enough,
    and either sent to the log daemon or appended to a file.  Every critical
    section of the code is one definition; [klog_write] and [klog_flush] are their
    compositions, and [step] lets threads interleave between them.

    The text of a message is what the printf conversion of its format produces.
    A message is kept as the characters before its NUL.  The log file is the
    sequence of the strings appended to it. *)

From Stdlib Require Import Sorted.
From S2P Require Import Prelude.

(** ** Data *)

Definition KLOG_ERR : Z := 3.
Definition KLOG_WARN : Z := 4.
Definition KLOG_INFO : Z := 6.
Definition KLOG_DEBUG : Z := 7.
Definition KLOG_KERN : Z := 0.

Definition KLOG_RING_SIZE : Z := 256.
Definition KLOG_FILE_PATH : bytes := str "/ext4/syslog.txt".

Record klog_entry := {
  ts_us : Z;
  seq : Z;
  level : Z;
  facility : Z;
  msg : bytes;
}.

Definition empty_entry : klog_entry :=
  {| ts_us := 0; seq := 0; level := 0; facility := 0; msg := [] |}.

#[global] Instance klog_entry_eq_dec : EqDecision klog_entry.
Proof. solve_decision. Defined.

(** The static variables of the file. *)
Record klog := {
  g_ring : list klog_entry;
  g_head : Z;
  g_count : Z;
  g_console_level : Z;
  g_global_seq : Z;
  g_file_seq : Z;
  g_log_path : bytes;
  g_syslogd : bool;
}.

Definition zero_ring : list klog_entry := replicate (Z.to_nat KLOG_RING_SIZE) empty_entry.

(** The variables before [klog_init]. *)
Definition klog_static : klog :=
  {| g_ring := zero_ring; g_head := 0; g_count := 0; g_console_level := KLOG_INFO;
     g_global_seq := 0; g_file_seq := 0; g_log_path := KLOG_FILE_PATH; g_syslogd := false |}.

(** What the functions do to the outside: lines on the console, messages to the
    log daemon, strings appended to files. *)
Record outside := {
  console : list bytes;
  daemon : list (Z * Z * Z * bytes);
  files : gmap bytes (list bytes);
}.

(** ** Formatting *)

Definition COL_RED : bytes := 27 :: str "[31m".
Definition COL_YELLOW : bytes := 27 :: str "[33m".
Definition COL_DIM : bytes := 27 :: str "[2m".
Definition COL_RESET : bytes := 27 :: str "[0m".

Definition level_color (lvl : Z) : bytes :=
  if lvl <=? KLOG_ERR then COL_RED
  else if lvl =? KLOG_WARN then COL_YELLOW
  else if KLOG_DEBUG <=? lvl then COL_DIM
  else [].

Definition level_names : list bytes :=
  [str "EMERG"; str "ALERT"; str "CRIT "; str "ERR  "; str "WARN "; str "NOTE "; str "INFO "; str "DEBUG"].

Definition level_str (lvl : Z) : bytes :=
  if (0 <=? lvl) && (lvl <=? 7) then default [] (level_names !! Z.to_nat lvl) else str "?    ".

Definition fac_names : list bytes :=
  [str "kern "; str "shell"; str "net  "; str "fs   "; str "blk  "; str "rtc  "; str "user "; str "disp "].

Definition fac_str (fac : Z) : bytes :=
  if (0 <=? fac) && (fac <=? 7) then default [] (fac_names !! Z.to_nat fac) else str "user ".

(** The time stamp both formats start with. *)
Definition fmt_stamp (ts : Z) : bytes :=
  str "[" ++ fmtu 32 5 (ts / 1000000) ++ str "." ++ fmtu 48 6 (ts mod 1000000) ++ str "] ".

Definition fmt_entry_console (n : nat) (e : klog_entry) : bytes :=
  let col := level_color (level e) in
  let reset := if decide (col = []) then [] else COL_RESET in
  snprintf_out n
    (fmt_stamp (ts_us e) ++ col ++ level_str (level e) ++ reset ++ str " " ++
     fac_str (facility e) ++ str ": " ++ msg e).

Definition fmt_entry_file (n : nat) (e : klog_entry) : bytes :=
  snprintf_out n
    (fmt_stamp (ts_us e) ++ level_str (level e) ++ str " " ++
     fac_str (facility e) ++ str ": " ++ msg e).

(** The line both [printf] and [fprintf] add a newline to. *)
Definition newline (s : bytes) : bytes := s ++ [10].

Definition file_line (e : klog_entry) : bytes := newline (fmt_entry_file 320 e).
Definition console_line (e : klog_entry) : bytes := newline (fmt_entry_console 320 e).

(** ** Operations *)

(** [vsnprintf] into the 200 bytes of the message, without a final newline. *)
Definition message (text : bytes) : bytes :=
  let s := snprintf_out 200 text in
  match list.last s with
  | Some c => if c =? 10 then take (length s - 1) s else s
  | None => s
  end.

(** What [klog_write] knows when it leaves its critical section. *)
Record pending := {
  p_snap : klog_entry;
  do_print : bool;
  use_syslogd : bool;
  do_flush : bool;
}.

(** The critical section of [klog_write]. *)
Definition record_section (lvl fac ts : Z) (m : bytes) (k : klog) : klog * pending :=
  let e := {| ts_us := ts; seq := g_global_seq k +[64] 1; level := lvl; facility := fac; msg := m |} in
  ({| g_ring := <[Z.to_nat (g_head k) := e]> (g_ring k);
      g_head := (g_head k + 1) mod KLOG_RING_SIZE;
      g_count := if g_count k <? KLOG_RING_SIZE then g_count k + 1 else g_count k;
      g_console_level := g_console_level k;
      g_global_seq := g_global_seq k +[64] 1;
      g_file_seq := g_file_seq k;
      g_log_path := g_log_path k;
      g_syslogd := g_syslogd k |},
   {| p_snap := e;
      do_print := lvl <=? g_console_level k;
      use_syslogd := g_syslogd k;
      do_flush := (lvl <=? KLOG_WARN) && negb (g_syslogd k) |}).

(** [printf] and the message to the log daemon, outside of the lock. *)
Definition put_console (l : bytes) (o : outside) : outside :=
  {| console := console o ++ [l]; daemon := daemon o; files := files o |}.

Definition put_daemon (m : Z * Z * Z * bytes) (o : outside) : outside :=
  {| console := console o; daemon := daemon o ++ [m]; files := files o |}.

Definition append_file (path : bytes) (ls : list bytes) (o : outside) : outside :=
  {| console := console o; daemon := daemon o;
     files := <[path := default [] (files o !! path) ++ ls]> (files o) |}.

(** The entries of a ring, oldest first: indices [(start + i) % KLOG_RING_SIZE]. *)
Definition ring_entries (ring : list klog_entry) (head count : Z) : list klog_entry :=
  let start := (head - count + KLOG_RING_SIZE) mod KLOG_RING_SIZE in
  (fun i => default empty_entry (ring !! Z.to_nat ((start + i) mod KLOG_RING_SIZE))) <$> seqZ 0 count.

(** The first critical section of [klog_flush]: ring, count, head and the sequence
    number the file has reached. *)
Record snapshot := { snap : list klog_entry; s_count : Z; s_head : Z; s_file_seq : Z }.

Definition take_snapshot (k : klog) : snapshot :=
  {| snap := g_ring k; s_count := g_count k; s_head := g_head k; s_file_seq := g_file_seq k |}.

Definition new_entries (s : snapshot) : list klog_entry :=
  filter (fun e => s_file_seq s < seq e) (ring_entries (snap s) (s_head s) (s_count s)).

Fixpoint max_seq (m : Z) (es : list klog_entry) : Z :=
  match es with
  | [] => m
  | e :: es => max_seq (if m <? seq e then seq e else m) es
  end.

(** The part of [klog_flush] between its critical sections: [None] when there is
    nothing new or the file cannot be opened. *)
Definition write_file (fopen : bool) (path : bytes) (s : snapshot) (o : outside) : outside * option Z :=
  let es := new_entries s in
  if zlen es =? 0 then (o, None)
  else if negb fopen then (o, None)
  else (append_file path (file_line <$> es) o, Some (max_seq (s_file_seq s) es)).

(** The second critical section of [klog_flush]. *)
Definition commit_seq (m : Z) (k : klog) : klog :=
  {| g_ring := g_ring k; g_head := g_head k; g_count := g_count k;
     g_console_level := g_console_level k; g_global_seq := g_global_seq k;
     g_file_seq := if g_file_seq k <? m then m else g_file_seq k;
     g_log_path := g_log_path k; g_syslogd := g_syslogd k |}.

Definition klog_flush (fopen : bool) (k : klog) (o : outside) : klog * outside :=
  if g_syslogd k then (k, o)
  else
    match write_file fopen (g_log_path k) (take_snapshot k) o with
    | (o, Some m) => (commit_seq m k, o)
    | (o, None) => (k, o)
    end.

(** Behind the critical section of [klog_write]: the line on the console and the
    message to the daemon. *)
Definition after_record (lvl fac ts : Z) (m : bytes) (p : pending) (o : outside) : outside :=
  let o := if do_print p then put_console (console_line (p_snap p)) o else o in
  if use_syslogd p then put_daemon (ts, u8 lvl, u8 fac, m) o else o.

Definition klog_write (fopen : bool) (lvl fac ts : Z) (text : bytes) (k : klog) (o : outside) : klog * outside :=
  let m := message text in
  let '(k, p) := record_section lvl fac ts m k in
  let o := after_record lvl fac ts m p o in
  if use_syslogd p then (k, o)
  else if do_flush p then klog_flush fopen k o
  else (k, o).

Definition klog_dump (min_level : Z) (k : klog) (o : outside) : outside :=
  let es := filter (fun e => level e <= min_level) (ring_entries (g_ring k) (g_head k) (g_count k)) in
  let o := foldl (fun o e => put_console (console_line e) o) o es in
  if zlen es =? 0 then put_console (newline (str "(no log entries at this level)")) o else o.

Definition klog_clear (k : klog) : klog :=
  {| g_ring := zero_ring; g_head := 0; g_count := 0;
     g_console_level := g_console_level k; g_global_seq := g_global_seq k;
     g_file_seq := g_file_seq k; g_log_path := g_log_path k; g_syslogd := g_syslogd k |}.

Definition klog_set_console_level (lvl : Z) (k : klog) : klog :=
  {| g_ring := g_ring k; g_head := g_head k; g_count := g_count k;
     g_console_level := lvl; g_global_seq := g_global_seq k; g_file_seq := g_file_seq k;
     g_log_path := g_log_path k; g_syslogd := g_syslogd k |}.

Definition klog_count (k : klog) : Z := g_count k.

(** The critical section of [klog_init]; [cap] is whether the environment has a
    capability for the log daemon. *)
Definition init_section (log_path : option bytes) (cap : bool) (k : klog) : klog :=
  {| g_ring := zero_ring; g_head := 0; g_count := 0;
     g_console_level := g_console_level k; g_global_seq := 0; g_file_seq := 0;
     g_log_path := match log_path with
                   | Some p => snprintf_out 256 p
                   | None => g_log_path k
                   end;
     g_syslogd := cap |}.

Definition klog_init (fopen : bool) (log_path : option bytes) (cap : bool) (ts : Z)
    (k : klog) (o : outside) : klog * outside :=
  let k := init_section log_path cap k in
  let arrow := [0x20; 0xe2; 0x86; 0x92; 0x20] in
  let text := str "klog: ring buffer ready (" ++ fmtd KLOG_RING_SIZE ++ str " slots)" ++ arrow ++
              (if g_syslogd k then str "syslogd" else g_log_path k) in
  klog_write fopen KLOG_INFO KLOG_KERN ts text k o.

(** ** Threads

    A thread is between two critical sections of the function it runs. *)
Inductive pc :=
  | Idle
  | Recorded (lvl fac ts : Z) (m : bytes) (p : pending)
  | Flushing
  | Snapped (s : snapshot)
  | Written (m : Z).

Record sys := { vars : klog; out : outside; threads : list pc }.

(** What a step does to the history of the log. *)
Inductive event := E_record (e : klog_entry) | E_clear | E_none.

Inductive step : sys -> event -> sys -> Prop :=
  | step_record i lvl fac ts text k o t :
      t !! i = Some Idle ->
      let r := record_section lvl fac ts (message text) k in
      step {| vars := k; out := o; threads := t |}
           (E_record (p_snap (snd r)))
           {| vars := fst r; out := o; threads := <[i := Recorded lvl fac ts (message text) (snd r)]> t |}
  | step_after i lvl fac ts m p k o t :
      t !! i = Some (Recorded lvl fac ts m p) ->
      step {| vars := k; out := o; threads := t |} E_none
           {| vars := k; out := after_record lvl fac ts m p o;
              threads := <[i := if use_syslogd p then Idle else if do_flush p then Flushing else Idle]> t |}
  | step_flush i k o t :
      t !! i = Some Idle ->
      step {| vars := k; out := o; threads := t |} E_none
           {| vars := k; out := o; threads := <[i := Flushing]> t |}
  | step_snapshot i k o t :
      t !! i = Some Flushing ->
      step {| vars := k; out := o; threads := t |} E_none
           {| vars := k; out := o;
              threads := <[i := if g_syslogd k then Idle else Snapped (take_snapshot k)]> t |}
  | step_file i fopen s k o t :
      t !! i = Some (Snapped s) ->
      let r := write_file fopen (g_log_path k) s o in
      step {| vars := k; out := o; threads := t |} E_none
           {| vars := k; out := fst r;
              threads := <[i := match snd r with Some m => Written m | None => Idle end]> t |}
  | step_commit i m k o t :
      t !! i = Some (Written m) ->
      step {| vars := k; out := o; threads := t |} E_none
           {| vars := commit_seq m k; out := o; threads := <[i := Idle]> t |}
  | step_clear i k o t :
      t !! i = Some Idle ->
      step {| vars := k; out := o; threads := t |} E_clear
           {| vars := klog_clear k; out := o; threads := t |}
  | step_level i lvl k o t :
      t !! i = Some Idle ->
      step {| vars := k; out := o; threads := t |} E_none
           {| vars := klog_set_console_level lvl k; out := o; threads := t |}
  | step_dump i min_level k o t :
      t !! i = Some Idle ->
      step {| vars := k; out := o; threads := t |} E_none
           {| vars := k; out := klog_dump min_level k o; threads := t |}.

Inductive steps : sys -> list event -> sys -> Prop :=
  | steps_nil s : steps s [] s
  | steps_snoc s evs s1 ev s2 : steps s evs s1 -> step s1 ev s2 -> steps s (evs ++ [ev]) s2.

(** All messages, and those since the ring was last cleared. *)
Definition recorded (evs : list event) : list klog_entry :=
  omap (fun ev => match ev with E_record e => Some e | _ => None end) evs.

Definition since_clear (evs : list event) : list klog_entry :=
  foldl (fun h ev => match ev with E_record e => h ++ [e] | E_clear => [] | E_none => h end) [] evs.

Definition retained (k : klog) : list klog_entry := ring_entries (g_ring k) (g_head k) (g_count k).

(** The last [n] elements. *)
Definition lastn {A} (n : nat) (l : list A) : list A := drop (length l - n) l.

(** ** The ring *)

(** The ring after the messages [h]: slot [j mod 256] holds the [j]th of the last
    256. *)
Record ring_of (h : list klog_entry) (k : klog) : Prop := {
  ro_length : length (g_ring k) = Z.to_nat KLOG_RING_SIZE;
  ro_head : g_head k = zlen h mod KLOG_RING_SIZE;
  ro_count : g_count k = Z.min (zlen h) KLOG_RING_SIZE;
  ro_slot j : zlen h - KLOG_RING_SIZE <= j < zlen h -> 0 <= j ->
    g_ring k !! Z.to_nat (j mod KLOG_RING_SIZE) = h !! Z.to_nat j;
}.

Lemma ring_of_retained h k : ring_of h k -> retained k = lastn (Z.to_nat KLOG_RING_SIZE) h.
Proof.
  intros H. unfold retained, ring_entries, lastn. rewrite (ro_head _ _ H), (ro_count _ _ H).
  pose proof (zlen_nonneg h) as Hn. unfold KLOG_RING_SIZE in *. apply list_eq. intros i.
  rewrite list_lookup_fmap, lookup_drop.
  destruct (decide (Z.of_nat i < Z.min (zlen h) 256)) as [Hi|Hi].
  - rewrite lookup_seqZ_lt by lia. cbn [fmap option_fmap option_map].
    replace (_ `mod` 256) with ((zlen h - Z.min (zlen h) 256 + Z.of_nat i) mod 256).
    2: { rewrite Z.add_mod_idemp_l by lia.
         rewrite <- (Z_mod_plus_full (zlen h - _ + _) (1 - zlen h / 256) 256). f_equal.
         pose proof (Z.div_mod (zlen h) 256). lia. }
    rewrite (ro_slot _ _ H) by (unfold KLOG_RING_SIZE; lia).
    replace (Z.to_nat _) with (length h - Z.to_nat 256 + i)%nat by (unfold zlen in *; lia).
    destruct (lookup_lt_is_Some_2 h (length h - Z.to_nat 256 + i)) as [e He]; [unfold zlen in *; lia|].
    by rewrite He.
  - rewrite lookup_seqZ_ge by lia. symmetry. apply lookup_ge_None_2. unfold zlen in *. lia.
Qed.

Lemma ring_of_empty k :
  g_ring k = zero_ring -> g_head k = 0 -> g_count k = 0 -> ring_of [] k.
Proof.
  intros E1 E2 E3. split; [by rewrite E1|done..|]. unfold zlen. cbn. lia.
Qed.

Lemma ring_of_record h k lvl fac ts m :
  ring_of h k -> let r := record_section lvl fac ts m k in ring_of (h ++ [p_snap (snd r)]) (fst r).
Proof.
  intros H r. pose proof (zlen_nonneg h). unfold KLOG_RING_SIZE in *. split; cbn; rewrite ?zlen_app; cbn [zlen length Z.of_nat].
  - rewrite length_insert. apply H.
  - rewrite (ro_head _ _ H). unfold KLOG_RING_SIZE, zlen. cbn. rewrite Z.add_mod_idemp_l by lia. f_equal.
  - rewrite (ro_count _ _ H). unfold KLOG_RING_SIZE, zlen in *. cbn. split_if; lia.
  - intros j Hj Hj0. rewrite (ro_head _ _ H). unfold KLOG_RING_SIZE, zlen in *. cbn in *.
    pose proof (Z.mod_pos_bound (Z.of_nat (length h)) 256 eq_refl) as Hm.
    pose proof (Z.mod_pos_bound j 256 eq_refl) as Hmj.
    destruct (decide (j = Z.of_nat (length h))) as [->|Hne].
    + rewrite Nat2Z.id. rewrite list_lookup_insert_eq by (rewrite (ro_length _ _ H); unfold KLOG_RING_SIZE; lia).
      by rewrite lookup_app_r, Nat.sub_diag by lia.
    + rewrite list_lookup_insert_ne.
      * rewrite lookup_app_l by lia. apply (ro_slot _ _ H); unfold KLOG_RING_SIZE, zlen; lia.
      * intros E. apply (Z2Nat.inj _ _) in E; [|lia..]. 
        assert (j = Z.of_nat (length h)) as ->; [|done]. 
        pose proof (Z.div_mod j 256). pose proof (Z.div_mod (Z.of_nat (length h)) 256). lia.
Qed.

(** ** Invariant of the threads

    [L] are the messages that have been written to the file. *)

Definition log_file (s : sys) : list bytes := default [] (files (out s) !! g_log_path (vars s)).

(** A file sequence number [b] is sound: what is still in the ring and not above
    [b] has been written. *)
Definition covered (L : list klog_entry) (k : klog) (b : Z) : Prop :=
  forall e, e ∈ retained k -> seq e <= b -> e ∈ L.

(** The number a flush that took the snapshot [s] will store. *)
Definition reached (s : snapshot) : Z := max_seq (s_file_seq s) (new_entries s).

Definition pc_ok (evs : list event) (L : list klog_entry) (k : klog) (p : pc) : Prop :=
  match p with
  | Snapped s =>
      covered (new_entries s ++ L) k (reached s) /\ reached s <= g_global_seq k /\
      (forall e, e ∈ new_entries s -> e ∈ recorded evs)
  | Written m => covered L k m /\ m <= g_global_seq k
  | _ => True
  end.

Record inv (base : list bytes) (evs : list event) (L : list klog_entry) (s : sys) : Prop := {
  iv_ring : ring_of (since_clear evs) (vars s);
  iv_seq e : e ∈ since_clear evs -> e ∈ recorded evs /\ seq e <= g_global_seq (vars s);
  iv_gseq : g_global_seq (vars s) = zlen (recorded evs);
  iv_file : log_file s = base ++ (file_line <$> L);
  iv_from e : e ∈ L -> e ∈ recorded evs;
  iv_covered : covered L (vars s) (g_file_seq (vars s));
  iv_fseq : g_file_seq (vars s) <= g_global_seq (vars s);
  iv_threads p : p ∈ threads s -> pc_ok evs L (vars s) p;
}.

Lemma max_seq_spec m es :
  m <= max_seq m es /\ (forall e, e ∈ es -> seq e <= max_seq m es) /\
  forall b, m <= b -> (forall e, e ∈ es -> seq e <= b) -> max_seq m es <= b.
Proof.
  revert m. induction es as [|x es IH]; intros m; cbn.
  - split; [lia|]. split; [set_solver|done].
  - destruct (IH (if m <? seq x then seq x else m)) as (H1 & H2 & H3).
    assert (m <= (if m <? seq x then seq x else m) /\ seq x <= (if m <? seq x then seq x else m)) as [Ha Hb]
      by (split_if; lia).
    split; [lia|]. split.
    + intros e [->|He]%elem_of_cons; [lia|by apply H2].
    + intros b Hm Hes. apply H3; [|set_solver]. split_if; [apply Hes; set_solver|done].
Qed.

Lemma recorded_snoc evs ev :
  recorded (evs ++ [ev]) = recorded evs ++ (match ev with E_record e => [e] | _ => [] end).
Proof. unfold recorded. rewrite omap_app. by destruct ev. Qed.

Lemma since_clear_snoc evs ev :
  since_clear (evs ++ [ev]) =
  match ev with E_record e => since_clear evs ++ [e] | E_clear => [] | E_none => since_clear evs end.
Proof. unfold since_clear. by rewrite foldl_app. Qed.

Lemma elem_of_lastn {A} n (l : list A) x : x ∈ lastn n l -> x ∈ l.
Proof. unfold lastn. intros H. eapply list_elem_of_lookup in H as [i Hi]. rewrite lookup_drop in Hi. by eapply list_elem_of_lookup_2. Qed.

Lemma lastn_snoc {A} n (l : list A) x y : y ∈ lastn n (l ++ [x]) -> y ∈ lastn n l \/ y = x.
Proof.
  unfold lastn. rewrite length_app. cbn. intros [i Hi]%list_elem_of_lookup. rewrite lookup_drop in Hi.
  destruct (decide (length l + 1 - n + i < length l)%nat) as [Hlt|Hge].
  - left. rewrite lookup_app_l in Hi by lia. apply list_elem_of_lookup.
    exists (length l + 1 - n + i - (length l - n))%nat. rewrite lookup_drop. rewrite <- Hi. f_equal. lia.
  - right. rewrite lookup_app_r in Hi by lia. apply list_elem_of_lookup_2, list_elem_of_singleton in Hi. done.
Qed.

Lemma covered_mono L L' k k' b :
  (forall e, e ∈ retained k' -> e ∈ retained k \/ b < seq e) -> (forall e, e ∈ L -> e ∈ L') ->
  covered L k b -> covered L' k' b.
Proof. intros Hr HL H e He Hb. destruct (Hr e He) as [Hin|?]; [|lia]. by apply HL, H. Qed.

(** A step that keeps the log except for new messages and for file entries. *)
Lemma pc_ok_mono evs evs' L L' k k' p :
  (forall e, e ∈ retained k' -> e ∈ retained k \/ g_global_seq k < seq e) -> (forall e, e ∈ L -> e ∈ L') ->
  (forall e, e ∈ recorded evs -> e ∈ recorded evs') -> g_global_seq k <= g_global_seq k' ->
  pc_ok evs L k p -> pc_ok evs' L' k' p.
Proof.
  intros Hr HL He Hg. destruct p as [| | |s|m]; cbn; try done.
  - intros (Hc & Hb & Hs). split; [|split; [lia|naive_solver]].
    eapply covered_mono; [..|exact Hc]; [|set_solver]. intros e [?|?]%Hr; [by left|right; lia].
  - intros [Hc Hb]. split; [|lia]. eapply covered_mono; [..|exact Hc]; [|done].
    intros e [?|?]%Hr; [by left|right; lia].
Qed.

Lemma pcs_ok_insert (P Q : pc -> Prop) (t : list pc) i p :
  (forall q, q ∈ t -> P q) -> (forall q, P q -> Q q) -> Q p -> forall q, q ∈ <[i := p]> t -> Q q.
Proof.
  intros HP HPQ Hp q [j Hj]%list_elem_of_lookup.
  apply list_lookup_insert_Some in Hj as [(_ & <- & _)|[_ Hj]]; [done|].
  by eapply HPQ, HP, list_elem_of_lookup_2.
Qed.

Lemma retained_same k k' :
  g_ring k' = g_ring k -> g_head k' = g_head k -> g_count k' = g_count k -> retained k' = retained k.
Proof. unfold retained. by intros -> -> ->. Qed.

Lemma ring_of_same h k k' :
  g_ring k' = g_ring k -> g_head k' = g_head k -> g_count k' = g_count k -> ring_of h k -> ring_of h k'.
Proof. intros E1 E2 E3 []. split; by rewrite ?E1, ?E2, ?E3. Qed.

(** Steps without a new message that keep ring and path. *)
Lemma inv_quiet base evs L add k o t k' o' t' :
  inv base evs L {| vars := k; out := o; threads := t |} ->
  g_ring k' = g_ring k -> g_head k' = g_head k -> g_count k' = g_count k ->
  g_global_seq k' = g_global_seq k -> g_log_path k' = g_log_path k ->
  default [] (files o' !! g_log_path k) = default [] (files o !! g_log_path k) ++ (file_line <$> add) ->
  (forall e, e ∈ add -> e ∈ recorded evs) ->
  covered (L ++ add) k (g_file_seq k') -> g_file_seq k' <= g_global_seq k ->
  (forall p, p ∈ t' -> pc_ok evs (L ++ add) k p) ->
  inv base (evs ++ [E_none]) (L ++ add) {| vars := k'; out := o'; threads := t' |}.
Proof.
  intros [H1 H2 H3 H4 H5 H6 H7 H8] E1 E2 E3 E4 E5 Ef Ha Hc Hb Ht. unfold log_file in *. cbn in *.
  pose proof (retained_same k k' E1 E2 E3) as Er.
  split; cbn; rewrite ?since_clear_snoc, ?recorded_snoc, ?app_nil_r.
  - by apply (ring_of_same _ k).
  - by rewrite E4.
  - by rewrite E4.
  - unfold log_file. cbn. by rewrite E5, Ef, H4, fmap_app, app_assoc.
  - intros e [?|?]%elem_of_app; auto.
  - intros e. rewrite Er. apply Hc.
  - by rewrite E4.
  - intros p Hp. eapply pc_ok_mono; [..|by apply Ht]; rewrite ?Er, ?recorded_snoc, ?app_nil_r; [by left|done..|lia].
Qed.

Lemma inv_same base evs L k o t k' o' t' :
  inv base evs L {| vars := k; out := o; threads := t |} ->
  g_ring k' = g_ring k -> g_head k' = g_head k -> g_count k' = g_count k ->
  g_global_seq k' = g_global_seq k -> g_log_path k' = g_log_path k -> files o' = files o ->
  covered L k (g_file_seq k') -> g_file_seq k' <= g_global_seq k ->
  (forall p, p ∈ t' -> pc_ok evs L k p) ->
  inv base (evs ++ [E_none]) L {| vars := k'; out := o'; threads := t' |}.
Proof.
  intros. rewrite <- (app_nil_r L). apply (inv_quiet _ _ _ _ k o t); rewrite ?app_nil_r; try done.
  - congruence.
  - intros e He. set_solver.
Qed.

(** What a thread learns from a snapshot and from the file. *)
Lemma snapshot_ok base evs L k o t :
  inv base evs L {| vars := k; out := o; threads := t |} -> pc_ok evs L k (Snapped (take_snapshot k)).
Proof.
  intros [H1 H2 H3 H4 H5 H6 H7 H8]. cbn in *.
  assert (Hn : forall e, e ∈ new_entries (take_snapshot k) <-> g_file_seq k < seq e /\ e ∈ retained k).
  { intros e. unfold new_entries. rewrite list_elem_of_filter. done. }
  assert (Hrec : forall e, e ∈ retained k -> e ∈ recorded evs /\ seq e <= g_global_seq k).
  { intros e He. rewrite (ring_of_retained _ _ H1) in He. by apply H2, (elem_of_lastn _ _ _ He). }
  split; [|split].
  - intros e He _. apply elem_of_app. destruct (decide (g_file_seq k < seq e)); [left; by apply Hn|right; apply H6; [done|lia]].
  - apply max_seq_spec; [done|]. intros e He. by apply Hrec, Hn.
  - intros e He. by apply Hrec, Hn.
Qed.

Lemma append_file_spec path ls o :
  default [] (files (append_file path ls o) !! path) = default [] (files o !! path) ++ ls.
Proof. cbn. by rewrite lookup_insert_eq. Qed.

Lemma files_after lvl fac ts m p o : files (after_record lvl fac ts m p o) = files o.
Proof. unfold after_record. by destruct (do_print p), (use_syslogd p). Qed.

Lemma files_dump lvl k o : files (klog_dump lvl k o) = files o.
Proof.
  unfold klog_dump. set (es := filter _ _).
  assert (H : forall es' o, files (foldl (fun o e => put_console (console_line e) o) o es') = files o).
  { intros es'. induction es' as [|e es' IH]; intros o'; [done|]. cbn. by rewrite IH. }
  split_if; cbn; apply H.
Qed.

Lemma inv_record base evs L k o t i lvl fac ts m :
  inv base evs L {| vars := k; out := o; threads := t |} -> zlen (recorded evs) + 1 < 2 ^ 64 ->
  let r := record_section lvl fac ts m k in
  inv base (evs ++ [E_record (p_snap (snd r))]) L
    {| vars := fst r; out := o; threads := <[i := Recorded lvl fac ts m (snd r)]> t |}.
Proof.
  intros [H1 H2 H3 H4 H5 H6 H7 H8] Hmax r. cbn in H1, H2, H3, H6, H7, H8.
  pose proof (zlen_nonneg (recorded evs)) as Hnn.
  assert (Hg : g_global_seq k +[64] 1 = g_global_seq k + 1) by (apply uwrap_small; unfold in_u; lia).
  assert (Hr : forall e, e ∈ retained (fst r) -> e ∈ retained k \/ g_global_seq k < seq e).
  { intros e. unfold r. rewrite (ring_of_retained _ _ (ring_of_record _ k lvl fac ts m H1)), (ring_of_retained _ _ H1).
    intros [?|Ee]%lastn_snoc; [by left|right]. subst e. cbn. lia. }
  split; cbn [vars out threads].
  - rewrite since_clear_snoc. by apply ring_of_record.
  - intros e. rewrite since_clear_snoc, recorded_snoc. cbn. rewrite Hg.
    intros [He|Ee%list_elem_of_singleton]%elem_of_app; [|subst e; cbn; split; [set_solver|lia]].
    destruct (H2 e He). split; [set_solver|lia].
  - rewrite recorded_snoc, zlen_app. cbn. unfold zlen at 2. cbn. lia.
  - done.
  - intros e He. rewrite recorded_snoc. set_solver.
  - cbn. eapply covered_mono; [..|exact H6]; [|done]. intros e [?|?]%Hr; [by left|right; lia].
  - cbn. lia.
  - apply (pcs_ok_insert (pc_ok evs L k)); [done| |done]. intros q. eapply pc_ok_mono; [done..| |cbn; lia].
    intros e He. rewrite recorded_snoc. set_solver.
Qed.

(** A thread writes its snapshot to the file. *)
Lemma inv_file base evs L k o t i s fopen :
  inv base evs L {| vars := k; out := o; threads := t |} -> t !! i = Some (Snapped s) ->
  let r := write_file fopen (g_log_path k) s o in
  exists add,
    inv base (evs ++ [E_none]) (L ++ add)
      {| vars := k; out := fst r; threads := <[i := match snd r with Some m => Written m | None => Idle end]> t |} /\
    add = match snd r with Some _ => new_entries s | None => [] end.
Proof.
  intros H Hi. pose proof (iv_threads _ _ _ _ H _ (list_elem_of_lookup_2 _ _ _ Hi)) as (Hc & Hb & Hs).
  pose proof (iv_covered _ _ _ _ H) as Hcov. pose proof (iv_fseq _ _ _ _ H) as Hf.
  pose proof (iv_threads _ _ _ _ H) as Ht. cbn in Hc, Hb, Hs, Hcov, Hf, Ht.
  unfold write_file. destruct (zlen (new_entries s) =? 0); [|destruct fopen]; cbn.
  - exists []. rewrite app_nil_r. split; [|done]. apply (inv_same _ _ _ k o t); try done.
    by apply (pcs_ok_insert (pc_ok evs L k)).
  - exists (new_entries s). split; [|done]. apply (inv_quiet _ _ _ _ k o t); try done.
    + by apply append_file_spec.
    + intros e He Hl. apply elem_of_app. left. by apply Hcov.
    + apply (pcs_ok_insert (pc_ok evs L k)); [done| |].
      * intros q. apply pc_ok_mono; [by left|set_solver|done|lia].
      * cbn. split; [|done]. intros e He Hl. specialize (Hc e He Hl). set_solver.
  - exists []. rewrite app_nil_r. split; [|done]. apply (inv_same _ _ _ k o t); try done.
    by apply (pcs_ok_insert (pc_ok evs L k)).
Qed.

Lemma inv_clear base evs L k o t :
  inv base evs L {| vars := k; out := o; threads := t |} ->
  inv base (evs ++ [E_clear]) L {| vars := klog_clear k; out := o; threads := t |}.
Proof.
  intros [H1 H2 H3 H4 H5 H6 H7 H8]. cbn in *.
  assert (Hr : retained (klog_clear k) = []) by done.
  split; cbn; rewrite ?since_clear_snoc, ?recorded_snoc, ?app_nil_r; try done.
  - by apply ring_of_empty.
  - intros e He. set_solver.
  - intros e He. rewrite Hr in He. set_solver.
  - intros p Hp. eapply pc_ok_mono; [..|by apply H8]; rewrite ?Hr, ?recorded_snoc, ?app_nil_r; try done.
    intros e He. set_solver.
Qed.

Lemma inv_step base evs L s ev s' :
  inv base evs L s -> step s ev s' -> zlen (recorded (evs ++ [ev])) < 2 ^ 64 ->
  exists add, inv base (evs ++ [ev]) (L ++ add) s'.
Proof.
  intros H Hs Hmax. pose proof (iv_covered _ _ _ _ H) as Hcov. pose proof (iv_fseq _ _ _ _ H) as Hf.
  pose proof (iv_threads _ _ _ _ H) as Ht. 
  destruct Hs as [i lvl fac ts text k o t Hi r|i lvl fac ts m p k o t Hi|i k o t Hi|i k o t Hi
    |i fopen sn k o t Hi r|i m k o t Hi|i k o t Hi|i lvl k o t Hi|i lvl k o t Hi]; cbn in Hcov, Hf, Ht.
  - exists []. rewrite app_nil_r. apply inv_record; [done|].
    rewrite recorded_snoc, zlen_app in Hmax. unfold zlen at 2 in Hmax. cbn in Hmax. lia.
  - exists []. rewrite app_nil_r. apply (inv_same _ _ _ k o t); rewrite ?files_after; try done.
    apply (pcs_ok_insert (pc_ok evs L k)); [done..|]. by destruct (use_syslogd p), (do_flush p).
  - exists []. rewrite app_nil_r. apply (inv_same _ _ _ k o t); try done.
    by apply (pcs_ok_insert (pc_ok evs L k)).
  - exists []. rewrite app_nil_r. apply (inv_same _ _ _ k o t); try done.
    apply (pcs_ok_insert (pc_ok evs L k)); [done..|]. destruct (g_syslogd k); [done|]. by eapply snapshot_ok.
  - destruct (inv_file _ _ _ _ _ _ _ _ fopen H Hi) as (add & Hadd & _). by exists add.
  - destruct (Ht _ (list_elem_of_lookup_2 _ _ _ Hi)) as [Hc Hb].
    exists []. rewrite app_nil_r. apply (inv_same _ _ _ k o t); try done; cbn.
    + by split_if.
    + split_if; lia.
    + by apply (pcs_ok_insert (pc_ok evs L k)).
  - exists []. rewrite app_nil_r. by apply inv_clear.
  - exists []. rewrite app_nil_r. by apply (inv_same _ _ _ k o t).
  - exists []. rewrite app_nil_r. by apply (inv_same _ _ _ k o t); rewrite ?files_dump.
Qed.

(** The system after [klog_init], all threads outside of the log. *)
Definition start (path : option bytes) (cap : bool) (k : klog) (o : outside) (n : nat) : sys :=
  {| vars := init_section path cap k; out := o; threads := replicate n Idle |}.

Lemma inv_start path cap k o n : inv (log_file (start path cap k o n)) [] [] (start path cap k o n).
Proof.
  split; cbn; try done.
  - by apply ring_of_empty.
  - intros e He. set_solver.
  - by rewrite app_nil_r.
  - intros e He. set_solver.
  - intros p Hp. apply elem_of_replicate in Hp as [-> _]. done.
Qed.

Lemma steps_inv path cap k o n evs s :
  steps (start path cap k o n) evs s -> zlen (recorded evs) < 2 ^ 64 ->
  exists L, inv (log_file (start path cap k o n)) evs L s.
Proof.
  remember (start path cap k o n) as s0 eqn:E. intros H. induction H as [s|s evs s1 ev s2 H IH Hs]; intros Hmax.
  - subst s. exists []. apply inv_start.
  - destruct (IH E) as [L HL].
    { rewrite recorded_snoc, zlen_app in Hmax. pose proof (zlen_nonneg (match ev with E_record e => [e] | _ => [] end)). lia. }
    destruct (inv_step _ _ _ _ _ _ HL Hs Hmax) as [add Hadd]. by exists (L ++ add).
Qed.


(** ** One thread *)

Inductive op :=
  | O_write (fopen : bool) (lvl fac ts : Z) (text : bytes)
  | O_flush (fopen : bool)
  | O_clear
  | O_level (lvl : Z)
  | O_dump (min_level : Z).

Definition klog_op (s : klog * outside) (c : op) : klog * outside :=
  let '(k, o) := s in
  match c with
  | O_write fopen lvl fac ts text => klog_write fopen lvl fac ts text k o
  | O_flush fopen => klog_flush fopen k o
  | O_clear => (klog_clear k, o)
  | O_level lvl => (klog_set_console_level lvl k, o)
  | O_dump lvl => (k, klog_dump lvl k o)
  end.

Definition klog_run (ops : list op) (s : klog * outside) : klog * outside := foldl klog_op s ops.

(** The messages and clears of a sequence of calls; messages are numbered from
    [n + 1]. *)
Fixpoint events (n : Z) (ops : list op) : list event :=
  match ops with
  | [] => []
  | O_write _ lvl fac ts text :: ops =>
      E_record {| ts_us := ts; seq := n + 1; level := lvl; facility := fac; msg := message text |} :: events (n + 1) ops
  | O_clear :: ops => E_clear :: events n ops
  | _ :: ops => events n ops
  end.

(** The flush of one thread as steps, and a whole call. *)
Lemma flush_steps fopen k o :
  exists evs, Forall (eq E_none) evs /\
    steps {| vars := k; out := o; threads := [Flushing] |} evs
          {| vars := fst (klog_flush fopen k o); out := snd (klog_flush fopen k o); threads := [Idle] |}.
Proof.
  unfold klog_flush. pose proof (step_snapshot 0 k o [Flushing] eq_refl) as H1.
  destruct (g_syslogd k) eqn:Es; cbn in H1.
  - exists ([] ++ [E_none]). split; [by repeat constructor|]. eapply steps_snoc; [constructor|exact H1].
  - pose proof (step_file 0 fopen _ k o [Snapped (take_snapshot k)] eq_refl) as H2. cbv zeta in H2.
    destruct (write_file fopen (g_log_path k) (take_snapshot k) o) as [o' [m|]]; cbn in H2 |- *.
    + exists ((([] ++ [E_none]) ++ [E_none]) ++ [E_none]). split; [by repeat constructor|].
      eapply steps_snoc; [eapply steps_snoc; [eapply steps_snoc; [constructor|exact H1]|exact H2]|].
      exact (step_commit 0 m k o' [Written m] eq_refl).
    + exists (([] ++ [E_none]) ++ [E_none]). split; [by repeat constructor|].
      eapply steps_snoc; [eapply steps_snoc; [constructor|exact H1]|exact H2].
Qed.

Lemma steps_app s evs s1 evs' s2 : steps s evs s1 -> steps s1 evs' s2 -> steps s (evs ++ evs') s2.
Proof.
  intros H1 H2. induction H2 as [|? ? ? ? ? _ IH Hs]; [by rewrite app_nil_r|].
  rewrite app_assoc. eapply steps_snoc; [by apply IH|done].
Qed.

Lemma step_one s ev s' : step s ev s' -> steps s [ev] s'.
Proof. intros H. apply (steps_snoc _ [] s); [constructor|done]. Qed.

Lemma klog_op_steps k o c :
  exists evs, steps {| vars := k; out := o; threads := [Idle] |} evs
    {| vars := fst (klog_op (k, o) c); out := snd (klog_op (k, o) c); threads := [Idle] |}.
Proof.
  destruct c as [fopen lvl fac ts text|fopen| |lvl|lvl]; cbn [klog_op].
  - pose proof (step_record 0 lvl fac ts text k o [Idle] eq_refl) as H1. unfold klog_write.
    destruct (record_section lvl fac ts (message text) k) as [k1 p]. cbn in H1.
    pose proof (step_after 0 lvl fac ts (message text) p k1 o [Recorded lvl fac ts (message text) p] eq_refl) as H2.
    destruct (use_syslogd p); [|destruct (do_flush p)]; cbn in H2; cbn [fst snd].
    + eexists. eapply steps_snoc; [by apply step_one|done].
    + destruct (flush_steps fopen k1 (after_record lvl fac ts (message text) p o)) as (evs & _ & H3).
      eexists. eapply steps_app; [eapply steps_snoc; [by apply step_one|done]|exact H3].
    + eexists. eapply steps_snoc; [by apply step_one|done].
  - destruct (flush_steps fopen k o) as (evs & _ & H). exists ([E_none] ++ evs). eapply steps_app; [|exact H].
    apply step_one. exact (step_flush 0 k o [Idle] eq_refl).
  - eexists. apply step_one. exact (step_clear 0 k o [Idle] eq_refl).
  - eexists. apply step_one. exact (step_level 0 lvl k o [Idle] eq_refl).
  - eexists. apply step_one. exact (step_dump 0 lvl k o [Idle] eq_refl).
Qed.

(** Without other threads what is written is in order and ends at the file's
    number. *)
Abbreviation increasing := (StronglySorted (fun a b => seq a < seq b)).

Record alone (base : list bytes) (evs : list event) (L : list klog_entry) (s : klog * outside) : Prop := {
  al_inv : inv base evs L {| vars := fst s; out := snd s; threads := [] |};
  al_ring : increasing (since_clear evs);
  al_sorted : increasing L;
  al_bound e : e ∈ L -> seq e <= g_file_seq (fst s);
}.

Lemma increasing_app l1 l2 :
  increasing l1 -> increasing l2 -> (forall a b, a ∈ l1 -> b ∈ l2 -> seq a < seq b) -> increasing (l1 ++ l2).
Proof.
  intros H1 H2 H. induction H1 as [|a l1 H1 IH Ha]; [done|]. cbn. constructor.
  - apply IH. intros x y Hx. apply H. set_solver.
  - apply Forall_app. split; [done|]. apply list.Forall_forall. intros b Hb. apply H; [by left|done].
Qed.

Lemma increasing_drop n l : increasing l -> increasing (drop n l).
Proof.
  revert l. induction n as [|n IH]; intros l H; [done|]. destruct H; [constructor|]. by apply IH.
Qed.

Lemma increasing_filter (P : klog_entry -> Prop) `{!forall e, Decision (P e)} l :
  increasing l -> increasing (filter P l).
Proof.
  induction 1 as [|a l Hl IH Ha]; [constructor|]. rewrite filter_cons. destruct (decide (P a)); [|done].
  constructor; [done|]. rewrite list.Forall_forall in Ha |- *. intros b Hb. apply Ha.
  by apply list_elem_of_filter in Hb as [_ Hb].
Qed.

Lemma inv_ext base evs evs' L s :
  recorded evs' = recorded evs -> since_clear evs' = since_clear evs -> inv base evs L s -> threads s = [] ->
  inv base evs' L s.
Proof.
  intros E1 E2 [] Et. split; rewrite ?E1, ?E2; try done. rewrite Et. intros p Hp. set_solver.
Qed.

Lemma inv_alone base evs L k o t :
  inv base evs L {| vars := k; out := o; threads := t |} -> inv base evs L {| vars := k; out := o; threads := [] |}.
Proof. intros []. split; try done. intros p Hp. set_solver. Qed.

(** After a flush that could open the file nothing in the ring is left to write. *)
Lemma flush_alone base evs L k o fopen :
  alone base evs L (k, o) ->
  let s := klog_flush fopen k o in
  exists add, alone base evs (L ++ add) s /\ retained (fst s) = retained k /\
    (fopen = true -> g_syslogd k = false -> forall e, e ∈ retained k -> seq e <= g_file_seq (fst s)).
Proof.
  intros [Hi Hr Hs Hb]. cbn in Hi, Hb. unfold klog_flush.
  assert (Hn : forall e, e ∈ new_entries (take_snapshot k) <-> g_file_seq k < seq e /\ e ∈ retained k).
  { intros e. unfold new_entries. rewrite list_elem_of_filter. done. }
  destruct (g_syslogd k); cbv zeta.
  { exists []. rewrite app_nil_r. by split. }
  pose proof (snapshot_ok _ _ _ _ _ _ Hi) as (Hc & Hm & Hrec). fold (reached (take_snapshot k)) in Hm.
  unfold write_file. destruct (zlen (new_entries (take_snapshot k)) =? 0) eqn:Ez; [|destruct fopen]; cbn.
  - exists []. rewrite app_nil_r. split; [by split|]. split; [done|]. intros _ _ e He.
    destruct (decide (g_file_seq k < seq e)) as [Hlt|]; [|lia]. exfalso.
    apply Z.eqb_eq in Ez. unfold zlen in Ez. destruct (new_entries (take_snapshot k)) as [|x l] eqn:El; [|cbn in Ez; lia].
    assert (e ∈ []) as Hnil by (by apply Hn). set_solver.
  - set (es := new_entries (take_snapshot k)) in *.
    destruct (max_seq_spec (g_file_seq k) es) as (M1 & M2 & _). change (max_seq (s_file_seq _) _) with (max_seq (g_file_seq k) es).
    change (reached (take_snapshot k)) with (max_seq (g_file_seq k) es) in *.
    exists es. split; [split; cbn|split; [done|]].
    + apply (inv_ext _ (evs ++ [E_none])); [by rewrite recorded_snoc, app_nil_r|by rewrite since_clear_snoc| |done].
      apply (inv_quiet _ _ _ _ k o []); try done; cbn.
      * by rewrite lookup_insert_eq.
      * intros e He Hle. assert (e ∈ es ++ L); [|set_solver]. apply Hc; [done|]. revert Hle. split_if; lia.
      * split_if; lia.
      * intros p Hp. set_solver.
    + done.
    + apply increasing_app; [done| |].
      * apply increasing_filter. change (ring_entries _ _ _) with (retained k).
        rewrite (ring_of_retained (since_clear evs) k (iv_ring _ _ _ _ Hi)). by apply increasing_drop.
      * intros a b Ha%Hb Hlt%Hn. lia.
    + intros e [He%Hb|He%M2]%elem_of_app; split_if; lia.
    + intros _ _ e He. destruct (decide (g_file_seq k < seq e)); [|split_if; lia].
      assert (seq e <= max_seq (g_file_seq k) es) by (by apply M2, Hn). split_if; lia.
  - exists []. rewrite app_nil_r. by split.
Qed.

Lemma op_alone base evs L s c n :
  alone base evs L s -> n = zlen (recorded evs) -> n + 1 < 2 ^ 64 ->
  exists add, alone base (evs ++ events n [c]) (L ++ add) (klog_op s c) /\
    (c = O_flush true -> g_syslogd (fst s) = false -> forall e, e ∈ retained (fst (klog_op s c)) -> e ∈ L ++ add).
Proof.
  intros H Hn Hmax. destruct s as [k o]. destruct c as [fopen lvl fac ts text|fopen| |lvl|lvl]; cbn [klog_op events].
  - destruct H as [Hi Hr Hs Hb]. cbn in Hi, Hb.
    pose proof (inv_alone _ _ _ _ _ _ (inv_record _ _ _ _ _ _ 0 lvl fac ts (message text) Hi ltac:(lia))) as Hrec.
    assert (Hg : g_global_seq k +[64] 1 = n + 1).
    { pose proof (iv_gseq _ _ _ _ Hi) as Hgs. cbn in Hgs. rewrite Hgs, <- Hn. apply uwrap_small. pose proof (zlen_nonneg (recorded evs)). unfold in_u. lia. }
    unfold klog_write. cbn [record_section fst snd p_snap] in Hrec. rewrite Hg in Hrec.
    set (e := {| ts_us := ts; seq := n + 1; level := lvl; facility := fac; msg := message text |}) in *.
    cbn [record_section use_syslogd do_flush]. set (p := {| p_snap := _; do_print := _ |}).
    set (o1 := after_record lvl fac ts (message text) p o). rewrite Hg.
    match type of Hrec with inv _ _ _ {| vars := ?k1; out := _; threads := _ |} => set (k1' := k1) in * end.
    assert (Ha : alone base (evs ++ [E_record e]) L (k1', o1)).
    { split; cbn; [|rewrite since_clear_snoc|done|done].
      - destruct Hrec. split; try done. unfold log_file. cbn. unfold o1. by rewrite files_after.
      - apply increasing_app; [done|by repeat constructor|]. intros a b Ha ->%list_elem_of_singleton. cbn.
        destruct (iv_seq _ _ _ _ Hi a Ha) as [_ Hle]. pose proof (iv_gseq _ _ _ _ Hi) as Hgs. cbn in Hle, Hgs. lia. }
    destruct (g_syslogd k) eqn:Esys; [|destruct ((lvl <=? KLOG_WARN) && negb false)].
    + exists []. rewrite app_nil_r. split; [exact Ha|done].
    + destruct (flush_alone _ _ _ _ _ fopen Ha) as (add & Hadd & _). by exists add.
    + exists []. rewrite app_nil_r. split; [exact Ha|done].
  - destruct (flush_alone _ _ _ _ _ fopen H) as (add & Hadd & Hret & Hall). exists add. rewrite app_nil_r.
    split; [done|]. cbn. intros [= ->] Hsys e He. apply (iv_covered _ _ _ _ (al_inv _ _ _ _ Hadd)); [done|].
    cbn. apply Hall; [done..|]. by rewrite <- Hret.
  - exists []. rewrite app_nil_r. split; [|done]. destruct H as [Hi Hr Hs Hb]. split; cbn; try done.
    + by apply inv_clear.
    + rewrite since_clear_snoc. constructor.
  - exists []. rewrite !app_nil_r. split; [|done]. destruct H as [Hi Hr Hs Hb]. split; try done. cbn in *.
    apply (inv_ext _ (evs ++ [E_none])); [by rewrite recorded_snoc, app_nil_r|by rewrite since_clear_snoc| |done].
    apply (inv_same _ _ _ k o []); [done..|apply Hi|apply Hi|]. intros p Hp. set_solver.
  - exists []. rewrite !app_nil_r. split; [|done]. destruct H as [Hi Hr Hs Hb]. split; try done. cbn in *.
    destruct Hi. split; try done. unfold log_file in *. cbn. by rewrite files_dump.
Qed.

Lemma run_alone base evs L s ops n :
  alone base evs L s -> n = zlen (recorded evs) -> n + zlen ops < 2 ^ 64 ->
  exists add, alone base (evs ++ events n ops) (L ++ add) (klog_run ops s).
Proof.
  revert evs L s n. induction ops as [|c ops IH]; intros evs L s n H Hn Hmax.
  - exists []. cbn. by rewrite !app_nil_r.
  - rewrite zlen_cons in Hmax. pose proof (zlen_nonneg ops).
    destruct (op_alone _ _ _ _ c n H Hn ltac:(lia)) as (add & Ha & _).
    set (n' := zlen (recorded (evs ++ events n [c]))).
    assert (events n (c :: ops) = events n [c] ++ events n' ops /\ n' <= n + 1) as [En Hle].
    { unfold n'. destruct c; cbn [events app]; rewrite ?recorded_snoc, ?app_nil_r, ?zlen_app, <- ?Hn;
        rewrite ?zlen_cons; change (zlen []) with 0; rewrite ?Z.add_0_r; by split; [|lia]. }
    destruct (IH _ _ _ n' Ha eq_refl ltac:(lia)) as (add' & Ha').
    exists (add ++ add'). rewrite En, !app_assoc. exact Ha'.
Qed.

Lemma recorded_events n ops : zlen (recorded (events n ops)) <= zlen ops.
Proof.
  revert n. induction ops as [|c ops IH]; intros n; [done|]. rewrite zlen_cons.
  destruct c; cbn [events recorded omap list_omap]; rewrite ?zlen_cons; fold (recorded (events n ops));
    [|specialize (IH n); lia..].
  specialize (IH (n + 1)). unfold recorded in IH. unfold mbind in *. lia.
Qed.

Lemma syslogd_run ops s : g_syslogd (fst (klog_run ops s)) = g_syslogd (fst s).
Proof.
  revert s. induction ops as [|c ops IH]; intros s; [done|].
  change (klog_run (c :: ops) s) with (klog_run ops (klog_op s c)). rewrite IH.
  destruct s as [k o], c as [fopen lvl fac ts text|fopen| |lvl|lvl]; cbn; try done.
  - unfold klog_write. cbn. destruct (g_syslogd k) eqn:E; [done|]. split_if; [|done].
    unfold klog_flush. cbn [g_syslogd g_log_path]. by destruct (write_file _ _ _ _) as [? [?|]].
  - unfold klog_flush. destruct (g_syslogd k) eqn:E; [done|]. by destruct (write_file _ _ _ _) as [? [?|]].
Qed.

(** C25. The log of one thread: after any sequence of calls the ring holds the last 256
    messages since it was cleared; the file has grown by messages that were
    logged, each at most once and in the order they were logged; and when a flush
    can open the file, every message that is still in the ring is in the file. *)
Theorem klog_once path k o ops :
  zlen ops < 2 ^ 64 - 1 ->
  let s0 := (init_section path false k, o) in
  let s := klog_run (ops ++ [O_flush true]) s0 in
  let file s := default [] (files (snd s) !! g_log_path (fst s)) in
  retained (fst s) = lastn (Z.to_nat KLOG_RING_SIZE) (since_clear (events 0 ops)) /\
  exists L,
    file s = file s0 ++ (file_line <$> L) /\
    increasing L /\
    (forall e, e ∈ L -> e ∈ recorded (events 0 ops)) /\
    (forall e, e ∈ retained (fst s) -> e ∈ L).
Proof.
  intros Hmax s0 s file.
  assert (H0 : alone (file s0) [] [] s0).
  { split; [|constructor..|intros e He; set_solver]. apply (inv_alone _ _ _ _ _ [Idle]), (inv_start path false k o 1). }
  destruct (run_alone _ _ _ _ ops 0 H0 eq_refl ltac:(lia)) as (L & H1). rewrite !app_nil_l in H1.
  set (n := zlen (recorded (events 0 ops))).
  destruct (op_alone _ _ _ _ (O_flush true) n H1 eq_refl) as (add & H2 & Hall).
  { pose proof (recorded_events 0 ops). unfold n. lia. }
  cbn [events] in H2. rewrite app_nil_r in H2.
  assert (Es : s = klog_op (klog_run ops s0) (O_flush true)) by (unfold s, klog_run; by rewrite foldl_app).
  rewrite <- Es in *. destruct H2 as [Hi Hr Hs Hb]. 
  split; [apply ring_of_retained, Hi|]. exists (L ++ add). split; [apply Hi|]. split; [done|].
  split; [apply Hi|]. apply Hall; [done|]. by rewrite syslogd_run.
Qed.

(** ** Examples *)

Module Klog_example.

Definition quiet : outside := {| console := []; daemon := []; files := ∅ |}.

Definition two : sys := start None false klog_static quiet 2.

(** One thread logs an error. *)
Lemma two_error :
  exists evs s, steps two evs s /\ zlen (recorded evs) = 1 /\ threads s = [Flushing; Idle] /\
    g_file_seq (vars s) = 0 /\ map seq (retained (vars s)) = [1] /\ log_file s = [].
Proof.
  eexists _, _. split.
  { eapply steps_snoc; [eapply steps_snoc; [apply steps_nil|]|].
    - apply (step_record 0 KLOG_ERR KLOG_KERN 42 (str "disk on fire")). reflexivity.
    - eapply (step_after 0). reflexivity. }
  repeat split; vm_compute; reflexivity.
Qed.

(** Two threads flush at the same time: both take the same snapshot, and the
    message is in the file twice. *)
Example concurrent_flush_duplicates :
  exists evs s line, steps two evs s /\ zlen (recorded evs) = 1 /\ log_file s = [line; line].
Proof.
  eexists _, _, _. split.
  { eapply steps_snoc; [eapply steps_snoc; [eapply steps_snoc; [eapply steps_snoc; [eapply steps_snoc;
      [eapply steps_snoc; [eapply steps_snoc; [apply steps_nil|]|]|]|]|]|]|].
    - apply (step_record 0 KLOG_ERR KLOG_KERN 42 (str "disk on fire")). reflexivity.
    - eapply (step_after 0). reflexivity.
    - eapply (step_flush 1). reflexivity.
    - eapply (step_snapshot 0). reflexivity.
    - eapply (step_snapshot 1). reflexivity.
    - eapply (step_file 0 true). reflexivity.
    - eapply (step_file 1 true). reflexivity. }
  split; vm_compute; reflexivity.
Qed.

Definition calls : list op :=
  [O_write false KLOG_INFO KLOG_KERN 1 (str "hello"); O_write false KLOG_WARN 2 2 (str "careful");
   O_clear; O_write true KLOG_ERR 1 3 (str "late")].

Lemma klog_once_witness :
  let s := klog_run (calls ++ [O_flush true]) (init_section None false klog_static, quiet) in
  map msg (retained (fst s)) = [str "late"] /\
  exists L, increasing L /\ default [] (files (snd s) !! KLOG_FILE_PATH) = file_line <$> L /\
    forall e, e ∈ retained (fst s) -> e ∈ L.
Proof.
  destruct (klog_once None klog_static quiet calls) as (Hr & L & HL & Hi & _ & Hall); [reflexivity|].
  split; [vm_compute; reflexivity|]. exists L. split; [exact Hi|]. split; [exact HL|exact Hall].
Defined.


End Klog_example.
