(* ===== verification/Syslogd.v ===== *)
(** * The log daemon

    [src/pkg/syslogd/server/src/main.cc]: messages of all processes are formatted
    and appended to one file, which is closed and opened again after about 3000
    bytes and after every warning or error.  A stream keeps what was written to it
    apart from what has reached the file: [fclose] is the point where all of it is
    in the file.  Whether the file can be opened is a sequence of answers, one for
    each call of [fopen]. *)

From S2P Require Import Prelude Klog.

Definition REOPEN_BYTES : Z := 3000.

(** The stream [_f] (its unwritten part, or none), [_written], the content of the
    file and the answers of [fopen] to come. *)
Record syslogd := {
  sd_f : option bytes;
  sd_written : Z;
  sd_file : bytes;
  sd_fopen : list bool;
}.

Definition sd_new (file : bytes) (answers : list bool) : syslogd :=
  {| sd_f := None; sd_written := 0; sd_file := file; sd_fopen := answers |}.

(** A call of [fopen]; an exhausted list of answers means that it fails. *)
Definition open_file (s : syslogd) : syslogd :=
  {| sd_f := if default false (head (sd_fopen s)) then Some [] else None;
     sd_written := sd_written s; sd_file := sd_file s; sd_fopen := tail (sd_fopen s) |}.

Definition close_file (s : syslogd) : syslogd :=
  match sd_f s with
  | Some buf => {| sd_f := None; sd_written := sd_written s; sd_file := sd_file s ++ buf; sd_fopen := sd_fopen s |}
  | None => s
  end.

Definition reopen (s : syslogd) : syslogd :=
  let s := close_file s in
  open_file {| sd_f := sd_f s; sd_written := 0; sd_file := sd_file s; sd_fopen := sd_fopen s |}.

(** The output of [snprintf] before it is cut to the size of the buffer. *)
Definition sd_line (ts lvl fac : Z) (m : bytes) : bytes :=
  fmt_stamp ts ++ level_str lvl ++ str " " ++ fac_str fac ++ str ": " ++ cstr m ++ [10].

Definition put_line (line : bytes) (s : syslogd) : syslogd :=
  let n := zlen line in
  if (0 <? n) && (n <? 320) then
    {| sd_f := (fun buf => buf ++ line) <$> sd_f s; sd_written := sd_written s +[32] n;
       sd_file := sd_file s; sd_fopen := sd_fopen s |}
  else s.

Definition op_log (ts lvl fac : Z) (m : bytes) (s : syslogd) : syslogd * l4_ret :=
  let s := if REOPEN_BYTES <=? sd_written s then reopen s else s in
  let s := match sd_f s with None => open_file s | Some _ => s end in
  match sd_f s with
  | None => (s, Err EIO)
  | Some _ =>
      let s := put_line (sd_line ts lvl fac m) s in
      let s := if lvl <=? 4 then reopen s else s in
      (s, Ok)
  end.

(** ** Lines *)

(** What the file has or will have once the stream is closed. *)
Definition sd_content (s : syslogd) : bytes := sd_file s ++ default [] (sd_f s).

(** The messages of a process that logs through the daemon. *)
Definition no_nul (s : bytes) : Prop := Forall (fun c => c <> 0) s.

(** Lengths of string literals. *)
Ltac lit_len :=
  repeat match goal with
  | |- context [length (str ?s)] =>
      let n := eval vm_compute in (length (str s)) in change (length (str s)) with n
  end.

Lemma length_level lvl : length (level_str lvl) = 5%nat.
Proof.
  unfold level_str. destruct ((0 <=? lvl) && (lvl <=? 7)) eqn:E; [|done].
  assert (Hl : lvl ∈ seqZ 0 8) by (apply elem_of_seqZ; lia). clear E. revert lvl Hl.
  apply (list.Forall_forall (fun x => length (default [] (_ !! Z.to_nat x)) = 5%nat)). by repeat constructor.
Qed.

Lemma length_fac fac : length (fac_str fac) = 5%nat.
Proof.
  unfold fac_str. destruct ((0 <=? fac) && (fac <=? 7)) eqn:E; [|done].
  assert (Hl : fac ∈ seqZ 0 8) by (apply elem_of_seqZ; lia). clear E. revert fac Hl.
  apply (list.Forall_forall (fun x => length (default [] (_ !! Z.to_nat x)) = 5%nat)). by repeat constructor.
Qed.

Lemma length_stamp ts : in_u 64 ts -> (length (fmt_stamp ts) <= 24)%nat.
Proof.
  intros [H1 H2]. unfold fmt_stamp. rewrite !length_app. lit_len.
  assert (length (fmtu 32 5 (ts / 1000000)) <= 14)%nat.
  { apply length_fmtu; [|lia]. apply length_fmtd; [|lia].
    split; [by apply Z.div_pos|]. apply Z.div_lt_upper_bound; [done|]. eapply Z.lt_le_trans; [exact H2|vm_compute; discriminate]. }
  assert (length (fmtu 48 6 (ts mod 1000000)) <= 6)%nat.
  { apply length_fmtu; [|lia]. apply length_fmtd; [|lia]. by apply Z.mod_pos_bound. }
  lia.
Qed.

Lemma level_u8 lvl : 0 <= lvl < 256 -> u8 lvl = lvl.
Proof. intros H. by apply uwrap_small. Qed.

(** A message the log library sends gives the line the library would have written
    itself, and it fits the daemon's buffer. *)
Lemma daemon_line e :
  in_u 64 (ts_us e) -> 0 <= level e < 256 -> 0 <= facility e < 256 ->
  no_nul (msg e) -> (length (msg e) <= 199)%nat ->
  sd_line (ts_us e) (u8 (level e)) (u8 (facility e)) (msg e) = file_line e /\ 0 < zlen (file_line e) < 320.
Proof.
  intros Ht Hl Hf Hm Hn. rewrite !level_u8 by done. unfold sd_line, file_line, newline, fmt_entry_file, snprintf_out.
  rewrite (cstr_id _ Hm). pose proof (length_stamp _ Ht) as Hs.
  rewrite firstn_all2 by (rewrite !length_app, length_level, length_fac; lit_len; lia).
  split; [by rewrite <- !app_assoc|]. unfold zlen. rewrite !length_app, length_level, length_fac. lit_len. cbn [length]. lia.
Qed.

(** ** The daemon *)

(** The stream's unwritten part is what [_written] counts, and the file is opened
    again before it grows past the limit. *)
Record sd_inv (s : syslogd) : Prop := {
  si_written : sd_written s = zlen (default [] (sd_f s));
  si_range : 0 <= sd_written s < REOPEN_BYTES + 320;
}.

Lemma open_content s : sd_f s = None -> sd_content (open_file s) = sd_content s.
Proof. unfold sd_content. intros ->. cbn. by destruct (default false _). Qed.

Lemma reopen_spec s :
  sd_content (reopen s) = sd_content s /\ sd_file (reopen s) = sd_content s /\ sd_inv (reopen s).
Proof.
  unfold reopen, close_file, sd_content. destruct (sd_f s) as [buf|]; cbn; destruct (default false (list.head _)); cbn;
    rewrite ?app_nil_r; repeat split; cbn; try done; by destruct (default false _).
Qed.

Lemma put_line_spec line s buf :
  sd_inv s -> sd_f s = Some buf -> sd_written s < REOPEN_BYTES ->
  let s' := put_line line s in
  sd_inv s' /\ sd_f s' <> None /\
  sd_content s' = sd_content s ++ (if zlen line <? 320 then line else []).
Proof.
  intros H Hf Hw. unfold put_line. pose proof (zlen_nonneg line). pose proof (si_range _ H).
  destruct (0 <? zlen line) eqn:E0; cbn [andb].
  - destruct (zlen line <? 320) eqn:E1; cbv zeta.
    + assert (Hu : sd_written s +[32] zlen line = sd_written s + zlen line).
      { apply uwrap_small. unfold REOPEN_BYTES in *. split; [lia|]. cbn. lia. }
      split; [|split].
      * split; cbn; rewrite Hu, ?Hf; [|unfold REOPEN_BYTES in *; lia]. cbn.
        by rewrite zlen_app, (si_written _ H), Hf.
      * by rewrite Hf.
      * unfold sd_content. rewrite Hf. cbn. by rewrite app_assoc.
    + rewrite app_nil_r. by rewrite Hf.
  - assert (zlen line = 0) as E by lia. rewrite E. unfold zlen in E. destruct line; [|cbn in E; lia].
    cbn. rewrite app_nil_r. by rewrite Hf.
Qed.

(** One message: an acknowledged one is kept, in order, and with the severity of a
    warning or worse it is in the file; a rejected one changes nothing. *)
Lemma op_log_spec ts lvl fac m s :
  sd_inv s ->
  let '(s', r) := op_log ts lvl fac m s in
  sd_inv s' /\
  (r = Ok ->
   sd_content s' = sd_content s ++ (let l := sd_line ts lvl fac m in if zlen l <? 320 then l else []) /\
   (lvl <= 4 -> sd_file s' = sd_content s')) /\
  (r <> Ok -> r = Err EIO /\ sd_content s' = sd_content s) /\
  (sd_f s <> None -> sd_written s < REOPEN_BYTES -> r = Ok).
Proof.
  intros H. unfold op_log.
  set (s1 := if REOPEN_BYTES <=? sd_written s then reopen s else s).
  assert (H1 : sd_inv s1 /\ sd_content s1 = sd_content s /\ (sd_f s1 <> None -> sd_written s1 < REOPEN_BYTES) /\
    (sd_f s <> None -> sd_written s < REOPEN_BYTES -> s1 = s)).
  { unfold s1. destruct (REOPEN_BYTES <=? sd_written s) eqn:E.
    - destruct (reopen_spec s) as (R1 & _ & R2). split; [done|]. split; [done|]. split; [|lia]. intros _. cbn. done.
    - split; [done|]. split; [done|]. split; [lia|done]. }
  destruct H1 as (I1 & C1 & W1 & K1).
  set (s2 := match sd_f s1 with None => open_file s1 | Some _ => s1 end).
  assert (H2 : sd_inv s2 /\ sd_content s2 = sd_content s /\ (sd_f s2 <> None -> sd_written s2 < REOPEN_BYTES) /\
    (sd_f s1 <> None -> s2 = s1)).
  { unfold s2. destruct (sd_f s1) as [b|] eqn:E1.
    { rewrite E1. split; [done|]. split; [done|]. split; [by intros _; apply W1|done]. }
    pose proof (si_written _ I1) as Hw. rewrite E1 in Hw. cbn in Hw.
    split; [|split; [by rewrite open_content|split; [|done]]].
    - split; cbn; rewrite Hw; [by destruct (default false _)|done].
    - intros _. cbn. by rewrite Hw. }
  destruct H2 as (I2 & C2 & W2 & K2).
  destruct (sd_f s2) as [buf|] eqn:E2; cbv beta iota.
  - destruct (put_line_spec (sd_line ts lvl fac m) s2 buf I2 E2 (W2 ltac:(done))) as (I3 & N3 & C3).
    rewrite C2 in C3. set (s3 := put_line (sd_line ts lvl fac m) s2) in *.
    destruct (reopen_spec s3) as (R1 & R2 & R3).
    destruct (lvl <=? 4) eqn:E4; (split; [done|split; [|split; [by intros []|done]]]); intros _; rewrite ?R1, ?R2; (split; [done|]);
      [done|lia].
  - split; [done|]. split; [done|]. split; [done|]. intros Hf Hw. exfalso.
    rewrite (K1 Hf Hw) in *. apply Hf. rewrite <- (K2 Hf). done.
Qed.

Definition op_logs (ms : list (Z * Z * Z * bytes)) (s : syslogd) : syslogd * list l4_ret :=
  foldl (fun '(s, rs) '(ts, lvl, fac, m) => let '(s, r) := op_log ts lvl fac m s in (s, rs ++ [r])) (s, []) ms.

(** The part of the file an acknowledged message makes. *)
Definition kept (x : Z * Z * Z * bytes) (r : l4_ret) : bytes :=
  let '(ts, lvl, fac, m) := x in
  let l := sd_line ts lvl fac m in
  if is_err r then [] else if zlen l <? 320 then l else [].

(** The daemon keeps what it acknowledges: for any sequence of messages, and
    however often the file cannot be opened, the content grows by exactly the lines
    of the acknowledged messages in their order (lines of 320 bytes and more
    excepted), and less than [REOPEN_BYTES] and one line of it are not yet in the
    file. *)
Theorem syslogd_keeps s ms s' rs :
  sd_inv s -> op_logs ms s = (s', rs) ->
  length rs = length ms /\
  sd_content s' = sd_content s ++ concat (zip_with kept ms rs) /\
  zlen (default [] (sd_f s')) < REOPEN_BYTES + 320.
Proof.
  intros H. assert (G : let '(s', rs) := op_logs ms s in sd_inv s' /\ length rs = length ms /\
    sd_content s' = sd_content s ++ concat (zip_with kept ms rs)).
  { unfold op_logs. induction ms as [|x ms IH] using rev_ind; cbn; [by rewrite app_nil_r|].
    rewrite foldl_app. cbn. destruct (foldl _ _ ms) as [s1 rs1]. destruct IH as (I & Hl & Hc).
    destruct x as [[[ts lvl] fac] m]. pose proof (op_log_spec ts lvl fac m s1 I) as Hop.
    destruct (op_log ts lvl fac m s1) as [s2 r]. destruct Hop as (I2 & Hok & Herr & _).
    split; [done|]. rewrite !length_app, zip_with_app by done. split; [cbn; lia|].
    rewrite concat_app, app_assoc, <- Hc. cbn. rewrite app_nil_r.
    destruct r as [|e]; [by apply Hok|]. rewrite app_nil_r. by apply Herr. }
  intros E. rewrite E in G. destruct G as (I & Hl & Hc). split; [done|]. split; [done|].
  rewrite <- (si_written _ I). apply I.
Qed.

(** C34. From the caller to the file: a message that a process logs through the daemon
    is recorded in its ring, and when the daemon serves it, its file gets the line
    the process would have written itself; a warning or worse is in the file when
    the daemon replies. *)
Theorem klog_through_daemon fopen lvl fac ts text k o k' o' sd :
  g_syslogd k = true -> in_u 64 ts -> 0 <= lvl < 256 -> 0 <= fac < 256 -> no_nul text ->
  klog_write fopen lvl fac ts text k o = (k', o') -> sd_inv sd ->
  exists e,
    g_ring k' = <[Z.to_nat (g_head k) := e]> (g_ring k) /\ files o' = files o /\
    daemon o' = daemon o ++ [(ts, u8 lvl, u8 fac, message text)] /\
    let '(sd', r) := op_log ts (u8 lvl) (u8 fac) (message text) sd in
    (r = Ok -> sd_content sd' = sd_content sd ++ file_line e /\ (lvl <= KLOG_WARN -> sd_file sd' = sd_content sd')) /\
    (r <> Ok -> sd_content sd' = sd_content sd).
Proof.
  intros Hs Ht Hl Hf Hn E Hsd.
  set (e := {| ts_us := ts; seq := g_global_seq k +[64] 1; level := lvl; facility := fac; msg := message text |}).
  exists e. unfold klog_write in E. cbn in E. rewrite Hs in E. injection E as <- <-. cbn.
  split; [done|]. split; [by destruct (lvl <=? g_console_level k)|].
  split; [by destruct (lvl <=? g_console_level k)|].
  assert (Hm : no_nul (message text) /\ (length (message text) <= 199)%nat).
  { unfold message, snprintf_out. assert (no_nul (take (200 - 1) text)) by (by apply Forall_take).
    assert (length (take (200 - 1) text) <= 199)%nat by (rewrite length_take; lia).
    destruct (list.last _) as [c|]; [|done]. destruct (c =? 10); [|done].
    split; [by apply Forall_take|]. rewrite length_take. lia. }
  destruct (daemon_line e Ht Hl Hf (proj1 Hm) (proj2 Hm)) as [El Hlen]. cbn [ts_us level facility msg e] in El.
  pose proof (op_log_spec ts (u8 lvl) (u8 fac) (message text) sd Hsd) as Hop.
  destruct (op_log ts (u8 lvl) (u8 fac) (message text) sd) as [sd' r]. destruct Hop as (_ & Hok & Herr & _).
  split; [|intros Hne; by apply Herr]. intros Hr. destruct (Hok Hr) as [Hc Hw].
  rewrite El in Hc. cbv zeta in Hc. replace (zlen (file_line e) <? 320) with true in Hc by lia.
  split; [exact Hc|]. rewrite level_u8 in Hw by done. exact Hw.
Qed.

Module Syslogd_example.

Definition sd : syslogd := sd_new (str "old" ++ [10]) [true; false; true; true].
Definition msgs : list (Z * Z * Z * bytes) :=
  [(1000000, 6, 2, str "link up"); (2000000, 3, 4, str "bad block"); (3000000, 6, 0, str "bye")].

Lemma sd_ok : sd_inv sd.
Proof. by split. Qed.

Lemma syslogd_keeps_witness :
  exists s' rs, op_logs msgs sd = (s', rs) /\ rs = [Ok; Ok; Ok] /\
    sd_content s' = sd_content sd ++ concat (zip_with kept msgs rs) /\
    sd_file s' = sd_content sd ++ kept (1000000, 6, 2, str "link up") Ok ++ kept (2000000, 3, 4, str "bad block") Ok.
Proof.
  eexists _, _. split; [vm_compute; reflexivity|]. split; [reflexivity|].
  split; [|vm_compute; reflexivity].
  apply (syslogd_keeps sd msgs); [exact sd_ok|vm_compute; reflexivity].
Defined.

Definition k1 : klog := init_section None true klog_static.

Lemma klog_through_daemon_witness :
  exists e, level e = KLOG_ERR /\
    let '(sd', r) := op_log 5000000 (u8 KLOG_ERR) (u8 2) (message (str "link down" ++ [10])) sd in
    r = Ok /\ sd_content sd' = sd_content sd ++ file_line e.
Proof.
  destruct (klog_through_daemon false KLOG_ERR 2 5000000 (str "link down" ++ [10]) k1
    {| console := []; daemon := []; files := ∅ |}
    (fst (klog_write false KLOG_ERR 2 5000000 (str "link down" ++ [10]) k1 {| console := []; daemon := []; files := ∅ |}))
    (snd (klog_write false KLOG_ERR 2 5000000 (str "link down" ++ [10]) k1 {| console := []; daemon := []; files := ∅ |}))
    sd) as (e & He & _ & _ & H).
  - reflexivity.
  - split; [discriminate|reflexivity].
  - split; [discriminate|reflexivity].
  - split; [discriminate|reflexivity].
  - repeat constructor; discriminate.
  - apply surjective_pairing.
  - exact sd_ok.
  - exists e. split.
    + apply (f_equal (fun l => level (default empty_entry (l !! 0%nat)))) in He. 
      change (KLOG_ERR = level e) in He. by symmetry.
    + destruct (op_log _ _ _ _ sd) as [sd' r] eqn:E. destruct H as [H _].
      assert (r = Ok) as Hr by (apply (f_equal snd) in E; cbn in E; rewrite <- E; vm_compute; reflexivity).
      split; [exact Hr|]. by apply H.
Defined.

(** A line of 320 bytes or more is acknowledged and not written. *)
Example long_line_lost :
  let '(sd', r) := op_log 0 6 0 (replicate 300 65) sd in r = Ok /\ sd_content sd' = sd_content sd.
Proof. vm_compute. split; reflexivity. Qed.

End Syslogd_example.
