(* ===== verification/TmpfsFile.v ===== *)
(** * Files of the RAM file system

    [Tmpfs_inode] and [Tmpfs_file] of [src/pkg/tmpfs/src/tmpfs.cc]: the content of
    a file is a heap buffer that doubles when it is too small.  [w] is the width of
    [size_t]; offsets are 64-bit signed numbers that the code converts to it, and
    adding one to a pointer wraps at the same width.  The allocator is a parameter:
    whether it can provide a size, and what new memory contains. *)

From S2P Require Import Prelude.

(** ** The heap *)

(** [realloc] to a size succeeds or fails; bytes that were not written are
    arbitrary. *)
Class Heap := {
  realloc_ok : Z -> bool;
  garbage : Z -> Z;
}.

(** [memset(m + off, v, n)] *)
Definition memset (off v n : Z) (m : bytes) : run bytes :=
  if (0 <=? off) && (0 <=? n) && (off + n <=? zlen m)
  then or_oob (wr_bytes off (replicate (Z.to_nat n) v) m) else Oob.

Section File.
Context {w : Z} {heap : Heap}.

(** ** [Tmpfs_inode] *)

Record inode := { i_data : bytes; i_size : Z; i_cap : Z }.

Definition inode_new : inode := {| i_data := []; i_size := 0; i_cap := 0 |}.

(** Results of a system call: a number of bytes (or 0), or an error. *)
Abbreviation sysret := (errno + Z)%type.

Definition pread (len off : Z) (i : inode) : run bytes :=
  if (off <? 0) || (i_size i <=? uwrap w off) then Ret []
  else
    let avail := uwrap w (i_size i - uwrap w off) in
    let len := if avail <? len then avail else len in
    or_oob (rd_bytes (uwrap w off) len (i_data i)).

(** [while (ncap < need) ncap *= 2] *)
Fixpoint grow (fuel : nat) (ncap need : Z) : run Z :=
  if ncap <? need then
    match fuel with
    | O => Fuel_out
    | S f => grow f (uwrap w (ncap * 2)) need
    end
  else Ret ncap.

(** [realloc] keeps the old content in front of the new memory. *)
Definition realloc (n : Z) (m : bytes) : bytes :=
  take (Z.to_nat n) (m ++ (garbage <$> seqZ (zlen m) (n - zlen m))).

Definition ensure (fuel : nat) (need : Z) (i : inode) : run (inode * bool) :=
  if need <=? i_cap i then Ret (i, true)
  else
    ncap ← grow fuel (if negb (i_cap i =? 0) then i_cap i else 64) need;
    if realloc_ok ncap
    then Ret ({| i_data := realloc ncap (i_data i); i_size := i_size i; i_cap := ncap |}, true)
    else Ret (i, false).

Definition pwrite (fuel : nat) (src : bytes) (off : Z) (i : inode) : run (inode * sysret) :=
  let len := zlen src in
  let o := uwrap w off in
  if off <? 0 then Ret (i, inl EINVAL)
  else if len =? 0 then Ret (i, inr 0)
  else
    '(i, ok) ← ensure fuel (uwrap w (o + len)) i;
    if negb ok : bool then Ret (i, inl ENOSPC)
    else
      data ← (if i_size i <? o then memset (i_size i) 0 (uwrap w (o - i_size i)) (i_data i) else Ret (i_data i));
      data ← or_oob (wr_bytes o src data);
      Ret ({| i_data := data;
              i_size := if i_size i <? uwrap w (o + len) then uwrap w (o + len) else i_size i;
              i_cap := i_cap i |}, inr len).

Definition truncate (fuel : nat) (len : Z) (i : inode) : run (inode * sysret) :=
  let n := uwrap w len in
  if len <? 0 then Ret (i, inl EINVAL)
  else
    '(i, ok) ←
      (if i_size i <? n then
         '(i, ok) ← ensure fuel n i;
         if negb ok : bool then Ret (i, false)
         else
           data ← memset (i_size i) 0 (uwrap w (n - i_size i)) (i_data i);
           Ret ({| i_data := data; i_size := i_size i; i_cap := i_cap i |}, true)
       else Ret (i, true));
    if negb ok : bool then Ret (i, inl ENOSPC)
    else Ret ({| i_data := i_data i; i_size := n; i_cap := i_cap i |}, inr 0).

(** ** [Tmpfs_file] *)

(** [preadv]: the bytes that were put into the buffers, in order. *)
Fixpoint preadv (lens : list Z) (off : Z) (i : inode) : run bytes :=
  match lens with
  | [] => Ret []
  | len :: lens =>
      bs ← pread len off i;
      if zlen bs <=? 0 then Ret []
      else if zlen bs <? len then Ret bs
      else rest ← preadv lens (off + zlen bs) i; Ret (bs ++ rest)
  end.

Fixpoint pwritev_loop (fuel : nat) (iov : list bytes) (off total : Z) (i : inode) : run (inode * sysret) :=
  match iov with
  | [] => Ret (i, inr total)
  | src :: iov =>
      if zlen src =? 0 then pwritev_loop fuel iov off total i
      else
        '(i, r) ← pwrite fuel src off i;
        match r with
        | inl e => Ret (i, if negb (total =? 0) then inr total else inl e)
        | inr n =>
            if n <? zlen src then Ret (i, inr (total + n))
            else pwritev_loop fuel iov (off + n) (total + n) i
        end
  end.

Definition pwritev (fuel : nat) (append : bool) (iov : list bytes) (off : Z) (i : inode) : run (inode * sysret) :=
  let off := if append then i_size i else off in
  pwritev_loop fuel iov off 0 i.

Definition ftruncate (fuel : nat) (len : Z) (i : inode) : run (inode * sysret) := truncate fuel len i.

(** ** What a file is *)

Definition content (i : inode) : bytes := take (Z.to_nat (i_size i)) (i_data i).

Definition zeros (n : Z) : bytes := replicate (Z.to_nat n) 0.

Definition file_read (off len : Z) (c : bytes) : bytes := take (Z.to_nat len) (drop (Z.to_nat off) c).

(** Write [bs] at [off]; a gap behind the end of the file becomes zero. *)
Definition file_write (off : Z) (bs c : bytes) : bytes :=
  take (Z.to_nat off) (c ++ zeros (off - zlen c)) ++ bs ++ drop (Z.to_nat off + length bs) c.

Definition file_truncate (n : Z) (c : bytes) : bytes := take (Z.to_nat n) (c ++ zeros (n - zlen c)).

(** The buffer has the size the code believes it has, a power of two. *)
Record inode_ok (i : inode) : Prop := {
  io_data : zlen (i_data i) = i_cap i;
  io_size : 0 <= i_size i <= i_cap i;
  io_cap : i_cap i = 0 \/ exists k, 6 <= k < w /\ i_cap i = 2 ^ k;
}.

(** ** Proofs *)

Context (Hw : 7 <= w <= 64).

Lemma pow_lt k : 0 <= k < w -> 2 ^ k < 2 ^ w.
Proof. intros. apply Z.pow_lt_mono_r; lia. Qed.

Lemma half_lt : 2 ^ w = 2 * 2 ^ (w - 1).
Proof. rewrite <- Z.pow_succ_r by lia. f_equal. lia. Qed.

(** Doubling reaches every size up to half of the address space ... *)
Lemma grow_spec fuel k need :
  6 <= k < w -> need <= 2 ^ (w - 1) -> w - k <= Z.of_nat fuel ->
  exists j, k <= j < w /\ grow fuel (2 ^ k) need = Ret (2 ^ j) /\ need <= 2 ^ j.
Proof.
  intros Hk Hn. revert k Hk. induction fuel as [|f IH]; intros k Hk Hf; [lia|]. cbn.
  destruct (2 ^ k <? need) eqn:E; [|exists k; split; [lia|split; [done|lia]]].
  assert (k < w - 1) by (apply (Z.pow_lt_mono_r_iff 2); lia).
  replace (2 ^ k * 2) with (2 ^ (k + 1)) by (rewrite Z.pow_add_r; lia).
  rewrite uwrap_small by (pose proof (pow_lt (k + 1)); unfold in_u; lia).
  destruct (IH (k + 1)) as (j & Hj & Hg & Hle); [lia..|]. exists j. split; [lia|done].
Qed.

(** ... and runs forever beyond. *)
Lemma grow_hangs fuel c need :
  2 ^ (w - 1) < need < 2 ^ w -> (c = 0 \/ exists k, 0 <= k < w /\ c = 2 ^ k) -> grow fuel c need = Fuel_out.
Proof.
  intros Hn. pose proof half_lt as Hh. revert c. induction fuel as [|f IH]; intros c Hc.
  - cbn. replace (c <? need) with true; [done|]. symmetry. apply Z.ltb_lt.
    destruct Hc as [->|(k & Hk & ->)]; [lia|]. pose proof (Z.pow_le_mono_r 2 k (w - 1)). lia.
  - cbn. replace (c <? need) with true.
    2: { symmetry. apply Z.ltb_lt. destruct Hc as [->|(k & Hk & ->)]; [lia|].
         pose proof (Z.pow_le_mono_r 2 k (w - 1)). lia. }
    apply IH. destruct Hc as [->|(k & Hk & ->)]; [left; done|].
    destruct (decide (k = w - 1)) as [->|].
    + left. rewrite Z.mul_comm, <- Hh. unfold uwrap. apply Z_mod_same_full.
    + right. exists (k + 1). split; [lia|]. rewrite Z.pow_add_r by lia. apply uwrap_small. unfold in_u.
      pose proof (pow_lt (k + 1)). rewrite Z.pow_add_r in * by lia. lia.
Qed.

Lemma zlen_realloc n m : zlen m <= n -> zlen (realloc n m) = n.
Proof.
  intros H. unfold realloc, zlen. rewrite length_take, length_app, length_fmap, length_seqZ. unfold zlen in *. lia.
Qed.

Definition heap_full : Prop := exists n, realloc_ok n = false.

Lemma ensure_spec fuel need i :
  inode_ok i -> 0 <= need <= 2 ^ (w - 1) -> w <= Z.of_nat fuel ->
  (exists i', ensure fuel need i = Ret (i', true) /\ inode_ok i' /\ need <= i_cap i' /\
              i_size i' = i_size i /\ content i' = content i) \/
  (ensure fuel need i = Ret (i, false) /\ heap_full).
Proof.
  intros H Hn Hf. unfold ensure. destruct (need <=? i_cap i) eqn:E.
  { left. exists i. split; [done|]. split; [done|]. split; [lia|done]. }
  pose proof (io_size _ H) as Hs. pose proof (io_data _ H) as Hd.
  assert (exists k, 6 <= k < w /\ (if negb (i_cap i =? 0) then i_cap i else 64) = 2 ^ k /\ i_cap i <= 2 ^ k) as (k & Hk & -> & Hc).
  { destruct (io_cap _ H) as [->|(k & Hk & ->)]; cbn.
    - exists 6. split; [lia|done].
    - exists k. split; [done|]. replace (2 ^ k =? 0) with false by (pose proof (Z.pow_pos_nonneg 2 k); lia). split; [done|lia]. }
  destruct (grow_spec fuel k need Hk (proj2 Hn) ltac:(lia)) as (j & Hj & -> & Hle). cbn.
  pose proof (Z.pow_le_mono_r 2 k j ltac:(lia) ltac:(lia)).
  destruct (realloc_ok (2 ^ j)) eqn:Er; [|right; split; [done|by eexists]]. left. eexists. split; [done|]. split; [|split; [done|split; [done|]]].
  - split; cbn; [apply zlen_realloc; lia|lia|right; exists j; split; [lia|done]].
  - unfold content, realloc. cbn. unfold zlen in *. rewrite take_take, Nat.min_l by lia.
    by rewrite take_app_le by lia.
Qed.

(** ** Reference operations by index *)

Lemma lookup_zeros n (j : nat) : zeros n !! j = if decide (Z.of_nat j < n) then Some 0 else None.
Proof.
  unfold zeros. case_decide; [apply lookup_replicate_2; lia|].
  apply lookup_ge_None_2. rewrite length_replicate. lia.
Qed.

Lemma file_write_lookup off bs c (j : nat) :
  0 <= off ->
  file_write off bs c !! j =
  if decide (Z.of_nat j < off) then (if decide (Z.of_nat j < zlen c) then c !! j else Some 0)
  else if decide (Z.of_nat j < off + zlen bs) then bs !! (j - Z.to_nat off)%nat
  else c !! j.
Proof.
  intros Ho. unfold file_write.
  assert (Hl : length (take (Z.to_nat off) (c ++ zeros (off - zlen c))) = Z.to_nat off).
  { rewrite length_take, length_app. unfold zeros, zlen. rewrite length_replicate. lia. }
  unfold zlen in *. case_decide.
  - rewrite lookup_app_l, lookup_take_lt by lia. case_decide; [by rewrite lookup_app_l by lia|].
    rewrite lookup_app_r, lookup_zeros by lia. by rewrite decide_True by lia.
  - rewrite lookup_app_r, Hl by lia. case_decide; [by rewrite lookup_app_l by lia|].
    rewrite lookup_app_r, lookup_drop by lia. f_equal. lia.
Qed.

Lemma zlen_content i : inode_ok i -> zlen (content i) = i_size i.
Proof. intros H. destruct (io_size _ H), (io_data _ H). unfold content, zlen in *. rewrite length_take. lia. Qed.

Lemma memset_spec off v n m :
  0 <= off -> 0 <= n -> off + n <= zlen m ->
  exists m', memset off v n m = Ret m' /\ zlen m' = zlen m /\
    forall j : nat, m' !! j = if decide (off <= Z.of_nat j < off + n) then Some v else m !! j.
Proof.
  intros Ho Hn Hl. unfold memset. replace ((0 <=? off) && (0 <=? n) && (off + n <=? zlen m)) with true by lia.
  destruct (wr_bytes_Some off (replicate (Z.to_nat n) v) m Ho) as (m' & E & El).
  { unfold zlen at 1. rewrite length_replicate. lia. }
  rewrite E. exists m'. split; [done|]. split; [by apply zlen_eq|]. intros j.
  destruct (decide (Z.of_nat j < zlen m)) as [Hj|Hj].
  - pose proof (wr_bytes_lookup _ _ _ _ (Z.of_nat j) E ltac:(lia)) as Hlk. rewrite Nat2Z.id in Hlk. rewrite Hlk.
    assert (Hz : zlen (replicate (Z.to_nat n) v) = n) by (unfold zlen; rewrite length_replicate; lia).
    destruct (decide (off <= Z.of_nat j < off + zlen _)), (decide (off <= Z.of_nat j < off + n)); try lia; [|done].
    apply lookup_replicate_2. lia.
  - rewrite decide_False by lia. rewrite !lookup_ge_None_2; [done| |]; unfold zlen in *; lia.
Qed.

Lemma take_lookup {A} n (l : list A) (j : nat) : take n l !! j = if decide (j < n)%nat then l !! j else None.
Proof. case_decide; [by apply lookup_take_lt|apply lookup_take_ge; lia]. Qed.

(** The copy of a write into a buffer that is large enough. *)
Lemma write_data i o src :
  inode_ok i -> 0 <= o -> 0 < zlen src -> o + zlen src <= i_cap i -> i_cap i < 2 ^ w ->
  exists d1 d2,
    (if i_size i <? o then memset (i_size i) 0 (uwrap w (o - i_size i)) (i_data i) else Ret (i_data i)) = Ret d1 /\
    wr_bytes o src d1 = Some d2 /\ zlen d2 = i_cap i /\
    take (Z.to_nat (Z.max (i_size i) (o + zlen src))) d2 = file_write o src (content i).
Proof.
  intros H Ho Hl Hc Hb. pose proof (io_size _ H) as Hs. pose proof (io_data _ H) as Hd.
  assert (exists d1, (if i_size i <? o then memset (i_size i) 0 (uwrap w (o - i_size i)) (i_data i) else Ret (i_data i)) = Ret d1 /\
    zlen d1 = i_cap i /\ forall j : nat, d1 !! j = if decide (i_size i <= Z.of_nat j < o) then Some 0 else i_data i !! j)
    as (d1 & E1 & L1 & K1).
  { destruct (i_size i <? o) eqn:E.
    - rewrite uwrap_small by (unfold in_u; lia).
      destruct (memset_spec (i_size i) 0 (o - i_size i) (i_data i)) as (m' & E' & L' & K'); [lia..|].
      exists m'. split; [done|]. split; [lia|]. intros j. rewrite K'.
      destruct (decide _), (decide _); try lia; done.
    - exists (i_data i). split; [done|]. split; [done|]. intros j. by rewrite decide_False by lia. }
  destruct (wr_bytes_Some o src d1 Ho ltac:(lia)) as (d2 & E2 & L2).
  exists d1, d2. split; [done|]. split; [done|]. split; [by rewrite (zlen_eq _ _ L2)|].
  apply list_eq. intros j. rewrite take_lookup, file_write_lookup, zlen_content by done.
  assert (Hcj : content i !! j = if decide (j < Z.to_nat (i_size i))%nat then i_data i !! j else None) by apply take_lookup.
  destruct (decide (Z.of_nat j < i_cap i)) as [Hj|Hj].
  - pose proof (wr_bytes_lookup _ _ _ _ (Z.of_nat j) E2 ltac:(lia)) as K2. rewrite Nat2Z.id in K2.
    rewrite K2, Hcj, K1. clear K1 K2 E1 E2 Hcj. repeat case_decide; try lia; try done. f_equal. lia.
  - rewrite Hcj. repeat case_decide; try lia; try done.
Qed.

Lemma cap_bound i : inode_ok i -> 0 <= i_cap i <= 2 ^ (w - 1).
Proof.
  intros H. destruct (io_cap _ H) as [->|(k & Hk & ->)].
  - pose proof (Z.pow_pos_nonneg 2 (w - 1)). lia.
  - pose proof (Z.pow_le_mono_r 2 k (w - 1)). pose proof (Z.pow_pos_nonneg 2 k). lia.
Qed.

Lemma file_truncate_lookup n c (j : nat) :
  file_truncate n c !! j =
  if decide (Z.of_nat j < n) then (if decide (Z.of_nat j < zlen c) then c !! j else Some 0) else None.
Proof.
  unfold file_truncate. rewrite take_lookup. unfold zlen. repeat case_decide; try lia; try done.
  - by rewrite lookup_app_l by lia.
  - rewrite lookup_app_r, lookup_zeros by lia. by rewrite decide_True by lia.
Qed.

Lemma pwrite_spec fuel src off i :
  inode_ok i -> 0 <= off -> off + zlen src <= 2 ^ (w - 1) -> w <= Z.of_nat fuel ->
  exists i' r, pwrite fuel src off i = Ret (i', r) /\ inode_ok i' /\
    ((r = inr (zlen src) /\ content i' = if zlen src =? 0 then content i else file_write off src (content i)) \/
     (r = inl ENOSPC /\ content i' = content i /\ heap_full)).
Proof.
  intros H Ho Hn Hf. pose proof (zlen_nonneg src). pose proof half_lt as Hh.
  pose proof (Z.pow_pos_nonneg 2 (w - 1) ltac:(lia) ltac:(lia)).
  unfold pwrite. rewrite (uwrap_small w off) by (unfold in_u; lia).
  replace (off <? 0) with false by lia. destruct (zlen src =? 0) eqn:E0.
  { exists i, (inr 0). split; [done|]. split; [done|]. left. split; [|done]. f_equal. lia. }
  rewrite uwrap_small by (unfold in_u; lia).
  destruct (ensure_spec fuel (off + zlen src) i H ltac:(lia) Hf) as [(i1 & -> & Hi1 & Hc & Hs & Hct)|[-> Hfull]]; cbn.
  - destruct (write_data i1 off src Hi1 Ho ltac:(lia) Hc) as (d1 & d2 & E1 & E2 & L2 & K2).
    { pose proof (cap_bound _ Hi1). lia. }
    rewrite E1. cbn. rewrite E2. cbn. eexists _, _. split; [done|].
    assert (Hmax : (if i_size i1 <? off + zlen src then off + zlen src else i_size i1) = Z.max (i_size i1) (off + zlen src))
      by (split_if; lia).
    rewrite Hmax. split; [|left; split; [done|]].
    + destruct Hi1. split; cbn; [done|lia|done].
    + unfold content at 1. cbn. by rewrite K2, Hct.
  - exists i, (inl ENOSPC). split; [done|]. split; [done|]. right. done.
Qed.

Lemma truncate_spec fuel n i :
  inode_ok i -> 0 <= n <= 2 ^ (w - 1) -> w <= Z.of_nat fuel ->
  exists i' r, truncate fuel n i = Ret (i', r) /\ inode_ok i' /\
    ((r = inr 0 /\ content i' = file_truncate n (content i)) \/
     (r = inl ENOSPC /\ content i' = content i /\ zlen (content i) < n /\ heap_full)).
Proof.
  intros H Hn Hf. pose proof half_lt as Hh. pose proof (Z.pow_pos_nonneg 2 (w - 1) ltac:(lia) ltac:(lia)).
  unfold truncate. rewrite (uwrap_small w n) by (unfold in_u; lia). replace (n <? 0) with false by lia.
  destruct (i_size i <? n) eqn:E.
  - destruct (ensure_spec fuel n i H Hn Hf) as [(i1 & -> & Hi1 & Hc & Hs & Hct)|[-> Hfull]]; cbn.
    + pose proof (io_size _ Hi1) as Hs1. pose proof (io_data _ Hi1) as Hd1. pose proof (cap_bound _ Hi1).
      rewrite uwrap_small by (unfold in_u; lia).
      destruct (memset_spec (i_size i1) 0 (n - i_size i1) (i_data i1)) as (d & -> & Ld & Kd); [lia..|].
      cbn. eexists _, _. split; [done|]. split; [destruct Hi1; split; cbn; [lia..|done]|]. left. split; [done|].
      rewrite <- Hct. apply list_eq. intros j. unfold content at 1. cbn.
      rewrite file_truncate_lookup, zlen_content, take_lookup, Kd by done.
      unfold content. rewrite take_lookup. repeat case_decide; try lia; done.
    + eexists _, _. split; [done|]. split; [done|]. right. rewrite zlen_content by done. split; [done|]. split; [done|]. split; [lia|done].
  - cbn. pose proof (io_size _ H) as Hs1. eexists _, _. split; [done|].
    split; [destruct H; split; cbn; [done|lia|done]|]. left. split; [done|].
    apply list_eq. intros j. unfold content at 1. cbn.
    rewrite file_truncate_lookup, zlen_content, take_lookup by done.
    unfold content. rewrite take_lookup. repeat case_decide; try lia; done.
Qed.

(** ** Vectored transfers *)

Lemma zlen_file_read off len c : 0 <= off -> 0 <= len -> zlen (file_read off len c) = Z.max 0 (Z.min len (zlen c - off)).
Proof. intros. unfold file_read, zlen. rewrite length_take, length_drop. lia. Qed.

Lemma pread_spec len off i :
  inode_ok i -> 0 <= len -> 0 <= off < 2 ^ w -> pread len off i = Ret (file_read off len (content i)).
Proof.
  intros Hi Hl Ho. pose proof (io_size _ Hi) as Hs. pose proof (io_data _ Hi) as Hd. pose proof (cap_bound _ Hi) as Hc.
  pose proof half_lt as Hh. unfold pread. rewrite (uwrap_small w off) by done. replace (off <? 0) with false by lia. cbn [orb].
  destruct (i_size i <=? off) eqn:E.
  - unfold file_read. rewrite drop_ge, take_nil; [done|]. pose proof (zlen_content i Hi). unfold zlen in *. lia.
  - rewrite uwrap_small by (unfold in_u; lia).
    assert (Hm : (if i_size i - off <? len then i_size i - off else len) = Z.min len (i_size i - off)) by (split_if; lia).
    rewrite Hm. unfold rd_bytes. rewrite !(proj2 (Z.leb_le _ _)) by lia. cbn. f_equal.
    unfold slice, file_read, content. apply list_eq. intros j.
    rewrite !take_lookup, !lookup_drop, take_lookup. unfold zlen in *. repeat case_decide; try lia; done.
Qed.

Fixpoint total_len (lens : list Z) : Z :=
  match lens with
  | [] => 0
  | l :: lens => l + total_len lens
  end.

Lemma total_len_nonneg lens : Forall (fun l => 0 < l) lens -> 0 <= total_len lens.
Proof. induction 1; cbn; lia. Qed.

Lemma file_read_app off a b c :
  0 <= off -> 0 <= a -> 0 <= b ->
  file_read off (a + b) c = file_read off a c ++ file_read (off + a) b c.
Proof.
  intros. unfold file_read. rewrite Z2Nat.inj_add, <- take_take_drop, drop_drop by lia. f_equal. f_equal. f_equal. lia.
Qed.

(** Reading into several buffers, none of them empty, is one read. *)
Lemma preadv_spec lens off i :
  inode_ok i -> Forall (fun l => 0 < l) lens -> 0 <= off -> off + total_len lens < 2 ^ w ->
  preadv lens off i = Ret (file_read off (total_len lens) (content i)).
Proof.
  intros Hi Hl. revert off. induction Hl as [|len lens Hlen Hl IH]; intros off Ho Ht; cbn in *.
  { unfold file_read. by rewrite take_0. }
  pose proof (total_len_nonneg _ Hl) as Hn.
  rewrite pread_spec by (done || lia). cbn. pose proof (zlen_file_read off len (content i) Ho ltac:(lia)) as Hz.
  destruct (decide (off + len <= zlen (content i))) as [Hin|Hout].
  - assert (Hfull : zlen (file_read off len (content i)) = len) by lia. rewrite Hfull.
    replace (len <=? 0) with false by lia. replace (len <? len) with false by lia.
    rewrite IH by lia. cbn. by rewrite file_read_app by lia.
  - assert (E : file_read off (len + total_len lens) (content i) = file_read off len (content i)).
    { unfold file_read. rewrite !take_ge; [done| |]; rewrite length_drop; unfold zlen in *; lia. }
    rewrite E. destruct (zlen (file_read off len (content i)) <=? 0) eqn:E0.
    + f_equal. symmetry. apply nil_length_inv. unfold zlen in *. lia.
    + by replace (zlen (file_read off len (content i)) <? len) with true by lia.
Qed.

Lemma zlen_file_write off bs c : 0 <= off -> zlen (file_write off bs c) = Z.max (off + zlen bs) (zlen c).
Proof.
  intros. unfold file_write, zlen, zeros. rewrite !length_app, length_take, length_app, length_drop, length_replicate. unfold zlen. lia.
Qed.

Lemma file_write_app off a b c :
  0 <= off -> file_write (off + zlen a) b (file_write off a c) = file_write off (a ++ b) c.
Proof.
  intros Ho. pose proof (zlen_nonneg a). pose proof (zlen_nonneg b). apply list_eq. intros j.
  rewrite (file_write_lookup (off + zlen a)), zlen_file_write, (file_write_lookup off a), (file_write_lookup off (a ++ b)) by lia.
  rewrite zlen_app. unfold zlen in *. repeat case_decide; try lia; try done.
  - by rewrite lookup_app_l by lia.
  - rewrite lookup_app_r by lia. f_equal. lia.
Qed.

(** What a write of [bs] at [off] leaves when [n] bytes of it were written. *)
Definition written (n off : Z) (bs c : bytes) : bytes :=
  if n =? 0 then c else file_write off (take (Z.to_nat n) bs) c.

Lemma pwritev_loop_spec fuel iov off total i :
  inode_ok i -> 0 <= off -> 0 <= total -> off + zlen (concat iov) <= 2 ^ (w - 1) -> w <= Z.of_nat fuel ->
  exists i' r n, pwritev_loop fuel iov off total i = Ret (i', r) /\ inode_ok i' /\
    0 <= n <= zlen (concat iov) /\ content i' = written n off (concat iov) (content i) /\
    (n = zlen (concat iov) \/ heap_full) /\
    r = if (n <? zlen (concat iov)) && (total + n =? 0) then inl ENOSPC else inr (total + n).
Proof.
  revert off total i. induction iov as [|src iov IH]; intros off total i Hi Ho Ht Hb Hf; cbn [pwritev_loop concat] in *.
  { exists i, (inr total), 0. rewrite Z.add_0_r. split; [done|]. split; [done|]. split; [done|]. split; [done|]. split; [by left|done]. }
  rewrite zlen_app in *. pose proof (zlen_nonneg src). pose proof (zlen_nonneg (concat iov)).
  destruct (zlen src =? 0) eqn:E0.
  { destruct src; [|rewrite zlen_cons in E0; pose proof (zlen_nonneg src); lia].
    destruct (IH off total i) as (i' & r & n & H'); [done..| |done|]; [lia|]. exists i', r, n. cbn. exact H'. }
  destruct (pwrite_spec fuel src off i Hi Ho ltac:(lia) Hf) as (i1 & r1 & -> & Hi1 & [[-> Hc]|(-> & Hc & Hful)]); cbn.
  - rewrite E0 in Hc. rewrite Z.ltb_irrefl.
    destruct (IH (off + zlen src) (total + zlen src) i1) as (i' & r & n & E & Hi' & Hn & Hc' & Hfull & Hr); [done|lia..|].
    exists i', r, (zlen src + n). rewrite !Z.add_assoc. split; [done|]. split; [done|]. split; [lia|]. split.
    + rewrite Hc', Hc. unfold written. replace (zlen src + n =? 0) with false by lia.
      rewrite take_app_ge by (unfold zlen; lia). replace (Z.to_nat (zlen src + n) - length src)%nat with (Z.to_nat n) by (unfold zlen; lia).
      destruct (n =? 0) eqn:En; [|by apply file_write_app]. replace n with 0 by lia. by rewrite take_0, app_nil_r.
    + split; [destruct Hfull; [left; lia|by right]|]. by replace (zlen src + n <? zlen src + zlen (concat iov)) with (n <? zlen (concat iov)) by lia.
  - exists i1, (if negb (total =? 0) then inr total else inl ENOSPC), 0. split; [done|]. split; [done|].
    split; [lia|]. split; [done|]. rewrite Z.add_0_r. split; [by right|].
    replace (0 <? zlen src + zlen (concat iov)) with true by lia. by destruct (total =? 0).
Qed.

(** ** Simulation *)

Inductive fop :=
  | F_read (lens : list Z) (off : Z)
  | F_write (append : bool) (iov : list bytes) (off : Z)
  | F_truncate (n : Z).

Definition file_op (fuel : nat) (c : fop) (i : inode) : run (inode * (bytes + sysret)) :=
  match c with
  | F_read lens off => bs ← preadv lens off i; Ret (i, inl bs)
  | F_write append iov off => '(i, r) ← pwritev fuel append iov off i; Ret (i, inr r)
  | F_truncate n => '(i, r) ← ftruncate fuel n i; Ret (i, inr r)
  end.

(** The operations on a file that is a sequence of bytes.  Writing can end early,
    and growing can fail, only if the heap is full. *)
Definition ref_op (op : fop) (c : bytes) (r : bytes + sysret) (c' : bytes) : Prop :=
  match op with
  | F_read lens off => c' = c /\ r = inl (if off <? 0 then [] else file_read off (total_len lens) c)
  | F_write append iov off =>
      let bs := concat iov in
      let off := if append then zlen c else off in
      if decide (bs = []) then c' = c /\ r = inr (inr 0)
      else if off <? 0 then c' = c /\ r = inr (inl EINVAL)
      else exists n, 0 <= n <= zlen bs /\ c' = written n off bs c /\
             (n = zlen bs \/ heap_full) /\ r = inr (if n =? 0 then inl ENOSPC else inr n)
  | F_truncate n =>
      if n <? 0 then c' = c /\ r = inr (inl EINVAL)
      else (c' = file_truncate n c /\ r = inr (inr 0)) \/
           (c' = c /\ r = inr (inl ENOSPC) /\ zlen c < n /\ heap_full)
  end.

(** No buffer to read into is empty, and the file stays within half of the address
    space. *)
Definition op_fits (op : fop) (c : bytes) : Prop :=
  match op with
  | F_read lens off => Forall (fun l => 0 < l) lens /\ off + total_len lens < 2 ^ w
  | F_write append iov off => (if append then zlen c else off) + zlen (concat iov) <= 2 ^ (w - 1)
  | F_truncate n => n <= 2 ^ (w - 1)
  end.

Lemma pwritev_negative fuel iov off i :
  off < 0 -> pwritev_loop fuel iov off 0 i = Ret (i, if decide (concat iov = []) then inr 0 else inl EINVAL).
Proof.
  intros Ho. induction iov as [|src iov IH]; cbn [pwritev_loop concat]; [done|].
  destruct src as [|b src]; [exact IH|]. rewrite zlen_cons. replace (1 + zlen src =? 0) with false by (pose proof (zlen_nonneg src); lia).
  unfold pwrite. replace (off <? 0) with true by lia. by cbn.
Qed.


(** Beyond half of the address space the doubling overflows to zero and never
    ends: a write of two bytes at the largest offset hangs. *)
Theorem tmpfs_huge_write_hangs fuel off src i :
  inode_ok i -> src <> [] -> 0 <= off -> 2 ^ (w - 1) < off + zlen src < 2 ^ w ->
  pwrite fuel src off i = Fuel_out.
Proof.
  intros Hi Hs Ho Hn. pose proof (zlen_nonneg src). pose proof (cap_bound _ Hi). unfold pwrite.
  replace (off <? 0) with false by lia. destruct (zlen src =? 0) eqn:E.
  { exfalso. apply Hs, nil_length_inv. unfold zlen in E. lia. }
  rewrite (uwrap_small w off), uwrap_small by (unfold in_u; lia). unfold ensure.
  replace (off + zlen src <=? i_cap i) with false by lia.
  rewrite grow_hangs; [done|done|]. destruct (io_cap _ Hi) as [->|(k & Hk & ->)]; cbn; right.
  - exists 6. split; [lia|done].
  - exists k. split; [lia|]. by replace (2 ^ k =? 0) with false by (pose proof (Z.pow_pos_nonneg 2 k); lia).
Qed.

End File.

Module File_example.

#[local] Instance some_heap : Heap := {| realloc_ok n := n <=? 4096; garbage _ := 0xaa |}.

(** A file with the content "ab" in a buffer of 64 bytes. *)
Definition ab : inode :=
  {| i_data := str "ab" ++ replicate 62 0xaa; i_size := 2; i_cap := 64 |}.

Lemma ab_ok : inode_ok (w := 64) ab.
Proof.
  split; [reflexivity|split; discriminate|]. right. exists 6. split; [split; [discriminate|reflexivity]|reflexivity].
Qed.


Lemma tmpfs_huge_write_hangs_witness :
  pwrite (w := 64) 1000 (str "xy") (2 ^ 63 - 1) ab = Fuel_out.
Proof.
  apply (tmpfs_huge_write_hangs (w := 64)); [split; discriminate|exact ab_ok|discriminate|discriminate|].
  split; reflexivity.
Defined.

(** An empty buffer ends a vectored read although there is more to read. *)
Example empty_buffer_ends_read :
  preadv (w := 64) [0; 2] 0 ab = Ret [] /\ preadv (w := 64) [2] 0 ab = Ret (str "ab").
Proof. split; reflexivity. Qed.

End File_example.
