(* ===== verification/TmpfsDir.v ===== *)
(** * Directories of the RAM file system

    [Tmpfs_dir] of [src/pkg/tmpfs/src/tmpfs.cc].  Directories and inodes are shared
    objects, kept once in a store and named by numbers; a directory is the list of
    its entries, newest first.  An object whose last reference is gone stays in the
    store, where nothing leads to it.  Whether an allocation succeeds is a sequence
    of answers, one for each allocation; when it is used up they all succeed.

    A path is the characters of a C string before its NUL. *)

From S2P Require Import Prelude TmpfsFile.

(** ** Paths *)

Definition slash : Z := 47.

(** [while ( *path == '/') ++path] *)
Fixpoint skip_slashes (p : bytes) : bytes :=
  match p with
  | c :: t => if c =? slash then skip_slashes t else p
  | [] => []
  end.

(** The characters before the first slash and, from it on, the rest. *)
Fixpoint strchr_slash (p : bytes) : bytes * option bytes :=
  match p with
  | [] => ([], None)
  | c :: t => if c =? slash then ([], Some p) else let '(n, r) := strchr_slash t in (c :: n, r)
  end.

(** [split]: the first component and what follows, [None] for a trailing slash. *)
Definition split (path : bytes) : option (bytes * option bytes) :=
  match skip_slashes path with
  | [] => None
  | p =>
      match strchr_slash p with
      | (name, Some sep) =>
          Some (name, match skip_slashes sep with [] => None | rest => Some rest end)
      | (name, None) => Some (name, None)
      end
  end.

(** ** Data *)

Inductive node := N_file (ino : Z) | N_dir (d : Z).

#[global] Instance node_eq_dec : EqDecision node.
Proof. solve_decision. Defined.

Record entry := { e_name : bytes; e_node : node }.

Record dir := { d_entries : list entry; d_pos : Z }.

Definition dir_new : dir := {| d_entries := []; d_pos := 0 |}.

Record fs := {
  dirs : gmap Z dir;
  inodes : gmap Z inode;
  next_id : Z;
  answers : list bool;
}.

Definition set_dir (d : Z) (x : dir) (s : fs) : fs :=
  {| dirs := <[d := x]> (dirs s); inodes := inodes s; next_id := next_id s; answers := answers s |}.

Definition set_inode (i : Z) (x : inode) (s : fs) : fs :=
  {| dirs := dirs s; inodes := <[i := x]> (inodes s); next_id := next_id s; answers := answers s |}.

(** The next allocation. *)
Definition allocate (s : fs) : fs * bool :=
  ({| dirs := dirs s; inodes := inodes s; next_id := next_id s; answers := tail (answers s) |},
   default true (head (answers s))).

(** [make_ref_obj<Tmpfs_inode>()] and [make_ref_obj<Tmpfs_dir>()] *)
Definition make_inode (s : fs) : fs * option Z :=
  let '(s, ok) := allocate s in
  if negb ok : bool then (s, None)
  else ({| dirs := dirs s; inodes := <[next_id s := inode_new]> (inodes s);
           next_id := next_id s + 1; answers := answers s |}, Some (next_id s)).

Definition make_dir (s : fs) : fs * option Z :=
  let '(s, ok) := allocate s in
  if negb ok : bool then (s, None)
  else ({| dirs := <[next_id s := dir_new]> (dirs s); inodes := inodes s;
           next_id := next_id s + 1; answers := answers s |}, Some (next_id s)).

(** ** Entries *)

(** [find]: the position of the entry with the name, and the entry. *)
Fixpoint find_in (name : bytes) (es : list entry) : option (nat * entry) :=
  match es with
  | [] => None
  | e :: es =>
      if decide (e_name e = name) then Some (0%nat, e)
      else (fun '(i, e) => (S i, e)) <$> find_in name es
  end.

Definition find (name : bytes) (d : Z) (s : fs) : run (option (nat * entry)) :=
  x ← or_oob (dirs s !! d);
  Ret (find_in name (d_entries x)).

(** [alloc] with [add_file] or [add_dir]: the entry and its name are allocated. *)
Definition add_entry (name : bytes) (x : node) (d : Z) (s : fs) : run (fs * bool) :=
  let '(s, ok) := allocate s in
  if negb ok : bool then Ret (s, false)
  else
    let '(s, ok) := allocate s in
    if negb ok : bool then Ret (s, false)
    else
      y ← or_oob (dirs s !! d);
      Ret (set_dir d {| d_entries := {| e_name := name; e_node := x |} :: d_entries y; d_pos := d_pos y |} s, true).

Definition remove_at (i : nat) (es : list entry) : list entry := take i es ++ drop (S i) es.

(** [remove]: the entry at a position. *)
Definition remove (i : nat) (d : Z) (s : fs) : run fs :=
  y ← or_oob (dirs s !! d);
  Ret (set_dir d {| d_entries := remove_at i (d_entries y); d_pos := d_pos y |} s).

(** ** Operations *)

Definition O_CREAT : Z := 0x40.
Definition O_TRUNC : Z := 0x200.
Definition O_APPEND : Z := 0x400.

Definition has_flag (flags f : Z) : bool := negb (Z.land flags f =? 0).

(** The object an operation hands out: the directory itself or a new handle on an
    inode. *)
Inductive handle := H_ok | H_dir (d : Z) | H_file (ino : Z) (append : bool).

Abbreviation reply := (errno + handle)%type.

Section Dir.
Context {w : Z} {heap : Heap}.

(** The leaf of [get_entry]. *)
Definition open_leaf (name : bytes) (flags d : Z) (s : fs) : run (fs * reply) :=
  let append := has_flag flags O_APPEND in
  let handle ino s :=
    let '(s, ok) := allocate s in
    Ret (s, if ok : bool then inr (H_file ino append) else inl ENOMEM) in
  e ← find name d s;
  match e with
  | Some (_, e) =>
      match e_node e with
      | N_dir sub => Ret (s, inr (H_dir sub))
      | N_file ino =>
          s ← (if has_flag flags O_TRUNC then
                 x ← or_oob (inodes s !! ino);
                 '(x, _) ← truncate (w := w) 0 0 x;
                 Ret (set_inode ino x s)
               else Ret s);
          handle ino s
      end
  | None =>
      if negb (has_flag flags O_CREAT) then Ret (s, inl ENOENT)
      else
        match make_inode s with
        | (s, None) => Ret (s, inl ENOMEM)
        | (s, Some ino) =>
            '(s, ok) ← add_entry name (N_file ino) d s;
            if negb ok : bool then Ret (s, inl ENOMEM) else handle ino s
        end
  end.

Fixpoint get_entry (fuel : nat) (path : bytes) (flags d : Z) (s : fs) : run (fs * reply) :=
  match split path with
  | None => Ret (s, inr (H_dir d))
  | Some (name, Some rest) =>
      e ← find name d s;
      match e with
      | None => Ret (s, inl ENOENT)
      | Some (_, e) =>
          match e_node e with
          | N_file _ => Ret (s, inl ENOTDIR)
          | N_dir sub =>
              match fuel with
              | O => Fuel_out
              | S fuel => get_entry fuel rest flags sub s
              end
          end
      end
  | Some (name, None) => open_leaf name flags d s
  end.

Definition mkdir_leaf (name : bytes) (d : Z) (s : fs) : run (fs * reply) :=
  e ← find name d s;
  match e with
  | Some _ => Ret (s, inl EEXIST)
  | None =>
      match make_dir s with
      | (s, None) => Ret (s, inl ENOMEM)
      | (s, Some nd) =>
          '(s, ok) ← add_entry name (N_dir nd) d s;
          Ret (s, if negb ok : bool then inl ENOMEM else inr H_ok)
      end
  end.

Fixpoint mkdir (fuel : nat) (path : bytes) (d : Z) (s : fs) : run (fs * reply) :=
  match split path with
  | None => Ret (s, inl EEXIST)
  | Some (name, Some rest) =>
      e ← find name d s;
      match e with
      | None => Ret (s, inl ENOENT)
      | Some (_, e) =>
          match e_node e with
          | N_file _ => Ret (s, inl ENOTDIR)
          | N_dir sub => match fuel with O => Fuel_out | S fuel => mkdir fuel rest sub s end
          end
      end
  | Some (name, None) => mkdir_leaf name d s
  end.

Definition unlink_leaf (name : bytes) (d : Z) (s : fs) : run (fs * reply) :=
  e ← find name d s;
  match e with
  | None => Ret (s, inl ENOENT)
  | Some (i, e) =>
      match e_node e with
      | N_dir _ => Ret (s, inl EISDIR)
      | N_file _ => s ← remove i d s; Ret (s, inr H_ok)
      end
  end.

Fixpoint unlink (fuel : nat) (path : bytes) (d : Z) (s : fs) : run (fs * reply) :=
  match split path with
  | None => Ret (s, inl EISDIR)
  | Some (name, Some rest) =>
      e ← find name d s;
      match e with
      | None => Ret (s, inl ENOENT)
      | Some (_, e) =>
          match e_node e with
          | N_file _ => Ret (s, inl ENOTDIR)
          | N_dir sub => match fuel with O => Fuel_out | S fuel => unlink fuel rest sub s end
          end
      end
  | Some (name, None) => unlink_leaf name d s
  end.

Definition rmdir_leaf (name : bytes) (d : Z) (s : fs) : run (fs * reply) :=
  e ← find name d s;
  match e with
  | None => Ret (s, inl ENOENT)
  | Some (i, e) =>
      match e_node e with
      | N_file _ => Ret (s, inl ENOTDIR)
      | N_dir sub =>
          x ← or_oob (dirs s !! sub);
          match d_entries x with
          | _ :: _ => Ret (s, inl ENOTEMPTY)
          | [] => s ← remove i d s; Ret (s, inr H_ok)
          end
      end
  end.

Fixpoint rmdir (fuel : nat) (path : bytes) (d : Z) (s : fs) : run (fs * reply) :=
  match split path with
  | None => Ret (s, inl EINVAL)
  | Some (name, Some rest) =>
      e ← find name d s;
      match e with
      | None => Ret (s, inl ENOENT)
      | Some (_, e) =>
          match e_node e with
          | N_file _ => Ret (s, inl ENOTDIR)
          | N_dir sub => match fuel with O => Fuel_out | S fuel => rmdir fuel rest sub s end
          end
      end
  | Some (name, None) => rmdir_leaf name d s
  end.

Definition access_leaf (name : bytes) (d : Z) (s : fs) : run (fs * reply) :=
  e ← find name d s;
  match e with
  | None => Ret (s, inl ENOENT)
  | Some _ => Ret (s, inr H_ok)
  end.

Fixpoint faccessat (fuel : nat) (path : bytes) (d : Z) (s : fs) : run (fs * reply) :=
  match split path with
  | None => Ret (s, inr H_ok)
  | Some (name, Some rest) =>
      e ← find name d s;
      match e with
      | None => Ret (s, inl ENOENT)
      | Some (_, e) =>
          match e_node e with
          | N_file _ => Ret (s, inl ENOTDIR)
          | N_dir sub => match fuel with O => Fuel_out | S fuel => faccessat fuel rest sub s end
          end
      end
  | Some (name, None) => access_leaf name d s
  end.

(** ** All operations *)

Inductive dop := D_open (flags : Z) | D_mkdir | D_unlink | D_rmdir | D_access.

Definition fs_op (fuel : nat) (op : dop) (path : bytes) (d : Z) (s : fs) : run (fs * reply) :=
  match op with
  | D_open flags => get_entry fuel path flags d s
  | D_mkdir => mkdir fuel path d s
  | D_unlink => unlink fuel path d s
  | D_rmdir => rmdir fuel path d s
  | D_access => faccessat fuel path d s
  end.

(** What an operation does with the directory it is called on, and with the last
    component of the path. *)
Definition self_reply (op : dop) (d : Z) : reply :=
  match op with
  | D_open _ => inr (H_dir d)
  | D_mkdir => inl EEXIST
  | D_unlink => inl EISDIR
  | D_rmdir => inl EINVAL
  | D_access => inr H_ok
  end.

Definition leaf_op (op : dop) (name : bytes) (d : Z) (s : fs) : run (fs * reply) :=
  match op with
  | D_open flags => open_leaf name flags d s
  | D_mkdir => mkdir_leaf name d s
  | D_unlink => unlink_leaf name d s
  | D_rmdir => rmdir_leaf name d s
  | D_access => access_leaf name d s
  end.

(** The walk all operations share. *)
Fixpoint descend (fuel : nat) (path : bytes) (d : Z) (s : fs) : run (errno + Z * option bytes) :=
  match split path with
  | None => Ret (inr (d, None))
  | Some (name, Some rest) =>
      e ← find name d s;
      match e with
      | None => Ret (inl ENOENT)
      | Some (_, e) =>
          match e_node e with
          | N_file _ => Ret (inl ENOTDIR)
          | N_dir sub => match fuel with O => Fuel_out | S fuel => descend fuel rest sub s end
          end
      end
  | Some (name, None) => Ret (inr (d, Some name))
  end.

Definition finish_op (op : dop) (s : fs) (r : errno + Z * option bytes) : run (fs * reply) :=
  match r with
  | inl e => Ret (s, inl e)
  | inr (d, None) => Ret (s, self_reply op d)
  | inr (d, Some name) => leaf_op op name d s
  end.

Lemma fs_op_descend fuel op path d s : fs_op fuel op path d s = descend fuel path d s ≫= finish_op op s.
Proof.
  revert path d. induction fuel as [|fuel IH]; intros path d; destruct op; cbn in *;
    destruct (split path) as [[name [rest|]]|]; try done;
    (destruct (find name d s) as [[[i e]|]| | | | |]; try done; cbn; destruct (e_node e); try done; apply IH).
Qed.

(** ** Components of a path *)

Fixpoint split_on (p : bytes) : list bytes :=
  match p with
  | [] => [[]]
  | c :: t =>
      if c =? slash then [] :: split_on t
      else match split_on t with x :: xs => (c :: x) :: xs | [] => [[c]] end
  end.

Definition components (p : bytes) : list bytes := filter (fun c => c <> []) (split_on p).

Lemma split_on_slash t : components (slash :: t) = components t.
Proof. done. Qed.

Lemma skip_slashes_spec p :
  components (skip_slashes p) = components p /\ (length (skip_slashes p) <= length p)%nat /\
  match skip_slashes p with c :: _ => c <> slash | [] => True end.
Proof.
  induction p as [|c t IH]; cbn [skip_slashes length]; [done|]. destruct (c =? slash) eqn:E.
  - apply Z.eqb_eq in E as ->. destruct IH as (-> & Hl & Hc). rewrite split_on_slash. split; [done|]. split; [lia|done].
  - split; [done|]. split; [done|]. by apply Z.eqb_neq.
Qed.

Lemma strchr_slash_spec p :
  match strchr_slash p with
  | (n, Some sep) => split_on p = n :: split_on (tail sep) /\ exists t, sep = slash :: t /\ (length n + length sep = length p)%nat
  | (n, None) => n = p /\ split_on p = [p]
  end.
Proof.
  induction p as [|c t IH]; cbn; [done|]. destruct (c =? slash) eqn:E.
  - apply Z.eqb_eq in E as ->. split; [done|]. by exists t.
  - destruct (strchr_slash t) as [n [sep|]].
    + destruct IH as (-> & t' & -> & Hl). split; [done|]. exists t'. split; [done|]. cbn in *. lia.
    + destruct IH as [-> ->]. done.
Qed.

Lemma split_spec path :
  match split path with
  | None => components path = []
  | Some (name, Some rest) =>
      components path = name :: components rest /\ name <> [] /\ components rest <> [] /\ (length rest < length path)%nat
  | Some (name, None) => components path = [name] /\ name <> []
  end.
Proof.
  unfold split. destruct (skip_slashes_spec path) as (<- & Hl & Hc).
  destruct (skip_slashes path) as [|c p] eqn:Ep; [done|].
  pose proof (strchr_slash_spec (c :: p)) as Hs. destruct (strchr_slash (c :: p)) as [n [sep|]] eqn:En.
  - destruct Hs as (Hs & t & -> & Hlen). cbn [tail] in Hs.
    assert (Hn : n <> []).
    { intros ->. cbn in En. destruct (c =? slash) eqn:E; [|by destruct (strchr_slash p)]. lia. }
    destruct (skip_slashes_spec (slash :: t)) as (Hct & Hlt & Hcc).
    assert (Hcs : components (c :: p) = n :: components t).
    { unfold components. rewrite Hs. rewrite filter_cons. by rewrite decide_True by done. }
    destruct (skip_slashes (slash :: t)) as [|c' r] eqn:Er.
    + rewrite Hcs. rewrite split_on_slash in Hct. rewrite <- Hct. done.
    + rewrite Hcs, Hct, split_on_slash. split; [done|]. split; [done|]. rewrite split_on_slash in Hct. split.
      * rewrite <- Hct. unfold components. cbn. replace (c' =? slash) with false by (symmetry; by apply Z.eqb_neq).
        destruct (split_on r); rewrite filter_cons, decide_True; done.
      * destruct n; [done|]. cbn in *. lia.
  - destruct Hs as [-> Hs]. unfold components. rewrite Hs, filter_cons, decide_True by done. done.
Qed.

(** ** What a path leads to *)

Definition step_name (s : fs) (x : node) (n : bytes) : option node :=
  match x with
  | N_dir d => y ← dirs s !! d; '(_, e) ← find_in n (d_entries y); Some (e_node e)
  | N_file _ => None
  end.

Fixpoint walk (s : fs) (x : node) (cs : list bytes) : option node :=
  match cs with
  | [] => Some x
  | n :: cs => y ← step_name s x n; walk s y cs
  end.

(** Names are unique in a directory, entries lead to objects of the store, a
    directory has at most one entry that leads to it and the root has none. *)
Record fs_ok (root : Z) (s : fs) : Prop := {
  fo_root : is_Some (dirs s !! root);
  fo_names d x : dirs s !! d = Some x -> NoDup (e_name <$> d_entries x);
  fo_nodes d x e : dirs s !! d = Some x -> e ∈ d_entries x ->
    match e_node e with
    | N_file i => is_Some (inodes s !! i)
    | N_dir c => is_Some (dirs s !! c) /\ c <> root
    end;
  fo_parent d1 x1 e1 d2 x2 e2 c :
    dirs s !! d1 = Some x1 -> e1 ∈ d_entries x1 -> e_node e1 = N_dir c ->
    dirs s !! d2 = Some x2 -> e2 ∈ d_entries x2 -> e_node e2 = N_dir c -> d1 = d2 /\ e1 = e2;
  fo_fresh d : is_Some (dirs s !! d) \/ is_Some (inodes s !! d) -> d < next_id s;
  fo_inodes i x : inodes s !! i = Some x -> inode_ok (w := w) x;
}.

Lemma walk_app s x p q : walk s x (p ++ q) = walk s x p ≫= fun y => walk s y q.
Proof. revert x. induction p as [|n p IH]; intros x; cbn; [done|]. destruct (step_name s x n); cbn; [apply IH|done]. Qed.

Lemma walk_cons s x n p : walk s x (n :: p) = step_name s x n ≫= fun y => walk s y p.
Proof. done. Qed.

Lemma walk_snoc s x p n : walk s x (p ++ [n]) = walk s x p ≫= fun y => step_name s y n.
Proof. rewrite walk_app. destruct (walk s x p); cbn; [|done]. by destruct (step_name s n0 n). Qed.

Lemma find_in_Some n es i e : find_in n es = Some (i, e) -> es !! i = Some e /\ e_name e = n.
Proof.
  revert i. induction es as [|x es IH]; intros i; cbn; [done|]. case_decide as E; [by intros [= <- <-]|].
  destruct (find_in n es) as [[j y]|]; cbn; [|done]. intros [= <- <-]. by apply IH.
Qed.

Lemma find_in_None n es e : find_in n es = None -> e ∈ es -> e_name e <> n.
Proof.
  induction es as [|x es IH]; cbn; intros H He; [by apply elem_of_nil in He|].
  case_decide as E; [done|]. apply elem_of_cons in He as [->|He]; [done|].
  apply IH; [|done]. by destruct (find_in n es) as [[j y]|].
Qed.

Lemma find_in_is n es e : NoDup (e_name <$> es) -> e ∈ es -> e_name e = n -> exists i, find_in n es = Some (i, e).
Proof.
  intros Hn He En. destruct (find_in n es) as [[i e']|] eqn:E; [|by pose proof (find_in_None _ _ _ E He)].
  exists i. do 2 f_equal. apply find_in_Some in E as [E1 E2]. apply list_elem_of_lookup in He as [j Hj].
  assert (i = j) as ->; [|congruence].
  eapply (NoDup_lookup _ i j); [exact Hn|..]; rewrite list_lookup_fmap, ?E1, ?Hj; cbn; by rewrite ?E2, ?En.
Qed.

Lemma step_dir s d n y : dirs s !! d = Some y ->
  step_name s (N_dir d) n = e_node ∘ snd <$> find_in n (d_entries y).
Proof. intros E. cbn. rewrite E. cbn. by destruct (find_in n (d_entries y)) as [[? ?]|]. Qed.

Lemma step_valid root s x n y :
  fs_ok root s -> step_name s x n = Some y ->
  exists d dd e, x = N_dir d /\ dirs s !! d = Some dd /\ e ∈ d_entries dd /\ e_name e = n /\ e_node e = y.
Proof.
  intros H. destruct x as [i|d]; cbn; [done|]. destruct (dirs s !! d) as [dd|] eqn:Ed; cbn; [|done].
  destruct (find_in n (d_entries dd)) as [[j e]|] eqn:Ef; cbn; [|done]. intros [= <-].
  apply find_in_Some in Ef as [Ej En]. exists d, dd, e. split; [done|]. split; [done|].
  split; [by eapply list_elem_of_lookup_2|done].
Qed.

Lemma walk_dir root s p d : fs_ok root s -> walk s (N_dir root) p = Some (N_dir d) -> is_Some (dirs s !! d).
Proof.
  intros H. destruct p as [|n p _] using rev_ind; [intros [= <-]; apply H|].
  rewrite walk_snoc. intros (x & _ & E)%bind_Some. destruct (step_valid root s x n _ H E) as (d' & dd & e & -> & Hd & He & _ & En).
  pose proof (fo_nodes _ _ H _ _ _ Hd He) as Hv. rewrite En in Hv. apply Hv.
Qed.

Lemma walk_entry root s p d :
  fs_ok root s -> walk s (N_dir root) p = Some (N_dir d) ->
  d = root \/ exists d1 x1 e, dirs s !! d1 = Some x1 /\ e ∈ d_entries x1 /\ e_node e = N_dir d.
Proof.
  intros H. destruct p as [|n p _] using rev_ind; [intros [= <-]; by left|]. rewrite walk_snoc.
  intros (x & _ & E)%bind_Some. right.
  destruct (step_valid root s x n _ H E) as (d' & dd & e & -> & Hd & He & _ & En). by exists d', dd, e.
Qed.

(** A directory has one path. *)
Lemma walk_inj root s p q d :
  fs_ok root s -> walk s (N_dir root) p = Some (N_dir d) -> walk s (N_dir root) q = Some (N_dir d) -> p = q.
Proof.
  intros H. revert q d. induction p as [|n p IH] using rev_ind; intros q d.
  - intros [= <-]. destruct q as [|m q _] using rev_ind; [done|]. rewrite walk_snoc.
    intros (x & _ & E)%bind_Some. destruct (step_valid root s x m _ H E) as (d' & dd & e & -> & Hd & He & _ & En).
    pose proof (fo_nodes _ _ H _ _ _ Hd He) as Hv. rewrite En in Hv. by destruct Hv.
  - rewrite walk_snoc. intros (x & Ex & E)%bind_Some.
    destruct (step_valid root s x n _ H E) as (d1 & dd1 & e1 & -> & Hd1 & He1 & Nn1 & En1).
    destruct q as [|m q _] using rev_ind.
    { intros [= <-]. pose proof (fo_nodes _ _ H _ _ _ Hd1 He1) as Hv. rewrite En1 in Hv. by destruct Hv. }
    rewrite walk_snoc. intros (y & Ey & E')%bind_Some.
    destruct (step_valid root s y m _ H E') as (d2 & dd2 & e2 & -> & Hd2 & He2 & Nn2 & En2).
    destruct (fo_parent _ _ H _ _ _ _ _ _ _ Hd1 He1 En1 Hd2 He2 En2) as [-> ->].
    rewrite (IH q d2 Ex Ey). congruence.
Qed.

(** Directories that change only outside of the entries with the name [n] of [d]
    leave all paths that do not lead through it. *)
Lemma walk_update root s s' pre d n :
  fs_ok root s -> walk s (N_dir root) pre = Some (N_dir d) ->
  (forall d1 m, is_Some (dirs s !! d1) -> d1 <> d \/ m <> n -> step_name s' (N_dir d1) m = step_name s (N_dir d1) m) ->
  forall q, ~ (pre ++ [n]) `prefix_of` q -> walk s' (N_dir root) q = walk s (N_dir root) q.
Proof.
  intros H Hp Hs q. induction q as [|m q IH] using rev_ind; [done|]. intros Hq.
  rewrite !walk_snoc, IH by (intros Hpre; apply Hq; by apply prefix_app_r).
  destruct (walk s (N_dir root) q) as [[i|d1]|] eqn:E; cbn [mbind option_bind]; [done| |done].
  apply Hs; [by eapply walk_dir|]. destruct (decide (d1 = d)) as [->|]; [right|by left].
  intros ->. apply Hq. by rewrite (walk_inj root s pre q d H Hp E).
Qed.

(** Nothing is reached through a missing entry or through a file. *)
Lemma walk_prefix_None s x p q : walk s x p = None -> walk s x (p ++ q) = None.
Proof. rewrite walk_app. by intros ->. Qed.

(** ** Specification *)

Abbreviation view := (list bytes -> option node).

(** The first component before the last one that is missing or is a file. *)
Fixpoint path_err (v : view) (pre cs : list bytes) : option errno :=
  match cs with
  | [] | [_] => None
  | n :: rest =>
      match v (pre ++ [n]) with
      | None => Some ENOENT
      | Some (N_file _) => Some ENOTDIR
      | Some (N_dir _) => path_err v (pre ++ [n]) rest
      end
  end.

Definition upd (v : view) (p : list bytes) (x : option node) : view :=
  fun q => if decide (q = p) then x else v q.

Definition out_of_memory (s : fs) : Prop := false ∈ answers s.

Section Spec.
Context (root : Z) (s s' : fs).

Definition before : view := walk s (N_dir root).
Definition after : view := walk s' (N_dir root).

(** Files other than [i] keep their content. *)
Definition keeps_files (i : option Z) : Prop :=
  forall j x, inodes s !! j = Some x -> Some j <> i -> inodes s' !! j = Some x.

Definition unchanged : Prop := (forall q, after q = before q) /\ keeps_files None.

Definition becomes (p : list bytes) (x : option node) : Prop :=
  (forall q, after q = upd before p x q) /\ keeps_files None.

(** An operation on the last component, all others being directories. *)
Definition leaf_spec (op : dop) (p : list bytes) (r : reply) : Prop :=
  match op, before p with
  | D_access, Some _ => r = inr H_ok /\ unchanged
  | D_access, None => r = inl ENOENT /\ unchanged
  | D_open _, Some (N_dir d) => r = inr (H_dir d) /\ unchanged
  | D_open flags, Some (N_file i) =>
      (r = inr (H_file i (has_flag flags O_APPEND)) \/ (r = inl ENOMEM /\ out_of_memory s)) /\
      (forall q, after q = before q) /\ keeps_files (Some i) /\
      forall x, inodes s !! i = Some x -> exists x', inodes s' !! i = Some x' /\
        content x' = if has_flag flags O_TRUNC then [] else content x
  | D_open flags, None =>
      if has_flag flags O_CREAT then
        (exists i, inodes s !! i = None /\ content <$> (inodes s' !! i) = Some [] /\ becomes p (Some (N_file i)) /\
           (r = inr (H_file i (has_flag flags O_APPEND)) \/ (r = inl ENOMEM /\ out_of_memory s))) \/
        (r = inl ENOMEM /\ unchanged /\ out_of_memory s)
      else r = inl ENOENT /\ unchanged
  | D_mkdir, Some _ => r = inl EEXIST /\ unchanged
  | D_mkdir, None =>
      (exists d, dirs s !! d = None /\ becomes p (Some (N_dir d)) /\ r = inr H_ok) \/
      (r = inl ENOMEM /\ unchanged /\ out_of_memory s)
  | D_unlink, None => r = inl ENOENT /\ unchanged
  | D_unlink, Some (N_dir _) => r = inl EISDIR /\ unchanged
  | D_unlink, Some (N_file _) => r = inr H_ok /\ becomes p None
  | D_rmdir, None => r = inl ENOENT /\ unchanged
  | D_rmdir, Some (N_file _) => r = inl ENOTDIR /\ unchanged
  | D_rmdir, Some (N_dir _) =>
      (r = inl ENOTEMPTY /\ unchanged /\ exists n, before (p ++ [n]) <> None) \/
      (r = inr H_ok /\ becomes p None /\ forall n, before (p ++ [n]) = None)
  end.

Definition dir_spec (op : dop) (p : list bytes) (r : reply) : Prop :=
  match p with
  | [] => r = self_reply op root /\ unchanged
  | _ =>
      match path_err before [] p with
      | Some e => r = inl e /\ unchanged
      | None => leaf_spec op p r
      end
  end.

End Spec.

(** ** The walk *)

Lemma find_spec name d s y : dirs s !! d = Some y -> find name d s = Ret (find_in name (d_entries y)).
Proof. unfold find. by intros ->. Qed.

Lemma descend_walks root s fuel path pre d :
  fs_ok root s -> walk s (N_dir root) pre = Some (N_dir d) -> (length path <= fuel)%nat ->
  let cs := components path in
  match descend fuel path d s with
  | Ret (inl e) => path_err (before root s) pre cs = Some e /\ cs <> []
  | Ret (inr (d', None)) => cs = [] /\ d' = d
  | Ret (inr (d', Some n)) =>
      exists cs0, cs = cs0 ++ [n] /\ walk s (N_dir root) (pre ++ cs0) = Some (N_dir d') /\
                  path_err (before root s) pre cs = None
  | _ => False
  end.
Proof.
  intros H. revert path pre d. induction fuel as [|fuel IH]; intros path pre d Hp Hl cs; unfold cs.
  { destruct path; [|cbn in Hl; lia]. done. }
  cbn [descend]. pose proof (split_spec path) as Hs. destruct (split path) as [[name [rest|]]|].
  - destruct Hs as (-> & Hne & Hr & Hlt). destruct (walk_dir _ _ _ _ H Hp) as [y Hy].
    rewrite (find_spec _ _ _ _ Hy). cbn [mbind run_bind].
    assert (Hst : before root s (pre ++ [name]) = e_node ∘ snd <$> find_in name (d_entries y)).
    { unfold before. rewrite walk_snoc, Hp. cbn [mbind option_bind]. by apply step_dir. }
    destruct (components rest) as [|c rs] eqn:Er; [done|]. cbn [path_err].
    rewrite Hst. destruct (find_in name (d_entries y)) as [[i e]|]; cbn; [|done].
    destruct (e_node e) as [ino|sub] eqn:En; [done|]. cbn in Hst. rewrite En in Hst.
    specialize (IH rest (pre ++ [name]) sub Hst ltac:(lia)). cbv zeta in IH. rewrite Er in IH.
    destruct (descend fuel rest sub s) as [[e'|[d' [n|]]]| | | | |]; [naive_solver| | |done..].
    + destruct IH as (cs0 & E & Hw & Hpe). exists (name :: cs0). split; [by rewrite E|].
      split; [by rewrite <- app_assoc in Hw|exact Hpe].
    + by destruct IH.
  - destruct Hs as [-> Hne]. exists []. rewrite app_nil_r. done.
  - done.
Qed.

(** ** Changes of the store *)

Lemma allocate_spec s s' ok :
  allocate s = (s', ok) ->
  dirs s' = dirs s /\ inodes s' = inodes s /\ next_id s' = next_id s /\
  (ok = false -> out_of_memory s) /\ (out_of_memory s' -> out_of_memory s).
Proof.
  unfold allocate, out_of_memory. intros [= <- <-]. cbn. destruct (answers s) as [|b l]; cbn; [done|].
  split; [done|]. split; [done|]. split; [done|]. split; [intros ->; by left|by right].
Qed.

(** A store that differs in what no path leads to. *)
Record same_tree (s s' : fs) : Prop := {
  st_dirs d x : dirs s !! d = Some x -> exists x', dirs s' !! d = Some x' /\ d_entries x' = d_entries x;
  st_inodes i x : inodes s !! i = Some x -> inodes s' !! i = Some x;
}.

Lemma same_tree_walk root s s' : fs_ok root s -> same_tree s s' -> forall q, walk s' (N_dir root) q = walk s (N_dir root) q.
Proof.
  intros H Hs q. induction q as [|m q IH] using rev_ind; [done|]. rewrite !walk_snoc, IH.
  destruct (walk s (N_dir root) q) as [[i|d]|] eqn:E; cbn [mbind option_bind]; [done| |done].
  destruct (walk_dir _ _ _ _ H E) as [x Hx]. destruct (st_dirs _ _ Hs _ _ Hx) as (x' & Hx' & He).
  by rewrite (step_dir s' _ _ _ Hx'), (step_dir s _ _ _ Hx), He.
Qed.

Lemma same_tree_unchanged root s s' : fs_ok root s -> same_tree s s' -> unchanged root s s'.
Proof.
  intros H Hs. split; [by apply same_tree_walk|]. intros j x Hj _. by apply (st_inodes _ _ Hs).
Qed.

Lemma allocate_ok root s s' ok : fs_ok root s -> allocate s = (s', ok) -> fs_ok root s' /\ same_tree s s'.
Proof.
  intros H (E1 & E2 & E3 & _)%allocate_spec. split; [|split; rewrite ?E1, ?E2; eauto].
  destruct H. split; rewrite ?E1, ?E2, ?E3; done.
Qed.

Lemma same_tree_refl s : same_tree s s.
Proof. split; eauto. Qed.

Lemma same_tree_trans s1 s2 s3 : same_tree s1 s2 -> same_tree s2 s3 -> same_tree s1 s3.
Proof.
  intros H1 H2. split.
  - intros d x Hx. destruct (st_dirs _ _ H1 _ _ Hx) as (x1 & Hx1 & E1).
    destruct (st_dirs _ _ H2 _ _ Hx1) as (x2 & Hx2 & E2). exists x2. split; [done|congruence].
  - intros i x Hx. by apply (st_inodes _ _ H2), (st_inodes _ _ H1).
Qed.

Lemma make_inode_ok root s s' r :
  7 <= w -> fs_ok root s -> make_inode s = (s', r) ->
  fs_ok root s' /\ same_tree s s' /\ (out_of_memory s' -> out_of_memory s) /\
  match r with
  | None => out_of_memory s
  | Some i => inodes s !! i = None /\ inodes s' !! i = Some inode_new
  end.
Proof.
  intros Hw H. unfold make_inode. destruct (allocate s) as [s1 ok] eqn:Ea.
  destruct (allocate_ok root _ _ _ H Ea) as [H1 Hs1]. apply allocate_spec in Ea as (E1 & E2 & E3 & E4 & E5).
  destruct ok; cbn; intros [= <- <-]; [|by eauto].
  assert (Hn : inodes s1 !! next_id s1 = None).
  { destruct (inodes s1 !! next_id s1) eqn:E; [|done].
    pose proof (fo_fresh _ _ H1 (next_id s1) (or_intror (ex_intro _ _ E))). lia. }
  assert (Hs : forall i x, inodes s1 !! i = Some x -> <[next_id s1 := inode_new]> (inodes s1) !! i = Some x).
  { intros i x Hi. rewrite lookup_insert_ne by congruence. done. }
  split; [|split; [|split; [done|split]]]; cbn.
  - destruct H1. split; cbn; try done.
    + intros d x e Hd He. specialize (fo_nodes0 d x e Hd He). destruct (e_node e) as [i|c]; [|done].
      destruct fo_nodes0 as [y Hy]. eauto.
    + intros d [Hd|Hd]; [by apply Z.lt_lt_succ_r, fo_fresh0; left|].
      destruct (decide (d = next_id s1)) as [->|Hne]; [lia|]. rewrite lookup_insert_ne in Hd by done.
      apply Z.lt_lt_succ_r, fo_fresh0. by right.
    + intros i x [[<- <-]|[? Hi]]%lookup_insert_Some; [|by eapply fo_inodes0].
      split; [done|done|by left].
  - destruct Hs1. split; cbn; [done|]. intros i x Hi. by apply Hs, st_inodes0.
  - by rewrite <- E2.
  - by rewrite lookup_insert_eq.
Qed.

Lemma make_dir_ok root s s' r :
  fs_ok root s -> make_dir s = (s', r) ->
  fs_ok root s' /\ same_tree s s' /\ (out_of_memory s' -> out_of_memory s) /\
  match r with
  | None => out_of_memory s
  | Some d => dirs s !! d = None /\ dirs s' !! d = Some dir_new /\
      forall d1 x1 e, dirs s' !! d1 = Some x1 -> e ∈ d_entries x1 -> e_node e <> N_dir d
  end.
Proof.
  intros H. unfold make_dir. destruct (allocate s) as [s1 ok] eqn:Ea.
  destruct (allocate_ok root _ _ _ H Ea) as [H1 Hs1]. apply allocate_spec in Ea as (E1 & E2 & E3 & E4 & E5).
  destruct ok; cbn; intros [= <- <-]; [|by eauto].
  assert (Hn : dirs s1 !! next_id s1 = None).
  { destruct (dirs s1 !! next_id s1) eqn:E; [|done].
    pose proof (fo_fresh _ _ H1 (next_id s1) (or_introl (ex_intro _ _ E))). lia. }
  assert (Hs : forall d x, <[next_id s1 := dir_new]> (dirs s1) !! d = Some x ->
    forall e, e ∈ d_entries x -> dirs s1 !! d = Some x).
  { intros d x [[<- <-]|[_ Hd]]%lookup_insert_Some e He; [by apply elem_of_nil in He|done]. }
  assert (Hi : forall d, is_Some (dirs s1 !! d) -> is_Some (<[next_id s1 := dir_new]> (dirs s1) !! d)).
  { intros d Hd. apply lookup_insert_is_Some. by destruct (decide (next_id s1 = d)); [left|right]. }
  split; [|split; [|split; [done|split; [|split]]]]; cbn.
  - split; cbn.
    + apply Hi, H1.
    + intros d x [[<- <-]|[_ Hd]]%lookup_insert_Some; [constructor|by eapply fo_names].
    + intros d x e Hd He. pose proof (fo_nodes _ _ H1 d x e (Hs _ _ Hd _ He) He) as Hv.
      destruct (e_node e); [done|]. destruct Hv. split; [by apply Hi|done].
    + intros d1 x1 e1 d2 x2 e2 c Hd1 He1 N1 Hd2 He2 N2.
      eapply (fo_parent _ _ H1); [by eapply Hs|done..|by eapply Hs|done|done].
    + intros d [Hd|Hd]; [|by apply Z.lt_lt_succ_r, (fo_fresh _ _ H1); right].
      destruct (decide (d = next_id s1)) as [->|Hne]; [lia|]. rewrite lookup_insert_ne in Hd by done.
      apply Z.lt_lt_succ_r, (fo_fresh _ _ H1). by left.
    + apply H1.
  - destruct Hs1 as [S1 S2]. split; cbn; [|done]. intros d x Hd. destruct (S1 d x Hd) as (x' & Hx' & He).
    exists x'. rewrite lookup_insert_ne by congruence. done.
  - by rewrite <- E1.
  - by rewrite lookup_insert_eq.
  - intros d1 x1 e Hd1 He En. pose proof (fo_nodes _ _ H1 _ _ _ (Hs _ _ Hd1 _ He) He) as Hv. rewrite En, Hn in Hv.
    by destruct Hv as [[? ?] _].
Qed.

(** One directory gets other entries. *)
Section Change.
Context (root : Z) (s : fs) (pre : list bytes) (d : Z) (y : dir) (n : bytes) (es : list entry).
Context (H : fs_ok root s) (Hp : walk s (N_dir root) pre = Some (N_dir d)) (Hy : dirs s !! d = Some y).

Definition changed : fs := set_dir d {| d_entries := es; d_pos := d_pos y |} s.

Context (Hother : forall m, m <> n -> e_node ∘ snd <$> find_in m es = e_node ∘ snd <$> find_in m (d_entries y)).

Lemma changed_step d1 m :
  step_name changed (N_dir d1) m =
  if decide (d1 = d) then e_node ∘ snd <$> find_in m es else step_name s (N_dir d1) m.
Proof.
  case_decide as E.
  - subst d1. apply (step_dir changed d m {| d_entries := es; d_pos := d_pos y |}). apply lookup_insert_eq.
  - cbn. by rewrite lookup_insert_ne.
Qed.

Lemma changed_walk q :
  walk changed (N_dir root) q =
  if decide ((pre ++ [n]) `prefix_of` q) then
    (e_node ∘ snd <$> find_in n es) ≫= fun x => walk changed x (drop (S (length pre)) q)
  else walk s (N_dir root) q.
Proof.
  assert (Hout : forall q, ~ (pre ++ [n]) `prefix_of` q -> walk changed (N_dir root) q = walk s (N_dir root) q).
  { apply (walk_update root s changed pre d n H Hp). intros d1 m _ Hd. rewrite changed_step.
    case_decide as E; [|done]. subst d1. destruct Hd as [?|Hm]; [done|]. rewrite Hother by done.
    symmetry. by apply step_dir. }
  case_decide as E; [|by apply Hout]. destruct E as [q' ->].
  rewrite <- app_assoc. rewrite walk_app, Hout, Hp; [|intros Hpre%prefix_length; rewrite length_app in Hpre; cbn in Hpre; lia].
  cbn [mbind option_bind app walk]. rewrite changed_step, decide_True by done.
  replace (drop (S (length pre)) (pre ++ n :: q')) with q'.
  - done.
  - rewrite drop_app_ge by lia. by replace (S (length pre) - length pre)%nat with 1%nat by lia.
Qed.

(** The new entry is a file or an empty directory, or the name is gone and nothing
    was behind it. *)
Lemma changed_upd x :
  e_node ∘ snd <$> find_in n es = x ->
  match x with
  | Some (N_dir c) => exists z, dirs changed !! c = Some z /\ d_entries z = []
  | _ => True
  end ->
  (forall q, q <> [] -> walk s (N_dir root) (pre ++ [n] ++ q) = None) ->
  forall q, walk changed (N_dir root) q = upd (walk s (N_dir root)) (pre ++ [n]) x q.
Proof.
  intros Hx Hc Hgone q. rewrite changed_walk, Hx. unfold upd. case_decide as E.
  - destruct E as [q' ->]. rewrite drop_app_ge by (rewrite length_app; cbn; lia).
    replace (S (length pre) - length (pre ++ [n]))%nat with 0%nat by (rewrite length_app; cbn; lia). rewrite drop_0.
    destruct q' as [|m q'].
    + rewrite app_nil_r, decide_True by done. by destruct x.
    + rewrite decide_False by (intros Hq%(f_equal length); rewrite length_app in Hq; cbn in Hq; lia).
      rewrite <- app_assoc, Hgone by done. destruct x as [[i|c]|]; [done| |done].
      destruct Hc as (z & Hz & Ez). cbn [mbind option_bind]. by rewrite walk_cons, (step_dir _ _ _ _ Hz), Ez.
  - by rewrite decide_False by (intros ->; apply E; done).
Qed.

End Change.

(** ** Adding and removing an entry *)

(** A new name in a directory, for a node that has none. *)
Definition nameless root (s : fs) (x : node) : Prop :=
  match x with
  | N_file i => is_Some (inodes s !! i)
  | N_dir c => dirs s !! c = Some dir_new /\ c <> root /\
      forall d1 x1 e, dirs s !! d1 = Some x1 -> e ∈ d_entries x1 -> e_node e <> N_dir c
  end.

Lemma new_name_ok root s d y n x : fs_ok root s -> dirs s !! d = Some y -> find_in n (d_entries y) = None ->
  nameless root s x ->
  fs_ok root (set_dir d {| d_entries := {| e_name := n; e_node := x |} :: d_entries y; d_pos := d_pos y |} s).
Proof.
  intros H Hy Hf Hx. set (e := {| e_name := n; e_node := x |}).
  assert (Hlk : forall d1 x1 e1, <[d := {| d_entries := e :: d_entries y; d_pos := d_pos y |}]> (dirs s) !! d1 = Some x1 ->
    e1 ∈ d_entries x1 -> (d1 = d /\ e1 = e) \/ exists x0, dirs s !! d1 = Some x0 /\ e1 ∈ d_entries x0).
  { intros d1 x1 e1 [[<- <-]|[_ Hd]]%lookup_insert_Some He; [|by eauto].
    apply elem_of_cons in He as [->|He]; [by left|eauto]. }
  assert (Hi : forall c, is_Some (dirs s !! c) ->
    is_Some (<[d := {| d_entries := e :: d_entries y; d_pos := d_pos y |}]> (dirs s) !! c)).
  { intros c Hc. apply lookup_insert_is_Some. by destruct (decide (d = c)); [left|right]. }
  split; cbn.
  + apply Hi, H.
  + intros d1 x1 [[<- <-]|[_ Hd]]%lookup_insert_Some; [|by eapply (fo_names _ _ H)].
    cbn. constructor; [|by eapply (fo_names _ _ H)]. intros (e1 & En & He1)%list_elem_of_fmap.
    by apply (find_in_None n _ e1 Hf).
  + intros d1 x1 e1 Hd He. destruct (Hlk _ _ _ Hd He) as [[-> ->]|(x0 & Hx0 & He0)].
    * cbn. destruct x as [i|c]; [done|]. destruct Hx as (Hc & Hr & _). split; [|done]. apply Hi. rewrite Hc. by eexists.
    * pose proof (fo_nodes _ _ H _ _ _ Hx0 He0) as Hv. destruct (e_node e1); [done|]. destruct Hv. split; [by apply Hi|done].
  + intros d1 x1 e1 d2 x2 e2 c Hd1 He1 N1' Hd2 He2 N2'.
    assert (Hno : forall d0 x0 e0, dirs s !! d0 = Some x0 -> e0 ∈ d_entries x0 -> e_node e0 = N_dir c -> e_node e = N_dir c -> False).
    { intros d0 x0 e0 Hd0 He0 Hn0 Hne. cbn in Hne. subst x. destruct Hx as (_ & _ & Hx). by apply (Hx d0 x0 e0). }
    destruct (Hlk _ _ _ Hd1 He1) as [[-> ->]|(x01 & Hx1 & He1')], (Hlk _ _ _ Hd2 He2) as [[-> ->]|(x02 & Hx2 & He2')]; [done| | |].
    * by exfalso; eapply Hno.
    * by exfalso; eapply Hno.
    * by eapply (fo_parent _ _ H).
  + intros d1 [Hd|Hd]; [|by apply (fo_fresh _ _ H); right].
    apply (fo_fresh _ _ H). left. apply lookup_insert_is_Some in Hd as [<-|[_ ?]]; [by eexists|done].
  + apply H.
Qed.

Lemma add_entry_ok root s pre d n x s' ok :
  fs_ok root s -> walk s (N_dir root) pre = Some (N_dir d) -> walk s (N_dir root) (pre ++ [n]) = None ->
  nameless root s x ->
  add_entry n x d s = Ret (s', ok) ->
  fs_ok root s' /\ inodes s' = inodes s /\ (out_of_memory s' -> out_of_memory s) /\
  if ok : bool then forall q, walk s' (N_dir root) q = upd (walk s (N_dir root)) (pre ++ [n]) (Some x) q
  else out_of_memory s /\ same_tree s s'.
Proof.
  intros H Hp Hnone Hx. unfold add_entry.
  destruct (allocate s) as [s1 ok1] eqn:E1. destruct (allocate_ok root _ _ _ H E1) as [H1 T1].
  apply allocate_spec in E1 as (D1 & I1 & N1 & F1 & M1). destruct ok1; cbn [negb].
  2: { intros [= <- <-]. split; [done|]. split; [done|]. split; [done|]. split; [by apply F1|done]. }
  destruct (allocate s1) as [s2 ok2] eqn:E2. destruct (allocate_ok root _ _ _ H1 E2) as [H2 T2].
  apply allocate_spec in E2 as (D2 & I2 & N2 & F2 & M2). destruct ok2; cbn [negb].
  2: { intros [= <- <-]. split; [done|]. split; [congruence|]. split; [auto|]. split; [auto|]. by eapply same_tree_trans. }
  destruct (walk_dir _ _ _ _ H Hp) as [y Hy]. assert (Hy2 : dirs s2 !! d = Some y) by congruence.
  rewrite Hy2. cbn. intros [= <- <-]. set (e := {| e_name := n; e_node := x |}).
  assert (Hp2 : walk s2 (N_dir root) pre = Some (N_dir d)).
  { by rewrite (same_tree_walk root s1 s2 H1 T2), (same_tree_walk root s s1 H T1). }
  assert (Hw : forall q, walk s2 (N_dir root) q = walk s (N_dir root) q).
  { intros q. by rewrite (same_tree_walk root s1 s2 H1 T2), (same_tree_walk root s s1 H T1). }
  assert (Hf : find_in n (d_entries y) = None).
  { rewrite walk_snoc, Hp in Hnone. cbn [mbind option_bind] in Hnone. rewrite (step_dir _ _ _ _ Hy) in Hnone.
    by destruct (find_in n (d_entries y)). }
  rewrite D1 in D2. split; [|split; [cbn; congruence|split; [cbn; auto|]]].
  - apply new_name_ok; [done|done|done|]. unfold nameless in *. by rewrite D2, I2, I1.
  - intros q. etransitivity; [eapply (changed_upd root s2 pre d y n (e :: d_entries y) H2 Hp2 Hy2)|].
    + intros m Hm. cbn [find_in]. rewrite decide_False by (cbn; congruence). by destruct (find_in m (d_entries y)) as [[? ?]|].
    + cbn [find_in]. by rewrite decide_True.
    + cbn. destruct x as [i|c]; [done|]. pose proof (proj1 Hx) as Hc. exists dir_new. split; [|done].
      unfold changed. cbn. rewrite lookup_insert_ne; [by rewrite D2|]. intros <-.
      destruct (walk_entry root s pre d H Hp) as [->|(d1 & x1 & e1 & Hd1 & He1 & N1')]; [by destruct Hx as (_ & ? & _)|].
      destruct Hx as (_ & _ & Hx). by apply (Hx d1 x1 e1).
    + intros q' Hq'. rewrite Hw, app_assoc. by apply walk_prefix_None.
    + unfold upd. case_decide; [done|apply Hw].
Qed.

Lemma remove_at_sublist i es : remove_at i es `sublist_of` es.
Proof. unfold remove_at. rewrite <- delete_take_drop. apply sublist_delete. Qed.

Lemma elem_of_remove_at i es (e : entry) : e ∈ remove_at i es -> e ∈ es.
Proof. intros He. eapply elem_of_sublist; [exact He|apply remove_at_sublist]. Qed.

Lemma find_in_remove_at n m i e es :
  NoDup (e_name <$> es) -> find_in n es = Some (i, e) ->
  e_node ∘ snd <$> find_in m (remove_at i es) =
  if decide (m = n) then None else e_node ∘ snd <$> find_in m es.
Proof.
  revert i. induction es as [|x es IH]; intros i Hnd; cbn [find_in]; [done|]. apply list.NoDup_cons in Hnd as [Hx Hnd].
  destruct (decide (e_name x = n)) as [En|En].
  - intros [= <- <-]. unfold remove_at. cbn [take drop app]. rewrite drop_0. destruct (decide (m = n)) as [Em|Em].
    + subst m n. destruct (find_in (e_name x) es) as [[j y]|] eqn:E; [|done]. exfalso. apply Hx.
      apply find_in_Some in E as [Ej Ey]. apply list_elem_of_fmap. exists y. split; [done|by eapply list_elem_of_lookup_2].
    + rewrite decide_False by congruence. by destruct (find_in m es) as [[? ?]|].
  - destruct (find_in n es) as [[j y]|] eqn:E; cbn [fmap option_fmap option_map]; [|done]. intros [= <- <-].
    specialize (IH j Hnd eq_refl). unfold remove_at in *. cbn [take drop app find_in].
    destruct (decide (m = n)) as [Em|Em].
    + rewrite decide_False by congruence. by destruct (find_in m (take j es ++ drop (S j) es)) as [[? ?]|].
    + destruct (decide (e_name x = m)); [done|].
      destruct (find_in m (take j es ++ drop (S j) es)) as [[? ?]|], (find_in m es) as [[? ?]|]; exact IH.
Qed.

Lemma remove_ok root s pre d n i e y s' :
  fs_ok root s -> walk s (N_dir root) pre = Some (N_dir d) -> dirs s !! d = Some y ->
  find_in n (d_entries y) = Some (i, e) ->
  (forall q, q <> [] -> walk s (N_dir root) (pre ++ [n] ++ q) = None) ->
  remove i d s = Ret s' ->
  fs_ok root s' /\ becomes root s s' (pre ++ [n]) None.
Proof.
  intros H Hp Hy Hf Hq. unfold remove. rewrite Hy. cbn. intros [= <-].
  pose proof (fo_names _ _ H _ _ Hy) as Hnd.
  assert (Hlk : forall d1 x1 e1, <[d := {| d_entries := remove_at i (d_entries y); d_pos := d_pos y |}]> (dirs s) !! d1 = Some x1 ->
    e1 ∈ d_entries x1 -> exists x0, dirs s !! d1 = Some x0 /\ e1 ∈ d_entries x0).
  { intros d1 x1 e1 [[<- <-]|[_ Hd]]%lookup_insert_Some He; [|by eauto]. exists y. split; [done|by eapply elem_of_remove_at]. }
  assert (Hi : forall c, is_Some (dirs s !! c) ->
    is_Some (<[d := {| d_entries := remove_at i (d_entries y); d_pos := d_pos y |}]> (dirs s) !! c)).
  { intros c Hc. apply lookup_insert_is_Some. by destruct (decide (d = c)); [left|right]. }
  split; [split; cbn|split].
  - apply Hi, H.
  - intros d1 x1 [[<- <-]|[_ Hd]]%lookup_insert_Some; [|by eapply (fo_names _ _ H)]. cbn.
    eapply sublist_NoDup; [exact Hnd|]. apply fmap_sublist, remove_at_sublist.
  - intros d1 x1 e1 Hd He. destruct (Hlk _ _ _ Hd He) as (x0 & Hx0 & He0).
    pose proof (fo_nodes _ _ H _ _ _ Hx0 He0) as Hv. destruct (e_node e1); [done|]. destruct Hv. split; [by apply Hi|done].
  - intros d1 x1 e1 d2 x2 e2 c Hd1 He1 N1 Hd2 He2 N2.
    destruct (Hlk _ _ _ Hd1 He1) as (x01 & ? & ?), (Hlk _ _ _ Hd2 He2) as (x02 & ? & ?). by eapply (fo_parent _ _ H).
  - intros d1 [Hd|Hd]; [|by apply (fo_fresh _ _ H); right].
    apply (fo_fresh _ _ H). left. apply lookup_insert_is_Some in Hd as [<-|[_ ?]]; [by eexists|done].
  - apply H.
  - unfold after, before. apply (changed_upd root s pre d y n (remove_at i (d_entries y)) H Hp Hy).
    + intros m Hm. rewrite (find_in_remove_at n m i e) by done. by rewrite decide_False.
    + rewrite (find_in_remove_at n n i e) by done. by rewrite decide_True.
    + done.
    + done.
  - by intros j x Hj _.
Qed.

(** ** Operations on the last component *)

Lemma add_entry_ret n x d s y : dirs s !! d = Some y -> exists s' ok, add_entry n x d s = Ret (s', ok).
Proof.
  intros Hy. unfold add_entry. destruct (allocate s) as [s1 ok1] eqn:E1.
  apply allocate_spec in E1 as (D1 & _). destruct ok1; cbn [negb]; [|by eexists _, _].
  destruct (allocate s1) as [s2 ok2] eqn:E2. apply allocate_spec in E2 as (D2 & _).
  destruct ok2; cbn [negb]; [|by eexists _, _]. rewrite D2, D1, Hy. by eexists _, _.
Qed.

Section Leaf.
Context (Hw : 7 <= w <= 64) (root : Z) (s : fs) (pre : list bytes) (d : Z) (n : bytes).
Context (H : fs_ok root s) (Hp : walk s (N_dir root) pre = Some (N_dir d)).

Lemma leaf_before y : dirs s !! d = Some y ->
  before root s (pre ++ [n]) = e_node ∘ snd <$> find_in n (d_entries y).
Proof. intros Hy. unfold before. rewrite walk_snoc, Hp. cbn [mbind option_bind]. by apply step_dir. Qed.

Lemma unchanged_refl : unchanged root s s.
Proof. split; [done|]. by intros j x Hj _. Qed.

Lemma access_leaf_ok :
  exists s' r, access_leaf n d s = Ret (s', r) /\ fs_ok root s' /\ leaf_spec root s s' D_access (pre ++ [n]) r.
Proof.
  destruct (walk_dir _ _ _ _ H Hp) as [y Hy]. unfold access_leaf, leaf_spec.
  rewrite (find_spec _ _ _ _ Hy), (leaf_before y Hy). cbn.
  destruct (find_in n (d_entries y)) as [[i e]|]; eexists s, _; (split; [done|split; [done|split; [done|apply unchanged_refl]]]).
Qed.

Lemma unlink_leaf_ok :
  exists s' r, unlink_leaf n d s = Ret (s', r) /\ fs_ok root s' /\ leaf_spec root s s' D_unlink (pre ++ [n]) r.
Proof.
  destruct (walk_dir _ _ _ _ H Hp) as [y Hy]. unfold unlink_leaf, leaf_spec.
  rewrite (find_spec _ _ _ _ Hy), (leaf_before y Hy). cbn.
  pose proof (leaf_before y Hy) as Hb.
  destruct (find_in n (d_entries y)) as [[i e]|] eqn:Ef; cbn in *.
  2: { exists s, (inl ENOENT). split; [done|]. split; [done|]. split; [done|apply unchanged_refl]. }
  destruct (e_node e) as [ino|sub] eqn:En.
  2: { exists s, (inl EISDIR). split; [done|]. split; [done|]. split; [done|apply unchanged_refl]. }
  assert (exists s', remove i d s = Ret s') as [s' Es] by (unfold remove; rewrite Hy; by eexists).
  rewrite Es. cbn. exists s', (inr H_ok). split; [done|].
  destruct (remove_ok root s pre d n i e y s' H Hp Hy Ef) as [H' Hb']; [|done|by split].
  intros q Hq. rewrite app_assoc, walk_app. unfold before in Hb. rewrite Hb. cbn. destruct q; done.
Qed.

Lemma rmdir_leaf_ok :
  exists s' r, rmdir_leaf n d s = Ret (s', r) /\ fs_ok root s' /\ leaf_spec root s s' D_rmdir (pre ++ [n]) r.
Proof.
  destruct (walk_dir _ _ _ _ H Hp) as [y Hy]. unfold rmdir_leaf, leaf_spec.
  rewrite (find_spec _ _ _ _ Hy), (leaf_before y Hy). cbn.
  pose proof (leaf_before y Hy) as Hb.
  destruct (find_in n (d_entries y)) as [[i e]|] eqn:Ef; cbn in *.
  2: { exists s, (inl ENOENT). split; [done|]. split; [done|]. split; [done|apply unchanged_refl]. }
  destruct (e_node e) as [ino|sub] eqn:En.
  { exists s, (inl ENOTDIR). split; [done|]. split; [done|]. split; [done|apply unchanged_refl]. }
  assert (is_Some (dirs s !! sub)) as [x Hx] by (by eapply walk_dir).
  assert (Hsub : forall m, before root s ((pre ++ [n]) ++ [m]) = e_node ∘ snd <$> find_in m (d_entries x)).
  { intros m. unfold before in *. rewrite walk_snoc, Hb. cbn [mbind option_bind]. by apply step_dir. }
  rewrite Hx. cbn. destruct (d_entries x) as [|e1 es] eqn:Ex.
  - assert (exists s', remove i d s = Ret s') as [s' Es] by (unfold remove; rewrite Hy; by eexists).
    rewrite Es. cbn. exists s', (inr H_ok). split; [done|].
    destruct (remove_ok root s pre d n i e y s' H Hp Hy Ef) as [H' Hb']; [|done|split; [done|right; done]].
    intros [|m q] Hq; [done|]. rewrite app_assoc. change (m :: q) with ([m] ++ q). rewrite app_assoc.
    apply walk_prefix_None. apply Hsub.
  - exists s, (inl ENOTEMPTY). split; [done|]. split; [done|]. left. split; [done|]. split; [apply unchanged_refl|].
    exists (e_name e1). rewrite Hsub. cbn. by rewrite decide_True.
Qed.

Lemma mkdir_leaf_ok :
  exists s' r, mkdir_leaf n d s = Ret (s', r) /\ fs_ok root s' /\ leaf_spec root s s' D_mkdir (pre ++ [n]) r.
Proof.
  destruct (walk_dir _ _ _ _ H Hp) as [y Hy]. unfold mkdir_leaf, leaf_spec.
  rewrite (find_spec _ _ _ _ Hy), (leaf_before y Hy). cbn [mbind run_bind]. pose proof (leaf_before y Hy) as Hb.
  destruct (find_in n (d_entries y)) as [[i e]|] eqn:Ef; cbn [fmap option_fmap option_map] in *.
  { exists s, (inl EEXIST). split; [done|]. split; [done|]. split; [done|apply unchanged_refl]. }
  destruct (make_dir s) as [s1 r1] eqn:Em. destruct (make_dir_ok root s s1 r1 H Em) as (H1 & T1 & M1 & R1).
  pose proof (same_tree_walk root s s1 H T1) as W1.
  destruct r1 as [nd|].
  2: { exists s1, (inl ENOMEM). split; [done|]. split; [done|]. right. split; [done|]. split; [by apply same_tree_unchanged|done]. }
  destruct R1 as (Rn & Rd & Rr). destruct (st_dirs _ _ T1 _ _ Hy) as (y1 & Hy1 & _).
  destruct (add_entry_ret n (N_dir nd) d s1 y1 Hy1) as (s2 & ok & Ea). rewrite Ea. cbn.
  destruct (add_entry_ok root s1 pre d n (N_dir nd) s2 ok) as (H2 & I2 & M2 & R2); [done|by rewrite W1|by rewrite W1| |done|].
  { split; [done|]. split; [|done]. intros ->. destruct (fo_root _ _ H) as [? ?]. congruence. }
  eexists s2, _. split; [done|]. split; [done|]. destruct ok; cbn.
  - left. exists nd. split; [done|]. split; [|done]. split.
    + intros q. unfold after, before. rewrite R2. unfold upd. case_decide; [done|apply W1].
    + intros j x Hj _. rewrite I2. by apply (st_inodes _ _ T1).
  - destruct R2 as [O2 T2]. right. split; [done|]. split; [|auto]. apply same_tree_unchanged; [done|by eapply same_tree_trans].
Qed.

(** The handle that ends [get_entry]. *)
Lemma handle_ok s1 s2 ok i app0 :
  fs_ok root s1 -> allocate s1 = (s2, ok) -> (out_of_memory s1 -> out_of_memory s) ->
  let r := if ok : bool then inr (H_file i app0) else inl ENOMEM : reply in
  fs_ok root s2 /\ dirs s2 = dirs s1 /\ inodes s2 = inodes s1 /\
  (r = inr (H_file i app0) \/ (r = inl ENOMEM /\ out_of_memory s)).
Proof.
  intros H1 E M. destruct (allocate_ok root _ _ _ H1 E) as [H2 _].
  apply allocate_spec in E as (D & I & _ & F & _). split; [done|]. split; [done|]. split; [done|].
  destruct ok; [by left|]. right. split; [done|]. by apply M, F.
Qed.

Lemma walk_dirs_eq s1 s2 x q : dirs s2 = dirs s1 -> walk s2 x q = walk s1 x q.
Proof.
  intros E. revert x. induction q as [|m q IH]; intros x; [done|]. rewrite !walk_cons.
  assert (step_name s2 x m = step_name s1 x m) as -> by (destruct x; [done|]; cbn; by rewrite E).
  destruct (step_name s1 x m); [apply IH|done].
Qed.

(** [O_TRUNC] on an existing file. *)
Lemma truncate_inode i x :
  inodes s !! i = Some x ->
  exists x' r, truncate (w := w) 0 0 x = Ret (x', r) /\ content x' = [] /\ fs_ok root (set_inode i x' s).
Proof.
  intros Hx. pose proof (fo_inodes _ _ H _ _ Hx) as Hok. pose proof (io_size _ Hok) as Hs.
  unfold truncate. rewrite uwrap_small by (split; [done|apply Z.pow_pos_nonneg; lia]).
  replace (i_size x <? 0) with false by lia. cbn. eexists _, _. split; [done|]. split; [done|].
  destruct H as [R1 R2 R3 R4 R5 R6]. split; cbn; try done.
  - intros d1 x1 e1 Hd He. specialize (R3 d1 x1 e1 Hd He). destruct (e_node e1) as [j|]; [|done].
    apply lookup_insert_is_Some. by destruct (decide (i = j)); [left|right].
  - intros d1 [?|Hd]; apply R5; [by left|right]. apply lookup_insert_is_Some in Hd as [<-|[_ ?]]; [by eexists|done].
  - intros j z [[<- <-]|[_ Hj]]%lookup_insert_Some; [|by eapply R6]. destruct Hok. split; cbn; [done|lia|done].
Qed.

Lemma open_leaf_ok flags :
  exists s' r, open_leaf n flags d s = Ret (s', r) /\ fs_ok root s' /\ leaf_spec root s s' (D_open flags) (pre ++ [n]) r.
Proof.
  destruct (walk_dir _ _ _ _ H Hp) as [y Hy]. unfold open_leaf, leaf_spec.
  rewrite (find_spec _ _ _ _ Hy), (leaf_before y Hy). cbn [mbind run_bind]. pose proof (leaf_before y Hy) as Hb.
  destruct (find_in n (d_entries y)) as [[k e]|] eqn:Ef; cbn [fmap option_fmap option_map compose snd] in *.
  - destruct (e_node e) as [i|sub] eqn:En.
    2: { exists s, (inr (H_dir sub)). split; [done|]. split; [done|]. split; [done|apply unchanged_refl]. }
    assert (is_Some (inodes s !! i)) as [x Hx].
    { apply find_in_Some in Ef as [Ek _]. pose proof (fo_nodes _ _ H _ _ _ Hy (list_elem_of_lookup_2 _ _ _ Ek)) as Hv. by rewrite En in Hv. }
    destruct (truncate_inode i x Hx) as (x' & rt & Et & Ec & Hok').
    set (s1 := if has_flag flags O_TRUNC then set_inode i x' s else s).
    assert (E1 : (if has_flag flags O_TRUNC then
        x0 ← or_oob (inodes s !! i); '(x1, _) ← truncate (w := w) 0 0 x0; Ret (set_inode i x1 s) else Ret s) = Ret s1).
    { unfold s1. destruct (has_flag flags O_TRUNC); [|done]. rewrite Hx. cbn [or_oob mbind run_bind]. by rewrite Et. }
    rewrite E1. cbn [mbind run_bind]. destruct (allocate s1) as [s2 ok] eqn:Ea.
    destruct (handle_ok s1 s2 ok i (has_flag flags O_APPEND)) as (H2 & D2 & I2 & R2); [|done|unfold s1; by destruct (has_flag flags O_TRUNC)|].
    { unfold s1. by destruct (has_flag flags O_TRUNC). }
    eexists s2, _. split; [done|]. split; [done|]. split; [exact R2|]. split; [|split].
    + intros q. unfold after, before. rewrite (walk_dirs_eq s s2); [done|]. rewrite D2. unfold s1. by destruct (has_flag flags O_TRUNC).
    + intros j z Hj Hne. rewrite I2. unfold s1. destruct (has_flag flags O_TRUNC); [|done]. cbn. rewrite lookup_insert_ne by congruence. done.
    + intros z Hz. rewrite I2. unfold s1. destruct (has_flag flags O_TRUNC); [|eauto]. exists x'. cbn. by rewrite lookup_insert_eq.
  - destruct (has_flag flags O_CREAT); cbn [negb].
    2: { exists s, (inl ENOENT). split; [done|]. split; [done|]. split; [done|apply unchanged_refl]. }
    destruct (make_inode s) as [s1 r1] eqn:Em. destruct (make_inode_ok root s s1 r1 ltac:(lia) H Em) as (H1 & T1 & M1 & R1).
    pose proof (same_tree_walk root s s1 H T1) as W1. destruct r1 as [i|].
    2: { exists s1, (inl ENOMEM). split; [done|]. split; [done|]. right. split; [done|]. split; [by apply same_tree_unchanged|done]. }
    destruct R1 as [Rn Ri]. destruct (st_dirs _ _ T1 _ _ Hy) as (y1 & Hy1 & _).
    destruct (add_entry_ret n (N_file i) d s1 y1 Hy1) as (s2 & ok & Ea). rewrite Ea. cbn [mbind run_bind].
    destruct (add_entry_ok root s1 pre d n (N_file i) s2 ok) as (H2 & I2 & M2 & R2); [done|by rewrite W1|by rewrite W1|by eexists|done|].
    destruct ok; cbn [negb].
    2: { destruct R2 as [O2 T2]. exists s2, (inl ENOMEM). split; [done|]. split; [done|]. right. split; [done|].
         split; [|auto]. apply same_tree_unchanged; [done|by eapply same_tree_trans]. }
    destruct (allocate s2) as [s3 ok3] eqn:E3.
    destruct (handle_ok s2 s3 ok3 i (has_flag flags O_APPEND) H2 E3 ltac:(auto)) as (H3 & D3 & I3 & R3).
    eexists s3, _. split; [done|]. split; [done|]. left. exists i. split; [done|].
    rewrite I3, I2, Ri. split; [done|]. split; [|exact R3]. split.
    + intros q. unfold after, before. rewrite (walk_dirs_eq s2 s3) by done. rewrite R2. unfold upd. case_decide; [done|apply W1].
    + intros j x Hj _. rewrite I3, I2. by apply (st_inodes _ _ T1).
Qed.

End Leaf.

(** C3. The RAM file system implements a tree of names: opening, creating, removing
    and testing a path, and making and removing directories, return the result and
    have exactly the effect that the operation has on the map from paths to files
    and directories, with every error where a component is missing, is not a
    directory, exists already or is not empty.  Memory shortage changes nothing but
    may leave a file that was just created.  Any number of slashes separates
    components. *)
Theorem tmpfs_refines fuel op path root s :
  7 <= w <= 64 -> fs_ok root s -> (length path <= fuel)%nat ->
  exists s' r, fs_op fuel op path root s = Ret (s', r) /\ fs_ok root s' /\ dir_spec root s s' op (components path) r.
Proof.
  intros Hw H Hf. rewrite fs_op_descend.
  pose proof (descend_walks root s fuel path [] root H eq_refl Hf) as Hd. cbv zeta in Hd.
  destruct (descend fuel path root s) as [[e|[d [n|]]]| | | | |]; cbn [mbind run_bind finish_op]; [| | |done..].
  - destruct Hd as [He Hc]. exists s, (inl e). split; [done|]. split; [done|]. unfold dir_spec.
    destruct (components path); [done|]. rewrite He. split; [done|apply unchanged_refl].
  - destruct Hd as (cs0 & -> & Hwk & Hpe). cbn [app] in Hwk.
    assert (Hl : exists s' r, leaf_op op n d s = Ret (s', r) /\ fs_ok root s' /\ leaf_spec root s s' op (cs0 ++ [n]) r).
    { destruct op; cbn; [by apply open_leaf_ok|by apply mkdir_leaf_ok|by apply unlink_leaf_ok|by apply rmdir_leaf_ok|by apply access_leaf_ok]. }
    destruct Hl as (s' & r & -> & H' & Hs). exists s', r. split; [done|]. split; [done|]. unfold dir_spec.
    destruct (cs0 ++ [n]) eqn:E; [by destruct cs0|]. by rewrite Hpe.
  - destruct Hd as [-> ->]. exists s, (self_reply op root). split; [done|]. split; [done|]. split; [done|apply unchanged_refl].
Qed.

End Dir.

(** The file system after [Tmpfs_init]: an empty root directory. *)
Definition fs_init (root : Z) (answers : list bool) : fs :=
  {| dirs := {[ root := dir_new ]}; inodes := ∅; next_id := root + 1; answers := answers |}.

Lemma fs_init_ok w root answers : fs_ok (w := w) root (fs_init root answers).
Proof.
  split; cbn.
  - rewrite lookup_singleton_eq. by eexists.
  - intros d x [_ <-]%lookup_singleton_Some. constructor.
  - intros d x e [_ <-]%lookup_singleton_Some He. by apply elem_of_nil in He.
  - intros d1 x1 e1 d2 x2 e2 c [_ <-]%lookup_singleton_Some He. by apply elem_of_nil in He.
  - intros d [[x [<- _]%lookup_singleton_Some]|[x Hx]]; [lia|]. by rewrite lookup_empty in Hx.
  - intros i x Hx. by rewrite lookup_empty in Hx.
Qed.

Module Dir_example.

#[local] Instance some_heap : Heap := {| realloc_ok n := n <=? 4096; garbage _ := 0xaa |}.

Abbreviation op64 := (fs_op (w := 64)).

(** A sequence of calls from the root; the replies. *)
Fixpoint calls (cs : list (dop * bytes)) (s : fs) : option (list reply) :=
  match cs with
  | [] => Some []
  | (o, p) :: cs =>
      match op64 (length p) o p 0 s with
      | Ret (s, r) => (fun rs => r :: rs) <$> calls cs s
      | _ => None
      end
  end.

Lemma tmpfs_refines_witness :
  exists s', op64 7 D_mkdir (str "//a/") 0 (fs_init 0 []) = Ret (s', inr H_ok) /\
    walk s' (N_dir 0) [str "a"] = Some (N_dir 1).
Proof.
  destruct (tmpfs_refines (w := 64) 7 D_mkdir (str "//a/") 0 (fs_init 0 [])) as (s' & r & E & _ & Hs);
    [split; discriminate|apply fs_init_ok|vm_compute; lia|].
  change (components (str "//a/")) with [str "a"] in Hs. cbn in Hs.
  destruct Hs as [(d & Hd & Hb & ->)|(-> & _ & Hoom)].
  - exists s'. split; [exact E|].
    assert (Hv : (match op64 7 D_mkdir (str "//a/") 0 (fs_init 0 []) with
                  | Ret (s, _) => walk s (N_dir 0) [str "a"] | _ => None end) = Some (N_dir 1)) by (vm_compute; reflexivity).
    rewrite E in Hv. exact Hv.
  - exfalso. by apply elem_of_nil in Hoom.
Defined.

(** Errors of the walk, and of the last component. *)
Example errors :
  calls [(D_open O_CREAT, str "f"); (D_mkdir, str "f"); (D_mkdir, str "f/x"); (D_mkdir, str "g/x");
         (D_mkdir, str "g"); (D_open O_CREAT, str "g/h"); (D_rmdir, str "/g"); (D_unlink, str "g"); (D_unlink, str "g//h");
         (D_rmdir, str "/g/"); (D_access, str "g")] (fs_init 0 []) =
  Some [inr (H_file 1 false); inl EEXIST; inl ENOTDIR; inl ENOENT; inr H_ok; inr (H_file 3 false); inl ENOTEMPTY;
        inl EISDIR; inr H_ok; inr H_ok; inl ENOENT].
Proof. vm_compute. reflexivity. Qed.

(** [O_EXCL] is not looked at: creating a file that exists hands it out. *)
Definition O_EXCL : Z := 0x80.

Example excl_ignored :
  calls [(D_open O_CREAT, str "t"); (D_open (Z.lor O_CREAT O_EXCL), str "t")] (fs_init 0 []) =
  Some [inr (H_file 1 false); inr (H_file 1 false)].
Proof. vm_compute. reflexivity. Qed.

End Dir_example.
