(* ===== verification/Dirent.v ===== *)
(** * Directory listings

    The records ([struct dirent64]) that [getdents] of [src/pkg/tmpfs/src/tmpfs.cc]
    and of [src/pkg/devfs/lib/devfs.cc] put into the caller's buffer: inode number
    and offset of 8 bytes, record length of 2, type of 1, then the name and its NUL;
    the length is rounded up to a multiple of [sizeof(long)], and the bytes between
    the name and the next record are left as they are. *)

From S2P Require Import Prelude.

Record dirent := { de_ino : Z; de_off : Z; de_type : Z; de_name : bytes }.

Definition DT_DIR : Z := 4.
Definition DT_CHR : Z := 2.
Definition DT_REG : Z := 8.

(** [offsetof(struct dirent64, d_name)] and [sizeof(d->d_name)] *)
Definition NAME_OFFSET : Z := 19.
Definition NAME_SIZE : Z := 256.

Section Dirent.
(** [sizeof(long)] *)
Context (lsz : Z) (Hlsz : lsz = 4 \/ lsz = 8).

Definition reclen (nl : Z) : Z :=
  uwrap 32 (Z.land (uwrap 32 (NAME_OFFSET + nl + lsz - 1)) (uwrap 32 (Z.lnot (lsz - 1)))).

(** The fields of a record. *)
Definition dirent_bytes (d : dirent) : bytes :=
  le_split 8 (de_ino d) ++ le_split 8 (de_off d) ++ le_split 2 (reclen (zlen (de_name d) + 1)) ++
  [u8 (de_type d)] ++ de_name d ++ [0].

(** The loop of [getdents]: [done] is the buffer in front of the pointer [d],
    [rest] the one behind it, [zlen rest] the size that is left.  It returns the
    buffer, the number of bytes used and the number of records written. *)
Fixpoint dents_loop (ds : list dirent) (done rest : bytes) (ret pos : Z) : run (bytes * Z * Z) :=
  match ds with
  | [] => Ret (done ++ rest, ret, pos)
  | d :: ds =>
      let n := reclen (zlen (de_name d) + 1) in
      if zlen rest <? n then Ret (done ++ rest, ret, pos)
      else
        rest ← or_oob (wr_bytes 0 (dirent_bytes d) rest);
        dents_loop ds (done ++ take (Z.to_nat n) rest) (drop (Z.to_nat n) rest) (ret + n) (pos + 1)
  end.

(** How a reader takes the buffer apart. *)
Fixpoint parse_dents (fuel : nat) (b : bytes) : list dirent :=
  match fuel, b with
  | S f, _ :: _ =>
      match rd 8 0 b, rd 8 8 b, rd 2 16 b, rd 1 18 b with
      | Some ino, Some off, Some n, Some t =>
          {| de_ino := ino; de_off := off; de_type := t; de_name := cstr (drop 19 b) |} ::
          parse_dents f (drop (Z.to_nat n) b)
      | _, _, _, _ => []
      end
  | _, _ => []
  end.

(** Records whose fields fit. *)
Record dirent_ok (d : dirent) : Prop := {
  dn_ino : in_u 64 (de_ino d);
  dn_off : in_u 64 (de_off d);
  dn_type : in_u 8 (de_type d);
  dn_name : Forall (fun c => c <> 0) (de_name d);
  dn_len : zlen (de_name d) <= 60000;
}.

Lemma reclen_spec nl :
  1 <= nl <= 60001 ->
  NAME_OFFSET + nl <= reclen nl < NAME_OFFSET + nl + lsz /\ reclen nl < 2 ^ 16.
Proof.
  intros Hn. unfold reclen, NAME_OFFSET. rewrite (uwrap_small 32 (_ + _ - 1)) by (unfold in_u; lia).
  assert (E : Z.land (19 + nl + lsz - 1) (uwrap 32 (Z.lnot (lsz - 1))) = (19 + nl + lsz - 1) / lsz * lsz).
  { destruct Hlsz as [->| ->].
    - change (uwrap 32 (Z.lnot (4 - 1))) with (Z.shiftl (Z.ones 30) 2). apply (land_high_ones _ 2 30); lia.
    - change (uwrap 32 (Z.lnot (8 - 1))) with (Z.shiftl (Z.ones 29) 3). apply (land_high_ones _ 3 29); lia. }
  rewrite E. pose proof (Z.div_mod (19 + nl + lsz - 1) lsz ltac:(lia)) as Hd.
  pose proof (Z.mod_pos_bound (19 + nl + lsz - 1) lsz ltac:(lia)) as Hm.
  rewrite uwrap_small by (unfold in_u; lia). lia.
Qed.

Lemma rd_field n (a c : bytes) x :
  0 <= x < 256 ^ Z.of_nat n -> rd (Z.of_nat n) (zlen a) (a ++ le_split n x ++ c) = Some x.
Proof.
  intros Hx. unfold rd, rd_bytes. pose proof (zlen_nonneg a).
  assert (Hl : zlen (le_split n x) = Z.of_nat n) by (unfold zlen; by rewrite length_le_split).
  pose proof (zlen_nonneg c). rewrite !zlen_app, Hl. rewrite !(proj2 (Z.leb_le _ _)) by lia. cbn. f_equal.
  unfold slice, zlen. rewrite !Nat2Z.id, drop_app_length, take_app_le by (rewrite length_le_split; lia).
  rewrite take_ge by (rewrite length_le_split; lia). by apply le_combine_split.
Qed.

Lemma zlen_dirent d : zlen (dirent_bytes d) = NAME_OFFSET + (zlen (de_name d) + 1).
Proof. unfold dirent_bytes, zlen. rewrite !length_app, !length_le_split. cbn [length]. unfold NAME_OFFSET. lia. Qed.

(** A record is read back, with whatever pads it. *)
Lemma parse_one f d pad b :
  dirent_ok d -> zlen (dirent_bytes d ++ pad) = reclen (zlen (de_name d) + 1) ->
  parse_dents (S f) ((dirent_bytes d ++ pad) ++ b) = d :: parse_dents f b.
Proof.
  intros [H1 H2 H3 H4 H5] Hl. pose proof (zlen_nonneg (de_name d)) as Hn.
  pose proof (reclen_spec (zlen (de_name d) + 1) ltac:(lia)) as [_ Hr].
  set (n := reclen (zlen (de_name d) + 1)) in *.
  assert (Hn0 : 0 <= n) by (rewrite <- Hl; apply zlen_nonneg).
  unfold dirent_bytes. fold n. set (i := le_split 8 (de_ino d)). set (o := le_split 8 (de_off d)).
  set (r := le_split 2 n). set (tl := ([u8 (de_type d)] ++ de_name d ++ [0] : bytes)).
  assert (Li : zlen i = 8) by (unfold i, zlen; by rewrite length_le_split).
  assert (Lo : zlen o = 8) by (unfold o, zlen; by rewrite length_le_split).
  assert (Lr : zlen r = 2) by (unfold r, zlen; by rewrite length_le_split).
  assert (E0 : rd 8 0 (((i ++ o ++ r ++ tl) ++ pad) ++ b) = Some (de_ino d)).
  { change 0 with (zlen (@nil Z)). rewrite <- !app_assoc. rewrite <- (app_nil_l (i ++ _)). apply (rd_field 8); exact H1. }
  assert (E1 : rd 8 8 (((i ++ o ++ r ++ tl) ++ pad) ++ b) = Some (de_off d)).
  { rewrite <- Li at 2. rewrite <- !app_assoc. apply (rd_field 8); exact H2. }
  assert (E2 : rd 2 16 (((i ++ o ++ r ++ tl) ++ pad) ++ b) = Some n).
  { replace 16 with (zlen (i ++ o)) by (rewrite zlen_app; lia). rewrite <- !app_assoc, (app_assoc i o). apply (rd_field 2). cbn. lia. }
  assert (E3 : rd 1 18 (((i ++ o ++ r ++ tl) ++ pad) ++ b) = Some (de_type d)).
  { assert (Ht : tl = le_split 1 (de_type d) ++ (de_name d ++ [0])).
    { unfold tl. rewrite uwrap_small by done. cbn. by rewrite Z.mod_small by exact H3. }
    replace 18 with (zlen (i ++ o ++ r)) by (rewrite !zlen_app; lia).
    replace (((i ++ o ++ r ++ tl) ++ pad) ++ b) with ((i ++ o ++ r) ++ le_split 1 (de_type d) ++ ((de_name d ++ [0]) ++ pad ++ b))
      by (rewrite Ht; by rewrite <- !app_assoc).
    apply (rd_field 1). exact H3. }
  assert (E4 : cstr (drop 19 (((i ++ o ++ r ++ tl) ++ pad) ++ b)) = de_name d).
  { replace (((i ++ o ++ r ++ tl) ++ pad) ++ b) with ((i ++ o ++ r ++ [u8 (de_type d)]) ++ (de_name d ++ 0 :: (pad ++ b)))
      by (unfold tl; by rewrite <- !app_assoc).
    replace 19%nat with (length (i ++ o ++ r ++ [u8 (de_type d)])).
    2: { rewrite !length_app. unfold zlen in *. cbn [length]. lia. }
    rewrite drop_app_length. by apply cstr_app. }
  assert (E5 : drop (Z.to_nat n) (((i ++ o ++ r ++ tl) ++ pad) ++ b) = b).
  { rewrite <- Hl. unfold zlen. rewrite Nat2Z.id. apply drop_app_length. }
  cbn [parse_dents]. rewrite E0, E1, E2, E3, E4, E5. destruct (((i ++ o ++ r ++ tl) ++ pad) ++ b) eqn:E.
  - apply (f_equal zlen) in E. rewrite !zlen_app in E. change (zlen []) with 0 in E.
    pose proof (zlen_nonneg tl). pose proof (zlen_nonneg pad). pose proof (zlen_nonneg b). lia.
  - by destruct d.
Qed.

(** The loop writes a prefix of the records, as many as fit. *)
Lemma dents_loop_spec ds done rest ret pos :
  Forall dirent_ok ds ->
  exists k out rest',
    dents_loop ds done rest ret pos = Ret (done ++ out ++ rest', ret + zlen out, pos + Z.of_nat k) /\
    zlen out + zlen rest' = zlen rest /\ (k <= length ds)%nat /\
    (forall f, (k <= f)%nat -> parse_dents f out = take k ds) /\
    (zlen out = 0 <-> k = 0%nat) /\ (k <= length out)%nat /\
    (forall d, ds !! k = Some d -> zlen rest' < reclen (zlen (de_name d) + 1)).
Proof.
  intros H. revert done rest ret pos. induction H as [|d ds Hd H IH]; intros done rest ret pos; cbn [dents_loop].
  { exists 0%nat, [], rest. rewrite !Z.add_0_r. split; [done|]. split; [done|]. split; [done|].
    split; [intros [|f] _; done|]. split; [done|]. split; [cbn; lia|done]. }
  pose proof (zlen_nonneg (de_name d)) as Hn. pose proof (dn_len _ Hd) as Hlen.
  destruct (reclen_spec (zlen (de_name d) + 1) ltac:(lia)) as [Hr _].
  set (n := reclen (zlen (de_name d) + 1)) in *. destruct (zlen rest <? n) eqn:E.
  { exists 0%nat, [], rest. rewrite !Z.add_0_r. split; [done|]. split; [done|]. split; [cbn; lia|].
    split; [intros [|f] _; done|]. split; [done|]. split; [cbn; lia|]. cbn. intros d' [= <-]. fold n. lia. }
  assert (Hz : zlen (dirent_bytes d) <= n) by (rewrite zlen_dirent; lia).
  destruct (wr_bytes_Some 0 (dirent_bytes d) rest ltac:(lia) ltac:(lia)) as (rest1 & E1 & L1).
  rewrite E1. cbn [or_oob mbind run_bind].
  destruct (IH (done ++ take (Z.to_nat n) rest1) (drop (Z.to_nat n) rest1) (ret + n) (pos + 1))
    as (k & out & rest' & -> & Hl & Hk & Hp & Hz0 & Hko & Hstop).
  assert (exists pad, take (Z.to_nat n) rest1 = dirent_bytes d ++ pad) as [pad Epad].
  { unfold wr_bytes in E1. destruct (_ && _); [|done]. apply (inj Some) in E1. rewrite <- E1.
    change (take (Z.to_nat 0) rest) with (@nil Z). rewrite app_nil_l.
    rewrite take_app_ge by (unfold zlen in *; lia). by eexists. }
  assert (Hc : zlen (take (Z.to_nat n) rest1) = n).
  { unfold zlen in *. rewrite length_take. unfold NAME_OFFSET in *. lia. }
  exists (S k), (take (Z.to_nat n) rest1 ++ out), rest'. split; [|split; [|split; [|split; [|split; [|split]]]]].
  - rewrite zlen_app, Hc, <- !app_assoc, !Z.add_assoc. by replace (pos + Z.of_nat (S k)) with (pos + 1 + Z.of_nat k) by lia.
  - rewrite zlen_app, Hc. unfold zlen in *. rewrite length_drop in Hl. unfold NAME_OFFSET in *. lia.
  - cbn. lia.
  - intros [|f] Hf; [lia|]. rewrite Epad in Hc |- *. rewrite parse_one by done. cbn [take]. rewrite Hp by lia. done.
  - rewrite zlen_app, Hc. unfold NAME_OFFSET in *. pose proof (zlen_nonneg out). lia.
  - rewrite length_app. unfold zlen, NAME_OFFSET in *. lia.
  - exact Hstop.
Qed.

(** One call of [getdents] over a fixed list of records, from the record [p] on: nothing
    written means the end, and the listing starts over. *)
Definition dents_call (ds : list dirent) (buf : bytes) (p : Z) : run (Z * bytes * Z) :=
  '(buf, ret, pos) ← dents_loop (drop (Z.to_nat p) ds) [] buf 0 p;
  Ret (if ret =? 0 then 0 else pos, buf, ret).

(** A program that reads the directory to its end. *)
Fixpoint dents_all (fuel : nat) (ds : list dirent) (buf : bytes) (p : Z) : run (Z * list dirent) :=
  match fuel with
  | O => Fuel_out
  | S f =>
      '(p, buf, ret) ← dents_call ds buf p;
      if ret =? 0 then Ret (p, [])
      else
        '(p, l) ← dents_all f ds buf p;
        Ret (p, parse_dents (length buf) (take (Z.to_nat ret) buf) ++ l)
  end.

(** Records with names a [d_name] holds. *)
Definition short_dent (d : dirent) : Prop := dirent_ok d /\ zlen (de_name d) <= 255.

(** One call with a buffer that holds at least one record. *)
Lemma dents_call_spec ds buf p :
  Forall short_dent ds -> 288 <= zlen buf -> 0 <= p <= zlen ds ->
  exists k buf' ret,
    dents_call ds buf p = Ret (if ret =? 0 then 0 else p + Z.of_nat k, buf', ret) /\
    zlen buf' = zlen buf /\ p + Z.of_nat k <= zlen ds /\
    (ret = 0 <-> p = zlen ds) /\ (ret = 0 <-> k = 0%nat) /\
    parse_dents (length buf') (take (Z.to_nat ret) buf') = take k (drop (Z.to_nat p) ds).
Proof.
  intros Hd Hb Hp. unfold dents_call.
  assert (Hok : Forall dirent_ok (drop (Z.to_nat p) ds)).
  { apply Forall_drop. eapply list.Forall_impl; [exact Hd|]. by intros d [? _]. }
  destruct (dents_loop_spec (drop (Z.to_nat p) ds) [] buf 0 p Hok) as (k & out & rest & -> & Hl & Hk & Hparse & Hz & Hko & Hstop).
  rewrite length_drop in Hk. cbn [mbind run_bind]. rewrite !Z.add_0_l, app_nil_l.
  pose proof (zlen_nonneg out). pose proof (zlen_nonneg rest).
  assert (Hk0 : k = 0%nat <-> p = zlen ds).
  { split; [|unfold zlen in *; lia]. intros ->. destruct (drop (Z.to_nat p) ds) as [|e es] eqn:Ed.
    - apply (f_equal length) in Ed. rewrite length_drop in Ed. cbn in Ed. unfold zlen in *. lia.
    - exfalso. specialize (Hstop e eq_refl). rewrite (proj2 Hz eq_refl) in Hl.
      assert (Hin : short_dent e).
      { apply (Forall_drop _ (Z.to_nat p)) in Hd. rewrite Ed in Hd. by apply list.Forall_cons in Hd as [? _]. }
      destruct Hin as [_ Hr]. pose proof (zlen_nonneg (de_name e)).
      pose proof (reclen_spec (zlen (de_name e) + 1) ltac:(lia)) as [Hrr _]. unfold NAME_OFFSET in Hrr. lia. }
  exists k, (out ++ rest), (zlen out). split; [done|]. split_and!.
  - rewrite zlen_app. lia.
  - unfold zlen in *. lia.
  - by rewrite Hz, Hk0.
  - exact Hz.
  - rewrite take_app_le, take_ge by (unfold zlen; lia). apply Hparse. rewrite length_app. lia.
Qed.

(** Reading to the end delivers every record once, in order. *)
Lemma dents_all_spec fuel ds buf p :
  Forall short_dent ds -> 288 <= zlen buf -> 0 <= p <= zlen ds -> zlen ds - p < Z.of_nat fuel ->
  dents_all fuel ds buf p = Ret (0, drop (Z.to_nat p) ds).
Proof.
  revert buf p. induction fuel as [|fuel IH]; intros buf p Hd Hb Hp Hf; [lia|]. cbn [dents_all].
  destruct (dents_call_spec ds buf p Hd Hb Hp) as (k & buf' & ret & -> & Lb & Hk & Hr & Hk0 & Hparse).
  cbn [mbind run_bind]. destruct (ret =? 0) eqn:E.
  - apply Z.eqb_eq in E. rewrite drop_ge; [done|]. apply Hr in E. unfold zlen in *. lia.
  - assert (k <> 0%nat) by (intros ?%Hk0; lia). rewrite IH by (done || lia). cbn [mbind run_bind].
    rewrite Hparse. do 2 f_equal.
    rewrite <- (take_drop k (drop (Z.to_nat p) ds)) at 2. f_equal. rewrite drop_drop. f_equal. lia.
Qed.

End Dirent.
