(* ===== verification/TmpfsDents.v ===== *)
(** * Reading a directory of the RAM file system

    [Tmpfs_dir::getdents] of [src/pkg/tmpfs/src/tmpfs.cc].  The position of the
    listing is kept in the directory and starts over when a call returns nothing. *)

From S2P Require Import Prelude TmpfsFile TmpfsDir Dirent.

Section Dents.
Context (lsz : Z) (Hlsz : lsz = 4 \/ lsz = 8).

(** The record of an entry; names are cut to the 256 bytes of [d_name]. *)
Definition tmpfs_dent (e : entry) : dirent :=
  {| de_ino := 1; de_off := 0;
     de_type := match e_node e with N_dir _ => DT_DIR | N_file _ => DT_REG end;
     de_name := take 255 (e_name e) |}.

Definition getdents (buf : bytes) (x : dir) : run (dir * bytes * Z) :=
  let es := drop (Z.to_nat (d_pos x)) (d_entries x) in
  '(buf, ret, pos) ← dents_loop lsz (tmpfs_dent <$> es) [] buf 0 (d_pos x);
  Ret ({| d_entries := d_entries x; d_pos := if ret =? 0 then 0 else uwrap 32 pos |}, buf, ret).

(** What a program that reads the directory to its end sees. *)
Fixpoint list_dir (fuel : nat) (buf : bytes) (x : dir) : run (dir * list dirent) :=
  match fuel with
  | O => Fuel_out
  | S f =>
      '(x, buf, ret) ← getdents buf x;
      if ret =? 0 then Ret (x, [])
      else
        '(x, ds) ← list_dir f buf x;
        Ret (x, parse_dents (length buf) (take (Z.to_nat ret) buf) ++ ds)
  end.

Definition name_ok (e : entry) : Prop := Forall (fun c => c <> 0) (e_name e).

Lemma tmpfs_dent_ok e : name_ok e -> dirent_ok (tmpfs_dent e).
Proof.
  intros H. split; cbn; [done|done|by destruct (e_node e)|by apply Forall_take|].
  unfold zlen. rewrite length_take. lia.
Qed.

Lemma dents_ok es : Forall name_ok es -> Forall short_dent (tmpfs_dent <$> es).
Proof.
  intros H. apply Forall_fmap. eapply list.Forall_impl; [exact H|]. intros e He. split; [by apply tmpfs_dent_ok|].
  cbn. unfold zlen. rewrite length_take. lia.
Qed.

(** One call with a buffer that holds at least one record. *)
Lemma getdents_spec buf x :
  Forall name_ok (d_entries x) -> 288 <= zlen buf -> 0 <= d_pos x <= zlen (d_entries x) -> zlen (d_entries x) < 2 ^ 32 ->
  exists k buf' ret,
    getdents buf x =
      Ret ({| d_entries := d_entries x; d_pos := if ret =? 0 then 0 else d_pos x + Z.of_nat k |}, buf', ret) /\
    zlen buf' = zlen buf /\ d_pos x + Z.of_nat k <= zlen (d_entries x) /\
    (ret = 0 <-> d_pos x = zlen (d_entries x)) /\ (ret = 0 <-> k = 0%nat) /\
    parse_dents (length buf') (take (Z.to_nat ret) buf') = tmpfs_dent <$> take k (drop (Z.to_nat (d_pos x)) (d_entries x)).
Proof.
  intros Hn Hb Hp Hlen. assert (Hz : zlen (tmpfs_dent <$> d_entries x) = zlen (d_entries x)) by (unfold zlen; by rewrite length_fmap).
  destruct (dents_call_spec lsz Hlsz (tmpfs_dent <$> d_entries x) buf (d_pos x) (dents_ok _ Hn) Hb) as (k & buf' & ret & Hc & H1 & H2 & H3 & H4 & H5);
    [lia|]. rewrite Hz in *. exists k, buf', ret. split; [|split_and!; try done; by rewrite fmap_take, fmap_drop].
  unfold dents_call in Hc. unfold getdents. rewrite fmap_drop.
  destruct (dents_loop _ _ _ _ _ _) as [[[b r] q]| | | | |]; try done. cbn [mbind run_bind] in *. injection Hc as Hq <- <-.
  do 4 f_equal. destruct (r =? 0); [done|]. rewrite Hq. apply uwrap_small. unfold in_u. lia.
Qed.

Lemma list_dir_spec fuel buf x :
  Forall name_ok (d_entries x) -> 288 <= zlen buf -> 0 <= d_pos x <= zlen (d_entries x) -> zlen (d_entries x) < 2 ^ 32 ->
  zlen (d_entries x) - d_pos x < Z.of_nat fuel ->
  list_dir fuel buf x =
    Ret ({| d_entries := d_entries x; d_pos := 0 |}, tmpfs_dent <$> drop (Z.to_nat (d_pos x)) (d_entries x)).
Proof.
  revert buf x. induction fuel as [|fuel IH]; intros buf x Hn Hb Hp Hlen Hf; [lia|]. cbn [list_dir].
  destruct (getdents_spec buf x Hn Hb Hp Hlen) as (k & buf' & ret & -> & Lb & Hk & Hr & Hk0 & Hparse).
  cbn [mbind run_bind]. destruct (ret =? 0) eqn:E.
  - apply Z.eqb_eq in E. rewrite drop_ge; [done|]. apply Hr in E. unfold zlen in *. lia.
  - assert (k <> 0%nat) by (intros ?%Hk0; lia). rewrite IH; cbn; [|done|lia|lia|done|lia]. cbn [mbind run_bind].
    rewrite Hparse. do 2 f_equal. rewrite <- fmap_app. f_equal.
    rewrite <- (take_drop k (drop (Z.to_nat (d_pos x)) (d_entries x))) at 2. f_equal. rewrite drop_drop. f_equal. lia.
Qed.

(** Reading a directory lists each of its entries exactly once, in order, with its
    type and its name up to 255 characters, with any buffer of 288 bytes or more,
    and leaves it ready to be read again. *)
Theorem tmpfs_listing buf x :
  Forall name_ok (d_entries x) -> 288 <= zlen buf -> d_pos x = 0 -> zlen (d_entries x) < 2 ^ 32 ->
  list_dir (S (length (d_entries x))) buf x = Ret (x, tmpfs_dent <$> d_entries x).
Proof.
  intros Hn Hb Hp Hlen. pose proof (zlen_nonneg (d_entries x)). rewrite list_dir_spec by (done || unfold zlen in *; lia).
  rewrite Hp. cbn [Z.to_nat drop]. destruct x as [es pos]. cbn in Hp. by subst pos.
Qed.

End Dents.

Module Dents_example.

Definition d3 : dir :=
  {| d_entries := [{| e_name := str "c"; e_node := N_file 7 |};
                   {| e_name := replicate 300 98; e_node := N_dir 5 |};
                   {| e_name := str "a"; e_node := N_file 6 |}]; d_pos := 0 |}.

Lemma tmpfs_listing_witness :
  exists ds, list_dir 8 4 (replicate 288 0xcc) d3 = Ret (d3, ds) /\
    map de_name ds = [str "c"; replicate 255 98; str "a"].
Proof.
  eexists. split.
  - apply (tmpfs_listing 8 ltac:(by right) (replicate 288 0xcc) d3); [repeat constructor; discriminate|discriminate|reflexivity|reflexivity].
  - reflexivity.
Defined.

(** With a buffer too small for the next record the listing ends early and starts
    over, as if the directory had been read to its end. *)
Example small_buffer_ends_listing :
  match getdents 8 (replicate 64 0) {| d_entries := d_entries d3; d_pos := 1 |} with
  | Ret (x, _, ret) => ret = 0 /\ d_pos x = 0
  | _ => False
  end.
Proof. vm_compute. split; reflexivity. Qed.

End Dents_example.
