(* ===== verification/Devfs.v ===== *)
(** * Device nodes

    [src/pkg/devfs/lib/devfs.cc]: a registry of named devices, shared by the
    process, and the directory object mounted at [/dev].  Device files are named by
    numbers.  A listing works on the names the registry had when it began. *)

From stdpp Require Import sorting.
From S2P Require Import Prelude Dirent.

(** ** Order of names: [std::map] keeps its keys sorted *)

Fixpoint name_le (a b : bytes) : bool :=
  match a, b with
  | [], _ => true
  | _ :: _, [] => false
  | x :: a, y :: b => if x =? y then name_le a b else x <? y
  end.

Definition name_order (a b : bytes) : Prop := name_le a b = true.

#[global] Instance name_order_dec : RelDecision name_order.
Proof. intros a b. unfold name_order. apply _. Defined.

(** ** State *)

Record registry := { devices : gmap bytes Z }.

Record devfs_dir := { dent_idx : Z; dent_snap : list bytes }.

Definition dir_new : devfs_dir := {| dent_idx := 0; dent_snap := [] |}.

(** ** Public functions; [None] is a null pointer *)

Definition register_device (name : option bytes) (file : option Z) (r : registry) : registry * l4_ret :=
  match name, file with
  | Some n, Some f => ({| devices := <[n := f]> (devices r) |}, Ok)
  | _, _ => (r, Err EINVAL)
  end.

Definition unregister_device (name : option bytes) (r : registry) : registry * l4_ret :=
  match name with
  | None => (r, Err EINVAL)
  | Some n =>
      let removed := match devices r !! n with Some _ => true | None => false end in
      ({| devices := delete n (devices r) |}, if removed : bool then Ok else Err ENOENT)
  end.

(** [init] registers the built-in nodes, here the devices 1 and 2. *)
Definition init (r : registry) : registry :=
  let '(r, _) := register_device (Some (str "null")) (Some 1) r in
  let '(r, _) := register_device (Some (str "zero")) (Some 2) r in
  r.

(** ** The directory *)

(** The directory itself or a device. *)
Inductive opened := O_self | O_device (f : Z).

Definition is_self (path : bytes) : bool := bool_decide (path = [] \/ path = [46]).

Definition get_entry (path : bytes) (r : registry) : errno + opened :=
  if is_self path then inr O_self
  else match devices r !! path with
       | None => inl ENOENT
       | Some f => inr (O_device f)
       end.

Definition faccessat (path : bytes) (r : registry) : l4_ret :=
  if is_self path then Ok
  else match devices r !! path with Some _ => Ok | None => Err ENOENT end.

(** The names in the order of the map. *)
Definition names (r : registry) : list bytes :=
  merge_sort name_order (elements (dom (devices r) : gset bytes)).

Definition dev_dent (i : Z) (name : bytes) : dirent :=
  {| de_ino := i + 1; de_off := i + 1; de_type := if i <? 2 then DT_DIR else DT_CHR; de_name := name |}.

(** All records of a listing, from the record [i] on. *)
Definition all_names (snap : list bytes) : list bytes := str "." :: str ".." :: snap.

Definition dev_dents (snap : list bytes) : list dirent := imap (fun i => dev_dent (Z.of_nat i)) (all_names snap).

Section Listing.
Context (lsz : Z).

Definition getdents (buf : bytes) (r : registry) (x : devfs_dir) : run (devfs_dir * bytes * Z) :=
  let snap := if dent_idx x =? 0 then names r else dent_snap x in
  '(buf, ret, pos) ← dents_loop lsz (drop (Z.to_nat (dent_idx x)) (dev_dents snap)) [] buf 0 (dent_idx x);
  Ret ({| dent_idx := if ret =? 0 then 0 else pos; dent_snap := snap |}, buf, ret).

(** A program reads the directory to its end; the registry has the values [rs] at
    its calls. *)
Fixpoint list_dev (rs : list registry) (buf : bytes) (x : devfs_dir) : run (devfs_dir * list dirent) :=
  match rs with
  | [] => Fuel_out
  | r :: rs =>
      '(x, buf, ret) ← getdents buf r x;
      if ret =? 0 then Ret (x, [])
      else
        '(x, ds) ← list_dev rs buf x;
        Ret (x, parse_dents (length buf) (take (Z.to_nat ret) buf) ++ ds)
  end.

End Listing.

(** ** The built-in files; a buffer is its length *)

Definition null_readv (lens : list Z) : bytes := [].
Definition total (lens : list Z) : Z := foldl Z.add 0 lens.
Definition null_writev (lens : list Z) : Z := total lens.
Definition zero_readv (lens : list Z) : list bytes := (fun n => replicate (Z.to_nat n) 0) <$> lens.
Definition zero_writev (lens : list Z) : Z := total lens.

(** ** Proofs *)

Record names_ok (snap : list bytes) : Prop := {
  nm_names : Forall (fun n => Forall (fun c => c <> 0) n /\ zlen n <= 255) snap;
  nm_count : zlen snap < 2 ^ 31 - 2;
}.

Section Proofs.
Context (lsz : Z) (Hlsz : lsz = 4 \/ lsz = 8).

Lemma dev_dents_lookup snap (i : nat) : dev_dents snap !! i = dev_dent (Z.of_nat i) <$> (all_names snap !! i).
Proof. unfold dev_dents. by rewrite list_lookup_imap. Qed.

Lemma dev_dents_length snap : length (dev_dents snap) = (2 + length snap)%nat.
Proof. unfold dev_dents. by rewrite length_imap. Qed.

Lemma all_names_ok snap n :
  names_ok snap -> n ∈ all_names snap -> Forall (fun c => c <> 0) n /\ zlen n <= 255.
Proof.
  intros H. unfold all_names. intros [->|[->|Hn]%elem_of_cons]%elem_of_cons.
  - split; [repeat constructor; discriminate|discriminate].
  - split; [repeat constructor; discriminate|discriminate].
  - by apply (proj1 (list.Forall_forall _ _) (nm_names _ H)).
Qed.

Lemma dev_dents_ok snap k : names_ok snap -> Forall dirent_ok (drop k (dev_dents snap)).
Proof.
  intros H. apply Forall_drop, Forall_lookup_2. intros i d. rewrite dev_dents_lookup.
  intros (n & Hn & ->)%fmap_Some. pose proof (lookup_lt_Some _ _ _ Hn) as Hi. cbn in Hi.
  pose proof (nm_count _ H) as Hc. unfold zlen in Hc.
  destruct (all_names_ok snap n H (list_elem_of_lookup_2 _ _ _ Hn)) as [Hz Hl].
  split; cbn; [split; lia|split; lia|by destruct (Z.of_nat i <? 2)|done|lia].
Qed.

(** From a call on, the rest of the snapshot is listed, whatever happens to the
    registry. *)
Lemma list_dev_rest rs buf x snap :
  names_ok snap -> 288 <= zlen buf -> 0 <= dent_idx x <= zlen (dev_dents snap) ->
  (dent_idx x = 0 -> exists r rs', rs = r :: rs' /\ names r = snap) -> (dent_idx x <> 0 -> dent_snap x = snap) ->
  zlen (dev_dents snap) - dent_idx x < zlen rs ->
  list_dev lsz rs buf x =
    Ret ({| dent_idx := 0; dent_snap := snap |}, drop (Z.to_nat (dent_idx x)) (dev_dents snap)).
Proof.
  intros Hok. revert buf x. induction rs as [|r rs IH]; intros buf x Hb Hx H0 H1 Hf.
  { change (zlen []) with 0 in Hf. lia. }
  rewrite zlen_cons in Hf. cbn [list_dev]. unfold getdents.
  assert (Hs : (if dent_idx x =? 0 then names r else dent_snap x) = snap).
  { destruct (dent_idx x =? 0) eqn:E; [|apply H1; lia]. destruct (H0 ltac:(lia)) as (r' & rs' & [= -> ->] & Hr). exact Hr. }
  rewrite Hs.
  destruct (dents_loop_spec lsz Hlsz (drop (Z.to_nat (dent_idx x)) (dev_dents snap)) [] buf 0 (dent_idx x)
    (dev_dents_ok snap _ Hok)) as (k & out & rest & -> & Hl & Hk & Hparse & Hz & Hko & Hstop).
  rewrite length_drop in Hk. cbn [mbind run_bind]. rewrite !Z.add_0_l, app_nil_l.
  pose proof (zlen_nonneg out). pose proof (zlen_nonneg rest).
  destruct (zlen out =? 0) eqn:E.
  - do 2 f_equal. symmetry. destruct (drop (Z.to_nat (dent_idx x)) (dev_dents snap)) as [|d ds] eqn:Ed; [done|]. exfalso.
    assert (k = 0%nat) as -> by (apply Hz; lia). specialize (Hstop d eq_refl).
    assert (Hd : dev_dents snap !! Z.to_nat (dent_idx x) = Some d).
    { rewrite <- (Nat.add_0_r (Z.to_nat _)), <- lookup_drop, Ed. done. }
    rewrite dev_dents_lookup in Hd. apply fmap_Some in Hd as (n & Hn & ->).
    destruct (all_names_ok snap n Hok (list_elem_of_lookup_2 _ _ _ Hn)) as [_ Hl255]. cbn in Hstop.
    pose proof (zlen_nonneg n). pose proof (reclen_spec lsz Hlsz (zlen n + 1) ltac:(lia)) as [Hrr _].
    unfold NAME_OFFSET in Hrr. lia.
  - assert (k <> 0%nat) by (intros ?%Hz; lia).
    rewrite IH; cbn [dent_idx dent_snap mbind run_bind]; [|rewrite zlen_app; lia|unfold zlen in *; lia|lia|done|unfold zlen in *; lia].
    rewrite take_app_le, take_ge by (unfold zlen; lia). rewrite Hparse by (rewrite length_app; lia).
    do 2 f_equal. rewrite <- (take_drop k (drop (Z.to_nat (dent_idx x)) (dev_dents snap))) at 2. f_equal.
    rewrite drop_drop. f_equal. lia.
Qed.

End Proofs.

(** A listing of [/dev] is consistent: with any buffer of 288 bytes or more it shows
    the directory, its parent and exactly the devices that were registered when it
    began, each once, even if devices come and go between the calls. *)
Theorem devfs_listing lsz r rs buf x :
  lsz = 4 \/ lsz = 8 -> names_ok (names r) -> 288 <= zlen buf -> dent_idx x = 0 ->
  zlen (names r) + 2 <= zlen rs ->
  list_dev lsz (r :: rs) buf x = Ret ({| dent_idx := 0; dent_snap := names r |}, dev_dents (names r)) /\
  names r ≡ₚ elements (dom (devices r) : gset bytes) /\
  forall n, n ∈ names r <-> exists f, get_entry n r = inr (O_device f) \/ is_self n = true /\ is_Some (devices r !! n).
Proof.
  intros Hl Hn Hb Hx Hrs. pose proof (dev_dents_length (names r)) as Hd. pose proof (zlen_nonneg (names r)).
  split; [|split].
  - rewrite (list_dev_rest lsz Hl (r :: rs) buf x (names r)); [by rewrite Hx|done|done| | |lia|].
    + unfold zlen in *. lia.
    + intros _. by exists r, rs.
    + rewrite zlen_cons, Hx. unfold zlen in *. lia.
  - apply merge_sort_Permutation.
  - intros n. assert (Hp : names r ≡ₚ elements (dom (devices r) : gset bytes)) by apply merge_sort_Permutation.
    rewrite Hp, elem_of_elements, elem_of_dom.
    unfold get_entry. split.
    + intros [f Hf]. exists f. rewrite Hf. destruct (is_self n); [by right|by left].
    + intros [f [Hf|[_ Hs]]]; [|done]. destruct (is_self n); [done|]. by destruct (devices r !! n).
Qed.

Module Devfs_example.

Definition r0 : registry := init {| devices := ∅ |}.
Definition r1 : registry := fst (unregister_device (Some (str "null")) r0).

Lemma devfs_listing_witness :
  exists ds, list_dev 8 [r0; r1; r1; r1; r1] (replicate 288 0) dir_new =
    Ret ({| dent_idx := 0; dent_snap := [str "null"; str "zero"] |}, ds) /\
  map de_name ds = [str "."; str ".."; str "null"; str "zero"].
Proof.
  eexists. split.
  - refine (proj1 (devfs_listing 8 r0 [r1; r1; r1; r1] (replicate 288 0) dir_new _ _ _ _ _)).
    + by right.
    + split; [|vm_compute; reflexivity]. vm_compute. repeat constructor; discriminate.
    + vm_compute. discriminate.
    + reflexivity.
    + vm_compute. discriminate.
  - vm_compute. reflexivity.
Defined.

End Devfs_example.
