(* ===== verification/TaskTable.v ===== *)
(** * The task table of the process server

    [Task_table] of [src/pkg/spawn/server/src/task_table.h] and [task_table.cc]: 32
    slots for child tasks, each with a handle that clients use for it.  The four
    kernel objects of a child (task, thread, region map and parent gate) are set
    and released together and appear as one [image]; releasing the unique
    capabilities of a slot deletes them, so the operations that release return the
    images they delete. *)

From S2P Require Import Prelude.

Inductive state := FREE | LOADING | RUNNING | EXITED.

#[global] Instance state_eq_dec : EqDecision state.
Proof. solve_decision. Defined.

(** The objects of a child, with the label its parent gate is bound with. *)
Record image := { i_task : Z; i_label : Z }.

#[global] Instance image_eq_dec : EqDecision image.
Proof. solve_decision. Defined.

Record Child_task := {
  t_handle : Z;
  t_name : bytes;
  t_image : option image;
  t_state : state;
  t_exit_code : Z;
  t_being_waited : bool
}.

#[global] Instance child_task_eq_dec : EqDecision Child_task.
Proof. solve_decision. Defined.

Definition no_task : Child_task :=
  {| t_handle := 0; t_name := []; t_image := None; t_state := FREE; t_exit_code := 0; t_being_waited := false |}.

Definition MAX : nat := 32.

Record Task_table := { _tasks : list Child_task; _next_handle : Z }.

Definition tt_new : Task_table := {| _tasks := replicate MAX no_task; _next_handle := 1 |}.

Definition set_task (i : nat) (c : Child_task) (t : Task_table) : Task_table :=
  {| _tasks := <[i := c]> (_tasks t); _next_handle := _next_handle t |}.

(** [alloc]: the first free slot gets the next handle. *)
Definition alloc (name : option bytes) (t : Task_table) : Task_table * option nat :=
  match list_find (fun c => t_state c = FREE) (_tasks t) with
  | None => (t, None)
  | Some (i, c) =>
      ({| _tasks := <[i := {| t_handle := _next_handle t;
                              t_name := snprintf_out 64 (default (str "?") name);
                              t_image := t_image c; t_state := LOADING; t_exit_code := 0;
                              t_being_waited := false |}]> (_tasks t);
          _next_handle := _next_handle t +[32] 1 |}, Some i)
  end.

Definition find (h : Z) (t : Task_table) : option (nat * Child_task) :=
  list_find (fun c => t_state c <> FREE /\ t_handle c = h) (_tasks t).

(** A task that has ended, whether it said so or crashed. *)
Definition exited (code : Z) (c : Child_task) : Child_task :=
  {| t_handle := t_handle c; t_name := t_name c; t_image := t_image c; t_state := EXITED;
     t_exit_code := code; t_being_waited := t_being_waited c |}.

Definition set_exited (h code : Z) (t : Task_table) : Task_table :=
  match find h t with None => t | Some (i, c) => set_task i (exited code c) t end.

Definition freed (c : Child_task) : Child_task :=
  {| t_handle := 0; t_name := []; t_image := None; t_state := FREE; t_exit_code := t_exit_code c;
     t_being_waited := t_being_waited c |}.

Definition free (h : Z) (t : Task_table) : Task_table * list image :=
  match find h t with
  | None => (t, [])
  | Some (i, c) => (set_task i (freed c) t, option_list (t_image c))
  end.

Definition count (t : Task_table) : Z :=
  zlen (filter (fun c => t_state c = RUNNING \/ t_state c = EXITED) (_tasks t)).

Definition at_ (index : Z) (t : Task_table) : option Child_task :=
  if (index <? 0) || (Z.of_nat MAX <=? index) then None else _tasks t !! Z.to_nat index.
