(* ===== verification/Spawnd.v ===== *)
(** * The process server

    [Spawnd] of [src/pkg/spawn/server/src/spawnd.h] and [spawnd.cc].  Two threads
    share the task table under one lock: the server thread, which handles one
    request at a time and lets go of the lock while it loads a program or waits for
    a child, and the reaper thread, which receives the exit messages of the children
    and looks for crashed ones.  Every critical section is one definition or one
    rule of [step]; the server thread's place between two of them is its [pc].

    Loading a program is the work of a library and of the kernel: it fails, or
    creates a fresh [image] whose parent gate is bound with the label of the handle.
    An exit message needs such a gate to arrive, and carries the label with
    permission bits in its two low bits.  A machine word has 64 bits.

    A reply with an exit code, a handle and an error is the same [long] for the
    caller; the labels of the steps keep them apart. *)

From S2P Require Import Prelude TaskTable.

(** ** Arguments of a request *)

(** The path is copied into a buffer of 512 bytes and ended with a NUL. *)
Definition copy_path (path : bytes) : bytes := cstr (take 511 path).

(** [strlen] on a buffer: out of bounds when there is no NUL. *)
Fixpoint strlen (b : bytes) : option nat :=
  match b with
  | [] => None
  | c :: b => if c =? 0 then Some 0%nat else S <$> strlen b
  end.

(** [unpack_args]: [b] is the buffer from [p] on, [len] the bytes left of the
    arguments in it. *)
Fixpoint unpack_args (b : bytes) (len : Z) (max_argc : nat) : run (list bytes) :=
  match max_argc with
  | O => Ret []
  | S max_argc =>
      if len <=? 0 then Ret []
      else if c_at b 0 =? 0 then Ret []
      else n ← or_oob (strlen b);
           rest ← unpack_args (drop (S n) b) (len - Z.of_nat (S n)) max_argc;
           Ret (take n b :: rest)
  end.

Definition MAX_ARGV : nat := 64.

(** The copy of the arguments: 1024 bytes, of which those behind the message keep
    what the stack held ([junk]). *)
Definition copy_args (junk args : bytes) : run (list bytes) :=
  let a := take 1024 args in
  unpack_args (a ++ take (1024 - length a) junk) (zlen a) MAX_ARGV.

(** ** Labels of the parent gates *)

Definition gate_label (h : Z) : Z := uwrap 64 (Z.shiftl h 2).
Definition label_handle (l : Z) : Z := uwrap 32 (Z.shiftr l 2).

(** ** Critical sections *)

Section Sections.

(** [do_spawn], third step: the slot gets its objects; an exit that was reported
    before stays. *)
Definition install (img : image) (c : Child_task) : Child_task :=
  {| t_handle := t_handle c; t_name := t_name c; t_image := Some img;
     t_state := match t_state c with LOADING => RUNNING | s => s end;
     t_exit_code := t_exit_code c; t_being_waited := t_being_waited c |}.

(** [op_exec]: the slot gets the objects of the new program. *)
Definition swap_image (img : image) (c : Child_task) : Child_task :=
  {| t_handle := t_handle c; t_name := t_name c; t_image := Some img; t_state := t_state c;
     t_exit_code := t_exit_code c; t_being_waited := t_being_waited c |}.

Definition set_waited (b : bool) (c : Child_task) : Child_task :=
  {| t_handle := t_handle c; t_name := t_name c; t_image := t_image c; t_state := t_state c;
     t_exit_code := t_exit_code c; t_being_waited := b |}.

(** The reaper on an exit message. *)
Definition reap_exit (h code : Z) (t : Task_table) : Task_table :=
  match find h t with
  | None => t
  | Some (i, c) => if decide (t_state c = EXITED) then t else set_task i (exited code c) t
  end.

(** [reap_once]: running tasks whose thread does not answer. *)
Definition reap_task (dead : option image -> bool) (c : Child_task) : Child_task :=
  match t_state c with
  | RUNNING => if dead (t_image c) then exited (-1) c else c
  | _ => c
  end.

Definition reap_once (dead : option image -> bool) (t : Task_table) : Task_table :=
  {| _tasks := reap_task dead <$> _tasks t; _next_handle := _next_handle t |}.

Definition task_stat (slot : Z) (t : Task_table) : option (Z * Z) :=
  match at_ (swrap 32 slot) t with
  | None => None
  | Some c =>
      match t_state c with
      | FREE | LOADING => None
      | RUNNING => Some (1, t_handle c)
      | EXITED => Some (2, t_handle c)
      end
  end.

End Sections.

(** ** The server *)

(** Where the server thread is.  [oh] is the handle of a wait request; a request
    that starts a program and waits for it takes the handle from the slot. *)
Inductive pc :=
  | Idle
  | S_load (i : nat) (h : Z) (argv : list bytes) (wait : bool)
  | S_loaded (i : nat) (img : image) (wait : bool)
  | S_enter (i : nat) (oh : option Z)
  | S_wait (i : nat) (oh : option Z)
  | S_collect (i : nat) (oh : option Z) (code : Z)
  | E_load (h : Z) (argv : list bytes)
  | E_loaded (h : Z) (img : image).

Record world := { table : Task_table; live : list image; server : pc }.

Definition world_new : world := {| table := tt_new; live := []; server := Idle |}.

Inductive label :=
  | L_spawn (h : Z) | L_full | L_load_failed (h : Z) | L_started (h : Z)
  | L_exit (h code : Z) | L_reap (hs : list Z)
  | L_wait (h code : Z) | L_again (h : Z) | L_unknown (h : Z) | L_kill (h : Z)
  | L_exec (h : Z) | L_exec_failed (h : Z) | L_not_running (h : Z) | L_exec_lost (h : Z)
  | L_count (n : Z) | L_stat (slot : Z) (r : option (Z * Z)) | L_invalid | L_tau.

(** Deleting the objects of released slots. *)
Definition deleted (dels : list image) (l : list image) : list image := list_difference l dels.

Definition with_free (h : Z) (p : pc) (s : world) : world :=
  let '(t, dels) := free h (table s) in
  {| table := t; live := deleted dels (live s); server := p |}.

Definition with_task (i : nat) (c : Child_task) (p : pc) (s : world) : world :=
  {| table := set_task i c (table s); live := live s; server := p |}.

Definition at_pc (p : pc) (s : world) : world := {| table := table s; live := live s; server := p |}.

Definition found_running (h : Z) (t : Task_table) : bool :=
  match find h t with Some (_, c) => bool_decide (t_state c = RUNNING) | None => false end.

(** The handles [reap_once] marks. *)
Definition dead_handles (dead : option image -> bool) (t : Task_table) : list Z :=
  t_handle <$> filter (fun c => reap_task dead c <> c) (_tasks t).

Definition SPAWN_WAIT : Z := 1.
Definition WAIT_NOHANG : Z := 1.

Inductive step : world -> label -> world -> Prop :=
  (* op_spawn, op_spawn_con, op_exec: the arguments *)
  | step_invalid s : server s = Idle -> step s L_invalid s
  | step_full (path : bytes) junk args argv s t :
      server s = Idle -> path <> [] -> copy_args junk args = Ret argv ->
      alloc (Some (copy_path path)) (table s) = (t, None) ->
      step s L_full {| table := t; live := live s; server := Idle |}
  | step_spawn (path : bytes) junk args argv flags s t i c :
      server s = Idle -> path <> [] -> copy_args junk args = Ret argv ->
      alloc (Some (copy_path path)) (table s) = (t, Some i) -> _tasks t !! i = Some c ->
      step s (L_spawn (t_handle c))
        {| table := t; live := live s;
           server := S_load i (t_handle c) argv (negb (Z.land flags SPAWN_WAIT =? 0)) |}
  | step_load_failed s i h argv wait :
      server s = S_load i h argv wait -> step s (L_load_failed h) (with_free h Idle s)
  | step_loaded s i h argv wait img :
      server s = S_load i h argv wait -> img ∉ live s -> i_label img = gate_label h ->
      step s L_tau {| table := table s; live := img :: live s; server := S_loaded i img wait |}
  | step_started s i img wait c :
      server s = S_loaded i img wait -> _tasks (table s) !! i = Some c ->
      step s (L_started (t_handle c))
        {| table := set_task i (install img c) (table s);
           live := deleted (option_list (t_image c)) (live s);
           server := if wait then S_enter i None else Idle |}
  (* do_wait *)
  | step_enter s i oh c :
      server s = S_enter i oh -> _tasks (table s) !! i = Some c ->
      step s L_tau (with_task i (set_waited true c) (S_wait i oh) s)
  | step_poll s i oh c :
      server s = S_wait i oh -> _tasks (table s) !! i = Some c -> t_state c <> EXITED ->
      step s L_tau s
  | step_wake s i oh c :
      server s = S_wait i oh -> _tasks (table s) !! i = Some c -> t_state c = EXITED ->
      step s L_tau (with_task i (set_waited false c) (S_collect i oh (t_exit_code c)) s)
  | step_collect s i oh code c :
      server s = S_collect i oh code -> _tasks (table s) !! i = Some c ->
      step s (L_wait (default (t_handle c) oh) code) (with_free (default (t_handle c) oh) Idle s)
  (* op_wait *)
  | step_wait_unknown s h :
      server s = Idle -> find h (table s) = None -> step s (L_unknown h) s
  | step_wait_exited s h i c :
      server s = Idle -> find h (table s) = Some (i, c) -> t_state c = EXITED ->
      step s (L_wait h (t_exit_code c)) (with_free h Idle s)
  | step_wait_again s h flags i c :
      server s = Idle -> find h (table s) = Some (i, c) -> t_state c <> EXITED ->
      Z.land flags WAIT_NOHANG <> 0 -> step s (L_again h) s
  | step_wait s h flags i c :
      server s = Idle -> find h (table s) = Some (i, c) -> t_state c <> EXITED ->
      Z.land flags WAIT_NOHANG = 0 -> step s L_tau (at_pc (S_enter i (Some h)) s)
  (* op_kill *)
  | step_kill s h i c :
      server s = Idle -> find h (table s) = Some (i, c) -> step s (L_kill h) (with_free h Idle s)
  | step_kill_unknown s h :
      server s = Idle -> find h (table s) = None -> step s (L_unknown h) s
  (* op_task_count, op_task_stat *)
  | step_count s : server s = Idle -> step s (L_count (count (table s))) s
  | step_stat s slot : server s = Idle -> step s (L_stat slot (task_stat slot (table s))) s
  (* op_exec *)
  | step_exec_unknown s h :
      server s = Idle -> found_running h (table s) = false -> step s (L_not_running h) s
  | step_exec s (path : bytes) junk args argv h :
      server s = Idle -> path <> [] -> copy_args junk args = Ret argv ->
      found_running h (table s) = true -> step s L_tau (at_pc (E_load h argv) s)
  | step_exec_failed s h argv :
      server s = E_load h argv -> step s (L_exec_failed h) (at_pc Idle s)
  | step_exec_loaded s h argv img :
      server s = E_load h argv -> img ∉ live s -> i_label img = gate_label h ->
      step s L_tau {| table := table s; live := img :: live s; server := E_loaded h img |}
  | step_exec_lost s h img :
      server s = E_loaded h img -> found_running h (table s) = false ->
      step s (L_exec_lost h) {| table := table s; live := deleted [img] (live s); server := Idle |}
  | step_exec_done s h img i c :
      server s = E_loaded h img -> find h (table s) = Some (i, c) -> t_state c = RUNNING ->
      step s (L_exec h)
        {| table := set_task i (swap_image img c) (table s);
           live := deleted (option_list (t_image c)) (live s); server := Idle |}
  (* the reaper *)
  | step_exit s img bits code :
      img ∈ live s -> 0 <= bits < 4 ->
      let h := label_handle (Z.lor (i_label img) bits) in
      step s (L_exit h code) {| table := reap_exit h code (table s); live := live s; server := server s |}
  | step_reap s dead :
      step s (L_reap (dead_handles dead (table s)))
        {| table := reap_once dead (table s); live := live s; server := server s |}.

Inductive steps : world -> list label -> world -> Prop :=
  | steps_nil s : steps s [] s
  | steps_snoc s tr s1 l s2 : steps s tr s1 -> step s1 l s2 -> steps s (tr ++ [l]) s2.

(** ** Specification: a table of processes

    Handles are given out in order and name a process until someone has waited for
    it or killed it; a process that has ended keeps the first exit code reported. *)

Inductive status := P_live | P_done (code : Z).

#[global] Instance status_eq_dec : EqDecision status.
Proof. solve_decision. Defined.

Record spec := { procs : gmap Z status; next : Z }.

Definition spec_new : spec := {| procs := ∅; next := 1 |}.

Definition on_procs (f : gmap Z status -> gmap Z status) (q : spec) : spec :=
  {| procs := f (procs q); next := next q |}.

Definition stat_of (p : gmap Z status) (r : option (Z * Z)) : Prop :=
  match r with
  | None => True
  | Some (st, h) => (st = 1 /\ p !! h = Some P_live) \/ (st = 2 /\ exists code, p !! h = Some (P_done code))
  end.

Inductive spec_step : spec -> label -> spec -> Prop :=
  | spec_spawn q : procs q !! next q = None -> (size (procs q) < MAX)%nat ->
      spec_step q (L_spawn (next q)) {| procs := <[next q := P_live]> (procs q); next := next q + 1 |}
  | spec_full q : size (procs q) = MAX -> spec_step q L_full q
  | spec_load_failed q h : procs q !! h = Some P_live -> spec_step q (L_load_failed h) (on_procs (delete h) q)
  | spec_started q h : is_Some (procs q !! h) -> spec_step q (L_started h) q
  | spec_exit q h code : procs q !! h = Some P_live ->
      spec_step q (L_exit h code) (on_procs (<[h := P_done code]>) q)
  | spec_exit_late q h code : procs q !! h <> Some P_live -> spec_step q (L_exit h code) q
  | spec_reap q hs : Forall (fun h => procs q !! h = Some P_live) hs ->
      spec_step q (L_reap hs) (on_procs (fun p => foldr (fun h => <[h := P_done (-1)]>) p hs) q)
  | spec_wait q h code : procs q !! h = Some (P_done code) ->
      spec_step q (L_wait h code) (on_procs (delete h) q)
  | spec_again q h : procs q !! h = Some P_live -> spec_step q (L_again h) q
  | spec_unknown q h : procs q !! h = None -> spec_step q (L_unknown h) q
  | spec_kill q h : is_Some (procs q !! h) -> spec_step q (L_kill h) (on_procs (delete h) q)
  | spec_exec q h : procs q !! h = Some P_live -> spec_step q (L_exec h) q
  | spec_exec_failed q h : is_Some (procs q !! h) -> spec_step q (L_exec_failed h) q
  | spec_not_running q h : procs q !! h <> Some P_live -> spec_step q (L_not_running h) q
  | spec_exec_lost q h code : procs q !! h = Some (P_done code) -> spec_step q (L_exec_lost h) q
  | spec_count q n : n = Z.of_nat (size (procs q)) -> spec_step q (L_count n) q
  | spec_stat q slot r : stat_of (procs q) r -> spec_step q (L_stat slot r) q
  | spec_invalid q : spec_step q L_invalid q
  | spec_tau q : spec_step q L_tau q.

Inductive spec_run : spec -> list label -> spec -> Prop :=
  | run_nil q : spec_run q [] q
  | run_snoc q tr q1 l q2 : spec_run q tr q1 -> spec_step q1 l q2 -> spec_run q (tr ++ [l]) q2.

(** ** The processes of a table *)

Definition status_of (c : Child_task) : status :=
  match t_state c with EXITED => P_done (t_exit_code c) | _ => P_live end.

Definition entries (ts : list Child_task) : list (Z * status) :=
  (fun c => (t_handle c, status_of c)) <$> filter (fun c => t_state c <> FREE) ts.

Definition processes (t : Task_table) : gmap Z status := list_to_map (entries (_tasks t)).

Definition images (ts : list Child_task) : list image := omap t_image ts.

Lemma slot_split {A} (l : list A) i c : l !! i = Some c ->
  exists l1 l2, l = l1 ++ c :: l2 /\ forall c', <[i := c']> l = l1 ++ c' :: l2.
Proof.
  intros H. destruct (list_elem_of_split_length _ _ _ H) as (l1 & l2 & -> & ->).
  exists l1, l2. split; [done|]. intros c'. by rewrite insert_app_r_alt, Nat.sub_diag by done.
Qed.

Lemma entries_app l1 l2 : entries (l1 ++ l2) = entries l1 ++ entries l2.
Proof. unfold entries. by rewrite list.filter_app, fmap_app. Qed.

Lemma entries_free c : t_state c = FREE -> entries [c] = [].
Proof. intros H. unfold entries. by rewrite filter_cons_False by (intros ?; congruence). Qed.

Lemma entries_used c : t_state c <> FREE -> entries [c] = [(t_handle c, status_of c)].
Proof. intros H. unfold entries. by rewrite filter_cons_True by done. Qed.

(** What changing one slot means for the processes and for the objects. *)
Lemma change_slot ts i c : ts !! i = Some c ->
  exists rest objs,
    entries ts ≡ₚ entries [c] ++ rest /\ images ts ≡ₚ option_list (t_image c) ++ objs /\
    forall c', entries (<[i := c']> ts) ≡ₚ entries [c'] ++ rest /\
               images (<[i := c']> ts) ≡ₚ option_list (t_image c') ++ objs.
Proof.
  intros H. destruct (slot_split _ _ _ H) as (l1 & l2 & -> & Hi).
  assert (He : forall c', entries (l1 ++ c' :: l2) ≡ₚ entries [c'] ++ entries (l1 ++ l2)).
  { intros c'. change (c' :: l2) with ([c'] ++ l2). rewrite !entries_app. solve_Permutation. }
  assert (Ho : forall c', images (l1 ++ c' :: l2) ≡ₚ option_list (t_image c') ++ images (l1 ++ l2)).
  { intros c'. unfold images. rewrite !omap_app. cbn. destruct (t_image c'); cbn; [|done]. solve_Permutation. }
  exists (entries (l1 ++ l2)), (images (l1 ++ l2)). split; [done|]. split; [done|]. intros c'. by rewrite Hi.
Qed.

(** The invariant of the table, after [n] allocations. *)
Record table_ok (n : Z) (t : Task_table) : Prop := {
  to_len : length (_tasks t) = MAX;
  to_next : _next_handle t = n + 1;
  to_range : 0 <= n < 2 ^ 32 - 1;
  to_nodup : NoDup (entries (_tasks t)).*1;
  to_handles : forall c, c ∈ _tasks t -> t_state c <> FREE -> 1 <= t_handle c <= n;
  to_free : forall c, c ∈ _tasks t -> t_state c = FREE -> t_image c = None;
  to_label : forall c img, c ∈ _tasks t -> t_image c = Some img -> i_label img = gate_label (t_handle c)
}.

Lemma elem_entries ts h st : (h, st) ∈ entries ts <-> exists c, c ∈ ts /\ t_state c <> FREE /\ t_handle c = h /\ status_of c = st.
Proof.
  unfold entries. rewrite list_elem_of_fmap. split.
  - intros (c & [= -> ->] & Hc). rewrite list_elem_of_filter in Hc. naive_solver.
  - intros (c & Hc & Hf & <- & <-). exists c. split; [done|]. by rewrite list_elem_of_filter.
Qed.

Lemma slot_unique n t i j c d : table_ok n t ->
  _tasks t !! i = Some c -> _tasks t !! j = Some d -> t_state c <> FREE -> t_state d <> FREE ->
  t_handle c = t_handle d -> i = j.
Proof.
  intros H Hc Hd Fc Fd E. destruct (decide (i = j)) as [|Hne]; [done|exfalso].
  pose proof (to_nodup _ _ H) as Hn. set (ts := _tasks t) in *.
  destruct (change_slot _ _ _ Hc) as (rest & objs & He & _ & Hch).
  rewrite He, entries_used in Hn by done. cbn in Hn. apply list.NoDup_cons in Hn as [Hn _]. apply Hn.
  destruct (Hch no_task) as [He' _]. rewrite entries_free in He' by done. cbn in He'. rewrite <- He'.
  apply list_elem_of_fmap. exists (t_handle d, status_of d). split; [done|]. apply elem_entries. exists d.
  split; [|done]. apply list_elem_of_lookup. exists j. by rewrite list_lookup_insert_ne by done.
Qed.

Lemma find_slot n t i c : table_ok n t ->
  _tasks t !! i = Some c -> t_state c <> FREE -> find (t_handle c) t = Some (i, c).
Proof.
  intros H Hc Fc. unfold find. apply list_find_Some. split; [done|]. split; [done|].
  intros j d Hd Hlt [Fd E]. assert (j = i) by (by eapply slot_unique). lia.
Qed.

Lemma find_inv h t i c : find h t = Some (i, c) -> _tasks t !! i = Some c /\ t_state c <> FREE /\ t_handle c = h.
Proof. unfold find. rewrite list_find_Some. naive_solver. Qed.

Lemma find_None h t : find h t = None -> forall c, c ∈ _tasks t -> t_state c <> FREE -> t_handle c <> h.
Proof. unfold find. rewrite list_find_None, list.Forall_forall. naive_solver. Qed.

Lemma processes_lookup n t h st : table_ok n t ->
  processes t !! h = Some st <-> exists c, c ∈ _tasks t /\ t_state c <> FREE /\ t_handle c = h /\ status_of c = st.
Proof.
  intros H. unfold processes. rewrite <- elem_of_list_to_map by apply H. apply elem_entries.
Qed.

Lemma processes_None n t h : table_ok n t ->
  processes t !! h = None <-> forall c, c ∈ _tasks t -> t_state c <> FREE -> t_handle c <> h.
Proof.
  intros H. rewrite eq_None_not_Some. split.
  - intros Hn c Hc Fc <-. apply Hn. exists (status_of c). apply (processes_lookup n); [done|]. by exists c.
  - intros Hn [st (c & Hc & Fc & E & _)%(processes_lookup n _ _ _ H)]. by apply (Hn c).
Qed.

Lemma processes_find n t h : table_ok n t -> processes t !! h = status_of ∘ snd <$> find h t.
Proof.
  intros H. destruct (find h t) as [[i c]|] eqn:E; cbn.
  - destruct (find_inv _ _ _ _ E) as (Hc & Fc & <-). apply (processes_lookup n); [done|]. exists c.
    split; [by eapply list_elem_of_lookup_2|done].
  - apply (processes_None n); [done|]. by apply find_None.
Qed.

Lemma processes_size n t : table_ok n t ->
  size (processes t) = length (filter (fun c => t_state c <> FREE) (_tasks t)).
Proof. intros H. unfold processes. rewrite map_size_list_to_map by apply H. apply length_fmap. Qed.

Lemma in_set_task i c t d : d ∈ _tasks (set_task i c t) -> d = c \/ d ∈ _tasks t.
Proof.
  unfold set_task. cbn. intros [j Hj]%list_elem_of_lookup.
  destruct (decide (i = j)) as [->|Hne].
  - left. apply list_lookup_insert_Some in Hj. naive_solver.
  - right. rewrite list_lookup_insert_ne in Hj by done. by eapply list_elem_of_lookup_2.
Qed.

Lemma change_used n t i c c' : table_ok n t -> _tasks t !! i = Some c ->
  t_state c <> FREE -> t_state c' <> FREE -> t_handle c' = t_handle c ->
  (forall img, t_image c' = Some img -> i_label img = gate_label (t_handle c)) ->
  table_ok n (set_task i c' t) /\
  processes (set_task i c' t) = <[t_handle c := status_of c']> (processes t).
Proof.
  intros H Hc Fc Fc' Hh Hl. destruct (change_slot _ _ _ Hc) as (rest & objs & He & _ & Hch).
  destruct (Hch c') as [He' _]. rewrite entries_used in He, He' by done. rewrite Hh in He'.
  pose proof (to_nodup _ _ H) as Hn. rewrite He in Hn.
  assert (Hn' : NoDup (entries (<[i := c']> (_tasks t))).*1) by (by rewrite He').
  split.
  - split; cbn; [by rewrite length_insert; apply H|apply H|apply H|done| | |].
    + intros d [->|Hd]%in_set_task Fd; [|by apply (to_handles _ _ H)]. rewrite Hh.
      apply (to_handles _ _ H); [by eapply list_elem_of_lookup_2|done].
    + intros d [->|Hd]%in_set_task Fd; [done|by apply (to_free _ _ H)].
    + intros d img [->|Hd]%in_set_task Hi; [rewrite Hh; by apply Hl|by apply (to_label _ _ H)].
  - unfold processes, set_task. cbn. rewrite (list_to_map_proper _ _ Hn' He').
    rewrite (list_to_map_proper _ _ (to_nodup _ _ H) He). cbn. by rewrite insert_insert_eq.
Qed.

Lemma free_slot n t i c : table_ok n t -> _tasks t !! i = Some c -> t_state c <> FREE ->
  table_ok n (set_task i (freed c) t) /\ processes (set_task i (freed c) t) = delete (t_handle c) (processes t).
Proof.
  intros H Hc Fc. destruct (change_slot _ _ _ Hc) as (rest & objs & He & _ & Hch).
  destruct (Hch (freed c)) as [He' _]. rewrite entries_used in He by done.
  rewrite entries_free in He' by done. cbn in He, He'.
  pose proof (to_nodup _ _ H) as Hn. rewrite He in Hn. cbn in Hn. apply list.NoDup_cons in Hn as [Hnot Hn].
  assert (Hn' : NoDup (entries (<[i := freed c]> (_tasks t))).*1) by (by rewrite He').
  split.
  - split; cbn; [by rewrite length_insert; apply H|apply H|apply H|done| | |].
    + intros d [->|Hd]%in_set_task Fd; [done|by apply (to_handles _ _ H)].
    + intros d [->|Hd]%in_set_task Fd; [done|by apply (to_free _ _ H)].
    + intros d img [->|Hd]%in_set_task Hi; [done|by apply (to_label _ _ H)].
  - unfold processes, set_task. cbn. rewrite (list_to_map_proper _ _ Hn' He').
    rewrite (list_to_map_proper _ _ (to_nodup _ _ H) He). cbn.
    rewrite delete_insert_id; [done|]. by apply not_elem_of_list_to_map_1.
Qed.

Lemma alloc_full n t t' name : table_ok n t -> alloc name t = (t', None) -> t' = t /\ size (processes t) = MAX.
Proof.
  intros H. unfold alloc. destruct (list_find _ _) as [[i c]|] eqn:E; [done|]. intros [= <-]. split; [done|].
  rewrite (processes_size n), <- (to_len _ _ H) by done. f_equal.
  apply list_find_None in E. by induction E as [|c ts Hc _ IH]; [|rewrite filter_cons_True, IH by done].
Qed.

Lemma alloc_slot n t t' name i : table_ok n t -> n + 1 < 2 ^ 32 - 1 -> alloc name t = (t', Some i) ->
  exists c, _tasks t' !! i = Some c /\ t_handle c = n + 1 /\ t_state c = LOADING /\ t_image c = None /\
    table_ok (n + 1) t' /\ processes t' = <[n + 1 := P_live]> (processes t) /\
    processes t !! (n + 1) = None /\ (size (processes t) < MAX)%nat /\ images (_tasks t') ≡ₚ images (_tasks t) /\
    (forall j, j <> i -> _tasks t' !! j = _tasks t !! j) /\
    exists d, _tasks t !! i = Some d /\ t_state d = FREE.
Proof.
  intros H Hmax. unfold alloc. destruct (list_find _ _) as [[j d]|] eqn:E; [|done]. intros [= <- ->]. cbn.
  apply list_find_Some in E as (Hd & Fd & _). pose proof (to_range _ _ H).
  set (c := {| t_handle := _ |}). exists c.
  assert (Hlt : (i < length (_tasks t))%nat) by (by eapply lookup_lt_Some).
  assert (Hi : t_image d = None) by (apply (to_free _ _ H); [by eapply list_elem_of_lookup_2|done]).
  assert (Hc : t_handle c = n + 1) by apply H.
  assert (Hfresh : processes t !! (n + 1) = None).
  { apply (processes_None n); [done|]. intros e He Fe. pose proof (to_handles _ _ H _ He Fe). lia. }
  destruct (change_slot _ _ _ Hd) as (rest & objs & He & Ho & Hch). destruct (Hch c) as [He' Ho'].
  rewrite entries_free in He by done. rewrite entries_used in He' by done. cbn [app] in He, He'.
  change (status_of c) with P_live in He'. rewrite Hc in He'.
  assert (Hn' : NoDup (entries (<[i := c]> (_tasks t))).*1).
  { rewrite He'. cbn. apply list.NoDup_cons. split; [|by rewrite <- He; apply H].
    rewrite <- He. by apply not_elem_of_list_to_map_2. }
  split_and!; [by rewrite list_lookup_insert_eq|done|done|done| | |done| | | |by exists d].
  - split; cbn; [by rewrite length_insert; apply H| |lia|done| | |].
    + rewrite (to_next _ _ H), uwrap_small by (unfold in_u; lia). done.
    + intros e [->|Hin]%(in_set_task i c t) Fe; [lia|]. pose proof (to_handles _ _ H _ Hin Fe). lia.
    + intros e [->|Hin]%(in_set_task i c t) Fe; [done|by apply (to_free _ _ H)].
    + intros e img [->|Hin]%(in_set_task i c t); [cbn; congruence|by apply (to_label _ _ H)].
  - unfold processes. cbn. rewrite (list_to_map_proper _ _ Hn' He'). cbn.
    by rewrite (list_to_map_proper _ _ (to_nodup _ _ H) He).
  - rewrite (processes_size n), <- (to_len _ _ H) by done. apply (length_filter_lt _ _ d); [by eapply list_elem_of_lookup_2|].
    intros Hne. by apply Hne.
  - by rewrite Ho', Ho.
  - intros j Hj. by rewrite list_lookup_insert_ne by done.
Qed.

(** Marking dead tasks changes many slots, but none of what the invariant looks at. *)
Lemma reap_task_same dead c :
  t_handle (reap_task dead c) = t_handle c /\ t_image (reap_task dead c) = t_image c /\
  (t_state (reap_task dead c) = FREE <-> t_state c = FREE) /\
  (t_state (reap_task dead c) = LOADING <-> t_state c = LOADING) /\
  (t_state c = EXITED -> reap_task dead c = c) /\
  (reap_task dead c <> c -> t_state c = RUNNING /\ status_of (reap_task dead c) = P_done (-1)).
Proof. unfold reap_task. destruct c as [h nm im st ec bw]; destruct st; cbn; try done. destruct (dead im); cbn; naive_solver. Qed.

Lemma handles_reap dead ts : (entries (reap_task dead <$> ts)).*1 = (entries ts).*1.
Proof.
  unfold entries. induction ts as [|c ts IH]; [done|]. cbn [fmap list_fmap]. rewrite !filter_cons.
  destruct (reap_task_same dead c) as (Hh & _ & Hf & _). repeat case_decide; cbn; try naive_solver. by rewrite Hh, IH.
Qed.

Lemma foldr_done hs (p : gmap Z status) h :
  foldr (fun h => <[h := P_done (-1)]>) p hs !! h = if decide (h ∈ hs) then Some (P_done (-1)) else p !! h.
Proof.
  induction hs as [|k hs IH]; cbn; [by rewrite decide_False by (apply not_elem_of_nil)|].
  destruct (decide (h = k)) as [->|Hne].
  - rewrite lookup_insert_eq, decide_True by (by left). done.
  - rewrite lookup_insert_ne, IH by done. apply decide_ext. rewrite elem_of_cons. naive_solver.
Qed.

Lemma elem_dead_handles dead t h : h ∈ dead_handles dead t <-> exists c, c ∈ _tasks t /\ reap_task dead c <> c /\ t_handle c = h.
Proof.
  unfold dead_handles. rewrite list_elem_of_fmap. split.
  - intros (c & -> & Hc). rewrite list_elem_of_filter in Hc. naive_solver.
  - intros (c & Hc & Hd & <-). exists c. by rewrite list_elem_of_filter.
Qed.

Lemma reap_ok n t dead : table_ok n t ->
  table_ok n (reap_once dead t) /\
  Forall (fun h => processes t !! h = Some P_live) (dead_handles dead t) /\
  processes (reap_once dead t) = foldr (fun h => <[h := P_done (-1)]>) (processes t) (dead_handles dead t).
Proof.
  intros H.
  assert (Hin : forall d, d ∈ _tasks (reap_once dead t) -> exists c, c ∈ _tasks t /\ d = reap_task dead c).
  { cbn. intros d (c & -> & Hc)%list_elem_of_fmap. by exists c. }
  assert (Hok : table_ok n (reap_once dead t)).
  { split; [cbn; rewrite length_fmap; apply H|apply H|apply H|unfold reap_once; cbn [_tasks]; rewrite handles_reap; apply H| | |].
    - intros d (c & Hc & ->)%Hin. destruct (reap_task_same dead c) as (-> & _ & -> & _). by apply (to_handles _ _ H).
    - intros d (c & Hc & ->)%Hin. destruct (reap_task_same dead c) as (_ & -> & -> & _). by apply (to_free _ _ H).
    - intros d img (c & Hc & ->)%Hin. destruct (reap_task_same dead c) as (-> & -> & _). by apply (to_label _ _ H). }
  split; [done|]. split.
  - apply list.Forall_forall. intros h (c & Hc & Hd & <-)%elem_dead_handles. apply (processes_lookup n); [done|].
    exists c. destruct (reap_task_same dead c) as (_ & _ & _ & _ & _ & Hr). destruct (Hr Hd) as [Hs _].
    split; [done|]. unfold status_of. rewrite Hs. done.
  - apply map_eq. intros h. rewrite foldr_done. apply option_eq. intros st.
    rewrite (processes_lookup n _ _ _ Hok). case_decide as Hd.
    + apply elem_dead_handles in Hd as (c & Hc & Hd & <-). destruct (reap_task_same dead c) as (Hh & _ & _ & _ & _ & Hr).
      destruct (Hr Hd) as [Hs Hst]. split.
      * intros (d & (e & He & ->)%Hin & Fd & E & <-). destruct (reap_task_same dead e) as (Hhe & _ & Hfe & _).
        rewrite Hhe in E. rewrite Hfe in Fd.
        apply list_elem_of_lookup in He as [j Hj]. apply list_elem_of_lookup in Hc as [i Hi].
        assert (j = i) as -> by (apply (slot_unique n t j i e c); try done; congruence).
        simplify_eq. by rewrite Hst.
      * intros [= <-]. exists (reap_task dead c). split; [cbn; by apply list_elem_of_fmap_2|].
        rewrite Hst. split; [|done]. intros Hfr. apply reap_task_same in Hfr. congruence.
    + rewrite (processes_lookup n _ _ _ H). split.
      * intros (d & (e & He & ->)%Hin & Fd & E & <-). destruct (reap_task_same dead e) as (Hhe & _ & Hfe & _).
        exists e. rewrite Hhe in E. rewrite Hfe in Fd. split; [done|]. split; [done|]. split; [done|].
        destruct (decide (reap_task dead e = e)) as [->|Hne]; [done|]. exfalso. apply Hd, elem_dead_handles. by exists e.
      * intros (e & He & Fe & <- & <-). exists e. split; [|done].
        destruct (decide (reap_task dead e = e)) as [Heq|Hne].
        -- cbn. rewrite <- Heq. by apply list_elem_of_fmap_2.
        -- exfalso. apply Hd, elem_dead_handles. by exists e.
Qed.

Lemma label_roundtrip h bits : in_u 32 h -> 0 <= bits < 4 -> label_handle (Z.lor (gate_label h) bits) = h.
Proof.
  unfold label_handle, gate_label, in_u. intros Hh Hb. rewrite Z.shiftl_mul_pow2 by lia.
  rewrite (uwrap_small 64) by (unfold in_u; lia). rewrite (lor_disjoint h bits 2) by lia.
  rewrite Z.shiftr_div_pow2 by lia. replace ((h * 2 ^ 2 + bits) / 2 ^ 2) with h.
  - apply uwrap_small. done.
  - apply (Z.div_unique _ _ _ bits); lia.
Qed.

Lemma deleted_perm (l d r : list image) : NoDup l -> l ≡ₚ d ++ r -> deleted d l ≡ₚ r /\ NoDup (deleted d l).
Proof.
  intros Hn Hp. assert (Hd : NoDup (deleted d l)) by (by apply NoDup_list_difference). split; [|done].
  rewrite Hp in Hn. apply list.NoDup_app in Hn as (_ & Hdis & Hr). apply list.NoDup_Permutation; [done|done|].
  intros x. unfold deleted. rewrite list_elem_of_difference, Hp, elem_of_app. naive_solver.
Qed.

(** ** The invariant of the server *)

Definition in_flight (p : pc) : list image :=
  match p with S_loaded _ img _ | E_loaded _ img => [img] | _ => [] end.

(** The slot of a program that is being loaded. *)
Definition loading (p : pc) : option nat :=
  match p with S_load i _ _ _ | S_loaded i _ _ => Some i | _ => None end.

Definition waits_for (oh : option Z) (c : Child_task) : Prop := default (t_handle c) oh = t_handle c.

Definition pc_ok (t : Task_table) (p : pc) : Prop :=
  match p with
  | Idle => True
  | S_load i h _ _ =>
      exists c, _tasks t !! i = Some c /\ t_state c = LOADING /\ t_image c = None /\ t_handle c = h
  | S_loaded i img _ =>
      exists c, _tasks t !! i = Some c /\ t_state c <> FREE /\ t_image c = None /\ i_label img = gate_label (t_handle c)
  | S_enter i oh | S_wait i oh =>
      exists c, _tasks t !! i = Some c /\ t_state c <> FREE /\ waits_for oh c
  | S_collect i oh code =>
      exists c, _tasks t !! i = Some c /\ t_state c = EXITED /\ t_exit_code c = code /\ waits_for oh c
  | E_load h _ => exists i c, _tasks t !! i = Some c /\ t_state c <> FREE /\ t_handle c = h
  | E_loaded h img =>
      exists i c, _tasks t !! i = Some c /\ t_state c <> FREE /\ t_handle c = h /\ i_label img = gate_label h
  end.

Definition ready (t : Task_table) (p : pc) : Prop :=
  forall i c, _tasks t !! i = Some c -> t_state c <> FREE -> t_state c = LOADING \/ t_image c = None ->
  loading p = Some i.

Record inv (n : Z) (s : world) : Prop := {
  v_table : table_ok n (table s);
  v_nodup : NoDup (live s);
  v_live : live s ≡ₚ images (_tasks (table s)) ++ in_flight (server s);
  v_ready : ready (table s) (server s);
  v_pc : pc_ok (table s) (server s)
}.

Definition abs (n : Z) (t : Task_table) : spec := {| procs := processes t; next := n + 1 |}.

(** A request that changes nothing but the place of the server. *)
Lemma inv_pc n s p : inv n s -> in_flight p = in_flight (server s) -> loading p = loading (server s) ->
  pc_ok (table s) p -> inv n (at_pc p s).
Proof.
  intros [H1 H2 H3 H4 H5] Hf Hl Hp. split; cbn; [done|done|by rewrite Hf| |done].
  unfold ready in *. by rewrite Hl.
Qed.

(** Changing a used slot in place. *)
Lemma inv_change n s i c c' p l : inv n s -> _tasks (table s) !! i = Some c ->
  t_state c <> FREE -> t_state c' <> FREE -> t_handle c' = t_handle c ->
  (forall img, t_image c' = Some img -> i_label img = gate_label (t_handle c)) ->
  (forall objs, images (_tasks (table s)) ≡ₚ option_list (t_image c) ++ objs ->
    NoDup l /\ l ≡ₚ option_list (t_image c') ++ objs ++ in_flight p) ->
  (t_state c' = LOADING \/ t_image c' = None -> loading p = Some i) ->
  (forall j, j <> i -> loading (server s) = Some j -> loading p = Some j) ->
  pc_ok (set_task i c' (table s)) p ->
  inv n {| table := set_task i c' (table s); live := l; server := p |} /\
  processes (set_task i c' (table s)) = <[t_handle c := status_of c']> (processes (table s)).
Proof.
  intros Hi Hc Fc Fc' Hh Hlab Hlive Hld Hlp Hpc. destruct (change_used n _ i c c' (v_table _ _ Hi)) as [Ht Hp]; try done.
  destruct (change_slot _ _ _ Hc) as (rest & objs & _ & Ho & Hch). destruct (Hch c') as [_ Ho'].
  destruct (Hlive objs Ho) as [Hn Hl]. split; [|done]. split; [done|done| | |done]; cbn.
  - by rewrite Hl, Ho', app_assoc.
  - intros j d Hj Fd Hd. destruct (decide (j = i)) as [->|Hne].
    + apply list_lookup_insert_Some in Hj as [(_ & <- & _)|[? _]]; [by apply Hld|done].
    + cbn in Hj. rewrite list_lookup_insert_ne in Hj by done. apply Hlp; [done|]. by eapply (v_ready _ _ Hi).
Qed.

(** Releasing a slot. *)
Lemma inv_free n s i c : inv n s -> _tasks (table s) !! i = Some c -> t_state c <> FREE ->
  in_flight (server s) = [] -> (forall j, loading (server s) = Some j -> j = i) ->
  inv n (with_free (t_handle c) Idle s) /\
  processes (table (with_free (t_handle c) Idle s)) = delete (t_handle c) (processes (table s)).
Proof.
  intros Hi Hc Fc Hf Hl. unfold with_free, free. rewrite (find_slot n (table s) i c) by (try apply Hi; done). cbn.
  destruct (free_slot n _ i c (v_table _ _ Hi) Hc Fc) as [Ht Hp]. split; [|done].
  destruct (change_slot _ _ _ Hc) as (rest & objs & _ & Ho & Hch). destruct (Hch (freed c)) as [_ Ho'].
  pose proof (v_live _ _ Hi) as Hlive. rewrite Hf, app_nil_r, Ho in Hlive.
  destruct (deleted_perm _ _ _ (v_nodup _ _ Hi) Hlive) as [Hd Hn]. split; cbn; [done|done| | |done].
  - rewrite app_nil_r, Ho'. done.
  - intros j d Hj Fd Hst. cbn in Hj. destruct (decide (j = i)) as [->|Hne].
    + apply list_lookup_insert_Some in Hj as [(_ & <- & _)|[? _]]; done.
    + rewrite list_lookup_insert_ne in Hj by done. exfalso. apply Hne, Hl. by eapply (v_ready _ _ Hi).
Qed.

Lemma processes_slot n t i c : table_ok n t -> _tasks t !! i = Some c -> t_state c <> FREE ->
  processes t !! t_handle c = Some (status_of c).
Proof. intros H Hc Fc. rewrite (processes_find n), (find_slot n t i c) by done. done. Qed.

(** Slots that the reaper touched since. *)
Definition evolves (p : pc) (t t' : Task_table) : Prop :=
  forall i c, _tasks t !! i = Some c -> exists c', _tasks t' !! i = Some c' /\
    (c' = c \/ exists code, t_state c <> FREE /\ t_state c <> EXITED /\ c' = exited code c /\
                            forall h argv wait, p <> S_load i h argv wait).

Lemma pc_ok_evolves t t' p : evolves p t t' -> pc_ok t p -> pc_ok t' p.
Proof.
  intros He. destruct p as [|i h argv wait|i img wait|i oh|i oh|i oh code|h argv|h img]; cbn; [done|..].
  - intros (c & Hc & Hst & Him & Hh). destruct (He _ _ Hc) as (c' & Hc' & [->|(code & _ & _ & _ & Hp)]).
    + by exists c.
    + by destruct (Hp h argv wait).
  - intros (c & Hc & Hst & Him & Hl). destruct (He _ _ Hc) as (c' & Hc' & Hev). exists c'.
    destruct Hev as [->|(code & _ & _ & -> & _)]; cbn; done.
  - intros (c & Hc & Hst & Hw). destruct (He _ _ Hc) as (c' & Hc' & Hev). exists c'.
    destruct Hev as [->|(code & _ & _ & -> & _)]; cbn; done.
  - intros (c & Hc & Hst & Hw). destruct (He _ _ Hc) as (c' & Hc' & Hev). exists c'.
    destruct Hev as [->|(code & _ & _ & -> & _)]; cbn; done.
  - intros (c & Hc & Hst & Hcode & Hw). destruct (He _ _ Hc) as (c' & Hc' & Hev). exists c'.
    destruct Hev as [->|(code' & _ & Hne & _)]; [done|congruence].
  - intros (i & c & Hc & Hst & Hh). destruct (He _ _ Hc) as (c' & Hc' & Hev). exists i, c'.
    destruct Hev as [->|(code & _ & _ & -> & _)]; cbn; done.
  - intros (i & c & Hc & Hst & Hh & Hl). destruct (He _ _ Hc) as (c' & Hc' & Hev). exists i, c'.
    destruct Hev as [->|(code & _ & _ & -> & _)]; cbn; done.
Qed.

(** A program that is being loaded cannot send an exit message yet. *)
Lemma exit_slot n s img bits i c h argv wait : inv n s -> img ∈ live s -> 0 <= bits < 4 ->
  find (label_handle (Z.lor (i_label img) bits)) (table s) = Some (i, c) -> server s <> S_load i h argv wait.
Proof.
  intros Hi Him Hb (Hc & Fc & Hh)%find_inv Hp. pose proof (v_table _ _ Hi) as Ht.
  pose proof (v_pc _ _ Hi) as Hpc. rewrite Hp in Hpc. destruct Hpc as (c0 & Hc0 & _ & Hn & _). simplify_eq.
  pose proof (v_live _ _ Hi) as Hl. rewrite Hp in Hl. cbn in Hl. rewrite app_nil_r in Hl. rewrite Hl in Him.
  apply list_elem_of_omap in Him as (d & Hd & Hdi). pose proof (to_label _ _ Ht _ _ Hd Hdi) as Hlab.
  assert (Fd : t_state d <> FREE) by (intros F; by rewrite (to_free _ _ Ht _ Hd F) in Hdi).
  pose proof (to_handles _ _ Ht _ Hd Fd). pose proof (to_range _ _ Ht).
  rewrite Hlab, label_roundtrip in Hh by (unfold in_u; lia).
  apply list_elem_of_lookup in Hd as [j Hj]. assert (i = j) as -> by (by apply (slot_unique n (table s) i j c d)). congruence.
Qed.

Lemma sim_exit n s img bits code : inv n s -> img ∈ live s -> 0 <= bits < 4 ->
  let h := label_handle (Z.lor (i_label img) bits) in
  let s' := {| table := reap_exit h code (table s); live := live s; server := server s |} in
  inv n s' /\ spec_step (abs n (table s)) (L_exit h code) (abs n (table s')).
Proof.
  intros Hi Him Hb h s'. pose proof (v_table _ _ Hi) as Ht. subst s'. unfold reap_exit. cbn.
  assert (Hp : processes (table s) !! h = status_of ∘ snd <$> find h (table s)) by (by apply (processes_find n)).
  destruct (find h (table s)) as [[i c]|] eqn:E; cbn in Hp; cycle 1.
  { destruct s as [t l p]. split; [done|]. apply spec_exit_late. cbn in *. by rewrite Hp. }
  destruct (find_inv _ _ _ _ E) as (Hc & Fc & Hh). case_decide as Hx.
  { destruct s as [t l p]. split; [done|]. apply spec_exit_late. cbn in *. rewrite Hp. unfold status_of. by rewrite Hx. }
  destruct (inv_change n s i c (exited code c) (server s) (live s) Hi Hc Fc) as [Hi' Hpr]; try done.
  - cbn. intros img' Hm. apply (to_label _ _ Ht c img'); [by eapply list_elem_of_lookup_2|done].
  - intros objs Ho. split; [apply Hi|]. cbn. rewrite (v_live _ _ Hi), Ho. by rewrite app_assoc.
  - cbn. intros [?|Hn]; [done|]. eapply (v_ready _ _ Hi); [done|done|by right].
  - apply (pc_ok_evolves (table s)); [|apply Hi]. intros j d Hd. cbn. destruct (decide (j = i)) as [->|Hne].
    + assert (d = c) as -> by congruence. exists (exited code c). split; [apply list_lookup_insert_eq; by eapply lookup_lt_Some|].
      right. exists code. split_and!; try done. intros h0 argv wait. by eapply exit_slot.
    + exists d. rewrite list_lookup_insert_ne by done. split; [done|by left].
  - split; [done|]. unfold abs. cbn [table]. rewrite Hpr, Hh. apply (spec_exit {| procs := processes (table s); next := n + 1 |}).
    cbn. rewrite Hp. unfold status_of. by destruct (t_state c).
Qed.

Lemma sim_reap n s dead : inv n s ->
  let s' := {| table := reap_once dead (table s); live := live s; server := server s |} in
  inv n s' /\ spec_step (abs n (table s)) (L_reap (dead_handles dead (table s))) (abs n (table s')).
Proof.
  intros Hi s'. pose proof (v_table _ _ Hi) as Ht. destruct (reap_ok n _ dead Ht) as (Ht' & Hall & Hp).
  assert (Hlk : forall i, _tasks (table s') !! i = reap_task dead <$> _tasks (table s) !! i) by (intros i; apply list_lookup_fmap).
  split; [split; cbn; [done|apply Hi| | |]|].
  - rewrite (v_live _ _ Hi). f_equiv. unfold images. clear. induction (_tasks (table s)) as [|c ts IH]; cbn; [done|].
    destruct (reap_task_same dead c) as (_ & -> & _). destruct (t_image c); by rewrite IH.
  - intros i d Hd. rewrite Hlk in Hd. apply fmap_Some in Hd as (c & Hc & ->).
    destruct (reap_task_same dead c) as (_ & -> & -> & -> & _). by apply (v_ready _ _ Hi).
  - apply (pc_ok_evolves (table s)); [|apply Hi]. intros i c Hc. exists (reap_task dead c).
    rewrite Hlk, Hc. split; [done|]. unfold reap_task. destruct (t_state c) eqn:E; try (by left).
    destruct (dead (t_image c)); [|by left]. right. exists (-1). split_and!; try congruence.
    intros h argv wait Hpc. pose proof (v_pc _ _ Hi) as Hok. rewrite Hpc in Hok.
    destruct Hok as (c0 & Hc0 & Hst & _). congruence.
  - unfold abs. subst s'. cbn [table]. rewrite Hp. by apply (spec_reap {| procs := processes (table s); next := n + 1 |}).
Qed.

(** ** Every step is one of the specification *)

Definition allocs (l : label) : Z := match l with L_spawn _ => 1 | _ => 0 end.

Definition by_reaper (l : label) : bool := match l with L_exit _ _ | L_reap _ => true | _ => false end.

Lemma same_image n t i c img : table_ok n t -> _tasks t !! i = Some c ->
  t_image c = Some img -> i_label img = gate_label (t_handle c).
Proof. intros H Hc. apply (to_label _ _ H). by eapply list_elem_of_lookup_2. Qed.

Lemma insert_same n t i c c' : table_ok n t -> _tasks t !! i = Some c -> t_state c <> FREE ->
  status_of c' = status_of c -> <[t_handle c := status_of c']> (processes t) = processes t.
Proof. intros H Hc Fc ->. apply insert_id. by eapply processes_slot. Qed.

(** Setting or resetting [being_waited]. *)
Lemma sim_waited n s i c b p : inv n s -> _tasks (table s) !! i = Some c -> t_state c <> FREE ->
  in_flight p = [] -> in_flight (server s) = [] -> loading p = None -> loading (server s) = None ->
  pc_ok (set_task i (set_waited b c) (table s)) p ->
  inv n (with_task i (set_waited b c) p s) /\ processes (table (with_task i (set_waited b c) p s)) = processes (table s).
Proof.
  intros Hi Hc Fc Hf Hf' Hl Hl' Hp. pose proof (v_table _ _ Hi) as Ht.
  destruct (inv_change n s i c (set_waited b c) p (live s) Hi Hc Fc) as [Hi' Hpr]; try done.
  - intros img. by apply (same_image n (table s) i c).
  - intros objs Ho. split; [apply Hi|]. rewrite (v_live _ _ Hi), Ho, Hf, Hf', !app_nil_r. done.
  - cbn. intros Hx. rewrite Hl. rewrite <- Hl'. by eapply (v_ready _ _ Hi).
  - intros j _. by rewrite Hl'.
  - split; [done|]. unfold with_task. cbn [table]. rewrite Hpr. by eapply insert_same.
Qed.

Lemma sim_do_wait n s l s' : inv n s -> step s l s' ->
  match server s with S_enter _ _ | S_wait _ _ | S_collect _ _ _ => True | _ => False end ->
  by_reaper l = false ->
  allocs l = 0 /\ inv n s' /\ spec_step (abs n (table s)) l (abs n (table s')).
Proof.
  intros Hi Hs Hpc Hl. pose proof (v_pc _ _ Hi) as Hok. pose proof (v_table _ _ Hi) as Ht.
  destruct Hs as [| | | | | |s i oh c Hp Hc|s i oh c Hp Hc Hx|s i oh c Hp Hc Hx|s i oh code c Hp Hc| | | | | | | | | | | | | | | |];
    try (by rewrite H in Hpc); try done; rewrite Hp in Hok; cbn in Hok; split; try done.
  - destruct Hok as (c0 & Hc0 & Fc & Hw). simplify_eq.
    destruct (sim_waited n s i c true (S_wait i oh) Hi Hc Fc) as [Hi' Hpr]; try (by rewrite Hp); try done.
    + exists (set_waited true c). split; [apply list_lookup_insert_eq; by eapply lookup_lt_Some|done].
    + split; [done|]. unfold abs. rewrite Hpr. constructor.
  - split; [done|constructor].
  - destruct Hok as (c0 & Hc0 & Fc & Hw). simplify_eq.
    destruct (sim_waited n s i c false (S_collect i oh (t_exit_code c)) Hi Hc Fc) as [Hi' Hpr]; try (by rewrite Hp); try done.
    + exists (set_waited false c). split; [apply list_lookup_insert_eq; by eapply lookup_lt_Some|done].
    + split; [done|]. unfold abs. rewrite Hpr. constructor.
  - destruct Hok as (c0 & Hc0 & Fc & Hcode & Hw). simplify_eq. rewrite Hw.
    destruct (inv_free n s i c Hi Hc) as [Hi' Hpr]; try (by rewrite Hp); [congruence|].
    split; [done|]. unfold abs. rewrite Hpr. apply (spec_wait {| procs := processes (table s); next := n + 1 |}). cbn.
    rewrite (processes_slot n _ i c) by (done || congruence). unfold status_of. by rewrite Fc.
Qed.

Lemma sim_load n s l s' : inv n s -> step s l s' ->
  match server s with S_load _ _ _ _ | S_loaded _ _ _ => True | _ => False end ->
  by_reaper l = false ->
  allocs l = 0 /\ inv n s' /\ spec_step (abs n (table s)) l (abs n (table s')).
Proof.
  intros Hi Hs Hpc Hl. pose proof (v_pc _ _ Hi) as Hok. pose proof (v_table _ _ Hi) as Ht.
  destruct Hs as [| | |s i h argv wait Hp|s i h argv wait img Hp Hfresh Hlab|s i img wait c Hp Hc| | | | | | | | | | | | | | | | | | | |];
    try (by rewrite H in Hpc); try done; rewrite Hp in Hok; cbn in Hok; split; try done.
  - destruct Hok as (c & Hc & Hst & Him & <-). assert (Fc : t_state c <> FREE) by congruence.
    destruct (inv_free n s i c Hi Hc Fc) as [Hi' Hpr]; [by rewrite Hp|rewrite Hp; cbn; congruence|].
    split; [done|]. unfold abs. rewrite Hpr. apply (spec_load_failed {| procs := processes (table s); next := n + 1 |}). cbn.
    rewrite (processes_slot n _ i c) by done. unfold status_of. by rewrite Hst.
  - destruct Hok as (c & Hc & Hst & Him & <-). split; [|constructor].
    split; cbn; [done|by apply list.NoDup_cons; split; [done|apply Hi]| | |].
    + rewrite (v_live _ _ Hi), Hp. cbn. rewrite app_nil_r. solve_Permutation.
    + intros j d Hd Fd Hx. pose proof (v_ready _ _ Hi j d Hd Fd Hx) as Hr. by rewrite Hp in Hr.
    + exists c. split_and!; try done. congruence.
  - destruct Hok as (c0 & Hc0 & Fc & Him & Hlab). simplify_eq.
    destruct (inv_change n s i c (install img c) (if wait then S_enter i None else Idle)
               (deleted (option_list (t_image c)) (live s)) Hi Hc Fc) as [Hi' Hpr]; try done.
    + cbn. by destruct (t_state c).
    + cbn. intros ? [= <-]. done.
    + intros objs Ho. pose proof (v_live _ _ Hi) as Hlv. rewrite Ho, Hp, Him in Hlv. cbn in Hlv. rewrite Him.
      destruct (deleted_perm (live s) [] (objs ++ [img]) (v_nodup _ _ Hi) Hlv) as [Hd Hn]. split; [done|].
      rewrite Hd. cbn. destruct wait; cbn; rewrite app_nil_r; solve_Permutation.
    + cbn. intros [Hx|?]; [|done]. by destruct (t_state c).
    + rewrite Hp. cbn. intros j Hj [= <-]. done.
    + destruct wait; [|done]. exists (install img c). split; [apply list_lookup_insert_eq; by eapply lookup_lt_Some|].
      cbn. split; [by destruct (t_state c)|done].
    + split; [done|]. unfold abs. cbn [table]. rewrite Hpr, (insert_same n _ i c) by (done || unfold status_of; cbn; by destruct (t_state c)).
      apply (spec_started {| procs := processes (table s); next := n + 1 |}). cbn. rewrite (processes_slot n _ i c) by done. by eexists.
Qed.

Lemma found_running_spec n t h : table_ok n t -> found_running h t = true <-> exists i c, find h t = Some (i, c) /\ t_state c = RUNNING.
Proof.
  intros H. unfold found_running. destruct (find h t) as [[i c]|]; [|naive_solver].
  rewrite bool_decide_eq_true. naive_solver.
Qed.

Lemma sim_exec n s l s' : inv n s -> step s l s' ->
  match server s with E_load _ _ | E_loaded _ _ => True | _ => False end ->
  by_reaper l = false ->
  allocs l = 0 /\ inv n s' /\ spec_step (abs n (table s)) l (abs n (table s')).
Proof.
  intros Hi Hs Hpc Hl. pose proof (v_pc _ _ Hi) as Hok. pose proof (v_table _ _ Hi) as Ht.
  destruct Hs as [| | | | | | | | | | | | | | | | | | | |s h argv Hp|s h argv img Hp Hfresh Hlab|s h img Hp Hrun|s h img i c Hp Hfind Hst| |];
    try (by rewrite H in Hpc); try done; rewrite Hp in Hok; cbn in Hok; split; try done.
  - destruct Hok as (i & c & Hc & Fc & <-). split; [by apply inv_pc; rewrite ?Hp|].
    apply (spec_exec_failed {| procs := processes (table s); next := n + 1 |}). cbn. rewrite (processes_slot n _ i c) by done. by eexists.
  - destruct Hok as (i & c & Hc & Fc & Hh). split; [|constructor].
    split; cbn; [done|by apply list.NoDup_cons; split; [done|apply Hi]| | |].
    + rewrite (v_live _ _ Hi), Hp. cbn. rewrite app_nil_r. solve_Permutation.
    + intros j d Hd Fd Hx. pose proof (v_ready _ _ Hi j d Hd Fd Hx) as Hr. by rewrite Hp in Hr.
    + by exists i, c.
  - destruct Hok as (i & c & Hc & Fc & <- & Hlab). pose proof (v_live _ _ Hi) as Hlv. rewrite Hp in Hlv. cbn in Hlv.
    rewrite Permutation_app_comm in Hlv. destruct (deleted_perm _ _ _ (v_nodup _ _ Hi) Hlv) as [Hd Hn]. split.
    + split; cbn; [done|done|by rewrite app_nil_r| |done].
      intros j d Hj Fd Hx. pose proof (v_ready _ _ Hi j d Hj Fd Hx) as Hr. by rewrite Hp in Hr.
    + unfold found_running in Hrun. rewrite (find_slot n _ i c) in Hrun by done. apply bool_decide_eq_false in Hrun.
      apply (spec_exec_lost {| procs := processes (table s); next := n + 1 |} _ (t_exit_code c)). cbn.
      assert (t_state c <> LOADING) by (intros E; pose proof (v_ready _ _ Hi i c Hc Fc (or_introl E)) as Hr; by rewrite Hp in Hr).
      rewrite (processes_slot n _ i c) by done. unfold status_of. by destruct (t_state c).
  - apply find_inv in Hfind as (Hc & Fc & <-). destruct Hok as (_ & _ & _ & _ & _ & Hlab).
    destruct (inv_change n s i c (swap_image img c) Idle (deleted (option_list (t_image c)) (live s)) Hi Hc Fc) as [Hi' Hpr]; try done.
    + cbn. intros ? [= <-]. done.
    + intros objs Ho. pose proof (v_live _ _ Hi) as Hlv. rewrite Ho, Hp in Hlv. cbn in Hlv. rewrite <- app_assoc in Hlv.
      destruct (deleted_perm _ _ _ (v_nodup _ _ Hi) Hlv) as [Hd Hn]. split; [done|]. rewrite Hd. cbn. rewrite app_nil_r. solve_Permutation.
    + cbn. rewrite Hst. intros [?|?]; done.
    + rewrite Hp. done.
    + split; [done|]. unfold abs. cbn [table]. rewrite Hpr, (insert_same n _ i c) by (done || unfold status_of; cbn; by rewrite Hst).
      apply (spec_exec {| procs := processes (table s); next := n + 1 |}). cbn. rewrite (processes_slot n _ i c) by done.
      unfold status_of. by rewrite Hst.
Qed.

Lemma count_processes n t : table_ok n t -> ready t Idle -> count t = Z.of_nat (size (processes t)).
Proof.
  intros H Hr. rewrite (processes_size n) by done. unfold count, zlen. do 2 f_equal.
  assert (Hall : Forall (fun c => t_state c <> LOADING) (_tasks t)).
  { apply list.Forall_forall. intros c [i Hc]%list_elem_of_lookup E.
    assert (Hx : loading Idle = Some i) by (apply (Hr i c Hc); [congruence|by left]). done. }
  clear Hr. induction Hall as [|c ts Hc _ IH]; [done|]. rewrite !filter_cons. rewrite IH.
  repeat case_decide; try done; destruct (t_state c); naive_solver.
Qed.

Lemma task_stat_spec n t slot : table_ok n t -> stat_of (processes t) (task_stat slot t).
Proof.
  intros H. unfold task_stat, at_. destruct (_ || _); [done|].
  destruct (_tasks t !! _) as [c|] eqn:Hc; [|done]. destruct (t_state c) eqn:E; try done; cbn.
  - left. split; [done|]. rewrite (processes_slot n _ _ c H Hc) by congruence. unfold status_of. by rewrite E.
  - right. split; [done|]. exists (t_exit_code c). rewrite (processes_slot n _ _ c H Hc) by congruence. unfold status_of. by rewrite E.
Qed.

Lemma sim_idle n s l s' : inv n s -> step s l s' -> server s = Idle ->
  by_reaper l = false -> n + allocs l < 2 ^ 32 - 1 ->
  inv (n + allocs l) s' /\ spec_step (abs n (table s)) l (abs (n + allocs l) (table s')).
Proof.
  intros Hi Hs Hpc Hl Hmax. pose proof (v_table _ _ Hi) as Ht.
  assert (Hfl : in_flight (server s) = []) by (by rewrite Hpc).
  assert (Hld : forall i j, loading (server s) = Some j -> j = i) by (rewrite Hpc; done).
  assert (Hlook : forall h i c, find h (table s) = Some (i, c) -> processes (table s) !! h = Some (status_of c)).
  { intros h i c E. rewrite (processes_find n), E by done. done. }
  set (q := {| procs := processes (table s); next := n + 1 |}).
  destruct Hs as [s _|path junk args argv s t _ _ _ Ha|path junk args argv flags s t i c _ _ _ Ha Hc| | | | | | |
    |s h _ Hn|s h i c _ Hf Hx|s h flags i c _ Hf Hx _|s h flags i c _ Hf Hx _|s h i c _ Hf|s h _ Hn|s _|s slot _|s h _ Hr
    |s path junk args argv h _ _ _ Hr| | | | | |]; try congruence; try done; cbn [allocs] in *; rewrite ?Z.add_0_r in *.
  - split; [done|constructor].
  - apply (alloc_full n) in Ha as [-> Hsz]; [|done]. split; [|by apply (spec_full q)]. destruct s; cbn in *. by subst.
  - destruct (alloc_slot n _ _ _ _ Ht Hmax Ha) as (c' & Hc' & Hh & Hst & Him & Ht' & Hp & Hno & Hsz & Himg & Hoth & d & Hd & Fd).
    simplify_eq. rewrite Hh. split.
    + split; cbn; [done|apply Hi| | |by exists c].
      * rewrite (v_live _ _ Hi), Hpc, Himg. done.
      * intros j e He Fe Hx. destruct (decide (j = i)) as [->|Hne]; [done|]. rewrite Hoth in He by done.
        pose proof (v_ready _ _ Hi j e He Fe Hx) as Hr. by rewrite Hpc in Hr.
    + unfold abs. cbn. rewrite Hp. by apply (spec_spawn q).
  - split; [done|]. apply (spec_unknown q). cbn. by rewrite (processes_find n), Hn.
  - pose proof (find_inv _ _ _ _ Hf) as (Hc & Fc & <-). destruct (inv_free n s i c Hi Hc Fc Hfl (Hld i)) as [Hi' Hpr].
    split; [done|]. unfold abs. rewrite Hpr. apply (spec_wait q). cbn. rewrite (Hlook _ _ _ Hf). unfold status_of. by rewrite Hx.
  - split; [done|]. apply (spec_again q). cbn. rewrite (Hlook _ _ _ Hf). unfold status_of. by destruct (t_state c).
  - pose proof (find_inv _ _ _ _ Hf) as (Hc & Fc & Hh). split; [|constructor]. apply inv_pc; rewrite ?Hpc; try done. by exists c.
  - pose proof (find_inv _ _ _ _ Hf) as (Hc & Fc & <-). destruct (inv_free n s i c Hi Hc Fc Hfl (Hld i)) as [Hi' Hpr].
    split; [done|]. unfold abs. rewrite Hpr. apply (spec_kill q). cbn. rewrite (Hlook _ _ _ Hf). by eexists.
  - split; [done|]. apply (spec_unknown q). cbn. by rewrite (processes_find n), Hn.
  - split; [done|]. apply (spec_count q), (count_processes n); [done|]. rewrite <- Hpc. apply Hi.
  - split; [done|]. apply (spec_stat q), (task_stat_spec n). done.
  - split; [done|]. apply (spec_not_running q). cbn. rewrite (processes_find n) by done. unfold found_running in Hr.
    destruct (find h (table s)) as [[i c]|] eqn:Hf; [|done]. cbn. apply bool_decide_eq_false in Hr.
    destruct (find_inv _ _ _ _ Hf) as (Hc & Fc & _). intros [= Hst].
    assert (Hx : loading (server s) = Some i).
    { apply (v_ready _ _ Hi i c Hc Fc). left. unfold status_of in Hst. by destruct (t_state c). }
    by rewrite Hpc in Hx.
  - split; [|constructor]. apply (found_running_spec n) in Hr as (i & c & (Hc & Fc & Hh)%find_inv & Hst); [|done].
    apply inv_pc; rewrite ?Hpc; try done. by exists i, c.
Qed.

Lemma sim n s l s' : inv n s -> step s l s' -> n + allocs l < 2 ^ 32 - 1 ->
  inv (n + allocs l) s' /\ spec_step (abs n (table s)) l (abs (n + allocs l) (table s')).
Proof.
  intros Hi Hs Hmax.
  destruct (by_reaper l) eqn:Hl.
  { destruct Hs; try done; cbn [allocs]; rewrite Z.add_0_r; [by apply sim_exit|by apply sim_reap]. }
  destruct (server s) eqn:Hp;
    [by apply sim_idle| | | | | | |];
    [destruct (sim_load n s l s' Hi Hs) as (-> & ? & ?)|destruct (sim_load n s l s' Hi Hs) as (-> & ? & ?)
    |destruct (sim_do_wait n s l s' Hi Hs) as (-> & ? & ?)|destruct (sim_do_wait n s l s' Hi Hs) as (-> & ? & ?)
    |destruct (sim_do_wait n s l s' Hi Hs) as (-> & ? & ?)
    |destruct (sim_exec n s l s' Hi Hs) as (-> & ? & ?)|destruct (sim_exec n s l s' Hi Hs) as (-> & ? & ?)];
    rewrite ?Hp; try done; by rewrite Z.add_0_r.
Qed.

Definition spawns (tr : list label) : Z := foldr (fun l n => allocs l + n) 0 tr.

Lemma spawns_snoc tr l : spawns (tr ++ [l]) = spawns tr + allocs l.
Proof. unfold spawns. induction tr as [|k tr IH]; cbn in *; lia. Qed.

Lemma allocs_nonneg l : 0 <= allocs l.
Proof. by destruct l. Qed.

Lemma world_new_inv : inv 0 world_new.
Proof.
  assert (Hr : forall c, c ∈ _tasks tt_new -> c = no_task) by (cbn [tt_new _tasks]; intros c Hc%elem_of_replicate; naive_solver).
  split; [split| | | |done].
  - apply length_replicate.
  - done.
  - done.
  - assert (entries (_tasks (table world_new)) = []) as -> by (by vm_compute). constructor.
  - intros c ->%Hr. done.
  - intros c ->%Hr. done.
  - intros c img ->%Hr. done.
  - constructor.
  - by vm_compute.
  - intros i c Hc%list_elem_of_lookup_2. by rewrite (Hr c Hc).
Qed.

Lemma spawnd_steps_inv tr s : steps world_new tr s -> spawns tr < 2 ^ 32 - 1 ->
  inv (spawns tr) s /\ spec_run spec_new tr (abs (spawns tr) (table s)).
Proof.
  intros Hs. remember world_new as s0 eqn:E0. induction Hs as [s|s tr s1 l s2 Hs IH Hstep]; subst; intros Hmax.
  - split; [apply world_new_inv|]. assert (abs (spawns []) (table world_new) = spec_new) as -> by (by vm_compute). constructor.
  - rewrite spawns_snoc in *. pose proof (allocs_nonneg l). destruct IH as [Hi Hr]; [done|lia|].
    destruct (sim _ _ _ _ Hi Hstep Hmax) as [Hi' Hst]. split; [done|]. by econstructor.
Qed.

(** C4. The process server implements a table of processes: whatever the interleaving of
    requests, program starts, exit messages and crashes, every step is one of the
    specification, so handles are never given out twice, a wait returns the exit
    code of a process that ended and removes it, and counts and queries tell the
    processes there are. *)
Theorem spawnd_refines tr s :
  steps world_new tr s -> spawns tr < 2 ^ 32 - 1 ->
  spec_run spec_new tr (abs (spawns tr) (table s)).
Proof. intros Hs Hmax. by apply spawnd_steps_inv. Qed.

(** C8. Kernel objects are neither lost nor deleted twice: at any time the objects that
    exist are exactly those of the slots and of a program being started, each once;
    between requests every used slot is running or has exited, and has its
    objects. *)
Theorem spawnd_objects tr s :
  steps world_new tr s -> spawns tr < 2 ^ 32 - 1 ->
  NoDup (live s) /\ live s ≡ₚ images (_tasks (table s)) ++ in_flight (server s) /\
  (server s = Idle -> forall c, c ∈ _tasks (table s) -> t_state c <> FREE ->
     (t_state c = RUNNING \/ t_state c = EXITED) /\ is_Some (t_image c)).
Proof.
  intros Hs Hmax. destruct (spawnd_steps_inv _ _ Hs Hmax) as [[Ht Hn Hl Hr Hp] _]. split; [done|]. split; [done|].
  intros Hidle c [i Hc]%list_elem_of_lookup Fc.
  assert (Hx : ~ (t_state c = LOADING \/ t_image c = None)).
  { intros Hx. pose proof (Hr i c Hc Fc Hx) as E. by rewrite Hidle in E. }
  split; [destruct (t_state c); naive_solver|]. destruct (t_image c); [by eexists|naive_solver].
Qed.

(** ** The exit code of a process *)

Definition reports (h code : Z) (l : label) : Prop :=
  l = L_exit h code \/ exists hs, l = L_reap hs /\ h ∈ hs /\ code = -1.

Definition unreported (h : Z) (tr : list label) : Prop := forall l code, l ∈ tr -> ~ reports h code l.

Definition history (tr : list label) (h : Z) (st : status) : Prop :=
  exists a b, tr = a ++ L_spawn h :: b /\
  match st with
  | P_live => unreported h b
  | P_done code => exists b1 l b2, b = b1 ++ l :: b2 /\ unreported h b1 /\ reports h code l
  end.

Lemma history_snoc tr h st l : history tr h st -> (forall code, ~ reports h code l) \/ (exists code, st = P_done code) ->
  history (tr ++ [l]) h st.
Proof.
  intros (a & b & -> & Hst) Hl. exists a, (b ++ [l]). split; [by rewrite <- app_assoc|]. destruct st as [|code].
  - intros l' code Hin. destruct Hl as [Hl|[? ?]]; [|done]. apply elem_of_app in Hin as [Hin|Hin]; [by apply Hst|]. apply list_elem_of_singleton in Hin. subst. apply Hl.
  - destruct Hst as (b1 & k & b2 & -> & Hu & Hk). exists b1, k, (b2 ++ [l]). by rewrite <- app_assoc.
Qed.

Lemma history_done tr h code l : history tr h P_live -> reports h code l -> history (tr ++ [l]) h (P_done code).
Proof.
  intros (a & b & -> & Hu) Hl. exists a, (b ++ [l]). split; [by rewrite <- app_assoc|]. by exists b, l, [].
Qed.

Lemma spec_history q tr : spec_run spec_new tr q -> forall h st, procs q !! h = Some st -> history tr h st.
Proof.
  intros Hr. remember spec_new as q0 eqn:E0. induction Hr as [q|q tr q1 l q2 Hr IH Hs]; subst; [done|].
  specialize (IH eq_refl). intros h st Hst.
  destruct Hs as [q Hno Hsz| |q h' Hp| |q h' code Hp|q h' code Hp|q hs Hall|q h' code Hp| | |q h' Hp| | | | | | | | ];
    cbn in Hst; try (apply history_snoc; [by apply IH|left; by intros ? [?|(? & ? & _)]]).
  - destruct (decide (next q = h)) as [<-|Hne].
    + rewrite lookup_insert_eq in Hst. injection Hst as <-. exists tr, []. split; [done|]. intros ? ? ?%not_elem_of_nil. done.
    + rewrite lookup_insert_ne in Hst by done. apply history_snoc; [by apply IH|left; by intros ? [?|(? & ? & _)]].
  - apply lookup_delete_Some in Hst as [_ Hst]. apply history_snoc; [by apply IH|left; by intros ? [?|(? & ? & _)]].
  - destruct (decide (h' = h)) as [->|Hne].
    + rewrite lookup_insert_eq in Hst. injection Hst as <-. apply history_done; [by apply IH|by left].
    + rewrite lookup_insert_ne in Hst by done. apply history_snoc; [by apply IH|left; intros ? [[= ? ?]|(? & ? & _)]; congruence].
  - destruct (decide (h' = h)) as [->|Hne]; apply history_snoc; try (by apply IH).
    + right. destruct st as [|c]; [done|by exists c].
    + left. intros ? [[= ? ?]|(? & ? & _)]; congruence.
  - rewrite foldr_done in Hst. case_decide as Hin.
    + injection Hst as <-. apply history_done; [|by right; exists hs]. apply IH. rewrite list.Forall_forall in Hall. by apply Hall.
    + apply history_snoc; [by apply IH|]. left. intros ? [?|(? & [= <-] & ? & _)]; done.
  - apply lookup_delete_Some in Hst as [_ Hst]. apply history_snoc; [by apply IH|left; by intros ? [?|(? & ? & _)]].
  - apply lookup_delete_Some in Hst as [_ Hst]. apply history_snoc; [by apply IH|left; by intros ? [?|(? & ? & _)]].
Qed.

Lemma spec_run_snoc q tr l q2 : spec_run q (tr ++ [l]) q2 -> exists q1, spec_run q tr q1 /\ spec_step q1 l q2.
Proof.
  intros Hr. remember (tr ++ [l]) as tr' eqn:E. destruct Hr as [q|q tr1 q1 k q2 Hr Hs]; [by destruct tr|].
  apply app_inj_tail in E as [-> ->]. by exists q1.
Qed.

(** C13. A wait returns the first exit of the process: the process was started under the
    handle, the code is the one of the first exit message that arrived for it since
    then, or -1 when the reaper found it dead before any arrived. *)
Theorem wait_returns_exit tr h code s :
  steps world_new (tr ++ [L_wait h code]) s -> spawns tr < 2 ^ 32 - 1 ->
  exists a b1 l b2, tr = a ++ L_spawn h :: b1 ++ l :: b2 /\ unreported h b1 /\ reports h code l.
Proof.
  intros Hs Hmax. assert (Hall : spawns (tr ++ [L_wait h code]) < 2 ^ 32 - 1) by (rewrite spawns_snoc; cbn; lia).
  destruct (spawnd_steps_inv _ _ Hs Hall) as [_ Hr]. apply spec_run_snoc in Hr as (q & Hrun & Hst).
  inversion Hst; subst.
  destruct (spec_history _ _ Hrun h (P_done code)) as (a & b & -> & b1 & l & b2 & -> & Hu & Hl); [done|].
  by exists a, b1, l, b2.
Qed.

(** ** Waiting *)

Lemma steps_two s l1 s1 l2 s2 : step s l1 s1 -> step s1 l2 s2 -> steps s [l1; l2] s2.
Proof. intros H1 H2. apply (steps_snoc s [l1] s1 l2 s2); [|done]. apply (steps_snoc s [] s l1 s1); [constructor|done]. Qed.

(** A wait whose process has ended is answered: two steps of the server return the
    exit code, whatever happened before. *)
Theorem wait_completes tr s i oh c :
  steps world_new tr s -> spawns tr < 2 ^ 32 - 1 -> server s = S_wait i oh ->
  _tasks (table s) !! i = Some c -> t_state c = EXITED ->
  exists s', steps s [L_tau; L_wait (t_handle c) (t_exit_code c)] s' /\ server s' = Idle /\
    processes (table s') = delete (t_handle c) (processes (table s)).
Proof.
  intros Hs Hmax Hp Hc Hx. destruct (spawnd_steps_inv _ _ Hs Hmax) as [Hi _]. pose proof (v_pc _ _ Hi) as Hok. rewrite Hp in Hok.
  destruct Hok as (c0 & Hc0 & Fc & Hw). simplify_eq.
  pose proof (step_wake s i oh c Hp Hc Hx) as Hs1. destruct (sim _ _ _ _ Hi Hs1) as [Hi1 _]; [cbn; lia|]. cbn in Hi1. rewrite Z.add_0_r in Hi1.
  set (s1 := with_task _ _ _ _) in *.
  assert (Hc1 : _tasks (table s1) !! i = Some (set_waited false c)) by (apply list_lookup_insert_eq; by eapply lookup_lt_Some).
  assert (Hs2 : step s1 (L_wait (t_handle c) (t_exit_code c)) (with_free (t_handle c) Idle s1)).
  { pose proof (step_collect s1 i oh (t_exit_code c) (set_waited false c) eq_refl Hc1) as H. cbn in H. by rewrite Hw in H. }
  exists (with_free (t_handle c) Idle s1). split; [by eapply steps_two|]. split; [by unfold with_free; destruct (free _ _)|].
  destruct (inv_free _ s1 i (set_waited false c) Hi1 Hc1) as [_ Hpr]; try done. cbn [t_handle set_waited] in Hpr. rewrite Hpr.
  f_equal. by apply (sim_waited (spawns tr) s i c false (S_collect i oh (t_exit_code c)) Hi); rewrite ?Hp; try done;
    exists (set_waited false c).
Qed.

Lemma waiting_step n s i oh c l s' : inv n s -> server s = S_wait i oh -> _tasks (table s) !! i = Some c ->
  t_state c <> EXITED -> step s l s' -> (forall code, ~ reports (t_handle c) code l) ->
  (by_reaper l = true \/ l = L_tau) /\ inv n s' /\ server s' = S_wait i oh /\ _tasks (table s') !! i = Some c.
Proof.
  intros Hi Hp Hc Hx Hs Hno.
  pose proof (v_table _ _ Hi) as Ht.
  destruct Hs; try congruence.
  - split; [by right|done].
  - split; [by left|]. split; [by apply sim_exit|]. split; [done|]. cbn. unfold reap_exit.
    destruct (find h (table s)) as [[j d]|] eqn:E; [|done]. case_decide; [done|]. cbn.
    destruct (find_inv _ _ _ _ E) as (Hd & Fd & Hh). destruct (decide (j = i)) as [->|Hne].
    + assert (d = c) as -> by congruence. exfalso. apply (Hno code). left. by rewrite Hh.
    + by rewrite list_lookup_insert_ne by done.
  - split; [by left|]. split; [by apply sim_reap|]. split; [done|]. cbn. rewrite list_lookup_fmap, Hc. cbn. f_equal.
    destruct (decide (reap_task dead c = c)) as [|Hne]; [done|]. exfalso. apply (Hno (-1)). right. eexists. split; [done|].
    split; [|done]. apply elem_dead_handles. exists c. split; [by eapply list_elem_of_lookup_2|done].
Qed.

(** While the server waits for a process it serves nobody: until the process ends,
    the server stays where it is and answers no request.  A process that was
    started in the foreground and asks the server to replace its program waits for
    a server that waits for it. *)
Theorem waiting_serves_nobody tr s i oh c tr' s' :
  steps world_new tr s -> spawns tr < 2 ^ 32 - 1 -> server s = S_wait i oh ->
  _tasks (table s) !! i = Some c -> t_state c <> EXITED ->
  steps s tr' s' -> unreported (t_handle c) tr' ->
  server s' = S_wait i oh /\ forall l, l ∈ tr' -> by_reaper l = true \/ l = L_tau.
Proof.
  intros Hs Hmax Hp Hc Hx Hs' Hu. destruct (spawnd_steps_inv _ _ Hs Hmax) as [Hi _]. clear Hs Hmax.
  assert (G : (forall l, l ∈ tr' -> by_reaper l = true \/ l = L_tau) /\ inv (spawns tr) s' /\
              server s' = S_wait i oh /\ _tasks (table s') !! i = Some c); [|naive_solver].
  induction Hs' as [s|s tr' s1 l s2 Hs' IH Hstep]; [split; [by intros ? ?%not_elem_of_nil|done]|].
  destruct IH as (Hl & Hi1 & Hp1 & Hc1); try done; [intros k code Hk; apply Hu, elem_of_app; by left|].
  destruct (waiting_step _ s1 i oh c l s2 Hi1 Hp1 Hc1 Hx Hstep) as (Hl2 & Hi2 & Hp2 & Hc2).
  { intros code. apply Hu, elem_of_app. right. by apply list_elem_of_singleton. }
  split; [|done]. intros k [Hk|Hk]%elem_of_app; [by apply Hl|]. apply list_elem_of_singleton in Hk. by subst.
Qed.

Module Spawnd_example.

Definition path : bytes := str "rom/hello".
Definition args : bytes := str "hello" ++ [0; 0].
Definition img : image := {| i_task := 1; i_label := gate_label 1 |}.

(** A foreground program is started; the server waits for it. *)
Definition t1 : Task_table := fst (alloc (Some (copy_path path)) tt_new).
Definition c1 : Child_task := default no_task (_tasks t1 !! 0%nat).
Definition s1 : world := {| table := t1; live := []; server := S_load 0 1 [str "hello"] true |}.
Definition s2 : world := {| table := t1; live := [img]; server := S_loaded 0 img true |}.
Definition c3 : Child_task := install img c1.
Definition s3 : world := {| table := set_task 0 c3 t1; live := [img]; server := S_enter 0 None |}.
Definition s4 : world := with_task 0 (set_waited true c3) (S_wait 0 None) s3.
(** It exits with code 7. *)
Definition s5 : world := {| table := reap_exit 1 7 (table s4); live := [img]; server := S_wait 0 None |}.
Definition c5 : Child_task := exited 7 (set_waited true c3).
Definition s6 : world := with_task 0 (set_waited false c5) (S_collect 0 None 7) s5.
Definition s7 : world := with_free 1 Idle s6.

Definition waiting : list label := [L_spawn 1; L_tau; L_started 1; L_tau].

Lemma run_waiting : steps world_new waiting s4.
Proof.
  apply (steps_snoc _ [L_spawn 1; L_tau; L_started 1] s3); [|by apply (step_enter s3 0 None c3); vm_compute].
  apply (steps_snoc _ [L_spawn 1; L_tau] s2); [|by apply (step_started s2 0 img true c1); vm_compute].
  apply (steps_snoc _ [L_spawn 1] s1).
  2: { apply (step_loaded s1 0 1 [str "hello"] true img); [done|apply not_elem_of_nil|done]. }
  apply (steps_snoc _ [] world_new); [constructor|].
  by apply (step_spawn path [] args [str "hello"] 1 world_new t1 0 c1); vm_compute.
Qed.

Lemma run_exited : steps world_new (waiting ++ [L_exit 1 7]) s5.
Proof.
  apply steps_snoc with s4; [apply run_waiting|]. apply (step_exit s4 img 3 7); [by apply list_elem_of_singleton|lia].
Qed.

Lemma run_waited : steps world_new ((waiting ++ [L_exit 1 7; L_tau]) ++ [L_wait 1 7]) s7.
Proof.
  apply steps_snoc with s6; [|by apply (step_collect s6 0 None 7 (set_waited false c5)); vm_compute].
  apply (steps_snoc _ (waiting ++ [L_exit 1 7]) s5); [apply run_exited|].
  by apply (step_wake s5 0 None c5); vm_compute.
Qed.

Lemma spawnd_refines_witness :
  spec_run spec_new (waiting ++ [L_exit 1 7]) (abs 1 (table s5)) /\ processes (table s5) = {[ 1 := P_done 7 ]}.
Proof. split; [by apply (spawnd_refines _ _ run_exited)|by vm_compute]. Defined.

Lemma spawnd_objects_witness : NoDup (live s5) /\ live s5 = [img].
Proof. split; [by apply (spawnd_objects _ _ run_exited)|done]. Defined.

Lemma wait_returns_exit_witness :
  exists a b1 l b2, waiting ++ [L_exit 1 7; L_tau] = a ++ L_spawn 1 :: b1 ++ l :: b2 /\ unreported 1 b1 /\ reports 1 7 l.
Proof. by apply (wait_returns_exit _ _ _ _ run_waited). Defined.

Lemma wait_completes_witness :
  exists s', steps s5 [L_tau; L_wait 1 7] s' /\ server s' = Idle /\ processes (table s') = delete 1 (processes (table s5)).
Proof. by apply (wait_completes _ s5 0 None c5 run_exited); vm_compute. Defined.

Lemma waiting_serves_nobody_witness :
  server s4 = S_wait 0 None /\ forall l, l ∈ [L_tau] -> by_reaper l = true \/ l = L_tau.
Proof.
  apply (waiting_serves_nobody waiting s4 0 None (set_waited true c3) [L_tau] s4 run_waiting); try (by vm_compute).
  - apply (steps_snoc _ [] s4); [constructor|]. by apply (step_poll s4 0 None (set_waited true c3)); vm_compute.
  - intros l code ->%list_elem_of_singleton. intros [?|(? & ? & _)]; done.
Defined.

(** Arguments without a final NUL are read beyond what the client sent. *)
Example unterminated_args :
  copy_args (str "JUNK" ++ [0]) (str "hello") = Ret [str "helloJUNK"] /\
  copy_args (replicate 1024 88) (replicate 1024 97) = Oob.
Proof. by vm_compute. Qed.

End Spawnd_example.
