(* ===== verification/Shell.v ===== *)
(** * The shell: command lines and background jobs

    [src/pkg/native_shell/server/src/main.cc] and [commands.cc]: splitting a line
    into words, redirection and background marks, choosing the command, packing the
    arguments of a program for the process server, and the table of background
    jobs.  Lines and words are the characters of C strings before their NUL.

    Whether a program of a name exists is asked of a name space outside of the
    program ([rom_file]). *)

From S2P Require Import Prelude TaskTable Spawnd.

(** ** Words of a line *)

Definition is_blank (c : Z) : bool := (c =? 32) || (c =? 9).

Inductive quoting := Plain | Single | Double.

(** The characters of one word, and what follows it. *)
Fixpoint word (q : quoting) (p : bytes) : bytes * bytes :=
  match p with
  | [] => ([], [])
  | c :: p1 =>
      let put x r := let '(w, rest) := r in (x :: w, rest) in
      match q with
      | Single => if c =? 39 then word Plain p1 else put c (word Single p1)
      | Double =>
          if c =? 34 then word Plain p1
          else if c =? 92 then
            match p1 with [] => put c (word Double p1) | d :: p2 => put d (word Double p2) end
          else put c (word Double p1)
      | Plain =>
          if is_blank c then ([], p)
          else if c =? 39 then word Single p1
          else if c =? 34 then word Double p1
          else if c =? 92 then
            match p1 with [] => put c (word Plain p1) | d :: p2 => put d (word Plain p2) end
          else put c (word Plain p1)
      end
  end.

Fixpoint skip_blanks (p : bytes) : bytes :=
  match p with
  | [] => []
  | c :: p' => if is_blank c then skip_blanks p' else p
  end.

Definition MAX_ARGS : nat := 64.
Definition MAX_LINE : Z := 4096.

(** [parse_line]: [k] words may follow, [out] bytes of the buffer are used. *)
Fixpoint parse_words (k : nat) (p : bytes) (out : Z) : run (list bytes) :=
  match k with
  | O => Ret []
  | S k =>
      match skip_blanks p with
      | [] => Ret []
      | p =>
          let '(w, rest) := word Plain p in
          let out := out + zlen w + 1 in
          if MAX_LINE <? out then Oob
          else ws ← parse_words k rest out; Ret (w :: ws)
      end
  end.

Definition parse_line (line : bytes) (max_args : nat) : run (list bytes) :=
  parse_words (max_args - 1) line 0.

(** ** Redirection and background *)

Record cmdline := { c_args : list bytes; c_redir : option (bytes * bool); c_background : bool }.

Definition no_args : cmdline := {| c_args := []; c_redir := None; c_background := false |}.

Definition is_redir (a : bytes) : bool := bool_decide (a = str ">" \/ a = str ">>").

(** The loop over the words; [st] is what earlier words left. *)
Fixpoint strip (argv : list bytes) (st : cmdline) : cmdline :=
  let keep a := {| c_args := c_args st ++ [a]; c_redir := c_redir st; c_background := c_background st |} in
  let marks a rest :=
    if bool_decide (a = str "&")
    then strip rest {| c_args := c_args st; c_redir := c_redir st; c_background := true |}
    else strip rest (keep a) in
  match argv with
  | [] => st
  | a :: rest =>
      if is_redir a then
        match rest with
        | path :: rest' =>
            strip rest' {| c_args := c_args st; c_redir := Some (path, c_at a 1 =? 62);
                           c_background := c_background st |}
        | [] => marks a rest
        end
      else marks a rest
  end.

(** ** Choosing the command *)

Definition commands : list bytes :=
  [str "help"; str "echo"; str "info"; str "clear"; str "history"; str "exit"; str "pwd"; str "cd";
   str "ls"; str "cat"; str "mkdir"; str "rm"; str "tmpfstest"; str "uname"; str "env"; str "date";
   str "uptime"; str "list_tasks"; str "top"; str "dmesg"; str "run"; str "wait"; str "kill";
   str "temp"; str "radio"].

(** [pack_argv]: [pos] bytes of the buffer are filled. *)
Fixpoint pack (bufsz pos : Z) (argv : list bytes) : bytes :=
  let finish := if pos <? bufsz then [0] else [] in
  match argv with
  | [] => finish
  | a :: argv =>
      if negb (pos + 2 <? bufsz) then finish
      else if bufsz <=? pos + zlen a + 2 then finish
      else a ++ [0] ++ pack bufsz (pos + zlen a + 1) argv
  end.

Definition pack_argv (bufsz : Z) (argv : list bytes) : bytes := pack bufsz 0 argv.

(** A request to the process server. *)
Record request := { q_path : bytes; q_args : bytes; q_flags : Z }.

Definition spawn_flags (background : bool) : Z := if background then 0 else SPAWN_WAIT.

(** [cmd_run] *)
Definition cmd_run (argv : list bytes) (background : bool) : option request :=
  match argv with
  | _ :: program :: _ =>
      Some {| q_path := program ++ [0]; q_args := pack_argv 1024 (drop 1 argv); q_flags := spawn_flags background |}
  | _ => None
  end.

(** [shell_try_exec] *)
Definition shell_try_exec (rom_file : bytes -> bool) (argv : list bytes) (background : bool) : option request :=
  match argv with
  | (_ :: _) as a :: _ =>
      if rom_file a
      then Some {| q_path := a ++ [0]; q_args := pack_argv 1024 argv; q_flags := spawn_flags background |}
      else None
  | _ => None
  end.

Inductive action :=
  | A_nothing
  | A_command (name : bytes) (args : list bytes) (redir : option (bytes * bool)) (background : bool)
  | A_program (q : request) (redir : option (bytes * bool))
  | A_not_found (name : bytes).

(** One round of the command loop, up to the call of the command.  Comparing a null
    pointer with the names of the commands reads outside of any object. *)
Definition command_round (rom_file : bytes -> bool) (line : bytes) : run action :=
  argv ← parse_line line MAX_ARGS;
  match argv with
  | [] => Ret A_nothing
  | _ =>
      let c := strip argv no_args in
      match c_args c with
      | [] => Oob
      | name :: _ =>
          if bool_decide (name ∈ commands)
          then Ret (A_command name (c_args c) (c_redir c) (c_background c))
          else match shell_try_exec rom_file (c_args c) (c_background c) with
               | Some q => Ret (A_program q (c_redir c))
               | None => Ret (A_not_found name)
               end
      end
  end.

(** ** Background jobs *)

Definition MAX_TASKS : nat := 16.

Record task_entry := { j_name : bytes; j_desc : bytes; j_handle : Z; j_active : bool }.

(** [g_tasks] up to [g_task_count]; unused entries come after. *)
Record jobs := { g_tasks : list task_entry }.

Definition add_job (e : task_entry) (g : jobs) : jobs :=
  if (length (g_tasks g) <? MAX_TASKS)%nat then {| g_tasks := g_tasks g ++ [e] |} else g.

Definition deactivate (e : task_entry) : task_entry :=
  {| j_name := j_name e; j_desc := j_desc e; j_handle := j_handle e; j_active := false |}.

Definition task_register (name desc : bytes) (g : jobs) : jobs :=
  match list_find (fun e => j_active e = true /\ j_handle e = 0 /\ j_name e = name) (g_tasks g) with
  | Some _ => g
  | None => add_job {| j_name := snprintf_out 64 name; j_desc := snprintf_out 64 desc; j_handle := 0; j_active := true |} g
  end.

Definition task_unregister (name : bytes) (g : jobs) : jobs :=
  match list_find (fun e => j_active e = true /\ j_handle e = 0 /\ j_name e = name) (g_tasks g) with
  | Some (i, e) => {| g_tasks := <[i := deactivate e]> (g_tasks g) |}
  | None => g
  end.

Definition task_register_proc (h : Z) (name : bytes) (g : jobs) : jobs :=
  add_job {| j_name := snprintf_out 64 name; j_desc := []; j_handle := h; j_active := true |} g.

Definition task_name_by_handle (h : Z) (g : jobs) : option bytes :=
  j_name ∘ snd <$> list_find (fun e => j_active e = true /\ j_handle e = h) (g_tasks g).

Definition task_unregister_proc (h : Z) (g : jobs) : jobs :=
  match list_find (fun e => j_active e = true /\ j_handle e = h) (g_tasks g) with
  | Some (i, e) => {| g_tasks := <[i := deactivate e]> (g_tasks g) |}
  | None => g
  end.

(** ** From the packed arguments back to the words *)

Definition packed (argv : list bytes) : bytes := concat ((fun a => a ++ [0]) <$> argv).

Definition arg_ok (a : bytes) : Prop := a <> [] /\ Forall (fun c => c <> 0) a.

Lemma pack_fits bufsz pos argv : pos + zlen (packed argv) + 1 < bufsz -> pack bufsz pos argv = packed argv ++ [0].
Proof.
  unfold packed. revert pos. induction argv as [|a argv IH]; intros pos; cbn; intros Hf.
  - by replace (pos <? bufsz) with true by (unfold zlen in Hf; cbn in Hf; lia).
  - rewrite !zlen_app in Hf. change (zlen [0]) with 1 in Hf. pose proof (zlen_nonneg a).
    pose proof (zlen_nonneg (concat ((fun a => a ++ [0]) <$> argv))).
    replace (pos + 2 <? bufsz) with true by lia. cbn. replace (bufsz <=? pos + zlen a + 2) with false by lia.
    rewrite IH by lia. by rewrite <- !app_assoc.
Qed.

Lemma strlen_word a r : Forall (fun c => c <> 0) a -> strlen (a ++ 0 :: r) = Some (length a).
Proof. intros H. induction H as [|c a Hc _ IH]; [done|]. cbn. replace (c =? 0) with false by lia. by rewrite IH. Qed.

Lemma unpack_packed argv n r : Forall arg_ok argv -> (length argv <= n)%nat ->
  unpack_args (packed argv ++ 0 :: r) (zlen (packed argv) + 1) n = Ret argv.
Proof.
  intros H. revert n. induction H as [|a argv [Ha Hz] _ IH]; intros n Hn.
  - destruct n; [done|]. by cbn.
  - destruct n as [|n]; [cbn in Hn; lia|]. unfold packed. cbn [fmap list_fmap concat]. fold (packed argv).
    rewrite <- !app_assoc. cbn [app unpack_args]. rewrite zlen_app, zlen_cons.
    pose proof (zlen_nonneg a). pose proof (zlen_nonneg (packed argv)).
    replace (zlen a + (1 + zlen (packed argv)) + 1 <=? 0) with false by lia.
    assert (Hc : c_at (a ++ 0 :: packed argv ++ 0 :: r) 0 =? 0 = false).
    { destruct a as [|c a]; [done|]. inversion Hz. unfold c_at. cbn. lia. }
    rewrite Hc, strlen_word by done. cbn [or_oob mbind run_bind].
    replace (drop (S (length a)) (a ++ 0 :: packed argv ++ 0 :: r)) with (packed argv ++ 0 :: r).
    2: { by rewrite <- Nat.add_1_r, <- drop_drop, drop_app_length. }
    replace (zlen a + (1 + zlen (packed argv)) + 1 - Z.of_nat (S (length a))) with (zlen (packed argv) + 1) by (unfold zlen; lia).
    rewrite IH by (cbn in Hn; lia). cbn. by rewrite take_app_length.
Qed.

(** The process server finds the words the shell packed, whatever its buffer held. *)
Lemma pack_roundtrip junk argv :
  Forall arg_ok argv -> (length argv <= MAX_ARGV)%nat -> zlen (packed argv) + 1 < 1024 ->
  copy_args junk (pack_argv 1024 argv) = Ret argv.
Proof.
  intros H Hn Hf. unfold copy_args, pack_argv. rewrite pack_fits by lia.
  rewrite (take_ge (packed argv ++ [0])) by (rewrite length_app; unfold zlen in Hf; cbn; lia).
  rewrite <- app_assoc, zlen_app. cbn [app]. by apply unpack_packed.
Qed.

(** ** Spelling of words *)

(** Ways to write a text between double quotes. *)
Inductive spells_double : bytes -> bytes -> Prop :=
  | sd_nil : spells_double [] []
  | sd_char c s w : c <> 34 -> c <> 92 -> spells_double s w -> spells_double (c :: s) (c :: w)
  | sd_escape c s w : spells_double s w -> spells_double (92 :: c :: s) (c :: w).

(** Ways to write a word: characters, escapes and quoted texts, one after another. *)
Inductive spells : bytes -> bytes -> Prop :=
  | sp_nil : spells [] []
  | sp_char c s w : is_blank c = false -> c <> 34 -> c <> 39 -> c <> 92 -> spells s w -> spells (c :: s) (c :: w)
  | sp_escape c s w : spells s w -> spells (92 :: c :: s) (c :: w)
  | sp_single t s w : 39 ∉ t -> spells s w -> spells (39 :: t ++ 39 :: s) (t ++ w)
  | sp_double u t s w : spells_double u t -> spells s w -> spells (34 :: u ++ 34 :: s) (t ++ w).

(** Lines that list words between blanks. *)
Inductive lists : list bytes -> bytes -> Prop :=
  | li_nil b : Forall (fun c => is_blank c = true) b -> lists [] b
  | li_cons b s w ws rest :
      Forall (fun c => is_blank c = true) b -> s <> [] -> spells s w ->
      match rest with [] => True | c :: _ => is_blank c = true end -> lists ws rest ->
      lists (w :: ws) (b ++ s ++ rest).

Lemma word_single t r : 39 ∉ t -> word Single (t ++ 39 :: r) = let '(w, rest) := word Plain r in (t ++ w, rest).
Proof.
  induction t as [|c t IH]; intros Hn; [cbn; by destruct (word Plain r)|]. cbn [app word].
  apply not_elem_of_cons in Hn as [Hc Hn]. replace (c =? 39) with false by lia. rewrite IH by done. by destruct (word Plain r).
Qed.

Lemma word_double u t r : spells_double u t -> word Double (u ++ 34 :: r) = let '(w, rest) := word Plain r in (t ++ w, rest).
Proof.
  intros H. induction H as [|c s w H1 H2 _ IH|c s w _ IH]; cbn [app word]; [cbn; by destruct (word Plain r)| |].
  - replace (c =? 34) with false by lia. replace (c =? 92) with false by lia. rewrite IH. by destruct (word Plain r).
  - rewrite IH. cbn. by destruct (word Plain r).
Qed.

Lemma word_spells s w rest : spells s w -> match rest with [] => True | c :: _ => is_blank c = true end ->
  word Plain (s ++ rest) = (w, rest).
Proof.
  intros H Hr. induction H as [|c s w H1 H2 H3 H4 _ IH|c s w _ IH|t s w Ht _ IH|u t s w Hu _ IH]; cbn [app word].
  - destruct rest as [|c rest]; [done|]. cbn. by rewrite Hr.
  - rewrite H1. replace (c =? 39) with false by lia. replace (c =? 34) with false by lia. replace (c =? 92) with false by lia. by rewrite IH.
  - cbn. by rewrite IH.
  - cbn. rewrite <- app_assoc. cbn. rewrite word_single by done. by rewrite IH.
  - cbn. rewrite <- app_assoc. cbn. rewrite (word_double u t) by done. by rewrite IH.
Qed.

Lemma skip_blanks_app b p : Forall (fun c => is_blank c = true) b -> skip_blanks (b ++ p) = skip_blanks p.
Proof. intros H. induction H as [|c b Hc _ IH]; [done|]. cbn. by rewrite Hc. Qed.

Lemma spells_first s w : s <> [] -> spells s w -> exists c s', s = c :: s' /\ is_blank c = false.
Proof. intros Hs H. destruct H; try done; by eexists _, _. Qed.

Lemma parse_lists ws line k out : lists ws line -> (length ws <= k)%nat -> out + zlen (packed ws) <= MAX_LINE ->
  parse_words k line out = Ret ws.
Proof.
  intros H. revert k out. induction H as [b Hb|b s w ws rest Hb Hs Hsp Hr _ IH]; intros k out Hk Hout.
  - destruct k; [done|]. cbn. by rewrite <- (app_nil_r b), skip_blanks_app.
  - destruct k as [|k]; [cbn in Hk; lia|]. cbn [parse_words]. rewrite skip_blanks_app by done.
    destruct (spells_first s w Hs Hsp) as (c & s' & -> & Hc).
    assert (Hsk : skip_blanks ((c :: s') ++ rest) = (c :: s') ++ rest) by (cbn; by rewrite Hc). rewrite Hsk.
    cbn [app]. change (c :: s' ++ rest) with ((c :: s') ++ rest). rewrite (word_spells (c :: s') w rest) by done.
    unfold packed in Hout. cbn [fmap list_fmap concat] in Hout. fold (packed ws) in Hout. rewrite !zlen_app in Hout.
    change (zlen [0]) with 1 in Hout. pose proof (zlen_nonneg (packed ws)).
    replace (MAX_LINE <? out + zlen w + 1) with false by lia. rewrite IH by (cbn in Hk; lia). done.
Qed.

(** ** From the line to the program *)

Definition ordinary (a : bytes) : Prop := is_redir a = false /\ a <> str "&".

Lemma strip_ordinary ws st : Forall ordinary ws ->
  strip ws st = {| c_args := c_args st ++ ws; c_redir := c_redir st; c_background := c_background st |}.
Proof.
  intros H. revert st. induction H as [|a ws [Hr Ha] _ IH]; intros st; cbn.
  - rewrite app_nil_r. by destruct st.
  - rewrite Hr, bool_decide_eq_false_2 by done. rewrite IH. cbn. by rewrite <- app_assoc.
Qed.

Lemma copy_path_word a : Forall (fun c => c <> 0) a -> zlen a <= 511 -> copy_path (a ++ [0]) = a.
Proof.
  intros H Hl. unfold copy_path. pose proof (cstr_app a [] H) as H1. pose proof (cstr_id a H) as H2.
  destruct (decide (zlen a = 511)) as [E|Hne].
  - rewrite take_app_length' by (unfold zlen in E; lia). done.
  - rewrite take_ge by (rewrite length_app; unfold zlen in *; cbn; lia). done.
Qed.


(** ** Background jobs *)

Inductive job_op :=
  | J_register (name desc : bytes) | J_unregister (name : bytes)
  | J_proc (h : Z) (name : bytes) | J_unproc (h : Z).

Definition job_step (g : jobs) (o : job_op) : jobs :=
  match o with
  | J_register n d => task_register n d g
  | J_unregister n => task_unregister n g
  | J_proc h n => task_register_proc h n g
  | J_unproc h => task_unregister_proc h g
  end.

Definition listed (h : Z) (g : jobs) : Prop := exists e, e ∈ g_tasks g /\ j_active e = true /\ j_handle e = h.

Lemma listed_name h g : is_Some (task_name_by_handle h g) <-> listed h g.
Proof.
  unfold task_name_by_handle. rewrite fmap_is_Some. split.
  - intros [[i e] (He & [Ha Hh] & _)%list_find_Some]. exists e. split; [by eapply list_elem_of_lookup_2|done].
  - intros (e & He & Ha & Hh). by eapply list_find_elem_of.
Qed.

Lemma deactivate_listed h i e g : g_tasks g !! i = Some e ->
  listed h {| g_tasks := <[i := deactivate e]> (g_tasks g) |} -> listed h g.
Proof.
  intros He (d & Hd & Ha & Hh). cbn in Hd. apply list_elem_of_lookup in Hd as [j Hj].
  destruct (decide (i = j)) as [->|Hne].
  - apply list_lookup_insert_Some in Hj as [(_ & <- & _)|[? _]]; done.
  - rewrite list_lookup_insert_ne in Hj by done. exists d. split; [by eapply list_elem_of_lookup_2|done].
Qed.

Lemma job_step_full h o g : length (g_tasks g) = MAX_TASKS ->
  length (g_tasks (job_step g o)) = MAX_TASKS /\ (listed h (job_step g o) -> listed h g).
Proof.
  intros Hl. assert (Hadd : forall e, add_job e g = g) by (intros e; unfold add_job; by rewrite Hl).
  destruct o as [n d|n|k n|k]; cbn; unfold task_register, task_unregister, task_register_proc, task_unregister_proc.
  - destruct (list_find _ _); by rewrite ?Hadd.
  - destruct (list_find _ _) as [[i e]|] eqn:E; [|done]. apply list_find_Some in E as [He _].
    cbn. rewrite length_insert. split; [done|]. by apply deactivate_listed.
  - by rewrite Hadd.
  - destruct (list_find _ _) as [[i e]|] eqn:E; [|done]. apply list_find_Some in E as [He _].
    cbn. rewrite length_insert. split; [done|]. by apply deactivate_listed.
Qed.

(** The table of background jobs fills up for good: an entry is never used again,
    so after sixteen jobs and threads a new job is not listed, even if all of them
    have ended. *)
Theorem job_table_exhausted g ops h :
  length (g_tasks g) = MAX_TASKS -> ~ listed h g -> task_name_by_handle h (foldl job_step g ops) = None.
Proof.
  intros Hl Hn. apply eq_None_not_Some. rewrite listed_name.
  assert (G : length (g_tasks (foldl job_step g ops)) = MAX_TASKS /\ (listed h (foldl job_step g ops) -> listed h g)); [|naive_solver].
  clear Hn. revert g Hl. induction ops as [|o ops IH]; intros g Hl; cbn; [done|].
  destruct (job_step_full h o g Hl) as [Hl' Hlist]. destruct (IH _ Hl') as [Hlen Himp]. naive_solver.
Qed.

Module Shell_example.

Definition any_program : bytes -> bool := fun _ => true.

(** A command with a word in single quotes, one with an escaped double quote, and
    one in double quotes (the character 34). *)
Definition line : bytes := str "say 'two words' x\" ++ [34] ++ str "y  " ++ [34] ++ str "a b" ++ [34].

Definition words : list bytes := [str "two words"; str "x" ++ [34] ++ str "y"; str "a b"].

Ltac spell :=
  lazymatch goal with
  | |- spells [] _ => apply sp_nil
  | |- spells (92 :: _) _ => apply sp_escape
  | |- spells (_ :: _) _ => apply sp_char; [done..|]
  end.

Lemma line_lists : lists (str "say" :: words) line.
Proof.
  apply (li_cons [] (str "say") (str "say") words (drop 3 line)); [constructor|done|vm_compute; repeat spell|done|].
  apply (li_cons (str " ") (str "'two words'") (str "two words") (drop 1 words) (drop 15 line)); [by repeat constructor|done| |done|].
  { apply (sp_single (str "two words") [] []); [|apply sp_nil]. apply (bool_decide_unpack _). by vm_compute. }
  apply (li_cons (str " ") (str "x\" ++ [34] ++ str "y") (str "x" ++ [34] ++ str "y") [str "a b"] (drop 20 line));
    [by repeat constructor|done|vm_compute; repeat spell|done|].
  apply (li_cons (str "  ") ([34] ++ str "a b" ++ [34]) (str "a b") [] []); [by repeat constructor|done| |done|].
  { apply (sp_double (str "a b") (str "a b") [] []); [|apply sp_nil]. vm_compute. repeat (apply sd_char; [done|done|]). apply sd_nil. }
  apply li_nil. constructor.
Qed.


(** Quoted marks are taken for marks. *)
Example quoted_mark_redirects :
  command_round any_program (str "echo '>' x") = Ret (A_command (str "echo") [str "echo"] (Some (str "x", false)) false).
Proof. by vm_compute. Qed.

(** A line with only a background mark. *)
Example lone_ampersand : command_round any_program (str "&") = Oob.
Proof. by vm_compute. Qed.

(** Words that do not fit are dropped without a message. *)
Example long_argument_dropped : copy_args [] (pack_argv 1024 [str "prog"; replicate 1020 97; str "end"]) = Ret [str "prog"].
Proof. by vm_compute. Qed.

(** An empty word ends the arguments. *)
Example empty_argument_ends : copy_args [] (pack_argv 1024 [str "prog"; []; str "end"]) = Ret [str "prog"].
Proof. by vm_compute. Qed.

(** A line longer than the buffer is written behind it. *)
Example long_line : command_round any_program (replicate 5000 97) = Oob.
Proof. by vm_compute. Qed.

Definition full_jobs : jobs := foldl job_step {| g_tasks := [] |} ((fun h => J_proc h (str "x")) <$> seqZ 1 16).

Lemma job_table_exhausted_witness :
  task_name_by_handle 17 (foldl job_step full_jobs (((fun h => J_unproc h) <$> seqZ 1 16) ++ [J_proc 17 (str "y")])) = None.
Proof.
  apply (job_table_exhausted full_jobs _ 17); [by vm_compute|]. rewrite <- listed_name. vm_compute. by intros [? ?].
Defined.

End Shell_example.
