(* ===== verification/Authd.v ===== *)
(** * The authentication server

    [src/pkg/authd/server/main.cc]: credentials are salted SHA-256 hashes read from
    a shadow file, with a built-in entry when the file is missing or has no usable
    line.  SHA-256 is a library and a parameter here: a function from texts to 32
    bytes.  The credential store is a value the operations pass on. *)

From S2P Require Import Prelude.

Class Sha256 := {
  sha256 : bytes -> bytes;
  sha256_length x : length (sha256 x) = 32%nat;
  sha256_bytes x : bytes_ok (sha256 x)
}.

Record Cred := { user : bytes; salt : bytes; hash_hex : bytes }.

(** ** Hexadecimal text *)

(** [None] is the -1 of the code. *)
Definition hex_nibble (c : Z) : option Z :=
  if (48 <=? c) && (c <=? 57) then Some (c - 48)
  else if (97 <=? c) && (c <=? 102) then Some (c - 97 + 10)
  else if (65 <=? c) && (c <=? 70) then Some (c - 65 + 10)
  else None.

(** The loop of [hex_decode], two characters at a time. *)
Fixpoint hex_pairs (hex : bytes) : option bytes :=
  match hex with
  | hi :: lo :: hex =>
      h ← hex_nibble hi; l ← hex_nibble lo; rest ← hex_pairs hex;
      Some (u8 (Z.lor (Z.shiftl h 4) l) :: rest)
  | _ => Some []
  end.

Definition hex_decode (hex : bytes) : option bytes :=
  if negb (zlen hex mod 2 =? 0) then None else hex_pairs hex.

(** The character of a digit in [hex_encode]'s table. *)
Definition hex_char (d : Z) : Z := c_at (str "0123456789abcdef") (Z.to_nat d).

Definition hex_encode (p : bytes) : bytes :=
  concat ((fun b => [hex_char (Z.shiftr b 4); hex_char (Z.land b 15)]) <$> p).

(** ** Comparison in constant time *)

Definition ct_equal (a b : bytes) : bool :=
  if negb (zlen a =? zlen b) then false
  else foldl (fun diff '(x, y) => Z.lor diff (u8 (Z.lxor x y))) 0 (zip a b) =? 0.

(** ** The credential store *)

(** Removing newlines, returns and blanks at the end. *)
Definition at_end (c : Z) : bool := (c =? 10) || (c =? 13) || (c =? 32).

Fixpoint drop_while_rev (s : bytes) : bytes :=
  match s with [] => [] | c :: s' => if at_end c then drop_while_rev s' else s end.

Definition strip_end (s : bytes) : bytes := reverse (drop_while_rev (reverse s)).

(** [std::string::find] of a colon: the text before it and the text behind. *)
Fixpoint split_colon (s : bytes) : option (bytes * bytes) :=
  match s with
  | [] => None
  | c :: s => if c =? 58 then Some ([], s) else '(a, b) ← split_colon s; Some (c :: a, b)
  end.

Definition add_shadow_line (line : bytes) (creds : list Cred) : list Cred * bool :=
  let s := strip_end (cstr line) in
  let entry :=
    match s with
    | [] => None
    | c :: _ =>
        if c =? 35 then None
        else '(u, r) ← split_colon s;
             '(salt_hex, hash) ← split_colon r;
             if bool_decide (u = []) || bool_decide (hash = []) then None
             else sl ← hex_decode salt_hex; Some {| user := u; salt := sl; hash_hex := hash |}
    end in
  match entry with None => (creds, false) | Some e => (creds ++ [e], true) end.

(** What [fgets] with a buffer of 256 bytes delivers: lines with their newline, cut
    after 255 characters.  [n] characters of the buffer are free. *)
Fixpoint fgets_line (n : nat) (s : bytes) : bytes * bytes :=
  match n, s with
  | O, _ | _, [] => ([], s)
  | S n, c :: s => if c =? 10 then ([c], s) else let '(l, rest) := fgets_line n s in (c :: l, rest)
  end.

Fixpoint fgets_all (fuel : nat) (s : bytes) : list bytes :=
  match fuel, s with
  | O, _ | _, [] => []
  | S fuel, _ => let '(l, rest) := fgets_line 255 s in l :: fgets_all fuel rest
  end.

Definition FALLBACK : bytes :=
  str "root:0123456789abcdef0123456789abcdef:73c589806fe85d70363a88077d418adad034bd3fad37315681d7f80984710f00".

Definition install_fallback (creds : list Cred) : list Cred := fst (add_shadow_line FALLBACK creds).

Definition add_lines (lines : list bytes) (creds : list Cred) : list Cred * Z :=
  foldl (fun '(creds, n) l => let '(creds, ok) := add_shadow_line l creds in (creds, if ok : bool then n + 1 else n))
    (creds, 0) lines.

(** [load_credentials]: [None] is a file that cannot be opened. *)
Definition load_credentials (file : option bytes) (creds : list Cred) : list Cred :=
  match file with
  | None => install_fallback creds
  | Some s =>
      let '(creds, n) := add_lines (fgets_all (length s) s) creds in
      if n =? 0 then install_fallback creds else creds
  end.

Section Auth.
Context `{Sha256}.

Definition salted_hash (salt pass : bytes) : bytes := hex_encode (sha256 (salt ++ pass)).

Fixpoint op_authenticate (u pass : bytes) (creds : list Cred) : l4_ret :=
  match creds with
  | [] => Err EPERM
  | e :: creds =>
      if bool_decide (user e = u)
      then if ct_equal (salted_hash (salt e) pass) (hash_hex e) then Ok else Err EPERM
      else op_authenticate u pass creds
  end.

End Auth.

(** ** Hexadecimal text round trips *)

Lemma below_16 (P : Z -> Prop) : Forall P (seqZ 0 16) -> forall d, 0 <= d < 16 -> P d.
Proof. rewrite list.Forall_forall. intros H d Hd. apply H, elem_of_seqZ. lia. Qed.

Lemma hex_nibble_char d : 0 <= d < 16 -> hex_nibble (hex_char d) = Some d.
Proof. revert d. apply below_16. by repeat constructor. Qed.

(** Hexadecimal characters are none of the separators. *)
Definition plain_char (c : Z) : Prop := at_end c = false /\ c <> 0 /\ c <> 58 /\ c <> 10 /\ byte_ok c.

Lemma hex_char_plain d : 0 <= d < 16 -> plain_char (hex_char d).
Proof. revert d. apply below_16. by repeat constructor. Qed.

Lemma byte_halves b : byte_ok b ->
  0 <= Z.shiftr b 4 < 16 /\ 0 <= Z.land b 15 < 16 /\ u8 (Z.lor (Z.shiftl (Z.shiftr b 4) 4) (Z.land b 15)) = b.
Proof.
  unfold byte_ok. intros Hb. rewrite Z.shiftr_div_pow2, Z.shiftl_mul_pow2 by lia.
  change 15 with (Z.ones 4). rewrite Z.land_ones by lia.
  pose proof (Z.mod_pos_bound b (2 ^ 4)). pose proof (Z.div_mod b (2 ^ 4)).
  assert (0 <= b / 2 ^ 4 < 16) by (split; [apply Z.div_pos; lia|apply Z.div_lt_upper_bound; lia]).
  rewrite lor_disjoint by lia. split_and!; try lia. rewrite uwrap_small by (unfold in_u; lia). lia.
Qed.

Lemma hex_encode_plain p : bytes_ok p -> Forall plain_char (hex_encode p).
Proof.
  intros H. unfold hex_encode. induction H as [|b p Hb _ IH]; cbn; [constructor|].
  destruct (byte_halves b Hb) as (H1 & H2 & _). by repeat (constructor; [by apply hex_char_plain|]).
Qed.

Lemma length_hex_encode p : length (hex_encode p) = (2 * length p)%nat.
Proof. unfold hex_encode. induction p as [|b p IH]; cbn in *; lia. Qed.

Lemma hex_roundtrip p : bytes_ok p -> hex_decode (hex_encode p) = Some p.
Proof.
  intros H. unfold hex_decode. unfold zlen. rewrite length_hex_encode, Nat2Z.inj_mul, Z.mul_comm, Z.mod_mul by done. cbn.
  unfold hex_encode. induction H as [|b p Hb _ IH]; [done|]. cbn [fmap list_fmap concat app hex_pairs].
  destruct (byte_halves b Hb) as (H1 & H2 & H3). rewrite !hex_nibble_char by done. cbn. rewrite IH. cbn. by rewrite H3.
Qed.

Lemma hex_encode_inj p q : bytes_ok p -> bytes_ok q -> hex_encode p = hex_encode q -> p = q.
Proof. intros Hp Hq E. apply (f_equal hex_decode) in E. rewrite !hex_roundtrip in E by done. by injection E. Qed.

(** ** The comparison *)

Lemma ct_diff l d : 0 <= d -> Forall (fun '(x, y) => byte_ok x /\ byte_ok y) l ->
  foldl (fun diff '(x, y) => Z.lor diff (u8 (Z.lxor x y))) d l = 0 <-> d = 0 /\ Forall (fun '(x, y) => x = y) l.
Proof.
  intros Hd H. revert d Hd. induction H as [|[x y] l [Hx Hy] _ IH]; intros d Hd; cbn; [naive_solver|].
  pose proof (uwrap_nonneg 8 (Z.lxor x y)). rewrite IH by (apply Z.lor_nonneg; lia). rewrite Z.lor_eq_0_iff, list.Forall_cons.
  assert (u8 (Z.lxor x y) = 0 <-> x = y); [|naive_solver]. split; [|intros E; rewrite E, Z.lxor_nilpotent; done].
  unfold byte_ok in *. rewrite uwrap_small.
  - by apply Z.lxor_eq.
  - split; [apply Z.lxor_nonneg; lia|]. destruct (decide (Z.lxor x y = 0)) as [->|Hne]; [lia|].
    apply Z.log2_lt_pow2; [assert (0 <= Z.lxor x y) by (apply Z.lxor_nonneg; lia); lia|].
    assert (Hlog : forall z, 0 <= z < 256 -> Z.log2 z < 8).
    { intros z Hz. destruct (decide (z = 0)) as [->|]; [done|]. apply Z.log2_lt_pow2; lia. }
    eapply Z.le_lt_trans; [apply Z.log2_lxor; lia|]. apply Z.max_lub_lt; by apply Hlog.
Qed.

(** Two texts are found equal exactly when they are. *)
Lemma ct_equal_spec a b : bytes_ok a -> bytes_ok b -> ct_equal a b = bool_decide (a = b).
Proof.
  intros Ha Hb. unfold ct_equal. destruct (zlen a =? zlen b) eqn:E; cbn.
  - assert (Hl : length a = length b) by (unfold zlen in E; lia). apply Bool.eq_iff_eq_true.
    rewrite bool_decide_eq_true, Z.eqb_eq, ct_diff; [|lia|].
    + split; [intros [_ H]|intros ->; split; [done|]].
      * revert b Hb E Hl H. induction a as [|x a IH]; intros [|y b] Hb E Hl H; try done.
        cbn in H. apply list.Forall_cons in H as [-> H]. inversion Ha. inversion Hb. f_equal. apply IH; try done; cbn in *; unfold zlen in *; lia.
      * clear. induction b; cbn; by constructor.
    + clear E. revert b Hb Hl. induction Ha as [|x a Hx _ IH]; intros [|y b] Hb Hl; cbn; try constructor; try done.
      * by inversion Hb.
      * apply IH; [by inversion Hb|cbn in Hl; lia].
  - symmetry. apply bool_decide_eq_false. intros ->. lia.
Qed.

(** ** Reading a shadow file *)

Lemma split_colon_app a b : 58 ∉ a -> split_colon (a ++ 58 :: b) = Some (a, b).
Proof.
  induction a as [|c a IH]; intros Hn; [done|]. apply not_elem_of_cons in Hn as [Hc Hn]. cbn.
  replace (c =? 58) with false by lia. rewrite IH by done. done.
Qed.

Lemma plain_no_colon p : Forall plain_char p -> 58 ∉ p.
Proof. rewrite list.Forall_forall. intros H Hin. by destruct (H _ Hin) as (_ & _ & ? & _). Qed.

Lemma strip_end_line s c : at_end c = false -> strip_end ((s ++ [c]) ++ [10]) = s ++ [c].
Proof.
  intros Hc. unfold strip_end. rewrite !reverse_app, !reverse_singleton. cbn [app drop_while_rev].
  change (at_end 10) with true. cbv iota. by rewrite Hc, reverse_cons, reverse_involutive.
Qed.

Lemma fgets_line_nl n l s : 10 ∉ l -> (length l < n)%nat -> fgets_line n (l ++ 10 :: s) = (l ++ [10], s).
Proof.
  revert n. induction l as [|c l IH]; intros [|n] Hn Hl; cbn in *; try lia; [done|].
  apply not_elem_of_cons in Hn as [Hc Hn]. replace (c =? 10) with false by lia. by rewrite IH by (done || lia).
Qed.

Lemma fgets_lines ls fuel : Forall (fun l => 10 ∉ l /\ (length l < 255)%nat) ls ->
  (length ls <= fuel)%nat -> fgets_all fuel (concat ((fun l => l ++ [10]) <$> ls)) = (fun l => l ++ [10]) <$> ls.
Proof.
  intros H. revert fuel. induction H as [|l ls [Hn Hl] _ IH]; intros fuel Hf; [by destruct fuel|].
  destruct fuel as [|fuel]; [cbn in Hf; lia|]. cbn [fmap list_fmap concat]. rewrite <- app_assoc. cbn [app].
  cbn [fgets_all]. destruct (l ++ 10 :: _) eqn:E; [by destruct l|]. rewrite <- E, fgets_line_nl by done.
  by rewrite IH by (cbn in Hf; lia).
Qed.

Section Shadow.
Context `{Sha256}.

(** An account, its line in the shadow file and the record of the line. *)
Record account := { a_user : bytes; a_salt : bytes; a_pass : bytes }.

Definition shadow_line (a : account) : bytes :=
  a_user a ++ [58] ++ hex_encode (a_salt a) ++ [58] ++ salted_hash (a_salt a) (a_pass a).

Definition cred_of (a : account) : Cred :=
  {| user := a_user a; salt := a_salt a; hash_hex := salted_hash (a_salt a) (a_pass a) |}.

Record account_ok (a : account) : Prop := {
  ao_user : a_user a <> [];
  ao_chars : forall c, c ∈ a_user a -> c <> 0 /\ c <> 10 /\ c <> 58;
  ao_comment : head (a_user a) <> Some 35;
  ao_salt : bytes_ok (a_salt a);
  ao_fits : (length (shadow_line a) < 255)%nat
}.

Lemma salted_hash_plain sl pw : Forall plain_char (salted_hash sl pw).
Proof. apply hex_encode_plain, sha256_bytes. Qed.

Lemma salted_hash_bytes sl pw : bytes_ok (salted_hash sl pw).
Proof. eapply Forall_impl; [|apply salted_hash_plain]. by intros c (_ & _ & _ & _ & ?). Qed.

Lemma shadow_line_chars a c : account_ok a -> c ∈ shadow_line a -> c <> 0 /\ c <> 10.
Proof.
  intros Ha. unfold shadow_line. rewrite !elem_of_app, !list_elem_of_singleton.
  assert (Hp : forall l, Forall plain_char l -> c ∈ l -> c <> 0 /\ c <> 10).
  { intros l Hl Hin. rewrite list.Forall_forall in Hl. by destruct (Hl _ Hin) as (_ & ? & _ & ? & _). }
  intros [Hin|[->|[Hin|[->|Hin]]]]; try done.
  - by destruct (ao_chars _ Ha _ Hin) as (? & ? & _).
  - by eapply Hp; [apply hex_encode_plain, Ha|].
  - by eapply Hp; [apply salted_hash_plain|].
Qed.

Lemma add_shadow_account a creds : account_ok a ->
  add_shadow_line (shadow_line a ++ [10]) creds = (creds ++ [cred_of a], true).
Proof.
  intros Ha. unfold add_shadow_line. rewrite cstr_id; [|apply list.Forall_forall].
  2: { intros c [Hc|Hc]%elem_of_app; [by apply (shadow_line_chars a)|apply list_elem_of_singleton in Hc; by subst]. }
  set (h := salted_hash (a_salt a) (a_pass a)).
  assert (Hh : exists h' c, h = h' ++ [c] /\ at_end c = false).
  { destruct (@exists_last _ h) as (h' & c & E).
    { intros E. apply (f_equal length) in E. unfold h, salted_hash in E. rewrite length_hex_encode, sha256_length in E. done. }
    exists h', c. split; [done|]. pose proof (salted_hash_plain (a_salt a) (a_pass a)) as Hp. fold h in Hp. rewrite E in Hp.
      apply list.Forall_app in Hp as [_ Hp]. by inversion Hp as [|? ? [? _]]. }
  destruct Hh as (h' & c & Hhc & Hc).
  assert (Hst : strip_end (shadow_line a ++ [10]) = shadow_line a).
  { unfold shadow_line. fold h. rewrite Hhc, !app_assoc. by apply strip_end_line. }
  rewrite Hst. unfold shadow_line. fold h. cbn [app].
  pose proof (ao_user _ Ha) as Hu. pose proof (ao_comment _ Ha) as Hcm.
  pose proof (split_colon_app (a_user a) (hex_encode (a_salt a) ++ 58 :: h)) as Hsp.
  assert (Hn : 58 ∉ a_user a) by (intros Hin; by destruct (ao_chars _ Ha _ Hin) as (_ & _ & ?)).
  specialize (Hsp Hn). set (s := a_user a ++ _) in *.
  assert (Hd : exists d r, s = d :: r /\ d =? 35 = false).
  { subst s. destruct (a_user a) as [|d u]; [done|]. eexists d, _. split; [done|]. cbn in Hcm. apply Z.eqb_neq. congruence. }
  clearbody s. destruct Hd as (d & r & -> & Hd). rewrite Hd, Hsp. cbn [mbind option_bind].
  rewrite split_colon_app by (apply plain_no_colon, hex_encode_plain, Ha). cbn.
  rewrite (bool_decide_eq_false_2 (a_user a = [])) by done. rewrite (bool_decide_eq_false_2 (h = [])) by (rewrite Hhc; by destruct h').
  cbn. rewrite hex_roundtrip by apply Ha. done.
Qed.

Lemma add_accounts accs creds n : Forall account_ok accs ->
  foldl (fun '(creds, n) l => let '(creds, ok) := add_shadow_line l creds in (creds, if ok : bool then n + 1 else n))
    (creds, n) ((fun l => l ++ [10]) <$> (shadow_line <$> accs)) = (creds ++ (cred_of <$> accs), n + zlen accs).
Proof.
  intros Ha. revert creds n. induction Ha as [|a accs Ha _ IH]; intros creds n; cbn [fmap list_fmap foldl].
  - rewrite app_nil_r. f_equal. unfold zlen. cbn. lia.
  - rewrite add_shadow_account by done. rewrite IH, <- app_assoc, zlen_cons. cbn. f_equal. lia.
Qed.

Definition shadow_file (accs : list account) : bytes := concat ((fun l => l ++ [10]) <$> (shadow_line <$> accs)).

Lemma load_shadow_file accs creds : Forall account_ok accs -> accs <> [] ->
  load_credentials (Some (shadow_file accs)) creds = creds ++ (cred_of <$> accs).
Proof.
  intros Ha Hne. unfold load_credentials, shadow_file. rewrite fgets_lines.
  - unfold add_lines. rewrite add_accounts by done. replace (0 + zlen accs =? 0) with false; [done|].
    symmetry. destruct accs; [done|]. rewrite zlen_cons. pose proof (zlen_nonneg accs). lia.
  - apply list.Forall_forall. intros l (a & -> & Hin)%list_elem_of_fmap. rewrite list.Forall_forall in Ha.
    split; [|apply (Ha _ Hin)]. intros Hc. by destruct (shadow_line_chars a _ (Ha _ Hin) Hc).
  - rewrite length_fmap. clear. induction accs as [|a accs IH]; cbn; [lia|]. rewrite !length_app. cbn. lia.
Qed.

(** The first account of a name decides. *)
Definition account_of (u : bytes) (accs : list account) : option account :=
  snd <$> list_find (fun a => a_user a = u) accs.

Lemma authenticate_accounts u p accs :
  op_authenticate u p (cred_of <$> accs) = Ok <->
  exists a, account_of u accs = Some a /\ sha256 (a_salt a ++ p) = sha256 (a_salt a ++ a_pass a).
Proof.
  unfold account_of. induction accs as [|a accs IH]; cbn [fmap list_fmap op_authenticate list_find].
  - split; [done|]. by intros (a & ? & _).
  - cbn [user cred_of]. destruct (decide (a_user a = u)) as [E|Hne].
    + rewrite bool_decide_eq_true_2 by done. cbn [salt hash_hex cred_of]. rewrite ct_equal_spec.
      2, 3: apply salted_hash_bytes.
      split.
      * intros Hok. exists a. split; [done|]. destruct (bool_decide _) eqn:Hb; [|done]. apply bool_decide_eq_true in Hb.
        by apply hex_encode_inj in Hb; [|apply sha256_bytes..].
      * intros (b & [= <-] & Hs). rewrite bool_decide_eq_true_2; [done|]. unfold salted_hash. by rewrite Hs.
    + rewrite bool_decide_eq_false_2, IH by done. by destruct (list_find _ accs) as [[i b]|].
Qed.

(** C29. Login against a shadow file: with a file of well-formed lines, a name and a
    password are accepted exactly when the first account of that name has a password
    with the same salted hash; the built-in account is then not in use. *)
Theorem shadow_authenticates accs u p :
  Forall account_ok accs -> accs <> [] ->
  op_authenticate u p (load_credentials (Some (shadow_file accs)) []) = Ok <->
  exists a, account_of u accs = Some a /\ sha256 (a_salt a ++ p) = sha256 (a_salt a ++ a_pass a).
Proof. intros Ha Hne. rewrite load_shadow_file by done. apply authenticate_accounts. Qed.

End Shadow.

(** ** Where credentials come from *)

(** The record of a line, if it is usable. *)
Definition line_cred (l : bytes) : option Cred := head (fst (add_shadow_line l [])).

Definition fallback_cred : Cred :=
  {| user := str "root"; salt := default [] (hex_decode (str "0123456789abcdef0123456789abcdef"));
     hash_hex := str "73c589806fe85d70363a88077d418adad034bd3fad37315681d7f80984710f00" |}.

Lemma add_shadow_line_cred l creds :
  add_shadow_line l creds =
  match line_cred l with Some e => (creds ++ [e], true) | None => (creds, false) end.
Proof.
  unfold line_cred, add_shadow_line.
  match goal with |- match ?x with _ => _ end = _ => destruct x as [e|] end; done.
Qed.

Lemma add_lines_cred lines creds n :
  foldl (fun '(creds, n) l => let '(creds, ok) := add_shadow_line l creds in (creds, if ok : bool then n + 1 else n))
    (creds, n) lines = (creds ++ omap line_cred lines, n + zlen (omap line_cred lines)).
Proof.
  revert creds n. induction lines as [|l lines IH]; intros creds n; cbn [foldl].
  - rewrite app_nil_r. f_equal. unfold zlen. cbn. lia.
  - rewrite add_shadow_line_cred. cbn [omap list_omap]. destruct (line_cred l) as [e|]; rewrite IH; [|done].
    rewrite <- app_assoc, zlen_cons. cbn. f_equal. lia.
Qed.


Module Authd_example.

(** Any function to 32 bytes will do: this one keeps the end of the text. *)
Definition pad (x : bytes) : bytes := take 32 ((fun c => c mod 256) <$> reverse x ++ replicate 32 0).

#[local] Program Instance some_hash : Sha256 := {| sha256 := pad |}.
Next Obligation. intros x. unfold pad. rewrite length_take, length_fmap, length_app, length_replicate. lia. Qed.
Next Obligation.
  intros x. unfold pad. apply Forall_take, Forall_fmap, Forall_true. intros c. apply Z.mod_pos_bound. lia.
Qed.

Definition root : account := {| a_user := str "root"; a_salt := [1; 171]; a_pass := str "secret" |}.
Definition jo : account := {| a_user := str "jo"; a_salt := []; a_pass := str "pw" |}.

Lemma accounts_ok : Forall account_ok [root; jo].
Proof.
  constructor; [|constructor; [|constructor]]; split; try done; try (by repeat constructor); try (by vm_compute; lia).
  all: cbn; intros c Hc; set_solver.
Qed.

Lemma shadow_authenticates_witness :
  let creds := load_credentials (Some (shadow_file [root; jo])) [] in
  op_authenticate (str "jo") (str "pw") creds = Ok /\ op_authenticate (str "jo") (str "secret") creds = Err EPERM.
Proof.
  split; [|by vm_compute]. apply (shadow_authenticates [root; jo] _ _ accounts_ok); [done|]. by exists jo.
Defined.

(** A line of more than 255 characters is read as several: the end of a comment can
    become an account. *)
Example comment_becomes_account :
  user <$> load_credentials (Some ([35] ++ replicate 254 32 ++ str "mallory:00:" ++ salted_hash [0] (str "x") ++ [10])) [] =
  [str "mallory"].
Proof. by vm_compute. Qed.

End Authd_example.
