(* ===== verification/Login.v ===== *)
(** * Keyboard and login of the shell

    [src/pkg/native_shell/server/src/main.cc]: the ring of typed characters between
    the thread that reads the console and the shell, the entry of a line, and the
    login against the authentication server.  The ring holds at most 255 characters
    of its 256 bytes.  Reading a character waits until there is one, so the login
    functions take the characters to come as a list and are [None] while it does
    not suffice. *)

From S2P Require Import Prelude Authd.

(** ** The keyboard ring *)

Definition KBD : Z := 256.

Record kbd := { k_buf : bytes; k_head : Z; k_tail : Z }.

Definition kbd_new : kbd := {| k_buf := replicate (Z.to_nat KBD) 0; k_head := 0; k_tail := 0 |}.

Definition kbd_push (c : Z) (k : kbd) : kbd :=
  let next := (k_head k + 1) mod KBD in
  if next =? k_tail k then k
  else {| k_buf := <[Z.to_nat (k_head k) := c]> (k_buf k); k_head := next; k_tail := k_tail k |}.

(** [kbd_try_pop]; [kbd_pop] is the same once there is a character. *)
Definition kbd_try_pop (k : kbd) : run (kbd * option Z) :=
  if k_head k =? k_tail k then Ret (k, None)
  else c ← or_oob (k_buf k !! Z.to_nat (k_tail k));
       Ret ({| k_buf := k_buf k; k_head := k_head k; k_tail := (k_tail k + 1) mod KBD |}, Some c).

(** ** Entering a line *)

(** [read_login_line]: [buf] is what is entered so far. *)
Fixpoint read_login_line (maxlen : Z) (buf inp : bytes) : option (bytes * bytes) :=
  match inp with
  | [] => None
  | c :: inp =>
      if (c =? 10) || (c =? 13) then Some (buf, inp)
      else if ((c =? 8) || (c =? 127)) && (0 <? zlen buf)
      then read_login_line maxlen (take (length buf - 1) buf) inp
      else if (zlen buf <? maxlen - 1) && (32 <=? c)
      then read_login_line maxlen (buf ++ [c]) inp
      else read_login_line maxlen buf inp
  end.

(** ** Login *)

Definition MAX_LOGIN_ATTEMPTS : Z := 3.

(** [do_login]: [attempt] attempts are used up; the answer is the name of the user,
    or [None] after too many attempts. *)
Fixpoint do_login (auth_check : bytes -> bytes -> bool) (fuel : nat) (attempt : Z) (inp : bytes)
  : option (option bytes * bytes) :=
  match fuel with
  | O => None
  | S fuel =>
      if MAX_LOGIN_ATTEMPTS <=? attempt then Some (None, inp)
      else
        '(user, inp) ← read_login_line 64 [] inp;
        match user with
        | [] => do_login auth_check fuel attempt inp
        | _ =>
            '(pass, inp) ← read_login_line 64 [] inp;
            if auth_check user pass then Some (Some user, inp)
            else do_login auth_check fuel (attempt + 1) inp
        end
  end.

(** [auth_check]: without the authentication server everyone is refused. *)
Definition auth_check `{Sha256} (authd : option (list Cred)) (user pass : bytes) : bool :=
  match authd with
  | None => false
  | Some creds => bool_decide (op_authenticate user pass creds = Ok)
  end.

(** ** The ring is a queue of 255 characters *)

Definition queued (k : kbd) : bytes :=
  (fun i => c_at (k_buf k) (Z.to_nat ((k_tail k + Z.of_nat i) mod KBD))) <$> seq 0 (Z.to_nat ((k_head k - k_tail k) mod KBD)).

Record kbd_ok (k : kbd) : Prop := {
  ko_len : length (k_buf k) = Z.to_nat KBD;
  ko_head : 0 <= k_head k < KBD;
  ko_tail : 0 <= k_tail k < KBD
}.

Inductive kbd_op := K_push (c : Z) | K_pop.

Definition kbd_step (k : kbd) (o : kbd_op) : run (kbd * option Z) :=
  match o with K_push c => Ret (kbd_push c k, None) | K_pop => kbd_try_pop k end.

Definition queue_step (q : bytes) (o : kbd_op) : bytes * option Z :=
  match o, q with
  | K_push c, _ => (if zlen q <? KBD - 1 then q ++ [c] else q, None)
  | K_pop, [] => ([], None)
  | K_pop, c :: q => (q, Some c)
  end.

Lemma length_queued k : length (queued k) = Z.to_nat ((k_head k - k_tail k) mod KBD).
Proof. unfold queued. by rewrite length_fmap, length_seq. Qed.

Lemma queued_lookup k i : (i < length (queued k))%nat ->
  queued k !! i = Some (c_at (k_buf k) (Z.to_nat ((k_tail k + Z.of_nat i) mod KBD))).
Proof.
  intros Hi. rewrite length_queued in Hi. unfold queued. by rewrite list_lookup_fmap, lookup_seq_lt.
Qed.

Lemma push_ok k c : kbd_ok k -> kbd_ok (kbd_push c k) /\ queued (kbd_push c k) = fst (queue_step (queued k) (K_push c)).
Proof.
  intros [Hl Hh Ht]. unfold kbd_push. pose proof (length_queued k) as Hq.
  pose proof (Z.mod_pos_bound (k_head k - k_tail k) KBD ltac:(unfold KBD; lia)) as Hm. unfold KBD in *.
  assert (Hz : zlen (queued k) = (k_head k - k_tail k) mod 256) by (unfold zlen; rewrite Hq; lia).
  cbn [queue_step fst]. unfold KBD. rewrite Hz. destruct ((k_head k + 1) mod 256 =? k_tail k) eqn:E.
  - split; [done|]. replace ((k_head k - k_tail k) mod 256 <? 256 - 1) with false; [done|].
    symmetry. apply Z.ltb_ge. Z.div_mod_to_equations. lia.
  - replace ((k_head k - k_tail k) mod 256 <? 256 - 1) with true.
    2: { symmetry. apply Z.ltb_lt. Z.div_mod_to_equations. lia. }
    split; [split; cbn; unfold KBD; [by rewrite length_insert|apply Z.mod_pos_bound; lia|done]|].
    set (k' := {| k_buf := _ |}).
    assert (Hq' : length (queued k') = S (length (queued k))).
    { rewrite (length_queued k'), Hq. cbn. unfold KBD. Z.div_mod_to_equations. lia. }
    apply list_eq_same_length with (length (queued k')); [rewrite length_app; cbn; lia|done|].
    intros i x y Hi Hx Hy. rewrite queued_lookup in Hx by done. injection Hx as <-. cbn in *.
    unfold KBD in *. destruct (decide (i = length (queued k))) as [->|Hne].
    + rewrite lookup_app_r, Nat.sub_diag in Hy by done. injection Hy as <-.
      rewrite Hq, Z2Nat.id by lia. replace ((k_tail k + (k_head k - k_tail k) mod 256) mod 256) with (k_head k).
      2: { Z.div_mod_to_equations. lia. }
      unfold c_at. rewrite list_lookup_insert_eq by (rewrite Hl; lia). done.
    + rewrite lookup_app_l, queued_lookup in Hy by lia. injection Hy as <-. unfold c_at, KBD.
      rewrite list_lookup_insert_ne; [done|]. intros Hc. assert (Hz2 : Z.of_nat i < (k_head k - k_tail k) mod 256) by lia.
      apply Z2Nat.inj in Hc; [|lia|apply Z.mod_pos_bound; lia]. Z.div_mod_to_equations. lia.
Qed.

Lemma pop_ok k : kbd_ok k -> exists k', kbd_try_pop k = Ret (k', snd (queue_step (queued k) K_pop)) /\
  kbd_ok k' /\ queued k' = fst (queue_step (queued k) K_pop).
Proof.
  intros [Hl Hh Ht]. unfold kbd_try_pop. pose proof (length_queued k) as Hq. unfold KBD in *.
  destruct (k_head k =? k_tail k) eqn:E.
  - apply Z.eqb_eq in E. rewrite E, Z.sub_diag in Hq. destruct (queued k) eqn:Ek; [|done].
    exists k. split; [done|]. split; [done|]. by rewrite Ek.
  - apply Z.eqb_neq in E. assert (Hpos : 0 < (k_head k - k_tail k) mod 256) by (Z.div_mod_to_equations; lia).
    pose proof (queued_lookup k 0 ltac:(lia)) as H0. rewrite Z.add_0_r, (Z.mod_small (k_tail k)) in H0 by (unfold KBD; lia).
    destruct (lookup_lt_is_Some_2 (k_buf k) (Z.to_nat (k_tail k))) as [c Hc]; [rewrite Hl; lia|].
    unfold c_at in H0. rewrite Hc in H0. cbn in H0. rewrite Hc. cbn [or_oob mbind run_bind].
    destruct (queued k) as [|d q] eqn:Ek; [done|]. cbn in H0. injection H0 as ->.
    eexists. split; [done|]. split; [split; cbn; unfold KBD; [done|done|apply Z.mod_pos_bound; lia]|]. cbn [queue_step fst].
    set (k' := {| k_buf := _ |}).
    assert (Hq' : length (queued k') = length q).
    { cbn in Hq. rewrite (length_queued k'). cbn. unfold KBD. Z.div_mod_to_equations. lia. }
    apply list_eq_same_length with (length (queued k')); [done|done|].
    intros i x y Hi Hx Hy. rewrite queued_lookup in Hx by done. injection Hx as <-. cbn [k_buf k_tail k'].
    pose proof (queued_lookup k (S i)) as Hk. rewrite Ek in Hk. specialize (Hk ltac:(cbn; lia)). change ((_ :: q) !! S i) with (q !! i) in Hk.
    rewrite Hy in Hk. injection Hk as ->. f_equal. f_equal. unfold KBD. rewrite Z.add_mod_idemp_l by lia. f_equal. lia.
Qed.

(** The keyboard ring is a queue: for every sequence of key presses and reads, a
    read returns the oldest character that was not dropped, and characters are
    dropped only when 255 are waiting. *)
Theorem kbd_refines k o :
  kbd_ok k -> exists k', kbd_step k o = Ret (k', snd (queue_step (queued k) o)) /\ kbd_ok k' /\
    queued k' = fst (queue_step (queued k) o).
Proof.
  intros H. destruct o as [c|].
  - destruct (push_ok k c H) as [Hk Hq]. by exists (kbd_push c k).
  - by apply pop_ok.
Qed.

(** ** What is entered *)

(** Editing as the user sees it: a character is appended while there is room, and
    backspace or delete takes the last one away. *)
Definition edit (maxlen : Z) (buf : bytes) (c : Z) : bytes :=
  if (c =? 8) || (c =? 127) then take (length buf - 1) buf
  else if (zlen buf <? maxlen - 1) && (32 <=? c) then buf ++ [c] else buf.

Definition is_enter (c : Z) : bool := (c =? 10) || (c =? 13).

(** The delete key is not pressed on an empty line. *)
Fixpoint no_stray_delete (maxlen : Z) (buf typed : bytes) : Prop :=
  match typed with
  | [] => True
  | c :: typed => (c = 127 -> buf <> []) /\ no_stray_delete maxlen (edit maxlen buf c) typed
  end.

Lemma read_line_edits maxlen buf typed c rest :
  is_enter c = true -> Forall (fun c => is_enter c = false) typed -> no_stray_delete maxlen buf typed ->
  read_login_line maxlen buf (typed ++ c :: rest) = Some (foldl (edit maxlen) buf typed, rest).
Proof.
  intros Hc Ht. revert buf. induction Ht as [|d typed Hd _ IH]; intros buf Hs; cbn [app read_login_line foldl].
  - unfold is_enter in Hc. by rewrite Hc.
  - unfold is_enter in Hd. rewrite Hd. destruct Hs as [Hdel Hs]. unfold edit at 2. unfold edit in Hs at 1.
    destruct buf as [|b buf].
    + rewrite andb_false_r. destruct (d =? 8) eqn:E8; [|destruct (d =? 127) eqn:E127].
      * replace (32 <=? d) with false by lia. rewrite andb_false_r. by apply IH.
      * exfalso. apply Hdel; [lia|done].
      * cbn [orb] in Hs |- *. destruct (_ && _); by apply IH.
    + replace (0 <? zlen (b :: buf)) with true by (rewrite zlen_cons; pose proof (zlen_nonneg buf); lia). rewrite andb_true_r.
      destruct ((d =? 8) || (d =? 127)); [by apply IH|]. destruct (_ && _); by apply IH.
Qed.

Lemma read_line_inv maxlen buf inp l rest : read_login_line maxlen buf inp = Some (l, rest) ->
  exists typed c, inp = typed ++ c :: rest /\ is_enter c = true /\ Forall (fun c => is_enter c = false) typed.
Proof.
  revert buf. induction inp as [|c inp IH]; intros buf; cbn; [done|]. destruct (_ || _) eqn:E.
  - intros [= <- <-]. exists [], c. split; [done|]. by split.
  - assert (G : forall b, read_login_line maxlen b inp = Some (l, rest) ->
      exists typed d, c :: inp = typed ++ d :: rest /\ is_enter d = true /\ Forall (fun c => is_enter c = false) typed).
    { intros b Hb. destruct (IH b Hb) as (t & d & -> & Hd & Ht). exists (c :: t), d. split; [done|]. split; [done|]. by constructor. }
    destruct (_ && _); [|destruct (_ && _)]; by apply G.
Qed.

Lemma zlen_read_line maxlen buf inp l rest : 1 <= maxlen -> zlen buf <= maxlen - 1 ->
  read_login_line maxlen buf inp = Some (l, rest) -> zlen l <= maxlen - 1.
Proof.
  intros Hm. revert buf. induction inp as [|c inp IH]; intros buf Hb; cbn; [done|]. destruct (_ || _); [by intros [= <- _]|].
  destruct (_ && _).
  - apply IH. unfold zlen in *. rewrite length_take. lia.
  - destruct (_ && _) eqn:E; [|by apply IH]. apply IH. rewrite zlen_app. change (zlen [c]) with 1. lia.
Qed.

(** ** Who gets in *)

(** Entering a name and a password, each ended by a key that ends a line. *)
Definition enters (user pass : bytes) (inp rest : bytes) : Prop :=
  exists inp1, read_login_line 64 [] inp = Some (user, inp1) /\ read_login_line 64 [] inp1 = Some (pass, rest).

(** What was typed before: empty names, and names and passwords that are refused. *)
Inductive refused (auth : bytes -> bytes -> bool) : bytes -> list (bytes * bytes) -> bytes -> Prop :=
  | refused_nil inp : refused auth inp [] inp
  | refused_empty inp inp1 tried rest :
      read_login_line 64 [] inp = Some ([], inp1) -> refused auth inp1 tried rest -> refused auth inp tried rest
  | refused_cons inp inp1 u p tried rest :
      enters u p inp inp1 -> u <> [] -> auth u p = false -> refused auth inp1 tried rest ->
      refused auth inp ((u, p) :: tried) rest.

Lemma login_rounds auth fuel n inp r rest : n <= MAX_LOGIN_ATTEMPTS -> do_login auth fuel n inp = Some (r, rest) ->
  exists tried inp1, refused auth inp tried inp1 /\
    match r with
    | Some u => n + zlen tried < MAX_LOGIN_ATTEMPTS /\ u <> [] /\ exists p, enters u p inp1 rest /\ auth u p = true
    | None => n + zlen tried = MAX_LOGIN_ATTEMPTS /\ inp1 = rest
    end.
Proof.
  revert n inp. induction fuel as [|fuel IH]; intros n inp Hn; cbn; [done|]. destruct (_ <=? _) eqn:El.
  { intros [= <- <-]. exists [], inp. split; [constructor|]. split; [unfold zlen; cbn; lia|done]. }
  destruct (read_login_line 64 [] inp) as [[us inp1]|] eqn:E1; [|done]. cbn. destruct us as [|b us].
  - intros (tried & inp2 & Ht & Hr)%IH; [|done]. exists tried, inp2. split; [by eapply refused_empty|done].
  - destruct (read_login_line 64 [] inp1) as [[ps inp2]|] eqn:E2; [|done]. cbn. destruct (auth (b :: us) ps) eqn:Ea.
    + intros [= <- <-]. exists [], inp. split; [constructor|]. split; [unfold zlen; cbn; lia|]. split; [done|].
      exists ps. split; [by exists inp1|done].
    + intros (tried & inp3 & Ht & Hr)%IH; [|lia]. exists ((b :: us, ps) :: tried), inp3.
      split; [eapply refused_cons; [by exists inp1|done..]|].
      assert (zlen ((b :: us, ps) :: tried) = 1 + zlen tried) as -> by (unfold zlen; cbn; lia). by rewrite Z.add_assoc.
Qed.

(** One round per typed character is enough. *)
Lemma login_fuel auth fuel fuel' n inp : (length inp < fuel)%nat -> (length inp < fuel')%nat ->
  do_login auth fuel n inp = do_login auth fuel' n inp.
Proof.
  assert (Hsh : forall b i l r, read_login_line 64 b i = Some (l, r) -> (length r < length i)%nat).
  { intros b i l r (t & c & -> & _)%read_line_inv. rewrite length_app. cbn. lia. }
  revert fuel' n inp. induction fuel as [|fuel IH]; intros [|fuel'] n inp Hf Hf'; try lia. cbn.
  destruct (_ <=? _); [done|]. destruct (read_login_line 64 [] inp) as [[us inp1]|] eqn:E1; [|done]. cbn.
  pose proof (Hsh _ _ _ _ E1). destruct us as [|b us]; [apply IH; lia|].
  destruct (read_login_line 64 [] inp1) as [[ps inp2]|] eqn:E2; [|done]. cbn. pose proof (Hsh _ _ _ _ E2).
  destruct (auth _ _); [done|apply IH; lia].
Qed.

Section Who.
Context `{Sha256}.

(** C30. Nobody gets in without a password: the shell starts for a user only after the
    name and a password were entered that the authentication server accepts, and after
    less than three refused ones; without the server nobody gets in.  A login that
    gives up has refused three. *)
Theorem login_sound authd fuel inp r rest :
  do_login (auth_check authd) fuel 0 inp = Some (r, rest) ->
  exists tried inp1, refused (auth_check authd) inp tried inp1 /\
    match r with
    | Some u => zlen tried < MAX_LOGIN_ATTEMPTS /\
        exists creds p, authd = Some creds /\ enters u p inp1 rest /\ u <> [] /\ zlen p < 64 /\ op_authenticate u p creds = Ok
    | None => zlen tried = MAX_LOGIN_ATTEMPTS /\ inp1 = rest
    end.
Proof.
  intros (tried & inp1 & Ht & Hr)%login_rounds; [|done]. exists tried, inp1. split; [done|]. destruct r as [u|]; [|done].
  destruct Hr as (Hn & Hu & p & He & Ha). split; [done|]. destruct authd as [creds|]; [|done]. apply bool_decide_eq_true in Ha.
  exists creds, p. split_and!; try done. destruct He as (i2 & _ & Hp).
  pose proof (zlen_read_line 64 [] i2 p rest ltac:(lia) ltac:(unfold zlen; cbn; lia) Hp). lia.
Qed.

(** Who knows the password gets in: typing and correcting the name and the password
    of an account starts the shell, as long as delete is not pressed on an empty
    line. *)
Theorem login_succeeds creds typed_u typed_p u p rest n fuel :
  Forall (fun c => is_enter c = false) (typed_u ++ typed_p) ->
  no_stray_delete 64 [] typed_u -> no_stray_delete 64 [] typed_p ->
  foldl (edit 64) [] typed_u = u -> u <> [] -> foldl (edit 64) [] typed_p = p ->
  op_authenticate u p creds = Ok -> n < MAX_LOGIN_ATTEMPTS ->
  do_login (auth_check (Some creds)) (S fuel) n (typed_u ++ 13 :: typed_p ++ 13 :: rest) = Some (Some u, rest).
Proof.
  intros [Hu Hp]%list.Forall_app Hsu Hsp Eu Hne Ep Ha Hn. unfold MAX_LOGIN_ATTEMPTS in Hn. cbn [do_login].
  unfold MAX_LOGIN_ATTEMPTS. replace (3 <=? n) with false by lia. rewrite read_line_edits by done. cbn [mbind option_bind].
  rewrite Eu. destruct u as [|b u]; [done|]. rewrite read_line_edits by done. cbn [mbind option_bind]. rewrite Ep.
  unfold auth_check. by rewrite bool_decide_eq_true_2 by done.
Qed.

End Who.

Module Login_example.
Import Authd_example.
#[local] Existing Instance some_hash.

Definition store : list Cred := load_credentials (Some (shadow_file [root; jo])) [].

Lemma kbd_refines_witness :
  exists k', kbd_step kbd_new (K_push 97) = Ret (k', None) /\ kbd_ok k' /\ queued k' = [97].
Proof. apply (kbd_refines kbd_new (K_push 97)). by split. Defined.

(** A wrong name, corrected; then the password. *)
Definition keys : bytes := str "jx" ++ [127] ++ str "o" ++ [13] ++ str "pw" ++ [13].

Lemma login_sound_witness :
  exists tried inp1, refused (auth_check (Some store)) keys tried inp1 /\
    zlen tried < MAX_LOGIN_ATTEMPTS /\
    exists creds p, Some store = Some creds /\ enters (str "jo") p inp1 [] /\ str "jo" <> [] /\ zlen p < 64 /\
      op_authenticate (str "jo") p creds = Ok.
Proof. apply (login_sound (Some store) 9 keys (Some (str "jo")) []). by vm_compute. Defined.

Lemma login_succeeds_witness : do_login (auth_check (Some store)) 1 0 keys = Some (Some (str "jo"), []).
Proof.
  apply (login_succeeds store (str "jx" ++ [127] ++ str "o") (str "pw") (str "jo") (str "pw") []); try (by vm_compute).
  by repeat constructor.
Defined.

(** Delete on an empty line becomes a character of the name. *)
Example stray_delete : read_login_line 64 [] ([127] ++ str "jo" ++ [13]) = Some (127 :: str "jo", []).
Proof. by vm_compute. Qed.

End Login_example.
