(* ===== verification/Ext4File.v ===== *)
(** * Files of the ext4 server

    [src/pkg/filesystem/ext4/server/src/ext4_file_svr.cc] and the client library
    [src/pkg/filesystem/ext4/client/src/ext4_vfs.cc]: the server keeps a file open for
    each open of a client and moves data through a buffer of 64 KiB that both map;
    the client splits longer transfers into several calls.  The buffer exists once,
    with the server object, and the client's copies are reads and writes of it.

    The file system behind the server is the library lwext4, a parameter: class
    [Lwext4] has the functions the server calls, class [Lwext4_laws] what their
    documentation says of the files.  Every one of them may fail at any time.  Calls
    are handled one after another. *)

From S2P Require Import Prelude TmpfsFile.

Inductive origin := SEEK_SET | SEEK_END.

Class Lwext4 := {
  disk : Type;
  ext4_file : Type;
  ext4_fopen2 : bytes -> disk -> disk * option ext4_file;
  ext4_fseek : Z -> origin -> ext4_file -> disk -> ext4_file * bool;
  ext4_fread : Z -> ext4_file -> disk -> disk * ext4_file * option bytes;
  ext4_fwrite : bytes -> ext4_file -> disk -> disk * ext4_file * (bool * Z);
  ext4_fsize : ext4_file -> disk -> Z;
  ext4_ftruncate : Z -> ext4_file -> disk -> disk * ext4_file * bool;
  ext4_fclose : ext4_file -> disk -> disk
}.

(** Writing nothing changes nothing; writing behind the end leaves a hole of zeros. *)
Definition put_bytes (pos : Z) (bs c : bytes) : bytes :=
  match bs with [] => c | _ => file_write pos bs c end.

(** What is relied on: files have contents, open files a path and a position; reading
    and writing happen at the position; a failed write has written a part.  An open
    file knows the size of the file; what it knows is promised to be right only as long as
    the file is changed through this open file alone ([current] below is the stronger
    promise). *)
Class Lwext4_laws (E : Lwext4) := {
  content : bytes -> disk -> option bytes;
  f_path : ext4_file -> bytes;
  f_pos : ext4_file -> Z;
  law_open p d d' f : ext4_fopen2 p d = (d', Some f) -> let c := default [] (content p d) in
    f_path f = p /\ content p d' = Some c /\ ext4_fsize f d' = zlen c /\ forall q, q <> p -> content q d' = content q d;
  law_open_fail p d d' : ext4_fopen2 p d = (d', None) -> forall q, content q d' = content q d;
  law_seek off o f d f' ok : ext4_fseek off o f d = (f', ok) -> f_path f' = f_path f /\ ext4_fsize f' d = ext4_fsize f d;
  law_seek_set off f d f' : ext4_fseek off SEEK_SET f d = (f', true) -> f_pos f' = off;
  law_seek_end f d f' : ext4_fseek 0 SEEK_END f d = (f', true) -> f_pos f' = ext4_fsize f d;
  law_read len f d d' f' r c : ext4_fread len f d = (d', f', r) ->
    content (f_path f) d = Some c -> ext4_fsize f d = zlen c ->
    f_path f' = f_path f /\ ext4_fsize f' d' = zlen c /\ (forall q, content q d' = content q d) /\
    forall bs, r = Some bs -> bs = file_read (f_pos f) len c;
  law_write bs f d d' f' ok wc c : ext4_fwrite bs f d = (d', f', (ok, wc)) ->
    content (f_path f) d = Some c -> ext4_fsize f d = zlen c ->
    f_path f' = f_path f /\ (forall q, q <> f_path f -> content q d' = content q d) /\
    exists k, let c' := put_bytes (f_pos f) (take k bs) c in
      (k <= length bs)%nat /\ content (f_path f) d' = Some c' /\ ext4_fsize f' d' = zlen c' /\ (ok = true -> wc = Z.of_nat k);
  law_truncate n f d d' f' ok c : ext4_ftruncate n f d = (d', f', ok) ->
    content (f_path f) d = Some c -> ext4_fsize f d = zlen c ->
    let c' := if ok : bool then file_truncate n c else c in
    f_path f' = f_path f /\ (forall q, q <> f_path f -> content q d' = content q d) /\
    content (f_path f) d' = Some c' /\ ext4_fsize f' d' = zlen c';
  law_close f d q : content q (ext4_fclose f d) = content q d
}.

(** Every open file knows the size at any time, whoever wrote the file. *)
Class Lwext4_current (E : Lwext4) (L : Lwext4_laws E) :=
  current f d c : content (f_path f) d = Some c -> ext4_fsize f d = zlen c.

Section Server.
Context {E : Lwext4}.

(** ** [Ext4_file_svr] *)

Definition BUF_SIZE : Z := 65536.

(** [v_ok] stands for [_ok] and for the buffer being attached, which the constructor
    sets together. *)
Record file_svr := { v_path : bytes; v_f : option ext4_file; v_buf : bytes; v_ok : bool }.

(** The constructor; [mem] tells whether the buffer could be provided. *)
Definition svr_new (mem : option bytes) (path : bytes) : file_svr :=
  {| v_path := take 257 (cstr path); v_f := None; v_buf := default [] mem; v_ok := bool_decide (is_Some mem) |}.

Definition set_f (f : option ext4_file) (v : file_svr) : file_svr :=
  {| v_path := v_path v; v_f := f; v_buf := v_buf v; v_ok := v_ok v |}.

Definition set_buf (b : bytes) (v : file_svr) : file_svr :=
  {| v_path := v_path v; v_f := v_f v; v_buf := b; v_ok := v_ok v |}.

Definition ensure_open (v : file_svr) (d : disk) : file_svr * disk * option ext4_file :=
  match v_f v with
  | Some f => (v, d, Some f)
  | None => let '(d, f) := ext4_fopen2 (v_path v) d in (set_f f v, d, f)
  end.

Definition op_setup (v : file_svr) (d : disk) : file_svr * disk * (errno + Z * Z) :=
  if negb (v_ok v) then (v, d, inl ENOMEM)
  else match ensure_open v d with
       | (v, d, None) => (v, d, inl EIO)
       | (v, d, Some f) => (v, d, inr (ext4_fsize f d, BUF_SIZE))
       end.

(** The start of the calls that move data: open the file, cut the length. *)
Definition with_file {A} (v : file_svr) (d : disk) (err : errno -> A)
    (k : file_svr -> disk -> ext4_file -> file_svr * disk * A) : file_svr * disk * A :=
  if negb (v_ok v) then (v, d, err ENOMEM)
  else match ensure_open v d with
       | (v, d, None) => (v, d, err EIO)
       | (v, d, Some f) => k v d f
       end.

Definition clamp (len : Z) : Z := if BUF_SIZE <? len then BUF_SIZE else len.

(** [op_pread]: the bytes are in the buffer, the result is their number. *)
Definition op_pread (off len : Z) (v : file_svr) (d : disk) : file_svr * disk * (errno + Z) :=
  with_file v d inl (fun v d f =>
    let len := clamp len in
    let '(f, ok) := ext4_fseek (swrap 64 off) SEEK_SET f d in
    let v := set_f (Some f) v in
    if negb ok : bool then (v, d, inl EIO)
    else let '(d, f, r) := ext4_fread len f d in
         let v := set_f (Some f) v in
         match r with
         | None => (v, d, inl EIO)
         | Some bs => (set_buf (bs ++ drop (length bs) (v_buf v)) v, d, inr (u32 (zlen bs)))
         end).

(** Writing the start of the buffer, as [op_pwrite] and [op_pappend] do. *)
Definition write_buffer (len : Z) (v : file_svr) (f : ext4_file) (d : disk) : file_svr * disk * (errno + Z) :=
  let '(d, f, (ok, wc)) := ext4_fwrite (take (Z.to_nat len) (v_buf v)) f d in
  let v := set_f (Some f) v in
  if negb ok || negb (wc =? len) then (v, d, inl EIO) else (v, d, inr (u32 wc)).

Definition op_pwrite (off len : Z) (v : file_svr) (d : disk) : file_svr * disk * (errno + Z) :=
  with_file v d inl (fun v d f =>
    let len := clamp len in
    let '(f, ok) := ext4_fseek (swrap 64 off) SEEK_SET f d in
    let v := set_f (Some f) v in
    if negb ok : bool then (v, d, inl EIO) else write_buffer len v f d).

(** [op_pappend] also returns the offset. *)
Definition op_pappend (len : Z) (v : file_svr) (d : disk) : file_svr * disk * (errno + Z * Z) :=
  with_file v d inl (fun v d f =>
    let len := clamp len in
    let '(f, ok) := ext4_fseek 0 SEEK_END f d in
    let v := set_f (Some f) v in
    if negb ok : bool then (v, d, inl EIO)
    else let off := ext4_fsize f d in
         let '(v, d, r) := write_buffer len v f d in
         (v, d, match r with inl e => inl e | inr put => inr (put, off) end)).

Definition op_ftruncate (size : Z) (v : file_svr) (d : disk) : file_svr * disk * l4_ret :=
  with_file v d Err (fun v d f =>
    let '(d, f, ok) := ext4_ftruncate size f d in
    (set_f (Some f) v, d, if ok : bool then Ok else Err EIO)).

(** [op_release]: the object is gone afterwards. *)
Definition op_release (v : file_svr) (d : disk) : disk :=
  match v_f v with Some f => ext4_fclose f d | None => d end.

(** ** [Ext4_file_vfs] *)

Record file_vfs := { c_buf_size : Z; c_size : Z; c_append : bool; c_valid : bool }.

Definition no_vfs : file_vfs := {| c_buf_size := 0; c_size := 0; c_append := false; c_valid := false |}.

(** The constructor; [attached] tells whether the buffer could be mapped. *)
Definition vfs_new (attached : bool) (v : file_svr) (d : disk) : file_vfs * file_svr * disk :=
  match op_setup v d with
  | (v, d, inl _) => (no_vfs, v, d)
  | (v, d, inr (fsize, bsz)) =>
      (if bsz =? 0 then no_vfs
       else {| c_buf_size := bsz; c_size := fsize; c_append := false; c_valid := attached |}, v, d)
  end.

(** How the loop over one buffer of the caller ends: the buffer is done, the call
    returns what it has, or the server failed. *)
Inductive io := More | Stop | Fail.

(** [preadv]: the inner loop; the bytes read so far are returned in order. *)
Fixpoint read_loop (fuel : nat) (c : file_vfs) (remain pos : Z) (v : file_svr) (d : disk)
  : run (file_svr * disk * bytes * io) :=
  if remain <=? 0 then Ret (v, d, [], More)
  else
    match fuel with
    | O => Fuel_out
    | S fuel =>
        let chunk := if c_buf_size c <? remain then c_buf_size c else u32 remain in
        match op_pread (u64 pos) chunk v d with
        | (v, d, inl _) => Ret (v, d, [], Fail)
        | (v, d, inr got) =>
            if got =? 0 then Ret (v, d, [], Stop)
            else
              bs ← or_oob (rd_bytes 0 got (v_buf v));
              if got <? chunk then Ret (v, d, bs, Stop)
              else
                '(v, d, more, o) ← read_loop fuel c (remain -[64] got) (swrap 64 (pos + got)) v d;
                Ret (v, d, bs ++ more, o)
        end
    end.

(** The outer loop. *)
Fixpoint read_bufs (fuel : nat) (c : file_vfs) (lens : list Z) (pos : Z) (v : file_svr) (d : disk)
  : run (file_svr * disk * bytes * io) :=
  match lens with
  | [] => Ret (v, d, [], More)
  | len :: lens =>
      '(v, d, bs, o) ← read_loop fuel c len pos v d;
      match o with
      | More =>
          '(v, d, more, o) ← read_bufs fuel c lens (swrap 64 (pos + zlen bs)) v d;
          Ret (v, d, bs ++ more, o)
      | _ => Ret (v, d, bs, o)
      end
  end.

Definition vfs_preadv (fuel : nat) (c : file_vfs) (lens : list Z) (off : Z) (v : file_svr) (d : disk)
  : run (file_svr * disk * (errno + bytes)) :=
  if negb (c_valid c) then Ret (v, d, inl EIO)
  else
    '(v, d, bs, o) ← read_bufs fuel c lens off v d;
    Ret (v, d, match o, bs with Fail, [] => inl EIO | _, _ => inr bs end).

(** One chunk: the bytes go to the shared buffer, then the server is called. *)
Definition put_chunk (chunk : Z) (src : bytes) (pos : Z) (c : file_vfs) (v : file_svr) (d : disk)
  : run (file_svr * disk * (errno + Z) * Z) :=
  b ← or_oob (wr_bytes 0 (take (Z.to_nat chunk) src) (v_buf v));
  let v := set_buf b v in
  Ret (if c_append c then
         match op_pappend chunk v d with
         | (v, d, inl e) => (v, d, inl e, pos)
         | (v, d, inr (put, at_)) => (v, d, inr put, if 0 <? put then swrap 64 (at_ + put) else pos)
         end
       else
         match op_pwrite (u64 pos) chunk v d with
         | (v, d, inl e) => (v, d, inl e, pos)
         | (v, d, inr put) => (v, d, inr put, if 0 <? put then swrap 64 (pos + put) else pos)
         end).

(** [pwritev]: the inner loop over what is left of one buffer; [n] bytes are written. *)
Fixpoint write_loop (fuel : nat) (c : file_vfs) (src : bytes) (pos : Z) (v : file_svr) (d : disk)
  : run (file_vfs * file_svr * disk * Z * Z * io) :=
  let remain := zlen src in
  if remain <=? 0 then Ret (c, v, d, 0, pos, More)
  else
    match fuel with
    | O => Fuel_out
    | S fuel =>
        let chunk := if c_buf_size c <? remain then c_buf_size c else u32 remain in
        '(v, d, r, pos') ← put_chunk chunk src pos c v d;
        match r with
        | inl _ => Ret (c, v, d, 0, pos', Fail)
        | inr put =>
            if put =? 0 then Ret (c, v, d, 0, pos', Fail)
            else
              let c := {| c_buf_size := c_buf_size c;
                          c_size := if c_size c <? u64 pos' then u64 pos' else c_size c;
                          c_append := c_append c; c_valid := c_valid c |} in
              if put <? chunk then Ret (c, v, d, put, pos', Stop)
              else
                '(c, v, d, n, pos', o) ← write_loop fuel c (drop (Z.to_nat put) src) pos' v d;
                Ret (c, v, d, put + n, pos', o)
        end
    end.

Fixpoint write_bufs (fuel : nat) (c : file_vfs) (iov : list bytes) (pos : Z) (v : file_svr) (d : disk)
  : run (file_vfs * file_svr * disk * Z * io) :=
  match iov with
  | [] => Ret (c, v, d, 0, More)
  | src :: iov =>
      '(c, v, d, n, pos, o) ← write_loop fuel c src pos v d;
      match o with
      | More =>
          '(c, v, d, m, o) ← write_bufs fuel c iov pos v d;
          Ret (c, v, d, n + m, o)
      | _ => Ret (c, v, d, n, o)
      end
  end.

Definition vfs_pwritev (fuel : nat) (c : file_vfs) (iov : list bytes) (off : Z) (v : file_svr) (d : disk)
  : run (file_vfs * file_svr * disk * (errno + Z)) :=
  if negb (c_valid c) then Ret (c, v, d, inl EIO)
  else
    '(c, v, d, n, o) ← write_bufs fuel c iov off v d;
    Ret (c, v, d, match o with Fail => if n =? 0 then inl EIO else inr n | _ => inr n end).

Definition vfs_ftruncate (c : file_vfs) (pos : Z) (v : file_svr) (d : disk) : file_vfs * file_svr * disk * (errno + Z) :=
  if negb (c_valid c) || (pos <? 0) then (c, v, d, inl EINVAL)
  else
    match op_ftruncate (u64 pos) v d with
    | (v, d, Err _) => (c, v, d, inl EIO)
    | (v, d, Ok) =>
        ({| c_buf_size := c_buf_size c; c_size := u64 pos; c_append := c_append c; c_valid := c_valid c |}, v, d, inr 0)
    end.

Definition O_APPEND : Z := 0x400.

Definition set_status_flags (flags : Z) (c : file_vfs) : file_vfs :=
  {| c_buf_size := c_buf_size c; c_size := c_size c; c_append := negb (Z.land flags O_APPEND =? 0); c_valid := c_valid c |}.

End Server.

(** ** The calls of the server *)

Section Proofs.
Context {E : Lwext4} {L : Lwext4_laws E}.

(** A file that does not exist yet reads as empty; opening it creates it. *)
Definition text (q : bytes) (d : disk) : bytes := default [] (content q d).

Definition same_others (p : bytes) (d d' : disk) : Prop :=
  (forall q, q <> p -> text q d' = text q d) /\ forall q, is_Some (content q d) -> is_Some (content q d').

Definition same_texts (d d' : disk) : Prop :=
  (forall q, text q d' = text q d) /\ forall q, is_Some (content q d) -> is_Some (content q d').

Lemma same_texts_refl d : same_texts d d.
Proof. done. Qed.

Lemma same_texts_trans d1 d2 d3 : same_texts d1 d2 -> same_texts d2 d3 -> same_texts d1 d3.
Proof. intros [A1 A2] [B1 B2]. split; [intros q; by rewrite B1|auto]. Qed.

Lemma same_texts_content d d' : (forall q, content q d' = content q d) -> same_texts d d'.
Proof. intros H. split; intros q; unfold text; by rewrite H. Qed.

Lemma same_others_texts p d d' : same_texts d d' -> same_others p d d'.
Proof. intros [H1 H2]. by split. Qed.

Lemma same_others_trans p d1 d2 d3 : same_others p d1 d2 -> same_others p d2 d3 -> same_others p d1 d3.
Proof. intros [A1 A2] [B1 B2]. split; [intros q Hq; by rewrite B1, A1|auto]. Qed.

Lemma same_others_content p d d' : (forall q, q <> p -> content q d' = content q d) -> is_Some (content p d') -> same_others p d d'.
Proof.
  intros H Hp. split; [intros q Hq; unfold text; by rewrite H|]. intros q Hq. by destruct (decide (q = p)) as [->|Hne]; [|rewrite H].
Qed.

Hint Resolve same_texts_refl same_others_texts : core.

(** The buffer is there, and an open file knows its size: nobody else changed the file since. *)
Record svr_ok (v : file_svr) (d : disk) : Prop := {
  so_buf : zlen (v_buf v) = BUF_SIZE;
  so_ok : v_ok v = true;
  so_file : forall f, v_f v = Some f -> f_path f = v_path v /\ exists c, content (v_path v) d = Some c /\ ext4_fsize f d = zlen c
}.

(** No function of the library fails; positions up to the end can be sought. *)
Record reliable : Prop := {
  rel_open : forall p d d' f, ext4_fopen2 p d = (d', f) -> is_Some f;
  rel_set : forall off f d f' ok, 0 <= off <= ext4_fsize f d -> ext4_fseek off SEEK_SET f d = (f', ok) -> ok = true;
  rel_end : forall f d f' ok, ext4_fseek 0 SEEK_END f d = (f', ok) -> ok = true;
  rel_read : forall len f d d' f' r, ext4_fread len f d = (d', f', r) -> is_Some r;
  rel_write : forall bs f d d' f' ok wc, ext4_fwrite bs f d = (d', f', (ok, wc)) -> ok = true /\ wc = zlen bs
}.

(** A transfer at [off] is not going to fail. *)
Definition works (off : Z) (t : bytes) : Prop := reliable /\ off <= zlen t.

Lemma ensure_open_ok v d : svr_ok v d ->
  let '(v', d', o) := ensure_open v d in
  svr_ok v' d' /\ v_path v' = v_path v /\ v_buf v' = v_buf v /\ same_texts d d' /\
  match o with
  | Some f => v_f v' = Some f /\ f_path f = v_path v /\ content (v_path v) d' = Some (text (v_path v) d) /\
              ext4_fsize f d' = zlen (text (v_path v) d)
  | None => ~ reliable
  end.
Proof.
  intros [Hb Ho Hf]. unfold ensure_open. destruct (v_f v) as [f|] eqn:Ev.
  { destruct (Hf f eq_refl) as (Hp & c & Hc & Hs). split_and!; try done; [by split; rewrite ?Ev|..]; unfold text; by rewrite Hc. }
  destruct (ext4_fopen2 (v_path v) d) as [d' [f|]] eqn:Eo.
  - destruct (law_open _ _ _ _ Eo) as (Hp & Hc & Hs & Hoth). split_and!; try done.
    + split; cbn; [done|done|]. intros ? [= <-]. split; [done|]. eexists. by rewrite Hc.
    + split; intros q; destruct (decide (q = v_path v)) as [->|Hne]; unfold text; rewrite ?Hc, ?Hoth by done; done.
  - pose proof (law_open_fail _ _ _ Eo) as Hc. split_and!; try done.
    + by apply same_texts_content.
    + intros Hr. by destruct (rel_open Hr _ _ _ _ Eo).
Qed.

Lemma set_f_ok v d d' f c : svr_ok v d -> f_path f = v_path v -> content (v_path v) d' = Some c -> ext4_fsize f d' = zlen c ->
  svr_ok (set_f (Some f) v) d'.
Proof. intros [Hb Ho Hf] Hp Hc Hs. split; cbn; [done|done|]. intros ? [= <-]. by eauto. Qed.

Lemma rd_front (a b : bytes) : rd_bytes 0 (zlen a) (a ++ b) = Some a.
Proof.
  unfold rd_bytes. pose proof (zlen_nonneg a). pose proof (zlen_nonneg b).
  rewrite !(proj2 (Z.leb_le _ _)) by (rewrite ?zlen_app; lia). cbn [andb]. unfold slice, zlen.
  by rewrite drop_0, Nat2Z.id, take_app_length.
Qed.

Lemma clamp_bound len : 0 <= len -> 0 <= clamp len <= BUF_SIZE /\ clamp len <= len.
Proof. unfold clamp, BUF_SIZE. intros. split_if; lia. Qed.

Lemma op_pread_ok off len v d : svr_ok v d -> 0 <= off < 2 ^ 63 -> 0 <= len ->
  let '(v', d', r) := op_pread off len v d in let t := text (v_path v) d in
  svr_ok v' d' /\ v_path v' = v_path v /\ same_texts d d' /\
  match r with
  | inr got => let bs := file_read off (clamp len) t in got = zlen bs /\ rd_bytes 0 got (v_buf v') = Some bs
  | inl _ => ~ works off t
  end.
Proof.
  intros Hv Hoff Hlen. unfold op_pread, with_file. rewrite (so_ok _ _ Hv). cbn [negb].
  pose proof (ensure_open_ok v d Hv) as Ho. destruct (ensure_open v d) as [[v1 d1] [f|]]; cycle 1.
  { destruct Ho as (H1 & H2 & H3 & H4 & H5). split_and!; try done. by intros [? _]. }
  destruct Ho as (Hv1 & Hp1 & Hb1 & Ht1 & Hf1 & Hfp & Hc & Hs). set (t := text (v_path v) d) in *.
  rewrite swrap_small by lia. destruct (ext4_fseek off SEEK_SET f d1) as [f2 ok] eqn:Es.
  destruct (law_seek _ _ _ _ _ _ Es) as [Hp2 Hs2]. rewrite Hs in Hs2.
  assert (Hv2 : svr_ok (set_f (Some f2) v1) d1) by (apply (set_f_ok v1 d1 d1 f2 t); rewrite ?Hp1; congruence).
  destruct ok; cbn [negb]; cycle 1.
  { split_and!; try done. intros [Hr Hle]. pose proof (rel_set Hr off f d1 f2 false ltac:(lia) Es). done. }
  pose proof (law_seek_set _ _ _ _ Es) as Hpos. destruct (ext4_fread (clamp len) f2 d1) as [[d3 f3] r] eqn:Er.
  destruct (law_read _ _ _ _ _ _ t Er) as (Hp3 & Hs3 & Hc3 & Hbs); [congruence|done|].
  assert (Hv3 : svr_ok (set_f (Some f3) (set_f (Some f2) v1)) d3).
  { apply (set_f_ok _ d1 d3 f3 t); cbn; rewrite ?Hp1, ?Hc3; congruence. }
  assert (Ht3 : same_texts d d3) by (apply (same_texts_trans d d1 d3), same_texts_content; done).
  destruct r as [bs|]; cbn; cycle 1.
  { split_and!; try done. intros [Hr _]. by destruct (rel_read Hr _ _ _ _ _ _ Er). }
  specialize (Hbs bs eq_refl). rewrite Hpos in Hbs.
  destruct (clamp_bound len Hlen) as [Hcl _]. pose proof (so_buf _ _ Hv1) as Hbuf.
  assert (Hzl : zlen bs <= BUF_SIZE) by (rewrite Hbs, zlen_file_read by lia; lia). pose proof (zlen_nonneg bs).
  unfold BUF_SIZE in *. rewrite uwrap_small by (unfold in_u; lia). split_and!; try done; [|by rewrite Hbs|].
  - destruct Hv3 as [_ H3o H3f]. split; cbn; [|done|done]. rewrite zlen_app. unfold zlen, BUF_SIZE in *. rewrite length_drop. lia.
  - rewrite <- Hbs. cbn. apply rd_front.
Qed.

Lemma put_bytes_end bs c : put_bytes (zlen c) bs c = c ++ bs.
Proof.
  destruct bs as [|b bs]; [by rewrite app_nil_r|]. cbn [put_bytes]. unfold file_write, zeros, zlen. rewrite Z.sub_diag, Nat2Z.id. cbn [Z.to_nat replicate].
  rewrite app_nil_r, firstn_all, drop_ge by lia. by rewrite app_nil_r.
Qed.

(** What a write call did: [k] bytes of the data reached the file at [pos], all of them
    when it succeeds. *)
Definition wrote (append : bool) (pos : Z) (bs t : bytes) : bytes := if append then t ++ bs else put_bytes pos bs t.

(** Where the data goes; the position given does not matter to an append. *)
Definition target (append : bool) (pos : Z) (t : bytes) : Z := if append then zlen t else pos.

Definition write_done (append : bool) (pos len : Z) (v : file_svr) (d : disk) (v' : file_svr) (d' : disk) (r : errno + Z) : Prop :=
  let t := text (v_path v) d in
  svr_ok v' d' /\ v_path v' = v_path v /\ same_others (v_path v) d d' /\
  exists k, (k <= Z.to_nat len)%nat /\
    text (v_path v) d' = wrote append pos (take k (v_buf v)) t /\
    match r with inr put => put = len /\ k = Z.to_nat len | inl _ => ~ works (target append pos t) t end.

Lemma wrote_nil append pos t : wrote append pos [] t = t.
Proof. destruct append; [apply app_nil_r|done]. Qed.

(** Nothing was written. *)
Lemma write_none append pos len v d v' d' e : svr_ok v' d' -> v_path v' = v_path v -> same_texts d d' ->
  ~ works (target append pos (text (v_path v) d)) (text (v_path v) d) -> write_done append pos len v d v' d' (inl e).
Proof.
  intros Hv Hp Ht Hr. split_and!; try done; [by apply same_others_texts|]. exists 0%nat. split_and!; [lia| |done].
  rewrite wrote_nil. apply Ht.
Qed.

Lemma write_buffer_ok append pos len v f d d0 : svr_ok v d -> f_path f = v_path v -> 0 <= len <= BUF_SIZE -> same_texts d0 d ->
  let t := text (v_path v) d0 in
  content (v_path v) d = Some t -> ext4_fsize f d = zlen t -> f_pos f = target append pos t ->
  let '(v', d', r) := write_buffer len v f d in write_done append pos len v d0 v' d' r.
Proof.
  intros Hv Hp Hlen Ht0 t Hc Hs Hpos. unfold write_buffer. destruct (ext4_fwrite _ f d) as [[d' f'] [ok wc]] eqn:Ew.
  rewrite <- Hp in Hc. destruct (law_write _ _ _ _ _ _ _ _ Ew Hc Hs) as (Hp' & Hoth & k & Hk & Hc' & Hs' & Hwc).
  pose proof (so_buf _ _ Hv) as Hb. unfold BUF_SIZE, zlen in *. rewrite length_take in Hk. rewrite take_take in Hc', Hs'.
  replace (k `min` Z.to_nat len)%nat with k in Hc', Hs' by lia. rewrite Hp in Hc', Hoth.
  assert (Hv' : svr_ok (set_f (Some f') v) d') by (eapply (set_f_ok v d); [done|congruence|exact Hc'|exact Hs']).
  assert (Hso : same_others (v_path v) d0 d').
  { apply (same_others_trans _ _ d); [by apply same_others_texts|]. apply same_others_content; [done|]. rewrite Hc'. by eexists. }
  assert (Ht : text (v_path v) d' = wrote append pos (take k (v_buf v)) t).
  { unfold text. rewrite Hc', Hpos. destruct append; [apply put_bytes_end|done]. }
  destruct ok; cbn [negb orb]; [destruct (wc =? len) eqn:El; cbn [negb]|]; split_and!; try done; exists k; split_and!; try done; try lia.
  - rewrite uwrap_small by (unfold in_u; lia). lia.
  - intros [Hr _]. destruct (rel_write Hr _ _ _ _ _ _ _ Ew) as [_ Hz]. unfold zlen in Hz. rewrite length_take in Hz. lia.
  - intros [Hr _]. by destruct (rel_write Hr _ _ _ _ _ _ _ Ew).
Qed.

Lemma op_pwrite_ok off len v d : svr_ok v d -> 0 <= off < 2 ^ 63 -> 0 <= len <= BUF_SIZE ->
  let '(v', d', r) := op_pwrite off len v d in write_done false off len v d v' d' r.
Proof.
  intros Hv Hoff Hlen. unfold op_pwrite, with_file. rewrite (so_ok _ _ Hv). cbn [negb].
  pose proof (ensure_open_ok v d Hv) as Ho. destruct (ensure_open v d) as [[v1 d1] [f|]]; cycle 1.
  { destruct Ho as (H1 & H2 & H3 & H4 & H5). apply write_none; try done. by intros [? _]. }
  destruct Ho as (Hv1 & Hp1 & Hb1 & Ht1 & Hf1 & Hfp & Hc & Hs).
  assert (clamp len = len) as -> by (unfold clamp; split_if; lia).
  rewrite swrap_small by lia. destruct (ext4_fseek off SEEK_SET f d1) as [f2 ok] eqn:Es.
  destruct (law_seek _ _ _ _ _ _ Es) as [Hp2 Hs2]. rewrite Hs in Hs2.
  assert (Hv2 : svr_ok (set_f (Some f2) v1) d1) by (eapply (set_f_ok v1 d1); rewrite ?Hp1; [done|congruence|exact Hc|done]).
  destruct ok; cbn [negb]; cycle 1.
  { apply write_none; try done. intros [Hr Hle]. cbn in Hle. pose proof (rel_set Hr off f d1 f2 false ltac:(lia) Es). done. }
  pose proof (write_buffer_ok false off len (set_f (Some f2) v1) f2 d1 d Hv2) as Hw. cbn in Hw. rewrite Hp1 in Hw.
  specialize (Hw ltac:(congruence) Hlen Ht1 Hc Hs2 (law_seek_set _ _ _ _ Es)).
  destruct (write_buffer _ _ _ _) as [[v' d'] r]. unfold write_done in *. cbn in Hw. by rewrite Hp1, Hb1 in Hw.
Qed.

(** An append lands at the end of the file there is, and reports where. *)
Lemma op_pappend_ok len v d : svr_ok v d -> 0 <= len <= BUF_SIZE ->
  let '(v', d', r) := op_pappend len v d in
  write_done true 0 len v d v' d' (match r with inl e => inl e | inr (put, _) => inr put end) /\
  match r with inr (_, off) => off = zlen (text (v_path v) d) | inl _ => True end.
Proof.
  intros Hv Hlen. unfold op_pappend, with_file. rewrite (so_ok _ _ Hv). cbn [negb].
  pose proof (ensure_open_ok v d Hv) as Ho. destruct (ensure_open v d) as [[v1 d1] [f|]]; cycle 1.
  { destruct Ho as (H1 & H2 & H3 & H4 & H5). split; [|done]. apply write_none; try done. by intros [? _]. }
  destruct Ho as (Hv1 & Hp1 & Hb1 & Ht1 & Hf1 & Hfp & Hc & Hs).
  assert (clamp len = len) as -> by (unfold clamp; split_if; lia).
  destruct (ext4_fseek 0 SEEK_END f d1) as [f2 ok] eqn:Es.
  destruct (law_seek _ _ _ _ _ _ Es) as [Hp2 Hs2]. rewrite Hs in Hs2.
  assert (Hv2 : svr_ok (set_f (Some f2) v1) d1) by (eapply (set_f_ok v1 d1); rewrite ?Hp1; [done|congruence|exact Hc|done]).
  destruct ok; cbn [negb]; cycle 1.
  { split; [|done]. apply write_none; try done. intros [Hr Hle]. by pose proof (rel_end Hr _ _ _ _ Es). }
  pose proof (law_seek_end _ _ _ Es) as Hpos. rewrite Hs in Hpos. rewrite Hs2.
  pose proof (write_buffer_ok true 0 len (set_f (Some f2) v1) f2 d1 d Hv2) as Hw. cbn in Hw. rewrite Hp1 in Hw.
  specialize (Hw ltac:(congruence) Hlen Ht1 Hc Hs2 Hpos).
  destruct (write_buffer _ _ _ _) as [[v' d'] r]. unfold write_done in *. cbn in Hw. rewrite Hp1, Hb1 in Hw.
  split; [by destruct r|by destruct r].
Qed.

(** ** Reading through the client *)

Record vfs_ok (c : file_vfs) : Prop := {
  co_valid : c_valid c = true;
  co_buf : 0 < c_buf_size c <= BUF_SIZE
}.

Lemma file_read_short off n m c : 0 <= off -> 0 <= n <= m -> zlen (file_read off n c) < n -> file_read off m c = file_read off n c.
Proof.
  intros Ho Hnm Hs. unfold file_read in *. unfold zlen in Hs. rewrite length_take, length_drop in Hs.
  rewrite !take_ge; [done|rewrite length_drop; lia..].
Qed.

Lemma file_read_exact off n c : 0 <= n -> file_read off (zlen (file_read off n c)) c = file_read off n c.
Proof.
  intros Hn. unfold file_read, zlen. rewrite Nat2Z.id, length_take. destruct (decide (Z.to_nat n <= length (drop (Z.to_nat off) c))%nat).
  - by rewrite Nat.min_l by lia.
  - by rewrite Nat.min_r, firstn_all, take_ge by lia.
Qed.

(** What the loops return: a prefix of what is asked for, all of it unless the file ends
    or the server fails. *)
Definition read_done (off n : Z) (t bs : bytes) (o : io) : Prop :=
  bs = file_read off (zlen bs) t /\
  match o with
  | More => bs = file_read off n t /\ zlen bs = n
  | Stop => bs = file_read off n t /\ zlen bs < n
  | Fail => ~ works off t
  end.

Lemma read_done_app off n m t a b o : 0 <= off -> 0 <= n -> 0 <= m -> read_done off n t a More ->
  read_done (off + n) m t b o -> read_done off (n + m) t (a ++ b) o.
Proof.
  intros Ho Hn Hm (_ & Ha & Hz) [Hb Hd]. pose proof (zlen_nonneg b).
  assert (Happ : forall k, 0 <= k -> file_read off (n + k) t = a ++ file_read (off + n) k t).
  { intros k Hk. rewrite Ha. by apply file_read_app. }
  split.
  - rewrite zlen_app, Hz, Happ by lia. by f_equal.
  - destruct o; cycle 2.
    { intros [Hr Hle]. apply Hd. split; [done|]. rewrite Ha, zlen_file_read in Hz by lia. lia. }
    all: destruct Hd as [Hd1 Hd2]; (rewrite zlen_app, Happ by lia; split; [by f_equal|lia]).
Qed.

Lemma read_loop_ok fuel c remain pos v d : vfs_ok c -> svr_ok v d -> 0 <= pos -> 0 <= remain -> pos + remain < 2 ^ 63 ->
  remain <= Z.of_nat fuel ->
  exists v' d' bs o, read_loop fuel c remain pos v d = Ret (v', d', bs, o) /\
    svr_ok v' d' /\ v_path v' = v_path v /\ same_texts d d' /\ read_done pos remain (text (v_path v) d) bs o.
Proof.
  intros [Hcv Hcb]. revert remain pos v d. induction fuel as [|fuel IH]; intros remain pos v d Hv Hp Hr Hmax Hf; cbn [read_loop].
  { replace (remain <=? 0) with true by lia. exists v, d, [], More. split_and!; try done; unfold read_done, zlen; cbn; by replace remain with 0 by lia. }
  destruct (remain <=? 0) eqn:E0.
  { exists v, d, [], More. split_and!; try done; unfold read_done, zlen; cbn; by replace remain with 0 by lia. }
  unfold BUF_SIZE in Hcb.
  assert (Hch : (if c_buf_size c <? remain then c_buf_size c else u32 remain) = Z.min (c_buf_size c) remain).
  { split_if; [lia|]. rewrite uwrap_small by (unfold in_u; lia). lia. }
  rewrite Hch. set (chunk := Z.min (c_buf_size c) remain) in *. rewrite (uwrap_small 64 pos) by (unfold in_u; lia).
  pose proof (op_pread_ok pos chunk v d Hv ltac:(lia) ltac:(lia)) as Ho.
  destruct (op_pread pos chunk v d) as [[v1 d1] [e|got]]; destruct Ho as (Hv1 & Hp1 & Ht1 & Hres).
  { by exists v1, d1, [], Fail. }
  assert (clamp chunk = chunk) as Hcl by (unfold clamp, BUF_SIZE; split_if; lia). rewrite Hcl in Hres.
  destruct Hres as [Hgot Hbs]. set (t := text (v_path v) d) in *. set (bs := file_read pos chunk t) in *.
  pose proof (zlen_nonneg bs). assert (Hle : zlen bs <= chunk) by (unfold bs; rewrite zlen_file_read by lia; lia).
  destruct (got =? 0) eqn:Eg.
  { exists v1, d1, [], Stop. split_and!; try done. unfold read_done. cbn.
    assert (Hn : bs = []) by (apply nil_length_inv; unfold zlen in Hgot; lia).
    rewrite (file_read_short pos chunk remain t) by (try fold bs; lia). fold bs. rewrite Hn. split_and!; try done; unfold zlen; cbn; lia. }
  rewrite Hbs. cbn [or_oob mbind run_bind]. destruct (got <? chunk) eqn:Ec.
  { exists v1, d1, bs, Stop. split_and!; try done. unfold read_done. split; [symmetry; apply file_read_exact; lia|].
    split; [|lia]. symmetry. apply file_read_short; try lia. fold bs. lia. }
  assert (Hfull : zlen bs = chunk) by lia.
  rewrite (uwrap_small 64 (remain - got)), (swrap_small 64 (pos + got)) by (unfold in_u; lia).
  destruct (IH (remain - got) (pos + got) v1 d1 Hv1) as (v2 & d2 & more & o & -> & Hv2 & Hp2 & Ht2 & Hd); try lia.
  exists v2, d2, (bs ++ more), o. split; [done|]. split; [done|]. split; [congruence|].
  split; [by apply (same_texts_trans _ d1)|]. rewrite Hp1, (proj1 Ht1) in Hd. fold t in Hd.
  replace got with chunk in Hd by lia. replace remain with (chunk + (remain - chunk)) by lia.
  apply read_done_app; try lia; [|done]. split_and!; [by rewrite Hfull|done|done].
Qed.

Lemma read_bufs_ok fuel c lens : forall pos v d, vfs_ok c -> svr_ok v d -> 0 <= pos ->
  Forall (fun n => 0 <= n <= Z.of_nat fuel) lens -> pos + total_len lens < 2 ^ 63 ->
  exists v' d' bs o, read_bufs fuel c lens pos v d = Ret (v', d', bs, o) /\
    svr_ok v' d' /\ v_path v' = v_path v /\ same_texts d d' /\ read_done pos (total_len lens) (text (v_path v) d) bs o.
Proof.
  induction lens as [|n lens IH]; intros pos v d Hc Hv Hp HF Hmax; cbn [read_bufs total_len] in *.
  { by exists v, d, [], More. }
  apply list.Forall_cons in HF as [Hn HF].
  assert (Htl : 0 <= total_len lens) by (clear -HF; induction HF; cbn; lia).
  destruct (read_loop_ok fuel c n pos v d) as (v1 & d1 & bs & o & -> & Hv1 & Hp1 & Ht1 & Hd); try done; try lia.
  cbn [mbind run_bind]. destruct o.
  - assert (Hz : zlen bs = n) by apply Hd. rewrite Hz, swrap_small by lia.
    destruct (IH (pos + n) v1 d1) as (v2 & d2 & more & o & -> & Hv2 & Hp2 & Ht2 & Hd2); try done; try lia.
    exists v2, d2, (bs ++ more), o. split; [done|]. split; [done|]. split; [congruence|].
    split; [by apply (same_texts_trans _ d1)|]. rewrite Hp1, (proj1 Ht1) in Hd2. apply read_done_app; (lia || done).
  - exists v1, d1, bs, Stop. split_and!; try done. destruct Hd as (H1 & H2 & H3). split; [done|].
    rewrite (file_read_short pos n) by (try lia; by rewrite <- H2). split; [done|lia].
  - by exists v1, d1, bs, Fail.
Qed.

(** ** Writing through the client *)

Lemma put_bytes_app pos a b c : 0 <= pos -> put_bytes (pos + zlen a) b (put_bytes pos a c) = put_bytes pos (a ++ b) c.
Proof.
  intros Hp. destruct a as [|x a]; [unfold zlen; cbn; by rewrite Z.add_0_r|]. destruct b as [|y b]; [by rewrite app_nil_r|].
  by apply (file_write_app pos (x :: a) (y :: b)).
Qed.

(** There are offsets for [n] more bytes. *)
Definition room (append : bool) (pos : Z) (t : bytes) (n : Z) : Prop := 0 <= target append pos t /\ target append pos t + n < 2 ^ 63.

Lemma zlen_wrote append pos bs t : 0 <= target append pos t -> bs <> [] ->
  zlen (wrote append pos bs t) = Z.max (target append pos t + zlen bs) (zlen t).
Proof.
  intros Hp Hb. pose proof (zlen_nonneg bs). destruct append; cbn in *; [rewrite zlen_app; lia|].
  destruct bs; [done|]. by apply (zlen_file_write pos (_ :: _)).
Qed.

(** What the loops do: a prefix of the data reaches the file, all of it unless the server
    fails, in which case at least what is reported is there. *)
Record write_spec (src : bytes) (pos : Z) (c : file_vfs) (v : file_svr) (d : disk)
    (c' : file_vfs) (v' : file_svr) (d' : disk) (n : Z) (o : io) : Prop := {
  ws_svr : svr_ok v' d';
  ws_path : v_path v' = v_path v;
  ws_vfs : vfs_ok c';
  ws_app : c_append c' = c_append c;
  ws_others : same_others (v_path v) d d';
  ws_range : 0 <= n;
  ws_text : exists k, (k <= length src)%nat /\ n <= Z.of_nat k /\
    text (v_path v) d' = wrote (c_append c) pos (take k src) (text (v_path v) d) /\
    (o <> Fail -> k = length src);
  ws_done : match o with
            | More => n = zlen src /\ (c_size c = zlen (text (v_path v) d) -> c_size c' = zlen (text (v_path v) d'))
            | Stop => False
            | Fail => ~ works (target (c_append c) pos (text (v_path v) d)) (text (v_path v) d)
            end
}.

(** A transfer that is complete is followed by the next. *)
Lemma write_spec_app a b pos pos' c v d c1 v1 d1 c2 v2 d2 m o : (c_append c = false -> 0 <= pos /\ pos' = pos + zlen a) ->
  write_spec a pos c v d c1 v1 d1 (zlen a) More ->
  write_spec b pos' c1 v1 d1 c2 v2 d2 m o ->
  write_spec (a ++ b) pos c v d c2 v2 d2 (zlen a + m) o.
Proof.
  intros Hp [A1 A2 A3 A4 A5 A6 (k & A7 & A8 & A9 & A10) [A11 A12]] [B1 B2 B3 B4 B5 B6 (j & B7 & B8 & B9 & B10) B11].
  rewrite A10 in A9 by done. rewrite firstn_all in A9. rewrite A2, A4 in *. pose proof (zlen_nonneg a).
  split; try done; try congruence.
  - by apply (same_others_trans _ _ d1).
  - lia.
  - exists (length a + j)%nat. rewrite length_app. split; [lia|]. split; [unfold zlen; lia|]. split; [|intros Ho; by rewrite B10].
    rewrite B9, A9, take_app_add. destruct (c_append c); cbn; [by rewrite app_assoc|].
    destruct (Hp eq_refl) as [Hp0 ->]. by apply put_bytes_app.
  - destruct o; [|done|].
    + destruct B11 as [-> B12]. rewrite zlen_app. split; [done|]. intros Hs. apply B12, A12, Hs.
    + intros [Hr Hle]. apply B11. split; [done|]. rewrite A9. destruct (c_append c) eqn:Ea; cbn in *; [done|].
      destruct (Hp eq_refl) as [Hp0 ->]. destruct a as [|x a]; [unfold zlen in *; cbn in *; lia|].
      pose proof (zlen_file_write pos (x :: a) (text (v_path v) d) Hp0). cbn [put_bytes]. lia.
Qed.


Lemma put_chunk_ok chunk src pos c v d : vfs_ok c -> svr_ok v d -> 0 < chunk <= BUF_SIZE -> chunk <= zlen src ->
  room (c_append c) pos (text (v_path v) d) chunk ->
  let t := text (v_path v) d in
  exists v' d' r pos', put_chunk chunk src pos c v d = Ret (v', d', r, pos') /\
    svr_ok v' d' /\ v_path v' = v_path v /\ same_others (v_path v) d d' /\
    exists k, (k <= Z.to_nat chunk)%nat /\ text (v_path v) d' = wrote (c_append c) pos (take k src) t /\
    match r with
    | inr put => put = chunk /\ k = Z.to_nat chunk /\ pos' = target (c_append c) pos t + chunk
    | inl _ => ~ works (target (c_append c) pos t) t
    end.
Proof.
  intros Hc Hv Hch Hle [Hp0 Hmax] t. unfold put_chunk.
  assert (Hlen : length (take (Z.to_nat chunk) src) = Z.to_nat chunk) by (unfold zlen in Hle; rewrite length_take; lia).
  pose proof (so_buf _ _ Hv) as Hb.
  destruct (wr_bytes_Some 0 (take (Z.to_nat chunk) src) (v_buf v)) as (b & Eb & Lb); [lia|unfold zlen in *; lia|].
  rewrite Eb. cbn [or_oob mbind run_bind]. unfold wr_bytes in Eb. destruct (_ && _); [|done]. injection Eb as Eb. cbn [Z.to_nat take app] in Eb.
  assert (Hpre : forall k, (k <= Z.to_nat chunk)%nat -> take k b = take k src).
  { intros k Hk. rewrite <- Eb, take_app_le, take_take by lia. by replace (k `min` Z.to_nat chunk)%nat with k by lia. }
  assert (Hv1 : svr_ok (set_buf b v) d) by (destruct Hv; split; cbn; [unfold zlen in *; lia|done|done]).
  destruct (c_append c).
  - pose proof (op_pappend_ok chunk _ d Hv1 ltac:(lia)) as Ho. destruct (op_pappend chunk _ d) as [[v' d'] [e|[put at_]]];
      destruct Ho as [(H1 & H2 & H3 & k & H4 & H5 & H6) Hat]; cbn in *; rewrite Hpre in H5 by done.
    + exists v', d', (inl e), pos. split_and!; try done. by exists k.
    + destruct H6 as [-> ->]. subst at_. eexists v', d', (inr chunk), _. split_and!; try done. eexists. split_and!; try done.
      replace (0 <? chunk) with true by lia. unfold t, target in *. by rewrite swrap_small by lia.
  - cbn in Hp0, Hmax. rewrite uwrap_small by (unfold in_u; lia).
    pose proof (op_pwrite_ok pos chunk _ d Hv1 ltac:(lia) ltac:(lia)) as Ho. destruct (op_pwrite pos chunk _ d) as [[v' d'] [e|put]];
      destruct Ho as (H1 & H2 & H3 & k & H4 & H5 & H6); cbn in *; rewrite Hpre in H5 by done.
    + exists v', d', (inl e), pos. split_and!; try done. by exists k.
    + destruct H6 as [-> ->]. eexists v', d', (inr chunk), _. split_and!; try done. eexists. split_and!; try done.
      replace (0 <? chunk) with true by lia. by rewrite swrap_small by lia.
Qed.

Lemma write_spec_nil pos c v d : vfs_ok c -> svr_ok v d -> write_spec [] pos c v d c v d 0 More.
Proof. intros Hc Hv. split; try done; try lia. exists 0%nat. cbn. by rewrite wrote_nil. Qed.

(** A chunk that succeeds; the size the client keeps follows. *)
Lemma chunk_spec a pos c v d v1 d1 : vfs_ok c -> a <> [] -> svr_ok v1 d1 -> v_path v1 = v_path v -> same_others (v_path v) d d1 ->
  let t := text (v_path v) d in let pos1 := target (c_append c) pos t + zlen a in
  0 <= target (c_append c) pos t -> pos1 < 2 ^ 63 ->
  text (v_path v) d1 = wrote (c_append c) pos a t ->
  write_spec a pos c v d
    {| c_buf_size := c_buf_size c; c_size := if c_size c <? u64 pos1 then u64 pos1 else c_size c;
       c_append := c_append c; c_valid := c_valid c |} v1 d1 (zlen a) More.
Proof.
  intros Hc Ha Hv Hp Ho t pos1 Ht0 Hmax Htx. pose proof (zlen_nonneg a). split; try done.
  - by destruct Hc.
  - exists (length a). rewrite firstn_all. unfold zlen. split_and!; (lia || done).
  - split; [done|]. fold t. cbn. intros ->. unfold pos1 in *. rewrite uwrap_small by (unfold in_u; lia). rewrite Htx, zlen_wrote by done. split_if; lia.
Qed.

Lemma write_loop_ok fuel src : forall c pos v d, vfs_ok c -> svr_ok v d -> room (c_append c) pos (text (v_path v) d) (zlen src) -> zlen src <= Z.of_nat fuel ->
  exists c' v' d' n pos' o, write_loop fuel c src pos v d = Ret (c', v', d', n, pos', o) /\
    write_spec src pos c v d c' v' d' n o /\ (o = More -> c_append c = false -> pos' = pos + zlen src).
Proof.
  induction fuel as [|fuel IH] in src |- *; intros c pos v d Hc Hv [Hp Hmax] Hf; pose proof (zlen_nonneg src) as Hz0; cbn [write_loop].
  { replace (zlen src <=? 0) with true by lia. assert (src = []) as -> by (apply nil_length_inv; unfold zlen in *; lia).
    exists c, v, d, 0, pos, More. split; [done|]. split; [by apply write_spec_nil|]. intros _ _. unfold zlen; cbn; lia. }
  destruct (zlen src <=? 0) eqn:E0.
  { assert (src = []) as -> by (apply nil_length_inv; unfold zlen in *; lia).
    exists c, v, d, 0, pos, More. split; [done|]. split; [by apply write_spec_nil|]. intros _ _. unfold zlen; cbn; lia. }
  destruct (co_buf _ Hc) as [Hb0 Hb1].
  assert (Hch : (if c_buf_size c <? zlen src then c_buf_size c else u32 (zlen src)) = Z.min (c_buf_size c) (zlen src)).
  { unfold BUF_SIZE in Hb1. split_if; [lia|]. rewrite uwrap_small by (unfold in_u; lia). lia. }
  rewrite Hch. set (chunk := Z.min (c_buf_size c) (zlen src)) in *.
  destruct (put_chunk_ok chunk src pos c v d) as (v1 & d1 & r & pos1 & -> & Hv1 & Hpath & Hoth & k & Hk & Ht & Hr); try done; try lia; [split; lia|].
  cbn [mbind run_bind]. destruct r as [e|put].
  { exists c, v1, d1, 0, pos1, Fail. split; [done|]. split; [|done]. split; try done; try lia. exists k. split_and!; try done; try lia.
    unfold zlen in *. lia. }
  destruct Hr as (-> & -> & Hpos1). replace (chunk =? 0) with false by lia. rewrite Z.ltb_irrefl.
  set (c1 := Build_file_vfs _ _ _ _). set (a := take (Z.to_nat chunk) src) in *.
  assert (Hza : zlen a = chunk) by (unfold a, zlen in *; rewrite length_take; lia).
  assert (Hsrc : src = a ++ drop (Z.to_nat chunk) src) by (unfold a; by rewrite take_drop).
  assert (Hzb : zlen (drop (Z.to_nat chunk) src) = zlen src - chunk) by (unfold zlen in *; rewrite length_drop; lia).
  assert (Hstep : write_spec a pos c v d c1 v1 d1 (zlen a) More).
  { unfold c1. rewrite Hpos1, <- Hza. apply chunk_spec; try done; try lia. intros ->. unfold zlen in *. cbn in *. lia. }
  assert (Htg : target (c_append c1) pos1 (text (v_path v1) d1) = target (c_append c) pos (text (v_path v) d) + chunk).
  { rewrite Hpath. cbn. destruct (c_append c) eqn:Ea; cbn; [|done]. rewrite Ht. cbn. rewrite zlen_app. lia. }
  destruct (IH (drop (Z.to_nat chunk) src) c1 pos1 v1 d1) as (c2 & v2 & d2 & n & pos2 & o & -> & Hs & Hpos2);
    [by destruct Hc|done|unfold room; rewrite Htg; lia|lia|].
  exists c2, v2, d2, (chunk + n), pos2, o. split; [done|]. split.
  - assert (Happ : write_spec (a ++ drop (Z.to_nat chunk) src) pos c v d c2 v2 d2 (zlen a + n) o).
    { apply (write_spec_app _ _ _ pos1 _ _ _ c1 v1 d1); [|done|done]. intros Ha. rewrite Ha in *. cbn in *. lia. }
    by rewrite Hza, <- Hsrc in Happ.
  - intros -> Ha. cbn in Hpos2. rewrite Hpos2, Hpos1, Ha by done. cbn. lia.
Qed.

Lemma write_bufs_ok fuel iov : forall c pos v d, vfs_ok c -> svr_ok v d ->
  room (c_append c) pos (text (v_path v) d) (zlen (concat iov)) -> Forall (fun src => zlen src <= Z.of_nat fuel) iov ->
  exists c' v' d' n o, write_bufs fuel c iov pos v d = Ret (c', v', d', n, o) /\ write_spec (concat iov) pos c v d c' v' d' n o.
Proof.
  induction iov as [|src iov IH]; intros c pos v d Hc Hv [Hp Hmax] HF; cbn [write_bufs concat] in *.
  { exists c, v, d, 0, More. split; [done|]. by apply write_spec_nil. }
  apply list.Forall_cons in HF as [Hf HF]. rewrite zlen_app in Hmax. pose proof (zlen_nonneg src). pose proof (zlen_nonneg (concat iov)).
  destruct (write_loop_ok fuel src c pos v d) as (c1 & v1 & d1 & n & pos1 & o & -> & Hs & Hpos); try done; [split; lia|].
  cbn [mbind run_bind]. destruct o.
  - pose proof (ws_done _ _ _ _ _ _ _ _ _ _ Hs) as [-> _].
    destruct (ws_text _ _ _ _ _ _ _ _ _ _ Hs) as (k & _ & _ & Ht & Hk). rewrite Hk, firstn_all in Ht by done.
    destruct (IH c1 pos1 v1 d1) as (c2 & v2 & d2 & m & o & -> & Hs2); try done; [apply Hs|apply Hs| |].
    { rewrite (ws_app _ _ _ _ _ _ _ _ _ _ Hs), (ws_path _ _ _ _ _ _ _ _ _ _ Hs), Ht. unfold room.
      destruct (c_append c); cbn in *; [rewrite zlen_app|rewrite Hpos by done]; lia. }
    exists c2, v2, d2, (zlen src + m), o. split; [done|]. apply (write_spec_app _ _ _ pos1 _ _ _ c1 v1 d1); [|done|done].
    intros Ha. rewrite Ha in *. cbn in *. split; [done|]. by apply Hpos.
  - destruct (ws_done _ _ _ _ _ _ _ _ _ _ Hs).
  - exists c1, v1, d1, n, Fail. split; [done|]. destruct Hs as [A1 A2 A3 A4 A5 A6 (k & A7 & A8 & A9 & A10) A11]. split; try done.
    exists k. rewrite length_app, take_app_le by lia. split_and!; (lia || done).
Qed.

(** ** Both sides together *)

(** C21. Reading through the client library, whatever the length, returns within the loops'
    bounds.  It reports bytes that are in the file at that place: a prefix of those asked
    for, and all there are when the place is not behind the end and the file system does
    not fail; the call fails only otherwise.  No file changes. *)
Theorem ext4_read fuel c lens off v d : vfs_ok c -> svr_ok v d -> 0 <= off -> off + total_len lens < 2 ^ 63 ->
  Forall (fun n => 0 <= n <= Z.of_nat fuel) lens ->
  exists v' d' r, vfs_preadv fuel c lens off v d = Ret (v', d', r) /\ svr_ok v' d' /\ v_path v' = v_path v /\ same_texts d d' /\
    let t := text (v_path v) d in
    match r with
    | inr bs => bs = file_read off (zlen bs) t /\ (works off t -> bs = file_read off (total_len lens) t)
    | inl e => e = EIO /\ ~ works off t
    end.
Proof.
  intros Hc Hv Ho Hmax HF. unfold vfs_preadv. rewrite (co_valid _ Hc). cbn [negb].
  destruct (read_bufs_ok fuel c lens off v d) as (v' & d' & bs & o & -> & Hv' & Hp & Ht & Hd1 & Hd2); try done.
  cbn [mbind run_bind]. eexists v', d', _. split; [done|]. split; [done|]. split; [done|]. split; [done|]. cbn zeta.
  destruct o; [by destruct Hd2|by destruct Hd2|]. by destruct bs.
Qed.

(** C20. Writing through the client library returns within the loops' bounds.  A prefix of the
    data is in the file afterwards, at the given place or, in append mode, at the end
    the file had; it has at least the reported length, and is all of it when the place is
    not behind the end and the file system does not fail.  Other files do not change, and the size the client keeps stays
    the size of the file while nobody else writes it. *)
Theorem ext4_write fuel c iov off v d : vfs_ok c -> svr_ok v d ->
  let t := text (v_path v) d in
  room (c_append c) off t (zlen (concat iov)) -> Forall (fun src => zlen src <= Z.of_nat fuel) iov ->
  exists c' v' d' r k, vfs_pwritev fuel c iov off v d = Ret (c', v', d', r) /\
    svr_ok v' d' /\ vfs_ok c' /\ v_path v' = v_path v /\ same_others (v_path v) d d' /\ (k <= length (concat iov))%nat /\
    text (v_path v) d' = wrote (c_append c) off (take k (concat iov)) t /\
    (forall n, r = inr n -> n <= Z.of_nat k) /\
    (works (target (c_append c) off t) t -> r = inr (zlen (concat iov)) /\ k = length (concat iov) /\
                 (c_size c = zlen t -> c_size c' = zlen (text (v_path v) d'))) /\
    (forall e, r = inl e -> e = EIO).
Proof.
  intros Hc Hv t Hroom HF. unfold vfs_pwritev. rewrite (co_valid _ Hc). cbn [negb].
  destruct (write_bufs_ok fuel iov c off v d) as (c' & v' & d' & n & o & -> & Hs); try done. cbn [mbind run_bind].
  destruct Hs as [A1 A2 A3 A4 A5 A6 (k & A7 & A8 & A9 & A10) A11]. eexists c', v', d', _, k. split; [done|].
  split_and!; try done.
  - intros m Hm. destruct o; [| |destruct (n =? 0); [done|]]; by injection Hm as <-.
  - intros Hr. destruct o; [|done|done]. destruct A11 as [-> A12]. split_and!; [done|by apply A10|done].
  - intros e He. destruct o; [done|done|]. destruct (n =? 0); [by injection He|done].
Qed.

(** Opening gives a pair of objects that the theorems above are about. *)
Lemma vfs_new_ok mem path d c v d' : zlen mem = BUF_SIZE -> vfs_new true (svr_new (Some mem) path) d = (c, v, d') ->
  same_texts d d' /\ svr_ok v d' /\ v_path v = take 257 (cstr path) /\
  (c_valid c = true -> vfs_ok c /\ c_append c = false /\ c_size c = zlen (text (v_path v) d')).
Proof.
  intros Hm. unfold vfs_new, op_setup. cbn [v_ok svr_new negb]. intros Hn.
  assert (Hv : svr_ok (svr_new (Some mem) path) d) by by split.
  pose proof (ensure_open_ok _ _ Hv) as Ho. destruct (ensure_open _ _) as [[v1 d1] [f|]].
  - destruct Ho as (H1 & H2 & _ & H3 & _ & _ & H4 & H5). cbn in Hn. injection Hn as <- <- <-.
    split_and!; try done. intros _. split_and!; [done|done|]. cbn. rewrite H5, H2. f_equal. by rewrite (proj1 H3).
  - destruct Ho as (H1 & H2 & _ & H3 & _). injection Hn as <- <- <-. by split_and!.
Qed.

Lemma vfs_ftruncate_ok c n v d : vfs_ok c -> svr_ok v d -> 0 <= n < 2 ^ 63 ->
  let '(c', v', d', r) := vfs_ftruncate c n v d in
  svr_ok v' d' /\ vfs_ok c' /\ v_path v' = v_path v /\ same_others (v_path v) d d' /\ let t := text (v_path v) d in
  match r with
  | inr x => x = 0 /\ text (v_path v) d' = file_truncate n t /\ c_size c' = n
  | inl e => e = EIO /\ text (v_path v) d' = t /\ c' = c
  end.
Proof.
  intros Hc Hv Hn. unfold vfs_ftruncate, op_ftruncate, with_file. rewrite (so_ok _ _ Hv), (co_valid _ Hc). cbn [negb orb].
  replace (n <? 0) with false by lia. rewrite uwrap_small by (unfold in_u; lia).
  pose proof (ensure_open_ok v d Hv) as Ho. destruct (ensure_open v d) as [[v1 d1] [f|]]; cycle 1.
  { destruct Ho as (H1 & H2 & H3 & H4 & H5). split_and!; try done; [by apply same_others_texts|apply H4]. }
  destruct Ho as (Hv1 & Hp1 & Hb1 & Ht1 & Hf1 & Hfp & Hc1 & Hs). destruct (ext4_ftruncate n f d1) as [[d2 f2] ok] eqn:Et.
  rewrite <- Hfp in Hc1, Hs. destruct (law_truncate _ _ _ _ _ _ _ Et Hc1 Hs) as (Hp2 & Hoth & Hc2 & Hs2). rewrite Hfp in *.
  assert (Hv2 : svr_ok (set_f (Some f2) v1) d2) by (eapply (set_f_ok v1 d1); rewrite ?Hp1; [done|done|exact Hc2|exact Hs2]).
  assert (Hso : same_others (v_path v) d d2).
  { apply (same_others_trans _ _ d1); [by apply same_others_texts|]. apply same_others_content; [done|]. rewrite Hc2. by eexists. }
  assert (Ht : text (v_path v) d2 = if ok then file_truncate n (text (v_path v) d) else text (v_path v) d) by (unfold text at 1; by rewrite Hc2).
  destruct ok; split_and!; try done. by destruct Hc.
Qed.

(** ** Several appenders *)

(** Threads append records to one file: a thread fills the buffer of a handle, then calls
    the server for it.  The steps of different threads interleave. *)
Inductive append_ev := Fill (h : nat) (bs : bytes) | Append (h : nat) (len : Z).

Fixpoint appends (evs : list append_ev) (vs : list file_svr) (d : disk) : run (list file_svr * disk * list (errno + Z * Z)) :=
  match evs with
  | [] => Ret (vs, d, [])
  | Fill h bs :: evs =>
      v ← or_oob (vs !! h);
      b ← or_oob (wr_bytes 0 bs (v_buf v));
      appends evs (<[h := set_buf b v]> vs) d
  | Append h len :: evs =>
      v ← or_oob (vs !! h);
      let '(v, d, r) := op_pappend len v d in
      '(vs, d, rs) ← appends evs (<[h := v]> vs) d;
      Ret (vs, d, r :: rs)
  end.

(** The records in the order of the calls, when every handle is used by one thread at a time;
    [pend] are the handles with a filled buffer. *)
Fixpoint records (evs : list append_ev) (pend : gmap nat bytes) : option (list bytes) :=
  match evs with
  | [] => Some []
  | Fill h bs :: evs => if decide (pend !! h = None /\ zlen bs <= BUF_SIZE) then records evs (<[h := bs]> pend) else None
  | Append h len :: evs =>
      match pend !! h with
      | Some bs => if zlen bs =? len then (bs ::.) <$> records evs (delete h pend) else None
      | None => None
      end
  end.

Definition handle_of (e : append_ev) : nat := match e with Fill h _ | Append h _ => h end.

Lemma set_buf_ok b v d : svr_ok v d -> length b = length (v_buf v) -> svr_ok (set_buf b v) d.
Proof. intros [H1 H2 H3] Hl. split; cbn; [unfold zlen in *; lia|done|done]. Qed.

Context {K : Lwext4_current E L}.

(** The other handles stay usable. *)
Lemma svr_ok_others p v d d' : svr_ok v d -> same_others p d d' -> svr_ok v d'.
Proof.
  intros [H1 H2 H3] [_ Hs]. split; [done|done|]. intros f Hf. destruct (H3 f Hf) as (Hp & c & Hc & _). split; [done|].
  destruct (Hs (v_path v)) as [c' Hc']; [by rewrite Hc|]. exists c'. split; [done|]. apply current. by rewrite Hp.
Qed.

Definition handles_ok (p : bytes) (pend : gmap nat bytes) (vs : list file_svr) (d : disk) : Prop :=
  (forall h v, vs !! h = Some v -> svr_ok v d /\ v_path v = p) /\
  forall h bs, pend !! h = Some bs -> zlen bs <= BUF_SIZE /\ exists v, vs !! h = Some v /\ take (length bs) (v_buf v) = bs.

(** How a call went: it stored a part of its record behind the others', all of it at the
    place it reports when it succeeds. *)
Fixpoint stored (t : bytes) (recs parts : list bytes) (rs : list (errno + Z * Z)) : Prop :=
  match recs, parts, rs with
  | [], [], [] => True
  | rec :: recs, part :: parts, r :: rs =>
      part `prefix_of` rec /\
      match r with inr (n, off) => n = zlen rec /\ part = rec /\ off = zlen t | inl _ => ~ reliable end /\
      stored (t ++ part) recs parts rs
  | _, _, _ => False
  end.

Lemma appends_ok p evs : forall pend recs vs d, records evs pend = Some recs -> handles_ok p pend vs d ->
  Forall (fun e => (handle_of e < length vs)%nat) evs ->
  exists vs' d' rs parts, appends evs vs d = Ret (vs', d', rs) /\ same_others p d d' /\
    text p d' = text p d ++ concat parts /\ stored (text p d) recs parts rs.
Proof.
  induction evs as [|[h bs|h len] evs IH]; intros pend recs vs d Hrec [Hh Hpd] HF; cbn [records appends] in *.
  { injection Hrec as <-. exists vs, d, [], []. split; [done|]. split; [done|]. by rewrite app_nil_r. }
  - apply list.Forall_cons in HF as [Hlt HF]. cbn in Hlt. destruct (decide _) as [[Hn Hz]|]; [|done].
    destruct (lookup_lt_is_Some_2 vs h Hlt) as [v Ev]. rewrite Ev. cbn [or_oob mbind run_bind].
    destruct (Hh h v Ev) as [Hv Hp]. pose proof (so_buf _ _ Hv) as Hb.
    destruct (wr_bytes_Some 0 bs (v_buf v)) as (b & Eb & Lb); [lia|unfold zlen in *; lia|]. rewrite Eb. cbn [or_oob mbind run_bind].
    apply (IH (<[h:=bs]> pend)); [done| |by rewrite length_insert]. split.
    + intros h' v' Hl. destruct (decide (h = h')) as [<-|Hne].
      * rewrite list_lookup_insert_eq in Hl by done. injection Hl as <-. split; [by apply set_buf_ok|done].
      * rewrite list_lookup_insert_ne in Hl by done. by apply Hh with h'.
    + intros h' bs' Hl. destruct (decide (h = h')) as [<-|Hne].
      * rewrite lookup_insert_eq in Hl. injection Hl as <-. split; [done|]. rewrite list_lookup_insert_eq by done.
        eexists. split; [done|]. cbn. unfold wr_bytes in Eb. destruct (_ && _); [|done]. injection Eb as <-.
        cbn [Z.to_nat take app]. apply take_app_length.
      * rewrite lookup_insert_ne in Hl by done. rewrite list_lookup_insert_ne by done. by apply Hpd.
  - apply list.Forall_cons in HF as [Hlt HF]. cbn in Hlt. destruct (pend !! h) as [bs|] eqn:Eh; [|done].
    destruct (zlen bs =? len) eqn:El; [|done]. apply Z.eqb_eq in El. subst len.
    destruct (records evs (delete h pend)) as [recs'|] eqn:Er; [|done]. injection Hrec as <-.
    destruct (Hpd h bs Eh) as (Hz & v & Ev & Hbuf). rewrite Ev. cbn [or_oob mbind run_bind]. destruct (Hh h v Ev) as [Hv Hp].
    pose proof (zlen_nonneg bs). pose proof (op_pappend_ok (zlen bs) v d Hv ltac:(lia)) as Ho.
    destruct (op_pappend (zlen bs) v d) as [[v1 d1] r]. destruct Ho as [(H1 & H2 & H3 & k & H4 & H5 & H6) H7].
    rewrite Hp in *. unfold zlen in H4. rewrite Nat2Z.id in H4.
    assert (Hk : take k (v_buf v) = take k bs) by (by rewrite <- Hbuf, take_take, Nat.min_l).
    destruct (IH (delete h pend) recs' (<[h:=v1]> vs) d1) as (vs' & d' & rs & parts & -> & Hs & Ht & Hst); [done| |by rewrite length_insert|].
    { split.
      - intros h' v' Hl. destruct (decide (h = h')) as [<-|Hne].
        + rewrite list_lookup_insert_eq in Hl by done. by injection Hl as <-.
        + rewrite list_lookup_insert_ne in Hl by done. destruct (Hh h' v' Hl). split; [by eapply svr_ok_others|done].
      - intros h' bs' Hl. apply lookup_delete_Some in Hl as [Hne Hl]. rewrite list_lookup_insert_ne by done. by apply Hpd. }
    cbn [mbind run_bind]. eexists vs', d', _, (take k bs :: parts). split; [done|]. split; [by apply (same_others_trans _ _ d1)|].
    rewrite Ht, H5, Hk. cbn [concat wrote]. split; [by rewrite <- app_assoc|]. cbn [stored]. split_and!.
    + apply prefix_take.
    + destruct r as [e|[n off]]; [|by destruct H6 as [-> ->]; unfold zlen; rewrite Nat2Z.id, firstn_all].
      intros Hr. apply H6. by split; [|cbn; lia].
    + by rewrite H5, Hk in Hst.
Qed.

Lemma stored_all t recs parts rs : reliable -> stored t recs parts rs -> parts = recs.
Proof.
  intros Hr. revert t parts rs. induction recs as [|rec recs IH]; intros t [|part parts] [|r rs]; try done.
  cbn. intros (_ & H1 & H2). destruct r as [e|[n off]]; [done|]. destruct H1 as (_ & -> & _). f_equal. by eapply IH.
Qed.


End Proofs.


(** ** Examples *)

(** A file system in memory.  With [keeps] an open file keeps the size it saw last; both
    ways are within the laws. *)
Section Memory.
Variable keeps : bool.

Record mem_file := { m_path : bytes; m_pos : Z; m_size : Z }.

Definition m_content (p : bytes) (d : gmap bytes bytes) : option bytes := d !! p.

Definition m_text (p : bytes) (d : gmap bytes bytes) : bytes := default [] (d !! p).

Definition m_fsize (f : mem_file) (d : gmap bytes bytes) : Z := if keeps then m_size f else zlen (m_text (m_path f) d).

#[local] Instance mem_ext4 : Lwext4 := {|
  disk := gmap bytes bytes;
  ext4_file := mem_file;
  ext4_fopen2 p d := let c := m_text p d in (<[p := c]> d, Some {| m_path := p; m_pos := 0; m_size := zlen c |});
  ext4_fseek off o f d :=
    ({| m_path := m_path f; m_pos := match o with SEEK_SET => off | SEEK_END => m_fsize f d - off end; m_size := m_size f |}, true);
  ext4_fread len f d :=
    let c := m_text (m_path f) d in
    (d, {| m_path := m_path f; m_pos := m_pos f; m_size := zlen c |}, Some (file_read (m_pos f) len c));
  ext4_fwrite bs f d :=
    let c := put_bytes (m_pos f) bs (m_text (m_path f) d) in
    (<[m_path f := c]> d, {| m_path := m_path f; m_pos := m_pos f + zlen bs; m_size := zlen c |}, (true, zlen bs));
  ext4_fsize := m_fsize;
  ext4_ftruncate n f d :=
    let c := file_truncate n (m_text (m_path f) d) in
    (<[m_path f := c]> d, {| m_path := m_path f; m_pos := m_pos f; m_size := zlen c |}, true);
  ext4_fclose f d := d
|}.

#[local] Instance mem_laws : Lwext4_laws mem_ext4.
Proof.
  refine {| content := m_content : bytes -> @disk mem_ext4 -> _; f_path := m_path : @ext4_file mem_ext4 -> _; f_pos := m_pos : @ext4_file mem_ext4 -> _ |}; cbn; unfold m_content.
  - intros p d d' f [= <- <-]. cbn. rewrite lookup_insert_eq. split_and!; try done.
    + unfold m_fsize, m_text. cbn. rewrite lookup_insert_eq. by destruct keeps.
    + intros q Hq. by apply lookup_insert_ne.
  - done.
  - intros off o f d f' ok [= <- <-]. by unfold m_fsize.
  - by intros off f d f' [= <-].
  - intros f d f' [= <-]. cbn. lia.
  - intros len f d d' f' r c [= <- <- <-] Hc Hs. unfold m_fsize, m_text. cbn. rewrite Hc. cbn. split_and!; try done.
    + by destruct keeps.
    + by intros bs [= <-].
  - intros bs f d d' f' ok wc c [= <- <- <- <-] Hc Hs. cbn. split; [done|]. split; [intros q Hq; by apply lookup_insert_ne|].
    exists (length bs). rewrite firstn_all. unfold m_fsize, m_text. cbn in *. rewrite (lookup_insert_eq (M:=gmap bytes)), Hc. split_and!; try done. by destruct keeps.
  - intros n f d d' f' ok c [= <- <- <-] Hc Hs. cbn. split; [done|]. split; [intros q Hq; by apply lookup_insert_ne|].
    unfold m_fsize, m_text. cbn. rewrite lookup_insert_eq, Hc. split; [done|]. by destruct keeps.
  - done.
Defined.

Lemma mem_reliable : reliable.
Proof.
  split; cbn.
  - by intros p d d' f [= <- <-].
  - by intros off f d f' ok _ [= <- <-].
  - by intros f d f' ok [= <- <-].
  - by intros len f d d' f' r [= <- <- <-].
  - by intros bs f d d' f' ok wc [= <- <- <- <-].
Qed.

End Memory.

Module Ext4_example.

#[local] Existing Instance mem_ext4.
#[local] Existing Instance mem_laws.

Definition path : bytes := str "/log".
Definition handle : @file_svr (mem_ext4 false) := svr_new (Some (zeros BUF_SIZE)) path.
Definition kept_handle : @file_svr (mem_ext4 true) := svr_new (Some (zeros BUF_SIZE)) path.
Definition image : gmap bytes bytes := {[ path := str "boot;" ]}.
Definition client : file_vfs := {| c_buf_size := BUF_SIZE; c_size := 5; c_append := true; c_valid := true |}.

#[local] Instance mem_current : Lwext4_current (mem_ext4 false) (mem_laws false).
Proof. intros f d c Hc. cbn in *. unfold m_fsize, m_text. by rewrite Hc. Qed.

Lemma file_handle_ok d : @svr_ok (mem_ext4 false) (mem_laws false) handle d.
Proof. by split. Qed.

Lemma client_ok : vfs_ok client.
Proof. by split. Qed.

Definition two_handles : list append_ev :=
  [Fill 0 (str "x;"); Fill 1 (str "yy;"); Append 1 3; Fill 1 (str "z;"); Append 0 2; Append 1 2].

Lemma ext4_read_witness : exists v' d' bs,
  vfs_preadv 10 client [3; 4] 1 handle image = Ret (v', d', inr bs) /\ bs = str "oot;".
Proof.
  destruct (ext4_read (L := mem_laws false) 10 client [3; 4] 1 handle image) as (v' & d' & r & E & _ & _ & _ & H);
    [apply client_ok|apply file_handle_ok|lia|done|repeat constructor; lia|].
  assert (Hw : @works (mem_ext4 false) 1 (@text (mem_ext4 false) (mem_laws false) path image)) by (split; [apply mem_reliable|done]).
  destruct r as [e|bs]; [by destruct H as [_ []]|]. exists v', d', bs. split; [exact E|]. destruct H as [_ H]. by rewrite (H Hw).
Defined.

Lemma ext4_write_witness : exists c' v' d',
  vfs_pwritev 10 client [str "a;"; str "bb;"] 0 handle image = Ret (c', v', d', inr 5) /\ m_text path d' = str "boot;a;bb;" /\ c_size c' = 10.
Proof.
  destruct (ext4_write (L := mem_laws false) 10 client [str "a;"; str "bb;"] 0 handle image)
    as (c' & v' & d' & r & k & E & _ & _ & _ & _ & _ & Ht & _ & Hr & _); [apply client_ok|apply file_handle_ok|done|repeat constructor; done|].
  destruct Hr as (-> & -> & Hs); [split; [apply mem_reliable|done]|]. exists c', v', d'. specialize (Hs eq_refl).
  assert (Ht' : m_text path d' = str "boot;a;bb;") by exact Ht. split; [exact E|]. split; [exact Ht'|]. rewrite Hs. by rewrite Ht.
Defined.


Definition final {A} (r : run (A * gmap bytes bytes * list (errno + Z * Z))) : option bytes :=
  match r with Ret (_, d, _) => Some (m_text path d) | _ => None end.

(** Two threads that use one handle: the copies into the buffer are not part of the calls, and
    the record of the first is lost, that of the second is stored twice. *)
Example shared_handle_loses :
  final (appends [Fill 0 (str "a;"); Fill 0 (str "b;"); Append 0 2; Append 0 2] [handle] image) = Some (str "boot;b;b;").
Proof. reflexivity. Qed.

(** Handles of their own are not enough when an open file keeps the size it saw last: the
    second record is overwritten by the third. *)
Example kept_size_overwrites :
  final (appends [Fill 0 (str "x;"); Append 0 2; Fill 1 (str "y;"); Append 1 2; Fill 0 (str "z;"); Append 0 2]
           [kept_handle; kept_handle] image) = Some (str "boot;x;z;").
Proof. reflexivity. Qed.

End Ext4_example.
