(* ===== verification/Ext4Ns.v ===== *)
(** * Names of the ext4 server

    [Ext4_namespace] of [src/pkg/filesystem/ext4/server/src/ext4_ns.cc]: one object per
    directory that was visited, found again by its path, and one object per open file;
    the listing of a directory is a dataspace of text lines.

    What the file system library knows of directories is an argument: [dirs] gives the
    entries of a path that is a directory.  Capabilities are the keys of the map of
    registered objects. *)

From S2P Require Import Prelude TmpfsFile Ext4File.

(** ** Listings *)

Record dent := { e_name : bytes; e_dir : bool }.

#[global] Instance dent_eq_dec : EqDecision dent.
Proof. solve_decision. Defined.

(** The entries the two passes do not skip. *)
Definition shown (e : dent) : bool :=
  negb (bool_decide (e_name e = []) || bool_decide (e_name e = str ".") || bool_decide (e_name e = str "..")).

Definition round_page (v : Z) : Z := Z.land (v +[64] 4095) (uwrap 64 (Z.lnot 4095)).

(** The first pass. *)
Definition buf_needed (l : list dent) : Z := foldr (fun e n => if shown e then 6 + zlen (e_name e) + n else n) 0 l.

Definition ds_size (l : list dent) : Z :=
  let n := buf_needed l in round_page (if n =? 0 then 1 else n).

Definition type_tag (e : dent) : Z := if e_dir e then 100 else 102.

(** One round of the second pass at offset [p] of the dataspace [m] of [size] bytes;
    no offset is a [break]. *)
Definition put_entry (size : Z) (e : dent) (p : Z) (m : bytes) : run (option Z * bytes) :=
  let n := zlen (e_name e) in
  let remain := size - p in
  let hdr := fmtd n ++ [58] in
  m ← (if remain =? 0 then Ret m else or_oob (wr_bytes p (snprintf_out (Z.to_nat remain) hdr ++ [0]) m));
  if remain <=? zlen hdr then Ret (None, m)
  else
    let p := p + zlen hdr in
    if size - p <? n + 2 then Ret (None, m)
    else m ← or_oob (wr_bytes p (e_name e ++ [type_tag e; 10]) m); Ret (Some (p + n + 2), m).

Fixpoint put_entries (size : Z) (l : list dent) (p : Z) (m : bytes) : run bytes :=
  match l with
  | [] => Ret m
  | e :: l =>
      if negb (shown e) then put_entries size l p m
      else
        '(o, m) ← put_entry size e p m;
        match o with None => Ret m | Some p => put_entries size l p m end
  end.

(** [make_dirinfo]: [l1] and [l2] are what the two passes see; [mem] tells whether the
    dataspace could be provided. *)
Definition make_dirinfo (mem : bool) (l1 l2 : option (list dent)) : run (errno + bytes) :=
  match l1 with
  | None => Ret (inl ENOENT)
  | Some l =>
      if negb mem then Ret (inl ENOMEM)
      else
        let size := ds_size l in
        m ← match l2 with None => Ret (zeros size) | Some l => put_entries size l 0 (zeros size) end;
        Ret (inr m)
  end.

(** ** The format: [<length>:<name><tag>] and a newline *)

Fixpoint span_digits (b : bytes) : bytes * bytes :=
  match b with
  | [] => ([], [])
  | c :: t => if isdigit c then let '(ds, r) := span_digits t in (c :: ds, r) else ([], b)
  end.

Definition read_entry (b : bytes) : option (dent * bytes) :=
  let '(ds, r) := span_digits b in
  match ds, r with
  | _ :: _, c :: r =>
      if c =? 58 then
        let n := Z.to_nat (undigits 10 ((fun d => d - 48) <$> ds)) in
        match drop n r with
        | tag :: nl :: r' =>
            if (nl =? 10) && (length r =? n + 2 + length r')%nat
            then Some ({| e_name := take n r; e_dir := tag =? 100 |}, r') else None
        | _ => None
        end
      else None
  | _, _ => None
  end.

Fixpoint read_dirinfo (fuel : nat) (b : bytes) : list dent :=
  match fuel with
  | O => []
  | S fuel => match read_entry b with Some (e, r) => e :: read_dirinfo fuel r | None => [] end
  end.

Definition entry_line (e : dent) : bytes := fmtd (zlen (e_name e)) ++ [58] ++ e_name e ++ [type_tag e; 10].

Lemma span_digits_app ds r : Forall (fun c => isdigit c = true) ds -> (forall c r', r = c :: r' -> isdigit c = false) ->
  span_digits (ds ++ r) = (ds, r).
Proof.
  intros HF Hr. induction HF as [|c ds Hc HF IH]; cbn.
  - destruct r as [|c r]; [done|]. cbn. by rewrite (Hr c r).
  - by rewrite Hc, IH.
Qed.

Lemma fmtd_digits n : 0 <= n -> Forall (fun c => isdigit c = true) (fmtd n).
Proof.
  intros Hn. unfold fmtd. replace (n <? 0) with false by lia. rewrite Z.abs_eq by lia. cbn. apply Forall_fmap.
  eapply list.Forall_impl; [apply digits_bounds; lia|]. intros d Hd. unfold compose, isdigit. cbv beta in *. lia.
Qed.

Lemma undigits_fmtd n : 0 <= n < 10 ^ 64 -> undigits 10 ((fun d => d - 48) <$> fmtd n) = n.
Proof.
  intros Hn. unfold fmtd. replace (n <? 0) with false by lia. rewrite Z.abs_eq by lia. cbn [app].
  rewrite <- list_fmap_compose.
  rewrite (list_fmap_ext _ id), list_fmap_id; [by apply undigits_digits|]. intros i d _. unfold compose. cbn. lia.
Qed.

Lemma fmtd_nonempty n : fmtd n <> [].
Proof.
  intros H%(f_equal length). unfold fmtd, digits in H. rewrite length_app, length_fmap, length_reverse in H. cbn in H. lia.
Qed.

Lemma read_entry_line e r : zlen (e_name e) <= 255 -> read_entry (entry_line e ++ r) = Some (e, r).
Proof.
  intros He. pose proof (zlen_nonneg (e_name e)) as Hz. unfold read_entry, entry_line. rewrite <- app_assoc. cbn [app].
  rewrite span_digits_app by (try (by apply fmtd_digits); by intros c r' [= <- <-]).
  destruct (fmtd (zlen (e_name e))) as [|c0 ds0] eqn:Ef; [by apply fmtd_nonempty in Ef|]. rewrite <- Ef. cbn [Z.eqb].
  rewrite undigits_fmtd by lia. unfold zlen. rewrite Nat2Z.id, <- app_assoc. cbn [app].
  change (58 =? 58) with true. cbn match. rewrite drop_app_length, take_app_length.
  rewrite length_app. cbn [length]. replace (_ =? _)%nat with true by (symmetry; apply Nat.eqb_eq; lia). cbn.
  destruct e as [nm dr]. cbn. by destruct dr.
Qed.

Lemma read_dirinfo_lines l z fuel : Forall (fun e => zlen (e_name e) <= 255) l -> (length l < fuel)%nat -> (forall c r, z = c :: r -> c = 0) ->
  read_dirinfo fuel (concat (entry_line <$> l) ++ z) = l.
Proof.
  intros HF. revert fuel. induction HF as [|e l He HF IH]; intros [|fuel] Hf Hz; try (cbn in *; lia); cbn [read_dirinfo fmap list_fmap concat].
  - cbn [app]. destruct z as [|c z]; [done|]. rewrite (Hz c z eq_refl). done.
  - rewrite <- app_assoc, read_entry_line by done. f_equal. apply IH; [cbn in Hf; lia|done].
Qed.

Lemma wr_bytes_over (a b c bs : bytes) : length b = length bs -> wr_bytes (zlen a) bs (a ++ b ++ c) = Some (a ++ bs ++ c).
Proof.
  intros Hl. unfold wr_bytes, zlen. pose proof (zlen_nonneg a). rewrite (proj2 (Z.leb_le 0 _)) by lia.
  rewrite (proj2 (Z.leb_le _ _)) by (rewrite !length_app; lia). cbn [andb]. rewrite Nat2Z.id, take_app_length.
  rewrite drop_app_add, drop_app_length' by done. done.
Qed.

Lemma zeros_split n k : 0 <= k <= n -> zeros n = zeros k ++ zeros (n - k).
Proof. intros H. unfold zeros. rewrite <- replicate_add. f_equal. lia. Qed.

Lemma zlen_zeros n : 0 <= n -> zlen (zeros n) = n.
Proof. intros H. unfold zeros, zlen. rewrite length_replicate. lia. Qed.

Lemma zlen_entry_line e : zlen (entry_line e) = zlen (fmtd (zlen (e_name e))) + zlen (e_name e) + 3.
Proof. unfold entry_line. rewrite !zlen_app, !zlen_cons. change (zlen (@nil Z)) with 0. lia. Qed.

Lemma entry_line_bound e : zlen (e_name e) <= 255 -> 3 <= zlen (entry_line e) <= 6 + zlen (e_name e).
Proof.
  intros He. pose proof (zlen_nonneg (e_name e)). pose proof (zlen_nonneg (fmtd (zlen (e_name e)))). rewrite zlen_entry_line.
  pose proof (length_fmtd (zlen (e_name e)) 3 ltac:(lia) ltac:(lia)) as H3. unfold zlen in *. lia.
Qed.

(** A round that has room writes the line and leaves the rest alone. *)
Lemma put_entry_ok size e done : shown e = true -> zlen done + zlen (entry_line e) <= size ->
  let p := zlen done in
  put_entry size e p (done ++ zeros (size - p)) =
  Ret (Some (p + zlen (entry_line e)), (done ++ entry_line e) ++ zeros (size - (p + zlen (entry_line e)))).
Proof.
  intros Hs Hfit p. pose proof (zlen_nonneg done) as Hp. fold p in Hp, Hfit. rewrite zlen_entry_line in *.
  assert (Hn : 1 <= zlen (e_name e)).
  { unfold shown in Hs. destruct (e_name e); [done|]. rewrite zlen_cons. pose proof (zlen_nonneg l). lia. }
  unfold put_entry. set (n := zlen (e_name e)) in *. set (hdr := fmtd n ++ [58]).
  assert (Hh : zlen hdr = zlen (fmtd n) + 1) by (unfold hdr; rewrite zlen_app, zlen_cons; change (zlen (@nil Z)) with 0; lia).
  pose proof (zlen_nonneg (fmtd n)). replace (size - p =? 0) with false by lia.
  assert (snprintf_out (Z.to_nat (size - p)) hdr = hdr) as -> by (unfold snprintf_out; apply take_ge; change (zlen hdr) with (Z.of_nat (length hdr)) in Hh; lia).
  rewrite (zeros_split (size - p) (zlen hdr + 1)) by lia.
  rewrite (wr_bytes_over done (zeros (zlen hdr + 1)) _ (hdr ++ [0])) by (unfold zeros, zlen; rewrite length_replicate, length_app; cbn; lia).
  cbn [or_oob mbind run_bind]. replace (size - p <=? zlen hdr) with false by lia.
  replace (size - (p + zlen hdr) <? n + 2) with false by lia.
  rewrite (zeros_split (size - p - (zlen hdr + 1)) (n + 1)) by lia.
  replace (done ++ (hdr ++ [0]) ++ zeros (n + 1) ++ zeros (size - p - (zlen hdr + 1) - (n + 1)))
    with ((done ++ hdr) ++ ([0] ++ zeros (n + 1)) ++ zeros (size - p - (zlen hdr + 1) - (n + 1))) by (by rewrite <- !app_assoc).
  replace (p + zlen hdr) with (zlen (done ++ hdr)) by (rewrite zlen_app; lia).
  rewrite wr_bytes_over by (rewrite !length_app; unfold zeros, n, zlen; cbn; rewrite length_replicate; lia).
  cbn [or_oob mbind run_bind]. rewrite zlen_app. fold p.
  replace (p + zlen hdr + n + 2) with (p + (zlen (fmtd n) + n + 3)) by lia.
  replace (size - p - (zlen hdr + 1) - (n + 1)) with (size - (p + (zlen (fmtd n) + n + 3))) by lia.
  unfold entry_line, hdr. by rewrite <- !app_assoc.
Qed.

Lemma buf_needed_nonneg l : 0 <= buf_needed l.
Proof.
  unfold buf_needed. induction l as [|e l IH]; cbn [foldr]; [done|]. pose proof (zlen_nonneg (e_name e)). destruct (shown e); lia.
Qed.

Lemma put_entries_ok size l : forall done, Forall (fun e => zlen (e_name e) <= 255) l ->
  zlen done + buf_needed l <= size ->
  let lines := concat (entry_line <$> filter (fun e => shown e = true) l) in
  put_entries size l (zlen done) (done ++ zeros (size - zlen done)) =
  Ret (done ++ lines ++ zeros (size - zlen done - zlen lines)).
Proof.
  induction l as [|e l IH]; intros done HF Hfit; cbn [put_entries] in *.
  { cbn. unfold zlen at 3. cbn. by rewrite Z.sub_0_r. }
  apply list.Forall_cons in HF as [He HF]. rewrite filter_cons. cbn [buf_needed foldr] in Hfit. fold (buf_needed l) in Hfit.
  destruct (shown e) eqn:Es; cbn [negb].
  - pose proof (entry_line_bound e He). pose proof (buf_needed_nonneg l).
    rewrite put_entry_ok by (done || lia). cbn [mbind run_bind]. rewrite <- zlen_app, IH by (done || (rewrite zlen_app; lia)).
    rewrite decide_True by done. cbn [fmap list_fmap concat]. rewrite <- !app_assoc, !zlen_app. do 5 f_equal. lia.
  - rewrite decide_False by done. by apply IH.
Qed.

(** Whatever the second pass sees, it stays in the dataspace. *)
Lemma put_entries_safe size l : forall p m, 0 <= p <= size -> zlen m = size ->
  exists m', put_entries size l p m = Ret m' /\ zlen m' = size.
Proof.
  induction l as [|e l IH]; intros p m Hp Hm; cbn [put_entries]; [by exists m|].
  destruct (shown e); cbn [negb]; [|by apply IH]. unfold put_entry. set (hdr := fmtd _ ++ [58]).
  assert (H1 : exists m1, (if size - p =? 0 then Ret m
      else or_oob (wr_bytes p (snprintf_out (Z.to_nat (size - p)) hdr ++ [0]) m)) = Ret m1 /\ zlen m1 = size).
  { destruct (size - p =? 0) eqn:E0; [by exists m|].
    destruct (wr_bytes_Some p (snprintf_out (Z.to_nat (size - p)) hdr ++ [0]) m) as (m1 & -> & Hl); [lia| |].
    - unfold snprintf_out. rewrite zlen_app. unfold zlen at 1 2. rewrite length_take. cbn [length]. lia.
    - exists m1. split; [done|]. unfold zlen in *. lia. }
  destruct H1 as (m1 & -> & Hm1). cbn [mbind run_bind]. pose proof (zlen_nonneg hdr). pose proof (zlen_nonneg (e_name e)).
  destruct (_ <=? _) eqn:E1; [by exists m1|]. destruct (_ <? _) eqn:E2; [by exists m1|].
  destruct (wr_bytes_Some (p + zlen hdr) (e_name e ++ [type_tag e; 10]) m1) as (m2 & -> & Hl); [lia| |].
  { rewrite zlen_app, !zlen_cons. change (zlen (@nil Z)) with 0. lia. }
  cbn [or_oob mbind run_bind]. apply IH; [lia|]. unfold zlen in *. lia.
Qed.

Lemma round_page_spec v : 0 <= v < 2 ^ 63 -> v <= round_page v < v + 4096 /\ round_page v mod 4096 = 0.
Proof.
  intros Hv. unfold round_page. rewrite (uwrap_small 64 (v + 4095)) by (unfold in_u; lia).
  replace (uwrap 64 (Z.lnot 4095)) with (Z.shiftl (Z.ones 52) 12) by reflexivity.
  rewrite (land_high_ones _ 12 52) by lia. change (2 ^ 12) with 4096.
  pose proof (Z.div_mod (v + 4095) 4096 ltac:(lia)). pose proof (Z.mod_pos_bound (v + 4095) 4096 ltac:(lia)).
  rewrite Z.mod_mul by lia. lia.
Qed.

(** The listing a client reads has exactly the entries of the directory but [.] and [..],
    in their order, and the dataspace is whole pages; when the directory changes between
    the two passes nothing is written outside of it. *)
Theorem dirinfo_listing l : Forall (fun e => zlen (e_name e) <= 255) l -> buf_needed l < 2 ^ 63 ->
  (exists m, make_dirinfo true (Some l) (Some l) = Ret (inr m) /\ zlen m mod 4096 = 0 /\
     read_dirinfo (S (length l)) m = filter (fun e => shown e = true) l) /\
  forall l2, exists m, make_dirinfo true (Some l) l2 = Ret (inr m) /\ zlen m = ds_size l.
Proof.
  intros HF Hn. pose proof (buf_needed_nonneg l) as H0. unfold make_dirinfo. cbn [negb].
  assert (Hsz : buf_needed l <= ds_size l /\ ds_size l mod 4096 = 0 /\ 0 <= ds_size l).
  { unfold ds_size. destruct (_ =? 0) eqn:E; [destruct (round_page_spec 1); lia|].
    destruct (round_page_spec (buf_needed l)); lia. }
  split.
  - pose proof (put_entries_ok (ds_size l) l [] HF) as Hp. change (zlen (@nil Z)) with 0 in Hp. cbn [app] in Hp.
    rewrite Z.sub_0_r in Hp. rewrite Hp by lia. cbn [mbind run_bind]. eexists. split; [done|].
    destruct (put_entries_safe (ds_size l) l 0 (zeros (ds_size l))) as (m' & Hm & Hz); [lia|apply zlen_zeros; lia|].
    rewrite Hp in Hm by lia. injection Hm as Hm. split; [rewrite Hm, Hz; lia|].
    apply read_dirinfo_lines.
    + rewrite list.Forall_forall in HF |- *. intros e He. apply HF. by apply list_elem_of_filter in He as [_ He].
    + pose proof (length_filter (fun e => shown e = true) l). lia.
    + unfold zeros. destruct (Z.to_nat _); [done|]. by intros c r [= <- _].
  - intros [l2|].
    + destruct (put_entries_safe (ds_size l) l2 0 (zeros (ds_size l))) as (m' & -> & Hz); [lia|apply zlen_zeros; lia|]. by exists m'.
    + eexists. split; [done|]. apply zlen_zeros; lia.
Qed.

(** ** Names *)

(** [build_path]. *)
Definition build_path (prefix name : bytes) : bytes :=
  snprintf_out 512 ((if bool_decide (prefix = str "/") then str "/" else prefix ++ str "/") ++ cstr name).

(** The path [op_query] makes of the first component, in a buffer of 512 bytes. *)
Definition query_path (prefix part : bytes) : run bytes :=
  let path := (if bool_decide (prefix = str "/") then str "/" else prefix ++ str "/") ++ part in
  if 512 <=? zlen path then Oob else Ret (cstr path).

(** [memchr] for a slash: the component and what follows the slash. *)
Fixpoint first_part (name : bytes) : bytes * option bytes :=
  match name with
  | [] => ([], None)
  | c :: t => if c =? 47 then ([], Some t) else let '(a, r) := first_part t in (c :: a, r)
  end.

(** The calls that change directories, for any functions of the library. *)
Definition copy_arg (path : bytes) : bytes := cstr (take 511 path).

Definition ns_unlink {D} (fremove dir_rm : bytes -> D -> D * bool) (path : bytes) (d : D) : D * l4_ret :=
  match fremove path d with
  | (d, true) => (d, Ok)
  | (d, false) => match dir_rm path d with (d, true) => (d, Ok) | (d, false) => (d, Err ENOENT) end
  end.

Definition op_unlink {D} (fremove dir_rm : bytes -> D -> D * bool) (prefix name : bytes) (d : D) : D * l4_ret :=
  ns_unlink fremove dir_rm (build_path prefix name) d.

Definition op_ext_unlink {D} (fremove dir_rm : bytes -> D -> D * bool) (path : bytes) (d : D) : D * l4_ret :=
  ns_unlink fremove dir_rm (copy_arg path) d.

Definition op_ext_mkdir {D} (dir_mk : bytes -> D -> D * option errno) (path : bytes) (d : D) : D * l4_ret :=
  match dir_mk (copy_arg path) d with
  | (d, None) => (d, Ok)
  | (d, Some EEXIST) => (d, Err EEXIST)
  | (d, Some _) => (d, Err EIO)
  end.

Section Names.
Context {E : Lwext4}.

Inductive obj := O_ns (prefix : bytes) | O_file (v : file_svr).

(** The registered objects and the list [s_subns_cache]. *)
Record ns_state := { objs : gmap nat obj; subns : list nat }.

(** The constructor of [Ext4_namespace]. *)
Definition ns_new (prefix : bytes) : obj := O_ns (take 255 prefix).

Definition prefix_of (s : ns_state) (cap : nat) : option bytes :=
  match objs s !! cap with Some (O_ns p) => Some p | _ => None end.

Definition find_cached_subns (path : bytes) (s : ns_state) : option nat :=
  snd <$> list_find (fun cap => prefix_of s cap = Some path) (subns s).

Definition register_obj (o : obj) (s : ns_state) : ns_state * nat :=
  let cap := fresh (dom (objs s)) in ({| objs := <[cap := o]> (objs s); subns := subns s |}, cap).

Definition cache_subns (cap : nat) (s : ns_state) : ns_state := {| objs := objs s; subns := cap :: subns s |}.

(** What could be provided during a call: the object, its registration, the node of the
    cache, the memory of a buffer. *)
Record resources := { r_new : bool; r_reg : bool; r_node : bool; r_mem : option bytes }.

(** An answer: a listing, or a capability with the part of the name that is left. *)
Inductive answer := A_listing (m : bytes) | A_cap (cap : nat) (rest : option bytes).

Definition op_query (dirs : bytes -> option (list dent)) (r : resources) (prefix name : bytes) (s : ns_state)
  : run (ns_state * (errno + answer)) :=
  let '(part, rest) := first_part name in
  if (zlen part =? 0) || (255 <? zlen part) then Ret (s, inl EINVAL)
  else if bool_decide (part = str ".dirinfo") then
    m ← make_dirinfo (bool_decide (is_Some (r_mem r))) (dirs prefix) (dirs prefix);
    Ret (s, match m with inl e => inl e | inr m => inr (A_listing m) end)
  else
    path ← query_path prefix part;
    match dirs path with
    | Some _ =>
        match find_cached_subns path s with
        | Some cap => Ret (s, inr (A_cap cap rest))
        | None =>
            if negb (r_new r) || negb (r_reg r) then Ret (s, inl ENOMEM)
            else
              let '(s, cap) := register_obj (ns_new path) s in
              Ret (if r_node r then cache_subns cap s else s, inr (A_cap cap rest))
        end
    | None =>
        if negb (r_new r) || negb (r_reg r) then Ret (s, inl ENOMEM)
        else let '(s, cap) := register_obj (O_file (svr_new (r_mem r) path)) s in Ret (s, inr (A_cap cap rest))
    end.

(** A client that resolves a name asks again for the rest, at the object it got. *)
Fixpoint resolve (fuel : nat) (dirs : bytes -> option (list dent)) (r : resources) (cap : nat) (name : bytes) (s : ns_state)
  : run (ns_state * (errno + nat)) :=
  match fuel with
  | O => Fuel_out
  | S fuel =>
      match prefix_of s cap with
      | None => Ret (s, inl EBADPROTO)
      | Some prefix =>
          '(s, a) ← op_query dirs r prefix name s;
          match a with
          | inl e => Ret (s, inl e)
          | inr (A_listing _) => Ret (s, inl EBADPROTO)
          | inr (A_cap cap None) => Ret (s, inr cap)
          | inr (A_cap cap (Some rest)) => resolve fuel dirs r cap rest s
          end
      end
  end.

(** ** Resolving a name *)

Definition path_of (prefix c : bytes) : bytes := (if bool_decide (prefix = str "/") then str "/" else prefix ++ str "/") ++ c.

Definition full (prefix : bytes) (cs : list bytes) : bytes := foldl path_of prefix cs.

Fixpoint join (cs : list bytes) : bytes :=
  match cs with [] => [] | [c] => c | c :: cs => c ++ [47] ++ join cs end.

Definition comp_ok (c : bytes) : Prop :=
  c <> [] /\ zlen c <= 255 /\ Forall (fun x => x <> 0 /\ x <> 47) c /\ c <> str ".dirinfo".

(** The components before the last are directories with paths that fit a name space. *)
Fixpoint walkable (dirs : bytes -> option (list dent)) (prefix : bytes) (cs : list bytes) : Prop :=
  match cs with
  | [] | [_] => True
  | c :: cs => let p := path_of prefix c in is_Some (dirs p) /\ zlen p <= 255 /\ walkable dirs p cs
  end.

Lemma first_part_join c cs : comp_ok c -> first_part (join (c :: cs)) = (c, match cs with [] => None | _ => Some (join cs) end).
Proof.
  intros (_ & _ & HF & _).
  assert (Hgo : forall t, first_part (c ++ 47 :: t) = (c, Some t) /\ first_part c = (c, None)).
  { intros t. induction HF as [|x c [_ Hx] HF [IH1 IH2]]; [done|]. cbn. replace (x =? 47) with false by lia. by rewrite IH1, IH2. }
  destruct cs as [|c' cs]; cbn [join]; apply Hgo. exact [].
Qed.

Lemma path_of_clean prefix c : Forall (fun x => x <> 0) prefix -> comp_ok c -> Forall (fun x => x <> 0) (path_of prefix c).
Proof.
  intros Hp (_ & _ & HF & _). unfold path_of. apply list.Forall_app. split.
  - destruct (bool_decide _); [by repeat constructor|]. apply list.Forall_app. split; [done|by repeat constructor].
  - eapply list.Forall_impl; [done|]. by intros x [? _].
Qed.

Lemma zlen_path_of prefix c : zlen (path_of prefix c) <= zlen prefix + 1 + zlen c.
Proof.
  unfold path_of. rewrite zlen_app. change (zlen (str "/")) with 1. pose proof (zlen_nonneg prefix).
  destruct (bool_decide _); [change (zlen (str "/")) with 1; lia|]. rewrite zlen_app. change (zlen (str "/")) with 1. lia.
Qed.

Lemma query_path_ok prefix c : Forall (fun x => x <> 0) prefix -> comp_ok c -> zlen prefix <= 255 -> query_path prefix c = Ret (path_of prefix c).
Proof.
  intros Hp Hc Hl. pose proof (zlen_path_of prefix c) as Hz. unfold query_path. fold (path_of prefix c).
  destruct Hc as (? & ? & ? & ?). replace (512 <=? _) with false by lia. by rewrite cstr_id by (by apply path_of_clean).
Qed.

Lemma find_cached_prefix path s cap : find_cached_subns path s = Some cap -> prefix_of s cap = Some path /\ cap ∈ subns s.
Proof.
  unfold find_cached_subns. destruct (list_find _ _) as [[i x]|] eqn:El; [|done]. intros [= <-].
  apply list_find_Some in El as (Hi & Hp & _). split; [done|]. by eapply list_elem_of_lookup_2.
Qed.

Lemma register_spec o s s' cap : register_obj o s = (s', cap) ->
  objs s !! cap = None /\ objs s' = <[cap := o]> (objs s) /\ subns s' = subns s.
Proof.
  unfold register_obj. intros [= <- <-]. split_and!; [|done|done]. apply not_elem_of_dom, is_fresh.
Qed.

Record all_given (r : resources) : Prop := { ag_new : r_new r = true; ag_reg : r_reg r = true }.

(** One query for a good component. *)
Lemma query_component dirs r prefix c rest name s : all_given r -> Forall (fun x => x <> 0) prefix -> zlen prefix <= 255 ->
  comp_ok c -> first_part name = (c, rest) ->
  let path := path_of prefix c in
  exists s' cap, op_query dirs r prefix name s = Ret (s', inr (A_cap cap rest)) /\ objs s ⊆ objs s' /\
    match dirs path with
    | Some _ => zlen path <= 255 -> prefix_of s' cap = Some path
    | None => objs s' !! cap = Some (O_file (svr_new (r_mem r) path))
    end.
Proof.
  intros [Hn Hr] Hp Hl Hc Hf path. unfold op_query. rewrite Hf.
  assert (zlen c =? 0 = false) as ->. { destruct Hc as [Hne _]. destruct c; [done|]. rewrite zlen_cons. pose proof (zlen_nonneg c). lia. }
  assert (255 <? zlen c = false) as -> by (destruct Hc as (_ & ? & _); lia). cbn [orb].
  rewrite bool_decide_eq_false_2 by apply Hc. rewrite query_path_ok by done. fold path. cbn [mbind run_bind].
  rewrite Hn, Hr. cbn [negb orb]. destruct (dirs path) as [l|].
  - destruct (find_cached_subns path s) as [cap|] eqn:Ec.
    { exists s, cap. split; [done|]. split; [done|]. intros _. by apply find_cached_prefix in Ec as [? _]. }
    destruct (register_obj (ns_new path) s) as [s1 cap] eqn:Er. apply register_spec in Er as (H1 & H2 & H3).
    eexists _, cap. split; [done|]. assert (Ho : objs (if r_node r then cache_subns cap s1 else s1) = <[cap:=ns_new path]> (objs s))
      by (destruct (r_node r); cbn; done). rewrite Ho. split; [by apply insert_subseteq|].
    intros Hz. unfold prefix_of. rewrite Ho, lookup_insert_eq. cbn. f_equal. apply take_ge. unfold zlen in Hz. lia.
  - destruct (register_obj _ s) as [s1 cap] eqn:Er. apply register_spec in Er as (H1 & H2 & H3).
    exists s1, cap. split; [done|]. rewrite H2. split; [by apply insert_subseteq|]. by rewrite lookup_insert_eq.
Qed.

(** Asking for a name component by component leads to the name space of that directory, or
    to an open file for that path, and disturbs no object there is. *)
Theorem names_resolve dirs r cs : forall cap prefix s, all_given r -> Forall comp_ok cs -> cs <> [] ->
  prefix_of s cap = Some prefix -> Forall (fun x => x <> 0) prefix -> zlen prefix <= 255 -> walkable dirs prefix cs ->
  zlen (full prefix cs) <= 255 ->
  exists s' cap', resolve (length cs) dirs r cap (join cs) s = Ret (s', inr cap') /\ objs s ⊆ objs s' /\
    match dirs (full prefix cs) with
    | Some _ => prefix_of s' cap' = Some (full prefix cs)
    | None => exists v, objs s' !! cap' = Some (O_file v) /\ v_path v = full prefix cs
    end.
Proof.
  induction cs as [|c cs IH]; intros cap prefix s Hr HF Hne Hpre Hcl Hlen Hw Hfull; [done|].
  apply list.Forall_cons in HF as [Hc HF]. cbn [length resolve]. rewrite Hpre.
  destruct (query_component dirs r prefix c _ (join (c :: cs)) s Hr Hcl Hlen Hc (first_part_join c cs Hc)) as (s1 & cap1 & -> & Hsub & Hres).
  cbn [mbind run_bind]. destruct cs as [|c' cs].
  - exists s1, cap1. cbn [full foldl] in *. split; [done|]. split; [done|]. destruct (dirs _); [by apply Hres|].
    eexists. split; [done|]. cbn. rewrite cstr_id by (by apply path_of_clean). apply take_ge. unfold zlen in Hfull. lia.
  - destruct Hw as ([l Hl] & Hz & Hw). rewrite Hl in Hres. specialize (Hres Hz).
    destruct (IH cap1 (path_of prefix c) s1) as (s2 & cap2 & HR & Hsub2 & Hres2); try done; [by apply path_of_clean|].
    exists s2, cap2. split; [exact HR|]. split; [by transitivity (objs s1)|done].
Qed.

(** ** The objects of the server *)

Definition root : nat := 0.

Definition ns_start : ns_state := {| objs := {[root := ns_new (str "/")]}; subns := [] |}.

(** What happens to the server: queries at any name space, while directories come and go and
    memory is short, and the release of files. *)
Inductive served : ns_state -> Prop :=
  | served_start : served ns_start
  | served_query dirs r cap prefix name s s' a :
      served s -> prefix_of s cap = Some prefix -> r_node r = true ->
      (forall p l, dirs p = Some l -> zlen p <= 255) ->
      op_query dirs r prefix name s = Ret (s', a) -> served s'
  | served_release cap v s :
      served s -> objs s !! cap = Some (O_file v) -> served {| objs := delete cap (objs s); subns := subns s |}.

Record objs_ok (s : ns_state) : Prop := {
  oo_short : forall cap p, objs s !! cap = Some (O_ns p) -> zlen p <= 255;
  oo_root : is_Some (prefix_of s root);
  oo_cached : forall cap p, objs s !! cap = Some (O_ns p) -> cap = root \/ cap ∈ subns s;
  oo_cache : forall cap, cap ∈ subns s -> cap <> root /\ is_Some (prefix_of s cap);
  oo_once : forall c1 c2 p, c1 ∈ subns s -> c2 ∈ subns s -> prefix_of s c1 = Some p -> prefix_of s c2 = Some p -> c1 = c2
}.

Lemma prefix_of_Some s cap p : prefix_of s cap = Some p <-> objs s !! cap = Some (O_ns p).
Proof. unfold prefix_of. destruct (objs s !! cap) as [[q|v]|]; split; intros H; by simplify_eq. Qed.

Lemma zlen_take_255 (p : bytes) : zlen (take 255 p) <= 255.
Proof. unfold zlen. rewrite length_take. lia. Qed.

(** Another object changes nothing for the name spaces there are. *)
Lemma objs_ok_new o s s' cap : objs_ok s -> register_obj o s = (s', cap) -> (forall p, o <> O_ns p) -> objs_ok s'.
Proof.
  intros [H1 H2 H3 H4 H5] (Hn & Ho & Hs)%register_spec Hne.
  assert (Hk : forall k p, objs s' !! k = Some (O_ns p) <-> objs s !! k = Some (O_ns p)).
  { intros k p. rewrite Ho. destruct (decide (cap = k)) as [<-|Hck]; [|by rewrite lookup_insert_ne].
    rewrite lookup_insert_eq, Hn. split; [intros [= ->]; by destruct (Hne p)|done]. }
  assert (Hp : forall k p, prefix_of s' k = Some p <-> prefix_of s k = Some p) by (intros k p; by rewrite !prefix_of_Some).
  split; rewrite ?Hs.
  - intros k p. rewrite Hk. apply H1.
  - destruct H2 as [p Hp2]. exists p. by apply Hp.
  - intros k p. rewrite Hk. apply H3.
  - intros k Hin. destruct (H4 k Hin) as [Hr [p Hq]]. split; [done|]. exists p. by apply Hp.
  - intros c1 c2 p. rewrite !Hp. apply H5.
Qed.

(** A new name space enters the cache under a path that is not there. *)
Lemma objs_ok_subns path s s' cap : objs_ok s -> register_obj (ns_new path) s = (s', cap) -> zlen path <= 255 ->
  find_cached_subns path s = None -> objs_ok (cache_subns cap s').
Proof.
  intros [H1 H2 H3 H4 H5] (Hn & Ho & Hs)%register_spec Hz Hf.
  assert (Hnew : ns_new path = O_ns path) by (unfold ns_new; rewrite take_ge; [done|unfold zlen in Hz; lia]). rewrite Hnew in Ho.
  assert (Hnp : forall k, k ∈ subns s -> prefix_of s k <> Some path).
  { intros k Hk Hp. unfold find_cached_subns in Hf. destruct (list_find _ _) eqn:El; [done|].
    apply list_find_None in El. rewrite list.Forall_forall in El. by apply (El k). }
  assert (Hk : forall k p, prefix_of (cache_subns cap s') k = Some p <-> (k = cap /\ p = path) \/ (k <> cap /\ prefix_of s k = Some p)).
  { intros k p. rewrite !prefix_of_Some. cbn. rewrite Ho. destruct (decide (cap = k)) as [<-|Hck].
    - rewrite lookup_insert_eq. naive_solver.
    - rewrite lookup_insert_ne by done. naive_solver. }
  assert (Hr : cap <> root). { intros ->. destruct H2 as [p Hp]. apply prefix_of_Some in Hp. congruence. }
  assert (Hc : cap ∉ subns s). { intros Hin. destruct (H4 cap Hin) as [_ [p Hp]]. apply prefix_of_Some in Hp. congruence. }
  split.
  - intros k p. rewrite <- prefix_of_Some, Hk, prefix_of_Some. intros [[_ ->]|[_ ?]]; [done|by eapply H1].
  - destruct H2 as [p Hp]. exists p. apply Hk. by right.
  - intros k p. rewrite <- prefix_of_Some, Hk, prefix_of_Some. cbn. rewrite Hs, elem_of_cons. intros [[-> _]|[_ Hp]]; [auto|].
    destruct (H3 k p Hp); auto.
  - intros k. cbn. rewrite Hs, elem_of_cons. intros [->|Hin]; [split; [done|]; exists path; apply Hk; by left|].
    destruct (H4 k Hin) as [Hkr [p Hp]]. split; [done|]. exists p. apply Hk. right. split; [by intros ->|done].
  - intros c1 c2 p. cbn. rewrite Hs, !elem_of_cons, !Hk. intros [->|I1] [->|I2]; [done|..]; intros A B.
    + destruct A as [[_ ->]|[? _]]; [|done]. destruct B as [[-> _]|[_ B]]; [done|by destruct (Hnp c2)].
    + destruct B as [[_ ->]|[? _]]; [|done]. destruct A as [[-> _]|[_ A]]; [done|by destruct (Hnp c1)].
    + destruct A as [[-> _]|[_ A]]; [done|]. destruct B as [[-> _]|[_ B]]; [done|]. by eapply H5.
Qed.

Lemma served_ok s : served s -> objs_ok s.
Proof.
  induction 1 as [|dirs r cap prefix name s s' a _ IH Hp Hn Hd Hq|cap v s _ IH Hv].
  - split; cbn.
    + intros k p Hk. apply lookup_singleton_Some in Hk as [_ [= <-]]. unfold zlen. cbn. lia.
    + by exists (str "/").
    + intros k p Hk. apply lookup_singleton_Some in Hk as [<- _]. by left.
    + intros k Hk. by apply not_elem_of_nil in Hk.
    + intros c1 c2 p Hk. by apply not_elem_of_nil in Hk.
  - unfold op_query in Hq. destruct (first_part name) as [part rest].
    destruct (_ || _); [by injection Hq as <- _|]. destruct (bool_decide _).
    { destruct (make_dirinfo _ _ _); cbn in Hq; by simplify_eq. }
    destruct (query_path prefix part) as [path| | | | |] eqn:Ep; cbn [mbind run_bind] in Hq; try done.
    destruct (dirs path) as [l|] eqn:Ed.
    + destruct (find_cached_subns path s) eqn:Ec; [by injection Hq as <- _|]. destruct (_ || _); [by injection Hq as <- _|].
      destruct (register_obj (ns_new path) s) as [s1 cap1] eqn:Er. rewrite Hn in Hq. injection Hq as <- _.
      eapply objs_ok_subns; [done..|by eapply Hd|done].
    + destruct (_ || _); [by injection Hq as <- _|]. destruct (register_obj _ s) as [s1 cap1] eqn:Er. injection Hq as <- _.
      by eapply objs_ok_new.
  - destruct IH as [H1 H2 H3 H4 H5].
    assert (Hk : forall k p, delete cap (objs s) !! k = Some (O_ns p) <-> objs s !! k = Some (O_ns p)).
    { intros k p. destruct (decide (cap = k)) as [<-|Hck]; [rewrite lookup_delete_eq; split; congruence|by rewrite lookup_delete_ne]. }
    assert (Hp : forall k p, prefix_of {| objs := delete cap (objs s); subns := subns s |} k = Some p <-> prefix_of s k = Some p)
      by (intros k p; rewrite !prefix_of_Some; apply Hk).
    split; cbn.
    + intros k p. rewrite Hk. apply H1.
    + destruct H2 as [p Hp2]. exists p. by apply Hp.
    + intros k p. rewrite Hk. apply H3.
    + intros k Hin. destruct (H4 k Hin) as [Hr [p Hq]]. split; [done|]. exists p. by apply Hp.
    + intros c1 c2 p. rewrite !Hp. apply H5.
Qed.

Lemma query_path_total prefix part : zlen prefix <= 255 -> zlen part <= 255 -> exists path, query_path prefix part = Ret path.
Proof.
  intros H1 H2. unfold query_path. fold (path_of prefix part). pose proof (zlen_path_of prefix part).
  replace (512 <=? _) with false by lia. by eexists.
Qed.

Lemma ds_size_nonneg l : 0 <= ds_size l.
Proof. unfold ds_size, round_page. apply Z.land_nonneg. left. apply uwrap_nonneg. lia. Qed.

Lemma make_dirinfo_total mem l1 l2 : exists a, make_dirinfo mem l1 l2 = Ret a.
Proof.
  unfold make_dirinfo. destruct l1 as [l|]; [|by eexists]. destruct mem; cbn [negb]; [|by eexists]. pose proof (ds_size_nonneg l).
  destruct l2 as [l2|]; [|by eexists].
  destruct (put_entries_safe (ds_size l) l2 0 (zeros (ds_size l))) as (m & -> & _); [lia|apply zlen_zeros; lia|by eexists].
Qed.

(** As long as the paths of directories fit a name space, there is one object for each
    directory that was visited, however often it is asked for and whatever memory is
    short; and no name leads out of a buffer. *)
Theorem one_object_per_directory s : served s ->
  (forall c1 c2 p, c1 <> root -> c2 <> root -> prefix_of s c1 = Some p -> prefix_of s c2 = Some p -> c1 = c2) /\
  forall dirs r cap prefix name, prefix_of s cap = Some prefix -> exists s' a, op_query dirs r prefix name s = Ret (s', a).
Proof.
  intros Hs. pose proof (served_ok s Hs) as [H1 H2 H3 H4 H5]. split.
  - intros c1 c2 p N1 N2 P1 P2. pose proof P1 as Q1. pose proof P2 as Q2. apply prefix_of_Some in Q1, Q2.
    destruct (H3 c1 p Q1), (H3 c2 p Q2); [done..|]. by eapply H5.
  - intros dirs r cap prefix name Hp. apply prefix_of_Some in Hp. pose proof (H1 cap prefix Hp) as Hz. unfold op_query.
    destruct (first_part name) as [part rest]. destruct (_ || _) eqn:El; [by eexists _, _|]. apply orb_false_iff in El as [_ El].
    destruct (bool_decide _).
    { destruct (make_dirinfo_total (bool_decide (is_Some (r_mem r))) (dirs prefix) (dirs prefix)) as [a ->]. by eexists _, _. }
    destruct (query_path_total prefix part) as [path ->]; [lia..|]. cbn [mbind run_bind].
    destruct (dirs path); [destruct (find_cached_subns path s)|]; [by eexists _, _| |]; destruct (_ || _); try (by eexists _, _).
Qed.

End Names.

(** ** Examples *)

Module Ns_example.

#[local] Existing Instance mem_ext4.

Abbreviation E := (mem_ext4 false).

Definition bin : bytes := str "/bin".
Definition entries : list dent :=
  [{| e_name := str "."; e_dir := true |}; {| e_name := str ".."; e_dir := true |};
   {| e_name := str "sh"; e_dir := false |}; {| e_name := str "lib"; e_dir := true |}].
Definition dirs (p : bytes) : option (list dent) := if bool_decide (p = bin \/ p = str "/") then Some entries else None.
Definition given : resources := {| r_new := true; r_reg := true; r_node := true; r_mem := None |}.

Lemma dirinfo_listing_witness :
  exists m, make_dirinfo true (Some entries) (Some entries) = Ret (inr m) /\
    read_dirinfo 5 m = [{| e_name := str "sh"; e_dir := false |}; {| e_name := str "lib"; e_dir := true |}].
Proof.
  destruct (dirinfo_listing entries) as [(m & H1 & _ & H2) _]; [repeat constructor; vm_compute; discriminate|reflexivity|].
  exists m. split; [exact H1|]. exact H2.
Defined.

Lemma names_resolve_witness :
  exists s' cap v, resolve (E := E) 2 dirs given root (str "bin/sh") ns_start = Ret (s', inr cap) /\
    objs s' !! cap = Some (O_file v) /\ v_path v = str "/bin/sh".
Proof.
  destruct (names_resolve (E := E) dirs given [str "bin"; str "sh"] root (str "/") ns_start) as (s' & cap & H1 & _ & v & H2 & H3).
  - done.
  - by repeat constructor.
  - done.
  - done.
  - by repeat constructor.
  - done.
  - split; [by eexists|]. by split.
  - done.
  - exists s', cap, v. split; [exact H1|]. split; [exact H2|exact H3].
Defined.

Definition after : ns_state (E := E) :=
  match op_query dirs given (str "/") (str "bin") ns_start with Ret (s, _) => s | _ => ns_start end.

Lemma one_object_per_directory_witness : served after /\ (forall c, c <> root -> prefix_of after c = Some bin -> c = 1%nat).
Proof.
  assert (Hs : served (E := E) after).
  { eapply (served_query dirs given root (str "/") (str "bin") ns_start); [constructor|reflexivity|reflexivity| |reflexivity].
    intros p l. unfold dirs. destruct (bool_decide _) eqn:Eb; [|done]. intros _. apply bool_decide_eq_true in Eb. by destruct Eb as [->| ->]. }
  split; [exact Hs|]. intros c Hc Hp. apply (proj1 (one_object_per_directory (E := E) after Hs) c 1%nat bin); [exact Hc|done|exact Hp|reflexivity].
Defined.

(** A directory whose path has 300 characters gets a new object at every query, with the path
    cut to 255 characters. *)
Definition deep : bytes := str "/" ++ replicate 149 97.
Definition long_name : bytes := replicate 149 98.
Definition long_dirs (p : bytes) : option (list dent) := if bool_decide (p = path_of deep long_name) then Some [] else None.
Definition deep_start : ns_state (E := E) := {| objs := {[root := ns_new deep]}; subns := [] |}.

Definition query_twice : option (option bytes * option bytes) :=
  match op_query long_dirs given deep long_name deep_start with
  | Ret (s, inr (A_cap c1 _)) =>
      match op_query long_dirs given deep long_name s with
      | Ret (s, inr (A_cap c2 _)) => if decide (c1 = c2) then None else Some (prefix_of s c1, prefix_of s c2)
      | _ => None
      end
  | _ => None
  end.

Example long_directory_repeats :
  query_twice = Some (Some (take 255 (path_of deep long_name)), Some (take 255 (path_of deep long_name))).
Proof. by vm_compute. Qed.

(** A file whose path has 300 characters is opened, and created, under the first 257 of them. *)
Example long_file_cut :
  match op_query (E := E) (fun _ => None) given deep long_name deep_start with
  | Ret (s, inr (A_cap c _)) => match objs s !! c with Some (O_file v) => v_path v = take 257 (path_of deep long_name) | _ => False end
  | _ => False
  end.
Proof. by vm_compute. Qed.

End Ns_example.
