(* ===== verification/Procfs.v ===== *)
(** * Generated files: /proc, /sys and /svc

    [src/pkg/procfs/src/procfs.cc]: files whose text is generated when they are opened, in
    flat directories, one of which has the directory of devices in it.  What the
    generators ask the system for is the record [sys]; [arch] is the string the
    compiler chooses. *)

From S2P Require Import Prelude TmpfsFile TmpfsDir Dirent TaskTable Spawnd.

(** ** Generators *)

Record sys := {
  s_clock : Z * Z;
  s_mem : option (Z * Z);
  s_cpus : option Z;
  s_spawnd : option (Z -> option (Z * Z * Z));
  s_online : bytes -> bool;
  s_cap : bytes -> bool
}.

Section Generators.
Context (arch : bytes).

Definition popcount (w : Z) : Z := zlen (filter (fun i => Z.testbit w i = true) (seqZ 0 64)).

Definition cpu_count (s : sys) : Z := match s_cpus s with Some map => popcount map | None => 1 end.

(** What a call of [snprintf] leaves in a buffer of [n] bytes, and its result. *)
Definition sprint (n : Z) (text : bytes) : bytes * Z := (snprintf_out (Z.to_nat n) text, zlen text).

(** The loops that append one line after another. *)
Fixpoint add_rows (n : Z) (rows : list bytes) (buf : bytes) (w : Z) : bytes * Z :=
  match rows with
  | [] => (buf, w)
  | row :: rows => if w <? n then add_rows n rows (buf ++ snprintf_out (Z.to_nat (n - w)) row) (w + zlen row) else (buf, w)
  end.

Definition gen_fn : Type := sys -> Z -> bytes * Z.

Definition gen_uptime : gen_fn := fun s n =>
  let '(sec, nsec) := s_clock s in sprint n (fmtd sec ++ str "." ++ fmtu 48 2 (nsec ÷ 10000000) ++ str " 0.00" ++ [10]).

Definition gen_meminfo : gen_fn := fun s n =>
  let '(limit, free) := default (0, 0) (s_mem s) in
  sprint n (str "MemTotal:    " ++ fmtu 32 8 (limit / 1024) ++ str " kB" ++ [10] ++
            str "MemFree:     " ++ fmtu 32 8 (free / 1024) ++ str " kB" ++ [10]).

Definition gen_version : gen_fn := fun s n => sprint n (str "TuringOS version Fiasco.OC/L4Re (" ++ arch ++ str ")" ++ [10]).

Definition cpu_row (i : Z) : bytes :=
  str "processor" ++ [9] ++ str ": " ++ fmtd i ++ [10] ++ str "architecture" ++ [9] ++ str ": " ++ arch ++ [10; 10].

Definition gen_cpuinfo : gen_fn := fun s n => add_rows n (cpu_row <$> seqZ 0 (cpu_count s)) [] 0.

Definition gen_cpu_online : gen_fn := fun s n =>
  let ncpu := cpu_count s in
  if ncpu <=? 1 then sprint n (str "0" ++ [10]) else sprint n (str "0-" ++ fmtd (ncpu - 1) ++ [10]).

(** [%-<w>s] *)
Definition fmts_left (w : nat) (s : bytes) : bytes := s ++ replicate (w - length s) 32.

Definition task_row (cpu_us state handle : Z) : bytes :=
  fmtu 32 6 handle ++ str "  " ++
  fmts_left 7 (if state =? 1 then str "RUNNING" else if state =? 2 then str "EXITED" else str "?") ++
  str "  " ++ fmtd cpu_us ++ [10].

Definition TASKS_HEAD : bytes := str "HANDLE  STATE    CPU_US" ++ [10].

Definition task_rows (stat : Z -> option (Z * Z * Z)) : list bytes :=
  omap (fun slot => '(cpu_us, state, handle) ← stat slot; Some (task_row cpu_us state handle)) (seqZ 0 32).

Definition gen_tasks : gen_fn := fun s n =>
  let '(buf, w) := sprint n TASKS_HEAD in
  match s_spawnd s with
  | None => (buf, w)
  | Some stat => add_rows n (task_rows stat) buf w
  end.

Record Dev_entry := { dev_name : bytes; dev_cls : bytes; dev_driver : bytes }.

Definition g_device_table : list Dev_entry :=
  [{| dev_name := str "temp0"; dev_cls := str "sensor"; dev_driver := str "rom/ds18b20-server" |};
   {| dev_name := str "radio0"; dev_cls := str "tuner"; dev_driver := str "rom/tef6686hn-server" |}].

Definition gen_device (e : Dev_entry) : gen_fn := fun s n =>
  sprint n (str "name:   " ++ dev_name e ++ [10] ++ str "class:  " ++ dev_cls e ++ [10] ++
            str "status: " ++ (if s_online s (dev_name e) then str "online" else str "offline") ++ [10] ++
            str "driver: " ++ dev_driver e ++ [10]).

Definition svc_line (name proto capname : bytes) : gen_fn := fun s n =>
  sprint n (fmts_left 8 name ++ str " " ++ fmts_left 16 proto ++ str " " ++
            (if s_cap s capname then str "up" else str "absent") ++ [10]).

(** ** [Gen_file] and [Dev_file]: they differ in the size of the buffer *)

Definition BUFSZ : Z := 8192.
Definition DEV_BUFSZ : Z := 1024.

Record gen_file := { gf_buf : option bytes; gf_size : Z }.

Definition gf_new (bufsz : Z) (mem : bool) (gen : gen_fn) (s : sys) : gen_file :=
  if negb mem then {| gf_buf := None; gf_size := 0 |}
  else
    let '(buf, w) := gen s bufsz in
    {| gf_buf := Some buf; gf_size := if w <? 0 then 0 else if bufsz <=? w then bufsz - 1 else w |}.

Fixpoint gf_read (lens : list Z) (off : Z) (size : Z) (buf : bytes) : run bytes :=
  match lens with
  | [] => Ret []
  | len :: lens =>
      if (off <? 0) || (size <=? off) then Ret []
      else
        let avail := size - off in
        let todo := if avail <? len then avail else len in
        if todo =? 0 then Ret []
        else
          bs ← or_oob (rd_bytes off todo buf);
          more ← gf_read lens (off + todo) size buf;
          Ret (bs ++ more)
  end.

Definition gf_preadv (lens : list Z) (off : Z) (f : gen_file) : run (errno + bytes) :=
  match gf_buf f with
  | None => Ret (inl EIO)
  | Some buf => bs ← gf_read lens off (gf_size f) buf; Ret (inr bs)
  end.

(** ** Directories *)

Definition O_WRONLY : Z := 1.
Definition O_RDWR : Z := 2.
Definition for_writing (flags : Z) : bool := negb (Z.land flags (Z.lor O_WRONLY O_RDWR) =? 0).
Definition W_OK : Z := 2.

(** What [get_entry] delivers: the directory, the directory in it, or a new file. *)
Inductive opened := P_self | P_sub | P_file (f : gen_file).

Definition has_slash (p : bytes) : bool := bool_decide (47 ∈ p).

(** [mem] tells whether the object could be allocated, and then whether its buffer could. *)
Definition new_file (bufsz : Z) (mem : option bool) (gen : gen_fn) (s : sys) : errno + opened :=
  match mem with None => inl ENOMEM | Some m => inr (P_file (gf_new bufsz m gen s)) end.

(** [Devices_dir] *)
Definition dev_get_entry (s : sys) (mem : option bool) (path : bytes) (flags : Z) : errno + opened :=
  match skip_slashes path with
  | [] => inr P_self
  | path =>
      if has_slash path then inl ENOENT
      else
        match list_find (fun e => dev_name e = path) g_device_table with
        | None => inl ENOENT
        | Some (_, e) => if for_writing flags then inl EACCESS else new_file DEV_BUFSZ mem (gen_device e) s
        end
  end.

Definition dev_faccessat (path : bytes) (mode : Z) : l4_ret :=
  match skip_slashes path with
  | [] => Ok
  | path =>
      if negb (Z.land mode W_OK =? 0) then Err EACCESS
      else if bool_decide (path ∈ dev_name <$> g_device_table) then Ok else Err ENOENT
  end.

(** [Gen_dir]; the directory in it, if any, is that of the devices, which could be
    allocated. *)
Record gen_dir := { g_nodes : list (bytes * gen_fn); g_subdir : option bytes }.

(** The name of the subdirectory is the first component of the path; the rest. *)
Definition in_subdir (sub path : bytes) : option bytes :=
  if bool_decide (take (length sub) path = sub)
  then match drop (length sub) path with
       | [] => Some []
       | c :: rest => if c =? 47 then Some (c :: rest) else None
       end
  else None.

Definition gen_get_entry (s : sys) (mem : option bool) (g : gen_dir) (path : bytes) (flags : Z) : errno + opened :=
  match skip_slashes path with
  | [] => inr P_self
  | path =>
      match (sub ← g_subdir g; in_subdir sub path) with
      | Some rest =>
          match skip_slashes rest with
          | [] => if for_writing flags then inl EACCESS else inr P_sub
          | rest => dev_get_entry s mem rest flags
          end
      | None =>
          if has_slash path then inl ENOENT
          else
            match list_find (fun n => fst n = path) (g_nodes g) with
            | None => inl ENOENT
            | Some (_, n) => if for_writing flags then inl EACCESS else new_file BUFSZ mem (snd n) s
            end
      end
  end.

Definition gen_faccessat (g : gen_dir) (path : bytes) (mode : Z) : l4_ret :=
  match skip_slashes path with
  | [] => Ok
  | path =>
      if negb (Z.land mode W_OK =? 0) then Err EACCESS
      else if bool_decide (g_subdir g = Some path) then Ok
      else if bool_decide (path ∈ fst <$> g_nodes g) then Ok else Err ENOENT
  end.

(** The records of a listing, and [getdents] at the position [_dent_pos]. *)
Definition gen_dent (type : Z) (name : bytes) : dirent :=
  {| de_ino := 1; de_off := 0; de_type := type; de_name := take 255 name |}.

Definition gen_dents (g : gen_dir) : list dirent :=
  (gen_dent DT_REG <$> (fst <$> g_nodes g)) ++ (gen_dent DT_DIR <$> option_list (g_subdir g)).

Definition gen_getdents (lsz : Z) (g : gen_dir) (buf : bytes) (pos : Z) : run (Z * bytes * Z) := dents_call lsz (gen_dents g) buf pos.

Definition dev_dents : list dirent := gen_dent DT_REG <$> (dev_name <$> g_device_table).

Definition dev_getdents (lsz : Z) (buf : bytes) (pos : Z) : run (Z * bytes * Z) := dents_call lsz dev_dents buf pos.

(** ** What is mounted *)

Definition proc : gen_dir := {|
  g_nodes := [(str "uptime", gen_uptime); (str "meminfo", gen_meminfo); (str "version", gen_version);
              (str "cpuinfo", gen_cpuinfo); (str "tasks", gen_tasks)];
  g_subdir := None |}.

Definition svc : gen_dir := {|
  g_nodes := [(str "authd", svc_line (str "authd") (str "Auth_svr/0x5905") (str "authd"));
              (str "spawnd", svc_line (str "spawnd") (str "Spawn_svr/0x5901") (str "spawnd"));
              (str "syslogd", svc_line (str "syslogd") (str "Klog_svr/0x5900") (str "syslogd"))];
  g_subdir := None |}.

Definition sys_dir : gen_dir := {|
  g_nodes := [(str "cpu_online", gen_cpu_online); (str "version", gen_version)];
  g_subdir := Some (str "devices") |}.

(** ** Reading a generated file *)

(** The generator prints [text] into buffers of any size: what fits before the NUL. *)
Definition prints (gen : gen_fn) (s : sys) (text : bytes) : Prop :=
  forall n, 0 < n -> exists w, gen s n = (take (Z.to_nat (n - 1)) text, w) /\ (w = zlen text \/ n <= w <= zlen text).

Lemma snprintf_take n text : 0 < n -> snprintf_out (Z.to_nat n) text = take (Z.to_nat (n - 1)) text.
Proof. intros H. unfold snprintf_out. f_equal. lia. Qed.

Lemma sprint_prints (gen : gen_fn) s text : (forall n, gen s n = sprint n text) -> prints gen s text.
Proof. intros H n Hn. exists (zlen text). rewrite H. unfold sprint. rewrite snprintf_take by done. by split; [|left]. Qed.

Lemma add_rows_prints n rows t : 0 < n ->
  exists w, add_rows n rows (take (Z.to_nat (n - 1)) t) (zlen t) = (take (Z.to_nat (n - 1)) (t ++ concat rows), w) /\
    (w = zlen (t ++ concat rows) \/ n <= w <= zlen (t ++ concat rows)).
Proof.
  intros Hn. revert t. induction rows as [|row rows IH]; intros t; cbn [add_rows concat].
  { exists (zlen t). rewrite app_nil_r. by split; [|left]. }
  pose proof (zlen_nonneg (row ++ concat rows)) as H0. destruct (zlen t <? n) eqn:E.
  - assert (Et : take (Z.to_nat (n - 1)) t ++ snprintf_out (Z.to_nat (n - zlen t)) row = take (Z.to_nat (n - 1)) (t ++ row)).
    { rewrite snprintf_take by lia. rewrite take_app. f_equal. f_equal. unfold zlen in *. lia. }
    rewrite Et, <- zlen_app, app_assoc. apply IH.
  - exists (zlen t). split; [f_equal; symmetry; apply take_app_le; unfold zlen in *; lia|]. right. rewrite zlen_app. lia.
Qed.

Lemma gen_cpuinfo_prints s : prints gen_cpuinfo s (concat (cpu_row <$> seqZ 0 (cpu_count s))).
Proof. intros n Hn. unfold gen_cpuinfo. destruct (add_rows_prints n (cpu_row <$> seqZ 0 (cpu_count s)) [] Hn) as (w & H1 & H2). rewrite take_nil in H1. by exists w. Qed.

Definition tasks_text (s : sys) : bytes := TASKS_HEAD ++ match s_spawnd s with Some stat => concat (task_rows stat) | None => [] end.

Lemma gen_tasks_prints s : prints gen_tasks s (tasks_text s).
Proof.
  intros n Hn. unfold gen_tasks, tasks_text, sprint. rewrite snprintf_take by done. destruct (s_spawnd s) as [stat|]; [by apply add_rows_prints|].
  exists (zlen TASKS_HEAD). rewrite app_nil_r. by split; [|left].
Qed.

(** What an opened file holds. *)
Lemma gf_new_holds bufsz gen s text : prints gen s text -> 0 < bufsz ->
  let c := take (Z.to_nat (bufsz - 1)) text in gf_new bufsz true gen s = {| gf_buf := Some c; gf_size := zlen c |}.
Proof.
  intros Hp Hb c. destruct (Hp bufsz Hb) as (w & E & Hw). unfold gf_new. cbn [negb]. rewrite E. fold c. f_equal.
  assert (zlen c = Z.min (bufsz - 1) (zlen text)) as -> by (unfold c, zlen; rewrite length_take; lia).
  pose proof (zlen_nonneg text). split_ifs; lia.
Qed.

Lemma gf_read_spec lens : forall off c, Forall (fun l => 0 < l) lens -> 0 <= off ->
  gf_read lens off (zlen c) c = Ret (file_read off (total_len lens) c).
Proof.
  induction lens as [|len lens IH]; intros off c HF Ho; cbn [gf_read total_len].
  { unfold file_read. by rewrite take_0. }
  apply list.Forall_cons in HF as [Hl HF]. pose proof (total_len_nonneg _ HF). pose proof (zlen_nonneg c).
  replace (off <? 0) with false by lia. cbn [orb]. destruct (zlen c <=? off) eqn:E.
  { unfold file_read. rewrite drop_ge, take_nil; [done|unfold zlen in *; lia]. }
  set (todo := if zlen c - off <? len then zlen c - off else len).
  assert (Ht : todo = Z.min (zlen c - off) len) by (unfold todo; split_if; lia). replace (todo =? 0) with false by lia.
  assert (rd_bytes off todo c = Some (file_read off todo c)) as ->.
  { unfold rd_bytes. rewrite !(proj2 (Z.leb_le _ _)) by lia. done. }
  cbn [or_oob mbind run_bind]. rewrite IH by (done || lia). cbn [mbind run_bind].
  destruct (decide (len <= zlen c - off)) as [Hle|Hgt].
  - replace todo with len by lia. by rewrite file_read_app by lia.
  - rewrite <- file_read_app by lia. f_equal. unfold file_read. rewrite !take_ge; [done|..]; rewrite length_drop; unfold zlen in *; lia.
Qed.

(** A generated file reads as the text its generator printed when it was opened, up to the
    size of its buffer, with any sequence of non-empty buffers. *)
Theorem generated_file_reads bufsz gen s text lens off : prints gen s text -> 0 < bufsz ->
  Forall (fun l => 0 < l) lens -> 0 <= off ->
  gf_preadv lens off (gf_new bufsz true gen s) = Ret (inr (file_read off (total_len lens) (take (Z.to_nat (bufsz - 1)) text))).
Proof. intros Hp Hb HF Ho. rewrite (gf_new_holds bufsz gen s text Hp Hb). unfold gf_preadv. cbn [gf_buf gf_size]. by rewrite gf_read_spec. Qed.

(** ** The list of tasks *)

(** The row of a slot of the process server's table. *)
Definition slot_row (cpu : Z -> Z) (i : nat) (c : Child_task) : bytes :=
  match t_state c with
  | RUNNING => task_row (cpu (Z.of_nat i)) 1 (t_handle c)
  | EXITED => task_row (cpu (Z.of_nat i)) 2 (t_handle c)
  | _ => []
  end.

Definition stat_from (t : Task_table) (cpu : Z -> Z) (slot : Z) : option (Z * Z * Z) :=
  '(st, h) ← task_stat slot t; Some (cpu slot, st, h).

Lemma concat_omap {A} (f : A -> option bytes) (l : list A) : concat (omap f l) = concat ((fun x => default [] (f x)) <$> l).
Proof. induction l as [|x l IH]; [done|]. cbn. destruct (f x); cbn; by rewrite IH. Qed.

Lemma task_rows_slots t cpu : length (_tasks t) = MAX ->
  concat (task_rows (stat_from t cpu)) = concat (imap (slot_row cpu) (_tasks t)).
Proof.
  intros Hl. unfold task_rows. rewrite concat_omap. f_equal. apply list_eq. intros i.
  rewrite list_lookup_fmap, list_lookup_imap. destruct (decide (i < 32)%nat) as [Hi|Hi].
  - destruct (lookup_lt_is_Some_2 (_tasks t) i) as [c Hc]; [rewrite Hl; unfold MAX; lia|]. rewrite Hc.
    rewrite lookup_seqZ_lt by lia. cbn [fmap option_fmap option_map]. f_equal. unfold stat_from, task_stat, at_.
    rewrite Z.add_0_l, swrap_small by lia. replace ((Z.of_nat i <? 0) || (Z.of_nat MAX <=? Z.of_nat i)) with false
      by (symmetry; apply orb_false_intro; [apply Z.ltb_ge|apply Z.leb_gt; unfold MAX]; lia).
    rewrite Nat2Z.id, Hc. unfold slot_row. by destruct (t_state c).
  - rewrite lookup_seqZ_ge by lia. rewrite lookup_ge_None_2; [done|]. rewrite Hl. unfold MAX. lia.
Qed.

Lemma zlen_task_row cpu_us st h : 0 <= cpu_us < 2 ^ 64 -> 0 <= h < 2 ^ 32 -> st = 1 \/ st = 2 -> zlen (task_row cpu_us st h) <= 42.
Proof.
  intros Hc Hh Hst. unfold task_row. rewrite !zlen_app.
  assert (H1 : zlen (fmtu 32 6 h) <= 10).
  { pose proof (length_fmtu 32 6 h 10 (length_fmtd h 10 ltac:(lia) ltac:(lia)) ltac:(lia)). unfold zlen. lia. }
  assert (H2 : zlen (fmtd cpu_us) <= 20) by (pose proof (length_fmtd cpu_us 20 ltac:(lia) ltac:(lia)); unfold zlen; lia).
  assert (H3 : zlen (fmts_left 7 (if st =? 1 then str "RUNNING" else if st =? 2 then str "EXITED" else str "?")) = 7)
    by (by destruct Hst as [->| ->]).
  rewrite H3. change (zlen (str "  ")) with 2. change (zlen [10]) with 1. lia.
Qed.

Lemma zlen_concat_le (rows : list bytes) k : 0 <= k -> Forall (fun r => zlen r <= k) rows -> zlen (concat rows) <= k * zlen rows.
Proof. intros Hk. induction 1 as [|r rows Hr _ IH]; cbn [concat]; [unfold zlen; cbn; lia|]. rewrite zlen_app, zlen_cons. lia. Qed.

(** Opening and reading [/proc/tasks] shows one row for each process that runs or has
    ended, in the order of the process server's table, with its handle, state and time;
    no number of tasks is too much for the buffer. *)
Theorem tasks_file_complete s t cpu buf : s_spawnd s = Some (stat_from t cpu) -> length (_tasks t) = MAX ->
  Forall (fun c => 0 <= t_handle c < 2 ^ 32) (_tasks t) -> (forall i, 0 <= cpu i < 2 ^ 64) -> BUFSZ <= buf ->
  exists f, gen_get_entry s (Some true) proc (str "tasks") 0 = inr (P_file f) /\
    gf_preadv [buf] 0 f = Ret (inr (TASKS_HEAD ++ concat (imap (slot_row cpu) (_tasks t)))).
Proof.
  intros Hs Hl Hh Hc Hb. exists (gf_new BUFSZ true gen_tasks s). split; [reflexivity|].
  rewrite (generated_file_reads BUFSZ gen_tasks s (tasks_text s)) by (apply gen_tasks_prints || done || (unfold BUFSZ in *; repeat constructor; lia)).
  do 2 f_equal. unfold tasks_text. rewrite Hs, task_rows_slots by done.
  assert (Hz : zlen (concat (imap (slot_row cpu) (_tasks t))) <= 42 * 32).
  { transitivity (42 * zlen (imap (slot_row cpu) (_tasks t))); [|unfold zlen; rewrite length_imap, Hl; unfold MAX; lia].
    apply zlen_concat_le; [lia|]. apply list.Forall_forall. intros r (i & c & -> & Hi)%elem_of_lookup_imap.
    rewrite list.Forall_forall in Hh. specialize (Hh c ltac:(by eapply list_elem_of_lookup_2)). unfold slot_row.
    destruct (t_state c); try done; apply zlen_task_row; auto. }
  set (text := TASKS_HEAD ++ _). assert (Hzt : zlen text <= 2000).
  { unfold text. rewrite zlen_app. change (zlen TASKS_HEAD) with 24. lia. }
  unfold BUFSZ in *. cbn [total_len]. rewrite (take_ge text) by (unfold zlen in Hzt; lia). unfold file_read. cbn [Z.to_nat drop].
  apply take_ge. unfold zlen in Hzt. lia.
Qed.

(** ** What is listed can be opened *)

Record dir_ok (g : gen_dir) : Prop := {
  do_names : Forall (fun n => n <> [] /\ 47 ∉ n /\ Forall (fun c => c <> 0) n /\ zlen n <= 255) (fst <$> g_nodes g);
  do_sub : forall sub, g_subdir g = Some sub -> sub <> [] /\ 47 ∉ sub /\ Forall (fun c => c <> 0) sub /\ zlen sub <= 255
}.

Lemma skip_name (n : bytes) : n <> [] -> 47 ∉ n -> skip_slashes n = n.
Proof. intros Hn Hs. destruct n as [|c n]; [done|]. cbn. unfold slash. destruct (c =? 47) eqn:E; [|done]. destruct Hs. apply Z.eqb_eq in E. subst. by left. Qed.

Lemma in_subdir_name sub n : 47 ∉ n -> in_subdir sub n = if bool_decide (n = sub) then Some [] else None.
Proof.
  intros Hs. unfold in_subdir. case_bool_decide as Ht.
  - destruct (drop (length sub) n) as [|c r] eqn:Ed.
    + rewrite bool_decide_eq_true_2; [done|]. rewrite <- (take_drop (length sub) n), Ht, Ed. by rewrite app_nil_r.
    + rewrite bool_decide_eq_false_2 by (intros ->; by rewrite drop_all in Ed).
      destruct (c =? 47) eqn:E; [|done]. destruct Hs. apply Z.eqb_eq in E. subst c.
      rewrite <- (take_drop (length sub) n), Ed. apply elem_of_app. right. by left.
  - rewrite bool_decide_eq_false_2; [done|]. intros ->. apply Ht. by rewrite firstn_all.
Qed.

Lemma gen_dent_short type n : in_u 8 type -> Forall (fun c => c <> 0) n -> zlen n <= 255 -> short_dent (gen_dent type n).
Proof.
  intros Ht Hn Hl. assert (zlen (take 255 n) <= 255) by (unfold zlen; rewrite length_take; lia).
  split; [|done]. split; cbn; [done|done|done|by apply Forall_take|lia].
Qed.

Lemma gen_dents_names g name : dir_ok g -> name ∈ de_name <$> gen_dents g <-> g_subdir g = Some name \/ name ∈ fst <$> g_nodes g.
Proof.
  intros [Hn Hsub]. unfold gen_dents. rewrite fmap_app, elem_of_app, <- !list_fmap_compose.
  assert (H1 : (de_name ∘ (gen_dent DT_REG ∘ fst)) <$> g_nodes g = fst <$> g_nodes g).
  { apply list_fmap_ext. intros k x Hx. cbn. rewrite list.Forall_forall in Hn.
    destruct (Hn (fst x)) as (_ & _ & _ & Hz); [apply list_elem_of_fmap_2; by eapply list_elem_of_lookup_2|].
    apply take_ge. unfold zlen in Hz. lia. }
  rewrite list_fmap_compose in H1. rewrite <- !list_fmap_compose in H1. unfold compose in *. rewrite H1.
  destruct (g_subdir g) as [sub|]; cbn.
  - destruct (Hsub sub eq_refl) as (_ & _ & _ & Hz). rewrite take_ge by (unfold zlen in Hz; lia). rewrite list_elem_of_singleton. naive_solver.
  - rewrite elem_of_nil. naive_solver.
Qed.

(** The files and directories a listing shows are those that can be opened by a single
    name, for reading and not for writing; the listing shows each of them once. *)
Theorem listed_iff_opens lsz g s buf name : lsz = 4 \/ lsz = 8 -> dir_ok g -> 288 <= zlen buf -> name <> [] -> 47 ∉ name ->
  zlen name <= 255 ->
  dents_all lsz (S (length (gen_dents g))) (gen_dents g) buf 0 = Ret (0, gen_dents g) /\
  (name ∈ de_name <$> gen_dents g <-> exists o, gen_get_entry s (Some true) g name 0 = inr o) /\
  (name ∈ de_name <$> gen_dents g <-> gen_get_entry s (Some true) g name O_RDWR = inl EACCESS) /\
  (name ∈ de_name <$> gen_dents g <-> gen_faccessat g name 0 = Ok).
Proof.
  intros Hlsz [Hn Hsub] Hb Hne Hsl Hlen.
  assert (Hshort : Forall short_dent (gen_dents g)).
  { unfold gen_dents. apply list.Forall_app. split; apply Forall_fmap.
    - eapply list.Forall_impl; [exact Hn|]. intros n (H1 & H2 & H3 & H4). by apply gen_dent_short.
    - destruct (g_subdir g) as [sub|]; [|constructor]. destruct (Hsub sub eq_refl) as (H1 & H2 & H3 & H4). constructor; [|constructor].
      by apply gen_dent_short. }
  split. { apply dents_all_spec; [done|done|done|pose proof (zlen_nonneg (gen_dents g)); lia|unfold zlen; lia]. }
  assert (Hin : name ∈ de_name <$> gen_dents g <-> g_subdir g = Some name \/ name ∈ fst <$> g_nodes g) by (by apply gen_dents_names).
  rewrite Hin.
  assert (Hsd : (sub ← g_subdir g; in_subdir sub name) = if bool_decide (g_subdir g = Some name) then Some [] else None).
  { destruct (g_subdir g) as [sub|]; [|done]. cbn. rewrite in_subdir_name by done. by rewrite (bool_decide_ext (name = sub) (Some sub = Some name)) by naive_solver. }
  assert (Hf : forall flags, gen_get_entry s (Some true) g name flags =
    if bool_decide (g_subdir g = Some name) then (if for_writing flags then inl EACCESS else inr P_sub)
    else match list_find (fun n => fst n = name) (g_nodes g) with
         | None => inl ENOENT
         | Some (_, n) => if for_writing flags then inl EACCESS else inr (P_file (gf_new BUFSZ true (snd n) s))
         end).
  { intros flags. unfold gen_get_entry. rewrite skip_name by done. destruct name as [|c0 name0] eqn:En; [done|]. rewrite <- En in *.
    rewrite Hsd. destruct (bool_decide _); [done|]. unfold has_slash. by rewrite bool_decide_eq_false_2. }
  assert (Hl : name ∈ fst <$> g_nodes g <-> is_Some (list_find (fun n => fst n = name) (g_nodes g))).
  { rewrite list_elem_of_fmap. split.
    - intros (n & -> & Hn'). destruct (list_elem_of_lookup_1 _ _ Hn') as [k Hk]. by eapply list_find_elem_of.
    - intros [[k n] (Hk & Hn' & _)%list_find_Some]. exists n. split; [done|]. by eapply list_elem_of_lookup_2. }
  rewrite !Hf. unfold gen_faccessat. rewrite skip_name by done. destruct name as [|c0 name0] eqn:En; [done|]. rewrite <- En in *.
  destruct (bool_decide (g_subdir g = Some name)) eqn:Eb.
  - apply bool_decide_eq_true in Eb. cbn. naive_solver.
  - apply bool_decide_eq_false in Eb. cbn. case_bool_decide as Hm.
    + destruct (proj1 Hl Hm) as [[k n] ->]. cbn. naive_solver.
    + destruct (list_find _ _) as [[k n]|]; [destruct Hm; by apply Hl|]. naive_solver.
Qed.


End Generators.

Module Proc_example.

Definition arch : bytes := str "aarch64".
Definition t1 : Task_table := table Spawnd_example.s4.
Definition now : sys := {|
  s_clock := (5, 70000000); s_mem := None; s_cpus := Some 3; s_spawnd := Some (stat_from t1 (fun _ => 12));
  s_online := fun _ => true; s_cap := fun _ => true |}.

Lemma generated_file_reads_witness :
  gf_preadv [4; 4] 8 (gf_new 64 true (gen_version arch) now) = Ret (inr (str " version")).
Proof.
  rewrite (generated_file_reads 64 (gen_version arch) now (str "TuringOS version Fiasco.OC/L4Re (aarch64)" ++ [10]));
    [reflexivity|apply sprint_prints; intros n; reflexivity|lia|repeat constructor; lia|lia].
Defined.

Lemma tasks_file_complete_witness :
  exists f, gen_get_entry now (Some true) (proc arch) (str "tasks") 0 = inr (P_file f) /\
    gf_preadv [8192] 0 f = Ret (inr (TASKS_HEAD ++ str "     1  RUNNING  12" ++ [10])).
Proof.
  destruct (tasks_file_complete arch now t1 (fun _ => 12) 8192) as (f & H1 & H2);
    [reflexivity|reflexivity| |lia|unfold BUFSZ; lia|].
  - apply list.Forall_forall. intros c Hc. vm_compute in Hc. repeat (apply elem_of_cons in Hc as [->|Hc]; [cbn; lia|]).
    by apply elem_of_nil in Hc.
  - exists f. split; [exact H1|]. rewrite H2. reflexivity.
Defined.

Lemma sys_dir_ok : dir_ok (sys_dir arch).
Proof.
  assert (Hok : forall n, n ∈ [str "cpu_online"; str "version"; str "devices"] ->
    n <> [] /\ 47 ∉ n /\ Forall (fun c => c <> 0) n /\ zlen n <= 255).
  { intros n Hn. rewrite !elem_of_cons, elem_of_nil in Hn.
    destruct Hn as [->|[->|[->|[]]]]; (refine (bool_decide_unpack _ _); by vm_compute). }
  split.
  - apply list.Forall_forall. intros n Hn. apply Hok. cbn in Hn. set_solver.
  - intros sub [= <-]. apply Hok. set_solver.
Qed.

Lemma listed_iff_opens_witness :
  (str "devices" ∈ de_name <$> gen_dents (sys_dir arch) <-> exists o, gen_get_entry now (Some true) (sys_dir arch) (str "devices") 0 = inr o).
Proof.
  apply (listed_iff_opens 8 (sys_dir arch) now (replicate 288 0) (str "devices"));
    [by right|apply sys_dir_ok|done|done| |done]. refine (bool_decide_unpack _ _); by vm_compute.
Defined.

(** A device can be opened but not tested for access. *)
Example nested_access :
  (exists f, gen_get_entry now (Some true) (sys_dir arch) (str "devices/temp0") 0 = inr (P_file f)) /\
  gen_faccessat (sys_dir arch) (str "devices/temp0") 0 = Err ENOENT.
Proof. split; [by eexists|by vm_compute]. Qed.

(** The directory itself passes as writable. *)
Example root_writable : gen_faccessat (proc arch) [] W_OK = Ok.
Proof. reflexivity. Qed.

(** An empty buffer ends a read although others follow. *)
Example empty_buffer_ends : gf_preadv [0; 4] 0 (gf_new 64 true (gen_version arch) now) = Ret (inr []).
Proof. reflexivity. Qed.

End Proc_example.
