(* ===== verification/LoadElf.v ===== *)
(** * The ELF loader of the 32-bit boot stage

    [pkg/bootstrap/server/src/ARCH-amd64/boot32/load_elf.c]: the 64-bit stage is an
    ELF file inside the image of the 32-bit stage.  Its segments are copied to the
    addresses they are linked to when these are free, and otherwise to a block from
    [MmAlloc], with the relocations applied.

    The machine runs without paging, so memory is a function from 32-bit addresses to
    bytes; pointers are addresses and wrap at 32 bits.  The tables of the file are
    read from that memory while the loader writes to it.  The layout of the ELF
    structures belongs to a header outside of the repository: the class [Elf64] reads
    them, and its laws say which bytes a structure depends on. *)

From S2P Require Import Prelude L4Round Reservations MmAlloc.

Abbreviation mem32 := (Z -> Z) (only parsing).

(** ** Memory *)

(** [memcpy] of disjoint blocks and [memset]; addresses wrap. *)
Definition memcpy32 (dst src n : Z) (m : mem32) : mem32 := fun x =>
  if u32 (x - dst) <? n then m (u32 (src + u32 (x - dst))) else m x.

Definition memset32 (dst c n : Z) (m : mem32) : mem32 := fun x =>
  if u32 (x - dst) <? n then c else m x.

(** Store of an [Elf64_Addr]. *)
Definition wr64 (a v : Z) (m : mem32) : mem32 := fun x =>
  if u32 (x - a) <? 8 then (v / 256 ^ u32 (x - a)) mod 256 else m x.

(** ** ELF structures *)

Record Ehdr := {
  e_mag : bytes; e_class : Z; e_machine : Z; e_entry : Z;
  e_phoff : Z; e_shoff : Z; e_phnum : Z; e_shnum : Z;
}.
Record Phdr := {
  p_type : Z; p_offset : Z; p_paddr : Z; p_filesz : Z; p_memsz : Z; p_align : Z;
}.
Record Shdr := { sh_type : Z; sh_offset : Z; sh_size : Z }.
Record Rela := { r_offset : Z; r_info : Z; r_addend : Z }.

Definition ELFMAG : bytes := [0x7f; 69; 76; 70].
Definition ELFCLASS64 : Z := 2.
Definition EM_X86_64 : Z := 62.
Definition PT_LOAD : Z := 1.
Definition SHT_RELA : Z := 4.
Definition SHT_REL : Z := 9.
Definition R_X86_64_RELATIVE : Z := 8.
Definition ELF64_R_TYPE (i : Z) : Z := Z.land i 0xffffffff.

Class Elf64 := {
  sizeof_Ehdr : Z; sizeof_Phdr : Z; sizeof_Shdr : Z; sizeof_Rela : Z;
  rd_ehdr : mem32 -> Z -> Ehdr;
  rd_phdr : mem32 -> Z -> Phdr;
  rd_shdr : mem32 -> Z -> Shdr;
  rd_rela : mem32 -> Z -> Rela;
}.

(** Two memories agree on [n] bytes from [a]. *)
Definition agree (a n : Z) (m m' : mem32) : Prop := forall x, a <= x < a + n -> m x = m' x.

Class Elf64_laws `{!Elf64} : Prop := {
  sizes_pos : 0 < sizeof_Ehdr /\ 0 < sizeof_Phdr /\ 0 < sizeof_Shdr /\ 0 < sizeof_Rela;
  rd_ehdr_frame m m' a : agree a sizeof_Ehdr m m' -> rd_ehdr m a = rd_ehdr m' a;
  rd_phdr_frame m m' a : agree a sizeof_Phdr m m' -> rd_phdr m a = rd_phdr m' a;
  rd_shdr_frame m m' a : agree a sizeof_Shdr m m' -> rd_shdr m a = rd_shdr m' a;
  rd_rela_frame m m' a : agree a sizeof_Rela m m' -> rd_rela m a = rd_rela m' a;
}.

Section Load_elf.
Context `{!Elf64} `{!L4_round 32} `{!Mb_mmap}.

(** ** Headers *)

Definition sanity_elf (eh : Ehdr) : bool :=
  bool_decide (e_mag eh = ELFMAG) && (e_class eh =? ELFCLASS64) && (e_machine eh =? EM_X86_64).

(** The program headers, from [_elf + eh->e_phoff] on. *)
Definition ph_addr (m : mem32) (elf : Z) (i : Z) : Z :=
  u32 (elf + e_phoff (rd_ehdr m elf) + i * sizeof_Phdr).

Definition phdrs (m : mem32) (elf : Z) : list Phdr :=
  (fun i => rd_phdr m (ph_addr m elf (Z.of_nat i))) <$> seq 0 (Z.to_nat (e_phnum (rd_ehdr m elf))).

Definition is_load (ph : Phdr) : bool := p_type ph =? PT_LOAD.

(** The areas [reserve_elf] adds. *)
Definition elf_areas (m : mem32) (elf : Z) : list (Z * Z) :=
  (fun ph => (u32 (p_paddr ph), u32 (p_memsz ph))) <$> filter (fun ph => is_load ph = true) (phdrs m elf).

Fixpoint reserve_areas (areas : list (Z * Z)) (l : list Area) : run (list Area) :=
  match areas with
  | [] => Ret l
  | (start, size) :: areas => l ← reservation_add start size l; reserve_areas areas l
  end.

Definition reserve_elf (m : mem32) (elf : Z) (l : list Area) : run (list Area) :=
  if negb (sanity_elf (rd_ehdr m elf)) then Panicked else reserve_areas (elf_areas m elf) l.

(** ** Where to load *)

Definition usable_range (resv : list Area) (start size : Z) : bool :=
  is_range_in_4g start size && (overlaps_reservation resv (u32 start) (u32 size) =? 0).

(** The variables of the first loop. *)
Record scan := { min_addr : Z; max_addr : Z; max_align : Z; need_reloc : bool }.

Definition scan0 : scan :=
  {| min_addr := 2 ^ 64 - 1; max_addr := 0; max_align := 0; need_reloc := false |}.

Definition scan_phdr (resv : list Area) (s : scan) (ph : Phdr) : scan :=
  if negb (is_load ph) then s
  else
    {| min_addr := if p_paddr ph <? min_addr s then p_paddr ph else min_addr s;
       max_addr := if max_addr s <? p_paddr ph +[64] p_memsz ph
                   then p_paddr ph +[64] p_memsz ph else max_addr s;
       max_align := if (max_align s <? p_align ph) && (1 <? p_align ph)
                    then u32 (p_align ph) else max_align s;
       need_reloc := need_reloc s || negb (usable_range resv (p_paddr ph) (p_memsz ph)) |}.

Definition scan_elf (resv : list Area) (m : mem32) (elf : Z) : scan :=
  foldl (scan_phdr resv) scan0 (phdrs m elf).

(** [min_addr &= ~( max_align - 1 )], in 32 bits. *)
Definition reloc_base (s : scan) : Z :=
  Z.land (min_addr s) (u32 (Z.lnot (u32 (max_align s - 1)))).

(** ** Loading the segments *)

Definition load_phdr (elf reloc : Z) (ph : Phdr) (m : mem32) : run mem32 :=
  let target := u32 (p_paddr ph + reloc) in
  if negb (is_range_in_4g elf (p_offset ph)) then Panicked
  else
    let m := memcpy32 target (u32 (elf + p_offset ph)) (u32 (p_filesz ph)) m in
    Ret (if p_filesz ph <? p_memsz ph
         then memset32 (u32 (target + p_filesz ph)) 0 (u32 (p_memsz ph - p_filesz ph)) m
         else m).

Fixpoint load_loop (fuel : nat) (i ph elf reloc : Z) (m : mem32) : run mem32 :=
  match fuel with
  | O => Fuel_out
  | S fuel =>
      if negb (i <? e_phnum (rd_ehdr m elf)) then Ret m
      else
        m ← (if is_load (rd_phdr m ph) then load_phdr elf reloc (rd_phdr m ph) m else Ret m);
        load_loop fuel (i + 1) (ph +[32] sizeof_Phdr) elf reloc m
  end.

(** ** Relocations *)

Definition relocate_rela_entry (rel : Rela) (offset : Z) (m : mem32) : run mem32 :=
  let reloc_addr := u32 (r_offset rel + offset) in
  if ELF64_R_TYPE (r_info rel) =? R_X86_64_RELATIVE
  then Ret (wr64 reloc_addr (u64 (r_addend rel + offset)) m)
  else Panicked.

(** The table of one section header at [sh]. *)
Fixpoint rela_loop (fuel : nat) (rel sh elf reloc : Z) (m : mem32) : run mem32 :=
  match fuel with
  | O => Fuel_out
  | S fuel =>
      let s := rd_shdr m sh in
      if negb (rel <? u32 (elf + sh_offset s + sh_size s)) then Ret m
      else
        m ← relocate_rela_entry (rd_rela m rel) reloc m;
        rela_loop fuel (rel +[32] sizeof_Rela) sh elf reloc m
  end.

Fixpoint shdr_loop (fuel rfuel : nat) (j sh elf reloc : Z) (m : mem32) : run mem32 :=
  match fuel with
  | O => Fuel_out
  | S fuel =>
      if negb (j <? e_shnum (rd_ehdr m elf)) then Ret m
      else
        let s := rd_shdr m sh in
        m ← (if sh_type s =? SHT_RELA then rela_loop rfuel (u32 (elf + sh_offset s)) sh elf reloc m
             else if sh_type s =? SHT_REL then Panicked
             else Ret m);
        shdr_loop fuel rfuel (j + 1) (sh +[32] sizeof_Shdr) elf reloc m
  end.

(** [load_elf]: [alloc] is [mm_alloc_alloc] when the allocator is linked.  The result
    is the entry point. *)
Definition load_elf (fuel rfuel : nat) (alloc : option (Z -> mm_alloc_state -> run (Z * mm_alloc_state)))
  (resv : list Area) (elf : Z) (st : mm_alloc_state) (m : mem32) : run (Z * mm_alloc_state * mem32) :=
  let eh := rd_ehdr m elf in
  if negb (sanity_elf eh) then Panicked
  else
    let s := scan_elf resv m elf in
    '(reloc, st) ←
      (if need_reloc s then
         match alloc with
         | None => Panicked
         | Some mm_alloc_alloc =>
             '(alloc_base, st) ← mm_alloc_alloc (u32 (max_addr s - reloc_base s)) st;
             if alloc_base =? 0 then Panicked else Ret (s64 (alloc_base - reloc_base s), st)
         end
       else Ret (0, st));
    m ← load_loop fuel 0 (u32 (elf + e_phoff eh)) elf reloc m;
    m ← (if negb (reloc =? 0) then shdr_loop fuel rfuel 0 (u32 (elf + e_shoff eh)) elf reloc m else Ret m);
    Ret (u32 (e_entry (rd_ehdr m elf) + reloc), st, m).

End Load_elf.

(** ** Reference: what a loaded file looks like *)

(** One segment: the bytes of the file, then zeros. *)
Definition seg_image (m0 : mem32) (elf reloc : Z) (f : mem32) (ph : Phdr) : mem32 := fun x =>
  let i := x - (p_paddr ph + reloc) in
  if (0 <=? i) && (i <? p_filesz ph) then m0 (elf + p_offset ph + i)
  else if (0 <=? i) && (i <? p_memsz ph) then 0
  else f x.

Definition load_image (m0 : mem32) (elf reloc : Z) (phs : list Phdr) (f : mem32) : mem32 :=
  foldl (seg_image m0 elf reloc) f (filter (fun ph => is_load ph = true) phs).

(** One relative relocation: the word holds the moved address. *)
Definition rela_image (reloc : Z) (f : mem32) (rel : Rela) : mem32 := fun x =>
  let i := x - (r_offset rel + reloc) in
  if (0 <=? i) && (i <? 8) then (u64 (r_addend rel + reloc) / 256 ^ i) mod 256 else f x.

(** Equality of memories. *)
Definition mem_eq (m m' : mem32) : Prop := agree 0 (2 ^ 32) m m'.

#[global] Instance mem_eq_equiv : Equivalence mem_eq.
Proof.
  unfold mem_eq, agree. split; [done|intros m m' H x Hx; by rewrite H|].
  intros m1 m2 m3 H1 H2 x Hx. by rewrite H1, H2.
Qed.

#[global] Instance seg_image_proper m0 elf reloc :
  Proper (mem_eq ==> eq ==> mem_eq) (seg_image m0 elf reloc).
Proof. intros f f' Hf ph _ <- x Hx. unfold seg_image. split_ifs; try done. by apply Hf. Qed.

#[global] Instance rela_image_proper reloc : Proper (mem_eq ==> eq ==> mem_eq) (rela_image reloc).
Proof. intros f f' Hf rel _ <- x Hx. unfold rela_image. split_ifs; [done|]. by apply Hf. Qed.

Lemma foldl_mem_eq {A} (step : mem32 -> A -> mem32) (l : list A) f f' :
  Proper (mem_eq ==> eq ==> mem_eq) step -> mem_eq f f' -> mem_eq (foldl step f l) (foldl step f' l).
Proof. intros Hp. revert f f'. induction l as [|a l IH]; intros f f' Hf; [done|]. cbn. apply IH. by apply Hp. Qed.

(** A block of memory that ends in the address space. *)
Lemma u32_in_block x t n : 0 <= x < 2 ^ 32 -> 0 <= t -> 0 <= n -> t + n <= 2 ^ 32 ->
  (u32 (x - t) <? n) = (0 <=? x - t) && (x - t <? n) /\ (0 <= x - t -> u32 (x - t) = x - t).
Proof.
  intros Hx Ht Hn Hl. destruct (Z.le_gt_cases t x).
  - rewrite uwrap_small by (unfold in_u; lia). split; [|done]. lia.
  - rewrite (uwrap_under 32) by lia. split; lia.
Qed.

Lemma agree_sub a n b k m m' : agree a n m m' -> a <= b -> b + k <= a + n -> agree b k m m'.
Proof. intros H Hb Hk x Hx. apply H. lia. Qed.

(** The stores of the loader on blocks inside of the address space. *)
Lemma wr64_image reloc rel m :
  0 <= r_offset rel + reloc -> r_offset rel + reloc + 8 <= 2 ^ 32 ->
  mem_eq (wr64 (u32 (r_offset rel + reloc)) (u64 (r_addend rel + reloc)) m) (rela_image reloc m rel).
Proof.
  intros H0 H1 x Hx. unfold wr64, rela_image. rewrite (uwrap_small 32 (r_offset rel + reloc)) by (unfold in_u; lia).
  destruct (u32_in_block x (r_offset rel + reloc) 8 ltac:(lia) H0 ltac:(lia) ltac:(lia)) as [-> E].
  destruct ((0 <=? _) && _) eqn:C; [|done]. by rewrite E by lia.
Qed.

(** What the reference says: inside of a segment that shares the address with no
    other one, the bytes of the file and then zeros; outside of all, what was there. *)
Lemma load_image_seg m0 elf reloc phs f ph i :
  ph ∈ phs -> is_load ph = true -> 0 <= i < p_memsz ph -> p_filesz ph <= p_memsz ph ->
  (forall ph', ph' ∈ phs -> is_load ph' = true -> p_filesz ph' <= p_memsz ph' ->
     0 <= p_paddr ph + i - p_paddr ph' < p_memsz ph' -> ph' = ph) ->
  Forall (fun ph' => p_filesz ph' <= p_memsz ph') phs ->
  load_image m0 elf reloc phs f (p_paddr ph + reloc + i) =
    if i <? p_filesz ph then m0 (elf + p_offset ph + i) else 0.
Proof.
  intros Hin Hl Hi Hfs Huniq Hall. unfold load_image.
  induction phs as [|ph' phs IH] using rev_ind; [by apply not_elem_of_nil in Hin|].
  apply Forall_app in Hall as [Hall [Hlast _]%Forall_cons_iff].
  rewrite list.filter_app, filter_cons, filter_nil.
  assert (IH' : ph ∈ phs -> foldl (seg_image m0 elf reloc) f (filter (fun ph => is_load ph = true) phs) (p_paddr ph + reloc + i)
    = if i <? p_filesz ph then m0 (elf + p_offset ph + i) else 0).
  { intros Hin'. apply IH; [done| |done]. intros ph2 H2. apply Huniq. apply elem_of_app. by left. }
  destruct (is_load ph') eqn:El.
  - rewrite decide_True, foldl_snoc by done. unfold seg_image at 1.
    destruct (decide (0 <= p_paddr ph + i - p_paddr ph' < p_memsz ph')) as [Hc|Hc].
    + assert (ph' = ph) as -> by (apply Huniq; [apply elem_of_app; right; by left|exact El|exact Hlast|exact Hc]).
      replace (p_paddr ph + reloc + i - (p_paddr ph + reloc)) with i by lia.
      split_ifs; try done; lia.
    + assert (Hne : ph ∈ phs).
      { apply elem_of_app in Hin as [?|Hin]; [done|]. apply list_elem_of_singleton in Hin as ->. lia. }
      split_ifs; first [lia | by apply IH'].
  - rewrite decide_False, app_nil_r by done. apply IH'.
    apply elem_of_app in Hin as [?|Hin]; [done|]. apply list_elem_of_singleton in Hin as ->. congruence.
Qed.

Lemma load_image_out m0 elf reloc phs f x :
  (forall ph, ph ∈ phs -> is_load ph = true -> p_filesz ph <= p_memsz ph /\ ~ 0 <= x - (p_paddr ph + reloc) < p_memsz ph) ->
  load_image m0 elf reloc phs f x = f x.
Proof.
  intros H. unfold load_image. induction phs as [|ph phs IH] using rev_ind; [done|].
  rewrite list.filter_app, filter_cons, filter_nil.
  assert (IH' : foldl (seg_image m0 elf reloc) f (filter (fun ph => is_load ph = true) phs) x = f x).
  { apply IH. intros ph2 H2. apply H, elem_of_app. by left. }
  destruct (is_load ph) eqn:El.
  - rewrite decide_True, foldl_snoc by done. unfold seg_image at 1.
    destruct (H ph) as [? ?]; [apply elem_of_app; right; by left|done|].
    split_ifs; first [lia | done].
  - by rewrite decide_False, app_nil_r by done.
Qed.

Section Load_laws.
Context `{!Elf64} `{!Elf64_laws} `{!L4_round 32} `{!Mb_mmap}.
Variables (resv : list Area) (m0 : mem32) (elf len : Z).

(** The [i]-th section header and its relocations. *)
Definition shdrs (m : mem32) (elf : Z) : list (Z * Shdr) :=
  (fun j => let a := u32 (elf + e_shoff (rd_ehdr m elf) + Z.of_nat j * sizeof_Shdr) in (a, rd_shdr m a))
    <$> seq 0 (Z.to_nat (e_shnum (rd_ehdr m elf))).

Definition rela_table (m : mem32) (elf : Z) (s : Shdr) : list Rela :=
  (fun i => rd_rela m (elf + sh_offset s + Z.of_nat i * sizeof_Rela)) <$> seq 0 (Z.to_nat (sh_size s / sizeof_Rela)).

Definition relas (m : mem32) (elf : Z) : list Rela :=
  p ← shdrs m elf; if sh_type p.2 =? SHT_RELA then rela_table m elf p.2 else [].

(** Header and program headers lie in the file, and a segment has no more bytes in
    the file than in memory. *)
Record elf_file : Prop := {
  ep_range : 0 <= elf /\ elf + len < 2 ^ 32;
  ep_ehdr : sizeof_Ehdr <= len;
  ep_sane : sanity_elf (rd_ehdr m0 elf) = true;
  ep_phdrs : 0 <= e_phoff (rd_ehdr m0 elf) /\ 0 <= e_phnum (rd_ehdr m0 elf) < 2 ^ 16 /\
    e_phoff (rd_ehdr m0 elf) + e_phnum (rd_ehdr m0 elf) * sizeof_Phdr <= len;
  ep_seg ph : ph ∈ phdrs m0 elf -> is_load ph = true ->
    0 <= p_offset ph /\ 0 <= p_filesz ph <= p_memsz ph /\ p_offset ph + p_filesz ph <= len /\
    0 <= p_paddr ph /\ p_paddr ph + p_memsz ph < 2 ^ 64;
}.

(** The file lies in reserved memory. *)
Definition file_reserved : Prop := forall x, elf <= x < elf + len -> reserved resv x.

(** The section headers and relocation tables lie in the file, too; all relocations
    are relative and move a word inside of a segment. *)
Record elf_relocatable : Prop := {
  er_shdrs : 0 <= e_shoff (rd_ehdr m0 elf) /\ 0 <= e_shnum (rd_ehdr m0 elf) < 2 ^ 16 /\
    e_shoff (rd_ehdr m0 elf) + e_shnum (rd_ehdr m0 elf) * sizeof_Shdr <= len;
  er_rel p : p ∈ shdrs m0 elf -> sh_type p.2 <> SHT_REL;
  er_tables p : p ∈ shdrs m0 elf -> sh_type p.2 = SHT_RELA ->
    0 <= sh_offset p.2 /\ 0 <= sh_size p.2 /\ sh_size p.2 mod sizeof_Rela = 0 /\
    sh_offset p.2 + sh_size p.2 <= len;
  er_words rel : rel ∈ relas m0 elf -> ELF64_R_TYPE (r_info rel) = R_X86_64_RELATIVE /\
    exists ph, ph ∈ phdrs m0 elf /\ is_load ph = true /\
      p_paddr ph <= r_offset rel /\ r_offset rel + 8 <= p_paddr ph + p_memsz ph;
}.

(** Moved by [reloc], every segment is in the address space and touches no
    reservation. *)
Definition target_free (reloc : Z) : Prop := forall ph, ph ∈ phdrs m0 elf -> is_load ph = true ->
  0 <= p_paddr ph + reloc /\ p_paddr ph + reloc + p_memsz ph < 2 ^ 32 /\
  forall x, p_paddr ph + reloc <= x < p_paddr ph + reloc + p_memsz ph -> ~ reserved resv x.

(** Memory in which the reservations, and with them the file, are as at the start. *)
Definition kept (m : mem32) : Prop := forall x, 0 <= x < 2 ^ 32 -> reserved resv x -> m x = m0 x.

Hypothesis Hep : elf_file.
Hypothesis Hfr : file_reserved.

Lemma kept_file m a n : kept m -> elf <= a -> a + n <= elf + len -> agree a n m m0.
Proof. intros Hk Ha Hn x Hx. pose proof (ep_range Hep). apply Hk; [lia|]. apply Hfr. lia. Qed.

Lemma kept_ehdr m : kept m -> rd_ehdr m elf = rd_ehdr m0 elf.
Proof. intros Hk. apply rd_ehdr_frame, kept_file; [done|lia|]. pose proof (ep_ehdr Hep). lia. Qed.

Lemma phdr_addr i : 0 <= i < e_phnum (rd_ehdr m0 elf) ->
  ph_addr m0 elf i = elf + e_phoff (rd_ehdr m0 elf) + i * sizeof_Phdr /\
  elf <= ph_addr m0 elf i /\ ph_addr m0 elf i + sizeof_Phdr <= elf + len.
Proof.
  intros Hi. destruct (ep_phdrs Hep) as (Ho & _ & Hl). pose proof (ep_range Hep). pose proof sizes_pos.
  unfold ph_addr. rewrite uwrap_small by (unfold in_u; nia). split; [done|nia].
Qed.

Lemma kept_phdr m i : kept m -> 0 <= i < e_phnum (rd_ehdr m0 elf) ->
  rd_phdr m (ph_addr m0 elf i) = rd_phdr m0 (ph_addr m0 elf i).
Proof. intros Hk Hi. destruct (phdr_addr i Hi) as (_ & ? & ?). apply rd_phdr_frame, kept_file; done. Qed.

Lemma phdrs_lookup i : 0 <= i < e_phnum (rd_ehdr m0 elf) ->
  phdrs m0 elf !! Z.to_nat i = Some (rd_phdr m0 (ph_addr m0 elf i)).
Proof.
  intros Hi. unfold phdrs. rewrite list_lookup_fmap, lookup_seq_lt by lia. cbn. by rewrite Z2Nat.id by lia.
Qed.

(** Loading one segment. *)
Lemma load_phdr_spec reloc ph m :
  target_free reloc -> ph ∈ phdrs m0 elf -> is_load ph = true -> kept m ->
  exists m', load_phdr elf reloc ph m = Ret m' /\ kept m' /\ mem_eq m' (seg_image m0 elf reloc m ph).
Proof.
  intros Hf Hin Hl Hk. destruct (Hf ph Hin Hl) as (Hlo & Hhi & Hfree).
  destruct (ep_seg Hep ph Hin Hl) as (Ho & Hfs & Hol & _). destruct (ep_range Hep) as [He Hel].
  unfold load_phdr. replace (is_range_in_4g elf (p_offset ph)) with true by (unfold is_range_in_4g; lia).
  cbn [negb]. rewrite (uwrap_small 32 (p_paddr ph + reloc)), (uwrap_small 32 (elf + p_offset ph)),
    (uwrap_small 32 (p_filesz ph)), (uwrap_small 32 (_ + p_filesz ph)), (uwrap_small 32 (_ - p_filesz ph))
    by (unfold in_u; lia).
  set (t := p_paddr ph + reloc) in *. eexists. split; [done|].
  match goal with |- kept ?mm /\ _ => assert (Hm : mem_eq mm (seg_image m0 elf reloc m ph)) end.
  { intros x Hx. unfold seg_image. fold t.
    destruct (u32_in_block x t (p_filesz ph) ltac:(lia) ltac:(lia) ltac:(lia) ltac:(lia)) as [E1 E2].
    assert (Hcpy : memcpy32 t (elf + p_offset ph) (p_filesz ph) m x
                   = if (0 <=? x - t) && (x - t <? p_filesz ph) then m0 (elf + p_offset ph + (x - t)) else m x).
    { unfold memcpy32. rewrite E1. destruct ((0 <=? _) && _) eqn:C; [|done]. rewrite E2 by lia.
      rewrite uwrap_small by (unfold in_u; lia). apply Hk; [lia|]. apply Hfr. lia. }
    destruct (p_filesz ph <? p_memsz ph) eqn:Cm.
    - unfold memset32.
      destruct (u32_in_block x (t + p_filesz ph) (p_memsz ph - p_filesz ph) ltac:(lia) ltac:(lia) ltac:(lia) ltac:(lia)) as [-> _].
      rewrite Hcpy. split_ifs; try done; lia.
    - rewrite Hcpy. split_ifs; try done; lia. }
  split; [|done]. intros x Hx Hr. rewrite (Hm x) by lia. unfold seg_image. fold t.
  assert (~ (t <= x < t + p_memsz ph)) by (intros ?; by apply (Hfree x)).
  split_ifs; first [lia | by apply Hk].
Qed.

(** All segments: the loop equals the reference, although it reads the headers from
    the memory it writes. *)
Lemma load_loop_spec reloc fuel i m :
  target_free reloc -> 0 <= i <= e_phnum (rd_ehdr m0 elf) -> kept m ->
  (Z.to_nat (e_phnum (rd_ehdr m0 elf) - i) < fuel)%nat ->
  exists m', load_loop fuel i (u32 (elf + e_phoff (rd_ehdr m0 elf) + i * sizeof_Phdr)) elf reloc m = Ret m' /\
    kept m' /\ mem_eq m' (load_image m0 elf reloc (drop (Z.to_nat i) (phdrs m0 elf)) m).
Proof.
  intros Hf. revert i m. induction fuel as [|fuel IH]; intros i m Hi Hk Hfuel; [lia|]. cbn [load_loop].
  rewrite kept_ehdr by done. destruct (i <? e_phnum (rd_ehdr m0 elf)) eqn:C; cbn [negb].
  2: { exists m. split; [done|]. split; [done|]. rewrite drop_ge; [done|].
       unfold phdrs. rewrite length_fmap, length_seq. lia. }
  assert (Hi' : 0 <= i < e_phnum (rd_ehdr m0 elf)) by lia.
  change (u32 (elf + e_phoff (rd_ehdr m0 elf) + i * sizeof_Phdr)) with (ph_addr m0 elf i).
  rewrite kept_phdr by done. pose proof (phdrs_lookup i Hi') as Hlk.
  erewrite drop_S by exact Hlk. set (ph := rd_phdr m0 (ph_addr m0 elf i)) in *.
  assert (Hph : ph ∈ phdrs m0 elf) by (by eapply list_elem_of_lookup_2).
  assert (Hnext : ph_addr m0 elf i +[32] sizeof_Phdr = u32 (elf + e_phoff (rd_ehdr m0 elf) + (i + 1) * sizeof_Phdr)).
  { unfold ph_addr. rewrite uwrap_add_l. f_equal. lia. }
  rewrite Hnext. replace (S (Z.to_nat i)) with (Z.to_nat (i + 1)) by lia.
  unfold load_image. rewrite filter_cons. destruct (is_load ph) eqn:El.
  - destruct (load_phdr_spec reloc ph m Hf Hph El Hk) as (m1 & -> & Hk1 & He1). cbn [mbind run_bind].
    destruct (IH (i + 1) m1) as (m2 & -> & Hk2 & He2); [lia|done|lia|].
    exists m2. split; [done|]. split; [done|]. rewrite He2, decide_True by done. cbn [foldl].
    apply foldl_mem_eq; [apply _|done].
  - cbn [mbind run_bind]. destruct (IH (i + 1) m) as (m2 & -> & Hk2 & He2); [lia|done|lia|].
    exists m2. split; [done|]. split; [done|]. by rewrite decide_False.
Qed.

(** ** Relocations *)

Hypothesis Her : elf_relocatable.

Lemma shdrs_lookup j : 0 <= j < e_shnum (rd_ehdr m0 elf) ->
  let a := u32 (elf + e_shoff (rd_ehdr m0 elf) + j * sizeof_Shdr) in
  shdrs m0 elf !! Z.to_nat j = Some (a, rd_shdr m0 a) /\
  elf <= a /\ a + sizeof_Shdr <= elf + len.
Proof.
  intros Hj. destruct (er_shdrs Her) as (Ho & _ & Hl). pose proof (ep_range Hep). pose proof sizes_pos.
  cbn zeta. split.
  - unfold shdrs. rewrite list_lookup_fmap, lookup_seq_lt by lia. cbn. by rewrite Z2Nat.id by lia.
  - rewrite uwrap_small by (unfold in_u; nia). nia.
Qed.

Lemma shdr_at a s : (a, s) ∈ shdrs m0 elf -> s = rd_shdr m0 a /\ elf <= a /\ a + sizeof_Shdr <= elf + len.
Proof.
  intros [j Hj]%list_elem_of_lookup. pose proof (lookup_lt_Some _ _ _ Hj) as Hlt. unfold shdrs in Hlt.
  rewrite length_fmap, length_seq in Hlt. destruct (shdrs_lookup (Z.of_nat j)) as (E & ? & ?); [lia|].
  rewrite Nat2Z.id, Hj in E. injection E as -> ->. done.
Qed.

(** One relocation. *)
Lemma relocate_spec reloc rel m :
  target_free reloc -> rel ∈ relas m0 elf -> kept m ->
  exists m', relocate_rela_entry rel reloc m = Ret m' /\ kept m' /\ mem_eq m' (rela_image reloc m rel).
Proof.
  intros Hf Hin Hk. destruct (er_words Her rel Hin) as (Ht & ph & Hph & Hl & Hlo & Hhi).
  destruct (Hf ph Hph Hl) as (? & ? & Hfree). unfold relocate_rela_entry. rewrite Ht, Z.eqb_refl.
  eexists. split; [done|]. pose proof (wr64_image reloc rel m ltac:(lia) ltac:(lia)) as Hm. split; [|done].
  intros x Hx Hr. rewrite (Hm x) by lia. unfold rela_image.
  assert (~ (0 <= x - (r_offset rel + reloc) < 8)) by (intros ?; apply (Hfree x); [lia|done]).
  split_ifs; first [lia | by apply Hk].
Qed.

Lemma rela_loop_spec reloc a s fuel i m :
  target_free reloc -> (a, s) ∈ shdrs m0 elf -> sh_type s = SHT_RELA -> kept m ->
  0 <= i <= sh_size s / sizeof_Rela -> (Z.to_nat (sh_size s / sizeof_Rela - i) < fuel)%nat ->
  exists m', rela_loop fuel (elf + sh_offset s + i * sizeof_Rela) a elf reloc m = Ret m' /\ kept m' /\
    mem_eq m' (foldl (rela_image reloc) m (drop (Z.to_nat i) (rela_table m0 elf s))).
Proof.
  intros Hf Hs Ht. destruct (shdr_at a s Hs) as (Es & Ha & Ha'). destruct (er_tables Her _ Hs Ht) as (Ho & Hz & Hmod & Hend).
  cbn [snd] in *. pose proof (ep_range Hep) as Hr. pose proof sizes_pos as (_ & _ & _ & Hp).
  assert (Hp0 : sizeof_Rela <> 0) by lia. pose proof (Z.div_mod (sh_size s) _ Hp0) as Hdm.
  revert i m. induction fuel as [|fuel IH]; intros i m Hk Hi Hfuel; [lia|]. cbn [rela_loop].
  replace (rd_shdr m a) with s by (rewrite Es; symmetry; apply rd_shdr_frame, kept_file; done).
  rewrite (uwrap_small 32 (elf + _ + _)) by (unfold in_u; lia).
  destruct (decide (i = sh_size s / sizeof_Rela)) as [->|Hne].
  - replace (_ <? _) with false by nia. cbn [negb]. exists m. split; [done|]. split; [done|].
    rewrite drop_ge; [done|]. unfold rela_table. by rewrite length_fmap, length_seq.
  - assert (Hi1 : 0 <= i * sizeof_Rela) by nia.
    assert (Hi2 : i * sizeof_Rela + sizeof_Rela <= sh_size s).
    { rewrite Hdm, Hmod, Z.add_0_r, Z.mul_comm. apply (Z.le_trans _ (sizeof_Rela * (i + 1))); [lia|]. apply Z.mul_le_mono_nonneg_l; lia. }
    replace (_ <? _) with true by lia. cbn [negb].
    assert (Hlk : rela_table m0 elf s !! Z.to_nat i = Some (rd_rela m0 (elf + sh_offset s + i * sizeof_Rela))).
    { unfold rela_table. rewrite list_lookup_fmap, lookup_seq_lt by lia. cbn. by rewrite Z2Nat.id by lia. }
    rewrite (rd_rela_frame m m0) by (apply kept_file; [done|lia|lia]).
    destruct (relocate_spec reloc (rd_rela m0 (elf + sh_offset s + i * sizeof_Rela)) m) as (m1 & -> & Hk1 & He1); [done| |done|].
    { unfold relas. apply list_elem_of_bind. exists (a, s). cbn [snd]. rewrite Ht, Z.eqb_refl.
      split; [by eapply list_elem_of_lookup_2|done]. }
    cbn [mbind run_bind]. rewrite uwrap_small by (unfold in_u; lia).
    replace (elf + sh_offset s + i * sizeof_Rela + sizeof_Rela) with (elf + sh_offset s + (i + 1) * sizeof_Rela) by lia.
    destruct (IH (i + 1) m1) as (m2 & -> & Hk2 & He2); [done|lia|lia|].
    exists m2. split; [done|]. split; [done|]. erewrite drop_S by exact Hlk. cbn [foldl].
    replace (S (Z.to_nat i)) with (Z.to_nat (i + 1)) by lia. rewrite He2. apply foldl_mem_eq; [apply _|done].
Qed.

Lemma shdr_loop_spec reloc fuel rfuel j m :
  target_free reloc -> kept m -> 0 <= j <= e_shnum (rd_ehdr m0 elf) ->
  (Z.to_nat (e_shnum (rd_ehdr m0 elf) - j) < fuel)%nat -> (Z.to_nat len < rfuel)%nat ->
  exists m', shdr_loop fuel rfuel j (u32 (elf + e_shoff (rd_ehdr m0 elf) + j * sizeof_Shdr)) elf reloc m = Ret m' /\
    kept m' /\
    mem_eq m' (foldl (rela_image reloc) m (p ← drop (Z.to_nat j) (shdrs m0 elf);
                                           if sh_type p.2 =? SHT_RELA then rela_table m0 elf p.2 else [])).
Proof.
  intros Hf. revert j m. induction fuel as [|fuel IH]; intros j m Hk Hj Hfuel Hrf; [lia|]. cbn [shdr_loop].
  rewrite kept_ehdr by done. destruct (j <? e_shnum (rd_ehdr m0 elf)) eqn:C; cbn [negb].
  2: { exists m. split; [done|]. split; [done|]. rewrite drop_ge; [done|]. unfold shdrs. rewrite length_fmap, length_seq. lia. }
  destruct (shdrs_lookup j ltac:(lia)) as (Hlk & Ha & Ha'). set (a := u32 (elf + _ + j * _)) in *.
  rewrite (rd_shdr_frame m m0) by (apply kept_file; done). set (s := rd_shdr m0 a) in *.
  assert (Hs : (a, s) ∈ shdrs m0 elf) by (by eapply list_elem_of_lookup_2).
  assert (Hnext : a +[32] sizeof_Shdr = u32 (elf + e_shoff (rd_ehdr m0 elf) + (j + 1) * sizeof_Shdr)).
  { unfold a. rewrite uwrap_add_l. f_equal. lia. }
  rewrite Hnext. erewrite drop_S by exact Hlk. replace (S (Z.to_nat j)) with (Z.to_nat (j + 1)) by lia.
  rewrite bind_cons, foldl_app. cbn [snd]. destruct (sh_type s =? SHT_RELA) eqn:Et.
  - apply Z.eqb_eq in Et. destruct (er_tables Her _ Hs Et) as (Ho & Hz & _ & Hend). cbn [snd] in *.
    pose proof (ep_range Hep). pose proof sizes_pos as (_ & _ & _ & Hp).
    assert (sh_size s / sizeof_Rela <= sh_size s) by (apply Z.div_le_upper_bound; nia).
    destruct (rela_loop_spec reloc a s rfuel 0 m Hf Hs Et Hk) as (m1 & E1 & Hk1 & He1);
      [split; [done|apply Z.div_pos; lia]|lia|].
    rewrite Z.mul_0_l, Z.add_0_r in E1. rewrite (uwrap_small 32 (elf + sh_offset s)) by (unfold in_u; lia).
    rewrite E1. cbn [mbind run_bind].
    destruct (IH (j + 1) m1) as (m2 & -> & Hk2 & He2); [done|lia|lia|done|].
    exists m2. split; [done|]. split; [done|]. rewrite He2. apply foldl_mem_eq; [apply _|done].
  - rewrite (proj2 (Z.eqb_neq _ SHT_REL)) by exact (er_rel Her _ Hs). cbn [mbind run_bind foldl].
    apply IH; [done|lia|lia|done].
Qed.

End Load_laws.

(** ** The place of the segments *)

Section Placement.
Context `{!Elf64} `{!Elf64_laws} `{!L4_round 32} `{!Mb_mmap}.

Record scan_covers (resv : list Area) (s : scan) (ph : Phdr) : Prop := {
  sv_min : min_addr s <= p_paddr ph;
  sv_max : p_paddr ph + p_memsz ph <= max_addr s;
  sv_usable : need_reloc s = false -> usable_range resv (p_paddr ph) (p_memsz ph) = true;
}.

Lemma scan_grows resv phs s :
  min_addr (foldl (scan_phdr resv) s phs) <= min_addr s /\
  max_addr s <= max_addr (foldl (scan_phdr resv) s phs) /\
  (need_reloc (foldl (scan_phdr resv) s phs) = false -> need_reloc s = false).
Proof.
  revert s. induction phs as [|ph phs IH]; intros s; [done|]. cbn [foldl].
  destruct (IH (scan_phdr resv s ph)) as (G1 & G2 & G3). unfold scan_phdr in *.
  destruct (is_load ph); cbn [negb] in *; [|done]. cbn [min_addr max_addr need_reloc] in *.
  split; [|split].
  - etrans; [exact G1|]. split_if; lia.
  - etrans; [|exact G2]. split_if; lia.
  - intros E%G3%orb_false_iff. by destruct E.
Qed.

Lemma scan_spec resv phs s ph :
  ph ∈ phs -> is_load ph = true -> 0 <= p_paddr ph -> 0 <= p_memsz ph -> p_paddr ph + p_memsz ph < 2 ^ 64 ->
  scan_covers resv (foldl (scan_phdr resv) s phs) ph.
Proof.
  intros Hin Hl Hp0 Hm0 Hend. revert s. induction phs as [|ph' phs IH]; intros s; [by apply not_elem_of_nil in Hin|].
  cbn [foldl]. apply elem_of_cons in Hin as [->|Hin]; [|by apply IH].
  destruct (scan_grows resv phs (scan_phdr resv s ph')) as (G1 & G2 & G3). unfold scan_phdr in *. rewrite Hl in *.
  cbn [negb min_addr max_addr need_reloc] in *. rewrite uwrap_small in * by (unfold in_u; lia).
  split.
  - etrans; [exact G1|]. split_if; lia.
  - etrans; [|exact G2]. split_if; lia.
  - intros E%G3%orb_false_iff. destruct E as [_ E]. by destruct (usable_range resv _ _).
Qed.

Lemma land_le a b : 0 <= a -> 0 <= Z.land a b <= a.
Proof.
  intros Ha. assert (Hd : Z.land (Z.ldiff a b) (Z.land a b) = 0).
  { apply Z.bits_inj'. intros i Hi. rewrite Z.bits_0, !Z.land_spec, Z.ldiff_spec.
    by destruct (Z.testbit a i), (Z.testbit b i). }
  pose proof (Z.lor_ldiff_and a b) as Hs. pose proof (Z.add_lor_land (Z.ldiff a b) (Z.land a b)) as Hl.
  assert (0 <= Z.ldiff a b) by (apply Z.ldiff_nonneg; by left).
  assert (0 <= Z.land a b) by (apply Z.land_nonneg; by left). lia.
Qed.

Lemma scan_min_nonneg resv phs s :
  (forall ph, ph ∈ phs -> is_load ph = true -> 0 <= p_paddr ph) -> 0 <= min_addr s ->
  0 <= min_addr (foldl (scan_phdr resv) s phs).
Proof.
  revert s. induction phs as [|ph phs IH]; intros s Hp Hs; [done|]. cbn [foldl]. apply IH.
  - intros ph' Hin. apply Hp. by right.
  - unfold scan_phdr. destruct (is_load ph) eqn:El; cbn [negb min_addr]; [|done].
    split_if; [|done]. apply Hp; [by left|done].
Qed.

(** A range that passes the test of [usable_range] is free. *)
Lemma usable_range_free resv start size :
  Forall area_ok resv -> 0 <= start -> 0 <= size -> start + size <> 2 ^ 32 -> usable_range resv start size = true ->
  start + size < 2 ^ 32 /\ forall x, start <= x < start + size -> ~ reserved resv x.
Proof.
  intros Hok Hs Hz Hne [Hr Ho]%andb_true_iff. unfold is_range_in_4g in Hr. assert (start + size < 2 ^ 32) by lia.
  split; [done|]. destruct (decide (size = 0)); [intros; lia|].
  rewrite !uwrap_small in Ho by (unfold in_u; lia). apply Z.eqb_eq in Ho.
  destruct (overlaps_reservation_test resv start size Hok Hs ltac:(lia) ltac:(lia)) as [[He _] _]. by apply He.
Qed.

(** ** Loading *)

Variables (resv : list Area) (m0 : mem32) (elf len : Z).
Hypothesis Hep : elf_file m0 elf len.
Hypothesis Hfr : file_reserved resv elf len.
Hypothesis Hresv : Forall area_ok resv.

Let s := scan_elf resv m0 elf.

Lemma seg_scanned ph : ph ∈ phdrs m0 elf -> is_load ph = true -> scan_covers resv s ph.
Proof. intros Hin Hl. destruct (ep_seg _ _ _ Hep ph Hin Hl) as (? & ? & ? & ? & ?). apply scan_spec; (done || lia). Qed.

(** When the places of all segments are free, the file is loaded where it is linked
    to: the loader returns the entry point, each segment has its bytes of the file and
    zeros behind them, all other memory is as before, and no reserved byte changes. *)
Theorem load_elf_in_place fuel rfuel alloc st :
  need_reloc s = false ->
  (forall ph, ph ∈ phdrs m0 elf -> is_load ph = true -> p_paddr ph + p_memsz ph <> 2 ^ 32) ->
  (Z.to_nat (e_phnum (rd_ehdr m0 elf)) < fuel)%nat ->
  exists m', load_elf fuel rfuel alloc resv elf st m0 = Ret (u32 (e_entry (rd_ehdr m0 elf)), st, m') /\
    kept resv m0 m' /\ mem_eq m' (load_image m0 elf 0 (phdrs m0 elf) m0).
Proof.
  intros Hn H4g Hfuel. unfold load_elf. rewrite (ep_sane _ _ _ Hep). fold s. rewrite Hn. cbn [negb mbind run_bind].
  destruct (load_loop_spec resv m0 elf len Hep Hfr 0 fuel 0 m0) as (m' & E & Hk & Hm); [|destruct (ep_phdrs _ _ _ Hep); lia|done|lia|].
  - intros ph Hin Hl. destruct (ep_seg _ _ _ Hep ph Hin Hl) as (? & ? & ? & ? & ?). rewrite Z.add_0_r. split; [done|].
    apply usable_range_free; [done..|lia|by apply H4g|]. by apply (sv_usable _ _ _ (seg_scanned ph Hin Hl)).
  - rewrite Z.mul_0_l, Z.add_0_r in E. rewrite E. cbn [mbind run_bind Z.eqb negb]. exists m'.
    rewrite (kept_ehdr resv m0 elf len Hep Hfr m' Hk), Z.add_0_r. done.
Qed.

(** When a place is taken and the allocator returns a block, the file is loaded into
    that block: the entry point and all segments are moved by the same distance, the
    block is memory of the map without reservations, the relocations are applied to the
    moved segments, and no reserved byte changes. *)
Theorem load_elf_relocated ptrs i a p st st' fuel rfuel :
  let size := max_addr s - reloc_base s in
  let reloc := p - reloc_base s in
  let alloc := mm_alloc_alloc (S (S (length ptrs) * S (length resv))) (S (length ptrs)) resv in
  need_reloc s = true -> elf_relocatable m0 elf len -> min_addr s < 2 ^ 32 -> 0 < size < 2 ^ 32 ->
  mb_layout ptrs -> ram_below_4g -> mm_state_at ptrs st i a ->
  alloc size st = Ret (p, st') -> p <> 0 ->
  (2 ^ 16 <= fuel)%nat -> (Z.to_nat len < rfuel)%nat ->
  exists m', load_elf fuel rfuel (Some alloc) resv elf st m0
             = Ret (u32 (e_entry (rd_ehdr m0 elf) + reloc), st', m') /\
    good_block ptrs resv size i a p st' /\ kept resv m0 m' /\
    mem_eq m' (foldl (rela_image reloc) (load_image m0 elf reloc (phdrs m0 elf) m0)
                 (if reloc =? 0 then [] else relas m0 elf)).
Proof.
  cbn zeta. intros Hn Her Hmin Hsz Hlay Hram Hst Ea Hp Hfuel Hrf.
  destruct (mm_alloc_spec ptrs resv _ st i a Hlay Hram Hresv Hsz Hst) as [E|(p1 & st1 & E & Hblk)];
    rewrite E in Ea; [done|]. injection Ea as -> ->. destruct Hblk as [[? _]|Hblk]; [done|].
  assert (Hmin0 : 0 <= min_addr s).
  { apply scan_min_nonneg; [|done]. intros ph Hin Hl. by destruct (ep_seg _ _ _ Hep ph Hin Hl) as (_ & _ & _ & ? & _). }
  pose proof (land_le _ (u32 (Z.lnot (u32 (max_align s - 1)))) Hmin0) as Hbase. fold (reloc_base s) in Hbase.
  destruct Hblk as (j & r & Hat & Hpos & Hlo & Hend & Hhi & Hfree). assert (0 <= p) by (unfold at_range in Hat; lia).
  assert (Ht : target_free resv m0 elf (p - reloc_base s)).
  { intros ph Hin Hl. destruct (ep_seg _ _ _ Hep ph Hin Hl) as (? & ? & ? & ? & ?).
    destruct (seg_scanned ph Hin Hl) as [Hs1 Hs2 _]. split; [lia|]. split; [lia|]. intros x Hx. apply Hfree. lia. }
  unfold load_elf. rewrite (ep_sane _ _ _ Hep). fold s. rewrite Hn. cbn [negb].
  rewrite (uwrap_small 32 (_ - _)) by (unfold in_u; lia). rewrite E. cbn [mbind run_bind].
  rewrite (proj2 (Z.eqb_neq p 0) Hp), swrap_small by lia. cbn [mbind run_bind].
  destruct (ep_phdrs _ _ _ Hep) as (_ & Hnum & _). change (2 ^ 16)%nat with (Z.to_nat (2 ^ 16)) in Hfuel.
  destruct (load_loop_spec resv m0 elf len Hep Hfr (p - reloc_base s) fuel 0 m0) as (m1 & E1 & Hk1 & Hm1); [done|lia|done|lia|].
  rewrite Z.mul_0_l, Z.add_0_r in E1. rewrite E1. cbn [mbind run_bind].
  destruct (p - reloc_base s =? 0) eqn:Er; cbn [negb mbind run_bind].
  - exists m1. rewrite (kept_ehdr resv m0 elf len Hep Hfr m1 Hk1). split; [done|]. split; [by exists j, r|]. done.
  - destruct (er_shdrs _ _ _ Her) as (_ & Hsnum & _).
    destruct (shdr_loop_spec resv m0 elf len Hep Hfr Her (p - reloc_base s) fuel rfuel 0 m1) as (m2 & E2 & Hk2 & Hm2); [done|done|lia|lia|done|].
    rewrite Z.mul_0_l, Z.add_0_r in E2. rewrite E2. cbn [mbind run_bind]. exists m2.
    rewrite (kept_ehdr resv m0 elf len Hep Hfr m2 Hk2). split; [done|]. split; [by exists j, r|]. split; [done|].
    rewrite Hm2. apply foldl_mem_eq; [apply _|done].
Qed.

End Placement.

(** ** Examples *)

(** The layout of the System V ABI. *)
Module Elf_example.

Definition fld (m : mem32) (a off : Z) (n : nat) : Z :=
  le_combine ((fun i => m (a + off + Z.of_nat i)) <$> seq 0 n).

#[export] Instance elf64 : Elf64 := {|
  sizeof_Ehdr := 64; sizeof_Phdr := 56; sizeof_Shdr := 64; sizeof_Rela := 24;
  rd_ehdr m a := {| e_mag := (fun i => m (a + Z.of_nat i)) <$> seq 0 4; e_class := fld m a 4 1;
    e_machine := fld m a 18 2; e_entry := fld m a 24 8; e_phoff := fld m a 32 8; e_shoff := fld m a 40 8;
    e_phnum := fld m a 56 2; e_shnum := fld m a 60 2 |};
  rd_phdr m a := {| p_type := fld m a 0 4; p_offset := fld m a 8 8; p_paddr := fld m a 24 8;
    p_filesz := fld m a 32 8; p_memsz := fld m a 40 8; p_align := fld m a 48 8 |};
  rd_shdr m a := {| sh_type := fld m a 4 4; sh_offset := fld m a 24 8; sh_size := fld m a 32 8 |};
  rd_rela m a := {| r_offset := fld m a 0 8; r_info := fld m a 8 8; r_addend := s64 (fld m a 16 8) |};
|}.

Arguments fld : simpl never.

Lemma fld_frame m m' a n off k : agree a n m m' -> 0 <= off -> off + Z.of_nat k <= n -> fld m a off k = fld m' a off k.
Proof.
  intros H Ho Hk. unfold fld. f_equal. apply list_fmap_ext. intros i j Hj%lookup_seq. apply H. lia.
Qed.

#[export] Instance elf64_laws : Elf64_laws.
Proof.
  split; [done|..]; intros m m' a Hag; cbn in *; f_equal;
    try (apply (fld_frame m m' a _ _ _ Hag); cbn; lia);
    try (f_equal; apply (fld_frame m m' a _ _ _ Hag); cbn; lia).
  unfold agree in Hag. rewrite !Hag by lia. done.
Defined.

(** A file at 1 MiB, in the image: one segment of 16 bytes in the file and 32 in
    memory, linked to [paddr], and one relocation of its first word. *)
Definition le64 (x : Z) : bytes := le_split 8 x.

Definition file (paddr : Z) : bytes :=
  (** file header *)
  [0x7f; 69; 76; 70; 2; 1; 1; 0; 0; 0; 0; 0; 0; 0; 0; 0] ++ le_split 2 2 ++ le_split 2 62 ++ le_split 4 1 ++
  le64 (paddr + 4) ++ le64 64 ++ le64 120 ++ le_split 4 0 ++ le_split 2 64 ++ le_split 2 56 ++ le_split 2 1 ++
  le_split 2 64 ++ le_split 2 1 ++ le_split 2 0 ++
  (** program header *)
  le_split 4 1 ++ le_split 4 7 ++ le64 208 ++ le64 paddr ++ le64 paddr ++ le64 16 ++ le64 32 ++ le64 0x1000 ++
  (** section header *)
  le_split 4 0 ++ le_split 4 4 ++ le64 0 ++ le64 0 ++ le64 184 ++ le64 24 ++ le_split 4 0 ++ le_split 4 0 ++ le64 0 ++ le64 0 ++
  (** relocation *)
  le64 paddr ++ le64 8 ++ le64 (paddr + 8) ++
  (** segment *)
  le64 0 ++ [1; 2; 3; 4; 5; 6; 7; 8].

Definition ELF : Z := 0x100000.
Definition LEN : Z := 224.

(** Memory with [bs] at [a]. *)
Definition at_ (a : Z) (bs : bytes) (m : mem32) : mem32 := fun x =>
  if (a <=? x) && (x <? a + zlen bs) then c_at bs (Z.to_nat (x - a)) else m x.

Definition mem (paddr : Z) : mem32 := at_ ELF (file paddr) (fun _ => 0xcc).

#[local] Existing Instance round32.
#[local] Existing Instance Mm_example.map.

Lemma elf_reserved x : ELF <= x < ELF + LEN -> reserved Mm_example.resv x.
Proof. intros Hx. left. unfold in_area, ELF, LEN in *. cbn. lia. Defined.

Definition the_phdr (paddr : Z) : Phdr :=
  {| p_type := 1; p_offset := 208; p_paddr := paddr; p_filesz := 16; p_memsz := 32; p_align := 0x1000 |}.

Lemma placed paddr : paddr = 0x180000 \/ paddr = 0x110000 -> elf_file (mem paddr) ELF LEN.
Proof.
  intros Hp. assert (Hph : phdrs (mem paddr) ELF = [the_phdr paddr]) by (destruct Hp as [-> | ->]; by vm_compute).
  split; [by_eval|by_eval|destruct Hp as [-> | ->]; by_eval|destruct Hp as [-> | ->]; by_eval|].
  intros ph. rewrite Hph. intros ->%list_elem_of_singleton _. cbn. unfold LEN. lia.
Defined.

Lemma resv_ok : Forall area_ok Mm_example.resv.
Proof. repeat constructor; by_eval. Defined.

Lemma load_elf_in_place_witness : exists m',
  load_elf 2 1 None Mm_example.resv ELF Mm_example.start (mem 0x180000) = Ret (0x180004, Mm_example.start, m') /\
  kept Mm_example.resv (mem 0x180000) m' /\
  mem_eq m' (load_image (mem 0x180000) ELF 0 (phdrs (mem 0x180000) ELF) (mem 0x180000)).
Proof.
  refine (load_elf_in_place Mm_example.resv (mem 0x180000) ELF LEN _ elf_reserved resv_ok 2 1 None Mm_example.start _ _ _).
  - apply placed. by left.
  - by_eval.
  - replace (phdrs (mem 0x180000) ELF) with [the_phdr 0x180000] by by_eval.
    intros ph ->%list_elem_of_singleton _. cbn. lia.
  - vm_compute. lia.
Defined.

Lemma relocatable : elf_relocatable (mem 0x110000) ELF LEN.
Proof.
  assert (Hs : shdrs (mem 0x110000) ELF = [(ELF + 120, {| sh_type := 4; sh_offset := 184; sh_size := 24 |})]) by by_eval.
  split; [by_eval|..].
  - rewrite Hs. intros p ->%list_elem_of_singleton. done.
  - rewrite Hs. intros p ->%list_elem_of_singleton _. by_eval.
  - assert (Hr : relas (mem 0x110000) ELF = [{| r_offset := 0x110000; r_info := 8; r_addend := 0x110008 |}]) by by_eval.
    rewrite Hr. intros rel ->%list_elem_of_singleton. split; [by_eval|]. exists (the_phdr 0x110000).
    replace (phdrs (mem 0x110000) ELF) with [the_phdr 0x110000] by by_eval.
    split; [by left|]. by_eval.
Defined.

Lemma load_elf_relocated_witness : exists m',
  load_elf (2 ^ 16) 300 (Some (mm_alloc_alloc 9 4 Mm_example.resv)) Mm_example.resv ELF Mm_example.start (mem 0x110000)
  = Ret (0x10004, {| ma_range := 0x9000; ma_used := 32 |}, m') /\
  good_block Mm_example.ptrs Mm_example.resv 32 0 0 0x10000 {| ma_range := 0x9000; ma_used := 32 |} /\
  kept Mm_example.resv (mem 0x110000) m' /\
  mem_eq m' (foldl (rela_image (-0x100000)) (load_image (mem 0x110000) ELF (-0x100000) (phdrs (mem 0x110000) ELF) (mem 0x110000))
               (relas (mem 0x110000) ELF)).
Proof.
  refine (load_elf_relocated Mm_example.resv (mem 0x110000) ELF LEN _ elf_reserved resv_ok Mm_example.ptrs 0 0 0x10000 Mm_example.start
    {| ma_range := 0x9000; ma_used := 32 |} (2 ^ 16) 300 _ relocatable _ _ Mm_example.layout Mm_example.ram_below _ _ _ _ _).
  - apply placed. by right.
  - by_eval.
  - by_eval.
  - by_eval.
  - left. by_eval.
  - by_eval.
  - by_eval.
  - lia.
  - vm_compute. lia.
Defined.
(** The first address is rounded down to the alignment of the segments, but the block of
    the allocator is not aligned to it: a segment with an alignment of 128 KiB is loaded
    to [0x10000]. *)
Definition mem_aligned : mem32 := at_ (ELF + 112) (le64 0x20000) (mem 0x120000).

Theorem relocation_misaligns :
  phdrs mem_aligned ELF = [{| p_type := 1; p_offset := 208; p_paddr := 0x120000; p_filesz := 16; p_memsz := 32;
                              p_align := 0x20000 |}] /\
  match load_elf 2 2 (Some (mm_alloc_alloc 9 4 Mm_example.resv)) Mm_example.resv ELF Mm_example.start mem_aligned with
  | Ret (start, _, m') => start = 0x10004 /\ m' 0x10008 = 1 /\ m' 0x10009 = 2 /\ 0x10000 mod 0x20000 <> 0
  | _ => False
  end.
Proof. split; [by_eval|]. vm_compute. done. Qed.

(** A segment that ends at 4 GiB is taken for free although its first page is reserved:
    the end wraps around to 0 in the overlap test. *)
Theorem segment_at_4g_unchecked :
  let resv := [{| a_start := 0xff000000; a_size := 0x1000 |}] in
  reserved resv 0xff000000 /\ usable_range resv 0xff000000 0x1000000 = true.
Proof. cbn zeta. split; [left; unfold in_area; cbn; lia|by_eval]. Qed.
End Elf_example.
