(* ===== verification/BootKernel.v ===== *)
(** * The main function of the 32-bit boot stage

    [pkg/bootstrap/server/src/ARCH-amd64/boot32/boot_kernel.c]: finds the end of memory,
    reserves what must survive (the image, the final places of kernel, sigma0 and moe,
    the boot modules and what describes them), sets up paging with [Paging] and loads
    the 64-bit stage with [LoadElf].

    The page tables are in the pool inside of the image and have a memory of their own
    here, as in [Paging].  The multiboot structures belong to a header outside of the
    repository: the class [Mb_info] reads them. *)

From S2P Require Import Prelude L4Round Reservations MmAlloc Paging LoadElf.

Record mb_info := { mbi_mem_upper : Z; mbi_cmdline : Z; mbi_mods_addr : Z; mbi_mods_count : Z }.
Record mb_mod := { mod_start : Z; mod_end : Z; mod_cmdline : Z }.

Class Mb_info := {
  sizeof_mb_info : Z;
  sizeof_mb_mod : Z;
  rd_mbi : mem32 -> Z -> mb_info;
  rd_mod : mem32 -> Z -> mb_mod;
  (** the entries [l4util_mb_for_each_mmap_entry] visits *)
  mb_mmap_entries : list mb_range;
}.

(** What the linker and the earlier start-up code provide. *)
Record image_info := {
  _image_start : Z;
  _image_end : Z;
  _binary_bootstrap64_bin_start : Z;
}.

Section Bootstrap.
Context `{!Elf64} `{!L4_round 32} `{!Mb_mmap} `{!Mb_info}.

Definition upper_mem_step (max : Z) (r : mb_range) : Z :=
  if (max <? mr_addr r +[64] mr_size r) && mr_memory r then mr_addr r +[64] mr_size r else max.

Definition find_upper_mem : Z := foldl upper_mem_step 0 mb_mmap_entries.

(** [__builtin_strlen] *)
Fixpoint strlen32 (fuel : nat) (m : mem32) (a : Z) : run Z :=
  match fuel with
  | O => Fuel_out
  | S fuel => if m a =? 0 then Ret 0 else n ← strlen32 fuel m (a +[32] 1); Ret (n +[32] 1)
  end.

(** The loop over the modules from number [i] on. *)
Fixpoint reserve_mods (fuel n : nat) (m : mem32) (mod_ : Z) (l : list Area) : run (list Area) :=
  match n with
  | O => Ret l
  | S n =>
      let d := rd_mod m mod_ in
      len ← strlen32 fuel m (mod_cmdline d);
      l ← reservation_add (mod_cmdline d) (len +[32] 1) l;
      l ← reservation_add (mod_start d) (mod_end d -[32] mod_start d) l;
      reserve_mods fuel n m (mod_ +[32] sizeof_mb_mod) l
  end.

Definition reserve_mbi (fuel : nat) (m : mem32) (mbi : Z) (l : list Area) : run (list Area) :=
  let i := rd_mbi m mbi in
  l ← reservation_add mbi sizeof_mb_info l;
  len ← strlen32 fuel m (mbi_cmdline i);
  l ← reservation_add (mbi_cmdline i) (len +[32] 1) l;
  l ← reservation_add (mbi_mods_addr i) (mbi_mods_count i *[32] sizeof_mb_mod) l;
  reserve_mods fuel (Z.to_nat (mbi_mods_count i)) m (mbi_mods_addr i) l.

Definition Max_initial_mem : Z := Z.shiftl 4 30.

Definition SUPERPAGE_MASK : Z := Z.shiftl 1 21 - 1.

Definition round_superpage (x : Z) : Z := Z.land (x +[64] SUPERPAGE_MASK) (u64 (Z.lnot SUPERPAGE_MASK)).

(** The reservations of [bootstrap], in its order. *)
Definition reserve_all (fuel : nat) (img : image_info) (m : mem32) (mbi : Z) (l : list Area) : run (list Area) :=
  let i := rd_mbi m mbi in
  let module_ k := mod_start (rd_mod m (mbi_mods_addr i +[32] (k * sizeof_mb_mod))) in
  l ← reservation_add (_image_start img) (_image_end img -[32] _image_start img) l;
  l ← reservation_add 0 0x1000 l;
  l ← reservation_add 0x1000 0x1000 l;
  l ← (if 0 <? mbi_mods_count i then reserve_elf m (module_ 0) l else Ret l);
  l ← (if 1 <? mbi_mods_count i then reserve_elf m (module_ 1) l else Ret l);
  l ← (if 2 <? mbi_mods_count i then reserve_elf m (module_ 2) l else Ret l);
  reserve_mbi fuel m mbi l.

Record boot_result := {
  br_start : Z;              (** [far_ptr.start] *)
  br_mem_end : Z;            (** [boot32_info.mem_end] *)
  br_pml4 : Z;
  br_tables : pool_state * pmem;
  br_resv : list Area;
  br_alloc : mm_alloc_state;
  br_mem : mem32;
}.

(** The memory [bootstrap] maps. *)
Definition boot_mem_upper (m : mem32) (mbi : Z) : Z :=
  let mem_upper := find_upper_mem in
  let mem_upper := if mem_upper =? 0 then 1024 *[32] (1024 +[32] mbi_mem_upper (rd_mbi m mbi)) else mem_upper in
  let mem_upper := if Max_initial_mem <? mem_upper then Max_initial_mem else mem_upper in
  round_superpage mem_upper.

(** [bootstrap] up to the jump into the 64-bit stage.  The map has [entries]
    entries; [fuel] bounds the lengths of strings and tables. *)
Definition bootstrap (fuel entries : nat) (cpu_info : cpu_info_t) (img : image_info) (mbi : Z)
  (resv : list Area) (st : mm_alloc_state) (tables : pool_state * pmem) (m : mem32) : run boot_result :=
  resv ← reserve_all fuel img m mbi resv;
  let st := mm_alloc_init st in
  let mem_upper := boot_mem_upper m mbi in
  '(pml4, tables) ← base_paging_init cpu_info mem_upper tables;
  '(start, st, m) ← load_elf fuel fuel (Some (mm_alloc_alloc (S (S entries * S (length resv))) (S entries) resv)) resv
                      (_binary_bootstrap64_bin_start img) st m;
  Ret {| br_start := start; br_mem_end := mem_upper -[64] 1; br_pml4 := pml4; br_tables := tables;
         br_resv := resv; br_alloc := st; br_mem := m |}.

End Bootstrap.

(** ** Reserving a list of areas *)

Section Reserve.
Context `{!L4_round 32}.

Definition area_pages (a : Z * Z) : Area := pages_of a.1 a.2.

Definition area_end_ (r : Area) : Z := a_start r + a_size r.

(** The areas are not empty and end below 4 GiB; none of them ends where an earlier one
    starts. *)
Fixpoint areas_ok (areas : list (Z * Z)) : Prop :=
  match areas with
  | [] => True
  | a :: t =>
      (0 <= a.1 /\ 0 < a.2 /\ a.1 + a.2 + l4_pagesize <= 2 ^ 32) /\
      Forall (fun b => a_start (area_pages a) <> area_end_ (area_pages b)) t /\ areas_ok t
  end.

#[global] Instance areas_ok_dec areas : Decision (areas_ok areas).
Proof. induction areas; cbn [areas_ok]; apply _. Defined.

Lemma merge_starts start size l l' r' :
  reservation_merge start size l = Some l' -> Forall (fun r => a_start r <> start +[32] size) l ->
  r' ∈ l' -> exists r, r ∈ l /\ a_start r = a_start r'.
Proof.
  revert l'. induction l as [|r l IH]; intros l' E Hne Hin; [done|]. cbn in E.
  apply Forall_cons_iff in Hne as [Hr Hne]. destruct ((a_start r <=? _) && _).
  { injection E as <-. by exists r'. }
  destruct (_ =? start) eqn:E1.
  { injection E as <-. apply elem_of_cons in Hin as [-> | Hin]; [exists r; split; [by left|done]|].
    exists r'. split; [by right|done]. }
  rewrite (proj2 (Z.eqb_neq _ _) Hr) in E.
  destruct (reservation_merge start size l) as [l2|]; [|done]. injection E as <-.
  apply elem_of_cons in Hin as [-> | Hin]; [exists r; split; [by left|done]|].
  destruct (IH l2 eq_refl Hne Hin) as (r2 & ? & ?). exists r2. split; [by right|done].
Qed.

Lemma merge_length start size l l' : reservation_merge start size l = Some l' -> length l' = length l.
Proof.
  revert l'. induction l as [|r l IH]; intros l' E; [done|]. cbn in E.
  repeat (destruct (_ && _) || destruct (_ =? _)); try (by injection E as <-);
    destruct (reservation_merge start size l) as [l2|]; try done; injection E as <-; cbn; by rewrite (IH l2).
Qed.

(** Every area of the list is reserved afterwards, and nothing is forgotten. *)
Lemma reserve_areas_spec areas l :
  areas_ok areas -> table_ok l -> (length l + length areas <= Max_reservations)%nat ->
  (forall r b, r ∈ l -> b ∈ areas -> a_start r <> area_end_ (area_pages b)) ->
  exists l', reserve_areas areas l = Ret l' /\ table_ok l' /\
    forall x, reserved l' x <-> reserved l x \/ Exists (fun a => in_area (area_pages a) x) areas.
Proof.
  revert l. induction areas as [|[start size] areas IH]; intros l Hok Ht Hlen Hne.
  { exists l. split; [done|]. split; [done|]. intros x. rewrite Exists_nil. tauto. }
  destruct Hok as ((Hs & Hz & Hend) & Hbef & Hok). cbn [fst snd length] in *.
  assert (Hn : Forall (fun r => a_start r <> a_start (pages_of start size) + a_size (pages_of start size)) l).
  { apply Forall_forall. intros r Hr%list_elem_of_In. apply (Hne r (start, size) Hr). by left. }
  destruct (reservation_add_spec start size l Ht Hs Hz Hend ltac:(lia) Hn) as (l1 & E1 & Ht1 & Hres1 & _).
  cbn [reserve_areas]. rewrite E1. cbn [mbind run_bind].
  destruct (pages_of_spec start size Hs Hz Hend) as (Hp & _).
  assert (Hl1 : (length l1 <= S (length l))%nat /\ forall r', r' ∈ l1 ->
    (exists r, r ∈ l /\ a_start r = a_start r') \/ a_start r' = a_start (pages_of start size)).
  { rewrite reservation_add_unfold in E1 by done. cbn zeta in E1.
    destruct (reservation_merge _ _ l) as [l2|] eqn:Em.
    - injection E1 as ->. split; [rewrite (merge_length _ _ _ _ Em); lia|]. intros r' Hr'. left.
      eapply merge_starts; [exact Em| |done]. by rewrite (area_end _ Hp).
    - rewrite (proj2 (Nat.ltb_lt _ _)) in E1 by lia. injection E1 as <-. rewrite length_app. cbn [length].
      split; [lia|]. intros r' [Hr'|Hr']%elem_of_app; [left; by exists r'|].
      apply list_elem_of_singleton in Hr' as ->. by right. }
  destruct Hl1 as [Hlen1 Hst1].
  destruct (IH l1) as (l' & E' & Ht' & Hres'); [done|done|lia| |].
  - intros r' b Hr' Hb. destruct (Hst1 r' Hr') as [(r & Hr & <-)| ->].
    + apply Hne; [done|by right].
    + rewrite Forall_forall in Hbef. apply Hbef. by apply list_elem_of_In.
  - exists l'. split; [done|]. split; [done|]. intros x. rewrite Hres', Hres1, Exists_cons. tauto.
Qed.

Lemma reserve_areas_app a b l : reserve_areas (a ++ b) l = l ← reserve_areas a l; reserve_areas b l.
Proof.
  revert l. induction a as [|[start size] a IH]; intros l; [done|]. cbn [app reserve_areas].
  destruct (reservation_add start size l); cbn; first [apply IH | done].
Qed.
End Reserve.

(** ** What bootstrap reserves *)

Section Bootstrap_laws.
Context `{!Elf64} `{!Elf64_laws} `{!L4_round 32} `{!Mb_mmap} `{!Mb_info}.

Fixpoint mod_areas (fuel n : nat) (m : mem32) (mod_ : Z) : run (list (Z * Z)) :=
  match n with
  | O => Ret []
  | S n =>
      let d := rd_mod m mod_ in
      len ← strlen32 fuel m (mod_cmdline d);
      t ← mod_areas fuel n m (mod_ +[32] sizeof_mb_mod);
      Ret ((mod_cmdline d, len +[32] 1) :: (mod_start d, mod_end d -[32] mod_start d) :: t)
  end.

Definition mbi_areas (fuel : nat) (m : mem32) (mbi : Z) : run (list (Z * Z)) :=
  let i := rd_mbi m mbi in
  len ← strlen32 fuel m (mbi_cmdline i);
  t ← mod_areas fuel (Z.to_nat (mbi_mods_count i)) m (mbi_mods_addr i);
  Ret ((mbi, sizeof_mb_info) :: (mbi_cmdline i, len +[32] 1) ::
       (mbi_mods_addr i, mbi_mods_count i *[32] sizeof_mb_mod) :: t).

(** The final places of the first three modules. *)
Definition base_areas (m : mem32) (mbi : Z) : run (list (Z * Z)) :=
  let i := rd_mbi m mbi in
  let module_ k := mod_start (rd_mod m (mbi_mods_addr i +[32] (k * sizeof_mb_mod))) in
  let areas k := if k <? mbi_mods_count i
                 then if sanity_elf (rd_ehdr m (module_ k)) then Ret (elf_areas m (module_ k)) else Panicked
                 else Ret [] in
  a0 ← areas 0; a1 ← areas 1; a2 ← areas 2; Ret (a0 ++ a1 ++ a2).

(** Everything that must survive, in the order of the calls: the image, the first two
    pages, the final places, the multiboot information and the modules. *)
Definition boot_areas (fuel : nat) (img : image_info) (m : mem32) (mbi : Z) : run (list (Z * Z)) :=
  b ← base_areas m mbi;
  t ← mbi_areas fuel m mbi;
  Ret ((_image_start img, _image_end img -[32] _image_start img) :: (0, 0x1000) :: (0x1000, 0x1000) :: b ++ t).

Lemma reserve_mods_areas fuel n m mod_ t l :
  mod_areas fuel n m mod_ = Ret t -> reserve_mods fuel n m mod_ l = reserve_areas t l.
Proof.
  revert mod_ t l. induction n as [|n IH]; intros mod_ t l E; cbn [mod_areas] in E; [by injection E as <-|].
  inv_run E. injection E as <-. cbn [reserve_mods reserve_areas]. rewrite E0. cbn [mbind run_bind].
  destruct (reservation_add _ _ l); cbn [mbind run_bind]; try done.
  destruct (reservation_add _ _ a); cbn [mbind run_bind]; try done. by apply IH.
Qed.

Lemma reserve_mbi_areas fuel m mbi t l :
  mbi_areas fuel m mbi = Ret t -> reserve_mbi fuel m mbi l = reserve_areas t l.
Proof.
  intros E. unfold mbi_areas in E. inv_run E. injection E as <-. unfold reserve_mbi. cbn [reserve_areas].
  destruct (reservation_add mbi _ l); cbn [mbind run_bind]; try done. rewrite E0. cbn [mbind run_bind].
  destruct (reservation_add _ _ a); cbn [mbind run_bind]; try done.
  destruct (reservation_add _ _ a0); cbn [mbind run_bind]; try done. by apply reserve_mods_areas.
Qed.

Lemma reserve_base_areas (c : bool) m elf t l :
  (if c then if sanity_elf (rd_ehdr m elf) then Ret (elf_areas m elf) else Panicked else Ret []) = Ret t ->
  (if c then reserve_elf m elf l else Ret l) = reserve_areas t l.
Proof.
  unfold reserve_elf. destruct c; [|by intros [= <-]]. destruct (sanity_elf _); [|done]. by intros [= <-].
Qed.

Lemma reserve_all_areas fuel img m mbi t l :
  boot_areas fuel img m mbi = Ret t -> reserve_all fuel img m mbi l = reserve_areas t l.
Proof.
  intros E. unfold boot_areas, base_areas in E. inv_run E. injection E as <-. cbv zeta in E0. inv_run E0. injection E0 as <-.
  unfold reserve_all. cbn [reserve_areas].
  destruct (reservation_add (_image_start img) _ l); cbn [mbind run_bind]; try done.
  destruct (reservation_add 0 _ a); cbn [mbind run_bind]; try done.
  destruct (reservation_add 0x1000 _ a0); cbn [mbind run_bind]; try done.
  rewrite <- !app_assoc, !reserve_areas_app.
  rewrite (reserve_base_areas _ _ _ _ _ E). destruct (reserve_areas _ a1); cbn [mbind run_bind]; try done.
  rewrite reserve_areas_app, (reserve_base_areas _ _ _ _ _ E2). destruct (reserve_areas _ a2); cbn [mbind run_bind]; try done.
  rewrite reserve_areas_app, (reserve_base_areas _ _ _ _ _ E3). destruct (reserve_areas _ a3); cbn [mbind run_bind]; try done.
  by apply reserve_mbi_areas.
Qed.

(** ** The end of bootstrap *)

(** [find_upper_mem] is the end of the RAM range that ends last, 0 without RAM. *)
Theorem find_upper_mem_spec :
  Forall (fun r => 0 <= mr_addr r /\ 0 <= mr_size r /\ mr_addr r + mr_size r < 2 ^ 64) mb_mmap_entries ->
  (forall r, r ∈ mb_mmap_entries -> mr_memory r = true -> mr_addr r + mr_size r <= find_upper_mem) /\
  (find_upper_mem = 0 \/ exists r, r ∈ mb_mmap_entries /\ mr_memory r = true /\ find_upper_mem = mr_addr r + mr_size r).
Proof.
  unfold find_upper_mem. induction mb_mmap_entries as [|r l IH] using rev_ind; intros Hall.
  { split; [|by left]. intros r Hr. by apply not_elem_of_nil in Hr. }
  apply Forall_app in Hall as [Hall [(Ha & Hs & He) _]%Forall_cons_iff]. destruct (IH Hall) as [Hmax Hat].
  rewrite foldl_snoc. set (x := foldl _ _ _) in *. unfold upper_mem_step. rewrite uwrap_small by (unfold in_u; lia).
  split.
  - intros r' [Hr'|Hr']%elem_of_app Hm; [specialize (Hmax r' Hr' Hm); split_if; lia|].
    apply list_elem_of_singleton in Hr' as ->. rewrite Hm. split_if; lia.
  - split_if.
    + right. exists r. split; [apply elem_of_app; right; by left|]. split; [|done]. by destruct (mr_memory r); [|lia].
    + destruct Hat as [?|(r' & Hr' & ?)]; [by left|]. right. exists r'. split; [apply elem_of_app; by left|done].
Qed.

(** Where a file wants to be does not depend on the reservations. *)
Lemma scan_resv resv resv' m elf :
  min_addr (scan_elf resv m elf) = min_addr (scan_elf resv' m elf) /\
  max_addr (scan_elf resv m elf) = max_addr (scan_elf resv' m elf) /\
  reloc_base (scan_elf resv m elf) = reloc_base (scan_elf resv' m elf).
Proof.
  assert (Hg : forall phs s s', min_addr s = min_addr s' -> max_addr s = max_addr s' -> max_align s = max_align s' ->
    let t := foldl (scan_phdr resv) s phs in let t' := foldl (scan_phdr resv') s' phs in
    min_addr t = min_addr t' /\ max_addr t = max_addr t' /\ max_align t = max_align t').
  { induction phs as [|ph phs IH]; intros s s' Ha Hb Hc; [done|]. cbn [foldl]. apply IH; unfold scan_phdr;
      destruct (is_load ph); cbn [negb min_addr max_addr max_align]; by rewrite ?Ha, ?Hb, ?Hc. }
  destruct (Hg (phdrs m elf) scan0 scan0 eq_refl eq_refl eq_refl) as (Ha & Hb & Hc).
  unfold scan_elf, reloc_base. by rewrite Ha, Hb, Hc.
Qed.

(** The 64-bit stage in memory, moved by [reloc]. *)
Definition stage_loaded (m : mem32) (elf reloc : Z) (m' : mem32) : Prop :=
  mem_eq m' (foldl (rela_image reloc) (load_image m elf reloc (phdrs m elf) m)
               (if reloc =? 0 then [] else relas m elf)).

Lemma round_superpage_le x : 0 <= x <= Max_initial_mem -> x <= round_superpage x <= Max_initial_mem.
Proof.
  intros Hx. unfold round_superpage, Max_initial_mem, SUPERPAGE_MASK in *.
  change (Z.shiftl 4 30) with (2 ^ 32) in *. change (Z.shiftl 1 21 - 1) with (2 ^ 21 - 1).
  rewrite uwrap_small by (unfold in_u; lia).
  change (u64 (Z.lnot (2 ^ 21 - 1))) with (Z.shiftl (Z.ones 43) 21).
  rewrite land_high_ones by lia. change (2 ^ 32) with (2048 * 2 ^ 21) in *. Z.div_mod_to_equations. lia.
Qed.

Variables (fuel : nat) (cpu_info : cpu_info_t) (img : image_info) (mbi len : Z) (ptrs : list Z)
  (p : pool_state) (mem : pmem) (m : mem32) (areas : list (Z * Z)).

Let elf := _binary_bootstrap64_bin_start img.
Let s := scan_elf [] m elf.

(** What the loader of the system and the linker provide: the multiboot information
    and the map can be read, the areas to keep fit the table, the 64-bit stage lies in
    the image, fits the address space and can be relocated, and the pool of tables is
    unused. *)
Record boot_env : Prop := {
  be_areas : boot_areas fuel img m mbi = Ret areas;
  be_areas_ok : areas_ok areas /\ (length areas <= Max_reservations)%nat;
  be_image : 0 <= _image_start img <= elf /\ elf + len <= _image_end img < 2 ^ 32;
  be_file : elf_file m elf len;
  be_reloc : elf_relocatable m elf len;
  be_span : min_addr s < 2 ^ 32 /\ 0 < max_addr s - reloc_base s < 2 ^ 32;
  be_top ph : ph ∈ phdrs m elf -> is_load ph = true -> p_paddr ph + p_memsz ph <> 2 ^ 32;
  be_map : mb_layout ptrs /\ ram_below_4g;
  be_upper : 2 <= boot_mem_upper m mbi;
  be_pool : pool_inv p mem /\ initialized p = false;
  be_fuel : (2 ^ 16 <= fuel)%nat /\ (Z.to_nat len < fuel)%nat;
}.

Hypothesis Hbe : boot_env.

Lemma boot_mem_upper_le : boot_mem_upper m mbi <= Max_initial_mem.
Proof.
  unfold boot_mem_upper. apply round_superpage_le. split.
  - assert (0 <= find_upper_mem).
    { unfold find_upper_mem. assert (Hg : forall l x, 0 <= x -> 0 <= foldl upper_mem_step x l); [|by apply Hg].
      induction l as [|r l IH]; intros x Hx; [done|]. cbn [foldl]. apply IH. unfold upper_mem_step.
      split_if; [|done]. by apply uwrap_nonneg. }
    destruct (find_upper_mem =? 0); cbn [orb]; split_if; try done. by apply uwrap_nonneg.
  - split_if; [done|]. lia.
Qed.

(** The loader at the end: with the table of reservations [resv] it panics, reads
    behind the memory map, or loads the 64-bit stage and changes no reserved byte. *)
Lemma load_stage resv st :
  Forall area_ok resv -> file_reserved resv elf len -> ma_range st = 0 ->
  let r := load_elf fuel fuel (Some (mm_alloc_alloc (S (S (length ptrs) * S (length resv))) (S (length ptrs)) resv))
             resv elf st m in
  r = Panicked \/ r = Oob \/
  exists reloc st' m', r = Ret (u32 (e_entry (rd_ehdr m elf) + reloc), st', m') /\
    kept resv m m' /\ stage_loaded m elf reloc m'.
Proof.
  intros Hok Hfr Hst. cbn zeta. destruct (scan_resv resv [] m elf) as (Emin & Emax & Ebase). fold s in Emin, Emax, Ebase.
  destruct (be_fuel Hbe) as [Hf Hl]. destruct (be_span Hbe) as [Hmin Hspan].
  destruct (need_reloc (scan_elf resv m elf)) eqn:En.
  - destruct (be_map Hbe) as [Hlay Hram].
    assert (Hat : mm_state_at ptrs st 0 0) by (by left).
    set (alloc := mm_alloc_alloc _ _ resv).
    destruct (mm_alloc_spec ptrs resv (max_addr s - reloc_base s) st 0 0 Hlay Hram Hok Hspan Hat) as [E|(a & st' & E & Hp)];
      fold alloc in E.
    + right; left. unfold load_elf. rewrite (ep_sane _ _ _ (be_file Hbe)), En. cbn [negb].
      rewrite Emax, Ebase, (uwrap_small 32 (max_addr s - reloc_base s)), E by (unfold in_u; lia). done.
    + destruct (decide (a = 0)) as [->|Hne].
      * left. unfold load_elf. rewrite (ep_sane _ _ _ (be_file Hbe)), En. cbn [negb].
        rewrite Emax, Ebase, (uwrap_small 32 (max_addr s - reloc_base s)), E by (unfold in_u; lia). done.
      * right; right. rewrite <- Emax, <- Ebase in *. rewrite <- Emin in Hmin.
        destruct (load_elf_relocated resv m elf len (be_file Hbe) Hfr Hok ptrs 0 0 a st st' fuel fuel En
          (be_reloc Hbe) Hmin Hspan Hlay Hram Hat E Hne Hf Hl) as (m' & Er & _ & Hk & Hm).
        eexists _, st', m'. split; [exact Er|]. done.
  - right; right. destruct (load_elf_in_place resv m elf len (be_file Hbe) Hfr Hok fuel fuel
      (Some (mm_alloc_alloc (S (S (length ptrs) * S (length resv))) (S (length ptrs)) resv)) st En (be_top Hbe)) as (m' & Er & Hk & Hm).
    + destruct (ep_phdrs _ _ _ (be_file Hbe)) as (_ & Hn & _). change (2 ^ 16)%nat with (Z.to_nat (2 ^ 16)) in Hf. lia.
    + exists 0, st, m'. rewrite Z.add_0_r. done.
Qed.


End Bootstrap_laws.

(** ** Example *)

Module Boot_example.
Import Elf_example.
#[local] Existing Instance round32.
#[local] Existing Instance Mm_example.map.

(** The multiboot structures as in their specification. *)
#[local] Instance mb : Mb_info := {|
  sizeof_mb_info := 88; sizeof_mb_mod := 16;
  rd_mbi m a := {| mbi_mem_upper := fld m a 8 4; mbi_cmdline := fld m a 16 4;
                   mbi_mods_addr := fld m a 24 4; mbi_mods_count := fld m a 20 4 |};
  rd_mod m a := {| mod_start := fld m a 0 4; mod_end := fld m a 4 4; mod_cmdline := fld m a 8 4 |};
  mb_mmap_entries := omap mb_entry Mm_example.ptrs;
|}.

Definition img : image_info :=
  {| _image_start := 0x100000; _image_end := 0x140000; _binary_bootstrap64_bin_start := ELF |}.

(** The 64-bit stage in the image, one module (the kernel) at [0x150000], the
    information at [0x9100] and the table of modules at [0x9200]. *)
Definition m : mem32 :=
  at_ ELF (file 0x180000) (at_ 0x150000 (file 0x1a0000)
    (at_ 0x9110 (le_split 4 0x9300 ++ le_split 4 1 ++ le_split 4 0x9200)
      (at_ 0x9200 (le_split 4 0x150000 ++ le_split 4 0x1500e0 ++ le_split 4 0x9301) (fun _ => 0)))).

Definition areas : list (Z * Z) :=
  [(0x100000, 0x40000); (0, 0x1000); (0x1000, 0x1000); (0x1a0000, 32); (0x9100, 88); (0x9300, 1);
   (0x9200, 16); (0x9301, 1); (0x150000, 224)].

Lemma boot_env_example :
  boot_env (2 ^ 16) img 0x9100 LEN Mm_example.ptrs Paging_example.pool0 ∅ m areas.
Proof.
  assert (Hph : phdrs m ELF = [the_phdr 0x180000]) by by_eval.
  assert (Hs : shdrs m ELF = [(ELF + 120, {| sh_type := 4; sh_offset := 184; sh_size := 24 |})]) by by_eval.
  split.
  - assert (Hf : exists k, (2 ^ 16)%nat = S k).
    { exists (Z.to_nat (2 ^ 16 - 1)). change (2 ^ 16)%nat with (Z.to_nat (2 ^ 16)). lia. }
    destruct Hf as [k ->]. by_eval.
  - split; [|vm_compute; lia]. refine (bool_decide_unpack _ _). vm_compute. exact I.
  - by_eval.
  - split; [by_eval|by_eval|by_eval|by_eval|]. intros ph. change (_binary_bootstrap64_bin_start img) with ELF. rewrite Hph.
    intros ->%list_elem_of_singleton _. cbn. unfold LEN. lia.
  - change (_binary_bootstrap64_bin_start img) with ELF. split; [by_eval|..].
    + rewrite Hs. intros p ->%list_elem_of_singleton. done.
    + rewrite Hs. intros p ->%list_elem_of_singleton _. by_eval.
    + replace (relas m ELF) with [{| r_offset := 0x180000; r_info := 8; r_addend := 0x180008 |}] by by_eval.
      intros rel ->%list_elem_of_singleton. split; [by_eval|]. exists (the_phdr 0x180000). rewrite Hph.
      split; [by left|]. by_eval.
  - by_eval.
  - change (_binary_bootstrap64_bin_start img) with ELF. rewrite Hph. intros ph ->%list_elem_of_singleton _. cbn. lia.
  - split; [exact Mm_example.layout|exact Mm_example.ram_below].
  - by_eval.
  - split; [exact Paging_example.pool0_inv|done].
  - split; [lia|]. unfold LEN. change (2 ^ 16)%nat with (Z.to_nat (2 ^ 16)). lia.
Defined.


Lemma find_upper_mem_spec_witness : find_upper_mem = 0x200000 /\
  (forall r, r ∈ mb_mmap_entries -> mr_memory r = true -> mr_addr r + mr_size r <= find_upper_mem).
Proof. split; [by_eval|]. apply find_upper_mem_spec. repeat constructor; by_eval. Defined.

(** A machine whose loader gives no memory map and whose upper memory ends at 4 GiB: the
    size is computed in 32 bits, so that nothing is mapped. *)
#[local] Instance mb_no_map : Mb_info := {|
  sizeof_mb_info := 88; sizeof_mb_mod := 16; rd_mbi := @rd_mbi mb; rd_mod := @rd_mod mb; mb_mmap_entries := [];
|}.

Theorem upper_mem_wraps : boot_mem_upper (at_ 0x9108 (le_split 4 0x3ffc00) m) 0x9100 = 0.
Proof. by_eval. Qed.
End Boot_example.
