(* ===== verification/Mqtt.v ===== *)
(** * The MQTT client

    [src/pkg/net-cluster/tools/mqtt/main.cc]: a program that publishes one message or
    prints the messages of a topic for some seconds, over the TCP connections of the
    network server.  The class [Net_svr] is the interface of that server
    ([src/pkg/netd/include/net_ipc.h]); the clock, and what the receive buffer on the
    stack contains before a receive, are the class [Client_env].  A computation returns
    the new state of the server and the list of what the program did. *)

From S2P Require Import Prelude.

(** ** The network server, seen from a client *)

(** [None]: an error code. *)
Class Net_svr (W : Type) := {
  ns_resolve : bytes -> W -> W * option Z;
  ns_tcp_connect : Z -> Z -> W -> W * option Z;
  (** the number of bytes sent *)
  ns_send : Z -> bytes -> W -> W * option Z;
  ns_recv : Z -> Z -> W -> W * option bytes;
  ns_close : Z -> W -> W;
}.

Class Client_env (W : Type) := {
  netd_valid : bool;
  kip_clock : W -> Z;
  stack_rb : W -> bytes;
}.

Inductive ev :=
  | E_print (s : bytes)
  | E_connect (ip port : Z) (h : option Z)
  | E_send (h : Z) (p : bytes) (ok : bool)
  | E_recv (h max : Z) (data : bytes)
  | E_close (h : Z).

(** ** Packets *)

(** [enc_rl]; an [int] has at most five digits of seven bits. *)
Fixpoint enc_rl_loop (fuel : nat) (len : Z) : run bytes :=
  match fuel with
  | O => Fuel_out
  | S fuel =>
      let b := u8 (Z.rem len 128) in
      let len := Z.quot len 128 in
      let b := if negb (len =? 0) then u8 (Z.lor b 0x80) else b in
      if negb (len =? 0) then t ← enc_rl_loop fuel len; Ret (b :: t) else Ret [b]
  end.

Definition enc_rl (len : Z) : run bytes := enc_rl_loop 5 len.

(** [buf[i]] *)
Definition at_idx (buf : bytes) (i : Z) : run Z :=
  if i <? 0 then Oob else or_oob (buf !! Z.to_nat i).

(** [dec_rl]: the value, -1 at the end of the data, and the new position. *)
Fixpoint dec_rl_loop (fuel : nat) (buf : bytes) (pos end_ mult val : Z) : run (Z * Z) :=
  match fuel with
  | O => Fuel_out
  | S fuel =>
      if end_ <=? pos then Ret (-1, pos)
      else
        b ← at_idx buf pos;
        let val := s32 (val + s32 (Z.land b 0x7f * mult)) in
        let mult := s32 (mult * 128) in
        if negb (Z.land b 0x80 =? 0) then dec_rl_loop fuel buf (pos + 1) end_ mult val
        else Ret (val, pos + 1)
  end.

Definition dec_rl (buf : bytes) (pos end_ : Z) : run (Z * Z) :=
  dec_rl_loop (S (Z.to_nat (end_ - pos))) buf pos end_ 1 0.

(** Appending to the buffer [p] of [cap] bytes; [i] is the length of what is there. *)
Definition put (cap : Z) (bs p : bytes) : run bytes :=
  if zlen p + zlen bs <=? cap then Ret (p ++ bs) else Oob.

(** [memcpy(p + i, s, n)] *)
Definition put_mem (cap : Z) (s : bytes) (n : Z) (p : bytes) : run bytes :=
  bs ← or_oob (rd_bytes 0 n s); put cap bs p.

(** [(n >> 8) & 0xff] and [n & 0xff] *)
Definition put_len (cap n : Z) (p : bytes) : run bytes :=
  p ← put cap [u8 (Z.land (Z.shiftr n 8) 0xff)] p; put cap [u8 (Z.land n 0xff)] p.

Definition put_rl (cap n : Z) (p : bytes) : run bytes := bs ← enc_rl n; put cap bs p.

Definition connect_var : bytes := [0x00; 0x04; 77; 81; 84; 84; 0x04; 0x02; 0x00; 0x3c].

Definition connect_packet (client_id : bytes) : run bytes :=
  let clen := s32 (zlen client_id) in
  p ← put 256 [0x10] [];
  p ← put_rl 256 (zlen connect_var + 2 + clen) p;
  p ← put 256 connect_var p;
  p ← put_len 256 clen p;
  put_mem 256 client_id clen p.

Definition publish_packet (topic msg : bytes) : run bytes :=
  let tl := s32 (zlen topic) in
  let ml := s32 (zlen msg) in
  p ← put 1024 [0x30] [];
  p ← put_rl 1024 (s32 (2 + tl + ml)) p;
  p ← put_len 1024 tl p;
  p ← put_mem 1024 topic tl p;
  put_mem 1024 msg ml p.

Definition subscribe_packet (topic : bytes) : run bytes :=
  let tl := s32 (zlen topic) in
  p ← put 256 [0x82] [];
  p ← put_rl 256 (s32 (2 + (2 + tl + 1))) p;
  p ← put 256 [0x00] p;
  p ← put 256 [0x01] p;
  p ← put_len 256 tl p;
  p ← put_mem 256 topic tl p;
  put 256 [0x00] p.

(** [%.*s] with the precision [n], where a negative one means none: the bytes up to a
    NUL. *)
Fixpoint print_prec (m : bytes) (n : Z) : run bytes :=
  if n =? 0 then Ret []
  else
    match m with
    | [] => Oob
    | c :: m => if c =? 0 then Ret [] else s ← print_prec m (n - 1); Ret (c :: s)
    end.

Definition print_at (buf : bytes) (off prec : Z) : run bytes :=
  if off <? 0 then Oob else print_prec (drop (Z.to_nat off) buf) prec.

Definition atoi_ws (c : Z) : bool := (c =? 32) || ((9 <=? c) && (c <=? 13)).

Fixpoint atoi_digits (s : bytes) (acc : Z) : Z :=
  match s with
  | c :: t => if isdigit c then atoi_digits t (acc * 10 + (c - 48)) else acc
  | [] => acc
  end.

Fixpoint atoi (s : bytes) : Z :=
  match s with
  | [] => 0
  | c :: t =>
      if atoi_ws c then atoi t
      else s32 (if c =? 45 then - atoi_digits t 0 else if c =? 43 then atoi_digits t 0 else atoi_digits s 0)
  end.

(** CONNACK with return code 0 *)
Definition connack_ok (r : bytes) : bool :=
  (4 <=? zlen r) && (Z.shiftr (c_at r 0) 4 =? 2) && (c_at r 3 =? 0).

Section Client.
Context {W : Type} `{!Net_svr W} `{!Client_env W}.

Abbreviation act := (prog (W * list ev)) (only parsing).

Definition emit (e : ev) : act unit := fun '(w, tr) => ((w, tr ++ [e]), Ret tt).

Definition print (s : bytes) : act unit := emit (E_print s).

(** [mq_send] *)
Definition mq_send (g_h : Z) (p : bytes) : act bool := fun '(w, tr) =>
  let '(w, r) := ns_send g_h p w in
  let ok := bool_decide (is_Some r) in
  ((w, tr ++ [E_send g_h p ok]), Ret ok).

(** [mq_recv]: the bytes now at the start of the buffer. *)
Definition mq_recv (g_h max : Z) : act bytes := fun '(w, tr) =>
  let '(w, r) := ns_recv g_h max w in
  let data := default [] r in
  ((w, tr ++ [E_recv g_h max data]), Ret data).

Definition net_close (g_h : Z) : act unit := fun '(w, tr) => ((ns_close g_h w, tr ++ [E_close g_h]), Ret tt).

Definition mqtt_connect (g_h : Z) (client_id : bytes) : act bool :=
  p ← lift (connect_packet client_id);
  ok ← mq_send g_h p;
  if negb ok then mret false
  else
    r ← mq_recv g_h 8;
    mret (connack_ok r).

Definition mqtt_publish (g_h : Z) (topic msg : bytes) : act bool :=
  p ← lift (publish_packet topic msg); mq_send g_h p.

Definition mqtt_subscribe (g_h : Z) (topic : bytes) : act bool :=
  p ← lift (subscribe_packet topic);
  ok ← mq_send g_h p;
  if negb ok then mret false
  else r ← mq_recv g_h 8; mret ((4 <=? zlen r) && (Z.shiftr (c_at r 0) 4 =? 9)).

Definition mqtt_disconnect (g_h : Z) : act unit := mq_send g_h [0xe0; 0x00] ≫= fun _ => mret tt.
Definition mqtt_pingreq (g_h : Z) : act unit := mq_send g_h [0xc0; 0x00] ≫= fun _ => mret tt.

(** The text printed for a message at [pos]. *)
Definition message_text (rb : bytes) (pos rl : Z) : run bytes :=
  b0 ← at_idx rb pos;
  b1 ← at_idx rb (pos + 1);
  let tl := Z.lor (Z.shiftl b0 8) b1 in
  let plen := rl - 2 - tl in
  t ← print_at rb (pos + 2) tl;
  pl ← print_at rb (pos + 2 + tl) plen;
  Ret (str "mqtt: [" ++ t ++ str "] " ++ pl ++ [10]).

(** The packets of one receive: [got] bytes of [rb]. *)
Fixpoint recv_packets (fuel : nat) (rb : bytes) (got pos : Z) : act unit :=
  match fuel with
  | O => lift Fuel_out
  | S fuel =>
      if negb (pos <? got) then mret tt
      else
        b ← lift (at_idx rb pos);
        let type := Z.shiftr b 4 in
        '(rl, pos) ← lift (dec_rl rb (pos + 1) got);
        if (rl <? 0) || (got <? s32 (pos + rl)) then mret tt
        else
          (if type =? 3 then s ← lift (message_text rb pos rl); print s else mret tt) ≫= fun _ =>
          recv_packets fuel rb got (s32 (pos + rl))
  end.

(** The loop of a subscriber; [rb] is the buffer with the data at its start. *)
Fixpoint listen (fuel : nat) (g_h start dur polls : Z) : act unit :=
  match fuel with
  | O => lift Fuel_out
  | S fuel => fun s =>
      if negb (kip_clock (fst s) -[64] start <? dur) then (s, Ret tt)
      else
        (data ← mq_recv g_h 1024;
         let got := zlen data in
         if got =? 0 then
           let polls := polls + 1 in
           (if Z.rem polls 15 =? 0 then mqtt_pingreq g_h else mret tt) ≫= fun _ =>
           listen fuel g_h start dur polls
         else
           let rb := data ++ drop (length data) (stack_rb (fst s)) in
           recv_packets (S (Z.to_nat got)) rb got 0 ≫= fun _ =>
           listen fuel g_h start dur polls) s
  end.

(** [main] after the checks of its arguments: a connection to the broker.  [msg]: the
    optional fourth argument. *)
Definition session (fuel : nat) (is_sub : bool) (g_h : Z) (broker topic : bytes) (msg : option bytes) : act Z :=
  ok ← mqtt_connect g_h (str "turingos-mqtt");
  if negb ok then
    print (str "mqtt: CONNECT refused" ++ [10]) ≫= fun _ =>
    net_close g_h ≫= fun _ => mret 1
  else
    print (str "mqtt: connected to " ++ broker ++ str ":1883" ++ [10]) ≫= fun _ =>
    let finish := mqtt_disconnect g_h ≫= fun _ => net_close g_h ≫= fun _ => mret 0 in
    if negb is_sub then
      let msg := default [] msg in
      ok ← mqtt_publish g_h topic msg;
      (if ok : bool then print (str "mqtt: published to '" ++ topic ++ str "': " ++ msg ++ [10])
       else print (str "mqtt: publish failed" ++ [10])) ≫= fun _ => finish
    else
      ok ← mqtt_subscribe g_h topic;
      if negb ok then
        print (str "mqtt: SUBSCRIBE failed" ++ [10]) ≫= fun _ =>
        mqtt_disconnect g_h ≫= fun _ => net_close g_h ≫= fun _ => mret 1
      else
        let secs := match msg with Some s => atoi s | None => 10 end in
        print (str "mqtt: subscribed to '" ++ topic ++ str "', listening " ++ fmtd secs ++ str "s..." ++ [10]) ≫= fun _ =>
        (fun s => listen fuel g_h (kip_clock (fst s)) (u64 (secs * 1000000)) 0 s) ≫= fun _ => finish.

Definition usage : bytes :=
  str "usage: mqtt pub <broker> <topic> <message>   (plaintext :1883)" ++ [10] ++
  str "       mqtt sub <broker> <topic> [seconds]" ++ [10].

(** [main]; the first word of [argv] is the name of the program. *)
Definition main (fuel : nat) (argv : list bytes) : act Z :=
  match argv with
  | _ :: op :: broker :: topic :: rest =>
      if bool_decide (op = str "pubs") || bool_decide (op = str "subs") then
        print (str "mqtt: TLS (" ++ op ++ str ") not yet supported via netd " ++ [0xe2; 0x80; 0x94] ++ str " use pub/sub" ++ [10])
          ≫= fun _ => mret 1
      else
        let is_sub := bool_decide (op = str "sub") in
        if negb is_sub && negb (bool_decide (op = str "pub")) then
          print (str "mqtt: unknown op '" ++ op ++ str "' (pub|sub)" ++ [10]) ≫= fun _ => mret 1
        else if negb netd_valid then print (str "mqtt: netd unavailable" ++ [10]) ≫= fun _ => mret 1
        else
          ip ← (fun '(w, tr) => let '(w, r) := ns_resolve broker w in ((w, tr), Ret r));
          match ip with
          | None => print (str "mqtt: can't resolve broker '" ++ broker ++ str "'" ++ [10]) ≫= fun _ => mret 1
          | Some ip_be =>
              h ← (fun '(w, tr) => let '(w, r) := ns_tcp_connect ip_be 1883 w in
                                   ((w, tr ++ [E_connect ip_be 1883 r]), Ret r));
              match h with
              | None => print (str "mqtt: can't connect to " ++ broker ++ str ":1883" ++ [10]) ≫= fun _ => mret 1
              | Some g_h => session fuel is_sub g_h broker topic (head rest)
              end
          end
  | _ => print usage ≫= fun _ => mret 1
  end.

End Client.

(** ** The length field *)

(** What [enc_rl] writes can be read back anywhere in a buffer. *)
Lemma enc_rl_loop_total fuel n : (1 <= fuel)%nat -> 0 <= n < 128 ^ Z.of_nat fuel ->
  exists bs, enc_rl_loop fuel n = Ret bs /\ bytes_ok bs /\ (1 <= length bs <= fuel)%nat.
Proof.
  revert n. induction fuel as [|fuel IH]; intros n Hf Hn; [lia|]. cbn [enc_rl_loop].
  rewrite Z.rem_mod_nonneg, Z.quot_div_nonneg by lia. pose proof (Z.mod_pos_bound n 128 ltac:(lia)) as Hm.
  destruct (n / 128 =? 0) eqn:E; cbn [negb].
  { eexists. split; [done|]. split; [|cbn; lia]. constructor; [|constructor]. rewrite uwrap_small by (unfold in_u; lia).
    unfold byte_ok. lia. }
  destruct fuel as [|fuel].
  { cbn in Hn. assert (n / 128 = 0) by (apply Z.div_small; lia). lia. }
  destruct (IH (n / 128)) as (bs & -> & Hb & Hl); [lia|..].
  { rewrite (Nat2Z.inj_succ (S fuel)), Z.pow_succ_r in Hn by lia. split; [apply Z.div_pos; lia|].
    apply Z.div_lt_upper_bound; lia. }
  cbn [mbind run_bind]. eexists. split; [done|]. split; [|cbn; lia]. constructor; [|done].
  pose proof (uwrap_range 8 (Z.lor (u8 (n mod 128)) 128) ltac:(lia)). unfold in_u, byte_ok in *. lia.
Qed.

(** The two parts of a length byte. *)
Lemma rl_byte n more : 0 <= n ->
  let b := if (more : bool) then u8 (Z.lor (u8 (Z.rem n 128)) 0x80) else u8 (Z.rem n 128) in
  Z.land b 0x7f = n mod 128 /\ negb (Z.land b 0x80 =? 0) = more.
Proof.
  intros Hn. cbn zeta. rewrite Z.rem_mod_nonneg by lia. pose proof (Z.mod_pos_bound n 128 ltac:(lia)) as Hm.
  rewrite (uwrap_small 8 (n mod 128)) by (unfold in_u; lia).
  assert (Hor : Z.lor (n mod 128) 128 = n mod 128 + 128).
  { rewrite Z.lor_comm. change 128 with (1 * 2 ^ 7) at 1. rewrite (lor_disjoint 1 (n mod 128) 7) by lia. lia. }
  change 0x7f with (Z.ones 7). rewrite !Z.land_ones by lia. change (2 ^ 7) with 128.
  change 0x80 with (2 ^ 7).
  destruct more.
  - change (2 ^ 7) with 128. rewrite Hor, uwrap_small by (unfold in_u; lia). split; [Z.div_mod_to_equations; lia|].
    change 128 with (2 ^ 7). rewrite land_pow2_testbit by lia. apply Z.testbit_true; [lia|].
    change (2 ^ 7) with 128. Z.div_mod_to_equations. lia.
  - split; [by rewrite Z.mod_mod by lia|]. rewrite land_pow2_testbit by lia. apply Z.testbit_false; [lia|].
    change (2 ^ 7) with 128. rewrite Z.div_small by lia. done.
Qed.

(** [buf] holds [bs] at position [pos]. *)
Definition holds (buf : bytes) (pos : Z) (bs : bytes) : Prop :=
  0 <= pos /\ forall i b, bs !! i = Some b -> buf !! (Z.to_nat pos + i)%nat = Some b.

Lemma holds_cons buf pos b bs : holds buf pos (b :: bs) -> at_idx buf pos = Ret b /\ holds buf (pos + 1) bs.
Proof.
  intros [Hp H]. split.
  - unfold at_idx. replace (pos <? 0) with false by lia. specialize (H 0%nat b eq_refl). rewrite Nat.add_0_r in H. by rewrite H.
  - split; [lia|]. intros i x Hi. replace (Z.to_nat (pos + 1) + i)%nat with (Z.to_nat pos + S i)%nat by lia. by apply H.
Qed.

Lemma holds_app buf pos l r : holds buf pos (l ++ r) -> holds buf pos l /\ holds buf (pos + zlen l) r.
Proof.
  intros [Hp H]. unfold zlen. split; (split; [lia|]); intros i x Hi.
  - apply H. by apply lookup_app_l_Some.
  - replace (Z.to_nat (pos + Z.of_nat (length l)) + i)%nat with (Z.to_nat pos + (length l + i))%nat by lia.
    apply H. by rewrite lookup_app_r, Nat.add_comm, Nat.add_sub by lia.
Qed.

Lemma holds_mid pre bs post : holds (pre ++ bs ++ post) (zlen pre) bs.
Proof.
  unfold zlen. split; [lia|]. intros i x Hi. rewrite Nat2Z.id, lookup_app_r by lia.
  replace (length pre + i - length pre)%nat with i by lia. by apply lookup_app_l_Some.
Qed.

Lemma dec_enc_loop fuel n bs : enc_rl_loop fuel n = Ret bs -> 0 <= n ->
  forall dfuel buf pos end_ mult val, 0 < mult -> 0 <= val -> val + n * mult < 2 ^ 31 ->
  holds buf pos bs -> pos + zlen bs <= end_ -> (length bs <= dfuel)%nat ->
  dec_rl_loop dfuel buf pos end_ mult val = Ret (val + n * mult, pos + zlen bs).
Proof.
  revert n bs. induction fuel as [|fuel IH]; intros n bs E Hn dfuel buf pos end_ mult val Hm Hv Hlim Hh He Hd; [done|].
  cbn [enc_rl_loop] in E. pose proof (rl_byte n (negb (Z.quot n 128 =? 0)) Hn) as [Hlo Hhi].
  rewrite Z.quot_div_nonneg in * by lia. set (b := if negb (n / 128 =? 0) then u8 _ else u8 _) in *.
  pose proof (Z.div_mod n 128 ltac:(lia)) as Hdm. pose proof (Z.mod_pos_bound n 128 ltac:(lia)) as Hmod.
  assert (Hdiv : 0 <= n / 128) by (apply Z.div_pos; lia).
  assert (Hbs : exists t, bs = b :: t /\ (negb (n / 128 =? 0) = true -> enc_rl_loop fuel (n / 128) = Ret t) /\
                          (negb (n / 128 =? 0) = false -> t = [])).
  { subst b. destruct (negb (n / 128 =? 0)).
    - inv_run E. injection E as <-. by exists x.
    - injection E as <-. by exists []. }
  destruct Hbs as (t & -> & Hmore & Hless). destruct dfuel as [|dfuel]; [cbn in Hd; lia|]. cbn [dec_rl_loop].
  apply holds_cons in Hh as [Hat Hh]. rewrite zlen_cons in *. pose proof (zlen_nonneg t).
  replace (end_ <=? pos) with false by lia. rewrite Hat. cbn [mbind run_bind]. rewrite Hlo, Hhi.
  assert (Hstep : (n mod 128) * mult <= n * mult) by (apply Z.mul_le_mono_nonneg_r; lia).
  assert (0 <= (n mod 128) * mult) by (apply Z.mul_nonneg_nonneg; lia).
  rewrite !(swrap_small 32) with (x := (n mod 128) * mult) by lia.
  rewrite (swrap_small 32 (val + _)) by lia.
  destruct (negb (n / 128 =? 0)) eqn:C.
  - assert (Hm1 : mult * 128 <= n * mult) by nia. rewrite swrap_small by lia.
    rewrite (IH (n / 128) t (Hmore eq_refl) Hdiv); [f_equal; f_equal; [nia|lia]|lia|lia| |done|lia|cbn in Hd; lia].
    nia.
  - rewrite (Hless eq_refl). change (@zlen Z []) with 0.
    assert (n / 128 = 0) by lia. replace (n mod 128) with n by lia. do 2 f_equal; lia.
Qed.

(** At the end of the data in the middle of a length, [dec_rl] says so. *)
Lemma dec_cut_loop fuel n l r : enc_rl_loop fuel n = Ret (l ++ r) -> 0 <= n -> r <> [] ->
  forall dfuel buf pos mult val, holds buf pos l -> (length l < dfuel)%nat ->
  dec_rl_loop dfuel buf pos (pos + zlen l) mult val = Ret (-1, pos + zlen l).
Proof.
  revert n l. induction fuel as [|fuel IH]; intros n l E Hn Hr dfuel buf pos mult val Hh Hd; [done|].
  destruct dfuel as [|dfuel]; [lia|]. cbn [dec_rl_loop]. destruct l as [|c l].
  { change (@zlen Z []) with 0. rewrite Z.add_0_r, Z.leb_refl. done. }
  rewrite zlen_cons. pose proof (zlen_nonneg l). replace (pos + (1 + zlen l) <=? pos) with false by lia.
  apply holds_cons in Hh as [Hat Hh]. rewrite Hat. cbn [mbind run_bind].
  cbn [enc_rl_loop] in E. pose proof (rl_byte n (negb (Z.quot n 128 =? 0)) Hn) as [_ Hhi].
  rewrite Z.quot_div_nonneg in * by lia. destruct (negb (n / 128 =? 0)) eqn:C.
  - inv_run E. injection E as <- ->. rewrite Hhi.
    replace (pos + (1 + zlen l)) with (pos + 1 + zlen l) by lia.
    apply (IH (n / 128)); try done; [apply Z.div_pos; lia|cbn in Hd; lia].
  - injection E as _ E. symmetry in E. apply app_eq_nil in E as [_ ?]. done.
Qed.

(** The length field of a packet, written by [enc_rl] anywhere in a buffer and read by
    [dec_rl], is the same number, and the position is behind it; this holds for every
    length an [int] can have. *)
Theorem rl_round_trip n pre post : 0 <= n < 2 ^ 31 ->
  exists bs, enc_rl n = Ret bs /\ (1 <= length bs <= 5)%nat /\ bytes_ok bs /\
    forall end_, zlen pre + zlen bs <= end_ ->
      dec_rl (pre ++ bs ++ post) (zlen pre) end_ = Ret (n, zlen pre + zlen bs).
Proof.
  intros Hn. unfold enc_rl. destruct (enc_rl_loop_total 5 n) as (bs & E & Hb & Hl); [lia|cbn; lia|].
  exists bs. split; [done|]. split; [done|]. split; [done|]. intros end_ He. unfold dec_rl.
  rewrite (dec_enc_loop 5 n bs E); [f_equal; f_equal; lia|lia|lia|lia|lia|apply holds_mid|done|].
  unfold zlen in *. lia.
Qed.

(** ** Packets on the wire *)

(** A message of quality 0, or any packet of another type. *)
Inductive packet := P_publish (flags : Z) (topic msg : bytes) | P_other (header : Z) (body : bytes).

Definition publish_body (topic msg : bytes) : bytes :=
  [u8 (zlen topic / 256); u8 (zlen topic)] ++ topic ++ msg.

Definition packet_header (p : packet) : Z := match p with P_publish f _ _ => 48 + f | P_other h _ => h end.

Definition packet_body (p : packet) : bytes :=
  match p with P_publish _ t m => publish_body t m | P_other _ b => b end.

Definition rl_bytes (n : Z) : bytes := match enc_rl n with Ret bs => bs | _ => [] end.

Definition encode (p : packet) : bytes := packet_header p :: rl_bytes (zlen (packet_body p)) ++ packet_body p.

Definition encode_all (ps : list packet) : bytes := foldr (fun p t => encode p ++ t) [] ps.

(** The limits of the protocol. *)
Definition packet_ok (p : packet) : Prop :=
  zlen (packet_body p) < 2 ^ 28 /\
  match p with
  | P_publish f t _ => 0 <= f < 16 /\ zlen t < 2 ^ 16
  | P_other h _ => byte_ok h /\ Z.shiftr h 4 <> 3
  end.

(** What the client prints for a packet: topic and message up to a NUL. *)
Definition shown (p : packet) : option ev :=
  match p with
  | P_publish _ t m => Some (E_print (str "mqtt: [" ++ cstr t ++ str "] " ++ cstr m ++ [10]))
  | P_other _ _ => None
  end.

Lemma rl_bytes_spec n : 0 <= n < 2 ^ 31 -> enc_rl n = Ret (rl_bytes n) /\ (1 <= length (rl_bytes n) <= 5)%nat.
Proof.
  intros Hn. unfold rl_bytes, enc_rl. destruct (enc_rl_loop_total 5 n) as (bs & -> & _ & Hl); [lia|cbn; lia|]. done.
Qed.

Lemma dec_rl_at n buf pos end_ : 0 <= n < 2 ^ 31 -> holds buf pos (rl_bytes n) -> pos + zlen (rl_bytes n) <= end_ ->
  dec_rl buf pos end_ = Ret (n, pos + zlen (rl_bytes n)).
Proof.
  intros Hn Hh He. destruct (rl_bytes_spec n Hn) as [E _]. unfold dec_rl.
  rewrite (dec_enc_loop 5 n (rl_bytes n) E); [do 2 f_equal; lia|lia|lia|lia|lia|done|done|]. unfold zlen in *. lia.
Qed.

Lemma dec_rl_cut n l r buf pos : 0 <= n < 2 ^ 31 -> rl_bytes n = l ++ r -> r <> [] -> holds buf pos l ->
  dec_rl buf pos (pos + zlen l) = Ret (-1, pos + zlen l).
Proof.
  intros Hn E Hr Hh. destruct (rl_bytes_spec n Hn) as [E' _]. rewrite E in E'. unfold dec_rl.
  apply (dec_cut_loop 5 n l r); [done|lia|done|done|]. unfold zlen. lia.
Qed.

Lemma print_prec_app s rest : print_prec (s ++ rest) (zlen s) = Ret (cstr s).
Proof.
  induction s as [|c s IH]; [by destruct rest|]. rewrite zlen_cons. pose proof (zlen_nonneg s). cbn [app print_prec cstr].
  replace (1 + zlen s =? 0) with false by lia. destruct (c =? 0); [done|].
  replace (1 + zlen s - 1) with (zlen s) by lia. by rewrite IH.
Qed.

(** [buf] has [bs] at [pos], and nothing else is read. *)
Lemma holds_drop buf pos bs : holds buf pos bs -> exists rest, drop (Z.to_nat pos) buf = bs ++ rest.
Proof.
  intros [Hp H]. exists (drop (length bs) (drop (Z.to_nat pos) buf)).
  rewrite <- (take_drop (length bs) (drop (Z.to_nat pos) buf)) at 1. f_equal.
  apply list_eq. intros i. destruct (decide (i < length bs)%nat) as [Hi|Hi].
  - rewrite lookup_take_lt, lookup_drop by done. destruct (lookup_lt_is_Some_2 bs i Hi) as [b Hb].
    rewrite Hb. by apply H.
  - rewrite lookup_take_ge, lookup_ge_None_2 by lia. done.
Qed.

Lemma print_at_holds buf off s : holds buf off s -> print_at buf off (zlen s) = Ret (cstr s).
Proof.
  intros Hh. unfold print_at. destruct (holds_drop buf off s Hh) as [rest ->]. destruct Hh as [Hp _].
  replace (off <? 0) with false by lia. apply print_prec_app.
Qed.

Lemma topic_length n : 0 <= n < 2 ^ 16 -> Z.lor (Z.shiftl (u8 (n / 256)) 8) (u8 n) = n.
Proof.
  intros Hn. assert (n / 256 < 256) by (apply Z.div_lt_upper_bound; lia).
  rewrite (uwrap_small 8 (n / 256)) by (unfold in_u; split; [apply Z.div_pos; lia|lia]).
  rewrite Z.shiftl_mul_pow2 by lia. unfold uwrap. pose proof (Z.mod_pos_bound n (2 ^ 8) ltac:(lia)).
  rewrite lor_disjoint by lia. change (2 ^ 8) with 256. pose proof (Z.div_mod n 256). lia.
Qed.

Lemma message_text_spec buf pos t m : holds buf pos (publish_body t m) -> zlen t < 2 ^ 16 ->
  message_text buf pos (zlen (publish_body t m)) = Ret (str "mqtt: [" ++ cstr t ++ str "] " ++ cstr m ++ [10]).
Proof.
  intros Hh Ht. unfold message_text, publish_body in *. cbn [app] in *. pose proof (zlen_nonneg t).
  apply holds_cons in Hh as [-> Hh]. apply holds_cons in Hh as [-> Hh]. cbn [mbind run_bind].
  rewrite topic_length by lia. replace (pos + 1 + 1) with (pos + 2) in Hh by lia. apply holds_app in Hh as [H1 H2].
  rewrite (print_at_holds _ _ _ H1). cbn [mbind run_bind]. rewrite !zlen_cons, zlen_app.
  replace (1 + (1 + (zlen t + zlen m)) - 2 - zlen t) with (zlen m) by lia.
  rewrite (print_at_holds _ _ _ H2). done.
Qed.

Lemma header_type p : packet_ok p ->
  (Z.shiftr (packet_header p) 4 =? 3) = match p with P_publish _ _ _ => true | _ => false end.
Proof.
  intros [_ Hp]. destruct p as [f t m|h b]; cbn.
  - destruct Hp as [Hf _]. rewrite Z.shiftr_div_pow2 by lia. apply Z.eqb_eq. change (2 ^ 4) with 16.
    Z.div_mod_to_equations. lia.
  - destruct Hp as [_ Hp]. by apply Z.eqb_neq.
Qed.

Section Receive.
Context {W : Type} `{!Net_svr W} `{!Client_env W}.

(** One whole packet in the buffer. *)
Lemma recv_packet fuel rb got pos p s : packet_ok p -> got < 2 ^ 30 ->
  holds rb pos (encode p) -> pos + zlen (encode p) <= got ->
  recv_packets (W := W) (S fuel) rb got pos s =
    recv_packets fuel rb got (pos + zlen (encode p)) (fst s, snd s ++ option_list (shown p)).
Proof.
  intros Hp Hg Hh He. pose proof Hp as [Hlen _]. unfold encode in *. rewrite zlen_cons, zlen_app in *.
  apply holds_cons in Hh as [Hat Hh]. apply holds_app in Hh as [Hrl Hbody]. cbn [recv_packets].
  pose proof (zlen_nonneg (packet_body p)) as Hn. pose proof (zlen_nonneg (rl_bytes (zlen (packet_body p)))).
  pose proof Hrl as [Hpos _]. replace (pos <? got) with true by lia. cbn [negb].
  unfold lift, mbind, prog_bind. rewrite Hat. rewrite (dec_rl_at (zlen (packet_body p))) by (done || lia).
  replace (zlen (packet_body p) <? 0) with false by lia. rewrite swrap_small by lia.
  match goal with |- context [?g <? ?e] => replace (g <? e) with false by lia end. cbn [orb].
  rewrite (header_type p Hp). destruct s as [w tr].
  replace (pos + (1 + (zlen (rl_bytes (zlen (packet_body p))) + zlen (packet_body p))))
    with (pos + 1 + zlen (rl_bytes (zlen (packet_body p))) + zlen (packet_body p)) by lia.
  destruct p as [f t m|h b]; cbn [packet_body shown option_list] in *.
  - destruct Hp as [_ [_ Ht]]. rewrite (message_text_spec _ _ _ _ Hbody Ht). done.
  - by rewrite app_nil_r.
Qed.

(** A packet that is cut off by the end of the data. *)
Lemma recv_cut fuel rb pos p l r s : packet_ok p -> encode p = l ++ r -> r <> [] -> holds rb pos l ->
  pos + zlen l < 2 ^ 30 ->
  recv_packets (W := W) (S fuel) rb (pos + zlen l) pos s = (s, Ret tt).
Proof.
  intros [Hlen _] E Hr Hh Hlim. cbn [recv_packets]. destruct l as [|c l].
  { change (@zlen Z []) with 0. rewrite Z.add_0_r, Z.ltb_irrefl. done. }
  rewrite zlen_cons in *. pose proof (zlen_nonneg l). replace (pos <? _) with true by lia. cbn [negb].
  apply holds_cons in Hh as [Hat Hh]. unfold lift, mbind, prog_bind. rewrite Hat.
  unfold encode in E. injection E as _ E. set (n := zlen (packet_body p)) in *. pose proof (zlen_nonneg (packet_body p)).
  replace (pos + (1 + zlen l)) with (pos + 1 + zlen l) by lia.
  assert (Hcase : (exists r', rl_bytes n = l ++ r' /\ r' <> []) \/ (exists l', l = rl_bytes n ++ l' /\ zlen l' < n)).
  { apply app_eq_inv in E as [(k & E1 & E2)|(k & E1 & E2)].
    - destruct k as [|x k]; [|by left; exists (x :: k)]. right. exists []. rewrite app_nil_r in E1. rewrite app_nil_r.
      split; [done|]. cbn [app] in E2. subst r. destruct (packet_body p); [done|]. unfold n. rewrite zlen_cons.
      change (@zlen Z []) with 0. pose proof (zlen_nonneg l0). lia.
    - right. exists k. split; [done|]. unfold n. rewrite E2, zlen_app. destruct r; [done|]. rewrite zlen_cons.
      pose proof (zlen_nonneg r). lia. }
  destruct Hcase as [(r' & E1 & Hr')|(l' & -> & Hlt)].
  - rewrite (dec_rl_cut n l r') by (done || lia). done.
  - apply holds_app in Hh as [Hh _]. rewrite zlen_app. pose proof (zlen_nonneg l').
    rewrite (dec_rl_at n) by (done || lia). destruct Hh as [Hp _]. rewrite zlen_app in Hlim.
    pose proof (zlen_nonneg (rl_bytes n)). replace (n <? 0) with false by lia. rewrite swrap_small by lia.
    replace (_ <? _) with true by lia. done.
Qed.

(** A receive that brings whole packets and perhaps the start of one more: the client
    prints every message of the whole packets, once and in order, with topic and text,
    skips the packets of other types, and stays inside of the data; what is in the
    buffer behind the data does not matter. *)
Theorem received_messages ps q l r junk w tr : Forall packet_ok ps -> packet_ok q -> encode q = l ++ r -> r <> [] ->
  let data := encode_all ps ++ l in
  zlen data < 2 ^ 30 ->
  recv_packets (W := W) (S (Z.to_nat (zlen data))) (data ++ junk) (zlen data) 0 (w, tr)
  = ((w, tr ++ omap shown ps), Ret tt).
Proof.
  intros Hps Hq E Hr. cbn zeta. intros Hlim.
  set (data := encode_all ps ++ l) in *.
  assert (Hgen : forall ps pos s fuel, Forall packet_ok ps -> holds (data ++ junk) pos (encode_all ps ++ l) ->
    pos + zlen (encode_all ps ++ l) = zlen data -> (length ps < fuel)%nat ->
    recv_packets (W := W) fuel (data ++ junk) (zlen data) pos s = ((fst s, snd s ++ omap shown ps), Ret tt)).
  { clear Hps. induction ps0 as [|p ps0 IH]; intros pos s fuel Hps Hh He Hf; (destruct fuel as [|fuel]; [lia|]).
    - cbn [encode_all foldr app omap list_omap] in *. rewrite <- He, (recv_cut fuel _ pos q l r) by (done || lia).
      destruct s. cbn. by rewrite app_nil_r.
    - apply Forall_cons_iff in Hps as [Hp Hps]. cbn [encode_all foldr] in *. fold (encode_all ps0) in *.
      rewrite <- app_assoc in Hh, He. rewrite zlen_app in He. apply holds_app in Hh as [H1 H2].
      match type of He with _ + (_ + zlen ?x) = _ => pose proof (zlen_nonneg x) end.
      rewrite (recv_packet fuel (data ++ junk) (zlen data) pos p s Hp Hlim H1) by lia.
      rewrite IH; [|done|exact H2|rewrite <- Z.add_assoc; exact He|cbn in Hf; lia]. cbn [fst snd omap list_omap].
      rewrite <- app_assoc. by destruct (shown p). }
  rewrite (Hgen ps); [done|done| |done|].
  - split; [lia|]. intros i b Hi. cbn. by apply lookup_app_l_Some.
  - assert (Hl : (length ps <= length (encode_all ps))%nat).
    { clear. induction ps as [|p ps IH]; cbn [encode_all foldr length]; [done|]. fold (encode_all ps).
      rewrite length_app. unfold encode at 1. cbn [length]. lia. }
    unfold data, zlen. rewrite length_app. lia.
Qed.

End Receive.

(** ** What is sent *)

Lemma put_put {A} cap a b p (k : bytes -> run A) :
  (p ← put cap a p; p ← put cap b p; k p) = (p ← put cap (a ++ b) p; k p).
Proof.
  unfold put. rewrite !zlen_app. pose proof (zlen_nonneg b). destruct (zlen p + zlen a <=? cap) eqn:E; cbn [mbind run_bind].
  - rewrite zlen_app. replace (zlen p + zlen a + zlen b <=? cap) with (zlen p + (zlen a + zlen b) <=? cap) by (f_equal; lia).
    split_if; [|done]. cbn. by rewrite app_assoc.
  - replace (_ <=? cap) with false by lia. done.
Qed.

Lemma put_last cap a b p : (p ← put cap a p; put cap b p) = put cap (a ++ b) p.
Proof.
  pose proof (put_put cap a b p Ret) as E. destruct (put cap (a ++ b) p); cbn in *; rewrite <- E;
    destruct (put cap a p) as [p1| | | | |]; cbn; try done; by destruct (put cap b p1).
Qed.

Lemma put_rl_bytes {A} cap n p (k : bytes -> run A) : 0 <= n < 2 ^ 31 ->
  (p ← put_rl cap n p; k p) = (p ← put cap (rl_bytes n) p; k p).
Proof. intros Hn. unfold put_rl. destruct (rl_bytes_spec n Hn) as [-> _]. done. Qed.

Lemma put_len_bytes {A} cap n p (k : bytes -> run A) : 0 <= n ->
  (p ← put_len cap n p; k p) = (p ← put cap [u8 (n / 256); u8 n] p; k p).
Proof.
  intros Hn. unfold put_len. rewrite put_last. cbn [app]. do 2 f_equal. f_equal; [|f_equal].
  - rewrite Z.shiftr_div_pow2 by lia. change 0xff with (Z.ones 8). rewrite Z.land_ones by lia. apply uwrap_idem. lia.
  - change 0xff with (Z.ones 8). rewrite Z.land_ones by lia. apply uwrap_idem. lia.
Qed.

Lemma put_mem_all cap s p : put_mem cap s (zlen s) p = put cap s p.
Proof.
  unfold put_mem, rd_bytes. pose proof (zlen_nonneg s). replace (_ && _) with true by lia. cbn [or_oob mbind run_bind].
  unfold slice, zlen. cbn [Z.to_nat drop]. by rewrite Nat2Z.id, take_ge.
Qed.

(** [mqtt_publish] sends exactly the packet of the message, which [received_messages]
    reads back, as long as it fits the buffer of 1024 bytes; a longer one is written
    behind the end of the buffer. *)
Theorem publish_packet_spec topic msg : zlen topic + zlen msg + 2 < 2 ^ 31 ->
  publish_packet topic msg =
    if zlen (encode (P_publish 0 topic msg)) <=? 1024 then Ret (encode (P_publish 0 topic msg)) else Oob.
Proof.
  intros Hl. pose proof (zlen_nonneg topic). pose proof (zlen_nonneg msg). unfold publish_packet.
  rewrite !swrap_small by lia.
  assert (Hn : 0 <= 2 + zlen topic + zlen msg < 2 ^ 31) by lia.
  transitivity (put 1024 (encode (P_publish 0 topic msg)) []); [|unfold put; by rewrite Z.add_0_l].
  unfold encode. cbn [packet_header packet_body]. unfold publish_body at 1. rewrite !zlen_app.
  change (zlen [u8 (zlen topic / 256); u8 (zlen topic)]) with 2.
  replace (2 + (zlen topic + zlen msg)) with (2 + zlen topic + zlen msg) by lia.
  set (n := 2 + zlen topic + zlen msg) in *.
  assert (E : forall p, (p ← put_rl 1024 n p; p ← put_len 1024 (zlen topic) p; p ← put_mem 1024 topic (zlen topic) p;
                         put_mem 1024 msg (zlen msg) p) = put 1024 (rl_bytes n ++ publish_body topic msg) p).
  { intros p. rewrite put_rl_bytes by done. unfold publish_body.
    transitivity (p ← put 1024 (rl_bytes n) p; put 1024 ([u8 (zlen topic / 256); u8 (zlen topic)] ++ topic ++ msg) p); [|apply put_last].
    destruct (put 1024 (rl_bytes n) p) as [p1| | | | |]; cbn [mbind run_bind]; try done.
    rewrite put_len_bytes by done. rewrite <- put_last.
    destruct (put 1024 [u8 (zlen topic / 256); u8 (zlen topic)] p1) as [p2| | | | |]; cbn [mbind run_bind]; try done.
    rewrite put_mem_all, <- put_last. destruct (put 1024 topic p2); cbn [mbind run_bind]; try done. apply put_mem_all. }
  change (48 + 0 :: rl_bytes n ++ publish_body topic msg) with ([0x30] ++ rl_bytes n ++ publish_body topic msg).
  rewrite <- put_last. destruct (put 1024 [0x30] []); cbn [mbind run_bind]; try done.
Qed.

(** ** The loops end *)

Section Ends.
Context {W : Type} `{!Net_svr W} `{!Client_env W}.

Lemma dec_rl_ends fuel buf pos end_ mult val : (Z.to_nat (end_ - pos) < fuel)%nat ->
  dec_rl_loop fuel buf pos end_ mult val = Oob \/
  exists v pos', dec_rl_loop fuel buf pos end_ mult val = Ret (v, pos') /\ v < 2 ^ 31 /\ (v = -1 \/ pos < pos' <= end_).
Proof.
  revert pos mult val. induction fuel as [|fuel IH]; intros pos mult val Hf; [lia|]. cbn [dec_rl_loop].
  destruct (end_ <=? pos) eqn:E; [right; exists (-1), pos; split; [done|]; split; [lia|by left]|].
  destruct (at_idx buf pos) as [b| | | | |] eqn:Ea; cbn [mbind run_bind];
    try (unfold at_idx in Ea; split_ifs; try done; by destruct (buf !! Z.to_nat pos)); [|by left].
  destruct (negb (Z.land b 0x80 =? 0)).
  - destruct (IH (pos + 1) (s32 (mult * 128)) (s32 (val + s32 (Z.land b 127 * mult)))) as [->|(v & p & -> & Hp & Hv)];
      [lia|by left|]. right. exists v, p. split; [done|]. lia.
  - right. eexists _, _. split; [done|]. pose proof (swrap_range 32 (val + s32 (Z.land b 127 * mult)) ltac:(lia)).
    change (2 ^ (32 - 1)) with (2 ^ 31) in *. lia.
Qed.

Definition ended {A} (r : run A) : Prop := r = Oob \/ exists a, r = Ret a.

Lemma at_idx_ended buf i : ended (at_idx buf i).
Proof. unfold at_idx. split_if; [by left|]. destruct (buf !! _); [right; eauto|by left]. Qed.

Lemma ended_bind {A B} (r : run A) (f : A -> run B) : ended r -> (forall a, r = Ret a -> ended (f a)) -> ended (r ≫= f).
Proof. intros [->|[a ->]] Hf; [by left|]. cbn. by apply Hf. Qed.

Lemma print_prec_ended m n : ended (print_prec m n).
Proof.
  revert n. induction m as [|c m IH]; intros n; cbn [print_prec]; (destruct (n =? 0); [right; by eexists|]); [by left|].
  destruct (c =? 0); [right; by eexists|]. apply ended_bind; [apply IH|]. intros a _. right. by eexists.
Qed.

Lemma message_text_ended rb pos rl : ended (message_text rb pos rl).
Proof.
  unfold message_text, print_at.
  repeat (apply ended_bind; [first [apply at_idx_ended | split_if; [by left|apply print_prec_ended]]|intros ? _]).
  right. by eexists.
Qed.

(** Whatever bytes arrive, the loop over the packets of a receive ends: with all packets
    looked at, or with an access outside of the buffer. *)
Theorem recv_packets_ends rb got pos s fuel : 0 <= got < 2 ^ 31 -> pos <= got -> (Z.to_nat (got - pos) < fuel)%nat ->
  ended (snd (recv_packets (W := W) fuel rb got pos s)).
Proof.
  intros Hg. revert pos s. induction fuel as [|fuel IH]; intros pos s Hp Hf; [lia|]. cbn [recv_packets].
  destruct (pos <? got) eqn:E; cbn [negb]; [|right; by eexists].
  unfold lift, mbind, prog_bind. destruct (at_idx_ended rb pos) as [->|[b Eb]]; [by left|]. rewrite Eb.
  assert (0 <= pos) by (unfold at_idx in Eb; split_ifs; [done|lia]).
  destruct (dec_rl_ends (S (Z.to_nat (got - (pos + 1)))) rb (pos + 1) got 1 0 ltac:(lia)) as [E1|(v & p & E1 & Hpp & Hv)];
    unfold dec_rl; rewrite E1; [by left|].
  destruct ((v <? 0) || (got <? s32 (p + v))) eqn:C; [right; by eexists|]. apply orb_false_iff in C as [C1 C2].
  assert (Hnext : forall s', ended (snd (recv_packets (W := W) fuel rb got (s32 (p + v)) s'))).
  { intros s'. destruct Hv as [Hv|Hv]; [lia|]. destruct (Z.lt_ge_cases (s32 (p + v)) 0) as [Hneg|Hpos].
    - destruct fuel as [|fuel]; [lia|]. cbn [recv_packets]. replace (s32 (p + v) <? got) with true by lia. cbn [negb].
      unfold lift, mbind, prog_bind, at_idx. replace (s32 (p + v) <? 0) with true by lia. by left.
    - assert (p + v < 2 ^ 31 \/ 2 ^ 31 <= p + v) as [Hs|Hs] by lia.
      + rewrite swrap_small in C2 |- * by lia. apply IH; lia.
      + assert (s32 (p + v) = p + v - 2 ^ 32) by (apply (swrap_unique 32 _ _ 1); lia). lia. }
  destruct (Z.shiftr b 4 =? 3); [|apply Hnext].
  destruct (message_text_ended rb p v) as [->|[t ->]]; [by left|]. destruct s as [w tr]. apply Hnext.
Qed.
End Ends.

(** ** The order of a session *)

(** A connection as the trace of events describes it: not yet opened; opened, nothing
    sent; waiting for the answer to CONNECT; accepted; refused; after DISCONNECT;
    closed. *)
Inductive conn :=
  | C_none | C_new (h : Z) | C_wait (h : Z) | C_open (h : Z) | C_fail (h : Z) | C_bye (h : Z) | C_end.

(** What may happen in a state: CONNECT comes first and once, nothing else is sent
    before the broker accepted it, DISCONNECT is the last packet, and the handle is
    closed after it or after a refusal. *)
Definition conn_step (s : conn) (e : ev) : option conn :=
  match s, e with
  | _, E_print _ => Some s
  | C_none, E_connect _ _ (Some h) => Some (C_new h)
  | C_none, E_connect _ _ None => Some C_none
  | C_new h, E_send h' p ok =>
      if (h' =? h) && bool_decide (head p = Some 0x10) then Some (if ok then C_wait h else C_fail h) else None
  | C_wait h, E_recv h' _ d => if h' =? h then Some (if connack_ok d then C_open h else C_fail h) else None
  | C_open h, E_recv h' _ _ => if h' =? h then Some s else None
  | C_open h, E_send h' p _ =>
      if negb (h' =? h) || bool_decide (head p = Some 0x10) then None
      else if bool_decide (head p = Some 0xe0) then Some (C_bye h) else Some s
  | C_fail h, E_close h' | C_bye h, E_close h' => if h' =? h then Some C_end else None
  | _, _ => None
  end.

Definition conn_of (tr : list ev) : option conn := foldl (fun s e => s ≫= fun s => conn_step s e) (Some C_none) tr.

(** The handle that is open. *)
Definition open_handle (s : conn) : option Z :=
  match s with
  | C_none | C_end => None
  | C_new h | C_wait h | C_open h | C_fail h | C_bye h => Some h
  end.

Lemma conn_of_snoc tr e s : conn_of tr = Some s -> conn_of (tr ++ [e]) = conn_step s e.
Proof. intros E. unfold conn_of in *. by rewrite foldl_snoc, E. Qed.

(** The first byte of a packet. *)
Lemma put_head cap bs p q b : put cap bs p = Ret q -> head p = Some b -> head q = Some b.
Proof. unfold put. split_if; [|done]. intros [= <-]. by destruct p. Qed.

Lemma put_rl_head cap n p q b : put_rl cap n p = Ret q -> head p = Some b -> head q = Some b.
Proof. unfold put_rl. intros E. inv_run E. by eapply put_head. Qed.

Lemma put_len_head cap n p q b : put_len cap n p = Ret q -> head p = Some b -> head q = Some b.
Proof. unfold put_len. intros E Hp. inv_run E. eapply put_head; [exact E|]. by eapply put_head. Qed.

Lemma put_mem_head cap s n p q b : put_mem cap s n p = Ret q -> head p = Some b -> head q = Some b.
Proof. unfold put_mem. intros E. inv_run E. by eapply put_head. Qed.

Ltac packet_head E :=
  inv_run E;
  repeat match goal with
  | H : put _ _ ?p = Ret ?q |- head ?q = _ => refine (put_head _ _ _ _ _ H _)
  | H : put_rl _ _ ?p = Ret ?q |- head ?q = _ => refine (put_rl_head _ _ _ _ _ H _)
  | H : put_len _ _ ?p = Ret ?q |- head ?q = _ => refine (put_len_head _ _ _ _ _ H _)
  | H : put_mem _ _ _ ?p = Ret ?q |- head ?q = _ => refine (put_mem_head _ _ _ _ _ _ H _)
  end.

Lemma packet_heads :
  (forall id p, connect_packet id = Ret p -> head p = Some 0x10) /\
  (forall t m p, publish_packet t m = Ret p -> head p = Some 0x30) /\
  (forall t p, subscribe_packet t = Ret p -> head p = Some 0x82).
Proof.
  split; [|split]; intros *; unfold connect_packet, publish_packet, subscribe_packet; intros E;
    inv_run E; cbn [put] in *;
    match goal with H : put _ [?b] [] = Ret ?x |- _ => assert (head x = Some b) by (by injection H as <-); clear H end;
    packet_head E; done.
Qed.

Section Protocol.
Context {W : Type} `{!Net_svr W} `{!Client_env W}.

(** A property of the server that depends on which handle the client has open, kept by
    every operation. *)
Class Handle_inv (I : W -> option Z -> Prop) : Prop := {
  hi_resolve b w h : I w h -> I (fst (ns_resolve b w)) h;
  hi_connect ip port w : I w None -> I (fst (ns_tcp_connect ip port w)) (snd (ns_tcp_connect ip port w));
  hi_send g p w h : I w h -> I (fst (ns_send g p w)) h;
  hi_recv g max w h : I w h -> I (fst (ns_recv g max w)) h;
  hi_close g w : I w (Some g) -> I (ns_close g w) None;
}.

Context (I : W -> option Z -> Prop) `{!Handle_inv I}.

Definition in_state (s : conn) (st : W * list ev) : Prop := conn_of (snd st) = Some s /\ I (fst st) (open_handle s).

(** From connection state [P] the computation follows the order, and when it returns
    [v], the state is one of [Q v]. *)
Definition follows {A} (P : conn) (a : prog (W * list ev) A) (Q : A -> conn -> Prop) : Prop :=
  forall st, in_state P st -> exists s', in_state s' (fst (a st)) /\ forall v, snd (a st) = Ret v -> Q v s'.

Lemma follows_ret {A} P (v : A) (Q : A -> conn -> Prop) : Q v P -> follows P (mret v) Q.
Proof. intros HQ st Hst. exists P. split; [done|]. by intros _ [= <-]. Qed.

Lemma follows_bind {A B} P (a : prog (W * list ev) A) (f : A -> prog (W * list ev) B) Q R :
  follows P a Q -> (forall v s, Q v s -> follows s (f v) R) -> follows P (a ≫= f) R.
Proof.
  intros Ha Hf st Hst. destruct (Ha st Hst) as (s & Hs & HQ). unfold mbind, prog_bind.
  destruct (a st) as [st1 [v| | | | |]]; cbn [fst snd] in *; try (exists s; by split).
  apply (Hf v s (HQ v eq_refl)). done.
Qed.

Lemma follows_lift {A} P (r : run A) : follows P (lift r) (fun v s => s = P /\ r = Ret v).
Proof. intros st Hst. exists P. by split. Qed.

Lemma follows_print P t : follows P (print t) (fun _ s => s = P).
Proof.
  intros [w tr] [Hc Hi]. exists P. unfold print, emit. cbn [fst snd] in *. split; [split; [|done]|done]. cbn [snd].
  rewrite (conn_of_snoc _ _ _ Hc). by destruct P.
Qed.

Lemma follows_send P h p (Q : bool -> conn -> Prop) :
  (forall ok, exists s, conn_step P (E_send h p ok) = Some s /\ open_handle s = open_handle P /\ Q ok s) ->
  follows P (mq_send h p) Q.
Proof.
  intros Hs [w tr] [Hc Hi]. cbn [fst snd] in *. unfold mq_send. pose proof (hi_send h p w _ Hi) as Hi'.
  destruct (ns_send h p w) as [w' r]. cbn [fst snd] in *. destruct (Hs (bool_decide (is_Some r))) as (s & E & Eh & HQ).
  exists s. split; [split; cbn [fst snd]; [by rewrite (conn_of_snoc _ _ _ Hc)|by rewrite Eh]|]. by intros _ [= <-].
Qed.

Lemma follows_recv P h max (Q : bytes -> conn -> Prop) :
  (forall d, exists s, conn_step P (E_recv h max d) = Some s /\ open_handle s = open_handle P /\ Q d s) ->
  follows P (mq_recv h max) Q.
Proof.
  intros Hs [w tr] [Hc Hi]. cbn [fst snd] in *. unfold mq_recv. pose proof (hi_recv h max w _ Hi) as Hi'.
  destruct (ns_recv h max w) as [w' r]. cbn [fst snd] in *. destruct (Hs (default [] r)) as (s & E & Eh & HQ).
  exists s. split; [split; cbn [fst snd]; [by rewrite (conn_of_snoc _ _ _ Hc)|by rewrite Eh]|]. by intros _ [= <-].
Qed.

Lemma follows_close P h : P = C_fail h \/ P = C_bye h -> follows P (net_close h) (fun _ s => s = C_end).
Proof.
  intros HP [w tr] [Hc Hi]. exists C_end. unfold net_close. cbn [fst snd] in *. split; [split|done]; cbn [fst snd].
  - rewrite (conn_of_snoc _ _ _ Hc). destruct HP as [-> | ->]; cbn; by rewrite Z.eqb_refl.
  - apply hi_close. by destruct HP as [-> | ->].
Qed.

(** A packet of an accepted connection. *)
Lemma follows_open h p : head p <> Some 0x10 -> head p <> Some 0xe0 ->
  follows (C_open h) (mq_send h p) (fun _ s => s = C_open h).
Proof.
  intros H1 H2. apply follows_send. intros ok. exists (C_open h). cbn. rewrite Z.eqb_refl. cbn [negb orb].
  by rewrite !bool_decide_false by done.
Qed.

Lemma follows_disconnect h : follows (C_open h) (mqtt_disconnect h) (fun _ s => s = C_bye h).
Proof.
  unfold mqtt_disconnect. eapply follows_bind; [apply follows_send with (Q := fun _ s => s = C_bye h)|].
  - intros ok. exists (C_bye h). cbn. by rewrite Z.eqb_refl.
  - intros _ s ->. by apply follows_ret.
Qed.

Lemma follows_packets P fuel rb got pos : follows P (recv_packets fuel rb got pos) (fun _ s => s = P).
Proof.
  revert pos. induction fuel as [|fuel IH]; intros pos; cbn [recv_packets].
  { intros st Hst. by exists P. }
  destruct (negb (pos <? got)); [by apply follows_ret|].
  eapply follows_bind; [apply follows_lift|]. intros b _ [-> _].
  eapply follows_bind; [apply follows_lift|]. intros [rl p] _ [-> _].
  destruct (_ || _); [by apply follows_ret|].
  eapply follows_bind with (Q := fun _ s => s = P); [|intros _ _ ->; apply IH].
  destruct (_ =? 3); [|by apply follows_ret].
  eapply follows_bind; [apply follows_lift|]. intros t _ [-> _]. apply follows_print.
Qed.

Lemma follows_listen fuel h start dur polls : follows (C_open h) (listen fuel h start dur polls) (fun _ s => s = C_open h).
Proof.
  revert polls. induction fuel as [|fuel IH]; intros polls; cbn [listen].
  { intros st Hst. by exists (C_open h). }
  intros st Hst. destruct (negb _); [by exists (C_open h)|].
  refine (follows_bind (C_open h) _ _ (fun _ s => s = C_open h) (fun _ s => s = C_open h) _ _ st Hst).
  - apply follows_recv. intros d. exists (C_open h). cbn. by rewrite Z.eqb_refl.
  - intros d _ ->. destruct (zlen d =? 0).
    + eapply follows_bind with (Q := fun _ s => s = C_open h); [|intros _ _ ->; apply IH].
      destruct (_ =? 0); [|by apply follows_ret]. eapply follows_bind; [by apply follows_open|].
      intros _ _ ->. by apply follows_ret.
    + eapply follows_bind; [apply follows_packets|]. intros _ _ ->. apply IH.
Qed.

Lemma follows_finish {A} h (v : A) :
  follows (C_open h) (mqtt_disconnect h ≫= fun _ => net_close h ≫= fun _ => mret v) (fun _ s => s = C_end).
Proof.
  eapply follows_bind; [apply follows_disconnect|]. intros _ _ ->.
  eapply follows_bind; [apply follows_close; by right|]. intros _ _ ->. by apply follows_ret.
Qed.

Lemma follows_session fuel is_sub h broker topic msg : follows (C_new h) (session fuel is_sub h broker topic msg) (fun _ s => s = C_end).
Proof.
  destruct packet_heads as (Hc & Hp & Hs). unfold session.
  eapply follows_bind with (Q := fun (ok : bool) s => s = if ok then C_open h else C_fail h).
  { unfold mqtt_connect. eapply follows_bind; [apply follows_lift|]. intros p _ [-> E]. apply Hc in E.
    eapply follows_bind; [apply follows_send with (Q := fun (ok : bool) (s : conn) => s = if ok then C_wait h else C_fail h)|].
    - intros ok. eexists. cbn. rewrite Z.eqb_refl, bool_decide_true by done. cbn. split; [done|]. by destruct ok.
    - intros [] s ->; cbn [negb]; [|by apply follows_ret].
      eapply follows_bind; [apply follows_recv with (Q := fun d s => s = if connack_ok d then C_open h else C_fail h)|].
      + intros d. eexists. cbn. rewrite Z.eqb_refl. split; [done|]. by destruct (connack_ok d).
      + intros d s ->. by apply follows_ret. }
  intros [] s ->; cbn [negb].
  2: { eapply follows_bind; [apply follows_print|]. intros _ _ ->.
       eapply follows_bind; [apply follows_close; by left|]. intros _ _ ->. by apply follows_ret. }
  eapply follows_bind; [apply follows_print|]. intros _ _ ->. destruct is_sub; cbn [negb].
  - eapply follows_bind with (Q := fun _ s => s = C_open h).
    { unfold mqtt_subscribe. eapply follows_bind; [apply follows_lift|]. intros p _ [-> E]. apply Hs in E.
      eapply follows_bind; [apply follows_open; by rewrite E|]. intros [] _ ->; cbn [negb]; [|by apply follows_ret].
      eapply follows_bind; [apply follows_recv with (Q := fun _ s => s = C_open h)|].
      - intros d. exists (C_open h). cbn. by rewrite Z.eqb_refl.
      - intros d _ ->. by apply follows_ret. }
    intros [] _ ->; cbn [negb]; (eapply follows_bind; [apply follows_print|]; intros _ _ ->); [|apply follows_finish].
    eapply follows_bind with (Q := fun _ s => s = C_open h); [|intros _ _ ->; apply follows_finish]. intros st Hst. by apply follows_listen.
  - eapply follows_bind with (Q := fun _ s => s = C_open h).
    { unfold mqtt_publish. eapply follows_bind; [apply follows_lift|]. intros p _ [-> E]. apply Hp in E.
      apply follows_open; by rewrite E. }
    intros ok _ ->. eapply follows_bind with (Q := fun _ s => s = C_open h); [destruct ok; apply follows_print|].
    intros _ _ ->. apply follows_finish.
Qed.

Lemma main_order fuel argv w : I w None ->
  let r := main fuel argv (w, []) in
  exists s, conn_of (snd (fst r)) = Some s /\ I (fst (fst r)) (open_handle s) /\
    forall code, snd r = Ret code -> s = C_none \/ s = C_end.
Proof.
  intros Hi. cbn zeta.
  enough (Hf : follows C_none (main fuel argv) (fun _ s => s = C_none \/ s = C_end)).
  { destruct (Hf (w, [])) as (s & [Hc Hw] & HQ); [by split|]. exists s. by split. }
  assert (Hquit : forall t, follows C_none (print t ≫= fun _ => mret 1) (fun _ s => s = C_none \/ s = C_end)).
  { intros t. eapply follows_bind; [apply follows_print|]. intros _ _ ->. apply follows_ret. by left. }
  unfold main. destruct argv as [|? [|op [|broker [|topic rest]]]]; try apply Hquit.
  destruct (_ || _); [apply Hquit|]. destruct (_ && _); [apply Hquit|]. destruct (negb netd_valid); [apply Hquit|].
  eapply follows_bind with (Q := fun _ s => s = C_none).
  { intros [w1 tr] [Hc Hw]. exists C_none. cbn [fst snd] in *. pose proof (hi_resolve broker w1 _ Hw) as Hw'.
    destruct (ns_resolve broker w1) as [w2 r]. by split. }
  intros [ip|] _ ->; [|apply Hquit].
  eapply follows_bind with (Q := fun r s => s = match r with Some h => C_new h | None => C_none end).
  { intros [w1 tr] [Hc Hw]. cbn [fst snd] in *. pose proof (hi_connect ip 1883 w1 Hw) as Hw'.
    destruct (ns_tcp_connect ip 1883 w1) as [w2 r]. cbn [fst snd] in *.
    exists (match r with Some h => C_new h | None => C_none end). split; [|by intros _ [= <-]].
    split; cbn [fst snd]; [|by destruct r]. rewrite (conn_of_snoc _ _ _ Hc). by destruct r. }
  intros [h|] _ ->; [|apply Hquit]. intros st Hst. destruct (follows_session fuel (bool_decide (op = str "sub")) h broker topic (head rest) st Hst)
    as (s & Hs & HQ). exists s. split; [done|]. intros v Hv. right. by eapply HQ.
Qed.

(** C26. Every run of the program keeps the order of a session, whatever the server and the
    broker do: at most one connection is opened, CONNECT is sent first, a message or a
    subscription only after the broker accepted, DISCONNECT last; when the program
    returns, the connection it opened is closed, exactly once, and nothing is sent
    after that.  Meanwhile every property of the server that its operations keep
    holds. *)
Theorem mqtt_session fuel argv w : I w None ->
  let r := main fuel argv (w, []) in
  exists s, conn_of (snd (fst r)) = Some s /\ I (fst (fst r)) (open_handle s) /\
    forall code, snd r = Ret code -> s = C_none \/ s = C_end.
Proof. apply main_order. Qed.

End Protocol.

(** ** Publishing and subscribing *)

(** C35. What clients publish, another one prints: the packets that [mqtt_publish] sends,
    received together in one piece, are printed as these messages, in order. *)
Theorem publish_subscribe {W} `{!Net_svr W} `{!Client_env W} (ms : list (bytes * bytes)) (pks : list bytes) junk (w : W) (tr : list ev) :
  Forall2 (fun m pk => zlen m.1 + zlen m.2 + 2 < 2 ^ 31 /\ publish_packet m.1 m.2 = Ret pk) ms pks ->
  let data := foldr app [] pks in
  zlen data < 2 ^ 30 ->
  recv_packets (S (Z.to_nat (zlen data))) (data ++ junk) (zlen data) 0 (w, tr)
  = ((w, tr ++ ((fun m => E_print (str "mqtt: [" ++ cstr m.1 ++ str "] " ++ cstr m.2 ++ [10])) <$> ms)), Ret tt).
Proof.
  intros Hms. cbn zeta.
  assert (Hall : foldr app [] pks = encode_all ((fun m => P_publish 0 m.1 m.2) <$> ms) /\
                 Forall packet_ok ((fun m => P_publish 0 m.1 m.2) <$> ms)).
  { induction Hms as [|[t m] pk ms pks [Hl Hp] Hms [IH1 IH2]]; [by split|]. cbn [fst snd] in *.
    rewrite publish_packet_spec in Hp by done. destruct (_ <=? 1024) eqn:E; [|done]. injection Hp as <-.
    split; [cbn [foldr]; rewrite IH1; done|].
    constructor; [|done]. apply Z.leb_le in E. unfold encode in E. rewrite zlen_cons, zlen_app in E.
    pose proof (zlen_nonneg (rl_bytes (zlen (packet_body (P_publish 0 t m))))) as Hrl.
    assert (Hb : zlen (packet_body (P_publish 0 t m)) < 1024) by lia. cbn [fst snd]. split; [lia|]. cbn [packet_body] in Hb.
    unfold publish_body in Hb. rewrite !zlen_app in Hb. change (zlen [u8 (zlen t / 256); u8 (zlen t)]) with 2 in Hb.
    pose proof (zlen_nonneg m). unfold zlen in *. lia. }
  destruct Hall as [-> Hok]. intros Hlim.
  pose proof (received_messages (W := W) _ (P_other 0xd0 []) [] (encode (P_other 0xd0 [])) junk w tr Hok) as Hr.
  rewrite app_nil_r in Hr. rewrite Hr; [|by_eval|done|by_eval|done]. f_equal. f_equal. f_equal.
  clear. induction ms as [|m ms IH]; [done|]. cbn. f_equal. exact IH.
Qed.

(** ** The end of a subscription *)

Section Deadline.
Context {W : Type} `{!Net_svr W} `{!Client_env W}.

Lemma recv_packets_world fuel rb got pos s : fst (fst (recv_packets (W := W) fuel rb got pos s)) = fst s.
Proof.
  revert pos s. induction fuel as [|fuel IH]; intros pos s; cbn [recv_packets]; [done|].
  destruct (negb _); [done|]. unfold lift, mbind, prog_bind. destruct (at_idx rb pos) as [b| | | | |]; try done.
  destruct (dec_rl rb (pos + 1) got) as [[v p]| | | | |]; try done. destruct (_ || _); [done|].
  destruct (_ =? 3); [|apply IH]. destruct (message_text rb p v); try done. destruct s as [w tr]. cbn. apply (IH _ (w, _)).
Qed.

(** Receiving takes time until the deadline, and the clock does not wrap. *)
Record clock_runs (deadline : Z) : Prop := {
  cr_recv g max w : 0 <= kip_clock w < deadline -> kip_clock w < kip_clock (fst (ns_recv g max w)) < 2 ^ 64;
  cr_send g p w : 0 <= kip_clock w < 2 ^ 64 -> kip_clock w <= kip_clock (fst (ns_send g p w)) < 2 ^ 64;
  cr_max g max w d : 0 <= max -> snd (ns_recv g max w) = Some d -> zlen d <= max;
}.

(** A subscriber stops after the given time, one round per tick of the clock at most,
    whatever arrives. *)
Theorem listen_ends fuel h start dur polls w tr :
  clock_runs (start + dur) -> 0 <= dur -> start + dur <= 2 ^ 64 -> 0 <= start <= kip_clock w -> kip_clock w < 2 ^ 64 ->
  (Z.to_nat (start + dur - kip_clock w) < fuel)%nat ->
  ended (snd (listen fuel h start dur polls (w, tr))).
Proof.
  intros Hcr Hd Hend. revert polls w tr. induction fuel as [|fuel IH]; intros polls w tr Hs Hw Hf; [lia|].
  cbn [listen fst]. rewrite uwrap_small by (unfold in_u; lia).
  destruct (kip_clock w - start <? dur) eqn:E; cbn [negb]; [|right; by eexists].
  unfold mbind, prog_bind, mq_recv at 1. pose proof (cr_recv _ Hcr h 1024 w ltac:(lia)) as Ht.
  pose proof (cr_max _ Hcr h 1024 w) as Hm. destruct (ns_recv h 1024 w) as [w1 r]. cbn [fst snd] in *.
  set (d := default [] r). assert (Hl : zlen d <= 1024) by (destruct r; cbn; [by apply Hm|done]). pose proof (zlen_nonneg d).
  destruct (zlen d =? 0).
  - destruct (_ =? 0); [|apply IH; lia]. unfold mqtt_pingreq, mbind, prog_bind, mq_send.
    pose proof (cr_send _ Hcr h [0xc0; 0x00] w1 ltac:(lia)) as Hp. destruct (ns_send h [0xc0; 0x00] w1) as [w2 r2].
    cbn [fst snd] in *. apply IH; lia.
  - match goal with |- context [recv_packets ?f ?rb ?g 0 ?s] =>
      pose proof (recv_packets_ends (W := W) rb g 0 s f ltac:(lia) ltac:(lia) ltac:(lia)) as He;
      pose proof (recv_packets_world f rb g 0 s) as Hwd; destruct (recv_packets f rb g 0 s) as [[w2 tr2] res]
    end.
    cbn [fst snd] in *. subst w2. destruct He as [->|[v ->]]; [by left|]. apply IH; lia.
Qed.
End Deadline.

(** ** Examples *)

Module Mqtt_example.

(** A server with one connection: the segments that are still to come, and a clock that
    moves by two seconds with every receive. *)
Record net := { segs : list bytes; now : Z }.

Definition net_recv (max : Z) (w : net) : net * option bytes :=
  match segs w with
  | [] => ({| segs := []; now := now w + 2000000 |}, Some [])
  | d :: t =>
      let n := Z.to_nat max in
      ({| segs := if decide (length d <= n)%nat then t else drop n d :: t; now := now w + 2000000 |}, Some (take n d))
  end.

#[local] Instance net_svr : Net_svr net := {|
  ns_resolve _ w := (w, Some 0x0a000202);
  ns_tcp_connect _ _ w := (w, Some 5);
  ns_send _ p w := (w, Some (zlen p));
  ns_recv _ max w := net_recv max w;
  ns_close _ w := w;
|}.

#[local] Instance client_env : Client_env net := {|
  netd_valid := true; kip_clock := now; stack_rb _ := replicate 1024 0;
|}.

Definition connack : bytes := [0x20; 0x02; 0x00; 0x00].
Definition suback : bytes := [0x90; 0x03; 0x00; 0x01; 0x00].
Definition message : packet := P_publish 0 (str "a/b") (str "hi").

Definition sub (l : list bytes) : (net * list ev) * run Z :=
  main 20 [str "mqtt"; str "sub"; str "broker"; str "a/b"; str "10"] ({| segs := l; now := 0 |}, []).

Definition lines (r : (net * list ev) * run Z) : list bytes :=
  omap (fun e => match e with E_print s => Some s | _ => None end) (snd (fst r)).

Definition hello : list bytes :=
  [str "mqtt: connected to broker:1883" ++ [10]; str "mqtt: subscribed to 'a/b', listening 10s..." ++ [10]].

Example message_printed :
  lines (sub [connack; suback; encode message]) = hello ++ [str "mqtt: [a/b] hi" ++ [10]].
Proof. by_eval. Qed.

Lemma rl_round_trip_witness : exists bs, enc_rl 321 = Ret bs /\ (1 <= length bs <= 5)%nat /\ bytes_ok bs /\
  forall end_, zlen [0x30] + zlen bs <= end_ -> dec_rl ([0x30] ++ bs ++ [7]) (zlen [0x30]) end_ = Ret (321, zlen [0x30] + zlen bs).
Proof. refine (rl_round_trip 321 [0x30] [7] _). by_eval. Defined.

Lemma received_messages_witness :
  let data := encode_all [P_other 0xd0 []; message] ++ [0x30] in
  recv_packets (S (Z.to_nat (zlen data))) (data ++ [0x7f]) (zlen data) 0 ({| segs := []; now := 0 |}, [])
  = (({| segs := []; now := 0 |}, [E_print (str "mqtt: [a/b] hi" ++ [10])]), Ret tt).
Proof.
  refine (received_messages (W := net) [P_other 0xd0 []; message] message [0x30] (tail (encode message))
            [0x7f] {| segs := []; now := 0 |} [] _ _ _ _ _); [|by_eval|by_eval|by_eval|by_eval].
  constructor; [|constructor; [|constructor]]; by_eval.
Defined.

Lemma publish_subscribe_witness : exists pk,
  publish_packet (str "a/b") (str "hi") = Ret pk /\
  recv_packets (S (Z.to_nat (zlen pk))) (pk ++ [1; 2; 3]) (zlen pk) 0 ({| segs := []; now := 0 |}, [])
  = (({| segs := []; now := 0 |}, [E_print (str "mqtt: [a/b] hi" ++ [10])]), Ret tt).
Proof.
  exists (encode message). split; [by_eval|].
  refine (publish_subscribe (W := net) [(str "a/b", str "hi")] [encode message] [1; 2; 3] {| segs := []; now := 0 |} [] _ _).
  - constructor; [split; by_eval|constructor].
  - by_eval.
Defined.

Lemma publish_packet_spec_witness : publish_packet (str "t") (str "m") =
  if zlen (encode (P_publish 0 (str "t") (str "m"))) <=? 1024 then Ret (encode (P_publish 0 (str "t") (str "m"))) else Oob.
Proof. refine (publish_packet_spec (str "t") (str "m") _). by_eval. Defined.

#[local] Instance any_inv : Handle_inv (W := net) (fun _ _ => True).
Proof. split; done. Defined.

Lemma mqtt_session_witness :
  let r := main 20 [str "mqtt"; str "sub"; str "broker"; str "a/b"; str "10"] ({| segs := [connack; suback]; now := 0 |}, []) in
  exists s, conn_of (snd (fst r)) = Some s /\ True /\ forall code, snd r = Ret code -> s = C_none \/ s = C_end.
Proof. exact (mqtt_session (W := net) (fun _ _ => True) 20 _ {| segs := [connack; suback]; now := 0 |} I). Defined.

Lemma clock_ok : clock_runs (W := net) 100.
Proof.
  split.
  - intros g max [l t] Hw. cbn in *. unfold net_recv. cbn. destruct l; cbn; lia.
  - intros g p w Hw. cbn in *. lia.
  - intros g max [l t] d Hm. cbn. unfold net_recv. cbn. destruct l as [|x l]; cbn; intros [= <-]; [done|].
    unfold zlen. rewrite length_take. lia.
Defined.

Lemma listen_ends_witness : ended (snd (listen 101 5 0 100 0 ({| segs := [[0x30; 0xff]]; now := 0 |}, []))).
Proof.
  refine (listen_ends (W := net) 101 5 0 100 0 {| segs := [[0x30; 0xff]]; now := 0 |} [] clock_ok _ _ _ _ _);
    cbn [kip_clock client_env now]; lia.
Defined.

Lemma recv_packets_ends_witness :
  ended (snd (recv_packets (W := net) 4 [0x30; 0xff; 0xff] 3 0 ({| segs := []; now := 0 |}, []))).
Proof. refine (recv_packets_ends (W := net) [0x30; 0xff; 0xff] 3 0 ({| segs := []; now := 0 |}, []) 4 _ _ _); [by_eval|by_eval|lia]. Defined.

(** A retained message that follows the answer to the subscription at once is lost: of
    the eight bytes that are read for the answer, three belong to the message. *)
Theorem retained_message_lost : lines (sub [connack; suback ++ encode message]) = hello.
Proof. by_eval. Qed.

(** A message in two TCP segments is lost. *)
Theorem split_message_lost : lines (sub [connack; suback; take 6 (encode message); drop 6 (encode message)]) = hello.
Proof. by_eval. Qed.

(** Six bytes of a broker make the client read in front of its buffer: the length
    overflows the test against the received data. *)
Theorem length_overflow : snd (sub [connack; suback; [0x30; 0xff; 0xff; 0xff; 0xff; 0x07]]) = Oob.
Proof. by_eval. Qed.

(** A topic length beyond the packet makes the client print bytes behind the packet. *)
Theorem topic_length_unchecked :
  lines (sub [connack; suback; [0x30; 0x02; 0x00; 0x03] ++ str "key"]) = hello ++ [str "mqtt: [key] " ++ [10]].
Proof. by_eval. Qed.

(** A refused subscription (return code 0x80) is taken for a success. *)
Theorem refused_subscription : lines (sub [connack; [0x90; 0x03; 0x00; 0x01; 0x80]]) = hello.
Proof. by_eval. Qed.

(** A message of 1020 bytes and a topic of one overflow the packet buffer. *)
Theorem publish_overflow : publish_packet (str "t") (replicate 1020 65) = Oob.
Proof. by_eval. Qed.
End Mqtt_example.
