(* ===== verification/Netd.v ===== *)
(** * The network server

    [src/pkg/netd/server/main.cc]: clients use TCP connections through the operations
    of [Net_svr]; the server keeps the set of descriptors it gave out, and the sockets
    themselves belong to the library lwIP, which is the class [Lwip] with the laws it
    documents.  The ICMP checksum is modelled, too. *)

From S2P Require Import Prelude Mqtt.

(** ** lwIP *)

(** Results below 0 are failures; [errno] is [EAGAIN] when a receive timed out. *)
Inductive recv_result := R_data (d : bytes) | R_again | R_error.

Class Lwip (W : Type) := {
  lw_socket : W -> W * Z;
  lw_connect : Z -> Z -> Z -> W -> W * Z;
  lw_bind : Z -> Z -> W -> W * Z;
  lw_listen : Z -> Z -> W -> W * Z;
  lw_accept : Z -> W -> W * Z;
  lw_send : Z -> bytes -> W -> W * Z;
  lw_recv : Z -> Z -> W -> W * recv_result;
  lw_setopt : Z -> W -> W;
  lw_close : Z -> W -> W;
  lw_aton : bytes -> option Z;
  lw_getaddrinfo : bytes -> W -> W * option Z;
  (** the open descriptors *)
  lw_fds : W -> gset Z;
}.

(** What a call does to the open descriptors. *)
Class Lwip_laws (W : Type) `{!Lwip W} : Prop := {
  lw_fd_range w fd : fd ∈ lw_fds w -> 0 <= fd < 2 ^ 31;
  lw_socket_fds w : let '(w', fd) := lw_socket w in
    (fd < 0 /\ lw_fds w' = lw_fds w) \/ (0 <= fd /\ fd ∉ lw_fds w /\ lw_fds w' = {[fd]} ∪ lw_fds w);
  lw_accept_fds l w : let '(w', fd) := lw_accept l w in
    (fd < 0 /\ lw_fds w' = lw_fds w) \/ (0 <= fd /\ fd ∉ lw_fds w /\ lw_fds w' = {[fd]} ∪ lw_fds w);
  lw_close_fds fd w : lw_fds (lw_close fd w) = lw_fds w ∖ {[fd]};
  lw_connect_fds fd ip port w : lw_fds (fst (lw_connect fd ip port w)) = lw_fds w;
  lw_bind_fds fd port w : lw_fds (fst (lw_bind fd port w)) = lw_fds w;
  lw_listen_fds fd n w : lw_fds (fst (lw_listen fd n w)) = lw_fds w;
  lw_send_fds fd d w : lw_fds (fst (lw_send fd d w)) = lw_fds w;
  lw_recv_fds fd n w : lw_fds (fst (lw_recv fd n w)) = lw_fds w;
  lw_setopt_fds fd w : lw_fds (lw_setopt fd w) = lw_fds w;
  lw_getaddrinfo_fds h w : lw_fds (fst (lw_getaddrinfo h w)) = lw_fds w;
  lw_recv_max fd n w d : snd (lw_recv fd n w) = R_data d -> 0 <= n -> zlen d <= n;
}.

(** ** The server *)

Record netd (W : Type) := {
  g_net_stack_ready : bool;
  g_open_handles : gset Z;
  nd_lwip : W;
}.
Arguments g_net_stack_ready {W}.
Arguments g_open_handles {W}.
Arguments nd_lwip {W}.

Section Server.
Context {W : Type} `{!Lwip W}.

Definition set_lwip (w : W) (n : netd W) : netd W :=
  {| g_net_stack_ready := g_net_stack_ready n; g_open_handles := g_open_handles n; nd_lwip := w |}.

Definition set_handles (hs : gset Z) (n : netd W) : netd W :=
  {| g_net_stack_ready := g_net_stack_ready n; g_open_handles := hs; nd_lwip := nd_lwip n |}.

(** A call of lwIP. *)
Definition call {A} (f : W -> W * A) (n : netd W) : netd W * A :=
  let '(w, r) := f (nd_lwip n) in (set_lwip w n, r).

Definition lw_close_in (fd : Z) (n : netd W) : netd W := set_lwip (lw_close fd (nd_lwip n)) n.

Definition known (handle : Z) (n : netd W) : bool := bool_decide (s32 handle ∈ g_open_handles n).

Definition op_tcp_connect (ip_be port : Z) (n : netd W) : netd W * (errno + Z) :=
  if negb (g_net_stack_ready n) then (n, inl ENODEV)
  else
    let '(n, fd) := call lw_socket n in
    if fd <? 0 then (n, inl ENOMEM)
    else
      let '(n, r) := call (lw_connect fd ip_be port) n in
      if r <? 0 then (lw_close_in fd n, inl EIO)
      else
        let n := set_lwip (lw_setopt fd (nd_lwip n)) n in
        (set_handles ({[fd]} ∪ g_open_handles n) n, inr (u32 fd)).

Definition op_send (handle : Z) (data : bytes) (n : netd W) : netd W * (errno + Z) :=
  if negb (known handle n) then (n, inl EINVAL)
  else
    let '(n, r) := call (lw_send (s32 handle) data) n in
    if r <? 0 then (n, inl EIO) else (n, inr (u32 r)).

Definition RXBUF : Z := 1600.

Definition op_recv (handle max : Z) (n : netd W) : netd W * (errno + bytes) :=
  if negb (known handle n) then (n, inl EINVAL)
  else
    let max := if RXBUF <? max then RXBUF else max in
    let '(n, r) := call (lw_recv (s32 handle) max) n in
    match r with
    | R_data d => (n, inr d)
    | R_again => (n, inr [])
    | R_error => (n, inl EIO)
    end.

Definition op_close (handle : Z) (n : netd W) : netd W * l4_ret :=
  if negb (known handle n) then (n, Err EINVAL)
  else (set_handles (g_open_handles n ∖ {[s32 handle]}) (lw_close_in (s32 handle) n), Ok).

(** A host name of more than 127 bytes is cut. *)
Definition op_resolve (host : bytes) (n : netd W) : netd W * (errno + Z) :=
  if negb (g_net_stack_ready n) then (n, inl ENODEV)
  else
    let name := cstr (take 127 host) in
    match lw_aton name with
    | Some a => (n, inr a)
    | None =>
        let '(n, r) := call (lw_getaddrinfo name) n in
        match r with Some a => (n, inr a) | None => (n, inl ENOENT) end
    end.

Definition op_tcp_listen (port : Z) (n : netd W) : netd W * (errno + Z) :=
  if negb (g_net_stack_ready n) then (n, inl ENODEV)
  else
    let '(n, fd) := call lw_socket n in
    if fd <? 0 then (n, inl ENOMEM)
    else
      let n := set_lwip (lw_setopt fd (nd_lwip n)) n in
      let '(n, r) := call (lw_bind fd (u16 port)) n in
      let '(n, bad) := if r <? 0 then (n, true)
                       else let '(n, r) := call (lw_listen fd 1) n in (n, r <? 0) in
      if (bad : bool) then (lw_close_in fd n, inl EIO)
      else
        let n := set_lwip (lw_setopt fd (nd_lwip n)) n in
        (set_handles ({[fd]} ∪ g_open_handles n) n, inr (u32 fd)).

(** The handle 0 says that nobody has connected. *)
Definition op_tcp_accept (lhandle : Z) (n : netd W) : netd W * (errno + Z) :=
  if negb (known lhandle n) then (n, inl EINVAL)
  else
    let '(n, cfd) := call (lw_accept (s32 lhandle)) n in
    if cfd <? 0 then (n, inr 0)
    else
      let n := set_lwip (lw_setopt cfd (nd_lwip n)) n in
      (set_handles ({[cfd]} ∪ g_open_handles n) n, inr (u32 cfd)).

(** The requests a client can send. *)
Inductive request :=
  | Q_connect (ip_be port : Z) | Q_send (h : Z) (d : bytes) | Q_recv (h max : Z) | Q_close (h : Z)
  | Q_resolve (host : bytes) | Q_listen (port : Z) | Q_accept (h : Z).

Definition serve (n : netd W) (q : request) : netd W :=
  match q with
  | Q_connect ip port => fst (op_tcp_connect ip port n)
  | Q_send h d => fst (op_send h d n)
  | Q_recv h max => fst (op_recv h max n)
  | Q_close h => fst (op_close h n)
  | Q_resolve host => fst (op_resolve host n)
  | Q_listen port => fst (op_tcp_listen port n)
  | Q_accept h => fst (op_tcp_accept h n)
  end.

(** The server as its clients see it; a caller treats every error the same. *)
#[global] Instance netd_svr : Net_svr (netd W) := {|
  ns_resolve host n := let '(n, r) := op_resolve host n in (n, match r with inr a => Some a | inl _ => None end);
  ns_tcp_connect ip port n :=
    let '(n, r) := op_tcp_connect ip port n in (n, match r with inr h => Some h | inl _ => None end);
  ns_send h d n := let '(n, r) := op_send h d n in (n, match r with inr s => Some s | inl _ => None end);
  ns_recv h max n := let '(n, r) := op_recv h max n in (n, match r with inr d => Some d | inl _ => None end);
  ns_close h n := fst (op_close h n);
|}.

End Server.

(** ** The ICMP checksum *)

(** [icmp_chksum]: 16-bit words as the machine reads them, little endian. *)
Fixpoint chksum_sum (data : bytes) (sum : Z) : Z :=
  match data with
  | a :: b :: t => chksum_sum t (sum +[32] (a + 256 * b))
  | [a] => sum +[32] a
  | [] => sum
  end.

Fixpoint chksum_fold (fuel : nat) (sum : Z) : run Z :=
  match fuel with
  | O => Fuel_out
  | S fuel => if Z.shiftr sum 16 =? 0 then Ret sum else chksum_fold fuel (Z.land sum 0xffff +[32] Z.shiftr sum 16)
  end.

Definition icmp_chksum (data : bytes) : run Z := s ← chksum_fold 3 (chksum_sum data 0); Ret (u16 (Z.lnot s)).

(** ** Descriptors *)

Section Laws.
Context {W : Type} `{!Lwip W} `{!Lwip_laws W}.

(** The open sockets of lwIP are the handles of the clients and the sockets [F] of the
    server itself. *)
Definition netd_inv (F : gset Z) (n : netd W) : Prop :=
  lw_fds (nd_lwip n) = g_open_handles n ∪ F /\ g_open_handles n ## F.

Lemma known_spec h (n : netd W) : known h n = true <-> s32 h ∈ g_open_handles n.
Proof. unfold known. by rewrite bool_decide_eq_true. Qed.

Lemma call_fds {A} (f : W -> W * A) (n : netd W) : lw_fds (fst (f (nd_lwip n))) = lw_fds (nd_lwip n) ->
  lw_fds (nd_lwip (fst (call f n))) = lw_fds (nd_lwip n) /\
  g_open_handles (fst (call f n)) = g_open_handles n /\ g_net_stack_ready (fst (call f n)) = g_net_stack_ready n.
Proof. intros E. unfold call. destruct (f (nd_lwip n)) as [w r]. done. Qed.

(** The three ways to get a descriptor. *)
Lemma new_fd_inv F (n : netd W) w fd : netd_inv F n -> 0 <= fd -> fd ∉ lw_fds (nd_lwip n) -> lw_fds w = {[fd]} ∪ lw_fds (nd_lwip n) ->
  netd_inv F (set_handles ({[fd]} ∪ g_open_handles n) (set_lwip w n)) /\ u32 fd = fd /\ s32 fd = fd.
Proof.
  intros [E Hd] H0 Hn Ew. assert (0 <= fd < 2 ^ 31) by (apply (lw_fd_range w); rewrite Ew; set_solver).
  split; [split; cbn; [rewrite Ew, E; set_solver|rewrite E in Hn; set_solver]|].
  rewrite uwrap_small, swrap_small by (unfold in_u; lia). done.
Qed.

Lemma gone_fd w0 w fd : fd ∉ lw_fds w0 -> lw_fds w = {[fd]} ∪ lw_fds w0 -> lw_fds (lw_close fd w) = lw_fds w0.
Proof. intros Hn E. rewrite lw_close_fds, E. set_solver. Qed.

(** What opening a connection does. *)
Lemma op_tcp_connect_spec F ip port (n : netd W) : netd_inv F n ->
  let '(n', r) := op_tcp_connect ip port n in
  netd_inv F n' /\
  match r with
  | inl _ => g_open_handles n' = g_open_handles n
  | inr h => h ∉ g_open_handles n /\ s32 h = h /\ g_open_handles n' = {[h]} ∪ g_open_handles n
  end.
Proof.
  intros Hi. unfold op_tcp_connect. destruct (g_net_stack_ready n) eqn:Er; cbn [negb]; [|done]. unfold call.
  pose proof (lw_socket_fds (nd_lwip n)) as Hs. destruct (lw_socket (nd_lwip n)) as [w1 fd].
  destruct Hs as [[Hneg E1]|(H0 & Hn & E1)].
  { replace (fd <? 0) with true by lia. split; [|done]. destruct Hi as [E Hd]. split; [|done]. cbn. by rewrite E1. }
  replace (fd <? 0) with false by lia. cbn [nd_lwip set_lwip].
  pose proof (lw_connect_fds fd ip port w1) as E2. destruct (lw_connect fd ip port w1) as [w2 r2]. cbn [fst] in E2.
  destruct (r2 <? 0).
  { split; [|done]. unfold lw_close_in. cbn. destruct Hi as [E Hd]. split; [|done]. cbn.
    rewrite (gone_fd (nd_lwip n)) by (done || by rewrite E2). done. }
  cbn [nd_lwip set_lwip g_open_handles].
  destruct (new_fd_inv F n (lw_setopt fd w2) fd Hi H0 Hn) as (Hi' & Eu & Es); [by rewrite lw_setopt_fds, E2|].
  rewrite Eu. split; [exact Hi'|]. destruct Hi as [E _]. rewrite E in Hn. split; [set_solver|done].
Qed.

Lemma op_tcp_listen_inv F port (n : netd W) : netd_inv F n -> netd_inv F (fst (op_tcp_listen port n)).
Proof.
  intros Hi. unfold op_tcp_listen. destruct (g_net_stack_ready n); cbn [negb]; [|done]. unfold call.
  pose proof (lw_socket_fds (nd_lwip n)) as Hs. destruct (lw_socket (nd_lwip n)) as [w1 fd].
  destruct Hs as [[Hneg E1]|(H0 & Hn & E1)].
  { replace (fd <? 0) with true by lia. destruct Hi as [E Hd]. split; [|done]. cbn. by rewrite E1. }
  replace (fd <? 0) with false by lia. cbn [nd_lwip set_lwip].
  assert (Hclose : forall w, lw_fds w = {[fd]} ∪ lw_fds (nd_lwip n) -> netd_inv F (lw_close_in fd (set_lwip w n))).
  { intros w Ew. destruct Hi as [E Hd]. split; [|done]. cbn. by rewrite (gone_fd (nd_lwip n)). }
  pose proof (lw_bind_fds fd (u16 port) (lw_setopt fd w1)) as E2.
  destruct (lw_bind fd (u16 port) (lw_setopt fd w1)) as [w2 r2]. cbn [fst] in E2. rewrite lw_setopt_fds, E1 in E2.
  destruct (r2 <? 0); [by apply (Hclose w2)|]. cbn [nd_lwip set_lwip].
  pose proof (lw_listen_fds fd 1 w2) as E3. destruct (lw_listen fd 1 w2) as [w3 r3]. cbn [fst] in E3. rewrite E2 in E3.
  destruct (r3 <? 0); [by apply (Hclose w3)|]. cbn [nd_lwip set_lwip g_open_handles fst].
  apply (new_fd_inv F n (lw_setopt fd w3) fd Hi H0 Hn). by rewrite lw_setopt_fds.
Qed.

Lemma op_tcp_accept_inv F l (n : netd W) : netd_inv F n -> netd_inv F (fst (op_tcp_accept l n)).
Proof.
  intros Hi. unfold op_tcp_accept. destruct (known l n); cbn [negb]; [|done]. unfold call.
  pose proof (lw_accept_fds (s32 l) (nd_lwip n)) as Hs. destruct (lw_accept (s32 l) (nd_lwip n)) as [w1 fd].
  destruct Hs as [[Hneg E1]|(H0 & Hn & E1)].
  { replace (fd <? 0) with true by lia. destruct Hi as [E Hd]. split; [|done]. cbn. by rewrite E1. }
  replace (fd <? 0) with false by lia. cbn [nd_lwip set_lwip g_open_handles fst].
  apply (new_fd_inv F n (lw_setopt fd w1) fd Hi H0 Hn). by rewrite lw_setopt_fds.
Qed.

Lemma op_close_spec F h (n : netd W) : netd_inv F n ->
  netd_inv F (fst (op_close h n)) /\ g_open_handles (fst (op_close h n)) = g_open_handles n ∖ {[s32 h]}.
Proof.
  intros [E Hd]. unfold op_close. destruct (known h n) eqn:Ek; cbn [negb fst].
  - apply known_spec in Ek. split; [|done]. split; cbn; [rewrite lw_close_fds, E; set_solver|set_solver].
  - split; [done|]. assert (s32 h ∉ g_open_handles n) by (rewrite <- known_spec, Ek; done). set_solver.
Qed.

(** The operations that open and close nothing. *)
Lemma op_send_same h d (n : netd W) : lw_fds (nd_lwip (fst (op_send h d n))) = lw_fds (nd_lwip n) /\
  g_open_handles (fst (op_send h d n)) = g_open_handles n.
Proof.
  unfold op_send. destruct (known h n); cbn [negb]; [|done]. unfold call.
  pose proof (lw_send_fds (s32 h) d (nd_lwip n)) as E. destruct (lw_send (s32 h) d (nd_lwip n)) as [w r]. cbn [fst] in E.
  by destruct (r <? 0).
Qed.

Lemma op_recv_same h max (n : netd W) : lw_fds (nd_lwip (fst (op_recv h max n))) = lw_fds (nd_lwip n) /\
  g_open_handles (fst (op_recv h max n)) = g_open_handles n.
Proof.
  unfold op_recv. destruct (known h n); cbn [negb]; [|done]. unfold call. cbv zeta.
  match goal with |- context [lw_recv ?a ?b ?c] => pose proof (lw_recv_fds a b c) as E; destruct (lw_recv a b c) as [w r] end.
  cbn [fst] in E. by destruct r.
Qed.

Lemma op_resolve_same host (n : netd W) : lw_fds (nd_lwip (fst (op_resolve host n))) = lw_fds (nd_lwip n) /\
  g_open_handles (fst (op_resolve host n)) = g_open_handles n.
Proof.
  unfold op_resolve. destruct (g_net_stack_ready n); cbn [negb]; [|done]. destruct (lw_aton _); [done|]. unfold call.
  match goal with |- context [lw_getaddrinfo ?a ?b] => pose proof (lw_getaddrinfo_fds a b) as E; destruct (lw_getaddrinfo a b) as [w r] end.
  cbn [fst] in E. by destruct r.
Qed.


(** A request with a handle that was not given out, or was closed, is refused and does
    not reach lwIP. *)
Theorem unknown_handle h d max (n : netd W) : s32 h ∉ g_open_handles n ->
  op_send h d n = (n, inl EINVAL) /\ op_recv h max n = (n, inl EINVAL) /\
  op_close h n = (n, Err EINVAL) /\ op_tcp_accept h n = (n, inl EINVAL).
Proof.
  intros Hn. assert (Hk : known h n = false) by (apply bool_decide_false; done).
  unfold op_send, op_recv, op_close, op_tcp_accept. by rewrite Hk.
Qed.

(** A receive returns at most the bytes asked for, and at most what fits the buffer of
    the server. *)
Theorem recv_bounded h max (n : netd W) d : 0 <= max -> snd (op_recv h max n) = inr d -> zlen d <= Z.min max RXBUF.
Proof.
  intros Hm. unfold op_recv. destruct (known h n); cbn [negb]; [|done]. unfold call. cbv zeta.
  match goal with |- context [lw_recv ?a ?b ?c] => pose proof (lw_recv_max a b c) as E; destruct (lw_recv a b c) as [w r] end.
  cbn [snd] in E. unfold RXBUF in *. destruct r as [x| |]; cbn [snd]; intros [= <-].
  - specialize (E x eq_refl). split_ifs; lia.
  - change (zlen (A := Z) []) with 0. lia.
Qed.

(** ** The MQTT client on this server *)

(** Which handles are open while the client has [h]. *)
Definition client_holds (F H : gset Z) (n : netd W) (h : option Z) : Prop :=
  netd_inv F n /\
  match h with
  | None => g_open_handles n = H
  | Some x => x ∉ H /\ s32 x = x /\ g_open_handles n = {[x]} ∪ H
  end.

#[global] Instance netd_handle_inv F H : Handle_inv (client_holds F H).
Proof.
  assert (Hsame : forall n n' h, client_holds F H n h -> lw_fds (nd_lwip n') = lw_fds (nd_lwip n) ->
    g_open_handles n' = g_open_handles n -> client_holds F H n' h).
  { intros n n' h [[E Hd] Hh] E1 E2. split; [split; [by rewrite E1, E2|by rewrite E2]|]. by rewrite E2. }
  split.
  - intros b n h Hn. cbn. pose proof (op_resolve_same b n) as [E1 E2]. destruct (op_resolve b n) as [n' r]. by eapply Hsame.
  - intros ip port n [Hi Hh]. cbn. pose proof (op_tcp_connect_spec F ip port n Hi) as Hc.
    destruct (op_tcp_connect ip port n) as [n' [e|x]]; cbn; destruct Hc as [Hi' Hc].
    + split; [done|]. congruence.
    + destruct Hc as (Hx & Es & Ex). split; [done|]. rewrite Hh in Hx, Ex. done.
  - intros g p n h Hn. cbn. pose proof (op_send_same g p n) as [E1 E2]. destruct (op_send g p n) as [n' r]. by eapply Hsame.
  - intros g max n h Hn. cbn. pose proof (op_recv_same g max n) as [E1 E2]. destruct (op_recv g max n) as [n' r]. by eapply Hsame.
  - intros g n [Hi (Hx & Es & Ex)]. cbn. destruct (op_close_spec F g n Hi) as [Hi' E]. split; [done|].
    rewrite E, Ex, Es. set_solver.
Qed.

(** The MQTT client on the network server: however the connection, the broker and lwIP
    behave, when the client returns, the server has the handles and the sockets it had
    before. *)
Theorem mqtt_leaves_no_handle `{!Client_env (netd W)} F fuel argv (n : netd W) code n' tr :
  netd_inv F n -> main fuel argv (n, []) = ((n', tr), Ret code) ->
  g_open_handles n' = g_open_handles n /\ lw_fds (nd_lwip n') = lw_fds (nd_lwip n).
Proof.
  intros Hi E. destruct (main_order (client_holds F (g_open_handles n)) fuel argv n) as (s & _ & Hs & Hr); [by split|].
  rewrite E in Hs, Hr. cbn [fst snd] in *. specialize (Hr code eq_refl).
  assert (Hn : client_holds F (g_open_handles n) n' None) by (destruct Hr as [-> | ->]; exact Hs).
  destruct Hn as [[E1 _] Eh]. split; [done|]. destruct Hi as [E0 _]. by rewrite E1, E0, Eh.
Qed.
End Laws.

(** ** The checksum *)

Fixpoint words_sum (data : bytes) : Z :=
  match data with
  | a :: b :: t => a + 256 * b + words_sum t
  | [a] => a
  | [] => 0
  end.

Lemma words_ind (P : bytes -> Prop) : P [] -> (forall a, P [a]) -> (forall a b t, P t -> P (a :: b :: t)) -> forall l, P l.
Proof.
  intros H0 H1 H2 l. assert (Hboth : P l /\ forall a, P (a :: l)); [|by destruct Hboth].
  induction l as [|x l [IH1 IH2]]; [by split|]. split; [done|]. intros a. by apply H2.
Qed.

Lemma words_sum_bounds data : bytes_ok data -> 0 <= words_sum data <= 65535 * zlen data.
Proof.
  induction data as [|a|a b t IH] using words_ind; intros Hb; cbn [words_sum].
  - done.
  - apply Forall_cons_iff in Hb as [Ha _]. change (zlen [a]) with 1. unfold byte_ok in Ha. lia.
  - apply Forall_cons_iff in Hb as [Ha Hb]. apply Forall_cons_iff in Hb as [Hb Ht]. specialize (IH Ht).
    rewrite !zlen_cons. unfold byte_ok in *. lia.
Qed.

Lemma chksum_sum_spec data s : bytes_ok data -> 0 <= s -> s + words_sum data < 2 ^ 32 -> chksum_sum data s = s + words_sum data.
Proof.
  revert s. induction data as [|a|a b t IH] using words_ind; intros s Hb Hs Hl; cbn [words_sum chksum_sum] in *.
  - lia.
  - apply Forall_cons_iff in Hb as [Ha _]. unfold byte_ok in Ha. rewrite uwrap_small by (unfold in_u; lia). done.
  - apply Forall_cons_iff in Hb as [Ha Hb]. apply Forall_cons_iff in Hb as [Hb Ht].
    pose proof (words_sum_bounds t Ht). unfold byte_ok in *.
    rewrite uwrap_small by (unfold in_u; lia). rewrite IH; [lia|done|lia|lia].
Qed.

Lemma words_sum_app p q k : length p = (2 * k)%nat -> words_sum (p ++ q) = words_sum p + words_sum q.
Proof.
  revert k. induction p as [|a|a b t IH] using words_ind; intros k Hk; [done|cbn in Hk; lia|].
  cbn [app words_sum]. rewrite (IH (k - 1)%nat) by (cbn in Hk; lia). lia.
Qed.

(** Folding the carries is the sum in ones' complement. *)
Lemma fold_step s : 0 <= s < 2 ^ 32 ->
  Z.land s 0xffff +[32] Z.shiftr s 16 = s mod 65536 + s / 65536 /\ (Z.shiftr s 16 =? 0) = (s <? 65536).
Proof.
  intros Hs. change 0xffff with (Z.ones 16). rewrite Z.land_ones, Z.shiftr_div_pow2 by lia. change (2 ^ 16) with 65536.
  rewrite uwrap_small by (unfold in_u; Z.div_mod_to_equations; lia). split; [done|].
  destruct (s <? 65536) eqn:E; [apply Z.eqb_eq|apply Z.eqb_neq]; Z.div_mod_to_equations; lia.
Qed.

Lemma chksum_fold_spec s : 0 <= s < 2 ^ 32 ->
  exists f k, chksum_fold 3 s = Ret f /\ 0 <= f <= 65535 /\ s = f + 65535 * k /\ 0 <= k /\ (f = 0 -> s = 0).
Proof.
  intros Hs. cbn [chksum_fold]. destruct (fold_step s Hs) as [-> ->].
  destruct (s <? 65536) eqn:E0; [exists s, 0; split; [done|lia]|].
  set (s1 := s mod 65536 + s / 65536). assert (H1 : 0 < s1 < 131072) by (unfold s1; Z.div_mod_to_equations; lia).
  assert (E1 : s = s1 + 65535 * (s / 65536)) by (unfold s1; Z.div_mod_to_equations; lia).
  assert (0 <= s / 65536) by (apply Z.div_pos; lia). destruct (fold_step s1 ltac:(lia)) as [-> ->].
  destruct (s1 <? 65536) eqn:E2; [exists s1, (s / 65536); split; [done|lia]|].
  set (s2 := s1 mod 65536 + s1 / 65536). assert (H2 : 0 < s2 < 65536) by (unfold s2; Z.div_mod_to_equations; lia).
  assert (E3 : s1 = s2 + 65535 * (s1 / 65536)) by (unfold s2; Z.div_mod_to_equations; lia).
  assert (0 <= s1 / 65536) by (apply Z.div_pos; lia). destruct (fold_step s2 ltac:(lia)) as [_ ->].
  replace (s2 <? 65536) with true by lia. exists s2, (s / 65536 + s1 / 65536). split; [done|lia].
Qed.

Lemma u16_lnot f : 0 <= f <= 65535 -> u16 (Z.lnot f) = 65535 - f.
Proof.
  intros Hf. unfold Z.lnot. replace (Z.pred (- f)) with (- f - 1) by lia. rewrite (uwrap_under 16) by lia. lia.
Qed.

(** A packet with the checksum that [icmp_chksum] computes for it, with the field set to
    0, in its place is one for which the receiver computes 0; the loop over the carries
    ends after two additions. *)
Theorem icmp_chksum_verifies p q k :
  bytes_ok p -> bytes_ok q -> length p = (2 * k)%nat -> zlen p + zlen q < 65536 ->
  exists c, icmp_chksum (p ++ [0; 0] ++ q) = Ret c /\ 0 <= c < 65536 /\
    icmp_chksum (p ++ [c mod 256; c / 256] ++ q) = Ret 0.
Proof.
  intros Hp Hq Hk Hl. pose proof (words_sum_bounds p Hp) as Bp. pose proof (words_sum_bounds q Hq) as Bq.
  set (s := words_sum p + words_sum q). assert (Hs : 0 <= s < 2 ^ 32 - 65536) by (unfold s; lia).
  assert (Hsum : forall a b, byte_ok a -> byte_ok b ->
    chksum_sum (p ++ [a; b] ++ q) 0 = s + (a + 256 * b)).
  { intros a b Ha Hb. assert (E : words_sum (p ++ [a; b] ++ q) = s + (a + 256 * b)).
    { rewrite (words_sum_app p _ k Hk). unfold s. cbn [app words_sum]. lia. }
    unfold byte_ok in *. rewrite chksum_sum_spec; rewrite ?E; [lia| |lia|lia].
    apply Forall_app. split; [done|]. constructor; [done|]. by constructor. }
  unfold icmp_chksum. rewrite Hsum by (unfold byte_ok; lia). rewrite Z.mul_0_r, !Z.add_0_r.
  destruct (chksum_fold_spec s ltac:(lia)) as (f & j & -> & Hf & Ef & Hj & Hz). cbn [mbind run_bind].
  rewrite u16_lnot by done. exists (65535 - f). split; [done|]. split; [lia|].
  assert (Hc : (65535 - f) mod 256 + 256 * ((65535 - f) / 256) = 65535 - f) by (Z.div_mod_to_equations; lia).
  rewrite Hsum by (unfold byte_ok; Z.div_mod_to_equations; lia). rewrite Hc.
  destruct (chksum_fold_spec (s + (65535 - f)) ltac:(lia)) as (g & i & -> & Hg & Eg & Hi & Hz'). cbn [mbind run_bind].
  rewrite u16_lnot by done. f_equal. assert (Hpos : s + (65535 - f) = 65535 * (j + 1)) by lia.
  assert (g <> 0) by (intros ->; lia). assert (g = 65535 * (j + 1 - i)) by lia. nia.
Qed.

(** ** Examples *)

Module Netd_example.

(** lwIP with any number of sockets; receiving yields nothing. *)
Record world := { fds : gset Z; next : Z; waiting : bool }.

Definition fresh (w : world) : world * Z :=
  if decide (next w ∈ fds w \/ ~ (0 <= next w < 1000)) then (w, -1)
  else ({| fds := {[next w]} ∪ fds w; next := next w + 1; waiting := false |}, next w).

#[local] Instance lwip : Lwip world := {|
  lw_socket := fresh;
  lw_connect _ _ _ w := (w, 0);
  lw_bind _ _ w := (w, 0);
  lw_listen _ _ w := (w, 0);
  lw_accept _ w := if waiting w then fresh w else (w, -1);
  lw_send _ d w := (w, zlen d);
  lw_recv _ _ w := (w, R_again);
  lw_setopt _ w := w;
  lw_close fd w := {| fds := fds w ∖ {[fd]}; next := next w; waiting := waiting w |};
  lw_aton _ := Some 0x0202000a;
  lw_getaddrinfo _ w := (w, None);
  lw_fds w := filter (fun x => 0 <= x < 2 ^ 31) (fds w);
|}.

Lemma fresh_fds w : let '(w', fd) := fresh w in
  (fd < 0 /\ lw_fds w' = lw_fds w) \/ (0 <= fd /\ fd ∉ lw_fds w /\ lw_fds w' = {[fd]} ∪ lw_fds w).
Proof.
  unfold fresh. case_decide as Hc; [left; split; [lia|done]|right]. cbn.
  assert (next w ∉ fds w /\ 0 <= next w < 1000) as [Hn Hr] by (split; [tauto|lia]).
  split; [lia|]. split; [set_solver|]. apply set_eq. intros x. rewrite elem_of_union, !elem_of_filter, elem_of_union, elem_of_singleton.
  split; [tauto|]. intros [-> | ?]; [|tauto]. split; [lia|by left].
Qed.

#[local] Instance lwip_laws : Lwip_laws world.
Proof.
  split; intros *; try done.
  - cbn. rewrite elem_of_filter. tauto.
  - apply fresh_fds.
  - cbn. destruct (waiting w); [apply fresh_fds|by left].
  - cbn. apply set_eq. intros x. rewrite elem_of_difference, !elem_of_filter, elem_of_difference. tauto.
Defined.

Definition w0 : world := {| fds := {[3]}; next := 4; waiting := false |}.
Definition n0 : netd world := {| g_net_stack_ready := true; g_open_handles := {[3]}; nd_lwip := w0 |}.

Lemma n0_inv : netd_inv ∅ n0.
Proof. split; cbn; [|set_solver]. by_eval. Defined.


Lemma unknown_handle_witness : op_send 9 [1] n0 = (n0, inl EINVAL) /\ op_recv 9 10 n0 = (n0, inl EINVAL) /\
  op_close 9 n0 = (n0, Err EINVAL) /\ op_tcp_accept 9 n0 = (n0, inl EINVAL).
Proof. refine (unknown_handle 9 [1] 10 n0 _). refine (bool_decide_unpack _ _). by vm_compute. Defined.

Lemma recv_bounded_witness : zlen (A := Z) [] <= Z.min 2000 RXBUF.
Proof. refine (recv_bounded 3 2000 n0 [] _ _); by_eval. Defined.

#[local] Instance env : Client_env (netd world) := {| netd_valid := true; kip_clock _ := 0; stack_rb _ := [] |}.

Definition run_pub := main 5 [str "mqtt"; str "pub"; str "10.0.2.2"; str "t"; str "m"] (n0, []).

Lemma mqtt_leaves_no_handle_witness :
  g_open_handles (fst (fst run_pub)) = {[3]} /\ lw_fds (nd_lwip (fst (fst run_pub))) = lw_fds (nd_lwip n0).
Proof.
  refine (mqtt_leaves_no_handle ∅ 5 [str "mqtt"; str "pub"; str "10.0.2.2"; str "t"; str "m"] n0 1
            (fst (fst run_pub)) (snd (fst run_pub)) n0_inv _). by_eval.
Defined.

Lemma icmp_chksum_verifies_witness : exists c, icmp_chksum ([8; 0] ++ [0; 0] ++ [0xab; 0xcd; 0; 1]) = Ret c /\ 0 <= c < 65536 /\
  icmp_chksum ([8; 0] ++ [c mod 256; c / 256] ++ [0xab; 0xcd; 0; 1]) = Ret 0.
Proof.
  refine (icmp_chksum_verifies [8; 0] [0xab; 0xcd; 0; 1] 1 _ _ _ _); [| |done|by_eval]; repeat constructor; by_eval.
Defined.

(** When lwIP gives the descriptor 0 to an accepted connection, the client gets the
    answer for "nobody has connected", and the connection stays open. *)
Theorem accept_zero_lost :
  let n w := {| g_net_stack_ready := true; g_open_handles := {[3]}; nd_lwip := {| fds := {[3]}; next := 0; waiting := w |} |} in
  snd (op_tcp_accept 3 (n true)) = snd (op_tcp_accept 3 (n false)) /\
  0 ∈ g_open_handles (fst (op_tcp_accept 3 (n true))).
Proof. cbn zeta. split; [by_eval|]. refine (bool_decide_unpack _ _). by vm_compute. Qed.

End Netd_example.
