(* ===== verification/NetdNic.v ===== *)
(** * The network card of the network server

    [src/pkg/netd/server/main.cc]: the rings of a virtio network card, driven through
    shared memory.  Sixteen receive buffers go around between the card and the thread
    that takes frames from them; one buffer serves for sending, and the sender waits
    until the card has taken it.  The card is the other side of the rings: it may act
    between any two elements the driver handles. *)

From S2P Require Import Prelude.

Definition VQ_SIZE : Z := 16.
Definition VNET_HDR_WIRE : Z := 10.
Definition VTDESC_F_WRITE : Z := 2.
Definition BUF_SIZE : Z := 2048.

Record vq_desc := { d_addr : Z; d_len : Z; d_flags : Z; d_next : Z }.

(** The shared memory of the receive side and the counter of the driver.  [rx_buf_off]:
    the offset of the buffers in the DMA memory at [n_dma_phys]. *)
Record rx := {
  rx_desc : list vq_desc;
  avail_ring : list Z;
  avail_idx : Z;
  used_ring : list (Z * Z);
  used_idx : Z;
  rx_buf : list bytes;
  n_rx_last_used : Z;
}.

Section Receive_side.
Variables (n_dma_phys rx_buf_off : Z).

Definition rx_desc_of (i : Z) : vq_desc :=
  {| d_addr := u64 (n_dma_phys + rx_buf_off + i * 2048); d_len := 2048; d_flags := VTDESC_F_WRITE; d_next := 0 |}.

(** Store into an array. *)
Definition set_at {A} (i : Z) (x : A) (l : list A) : run (list A) :=
  if (0 <=? i) && (i <? zlen l) then Ret (<[Z.to_nat i := x]> l) else Oob.

Definition get_at {A} (i : Z) (l : list A) : run A :=
  if 0 <=? i then or_oob (l !! Z.to_nat i) else Oob.

(** The loop of [net_prefill_rx] from [i] on. *)
Fixpoint prefill_loop (n : nat) (i : Z) (q : rx) : run rx :=
  match n with
  | O => Ret q
  | S n =>
      desc ← set_at i (rx_desc_of i) (rx_desc q);
      ring ← set_at i (u16 i) (avail_ring q);
      prefill_loop n (i + 1)
        {| rx_desc := desc; avail_ring := ring; avail_idx := avail_idx q; used_ring := used_ring q;
           used_idx := used_idx q; rx_buf := rx_buf q; n_rx_last_used := n_rx_last_used q |}
  end.

Definition net_prefill_rx (qsz : Z) (q : rx) : run rx :=
  q ← prefill_loop (Z.to_nat qsz) 0 q;
  Ret {| rx_desc := rx_desc q; avail_ring := avail_ring q; avail_idx := u16 qsz; used_ring := used_ring q;
         used_idx := used_idx q; rx_buf := rx_buf q; n_rx_last_used := n_rx_last_used q |}.

(** One element in [net_rx_thread]; [pb]: a packet buffer could be allocated.  The
    frame that is handed to lwIP, if any. *)
Definition rx_element (pb : bool) (q : rx) : run (rx * option bytes) :=
  '(ue_id, len) ← get_at (Z.land (n_rx_last_used q) (VQ_SIZE - 1)) (used_ring q);
  let id := u16 ue_id in
  frame ← (if VNET_HDR_WIRE <? len then
             buf ← get_at id (rx_buf q);
             if pb then f ← or_oob (rd_bytes VNET_HDR_WIRE (u16 (len - VNET_HDR_WIRE)) buf); Ret (Some f)
             else Ret None
           else Ret None);
  desc ← set_at id (rx_desc_of id) (rx_desc q);
  ring ← set_at (Z.land (avail_idx q) (VQ_SIZE - 1)) id (avail_ring q);
  Ret ({| rx_desc := desc; avail_ring := ring; avail_idx := avail_idx q +[16] 1; used_ring := used_ring q;
          used_idx := used_idx q; rx_buf := rx_buf q; n_rx_last_used := n_rx_last_used q +[16] 1 |}, frame).

(** One round of the inner loop: is there something to do? *)
Definition rx_poll (pb : bool) (q : rx) : run (rx * option bytes) :=
  if n_rx_last_used q =? used_idx q then Ret (q, None) else rx_element pb q.

(** ** The card *)

(** The card and its own counter of the available ring. *)
Record card := { c_rx : rx; c_next : Z }.

(** A frame arrives: it goes into the next available buffer behind a header of ten
    bytes; without one it is dropped. *)
Definition card_frame (frame : bytes) (c : card) : card * bool :=
  let q := c_rx c in
  match avail_ring q !! Z.to_nat (c_next c mod VQ_SIZE), bool_decide (c_next c = avail_idx q) with
  | Some id, false =>
      let buf := replicate 10 0 ++ frame ++ replicate (2038 - length frame) 0 in
      ({| c_rx := {| rx_desc := rx_desc q; avail_ring := avail_ring q; avail_idx := avail_idx q;
                     used_ring := <[Z.to_nat (used_idx q mod VQ_SIZE) := (id, VNET_HDR_WIRE + zlen frame)]> (used_ring q);
                     used_idx := used_idx q +[16] 1; rx_buf := <[Z.to_nat id := buf]> (rx_buf q);
                     n_rx_last_used := n_rx_last_used q |};
          c_next := c_next c +[16] 1 |}, true)
  | _, _ => (c, false)
  end.

(** Card and driver act in any order. *)
Inductive step := S_card (frame : bytes) | S_driver (pb : bool).

(** The frames the card took, and for each element the driver handled, whether there was
    a packet buffer and what went to lwIP. *)
Record system := { sy_card : card; taken : list bytes; log : list (bool * option bytes) }.

Definition sys_step (s : system) (st : step) : run system :=
  match st with
  | S_card frame =>
      let '(c, ok) := card_frame frame (sy_card s) in
      Ret {| sy_card := c; taken := taken s ++ (if ok : bool then [frame] else []); log := log s |}
  | S_driver pb =>
      let q := c_rx (sy_card s) in
      '(q', f) ← rx_poll pb q;
      Ret {| sy_card := {| c_rx := q'; c_next := c_next (sy_card s) |}; taken := taken s;
             log := log s ++ (if n_rx_last_used q =? used_idx q then [] else [(pb, f)]) |}
  end.

Fixpoint sys_run (s : system) (l : list step) : run system :=
  match l with [] => Ret s | st :: l => s ← sys_step s st; sys_run s l end.

(** ** Buffers have one owner *)

Definition in_buf (f : bytes) : bytes := replicate 10 0 ++ f ++ replicate (2038 - length f) 0.

(** What the driver does with a frame. *)
Definition outcome (f : bytes) (r : bool * option bytes) : Prop :=
  r.2 = if r.1 && (0 <? zlen f) then Some f else None.

(** [ui]: the buffers with frames the driver has not seen, [fr]: those the card may
    fill; together they are the sixteen buffers. *)
Record sys_inv (s : system) (ui fr : list Z) : Prop := {
  si_len : length (rx_desc (c_rx (sy_card s))) = 16%nat /\ length (avail_ring (c_rx (sy_card s))) = 16%nat /\
    length (used_ring (c_rx (sy_card s))) = 16%nat /\ length (rx_buf (c_rx (sy_card s))) = 16%nat;
  si_last : n_rx_last_used (c_rx (sy_card s)) = u16 (zlen (log s));
  si_used : used_idx (c_rx (sy_card s)) = u16 (zlen (taken s));
  si_next : c_next (sy_card s) = u16 (zlen (taken s));
  si_avail : avail_idx (c_rx (sy_card s)) = u16 (zlen (log s) + 16);
  si_ui : (length (log s) + length ui = length (taken s))%nat;
  si_fr : (length ui + length fr = 16)%nat;
  si_own : NoDup (ui ++ fr) /\ Forall (fun id => 0 <= id < 16) (ui ++ fr);
  si_frames i id : ui !! i = Some id -> exists f, taken s !! (length (log s) + i)%nat = Some f /\ zlen f <= 2038 /\
    used_ring (c_rx (sy_card s)) !! ((length (log s) + i) mod 16)%nat = Some (id, 10 + zlen f) /\
    rx_buf (c_rx (sy_card s)) !! Z.to_nat id = Some (in_buf f);
  si_free i id : fr !! i = Some id ->
    avail_ring (c_rx (sy_card s)) !! ((length (taken s) + i) mod 16)%nat = Some id;
  si_log : Forall2 outcome (take (length (log s)) (taken s)) (log s);
}.

Lemma ring_pos n : Z.land (u16 n) 15 = n mod 16 /\ u16 n mod 16 = n mod 16.
Proof.
  change 15 with (Z.ones 4). rewrite Z.land_ones by lia. change (2 ^ 4) with 16.
  assert (E : u16 n mod 16 = n mod 16); [|done]. unfold uwrap. rewrite Z.mod_mod_divide; [done|]. by exists 4096.
Qed.

Lemma mod_nat n : Z.to_nat (Z.of_nat n mod 16) = (n mod 16)%nat.
Proof. rewrite <- (Nat2Z.id (n mod 16)). f_equal. by rewrite Nat2Z.inj_mod. Qed.

Lemma u16_eq a b : 0 <= b - a <= 16 -> u16 a = u16 b <-> a = b.
Proof.
  intros H. split; [|by intros ->]. unfold uwrap. intros E.
  assert (Hd : (b - a) mod 2 ^ 16 = 0) by (rewrite Zminus_mod, E, Z.sub_diag; done).
  rewrite Z.mod_small in Hd by lia. lia.
Qed.

Lemma mod_ne a b : (a < b < a + 16)%nat -> (a mod 16 <> b mod 16)%nat.
Proof.
  intros H E. pose proof (Nat.div_mod_eq a 16). pose proof (Nat.div_mod_eq b 16). lia.
Qed.

Lemma get_at_ok {A} i (l : list A) : 0 <= i -> get_at i l = or_oob (l !! Z.to_nat i).
Proof. intros Hi. unfold get_at. by replace (0 <=? i) with true by lia. Qed.

Lemma set_at_ok {A} i (x : A) l : 0 <= i < zlen l -> set_at i x l = Ret (<[Z.to_nat i := x]> l).
Proof. intros Hi. unfold set_at. by replace ((0 <=? i) && (i <? zlen l)) with true by lia. Qed.

Lemma in_buf_read f : zlen f <= 2038 -> rd_bytes 10 (zlen f) (in_buf f) = Some f.
Proof.
  intros Hf. pose proof (zlen_nonneg f).
  assert (Hl : zlen (in_buf f) = 2048).
  { unfold in_buf, zlen in *. rewrite !length_app, !length_replicate. lia. }
  unfold rd_bytes. rewrite Hl. replace (_ && _) with true by lia. f_equal. unfold slice, in_buf.
  change (Z.to_nat 10) with (length (replicate 10 0)). rewrite drop_app_length. unfold zlen. by rewrite Nat2Z.id, take_app_length.
Qed.

(** The card takes a frame into a free buffer. *)
Lemma card_step s ui id fr f : sys_inv s ui (id :: fr) -> zlen f <= 2038 ->
  exists s', sys_step s (S_card f) = Ret s' /\ sys_inv s' (ui ++ [id]) fr /\ taken s' = taken s ++ [f].
Proof.
  intros Hi Hf. destruct (si_len _ _ _ Hi) as (L1 & L2 & L3 & L4).
  assert (Hne : bool_decide (c_next (sy_card s) = avail_idx (c_rx (sy_card s))) = false).
  { apply bool_decide_eq_false. rewrite (si_next _ _ _ Hi), (si_avail _ _ _ Hi), u16_eq;
      pose proof (si_ui _ _ _ Hi); pose proof (si_fr _ _ _ Hi) as Hfr; cbn in Hfr; unfold zlen; lia. }
  assert (Hpos : Z.to_nat (u16 (zlen (taken s)) mod VQ_SIZE) = (length (taken s) mod 16)%nat).
  { unfold VQ_SIZE. destruct (ring_pos (zlen (taken s))) as [_ ->]. apply mod_nat. }
  assert (Hav : avail_ring (c_rx (sy_card s)) !! Z.to_nat (c_next (sy_card s) mod VQ_SIZE) = Some id).
  { rewrite (si_next _ _ _ Hi), Hpos. pose proof (si_free _ _ _ Hi 0%nat id eq_refl) as E. by rewrite Nat.add_0_r in E. }
  destruct (si_own _ _ _ Hi) as [Hnd Hrange].
  assert (Hid : 0 <= id < 16) by (apply (proj1 (Forall_forall _ _) Hrange), list_elem_of_In, elem_of_app; right; by left).
  unfold sys_step, card_frame. rewrite Hav, Hne. eexists. split; [done|]. split; [|done].
  pose proof (si_ui _ _ _ Hi) as Hui. pose proof (si_fr _ _ _ Hi) as Hfr. cbn [length] in Hfr.
  rewrite (si_used _ _ _ Hi), Hpos.
  split; cbn [sy_card c_rx taken log c_next rx_desc avail_ring used_ring rx_buf n_rx_last_used used_idx avail_idx].
  - rewrite !length_insert. done.
  - apply (si_last _ _ _ Hi).
  - rewrite uwrap_add_l. f_equal. unfold zlen. rewrite length_app. cbn. lia.
  - rewrite (si_next _ _ _ Hi), uwrap_add_l. f_equal. unfold zlen. rewrite length_app. cbn. lia.
  - apply (si_avail _ _ _ Hi).
  - rewrite !length_app. cbn. lia.
  - rewrite length_app. cbn. lia.
  - rewrite <- app_assoc. done.
  - intros i x Hx. apply lookup_app_Some in Hx as [Hx|[Hge Hx]].
    + destruct (si_frames _ _ _ Hi i x Hx) as (g & Hg & Hgl & Hu & Hb). exists g.
      pose proof (lookup_lt_Some _ _ _ Hx). split; [by apply lookup_app_l_Some|]. split; [done|].
      rewrite list_lookup_insert_ne by (intros E; symmetry in E; revert E; apply mod_ne; lia). split; [done|].
      rewrite list_lookup_insert_ne; [done|].
      assert (Hx' : 0 <= x < 16) by (apply (proj1 (Forall_forall _ _) Hrange), list_elem_of_In, elem_of_app; left; by eapply list_elem_of_lookup_2).
      intros E. apply Z2Nat.inj in E; [|lia..]. subst x. apply list.NoDup_app in Hnd as (_ & Hnd & _).
      apply (Hnd id); [by eapply list_elem_of_lookup_2|by left].
    + apply list_lookup_singleton_Some in Hx as [E0 <-]. assert (i = length ui) as -> by lia. exists f.
      rewrite Hui. split; [by rewrite lookup_app_r, Nat.sub_diag by lia|]. split; [done|].
      split; [rewrite list_lookup_insert_eq; [done|]|rewrite list_lookup_insert_eq; [done|lia]].
      rewrite L3. apply Nat.mod_upper_bound. lia.
  - intros i x Hx. pose proof (si_free _ _ _ Hi (S i) x Hx) as E. rewrite length_app. cbn [length].
    by replace (length (taken s) + 1 + i)%nat with (length (taken s) + S i)%nat by lia.
  - rewrite take_app_le by lia. apply (si_log _ _ _ Hi).
Qed.

(** The used element of the oldest frame: its buffer goes back to the card, and lwIP gets
    the frame if it has a buffer for it. *)
Lemma driver_element s id ui fr pb : sys_inv s (id :: ui) fr -> exists f, taken s !! length (log s) = Some f /\
  rx_element pb (c_rx (sy_card s)) = Ret (
    {| rx_desc := <[Z.to_nat id := rx_desc_of id]> (rx_desc (c_rx (sy_card s)));
       avail_ring := <[(length (log s) mod 16)%nat := id]> (avail_ring (c_rx (sy_card s)));
       avail_idx := avail_idx (c_rx (sy_card s)) +[16] 1; used_ring := used_ring (c_rx (sy_card s));
       used_idx := used_idx (c_rx (sy_card s)); rx_buf := rx_buf (c_rx (sy_card s));
       n_rx_last_used := n_rx_last_used (c_rx (sy_card s)) +[16] 1 |},
    if pb && (0 <? zlen f) then Some f else None).
Proof.
  intros Hi. destruct (si_len _ _ _ Hi) as (L1 & L2 & L3 & L4).
  destruct (si_frames _ _ _ Hi 0%nat id eq_refl) as (f & Hf & Hfl & Hu & Hb). rewrite Nat.add_0_r in Hf, Hu.
  destruct (si_own _ _ _ Hi) as [Hnd Hrange]. exists f. split; [done|].
  assert (Hid : 0 <= id < 16) by (by apply Forall_cons_iff in Hrange as [? _]).
  assert (Hpos : forall n, Z.land (u16 (Z.of_nat n)) (VQ_SIZE - 1) = Z.of_nat (n mod 16)).
  { intros n. unfold VQ_SIZE. change (16 - 1) with 15. destruct (ring_pos (Z.of_nat n)) as [-> _]. by rewrite Nat2Z.inj_mod. }
  assert (Hlast : Z.land (n_rx_last_used (c_rx (sy_card s))) (VQ_SIZE - 1) = Z.of_nat (length (log s) mod 16)).
  { rewrite (si_last _ _ _ Hi). apply Hpos. }
  assert (Hav : Z.land (avail_idx (c_rx (sy_card s))) (VQ_SIZE - 1) = Z.of_nat (length (log s) mod 16)).
  { rewrite (si_avail _ _ _ Hi). unfold zlen. replace (Z.of_nat (length (log s)) + 16) with (Z.of_nat (length (log s) + 1 * 16)) by lia.
    rewrite Hpos, Nat.Div0.mod_add. done. }
  assert (Hmod : (length (log s) mod 16 < 16)%nat) by (apply Nat.mod_upper_bound; lia).
  pose proof (zlen_nonneg f) as Hf0.
  unfold rx_element. rewrite Hlast. rewrite get_at_ok, Nat2Z.id, Hu by lia.
    cbn [or_oob mbind run_bind]. rewrite (uwrap_small 16 id) by (unfold in_u; lia).
    assert (Hfr' : forall A (k : option bytes -> run A),
      ((if VNET_HDR_WIRE <? 10 + zlen f then buf ← get_at id (rx_buf (c_rx (sy_card s)));
         if pb then g ← or_oob (rd_bytes VNET_HDR_WIRE (u16 (10 + zlen f - VNET_HDR_WIRE)) buf); Ret (Some g) else Ret None
        else Ret None) ≫= k) = k (if pb && (0 <? zlen f) then Some f else None)).
    { intros A k. unfold VNET_HDR_WIRE. replace (10 <? 10 + zlen f) with (0 <? zlen f) by lia.
      destruct (0 <? zlen f) eqn:E; [|by rewrite andb_false_r]. rewrite get_at_ok, Hb by lia. cbn [or_oob mbind run_bind]. destruct pb; [|done]. cbn [andb].
      replace (10 + zlen f - 10) with (zlen f) by lia. rewrite uwrap_small by (unfold in_u; lia).
      by rewrite in_buf_read. }
    rewrite Hfr', Hav, !set_at_ok by (unfold zlen; lia). cbn [mbind run_bind]. by rewrite Nat2Z.id.
Qed.

(** The driver handles the oldest frame. *)
Lemma driver_step s id ui fr pb : sys_inv s (id :: ui) fr ->
  exists s', sys_step s (S_driver pb) = Ret s' /\ sys_inv s' ui (fr ++ [id]) /\ taken s' = taken s.
Proof.
  intros Hi. destruct (si_len _ _ _ Hi) as (L1 & L2 & L3 & L4).
  pose proof (si_ui _ _ _ Hi) as Hui. pose proof (si_fr _ _ _ Hi) as Hfr. cbn [length] in Hui, Hfr.
  assert (Hne : (n_rx_last_used (c_rx (sy_card s)) =? used_idx (c_rx (sy_card s))) = false).
  { apply Z.eqb_neq. rewrite (si_last _ _ _ Hi), (si_used _ _ _ Hi), u16_eq; unfold zlen; lia. }
  destruct (driver_element s id ui fr pb Hi) as (f & Hf & Hel).
  destruct (si_own _ _ _ Hi) as [Hnd Hrange]. assert (Hid : 0 <= id < 16) by (by apply Forall_cons_iff in Hrange as [? _]).
  assert (Hmod : (length (log s) mod 16 < 16)%nat) by (apply Nat.mod_upper_bound; lia).
  unfold sys_step, rx_poll. rewrite Hne, Hel. cbn [mbind run_bind]. eexists. split; [done|]. split; [|done].
  split; cbn [sy_card c_rx taken log c_next rx_desc avail_ring used_ring rx_buf n_rx_last_used used_idx avail_idx].
  - rewrite !length_insert. done.
  - rewrite (si_last _ _ _ Hi), uwrap_add_l. f_equal. unfold zlen. rewrite length_app. cbn. lia.
  - apply (si_used _ _ _ Hi).
  - apply (si_next _ _ _ Hi).
  - rewrite (si_avail _ _ _ Hi), uwrap_add_l. f_equal. unfold zlen. rewrite length_app. cbn. lia.
  - rewrite length_app. cbn. lia.
  - rewrite length_app. cbn. lia.
  - cbn [app] in Hnd, Hrange. rewrite app_assoc. split.
    + apply list.NoDup_cons in Hnd as [Hn Hnd]. apply list.NoDup_app. split; [done|]. split; [|apply NoDup_singleton].
      intros x Hx ->%list_elem_of_singleton. done.
    + apply Forall_cons_iff in Hrange as [_ Hrange]. apply Forall_app. split; [done|]. by constructor.
  - intros i x Hx. destruct (si_frames _ _ _ Hi (S i) x Hx) as (g & Hg & Hgl & Hgu & Hgb). exists g.
    rewrite length_app. cbn [length]. replace (length (log s) + 1 + i)%nat with (length (log s) + S i)%nat by lia. done.
  - intros i x Hx. apply lookup_app_Some in Hx as [Hx|[Hge Hx]].
    + pose proof (lookup_lt_Some _ _ _ Hx). rewrite list_lookup_insert_ne by (apply mod_ne; lia). by apply (si_free _ _ _ Hi).
    + apply list_lookup_singleton_Some in Hx as [E0 <-].
      replace (length (taken s) + i)%nat with (length (log s) + 1 * 16)%nat by lia.
      rewrite Nat.Div0.mod_add, list_lookup_insert_eq; [done|lia].
  - rewrite length_app. cbn [length]. rewrite Nat.add_1_r. erewrite take_S_r by exact Hf.
    apply Forall2_app; [apply (si_log _ _ _ Hi)|]. constructor; [|constructor]. done.
Qed.

(** The steps with nothing to do. *)
Lemma card_full s ui f : sys_inv s ui [] -> sys_step s (S_card f) = Ret s.
Proof.
  intros Hi. pose proof (si_ui _ _ _ Hi). pose proof (si_fr _ _ _ Hi) as Hfr. cbn in Hfr.
  assert (E : c_next (sy_card s) = avail_idx (c_rx (sy_card s))).
  { rewrite (si_next _ _ _ Hi), (si_avail _ _ _ Hi). f_equal. unfold zlen. lia. }
  unfold sys_step, card_frame. rewrite bool_decide_true by done.
  destruct (avail_ring _ !! _); rewrite app_nil_r; by destruct s.
Qed.

Lemma driver_idle s fr pb : sys_inv s [] fr -> sys_step s (S_driver pb) = Ret s.
Proof.
  intros Hi. pose proof (si_ui _ _ _ Hi) as Hui. cbn in Hui.
  assert (E : n_rx_last_used (c_rx (sy_card s)) = used_idx (c_rx (sy_card s))).
  { rewrite (si_last _ _ _ Hi), (si_used _ _ _ Hi). f_equal. unfold zlen. lia. }
  unfold sys_step, rx_poll. rewrite E, Z.eqb_refl. cbn [mbind run_bind]. rewrite app_nil_r. by destruct s as [[]].
Qed.

Definition step_ok (st : step) : Prop := match st with S_card f => zlen f <= 2038 | S_driver _ => True end.

Lemma sys_run_inv l s ui fr : sys_inv s ui fr -> Forall step_ok l ->
  exists s' ui' fr', sys_run s l = Ret s' /\ sys_inv s' ui' fr'.
Proof.
  revert s ui fr. induction l as [|st l IH]; intros s ui fr Hi Hl; [by exists s, ui, fr|].
  apply Forall_cons_iff in Hl as [Hst Hl]. cbn [sys_run]. destruct st as [f|pb].
  - destruct fr as [|id fr]; [rewrite (card_full s ui f Hi); by apply (IH s ui [])|].
    destruct (card_step s ui id fr f Hi Hst) as (s' & -> & Hi' & _). by apply (IH s' (ui ++ [id]) fr).
  - destruct ui as [|id ui]; [rewrite (driver_idle s fr pb Hi); by apply (IH s [] fr)|].
    destruct (driver_step s id ui fr pb Hi) as (s' & -> & Hi' & _). by apply (IH s' ui (fr ++ [id])).
Qed.

Lemma drain s ui fr pb : sys_inv s ui fr ->
  exists s', sys_run s (replicate (length ui) (S_driver pb)) = Ret s' /\ taken s' = taken s /\ length (log s') = length (taken s).
Proof.
  revert s fr. induction ui as [|id ui IH]; intros s fr Hi.
  - exists s. split; [done|]. split; [done|]. pose proof (si_ui _ _ _ Hi). cbn in *. lia.
  - cbn [length replicate sys_run]. destruct (driver_step s id ui fr pb Hi) as (s1 & -> & Hi1 & E1). cbn [mbind run_bind].
    destruct (IH s1 _ Hi1) as (s2 & -> & E2 & E3). exists s2. by rewrite <- E1.
Qed.

(** The memory before the start. *)
Definition zero_rx : rx :=
  {| rx_desc := replicate 16 {| d_addr := 0; d_len := 0; d_flags := 0; d_next := 0 |}; avail_ring := replicate 16 0;
     avail_idx := 0; used_ring := replicate 16 (0, 0); used_idx := 0; rx_buf := replicate 16 (replicate 2048 0);
     n_rx_last_used := 0 |}.

Definition ids : list Z := Z.of_nat <$> seq 0 16.

Definition prefilled : rx :=
  {| rx_desc := rx_desc_of <$> ids; avail_ring := ids; avail_idx := 16; used_ring := replicate 16 (0, 0); used_idx := 0;
     rx_buf := replicate 16 (replicate 2048 0); n_rx_last_used := 0 |}.

Definition start : system := {| sy_card := {| c_rx := prefilled; c_next := 0 |}; taken := []; log := [] |}.

Lemma prefill_start : net_prefill_rx 16 zero_rx = Ret prefilled /\ sys_inv start [] ids.
Proof.
  split; [reflexivity|]. split; try done.
  - split; [refine (bool_decide_unpack _ _); by vm_compute|]. apply Forall_forall. intros x Hx%list_elem_of_In.
    unfold ids in Hx. apply list_elem_of_fmap in Hx as (k & -> & Hk%elem_of_seq). lia.
  - intros i id Hx. cbn [taken start length Nat.add]. pose proof (lookup_lt_Some _ _ _ Hx) as Hl. cbn in Hl.
    rewrite Nat.mod_small by lia. exact Hx.
Qed.


End Receive_side.

(** ** Sending *)

Record tx := {
  tx_desc : list vq_desc;
  tx_avail_ring : list Z;
  tx_avail_idx : Z;
  tx_used_idx : Z;
  tx_buf : bytes;
  n_tx_avail_idx : Z;
  n_tx_last_used : Z;
}.

Inductive err_t := ERR_OK | ERR_MEM.

(** [net_output]: the packet [p] has its [tot_len] bytes.  The last argument of the
    result is what the card gets: the bytes the descriptor describes.  The loops that
    wait for the card end when it has taken the packet. *)
Definition net_output (n_dma_phys tx_buf_off : Z) (p : bytes) (q : tx) : run (err_t * tx * option bytes) :=
  let pkt_len := u16 (VNET_HDR_WIRE + zlen p) in
  if zlen (tx_buf q) <? pkt_len then Ret (ERR_MEM, q, None)
  else
    buf ← or_oob (wr_bytes 0 (replicate 10 0) (tx_buf q));
    buf ← or_oob (wr_bytes VNET_HDR_WIRE p buf);
    let slot := Z.land (n_tx_avail_idx q) (VQ_SIZE - 1) in
    desc ← set_at slot {| d_addr := u64 (n_dma_phys + tx_buf_off); d_len := pkt_len; d_flags := 0; d_next := 0 |} (tx_desc q);
    ring ← set_at slot slot (tx_avail_ring q);
    let idx := n_tx_avail_idx q +[16] 1 in
    Ret (ERR_OK,
         {| tx_desc := desc; tx_avail_ring := ring; tx_avail_idx := idx; tx_used_idx := idx; tx_buf := buf;
            n_tx_avail_idx := idx; n_tx_last_used := idx |},
         Some (take (Z.to_nat pkt_len) buf)).

Record tx_ok (q : tx) : Prop := {
  to_desc : length (tx_desc q) = 16%nat;
  to_ring : length (tx_avail_ring q) = 16%nat;
  to_buf : zlen (tx_buf q) = 2048;
  to_idx : in_u 16 (n_tx_avail_idx q) /\ tx_avail_idx q = n_tx_avail_idx q /\
    tx_used_idx q = n_tx_avail_idx q /\ n_tx_last_used q = n_tx_avail_idx q;
}.

(** [net_output] on every length a packet can have: up to 2038 bytes, the card gets
    the header of zeros and exactly the packet, in the slot it looks at next, and the
    rings are ready for another; longer packets are refused; but from 65526 bytes on
    the length wraps around, the test passes, and the copy leaves the buffer. *)
Theorem net_output_spec n_dma_phys off p q : tx_ok q -> zlen p < 65536 ->
  if zlen p <=? 2038 then
    exists q', net_output n_dma_phys off p q = Ret (ERR_OK, q', Some (replicate 10 0 ++ p)) /\ tx_ok q' /\
      tx_avail_ring q' !! Z.to_nat (n_tx_avail_idx q mod 16) = Some (n_tx_avail_idx q mod 16) /\
      n_tx_avail_idx q' = n_tx_avail_idx q +[16] 1
  else if zlen p <? 65526 then net_output n_dma_phys off p q = Ret (ERR_MEM, q, None)
  else net_output n_dma_phys off p q = Oob.
Proof.
  intros [Hd Hr Hb (Hi & Ea & Eu & El)] Hp. pose proof (zlen_nonneg p) as Hp0. unfold net_output, VNET_HDR_WIRE. rewrite Hb.
  destruct (zlen p <=? 2038) eqn:C1.
  - rewrite uwrap_small by (unfold in_u; lia). replace (2048 <? 10 + zlen p) with false by lia.
    destruct (wr_bytes_Some 0 (replicate 10 0) (tx_buf q)) as (b1 & E1 & L1);
      [lia|unfold zlen in *; rewrite length_replicate; lia|]. rewrite E1. cbn [or_oob mbind run_bind].
    assert (Hb1 : zlen b1 = 2048) by (unfold zlen in *; lia).
    destruct (wr_bytes_Some 10 p b1) as (b2 & E2 & L2); [lia|lia|]. rewrite E2. cbn [or_oob mbind run_bind].
    assert (Hslot : Z.land (n_tx_avail_idx q) (VQ_SIZE - 1) = n_tx_avail_idx q mod 16).
    { unfold VQ_SIZE. change (16 - 1) with (Z.ones 4). by rewrite Z.land_ones by lia. }
    rewrite Hslot. pose proof (Z.mod_pos_bound (n_tx_avail_idx q) 16 ltac:(lia)).
    rewrite !set_at_ok by (unfold zlen; lia). cbn [mbind run_bind].
    assert (Hout : take (Z.to_nat (10 + zlen p)) b2 = replicate 10 0 ++ p).
    { apply list_eq. intros i. destruct (decide (i < Z.to_nat (10 + zlen p))%nat) as [Hlt|Hge].
      - rewrite lookup_take_lt by done. rewrite <- (Nat2Z.id i).
        rewrite (wr_bytes_lookup _ _ _ _ (Z.of_nat i) E2) by lia.
        case_decide; [rewrite lookup_app_r by (rewrite length_replicate; lia); rewrite length_replicate; f_equal; lia|].
        rewrite (wr_bytes_lookup _ _ _ _ (Z.of_nat i) E1) by lia. rewrite decide_True by (change (zlen (replicate 10 0)) with 10; lia).
        rewrite lookup_app_l by (rewrite length_replicate; lia). f_equal. lia.
      - rewrite lookup_take_ge by lia. symmetry. apply lookup_ge_None. rewrite length_app, length_replicate. unfold zlen in *. lia. }
    rewrite Hout. eexists. split; [done|]. split; [|split; [|done]].
    + split; cbn; [by rewrite length_insert|by rewrite length_insert|unfold zlen in *; lia|].
      split; [apply uwrap_range; lia|done].
    + cbn. apply list_lookup_insert_eq. lia.
  - destruct (zlen p <? 65526) eqn:C2.
    + rewrite uwrap_small by (unfold in_u; lia). by replace (2048 <? 10 + zlen p) with true by lia.
    + rewrite (uwrap_over 16) by lia. replace (2048 <? _) with false by lia.
      destruct (wr_bytes_Some 0 (replicate 10 0) (tx_buf q)) as (b1 & E1 & L1);
        [lia|unfold zlen in *; rewrite length_replicate; lia|]. rewrite E1. cbn [or_oob mbind run_bind].
      assert (Hb1 : zlen b1 = 2048) by (unfold zlen in *; lia).
      unfold wr_bytes. rewrite Hb1. by replace (_ && _) with false by lia.
Qed.

(** ** Examples *)

Module Nic_example.


Definition tx0 : tx :=
  {| tx_desc := replicate 16 {| d_addr := 0; d_len := 0; d_flags := 0; d_next := 0 |}; tx_avail_ring := replicate 16 0;
     tx_avail_idx := 0; tx_used_idx := 0; tx_buf := replicate 2048 0; n_tx_avail_idx := 0; n_tx_last_used := 0 |}.

Lemma tx0_ok : tx_ok tx0.
Proof. split; by_eval. Defined.

Lemma net_output_spec_witness : exists q', net_output 0 0x2000 [1; 2] tx0 = Ret (ERR_OK, q', Some (replicate 10 0 ++ [1; 2])) /\
  tx_ok q' /\ tx_avail_ring q' !! Z.to_nat (n_tx_avail_idx tx0 mod 16) = Some (n_tx_avail_idx tx0 mod 16) /\
  n_tx_avail_idx q' = n_tx_avail_idx tx0 +[16] 1.
Proof. refine (net_output_spec 0 0x2000 [1; 2] tx0 tx0_ok _). by_eval. Defined.

(** The number a used element names is not checked: 16 is behind the last buffer. *)
Theorem used_id_unchecked :
  let q := c_rx (sy_card (start 0 0x2000)) in
  rx_poll 0 0x2000 true {| rx_desc := rx_desc q; avail_ring := avail_ring q; avail_idx := avail_idx q;
    used_ring := replicate 16 (16, 60); used_idx := 1; rx_buf := rx_buf q; n_rx_last_used := 0 |} = Oob.
Proof. by_eval. Qed.
End Nic_example.
