(* ===== verification/Telnet.v ===== *)
(** * The telnet server

    [src/pkg/net-cluster/protocol/telnet/telnetd.cc]: one session at a time; the bytes
    of the client, in the pieces in which they are received, become lines, and a line is
    handed to the shell.  The result of a session is the list of what goes to the client
    and of the commands that are run. *)

From S2P Require Import Prelude.

Definition TELNET_IAC : Z := 0xff.

Inductive out := T_print (s : bytes) | T_exec (line : bytes).

(** The variables of the loop: [line] up to [li], [quit], and what happened. *)
Record session := { line : bytes; quit : bool; trace : list out }.

Definition prompt : bytes := str "turingos(telnet)> ".

Fixpoint skip_blanks (p : bytes) : bytes :=
  match p with
  | c :: t => if (c =? 32) || (c =? 9) then skip_blanks t else p
  | [] => []
  end.

Definition is_exit (p : bytes) : bool :=
  bool_decide (p = str "exit") || bool_decide (p = str "bye") || bool_decide (p = str "quit").

(** A newline ends the line. *)
Definition end_line (s : session) : session :=
  let p := skip_blanks (cstr (line s)) in
  if is_exit p then {| line := line s; quit := true; trace := trace s |}
  else
    {| line := []; quit := false;
       trace := trace s ++ (if bool_decide (p = []) then [] else [T_exec p]) ++ [T_print prompt] |}.

Definition LINE : Z := 512.

(** The loop over a received piece; [skip] bytes are passed over. *)
Fixpoint feed (skip : nat) (buf : bytes) (s : session) : session :=
  match buf with
  | [] => s
  | c :: buf =>
      match skip with
      | S skip => feed skip buf s
      | O =>
          if quit s then s
          else if c =? TELNET_IAC then feed 2 buf s
          else if c =? 13 then feed 0 buf s
          else if c =? 10 then feed 0 buf (end_line s)
          else if zlen (line s) <? LINE - 1
          then feed 0 buf {| line := line s ++ [c]; quit := quit s; trace := trace s |}
          else feed 0 buf s
      end
  end.

(** The loop over the pieces; an empty piece is the end of the connection. *)
Fixpoint serve (chunks : list bytes) (s : session) : session :=
  match chunks with
  | [] => s
  | buf :: chunks => if quit s || bool_decide (buf = []) then s else serve chunks (feed 0 buf s)
  end.

(** [telnetd_run] from the accepted connection to its end. *)
Definition telnetd_session (chunks : list bytes) : list out :=
  trace (serve chunks
    {| line := []; quit := false;
       trace := [T_print (str "TuringOS telnet " ++ [0xe2; 0x80; 0x94] ++ str " type 'exit' to disconnect" ++ [13; 10]);
                 T_print prompt] |})
  ++ [T_print (str "bye" ++ [13; 10])].

(** ** Reference: the commands of a byte stream *)

(** The bytes that count: without negotiations of three bytes and carriage returns. *)
Fixpoint text (skip : nat) (s : bytes) : bytes :=
  match s with
  | [] => []
  | c :: s =>
      match skip with
      | S skip => text skip s
      | O => if c =? TELNET_IAC then text 2 s else if c =? 13 then text 0 s else c :: text 0 s
      end
  end.

(** The lines that a newline ends. *)
Fixpoint lines (cur s : bytes) : list bytes :=
  match s with
  | [] => []
  | c :: s => if c =? 10 then cur :: lines [] s else lines (cur ++ [c]) s
  end.

(** The command of a line: 511 bytes up to a NUL, without leading blanks. *)
Definition command (l : bytes) : bytes := skip_blanks (cstr (take 511 l)).

(** The commands up to the first line that ends the session. *)
Fixpoint commands (ls : list bytes) : list bytes :=
  match ls with
  | [] => []
  | l :: ls =>
      let p := command l in
      if is_exit p then []
      else if bool_decide (p = []) then commands ls else p :: commands ls
  end.

(** The bytes to pass over after a piece. *)
Fixpoint open_skip (skip : nat) (s : bytes) : nat :=
  match s with
  | [] => skip
  | c :: s =>
      match skip with
      | S skip => open_skip skip s
      | O => if c =? TELNET_IAC then open_skip 2 s else open_skip 0 s
      end
  end.

(** A piece that does not end inside of a negotiation. *)
Definition whole (s : bytes) : Prop := open_skip 0 s = 0%nat.

Definition execs (t : list out) : list bytes := omap (fun o => match o with T_exec p => Some p | _ => None end) t.

(** ** The session runs the commands of the stream *)

(** The state after some input: the line is the start of the current one. *)
Definition at_line (s : session) (cur : bytes) : Prop := quit s = false /\ line s = take 511 cur.

Lemma text_app skip a b : text skip (a ++ b) = text skip a ++ text (open_skip skip a) b.
Proof.
  revert skip. induction a as [|c a IH]; intros skip; [done|]. cbn [app text open_skip]. destruct skip as [|k]; [|apply IH].
  destruct (c =? TELNET_IAC); [apply IH|]. destruct (c =? 13); [apply IH|]. cbn [app]. by rewrite IH.
Qed.

Lemma execs_app a b : execs (a ++ b) = execs a ++ execs b.
Proof. apply omap_app. Qed.

Lemma line_room (cur : bytes) : (zlen (take 511 cur) <? LINE - 1) = (length cur <? 511)%nat.
Proof.
  unfold zlen, LINE. rewrite length_take. destruct (Nat.min_spec 511 (length cur)) as [[? ->]|[? ->]].
  - rewrite (proj2 (Nat.ltb_ge _ _)) by lia. done.
  - destruct (length cur <? 511)%nat eqn:E; [apply Nat.ltb_lt in E|apply Nat.ltb_ge in E]; lia.
Qed.

(** One piece: either the session ended with the commands of the lines, or it goes on
    with the rest of the last line. *)
Lemma feed_spec skip buf s cur rest : at_line s cur ->
  let s' := feed skip buf s in
  let ls := lines cur (text skip buf ++ rest) in
  (quit s' = true /\ execs (trace s') = execs (trace s) ++ commands ls) \/
  exists cur' done_, at_line s' cur' /\ execs (trace s') = execs (trace s) ++ done_ /\
    commands ls = done_ ++ commands (lines cur' rest).
Proof.
  revert skip s cur. induction buf as [|c buf IH]; intros skip s cur Hs; cbn zeta.
  { cbn [feed text app]. right. exists cur, []. split; [done|]. by rewrite app_nil_r. }
  cbn [feed text]. destruct skip as [|k]; [|by apply IH]. pose proof Hs as [Hq Hl]. rewrite Hq.
  destruct (c =? TELNET_IAC); [by apply IH|]. destruct (c =? 13); [by apply IH|]. cbn [app lines].
  destruct (c =? 10) eqn:En.
  - unfold end_line. rewrite Hl. cbn [commands]. fold (command cur). destruct (is_exit (command cur)) eqn:Ex.
    { left. assert (Hf : forall b, feed 0 b {| line := take 511 cur; quit := true; trace := trace s |}
                           = {| line := take 511 cur; quit := true; trace := trace s |}) by (by intros [|? ?]).
      rewrite Hf. cbn. by rewrite app_nil_r. }
    set (s1 := {| line := []; quit := false; trace := _ |}).
    assert (E1 : execs (trace s1) = execs (trace s) ++ (if bool_decide (command cur = []) then [] else [command cur])).
    { cbn. rewrite !execs_app. cbn. rewrite app_nil_r. f_equal. by case_bool_decide. }
    destruct (IH 0%nat s1 [] (conj eq_refl eq_refl)) as [[Hq' E]|(cur' & d & Hc & E & Ec)].
    + left. split; [done|]. rewrite E, E1, <- app_assoc. f_equal. by case_bool_decide.
    + right. exists cur', ((if bool_decide (command cur = []) then [] else [command cur]) ++ d). split; [done|].
      rewrite E, E1, <- app_assoc. split; [done|]. rewrite Ec. by case_bool_decide.
  - destruct (zlen (line s) <? LINE - 1) eqn:Ef.
    + refine (IH 0%nat {| line := line s ++ [c]; quit := false; trace := trace s |} (cur ++ [c]) _).
      split; [done|]. cbn [line]. rewrite Hl in Ef |- *. rewrite line_room in Ef. apply Nat.ltb_lt in Ef.
      rewrite !take_ge by (rewrite ?length_app; cbn [length]; lia). done.
    + apply IH. split; [done|]. rewrite Hl in Ef |- *. rewrite line_room in Ef. apply Nat.ltb_ge in Ef.
      by rewrite take_app_le.
Qed.

Lemma serve_spec chunks s cur : at_line s cur -> Forall whole chunks -> Forall (fun b => b <> []) chunks ->
  execs (trace (serve chunks s)) = execs (trace s) ++ commands (lines cur (text 0 (mjoin chunks))).
Proof.
  revert s cur. induction chunks as [|b chunks IH]; intros s cur Hs Hw Hne; [by rewrite app_nil_r|].
  apply Forall_cons_iff in Hw as [Hb Hw]. apply Forall_cons_iff in Hne as [Hn Hne].
  cbn [serve mjoin list_join]. pose proof Hs as [Hq _]. rewrite Hq, bool_decide_false by done. cbn [orb].
  rewrite text_app, Hb.
  destruct (feed_spec 0 b s cur (text 0 (mjoin chunks)) Hs) as [[Hq' E]|(cur' & d & Hc & E & Ec)].
  - assert (Hend : serve chunks (feed 0 b s) = feed 0 b s) by (destruct chunks; [done|]; cbn; by rewrite Hq').
    rewrite Hend. exact E.
  - rewrite (IH _ cur' Hc Hw Hne), E, <- app_assoc. f_equal. symmetry. exact Ec.
Qed.

(** C36. The commands that a session runs are those of the byte stream, whatever the pieces
    in which it is received, as long as no piece ends inside of a negotiation: the lines
    up to the first "exit", "bye" or "quit", without carriage returns, negotiations and
    leading blanks, cut after 511 bytes. *)
Theorem telnet_commands chunks : Forall whole chunks -> Forall (fun b => b <> []) chunks ->
  execs (telnetd_session chunks) = commands (lines [] (text 0 (mjoin chunks))).
Proof.
  intros Hw Hne. unfold telnetd_session. rewrite execs_app. cbn [execs omap list_omap]. rewrite app_nil_r.
  rewrite (serve_spec _ _ []) by done. done.
Qed.

(** ** Examples *)

Module Telnet_example.

Lemma telnet_commands_witness :
  execs (telnetd_session [str "l"; str "s" ++ [13; 10; 0xff; 0xfd; 1]; str " ps" ++ [10] ++ str "exit" ++ [10]; str "rm" ++ [10]])
  = commands (lines [] (text 0 (mjoin [str "l"; str "s" ++ [13; 10; 0xff; 0xfd; 1]; str " ps" ++ [10] ++ str "exit" ++ [10]; str "rm" ++ [10]]))).
Proof.
  refine (telnet_commands [str "l"; str "s" ++ [13; 10; 0xff; 0xfd; 1]; str " ps" ++ [10] ++ str "exit" ++ [10]; str "rm" ++ [10]] _ _).
  - repeat constructor; by_eval.
  - repeat constructor; by_eval.
Defined.

Example two_commands :
  execs (telnetd_session [str "l"; str "s" ++ [13; 10; 0xff; 0xfd; 1]; str " ps" ++ [10] ++ str "exit" ++ [10]; str "rm" ++ [10]])
  = [str "ls"; str "ps"].
Proof. by_eval. Qed.

(** A negotiation that is received in two pieces becomes part of the command. *)
Theorem cut_negotiation :
  execs (telnetd_session [[0xff]; [0xfd; 1] ++ str "ls" ++ [10]]) = [[0xfd; 1] ++ str "ls"] /\
  execs (telnetd_session [[0xff; 0xfd; 1] ++ str "ls" ++ [10]]) = [str "ls"].
Proof. by_eval. Qed.

(** A telnet command of two bytes (here "are you there") takes the next byte with it. *)
Theorem short_command_eats : execs (telnetd_session [[0xff; 0xf6] ++ str "ls" ++ [10]]) = [str "s"].
Proof. by_eval. Qed.
End Telnet_example.
