(* ===== verification/RangeRing.v ===== *)
(** * Rings of memory ranges

    [src/pkg/tinit/server/src/page_alloc_sigma0.cc] and [stubs.cc]: the start-up task
    keeps free memory as nodes of doubly linked rings.  The nodes come from a heap that is
    never given back ([malloc] of the task), so a ring of unused nodes is kept as well.
    The nodes live in one memory, and a use of a pointer that leads nowhere is an outcome;
    the lemmas say when there is none and which sequence of nodes a ring then has. *)

From S2P Require Import Prelude.

(** ** Nodes *)

(** [Ram_tracker::Range]; both ends are inclusive. *)
Record Range := { prev : Z; next : Z; start : Z; end_ : Z; shared : bool }.

Definition set_prev (p : Z) (n : Range) : Range :=
  {| prev := p; next := next n; start := start n; end_ := end_ n; shared := shared n |}.
Definition set_next (p : Z) (n : Range) : Range :=
  {| prev := prev n; next := p; start := start n; end_ := end_ n; shared := shared n |}.
Definition set_range (a b : Z) (sh : bool) (n : Range) : Range :=
  {| prev := prev n; next := next n; start := a; end_ := b; shared := sh |}.

(** The nodes by their address, and [heap_pos] of [stubs.cc]. *)
Record heap := { mem : gmap Z Range; heap_pos : Z }.

Definition set_mem (m : gmap Z Range) (s : heap) : heap := {| mem := m; heap_pos := heap_pos s |}.

Definition rd (l : Z) : prog heap Range := fun s => (s, or_oob (mem s !! l)).

Definition upd (l : Z) (f : Range -> Range) : prog heap unit := fun s =>
  match mem s !! l with
  | Some _ => (set_mem (alter f l (mem s)) s, Ret tt)
  | None => (s, Oob)
  end.

Definition construct (l : Z) (n : Range) : prog heap unit := fun s => (set_mem (<[l := n]> (mem s)) s, Ret tt).

(** [Range::insert_after] *)
Definition insert_after (l e : Z) : prog heap unit :=
  n ← rd l;
  upd e (set_next (next n)) ≫= fun _ =>
  upd e (set_prev l) ≫= fun _ =>
  m ← rd e;
  upd (next m) (set_prev e) ≫= fun _ =>
  upd l (set_next e).

(** [Range::insert_before] *)
Definition insert_before (l e : Z) : prog heap unit :=
  n ← rd l;
  upd e (set_prev (prev n)) ≫= fun _ =>
  upd e (set_next l) ≫= fun _ =>
  m ← rd e;
  upd (prev m) (set_next e) ≫= fun _ =>
  upd l (set_prev e).

(** [Range::erase] *)
Definition erase (e : Z) : prog heap Z :=
  n ← rd e;
  upd (prev n) (set_next (next n)) ≫= fun _ =>
  m ← rd e;
  upd (next m) (set_prev (prev m)) ≫= fun _ =>
  mret (next n).

(** [Range::empty] *)
Definition empty_ring (l : Z) : prog heap bool :=
  n ← rd l; mret ((next n =? l) && (prev n =? l)).

(** ** The heap of the task *)

Section Heap.
Context (heap_end : Z).

(** [malloc]: the end of the heap is a panic. *)
Definition malloc (size : Z) : prog heap Z := fun s =>
  let size := Z.land (size +[64] 7) (u64 (Z.lnot 7)) in
  let ret := heap_pos s in
  let pos := ret +[64] size in
  ({| mem := mem s; heap_pos := pos |}, if heap_end <? pos then Panicked else Ret ret).

Definition sizeof_Range : Z := 40.

(** [new Range(start, end)]; the constructor leaves the pointers as the memory has
    them, [junk]. *)
Definition new_range (junk a b : Z) : prog heap Z :=
  e ← malloc sizeof_Range;
  construct e {| prev := junk; next := junk; start := a; end_ := b; shared := false |} ≫= fun _ =>
  mret e.
End Heap.

(** ** What a ring is *)

Definition nxt (h : gmap Z Range) (x : Z) : option Z := next <$> h !! x.
Definition prv (h : gmap Z Range) (x : Z) : option Z := prev <$> h !! x.
Definition data (h : gmap Z Range) (x : Z) : option (Z * Z * bool) :=
  (fun n => (start n, end_ n, shared n)) <$> h !! x.

(** Neighbours in [L] point to each other. *)
Fixpoint links (h : gmap Z Range) (L : list Z) : Prop :=
  match L with
  | a :: (b :: _) as t => nxt h a = Some b /\ prv h b = Some a /\ links h t
  | _ => True
  end.

Definition ring (h : gmap Z Range) (C : list Z) : Prop :=
  match C with [] => False | a :: _ => links h (C ++ [a]) end.

Lemma links_cons h a b t : links h (a :: b :: t) <-> nxt h a = Some b /\ prv h b = Some a /\ links h (b :: t).
Proof. done. Qed.

Lemma links_app h p a q : links h (p ++ a :: q) <-> links h (p ++ [a]) /\ links h (a :: q).
Proof.
  induction p as [|x p IH]; [cbn; tauto|]. destruct p as [|y p].
  - cbn [app links]. destruct q; cbn; tauto.
  - cbn [app] in *. rewrite !links_cons, IH. tauto.
Qed.

(** Only these pointers matter. *)
Lemma links_frame h h' L : (forall x, x ∈ removelast L -> nxt h' x = nxt h x) ->
  (forall x, x ∈ tail L -> prv h' x = prv h x) -> links h L -> links h' L.
Proof.
  induction L as [|a [|b L] IH]; try done. intros Hn Hp (? & ? & Hl). cbn [links].
  rewrite Hn by (cbn; set_solver). rewrite Hp by (cbn; set_solver). split; [done|split; [done|]].
  apply IH; [..|done].
  - intros x Hx. apply Hn. change (removelast (a :: b :: L)) with (a :: removelast (b :: L)). set_solver.
  - intros x Hx. apply Hp. cbn in *. set_solver.
Qed.

(** A ring can be read from every node of it. *)
Lemma ring_swap h A B : ring h (A ++ B) <-> ring h (B ++ A).
Proof.
  assert (H : forall A B, ring h (A ++ B) -> ring h (B ++ A)); [|split; apply H].
  clear A B. intros [|a A] [|b B]; rewrite ?app_nil_r; try done. unfold ring. cbn [app].
  rewrite <- !app_assoc. change (a :: A ++ (b :: B) ++ [a]) with ((a :: A) ++ b :: B ++ [a]).
  change (b :: B ++ (a :: A) ++ [b]) with ((b :: B) ++ a :: A ++ [b]).
  rewrite (links_app h (a :: A)), (links_app h (b :: B)). cbn [app]. tauto.
Qed.

Lemma ring_rot h a C : ring h (a :: C) <-> ring h (C ++ [a]).
Proof. apply (ring_swap h [a] C). Qed.

Lemma ring_frame h h' C : (forall x, x ∈ C -> h' !! x = h !! x) -> ring h C -> ring h' C.
Proof.
  destruct C as [|a C]; [done|]. intros Hf. apply links_frame; intros x Hx.
  - unfold nxt. rewrite Hf; [done|]. cbn [app] in Hx. change (a :: C ++ [a]) with ((a :: C) ++ [a]) in Hx.
    by rewrite removelast_last in Hx.
  - unfold prv. rewrite Hf; [done|]. cbn in Hx. set_solver.
Qed.

Lemma ring_next h a C : ring h (a :: C) -> nxt h a = Some (default a (head C)).
Proof. destruct C; cbn; by intros []. Qed.

Lemma ring_mem h C x : ring h C -> x ∈ C -> is_Some (h !! x).
Proof.
  intros Hr (A & B & ->)%list_elem_of_split. apply ring_swap in Hr. cbn [app] in Hr.
  apply ring_next in Hr. unfold nxt in Hr. by destruct (h !! x); [eexists|].
Qed.

Lemma ring_prev h a C : ring h (a :: C) -> prv h a = Some (default a (head (reverse C))).
Proof.
  destruct C as [|c C _] using rev_ind; [cbn; by intros (_ & ? & _)|]. rewrite reverse_snoc. cbn [head default].
  unfold ring. cbn [app]. rewrite <- app_assoc. cbn [app].
  change (a :: C ++ [c; a]) with ((a :: C) ++ c :: [a]). intros [_ (_ & ? & _)]%links_app. done.
Qed.

(** ** What the assignments change *)

Lemma lookup_upd (h : gmap Z Range) l f x : alter f l h !! x = if decide (x = l) then f <$> h !! x else h !! x.
Proof. case_decide as E; [subst; apply lookup_alter_eq|by apply lookup_alter_ne]. Qed.

Lemma nxt_set_prev h l v x : nxt (alter (set_prev v) l h) x = nxt h x.
Proof. unfold nxt. rewrite lookup_upd. case_decide; [|done]. by destruct (h !! x). Qed.

Lemma prv_set_next h l v x : prv (alter (set_next v) l h) x = prv h x.
Proof. unfold prv. rewrite lookup_upd. case_decide; [|done]. by destruct (h !! x). Qed.

Lemma nxt_set_next h l v x : is_Some (h !! l) -> nxt (alter (set_next v) l h) x = if decide (x = l) then Some v else nxt h x.
Proof. intros [n Hn]. unfold nxt. rewrite lookup_upd. case_decide; subst; [by rewrite Hn|done]. Qed.

Lemma prv_set_prev h l v x : is_Some (h !! l) -> prv (alter (set_prev v) l h) x = if decide (x = l) then Some v else prv h x.
Proof. intros [n Hn]. unfold prv. rewrite lookup_upd. case_decide; subst; [by rewrite Hn|done]. Qed.

Lemma data_set_next h l v x : data (alter (set_next v) l h) x = data h x.
Proof. unfold data. rewrite lookup_upd. case_decide; [|done]. by destruct (h !! x). Qed.

Lemma data_set_prev h l v x : data (alter (set_prev v) l h) x = data h x.
Proof. unfold data. rewrite lookup_upd. case_decide; [|done]. by destruct (h !! x). Qed.

Lemma is_Some_upd (h : gmap Z Range) l f x : is_Some (alter f l h !! x) <-> is_Some (h !! x).
Proof. rewrite lookup_upd. case_decide; [apply fmap_is_Some|done]. Qed.

Lemma rd_next h l n : h !! l = Some n -> nxt h l = Some (next n).
Proof. unfold nxt. by intros ->. Qed.

Lemma rd_prev h l n : h !! l = Some n -> prv h l = Some (prev n).
Proof. unfold prv. by intros ->. Qed.

Lemma upd_run l f (s : heap) : is_Some (mem s !! l) -> upd l f s = (set_mem (alter f l (mem s)) s, Ret tt).
Proof. intros [n Hn]. unfold upd. by rewrite Hn. Qed.

(** What an operation on the ring [C] leaves alone: the ranges of the nodes, the nodes
    that exist, and the nodes of other rings. *)
Record only_ring (C : list Z) (s s' : heap) : Prop := {
  or_pos : heap_pos s' = heap_pos s;
  or_data x : data (mem s') x = data (mem s) x;
  or_dom x : is_Some (mem s' !! x) <-> is_Some (mem s !! x);
  or_rest x : x ∉ C -> mem s' !! x = mem s !! x;
}.

#[export] Hint Rewrite nxt_set_prev prv_set_next data_set_next data_set_prev is_Some_upd : cring.

Ltac ring_simpl :=
  repeat first [ progress autorewrite with cring
               | rewrite nxt_set_next by (rewrite ?is_Some_upd; eauto)
               | rewrite prv_set_prev by (rewrite ?is_Some_upd; eauto) ].

Ltac ring_cases := ring_simpl; repeat case_decide; split_and?; first [exact I|congruence].

Ltac only_ring_done :=
  split; cbn [mem heap_pos set_mem];
    [done|intros x; by ring_simpl|intros x; by ring_simpl
    |intros x Hx; rewrite !lookup_upd, !decide_False; set_solver].

(** Run the next assignment or access. *)
Ltac ring_step :=
  match goal with
  | |- context [(rd ?l ≫= _) ?s] =>
      let n := fresh "n" in let H := fresh "H" n in
      assert (exists n, mem s !! l = Some n) as [n H];
        [change (is_Some (mem s !! l)); cbn [mem set_mem]; rewrite ?is_Some_upd; eauto
        |rewrite (prog_bind_ret (rd l) _ s s n) by (unfold rd; by rewrite H)]
  | |- context [(upd ?l ?f ≫= _) ?s] =>
      erewrite (prog_bind_ret (upd l f)) by (apply upd_run; cbn [mem set_mem]; rewrite ?is_Some_upd; eauto);
      cbn [mem set_mem]
  end.

(** A new neighbour [e] behind [a], in terms of the pointers. *)
Lemma ring_insert h h' a e C b : ring h (a :: C) -> NoDup (e :: a :: C) -> b = default a (head C) ->
  (forall x, nxt h' x = if decide (x = a) then Some e else if decide (x = e) then Some b else nxt h x) ->
  (forall x, prv h' x = if decide (x = b) then Some e else if decide (x = e) then Some a else prv h x) ->
  ring h' (a :: e :: C).
Proof.
  intros Hr [He Hnd]%list.NoDup_cons Eb Hn Hp. destruct C as [|c C]; cbn in Eb; subst b.
  - assert (a <> e) by set_solver. cbn [ring links app]. rewrite !Hn, !Hp. ring_cases.
  - change (links h (a :: c :: C ++ [a])) in Hr. destruct Hr as (_ & _ & Hr).
    apply list.NoDup_cons in Hnd as [Ha [Hc _]%list.NoDup_cons].
    assert (a <> e) by set_solver. assert (c <> e) by set_solver.
    unfold ring. cbn [app]. rewrite !links_cons, !Hn, !Hp. do 4 (split; [ring_cases|]).
    revert Hr. change (c :: C ++ [a]) with ((c :: C) ++ [a]).
    apply links_frame; intros x Hx; rewrite ?removelast_last in Hx; cbn in Hx; rewrite ?Hn, ?Hp, !decide_False; set_solver.
Qed.

(** The neighbours of [e] joined. *)
Lemma ring_remove h h' e C b a : ring h (e :: b :: C) -> NoDup (e :: b :: C) -> head (reverse (b :: C)) = Some a ->
  (forall x, nxt h' x = if decide (x = a) then Some b else nxt h x) ->
  (forall x, prv h' x = if decide (x = b) then Some a else prv h x) -> ring h' (b :: C).
Proof.
  intros Hr [He Hnd]%list.NoDup_cons Ea Hn Hp.
  destruct C as [|c C _] using rev_ind.
  - cbn in Ea. simplify_eq. cbn [ring links app]. rewrite Hn, Hp. ring_cases.
  - change (b :: C ++ [c]) with ((b :: C) ++ [c]) in Ea. rewrite reverse_snoc in Ea. cbn in Ea. simplify_eq.
    unfold ring in *. cbn [app] in *. rewrite <- app_assoc in *. cbn [app] in *.
    change (e :: b :: C ++ [a; e]) with ((e :: b :: C) ++ a :: [e]) in Hr. apply links_app in Hr as [Hr _].
    cbn [app] in Hr. rewrite links_cons in Hr. destruct Hr as (_ & _ & Hr).
    change (b :: C ++ [a; b]) with ((b :: C) ++ a :: [b]). apply links_app. split.
    + apply list.NoDup_cons in Hnd as [Hb Hnd]. apply list.NoDup_app in Hnd as (_ & Hnd & _).
      revert Hr. change (b :: C ++ [a]) with ((b :: C) ++ [a]).
      apply links_frame; intros x Hx; rewrite ?removelast_last in Hx; cbn in Hx; rewrite ?Hn, ?Hp, !decide_False; set_solver.
    + cbn [links]. rewrite Hn, Hp. ring_cases.
Qed.

Lemma insert_after_run l e C s : ring (mem s) (l :: C) -> NoDup (e :: l :: C) -> is_Some (mem s !! e) ->
  exists s', insert_after l e s = (s', Ret tt) /\ ring (mem s') (l :: e :: C) /\ only_ring (e :: l :: C) s s'.
Proof.
  intros Hr Hnd He. pose proof (ring_next _ _ _ Hr) as Hn. pose proof (ring_mem _ _ l Hr ltac:(set_solver)) as Hl.
  remember (default l (head C)) as b eqn:Eb.
  assert (Hbm : b ∈ l :: C) by (rewrite Eb; destruct C; set_solver).
  pose proof (ring_mem _ _ b Hr Hbm) as Hb. apply list.NoDup_cons in Hnd as [Hel Hnd].
  unfold insert_after. ring_step. rewrite (rd_next _ _ _ Hn0) in Hn. injection Hn as Hn. rewrite Hn.
  do 2 ring_step. ring_step.
  assert (next n0 = b) as ->.
  { cbn [mem set_mem] in Hn1. apply rd_next in Hn1. revert Hn1. ring_simpl. rewrite decide_True by done. congruence. }
  ring_step. rewrite upd_run by (cbn [mem set_mem]; by rewrite !is_Some_upd).
  assert (Hb' : b <> e) by set_solver. assert (Hl' : l <> e) by set_solver.
  eexists. split; [done|]. cbn [mem set_mem]. split; [|only_ring_done].
  eapply ring_insert; [done|by apply list.NoDup_cons|done|..]; intros x; ring_cases.
Qed.

Lemma insert_before_run l e C s : ring (mem s) (l :: C) -> NoDup (e :: l :: C) -> is_Some (mem s !! e) ->
  exists s', insert_before l e s = (s', Ret tt) /\ ring (mem s') (l :: C ++ [e]) /\ only_ring (e :: l :: C) s s'.
Proof.
  intros Hr Hnd He. pose proof (ring_prev _ _ _ Hr) as Hn. pose proof (ring_mem _ _ l Hr ltac:(set_solver)) as Hl.
  assert (exists a D, default l (head (reverse C)) = a /\ a ∈ l :: C /\ ring (mem s) (a :: D) /\
            NoDup (e :: a :: D) /\ default a (head D) = l /\
            (forall h, ring h (a :: e :: D) -> ring h (l :: C ++ [e]))) as (a & D & Ea & Ham & Hra & Hnd' & Hd & Hback).
  { destruct C as [|c C _] using rev_ind; [by exists l, []; set_solver|].
    exists c, (l :: C). rewrite reverse_snoc. split; [done|]. split; [set_solver|]. split; [by apply ring_rot|].
    split; [by assert (e :: c :: l :: C ≡ₚ e :: l :: C ++ [c]) as -> by solve_Permutation|].
    split; [done|]. intros h Hh. apply (ring_swap h [c; e]) in Hh. cbn in Hh. rewrite <- app_assoc. done. }
  pose proof (ring_mem _ _ a Hr Ham) as Ha. apply list.NoDup_cons in Hnd as [Hel _].
  unfold insert_before. ring_step. rewrite (rd_prev _ _ _ Hn0), Ea in Hn. injection Hn as Hn. rewrite Hn.
  do 2 ring_step. ring_step.
  assert (prev n0 = a) as ->.
  { cbn [mem set_mem] in Hn1. apply rd_prev in Hn1. revert Hn1. ring_simpl. rewrite decide_True by done. congruence. }
  ring_step. rewrite upd_run by (cbn [mem set_mem]; by rewrite !is_Some_upd).
  assert (Ha' : a <> e) by set_solver. assert (Hl' : l <> e) by set_solver.
  eexists. split; [done|]. cbn [mem set_mem]. split; [|only_ring_done].
  apply Hback. eapply ring_insert; [exact Hra|done|symmetry; exact Hd|..]; intros x; ring_cases.
Qed.

Lemma erase_run e b C s : ring (mem s) (e :: b :: C) -> NoDup (e :: b :: C) ->
  exists s', erase e s = (s', Ret b) /\ ring (mem s') (b :: C) /\ only_ring (e :: b :: C) s s'.
Proof.
  intros Hr Hnd. pose proof (ring_next _ _ _ Hr) as Hn. pose proof (ring_prev _ _ _ Hr) as Hp.
  pose proof (ring_mem _ _ e Hr ltac:(set_solver)) as He. pose proof (ring_mem _ _ b Hr ltac:(set_solver)) as Hb.
  assert (exists a, head (reverse (b :: C)) = Some a /\ a ∈ b :: C) as (a & Ea & Ham).
  { destruct C as [|c C _] using rev_ind; [exists b; set_solver|]. exists c.
    change (b :: C ++ [c]) with ((b :: C) ++ [c]). rewrite reverse_snoc. set_solver. }
  rewrite Ea in Hp. cbn [head default] in *.
  pose proof (ring_mem _ _ a Hr ltac:(set_solver)) as Ha. assert (Hae : a <> e /\ b <> e).
  { apply list.NoDup_cons in Hnd as [? _]. set_solver. } destruct Hae as [Hae Hbe].
  unfold erase. ring_step. rewrite (rd_next _ _ _ Hn0) in Hn. rewrite (rd_prev _ _ _ Hn0) in Hp.
  injection Hn as Hn. injection Hp as Hp. rewrite Hn, Hp. ring_step. ring_step.
  cbn [mem set_mem] in Hn1. rewrite lookup_upd, decide_False in Hn1 by done. rewrite Hn0 in Hn1. injection Hn1 as <-.
  rewrite Hn, Hp. ring_step. eexists. split; [done|]. cbn [mem set_mem].
  split; [|only_ring_done].
  eapply ring_remove; [exact Hr|done|exact Ea|..]; intros x; ring_cases.
Qed.

Lemma empty_ring_run l C s : ring (mem s) (l :: C) -> NoDup (l :: C) ->
  empty_ring l s = (s, Ret (bool_decide (C = []))).
Proof.
  intros Hr Hnd. pose proof (ring_next _ _ _ Hr) as Hn. pose proof (ring_prev _ _ _ Hr) as Hp.
  pose proof (ring_mem _ _ l Hr ltac:(set_solver)) as Hl. unfold empty_ring. ring_step.
  rewrite (rd_next _ _ _ Hn0) in Hn. rewrite (rd_prev _ _ _ Hn0) in Hp. injection Hn as ->. injection Hp as ->.
  cbn. do 2 f_equal. destruct C as [|c C]; [cbn; by rewrite Z.eqb_refl|]. cbn.
  apply list.NoDup_cons in Hnd as [Hnd _]. rewrite (proj2 (Z.eqb_neq c l)) by set_solver. done.
Qed.

(** ** The operations in the middle of a ring *)

Lemma only_ring_perm C C' s s' : C ≡ₚ C' -> only_ring C s s' -> only_ring C' s s'.
Proof. intros Hc [? ? ? Hr]. split; try done. intros x Hx. apply Hr. by rewrite Hc. Qed.

Lemma insert_after_in l p q p0 y e s : l :: p = p0 ++ [y] -> ring (mem s) (l :: p ++ q) -> NoDup (e :: l :: p ++ q) ->
  is_Some (mem s !! e) ->
  exists s', insert_after y e s = (s', Ret tt) /\ ring (mem s') (l :: p ++ e :: q) /\ only_ring (e :: l :: p ++ q) s s'.
Proof.
  intros Ey Hr Hnd He. assert (Ep : forall r, l :: p ++ r = p0 ++ y :: r).
  { intros r. change (l :: p ++ r) with ((l :: p) ++ r). by rewrite Ey, <- app_assoc. }
  setoid_rewrite Ep. rewrite Ep in Hr, Hnd. apply ring_swap in Hr.
  assert (Hperm : e :: p0 ++ y :: q ≡ₚ e :: y :: q ++ p0) by solve_Permutation.
  destruct (insert_after_run y e (q ++ p0) s) as (s' & Hs & Hr' & Ho); [done|by rewrite <- Hperm|done|].
  exists s'. split; [done|]. split; [|by eapply only_ring_perm; [symmetry; exact Hperm|]].
  by apply (ring_swap _ (y :: e :: q) p0) in Hr'.
Qed.

Lemma insert_before_in l p q e s : ring (mem s) (l :: p ++ q) -> NoDup (e :: l :: p ++ q) -> is_Some (mem s !! e) ->
  exists s', insert_before (default l (head q)) e s = (s', Ret tt) /\ ring (mem s') (l :: p ++ e :: q) /\
             only_ring (e :: l :: p ++ q) s s'.
Proof.
  intros Hr Hnd He. destruct q as [|y q]; cbn [head default].
  - rewrite app_nil_r in *. destruct (insert_before_run l e p s Hr Hnd He) as (s' & ? & ? & ?). eauto.
  - change (l :: p ++ y :: q) with ((l :: p) ++ y :: q) in *. apply ring_swap in Hr.
    assert (Hperm : e :: (l :: p) ++ y :: q ≡ₚ e :: y :: q ++ l :: p) by solve_Permutation.
    destruct (insert_before_run y e (q ++ l :: p) s) as (s' & Hs & Hr' & Ho); [done|by rewrite <- Hperm|done|].
    exists s'. split; [done|]. split; [|by eapply only_ring_perm; [symmetry; exact Hperm|]].
    rewrite <- app_assoc in Hr'. apply (ring_swap _ (y :: q)) in Hr'. cbn [app] in Hr'. by rewrite <- app_assoc in Hr'.
Qed.

Lemma erase_in l p y q s : ring (mem s) (l :: p ++ y :: q) -> NoDup (l :: p ++ y :: q) ->
  exists s', erase y s = (s', Ret (default l (head q))) /\ ring (mem s') (l :: p ++ q) /\
             only_ring (l :: p ++ y :: q) s s'.
Proof.
  intros Hr Hnd. change (l :: p ++ y :: q) with ((l :: p) ++ y :: q) in *. apply ring_swap in Hr.
  assert (Hperm : (l :: p) ++ y :: q ≡ₚ y :: q ++ l :: p) by solve_Permutation. 
  assert (exists b C, q ++ l :: p = b :: C /\ b = default l (head q)) as (b & C & E & Eb).
  { destruct q as [|b q]; [by exists l, p|by exists b, (q ++ l :: p)]. }
  cbn [app] in Hr. rewrite E in *. destruct (erase_run y b C s Hr) as (s' & Hs & Hr' & Ho); [by rewrite <- Hperm|].
    exists s'. rewrite <- Eb. split; [done|]. split; [|by eapply only_ring_perm; [symmetry; exact Hperm|]].
  rewrite <- E in Hr'. by apply ring_swap in Hr'.
Qed.
