(* ===== verification/RamTracker.v ===== *)
(** * Free memory of the start-up task

    [src/pkg/tinit/server/src/page_alloc_sigma0.cc]: [Ram_tracker] keeps the free memory
    of the system as a ring of ranges in ascending order, and the functions of
    [Page_alloc] fill it from the memory descriptors of the kernel, hand out memory from
    pools, reserve given addresses for one user or for several, and decide which addresses
    are device memory.

    The operations are written on the nodes of [RangeRing].  The ring implements a list of
    ranges ([tracker_refines]), and the operations of that list have the effect on the free
    addresses they are meant to have. *)

From S2P Require Import Prelude L4Round RangeRing.

(** The ends of a range and whether it is shared. *)
Abbreviation range := (Z * Z * bool)%type.

(** ** The operations on the ring *)

Section Tracker.
Context (heap_end junk : Z) (list_ slab : Z).

Definition set_start (a : Z) (n : Range) : Range := set_range a (end_ n) (shared n) n.
Definition set_end (b : Z) (n : Range) : Range := set_range (start n) b (shared n) n.

(** As many rounds as there are nodes, and one more. *)
Definition with_fuel {A} (f : nat -> prog heap A) : prog heap A := fun s => f (S (size (mem s))) s.

(** [alloc_range]: a node that is unused, or a new one. *)
Definition alloc_range (a b : Z) : prog heap Z :=
  none ← empty_ring slab;
  if none : bool then new_range heap_end junk a b
  else
    sl ← rd slab;
    let n := next sl in
    erase n ≫= fun _ =>
    upd n (set_range a b false) ≫= fun _ =>
    mret n.

Definition free_range (r : Z) : prog heap unit := insert_after slab r.

Fixpoint add_loop (fuel : nat) (a b i spot : Z) : prog heap Z :=
  match fuel with
  | O => lift Fuel_out
  | S fuel =>
      if i =? list_ then mret spot
      else
        n ← rd i;
        if end_ n <? a then add_loop fuel a b (next n) i
        else if start n <=? b then lift Panicked
        else add_loop fuel a b (next n) spot
  end.

(** [Ram_tracker::add] *)
Definition add (a b : Z) : prog heap unit :=
  l ← rd list_;
  spot ← with_fuel (fun fuel => add_loop fuel a b (next l) list_);
  n ← alloc_range a b;
  insert_after spot n.

Fixpoint sub_loop (fuel : nat) (a b i : Z) : prog heap unit :=
  match fuel with
  | O => lift Fuel_out
  | S fuel =>
      if i =? list_ then mret tt
      else
        n ← rd i;
        if negb (start n <=? b) then mret tt
        else if end_ n <? a then sub_loop fuel a b (next n)
        else if (a <=? start n) && (end_ n <=? b) then
          i' ← erase i;
          free_range i ≫= fun _ => sub_loop fuel a b i'
        else if (start n <? a) && (b <? end_ n) then
          e ← alloc_range (b +[64] 1) (end_ n);
          insert_after i e ≫= fun _ =>
          upd i (set_end (a -[64] 1))
        else if a <=? start n then upd i (set_start (b +[64] 1))
        else upd i (set_end (a -[64] 1))
  end.

(** [Ram_tracker::sub] *)
Definition sub (a b : Z) : prog heap unit :=
  l ← rd list_;
  with_fuel (fun fuel => sub_loop fuel a b (next l)).

Fixpoint find_loop (fuel : nat) (a b i : Z) : prog heap Z :=
  match fuel with
  | O => lift Fuel_out
  | S fuel =>
      if i =? list_ then mret i
      else
        n ← rd i;
        if (start n <=? a) && (b <=? end_ n) then mret i
        else find_loop fuel a b (next n)
  end.

(** The nodes for what is left of node [i] in front of and behind the shared range. *)
Definition split_range (a b i : Z) : prog heap unit :=
  n ← rd i;
  if negb (start n =? a) && negb (end_ n =? b) then
    e ← alloc_range (start n) (a -[64] 1);
    insert_before i e ≫= fun _ =>
    n ← rd i;
    e ← alloc_range (b +[64] 1) (end_ n);
    insert_after i e
  else if (start n =? a) && negb (end_ n =? b) then
    e ← alloc_range (b +[64] 1) (end_ n);
    insert_after i e
  else if negb (start n =? a) && (end_ n =? b) then
    e ← alloc_range (start n) (a -[64] 1);
    insert_before i e
  else mret tt.

(** [Ram_tracker::reserve] *)
Definition reserve (a b : Z) (exclusive : bool) : prog heap bool :=
  l ← rd list_;
  i ← with_fuel (fun fuel => find_loop fuel a b (next l));
  if i =? list_ then mret false
  else
    n ← rd i;
    if exclusive && shared n then mret false
    else if exclusive then sub a b ≫= fun _ => mret true
    else if negb (shared n) then
      split_range a b i ≫= fun _ =>
      upd i (set_range a b true) ≫= fun _ => mret true
    else mret true.

(** [Ram_tracker::Pool]; the end is inclusive. *)
Record Pool := { p_start : Z; p_end : Z; p_nodes : Z }.

Definition whole_ram : Pool := {| p_start := 0; p_end := 2 ^ 64 - 1; p_nodes := 2 ^ 64 - 1 |}.

(** Where [alloc] tries to place a block in the part of a range that belongs to a pool. *)
Definition place (p : Pool) (size align node : Z) (lo hi : Z) : option Z :=
  if Z.land (p_nodes p) (u64 (Z.shiftl 1 node)) =? 0 then None
  else
    let i_start := if lo <? p_start p then p_start p else lo in
    let i_end := if p_end p <? hi then p_end p else hi in
    if i_end <=? i_start then None
    else
      let st := Z.land (i_start +[64] align -[64] 1) (u64 (Z.lnot (align -[64] 1))) in
      if i_end <? st +[64] size -[64] 1 then None else Some st.

Fixpoint try_pools (ps : list Pool) (size align node : Z) (i : Z) : prog heap (option Z) :=
  match ps with
  | [] => mret None
  | p :: ps =>
      n ← rd i;
      match place p size align node (start n) (end_ n) with
      | None => try_pools ps size align node i
      | Some st =>
          ok ← reserve st (st +[64] size -[64] 1) true;
          if ok : bool then mret (Some st) else try_pools ps size align node i
      end
  end.

Fixpoint alloc_loop (fuel : nat) (ps : list Pool) (size align node : Z) (i : Z) : prog heap Z :=
  match fuel with
  | O => lift Fuel_out
  | S fuel =>
      if i =? list_ then mret 0
      else
        n ← rd i;
        if shared n then alloc_loop fuel ps size align node (next n)
        else
          r ← try_pools ps size align node i;
          match r with
          | Some st => mret st
          | None => n ← rd i; alloc_loop fuel ps size align node (next n)
          end
  end.

(** [Ram_tracker::alloc] *)
Definition alloc (ps : list Pool) (size align node : Z) : prog heap Z :=
  l ← rd list_;
  with_fuel (fun fuel =>
    alloc_loop fuel (match ps with [] => [whole_ram] | _ => ps end) size align node (next l)).

Fixpoint avail_loop (fuel : nat) (i ret : Z) : prog heap Z :=
  match fuel with
  | O => lift Fuel_out
  | S fuel =>
      if i =? list_ then mret ret
      else n ← rd i; avail_loop fuel (next n) (ret +[64] (end_ n -[64] start n +[64] 1))
  end.

(** [Ram_tracker::avail] *)
Definition avail : prog heap Z :=
  l ← rd list_;
  with_fuel (fun fuel => avail_loop fuel (next l) 0).

(** ** The same on a list of ranges *)

Definition lo (r : range) : Z := r.1.1.
Definition hi (r : range) : Z := r.1.2.
Definition sh (r : range) : bool := r.2.

(** Behind how many ranges a new one goes; none if it would overlap. *)
Fixpoint spot_l (a b : Z) (rs : list range) (i k : nat) : option nat :=
  match rs with
  | [] => Some k
  | r :: rs =>
      if hi r <? a then spot_l a b rs (S i) (S i)
      else if lo r <=? b then None
      else spot_l a b rs (S i) k
  end.

Definition add_l (a b : Z) (rs : list range) : option (list range) :=
  k ← spot_l a b rs 0 0; Some (take k rs ++ (a, b, false) :: drop k rs).

Fixpoint sub_l (a b : Z) (rs : list range) : list range :=
  match rs with
  | [] => []
  | r :: rs =>
      if negb (lo r <=? b) then r :: rs
      else if hi r <? a then r :: sub_l a b rs
      else if (a <=? lo r) && (hi r <=? b) then sub_l a b rs
      else if (lo r <? a) && (b <? hi r) then (lo r, a -[64] 1, sh r) :: (b +[64] 1, hi r, false) :: rs
      else if a <=? lo r then (b +[64] 1, hi r, sh r) :: rs
      else (lo r, a -[64] 1, sh r) :: rs
  end.

Definition holds_all (a b : Z) (r : range) : bool := (lo r <=? a) && (b <=? hi r).

Fixpoint share_l (a b : Z) (rs : list range) : list range :=
  match rs with
  | [] => []
  | r :: rs =>
      if holds_all a b r then
        if sh r then r :: rs
        else (if lo r =? a then [] else [(lo r, a -[64] 1, false)]) ++ (a, b, true) ::
             (if hi r =? b then [] else [(b +[64] 1, hi r, false)]) ++ rs
      else r :: share_l a b rs
  end.

Definition reserve_l (a b : Z) (exclusive : bool) (rs : list range) : option (list range) :=
  match List.find (holds_all a b) rs with
  | None => None
  | Some r => if exclusive then if sh r then None else Some (sub_l a b rs) else Some (share_l a b rs)
  end.

Fixpoint try_l (ps : list Pool) (size align node : Z) (r : range) (rs : list range) : option (Z * list range) :=
  match ps with
  | [] => None
  | p :: ps =>
      match place p size align node (lo r) (hi r) with
      | None => try_l ps size align node r rs
      | Some st =>
          match reserve_l st (st +[64] size -[64] 1) true rs with
          | Some rs' => Some (st, rs')
          | None => try_l ps size align node r rs
          end
      end
  end.

Fixpoint alloc_find (ps : list Pool) (size align node : Z) (todo rs : list range) : option (Z * list range) :=
  match todo with
  | [] => None
  | r :: todo =>
      if sh r then alloc_find ps size align node todo rs
      else match try_l ps size align node r rs with
           | Some x => Some x
           | None => alloc_find ps size align node todo rs
           end
  end.

Definition alloc_l (ps : list Pool) (size align node : Z) (rs : list range) : option (Z * list range) :=
  alloc_find (match ps with [] => [whole_ram] | _ => ps end) size align node rs rs.

Definition avail_l (rs : list range) : Z := foldl (fun ret r => ret +[64] (hi r -[64] lo r +[64] 1)) 0 rs.

(** ** The ring implements the list *)

(** The nodes [xs] of the list have the ranges [rs], the nodes [ys] are unused, and the
    rest of the heap is free. *)
Record rep (xs ys : list Z) (rs : list range) (s : heap) : Prop := {
  rp_list : ring (mem s) (list_ :: xs);
  rp_slab : ring (mem s) (slab :: ys);
  rp_nodup : NoDup (list_ :: slab :: xs ++ ys);
  rp_data : Forall2 (fun x r => data (mem s) x = Some r) xs rs;
  rp_heap x : is_Some (mem s !! x) -> ~ heap_pos s <= x < heap_end;
  rp_pos : 0 <= heap_pos s <= heap_end /\ heap_end + 40 < 2 ^ 64;
}.

(** A computation ends in [Q], or panics because the heap is exhausted or for the
    reason [P]; no pointer leads nowhere, and no loop runs too long. *)
Definition wp {A} (P : Prop) (m : prog heap A) (Q : A -> heap -> Prop) (s : heap) : Prop :=
  match m s with
  | (s', Ret a) => Q a s'
  | (s', Panicked) => heap_end < heap_pos s' \/ P
  | _ => False
  end.

Lemma wp_bind {A B} P (m : prog heap A) (f : A -> prog heap B) R Q s :
  wp P m R s -> (forall a s', R a s' -> wp P (f a) Q s') -> wp P (m ≫= f) Q s.
Proof. unfold wp, mbind, prog_bind. destruct (m s) as [s' [a| | | | |]]; try done. intros H HQ. by apply HQ. Qed.

Lemma wp_mono {A} (P P' : Prop) (m : prog heap A) (Q Q' : A -> heap -> Prop) s :
  wp P m Q s -> (P -> P') -> (forall a s', Q a s' -> Q' a s') -> wp P' m Q' s.
Proof. unfold wp. destruct (m s) as [s' [a| | | | |]]; try done; intros H HP HQ; [by apply HQ|tauto]. Qed.

Lemma wp_run {A} P (m : prog heap A) (Q : A -> heap -> Prop) s s' a : m s = (s', Ret a) -> Q a s' -> wp P m Q s.
Proof. unfold wp. by intros ->. Qed.

Lemma wp_step {A B} P (m : prog heap A) (f : A -> prog heap B) Q s s' a :
  m s = (s', Ret a) -> wp P (f a) Q s' -> wp P (m ≫= f) Q s.
Proof. intros Hm Hf. unfold wp. by rewrite (prog_bind_ret m f s s' a). Qed.

Lemma wp_rd {B} P l n (f : Range -> prog heap B) Q s : mem s !! l = Some n -> wp P (f n) Q s -> wp P (rd l ≫= f) Q s.
Proof. intros Hn. apply wp_step. unfold rd. by rewrite Hn. Qed.

(** A node [e] with the range [d] that is in no ring. *)
Definition loose (e : Z) (d : range) (xs ys : list Z) (rs : list range) (s : heap) : Prop :=
  rep xs ys rs s /\ e ∉ list_ :: slab :: xs ++ ys /\ data (mem s) e = Some d.

(** Operations on one ring keep the representation. *)
Lemma rep_only_ring xs ys rs s s' C xs' ys' rs' : rep xs ys rs s -> only_ring C s s' ->
  ring (mem s') (list_ :: xs') -> ring (mem s') (slab :: ys') -> NoDup (list_ :: slab :: xs' ++ ys') ->
  Forall2 (fun x r => data (mem s) x = Some r) xs' rs' -> rep xs' ys' rs' s'.
Proof.
  intros [? ? ? ? Hh Hp] [Epos Edata Edom Erest] Hl Hs Hnd Hd. split; try done.
  - eapply list.Forall2_impl; [exact Hd|]. cbn. intros x r Hx. by rewrite Edata.
  - intros x Hx%Edom. rewrite Epos. auto.
  - by rewrite Epos.
Qed.

Lemma data_mem h x r : data h x = Some r -> is_Some (h !! x).
Proof. unfold data. by destruct (h !! x); [eexists|]. Qed.

(** *** Nodes *)

Lemma range_size : Z.land (sizeof_Range +[64] 7) (u64 (Z.lnot 7)) = 40.
Proof. reflexivity. Qed.

Lemma ring_ext h C x n : x ∉ C -> ring h C -> ring (<[x := n]> h) C.
Proof. intros Hx. apply ring_frame. intros y Hy. apply lookup_insert_ne. set_solver. Qed.

(** A node keeps its place when its range changes. *)
Lemma data_upd f g h l r x : (forall n, next (f n) = next n /\ prev (f n) = prev n /\
    (start (f n), end_ (f n), shared (f n)) = g (start n, end_ n, shared n)) ->
  data h l = Some r -> nxt (alter f l h) x = nxt h x /\ prv (alter f l h) x = prv h x /\
    data (alter f l h) x = if decide (x = l) then Some (g r) else data h x.
Proof.
  intros Hf Hl. unfold nxt, prv, data in *. rewrite lookup_upd. case_decide as E; [subst|done].
  destruct (h !! l) as [n|]; [|done]. cbn in *. destruct (Hf n) as (-> & -> & ->). by simplify_eq.
Qed.

Lemma ring_data f g h l r C : (forall n, next (f n) = next n /\ prev (f n) = prev n /\
    (start (f n), end_ (f n), shared (f n)) = g (start n, end_ n, shared n)) ->
  data h l = Some r -> ring h C -> ring (alter f l h) C.
Proof.
  intros Hf Hl. unfold ring. destruct C as [|c C]; [done|].
  apply links_frame; intros x _; by destruct (data_upd f g h l r x Hf Hl) as (? & ? & _).
Qed.

(** The range of a loose node is set. *)
Lemma upd_loose P f g e d xs ys rs s : (forall n, next (f n) = next n /\ prev (f n) = prev n /\
    (start (f n), end_ (f n), shared (f n)) = g (start n, end_ n, shared n)) ->
  loose e d xs ys rs s -> wp P (upd e f) (fun _ => loose e (g d) xs ys rs) s.
Proof.
  intros Hf (H & He & Hd). pose proof (data_upd f g (mem s) e d) as Hu. destruct H as [Hl Hs Hn Hx Hh Hp].
  eapply wp_run; [apply upd_run; by eapply data_mem|]. split; [split|split]; cbn [mem heap_pos set_mem]; try done.
  - by eapply ring_data.
  - by eapply ring_data.
  - apply Forall2_same_length_lookup. apply Forall2_same_length_lookup in Hx as [Hlen Hx]. split; [done|].
    intros i x r Hix Hir. destruct (Hu x Hf Hd) as (_ & _ & ->). rewrite decide_False; [by eapply Hx|].
    intros ->. apply He. apply list_elem_of_lookup_2 in Hix. set_solver.
  - intros x Hx'%is_Some_upd. auto.
  - destruct (Hu e Hf Hd) as (_ & _ & ->). by rewrite decide_True.
Qed.

(** The range of a node of the list is set. *)
Lemma upd_rep P f g p y q ys rp r rq s : (forall n, next (f n) = next n /\ prev (f n) = prev n /\
    (start (f n), end_ (f n), shared (f n)) = g (start n, end_ n, shared n)) ->
  length p = length rp -> rep (p ++ y :: q) ys (rp ++ r :: rq) s ->
  wp P (upd y f) (fun _ => rep (p ++ y :: q) ys (rp ++ g r :: rq)) s.
Proof.
  intros Hf Hlen [Hl Hs Hn Hx Hh Hp]. apply Forall2_app_inv in Hx as [Hxp Hxq]; [|done].
  apply list.Forall2_cons in Hxq as [Hd Hxq]. pose proof (data_upd f g (mem s) y r) as Hu.
  eapply wp_run; [apply upd_run; by eapply data_mem|]. split; cbn [mem heap_pos set_mem]; try done.
  - by eapply ring_data.
  - by eapply ring_data.
  - assert (Hk : forall xs rs, y ∉ xs -> Forall2 (fun x r => data (mem s) x = Some r) xs rs ->
                   Forall2 (fun x r => data (alter f y (mem s)) x = Some r) xs rs).
    { intros xs rs Hy. induction 1 as [|x r' xs rs Hr _ IH]; constructor.
      - destruct (Hu x Hf Hd) as (_ & _ & ->). rewrite decide_False; set_solver.
      - apply IH. set_solver. }
    apply list.NoDup_cons in Hn as [_ [_ Hn]%list.NoDup_cons]. apply list.NoDup_app in Hn as (Hn & _ & _).
    apply list.NoDup_app in Hn as (_ & Hp' & [Hq' _]%list.NoDup_cons).
    apply Forall2_app; [apply Hk; [set_solver|done]|]. constructor; [|by apply Hk].
    destruct (Hu y Hf Hd) as (_ & _ & ->). by rewrite decide_True.
  - intros x Hx'%is_Some_upd. auto.
Qed.

Lemma move_out xs y ys : list_ :: slab :: xs ++ y :: ys ≡ₚ y :: list_ :: slab :: xs ++ ys.
Proof. solve_Permutation. Qed.

Lemma slab_nodup xs ys : NoDup (list_ :: slab :: xs ++ ys) -> NoDup (list_ :: xs) /\ NoDup (slab :: ys).
Proof.
  intros [Hl [Hs Hn]%list.NoDup_cons]%list.NoDup_cons. apply list.NoDup_app in Hn as (? & ? & ?).
  split; apply list.NoDup_cons; set_solver.
Qed.

(** A node from the heap. *)
Lemma new_range_ok P a b xs rs s : rep xs [] rs s ->
  wp P (new_range heap_end junk a b) (fun e s' => exists ys', loose e (a, b, false) xs ys' rs s') s.
Proof.
  intros H. pose proof (rp_nodup _ _ _ _ H) as Hnd.
  unfold new_range.
  unfold wp, mbind, prog_bind, malloc, construct. rewrite range_size. cbn [fst snd].
  destruct (rp_pos _ _ _ _ H) as [Hp He]. rewrite (uwrap_small 64) by (unfold in_u; lia).
  destruct (heap_end <? heap_pos s + 40) eqn:E; [left; cbn; lia|]. cbn.
  assert (Hfresh : mem s !! heap_pos s = None).
  { apply eq_None_not_Some. intros Hx%(rp_heap _ _ _ _ H). lia. }
  assert (Hnot : heap_pos s ∉ list_ :: slab :: xs).
  { intros Hin. assert (is_Some (mem s !! heap_pos s)) as [? ?]; [|congruence].
    apply list_elem_of_In in Hin. destruct Hin as [<-|[<-|Hin]].
    - apply (ring_mem _ _ _ (rp_list _ _ _ _ H)). set_solver.
    - apply (ring_mem _ _ _ (rp_slab _ _ _ _ H)). set_solver.
    - apply (ring_mem _ _ _ (rp_list _ _ _ _ H)). apply list_elem_of_In in Hin. set_solver. }
  exists []. split; [|split; [by rewrite app_nil_r|unfold data; cbn; by rewrite lookup_insert_eq]].
  destruct H as [Hl Hsl Hn Hd Hh _]. split; cbn [mem heap_pos set_mem].
  + apply ring_ext; [set_solver|done].
  + apply ring_ext; [set_solver|done].
  + done.
  + eapply list.Forall2_impl; [exact Hd|]. cbn. intros x r Hx. unfold data. rewrite lookup_insert_ne; [done|].
    intros <-. apply data_mem in Hx as [? ?]. congruence.
  + intros x Hx. destruct (decide (x = heap_pos s)) as [->|Hne]; [lia|].
    rewrite lookup_insert_ne in Hx by done. apply Hh in Hx. lia.
  + lia.
Qed.

(** A node that was unused. *)
Lemma reuse_ok P a b xs y ys rs s : rep xs (y :: ys) rs s ->
  wp P (erase y ≫= fun _ => upd y (set_range a b false) ≫= fun _ => mret y)
    (fun e s' => exists ys', loose e (a, b, false) xs ys' rs s') s.
Proof.
  intros H. pose proof (rp_slab _ _ _ _ H) as Hs. pose proof (rp_nodup _ _ _ _ H) as Hnd.
  destruct (slab_nodup _ _ Hnd) as [_ Hnds].
  destruct (erase_in slab [] y ys s Hs Hnds) as (s' & Hrun & Hr' & Ho).
  eapply wp_step; [exact Hrun|].
  assert (exists d, data (mem s) y = Some d) as [d Hd].
  { destruct (ring_mem _ _ y Hs ltac:(set_solver)) as [n Hn]. unfold data. rewrite Hn. by eexists. }
  assert (Hlo : loose y d xs ys rs s').
  { split; [|split; [|by rewrite (or_data _ _ _ Ho)]].
    - eapply rep_only_ring; [exact H|exact Ho| |exact Hr'| |exact (rp_data _ _ _ _ H)].
      + eapply ring_frame; [|exact (rp_list _ _ _ _ H)]. intros x Hx. apply (or_rest _ _ _ Ho).
        apply list.NoDup_cons in Hnd as [Hl [Hsl' Hnd]%list.NoDup_cons]. apply list.NoDup_app in Hnd as (? & ? & ?).
        set_solver.
      + rewrite (move_out xs y ys) in Hnd.
        by apply list.NoDup_cons in Hnd as [_ ?].
    - rewrite (move_out xs y ys) in Hnd.
      by apply list.NoDup_cons in Hnd as [? _]. }
  eapply wp_bind; [apply (upd_loose _ _ (fun _ => (a, b, false)) y d xs ys rs); [done|exact Hlo]|].
  intros ? s1 Hs1. eapply wp_run; [done|]. by exists ys.
Qed.

Lemma alloc_range_ok P a b xs ys rs s : rep xs ys rs s ->
  wp P (alloc_range a b) (fun e s' => exists ys', loose e (a, b, false) xs ys' rs s') s.
Proof.
  intros H. pose proof (rp_slab _ _ _ _ H) as Hs. destruct (slab_nodup _ _ (rp_nodup _ _ _ _ H)) as [_ Hnds].
  unfold alloc_range. eapply wp_step; [by apply empty_ring_run|].
  destruct ys as [|y ys]; [by apply new_range_ok|]. rewrite bool_decide_eq_false_2 by done.
  destruct (ring_mem _ _ slab Hs ltac:(set_solver)) as [nsl Hsl]. eapply wp_rd; [exact Hsl|].
  pose proof (ring_next _ _ _ Hs) as Hn. rewrite (rd_next _ _ _ Hsl) in Hn. cbn in Hn. injection Hn as ->.
  by eapply reuse_ok.
Qed.

(** A loose node goes into the list. *)
Lemma loose_in p q e d ys rp rq s s' : length p = length rp -> loose e d (p ++ q) ys (rp ++ rq) s ->
  ring (mem s') (list_ :: p ++ e :: q) -> only_ring (e :: list_ :: p ++ q) s s' -> rep (p ++ e :: q) ys (rp ++ d :: rq) s'.
Proof.
  intros Hlen (H & He & Hd) Hr Ho. pose proof (rp_nodup _ _ _ _ H) as Hnd.
  eapply rep_only_ring; [exact H|exact Ho|exact Hr|..].
  - eapply ring_frame; [|exact (rp_slab _ _ _ _ H)]. intros x Hx. apply (or_rest _ _ _ Ho).
    apply list.NoDup_cons in Hnd as [? [? Hnd]%list.NoDup_cons]. apply list.NoDup_app in Hnd as (? & ? & ?). set_solver.
  - rewrite <- app_assoc in *. cbn [app]. rewrite move_out. by apply list.NoDup_cons.
  - pose proof (rp_data _ _ _ _ H) as Hx. apply Forall2_app_inv in Hx as [? ?]; [|done].
    apply Forall2_app; [done|]. by constructor.
Qed.

Lemma loose_nodup e d xs ys rs s : loose e d xs ys rs s -> NoDup (e :: list_ :: xs) /\ NoDup (e :: slab :: ys) /\ is_Some (mem s !! e).
Proof.
  intros (H & He & Hd). destruct (slab_nodup _ _ (rp_nodup _ _ _ _ H)).
  split; [|split; [|by eapply data_mem]]; apply list.NoDup_cons; set_solver.
Qed.

Lemma loose_after P p q p0 y e d ys rp rq s : list_ :: p = p0 ++ [y] -> length p = length rp ->
  loose e d (p ++ q) ys (rp ++ rq) s -> wp P (insert_after y e) (fun _ => rep (p ++ e :: q) ys (rp ++ d :: rq)) s.
Proof.
  intros Hy Hlen H. destruct (loose_nodup _ _ _ _ _ _ H) as (Hnd & _ & He).
  destruct (insert_after_in list_ p q p0 y e s Hy (rp_list _ _ _ _ (proj1 H)) Hnd He) as (s' & Hrun & Hr & Ho).
  eapply wp_run; [exact Hrun|]. by eapply loose_in.
Qed.

Lemma loose_before P p q e d ys rp rq s : length p = length rp ->
  loose e d (p ++ q) ys (rp ++ rq) s ->
  wp P (insert_before (default list_ (head q)) e) (fun _ => rep (p ++ e :: q) ys (rp ++ d :: rq)) s.
Proof.
  intros Hlen H. destruct (loose_nodup _ _ _ _ _ _ H) as (Hnd & _ & He).
  destruct (insert_before_in list_ p q e s (rp_list _ _ _ _ (proj1 H)) Hnd He) as (s' & Hrun & Hr & Ho).
  eapply wp_run; [exact Hrun|]. by eapply loose_in.
Qed.

(** A loose node becomes an unused one. *)
Lemma free_range_ok P e d xs ys rs s : loose e d xs ys rs s -> wp P (free_range e) (fun _ => rep xs (e :: ys) rs) s.
Proof.
  intros H. destruct (loose_nodup _ _ _ _ _ _ H) as (_ & Hnd & He). destruct H as (H & Hn & Hd).
  destruct (insert_after_in slab [] ys [] slab e s eq_refl (rp_slab _ _ _ _ H) Hnd He) as (s' & Hrun & Hr & Ho).
  eapply wp_run; [exact Hrun|]. eapply rep_only_ring; [exact H|exact Ho|..|exact (rp_data _ _ _ _ H)].
  - eapply ring_frame; [|exact (rp_list _ _ _ _ H)]. intros x Hx. apply (or_rest _ _ _ Ho).
    pose proof (rp_nodup _ _ _ _ H) as Hnd'.
    apply list.NoDup_cons in Hnd' as [? [? Hnd']%list.NoDup_cons]. apply list.NoDup_app in Hnd' as (? & ? & ?). set_solver.
  - exact Hr.
  - rewrite move_out. apply list.NoDup_cons. split; [done|exact (rp_nodup _ _ _ _ H)].
Qed.

(** A node leaves the list. *)
Lemma erase_ok p y q ys rp r rq s : length p = length rp -> rep (p ++ y :: q) ys (rp ++ r :: rq) s ->
  exists s', erase y s = (s', Ret (default list_ (head q))) /\ loose y r (p ++ q) ys (rp ++ rq) s'.
Proof.
  intros Hlen H. pose proof (rp_nodup _ _ _ _ H) as Hnd. destruct (slab_nodup _ _ Hnd) as [Hndl _].
  destruct (erase_in list_ p y q s (rp_list _ _ _ _ H) Hndl) as (s' & Hrun & Hr & Ho).
  exists s'. split; [done|]. pose proof (rp_data _ _ _ _ H) as Hx. apply Forall2_app_inv in Hx as [Hxp Hxq]; [|done].
  apply list.Forall2_cons in Hxq as [Hd Hxq].
  assert (Hnd' : NoDup (y :: list_ :: slab :: (p ++ q) ++ ys)).
  { rewrite <- app_assoc in *. cbn [app] in Hnd. by rewrite move_out in Hnd. }
  apply list.NoDup_cons in Hnd' as [Hy Hnd']. split; [|split; [done|by rewrite (or_data _ _ _ Ho)]].
  eapply rep_only_ring; [exact H|exact Ho|exact Hr| |done|by apply Forall2_app].
  eapply ring_frame; [|exact (rp_slab _ _ _ _ H)]. intros x Hx. apply (or_rest _ _ _ Ho).
  apply list.NoDup_cons in Hnd as [? [? Hnd]%list.NoDup_cons]. apply list.NoDup_app in Hnd as (? & ? & ?). set_solver.
Qed.

(** Reading a node of the list. *)
Lemma rep_node p y q ys rp r rq s : length p = length rp -> rep (p ++ y :: q) ys (rp ++ r :: rq) s ->
  (y =? list_) = false /\ exists n, mem s !! y = Some n /\ start n = lo r /\ end_ n = hi r /\ shared n = sh r /\
    next n = default list_ (head q).
Proof.
  intros Hlen H. destruct (slab_nodup _ _ (rp_nodup _ _ _ _ H)) as [[Hn _]%list.NoDup_cons _].
  split; [apply Z.eqb_neq; set_solver|].
  pose proof (rp_data _ _ _ _ H) as Hx. apply Forall2_app_inv in Hx as [_ Hx]; [|done].
  apply list.Forall2_cons in Hx as [Hd _]. pose proof (rp_list _ _ _ _ H) as Hr.
  apply (ring_swap _ (list_ :: p) (y :: q)) in Hr. cbn [app] in Hr. apply ring_next in Hr.
  unfold data, nxt in *. destruct (mem s !! y) as [n|]; [|done]. exists n. cbn in *. simplify_eq. split; [done|].
  do 3 (split; [done|]). rewrite Hr. by destruct q.
Qed.

Lemma rep_head xs ys rs s : rep xs ys rs s -> exists n, mem s !! list_ = Some n /\ next n = default list_ (head xs).
Proof.
  intros H. pose proof (ring_next _ _ _ (rp_list _ _ _ _ H)) as Hn. unfold nxt in Hn.
  destruct (mem s !! list_) as [n|]; [|done]. cbn in Hn. simplify_eq. eauto.
Qed.

Lemma rep_length xs ys rs s : rep xs ys rs s -> length xs = length rs /\ (length xs < S (size (mem s)))%nat.
Proof.
  intros H. split; [by eapply Forall2_length, rp_data|]. pose proof (rp_list _ _ _ _ H) as Hr.
  destruct (slab_nodup _ _ (rp_nodup _ _ _ _ H)) as [[_ Hn]%list.NoDup_cons _].
  rewrite <- size_dom. rewrite <- (size_list_to_set (C := gset Z) xs) by done.
  apply Nat.lt_succ_r, subseteq_size. intros x Hx%elem_of_list_to_set. apply elem_of_dom.
  eapply ring_mem; [exact Hr|]. set_solver.
Qed.

(** *** Loops *)

Definition reps (rs : list range) (s : heap) : Prop := exists xs ys, rep xs ys rs s.

Lemma rep_reps xs ys rs s : rep xs ys rs s -> reps rs s.
Proof. by exists xs, ys. Qed.

(** The head of the rest of the list: read it, or the loop ends. *)
Lemma wp_end {A} P (m k : prog heap A) Q s : wp P m Q s -> wp P (if list_ =? list_ then m else k) Q s.
Proof. by rewrite Z.eqb_refl. Qed.

Lemma wp_node {A} P (m : prog heap A) (f : Range -> prog heap A) Q p y q ys rp r rq s : length p = length rp ->
  rep (p ++ y :: q) ys (rp ++ r :: rq) s ->
  (forall n, start n = lo r -> end_ n = hi r -> shared n = sh r -> next n = default list_ (head q) -> wp P (f n) Q s) ->
  wp P (if y =? list_ then m else rd y ≫= f) Q s.
Proof.
  intros Hlen H Hf. destruct (rep_node _ _ _ _ _ _ _ _ Hlen H) as (-> & n & Hn & ? & ? & ? & ?).
  eapply wp_rd; [exact Hn|auto].
Qed.

Lemma add_loop_ok a b ys s fuel : forall q p rp rq k spot, length p = length rp -> rep (p ++ q) ys (rp ++ rq) s ->
  (list_ :: p ++ q) !! k = Some spot -> (length q < fuel)%nat ->
  wp (spot_l a b rq (length p) k = None) (add_loop fuel a b (default list_ (head q)) spot)
    (fun spot' s' => s' = s /\ exists k', spot_l a b rq (length p) k = Some k' /\ (list_ :: p ++ q) !! k' = Some spot') s.
Proof.
  induction fuel as [|fuel IH]; intros q p rp rq k spot Hlen H Hk Hf; [lia|]. cbn [add_loop].
  destruct (rep_length _ _ _ _ H) as [Hl _]. rewrite !length_app in Hl.
  destruct q as [|y q], rq as [|r rq]; cbn in Hl; try lia; cbn [head default].
  - apply wp_end. eapply wp_run; [done|]. split; [done|]. by exists k.
  - eapply wp_node; [exact Hlen|exact H|]. intros n -> -> _ ->. cbn [spot_l].
    assert (Hnext : forall k' spot', (list_ :: p ++ y :: q) !! k' = Some spot' ->
      wp (spot_l a b rq (S (length p)) k' = None) (add_loop fuel a b (default list_ (head q)) spot')
        (fun spot'' s' => s' = s /\ exists k'', spot_l a b rq (S (length p)) k' = Some k'' /\
                                 (list_ :: p ++ y :: q) !! k'' = Some spot'') s).
    { intros k' spot' Hk'. specialize (IH q (p ++ [y]) (rp ++ [r]) rq k' spot').
      rewrite !length_app, <- !app_assoc, Nat.add_1_r in IH. apply IH; [cbn; lia|done|done|cbn in Hf; lia]. }
    destruct (hi r <? a); [|destruct (lo r <=? b); [by right|by apply Hnext]].
    apply Hnext. rewrite lookup_cons. by apply list_lookup_middle.
Qed.

Lemma add_ok a b rs s : reps rs s ->
  wp (add_l a b rs = None) (add a b) (fun _ s' => exists rs', add_l a b rs = Some rs' /\ reps rs' s') s.
Proof.
  intros (xs & ys & H). destruct (rep_head _ _ _ _ H) as (n & Hn & En). destruct (rep_length _ _ _ _ H) as [Hlen Hf].
  unfold add, add_l. eapply wp_rd; [exact Hn|]. rewrite En.
  eapply wp_bind.
  { eapply wp_mono; [exact (add_loop_ok a b ys s (S (size (mem s))) xs [] [] rs 0 list_ eq_refl H eq_refl Hf)|..].
    - cbn. by intros ->.
    - intros ? ? HQ. exact HQ. }
  cbn. intros spot s' (-> & k & Hk & Hspot). rewrite Hk. cbn.
  eapply wp_bind; [by eapply alloc_range_ok|]. intros e s1 (ys' & Hlo).
  assert (Hkl : (k <= length xs)%nat) by (apply lookup_lt_Some in Hspot; cbn in Hspot; lia).
  rewrite <- (take_drop k xs), <- (take_drop k rs) in Hlo.
  eapply wp_mono; [refine (loose_after False (take k xs) (drop k xs) (take k (list_ :: xs)) spot e _ ys' (take k rs) (drop k rs) s1 _ _ Hlo)|done|].
  - by rewrite <- take_S_r.
  - by rewrite !length_take, Hlen.
  - intros ? s2 Hrep. eexists. split; [done|]. exact (rep_reps _ _ _ _ Hrep).
Qed.

(** A new range behind or in front of a node. *)
Lemma put_behind P c d p y q ys rp r rq s : length p = length rp -> rep (p ++ y :: q) ys (rp ++ r :: rq) s ->
  wp P (e ← alloc_range c d; insert_after y e)
    (fun _ s' => exists e ys', rep (p ++ y :: e :: q) ys' (rp ++ r :: (c, d, false) :: rq) s') s.
Proof.
  intros Hlen H. eapply wp_bind; [by eapply alloc_range_ok|]. intros e s1 (ys' & Hlo).
  rewrite (cons_middle y p q), (cons_middle r rp rq), !app_assoc in Hlo.
  eapply wp_mono; [refine (loose_after P _ q (list_ :: p) y e _ ys' _ rq s1 _ _ Hlo)|done|].
  - done.
  - by rewrite !length_app, Hlen.
  - intros ? s2 H2. exists e, ys'. rewrite <- !app_assoc in H2. exact H2.
Qed.

Lemma put_front P c d p y q ys rp r rq s : length p = length rp -> rep (p ++ y :: q) ys (rp ++ r :: rq) s ->
  wp P (e ← alloc_range c d; insert_before y e)
    (fun _ s' => exists e ys', rep ((p ++ [e]) ++ y :: q) ys' ((rp ++ [(c, d, false)]) ++ r :: rq) s') s.
Proof.
  intros Hlen H. eapply wp_bind; [by eapply alloc_range_ok|]. intros e s1 (ys' & Hlo).
  eapply wp_mono; [exact (loose_before P p (y :: q) e _ ys' rp (r :: rq) s1 Hlen Hlo)|done|].
  intros ? s2 H2. exists e, ys'. rewrite <- !app_assoc. exact H2.
Qed.

Lemma wp_assoc {A B C} P (m : prog heap A) (f : A -> prog heap B) (g : B -> prog heap C) Q s :
  wp P ((m ≫= f) ≫= g) Q s -> wp P (m ≫= fun a => f a ≫= g) Q s.
Proof. unfold wp, mbind, prog_bind. by destruct (m s) as [s1 [a| | | | |]]. Qed.

Lemma sub_loop_ok P a b fuel : forall q p rp rq ys s, length p = length rp -> rep (p ++ q) ys (rp ++ rq) s ->
  (length q < fuel)%nat ->
  wp P (sub_loop fuel a b (default list_ (head q))) (fun _ => reps (rp ++ sub_l a b rq)) s.
Proof.
  induction fuel as [|fuel IH]; intros q p rp rq ys s Hlen H Hf; [lia|]. cbn [sub_loop].
  destruct (rep_length _ _ _ _ H) as [Hl _]. rewrite !length_app in Hl.
  destruct q as [|y q], rq as [|r rq]; cbn in Hl; try lia; cbn [head default].
  - apply wp_end. eapply wp_run; [done|]. by exists (p ++ []), ys.
  - eapply wp_node; [exact Hlen|exact H|]. intros n Ea Eb Es En. rewrite Ea, Eb, En. cbn [sub_l].
    assert (Hstay : reps (rp ++ r :: rq) s) by (by eexists _, _).
    destruct (lo r <=? b); cbn [negb]; [|by eapply wp_run].
    destruct (hi r <? a).
    { specialize (IH q (p ++ [y]) (rp ++ [r]) rq ys s). rewrite !length_app, <- !app_assoc in IH.
      cbn in IH. apply IH; [lia|done|cbn in Hf; lia]. }
    destruct ((a <=? lo r) && (hi r <=? b)).
    { destruct (erase_ok _ _ _ _ _ _ _ _ Hlen H) as (s1 & Hrun & Hlo). eapply wp_step; [exact Hrun|].
      eapply wp_bind; [by eapply free_range_ok|]. intros ? s2 H2. eapply IH; [done|exact H2|cbn in Hf; lia]. }
    destruct ((lo r <? a) && (b <? hi r)).
    { apply wp_assoc. eapply wp_bind; [exact (put_behind P _ _ _ _ _ _ _ _ _ _ Hlen H)|]. intros ? s2 (e & ys' & H2).
      eapply wp_mono; [eapply (upd_rep _ _ (fun r => (lo r, a -[64] 1, sh r))); [done|exact Hlen|exact H2]|done|].
      intros ? s3 H3. exact (rep_reps _ _ _ _ H3). }
    destruct (a <=? lo r).
    + eapply wp_mono; [eapply (upd_rep _ _ (fun r => (b +[64] 1, hi r, sh r))); [done|exact Hlen|exact H]|done|].
      intros ? s3 H3. exact (rep_reps _ _ _ _ H3).
    + eapply wp_mono; [eapply (upd_rep _ _ (fun r => (lo r, a -[64] 1, sh r))); [done|exact Hlen|exact H]|done|].
      intros ? s3 H3. exact (rep_reps _ _ _ _ H3).
Qed.

Lemma sub_ok P a b rs s : reps rs s -> wp P (sub a b) (fun _ => reps (sub_l a b rs)) s.
Proof.
  intros (xs & ys & H). destruct (rep_head _ _ _ _ H) as (n & Hn & En). destruct (rep_length _ _ _ _ H) as [Hlen Hf].
  unfold sub. eapply wp_rd; [exact Hn|]. rewrite En.
  exact (sub_loop_ok P a b (S (size (mem s))) xs [] [] rs ys s eq_refl H Hf).
Qed.

(** The search ends at the first range that holds all of the addresses. *)
Lemma find_loop_ok P a b ys s fuel : forall q p rp rq, length p = length rp -> rep (p ++ q) ys (rp ++ rq) s ->
  (length q < fuel)%nat ->
  wp P (find_loop fuel a b (default list_ (head q)))
    (fun i s' => s' = s /\
       match List.find (holds_all a b) rq with
       | None => i = list_
       | Some r => exists p1 q1 rp1 rq1, p ++ q = p1 ++ i :: q1 /\ rq = rp1 ++ r :: rq1 /\
                     length p1 = length (rp ++ rp1) /\ Forall (fun r => holds_all a b r = false) rp1
       end) s.
Proof.
  induction fuel as [|fuel IH]; intros q p rp rq Hlen H Hf; [lia|]. cbn [find_loop].
  destruct (rep_length _ _ _ _ H) as [Hl _]. rewrite !length_app in Hl.
  destruct q as [|y q], rq as [|r rq]; cbn in Hl; try lia; cbn [head default].
  - apply wp_end. by eapply wp_run.
  - eapply wp_node; [exact Hlen|exact H|]. intros n -> -> _ ->. cbn [List.find].
    fold (holds_all a b r). destruct (holds_all a b r) eqn:E.
    + eapply wp_run; [done|]. split; [done|]. exists p, q, [], rq. rewrite app_nil_r. done.
    + specialize (IH q (p ++ [y]) (rp ++ [r]) rq). rewrite !length_app, <- !app_assoc in IH. cbn in IH.
      eapply wp_mono; [apply IH; [lia|done|cbn in Hf; lia]|done|]. intros i s' [-> Hi]. split; [done|].
      destruct (List.find _ rq) as [r'|]; [|done]. destruct Hi as (p1 & q1 & rp1 & rq1 & -> & -> & E1 & Hno).
      exists p1, q1, (r :: rp1), rq1. split; [done|]. split; [done|]. split; [|by constructor].
      rewrite E1, <- app_assoc. done.
Qed.

Definition share_one (a b : Z) (r : range) : list range :=
  (if lo r =? a then [] else [(lo r, a -[64] 1, false)]) ++ (a, b, true) ::
  (if hi r =? b then [] else [(b +[64] 1, hi r, false)]).

Lemma share_l_first a b rp r rq : Forall (fun r => holds_all a b r = false) rp -> holds_all a b r = true ->
  share_l a b (rp ++ r :: rq) = if sh r then rp ++ r :: rq else rp ++ share_one a b r ++ rq.
Proof.
  induction 1 as [|x rp Hx _ IH]; intros Hr; cbn.
  - rewrite Hr. destruct (sh r); [done|]. unfold share_one. rewrite <- app_assoc. done.
  - rewrite Hx, IH by done. by destruct (sh r).
Qed.

(** The nodes around a range that becomes shared. *)
Lemma split_range_ok P a b p y q ys rp r rq s : length p = length rp -> rep (p ++ y :: q) ys (rp ++ r :: rq) s ->
  wp P (split_range a b y)
    (fun _ s' => exists p' q' ys', let rp' := rp ++ (if lo r =? a then [] else [(lo r, a -[64] 1, false)]) in
       length p' = length rp' /\
       rep (p' ++ y :: q') ys' (rp' ++ r :: (if hi r =? b then [] else [(b +[64] 1, hi r, false)]) ++ rq) s') s.
Proof.
  intros Hlen H. destruct (rep_node _ _ _ _ _ _ _ _ Hlen H) as (_ & n & Hn & Ea & Eb & _ & _).
  unfold split_range. eapply wp_rd; [exact Hn|]. rewrite Ea, Eb.
  destruct (lo r =? a); cbn [negb andb].
  - destruct (hi r =? b); cbn [negb].
    + eapply wp_run; [done|]. exists p, q, ys. by rewrite app_nil_r.
    + eapply wp_mono; [exact (put_behind P _ _ _ _ _ _ _ _ _ _ Hlen H)|done|].
      intros ? s1 (e & ys' & H1). exists p, (e :: q), ys'. by rewrite app_nil_r.
  - assert (Hlen' : forall e d, length (p ++ [e]) = length (rp ++ [d])) by (intros; rewrite !length_app, Hlen; done).
    destruct (hi r =? b); cbn [negb].
    + eapply wp_mono; [exact (put_front P _ _ _ _ _ _ _ _ _ _ Hlen H)|done|].
      intros ? s1 (e & ys' & H1). by exists (p ++ [e]), q, ys'.
    + apply wp_assoc. eapply wp_bind; [exact (put_front P _ _ _ _ _ _ _ _ _ _ Hlen H)|].
      intros ? s1 (e & ys' & H1).
      destruct (rep_node _ _ _ _ _ _ _ _ (Hlen' e _) H1) as (_ & n' & Hn' & _ & Eb' & _ & _).
      eapply wp_rd; [exact Hn'|]. rewrite Eb'.
      eapply wp_mono; [exact (put_behind P _ _ _ _ _ _ _ _ _ _ (Hlen' e _) H1)|done|].
      intros ? s2 (e2 & ys2 & H2). by exists (p ++ [e]), (e2 :: q), ys2.
Qed.

(** [reserve] changes the list as [reserve_l] says, and nothing when it fails. *)
Lemma reserve_ok P a b ex rs s : reps rs s ->
  wp P (reserve a b ex)
    (fun ok s' => match reserve_l a b ex rs with Some rs' => ok = true /\ reps rs' s' | None => ok = false /\ s' = s end) s.
Proof.
  intros (xs & ys & H). destruct (rep_head _ _ _ _ H) as (n & Hn & En). destruct (rep_length _ _ _ _ H) as [_ Hf].
  unfold reserve, reserve_l. eapply wp_rd; [exact Hn|]. rewrite En.
  eapply wp_bind; [exact (find_loop_ok P a b ys s _ xs [] [] rs eq_refl H Hf)|]. cbn beta. intros i s' [-> Hi].
  destruct (List.find (holds_all a b) rs) as [r|] eqn:Ef; [|subst i; apply wp_end; by eapply wp_run].
  apply List.find_some in Ef as [_ Hr]. destruct Hi as (p & q & rp & rq & Ex & -> & Hlen & Hno). cbn [app] in Ex, Hlen.
  subst xs. eapply wp_node; [exact Hlen|exact H|]. intros n1 _ _ -> _.
  destruct ex; cbn [andb].
  - destruct (sh r); [by eapply wp_run|].
    eapply wp_bind; [apply (sub_ok P a b); by eapply rep_reps|]. intros ? s1 H1. by eapply wp_run.
  - rewrite share_l_first by done. destruct (sh r); cbn [negb]; [eapply wp_run; [done|]; split; [done|by eapply rep_reps]|].
    eapply wp_bind; [exact (split_range_ok P a b _ _ _ _ _ _ _ _ Hlen H)|]. intros ? s1 (p' & q' & ys' & Hlen' & H1).
    eapply wp_bind; [by apply (upd_rep P (set_range a b true) (fun _ => (a, b, true)) _ _ _ _ _ _ _ _ ltac:(done) Hlen' H1)|].
    intros ? s2 H2. eapply wp_run; [done|]. split; [done|]. unfold share_one. rewrite <- !app_assoc in *.
    exact (rep_reps _ _ _ _ H2).
Qed.

Lemma try_pools_ok P size align node ps p y q ys rp r rq s : length p = length rp ->
  rep (p ++ y :: q) ys (rp ++ r :: rq) s ->
  wp P (try_pools ps size align node y)
    (fun res s' => match try_l ps size align node r (rp ++ r :: rq) with
                   | Some (st, rs') => res = Some st /\ reps rs' s'
                   | None => res = None /\ s' = s
                   end) s.
Proof.
  intros Hlen H. induction ps as [|pl ps IH]; cbn [try_pools try_l]; [by eapply wp_run|].
  destruct (rep_node _ _ _ _ _ _ _ _ Hlen H) as (_ & n & Hn & Ea & Eb & _ & _).
  eapply wp_rd; [exact Hn|]. rewrite Ea, Eb. destruct (place pl size align node (lo r) (hi r)) as [st|]; [|done].
  eapply wp_bind; [apply reserve_ok; by eapply rep_reps|]. cbn beta. intros ok s1 Hok.
  destruct (reserve_l _ _ true _) as [rs'|]; destruct Hok as [-> Hok]; [by eapply wp_run|]. by subst s1.
Qed.

Lemma alloc_loop_ok P size align node ps ys s fuel : forall q p rp rq, length p = length rp ->
  rep (p ++ q) ys (rp ++ rq) s -> (length q < fuel)%nat ->
  wp P (alloc_loop fuel ps size align node (default list_ (head q)))
    (fun res s' => match alloc_find ps size align node rq (rp ++ rq) with
                   | Some (st, rs') => res = st /\ reps rs' s'
                   | None => res = 0 /\ s' = s
                   end) s.
Proof.
  induction fuel as [|fuel IH]; intros q p rp rq Hlen H Hf; [lia|]. cbn [alloc_loop].
  destruct (rep_length _ _ _ _ H) as [Hl _]. rewrite !length_app in Hl.
  destruct q as [|y q], rq as [|r rq]; cbn in Hl; try lia; cbn [head default].
  - apply wp_end. by eapply wp_run.
  - specialize (IH q (p ++ [y]) (rp ++ [r]) rq). rewrite !length_app, <- !app_assoc in IH. cbn in IH.
    specialize (IH ltac:(lia) H ltac:(cbn in Hf; lia)).
    eapply wp_node; [exact Hlen|exact H|]. intros n _ _ -> ->. cbn [alloc_find].
    destruct (sh r); [exact IH|].
    eapply wp_bind; [exact (try_pools_ok P size align node ps _ _ _ _ _ _ _ _ Hlen H)|]. cbn beta. intros res s1 Hres.
    destruct (try_l _ _ _ _ r _) as [[st rs']|]; destruct Hres as [-> Hres]; [by eapply wp_run|]. subst s1.
    destruct (rep_node _ _ _ _ _ _ _ _ Hlen H) as (_ & n1 & Hn1 & _ & _ & _ & En).
    eapply wp_rd; [exact Hn1|]. by rewrite En.
Qed.

Lemma alloc_ok P ps size align node rs s : reps rs s ->
  wp P (alloc ps size align node)
    (fun res s' => match alloc_l ps size align node rs with
                   | Some (st, rs') => res = st /\ reps rs' s'
                   | None => res = 0 /\ s' = s
                   end) s.
Proof.
  intros (xs & ys & H). destruct (rep_head _ _ _ _ H) as (n & Hn & En). destruct (rep_length _ _ _ _ H) as [_ Hf].
  unfold alloc, alloc_l. eapply wp_rd; [exact Hn|]. rewrite En.
  exact (alloc_loop_ok P size align node _ ys s _ xs [] [] rs eq_refl H Hf).
Qed.

Lemma avail_loop_ok P ys s fuel : forall q p rp rq ret, length p = length rp -> rep (p ++ q) ys (rp ++ rq) s ->
  (length q < fuel)%nat ->
  wp P (avail_loop fuel (default list_ (head q)) ret)
    (fun res s' => s' = s /\ res = foldl (fun ret r => ret +[64] (hi r -[64] lo r +[64] 1)) ret rq) s.
Proof.
  induction fuel as [|fuel IH]; intros q p rp rq ret Hlen H Hf; [lia|]. cbn [avail_loop].
  destruct (rep_length _ _ _ _ H) as [Hl _]. rewrite !length_app in Hl.
  destruct q as [|y q], rq as [|r rq]; cbn in Hl; try lia; cbn [head default].
  - apply wp_end. by eapply wp_run.
  - eapply wp_node; [exact Hlen|exact H|]. intros n -> -> _ ->. cbn [foldl].
    specialize (IH q (p ++ [y]) (rp ++ [r]) rq). rewrite !length_app, <- !app_assoc in IH. cbn in IH.
    apply IH; [lia|done|cbn in Hf; lia].
Qed.

Lemma avail_ok P rs s : reps rs s -> wp P avail (fun res s' => s' = s /\ res = avail_l rs) s.
Proof.
  intros (xs & ys & H). destruct (rep_head _ _ _ _ H) as (n & Hn & En). destruct (rep_length _ _ _ _ H) as [_ Hf].
  unfold avail. eapply wp_rd; [exact Hn|]. rewrite En.
  exact (avail_loop_ok P ys s _ xs [] [] rs 0 eq_refl H Hf).
Qed.

(** *** Sequences of operations *)

Inductive op :=
  | O_add (a b : Z)
  | O_sub (a b : Z)
  | O_alloc (ps : list Pool) (size align node : Z)
  | O_reserve (a b : Z) (exclusive : bool)
  | O_avail.

Definition exec (o : op) : prog heap Z :=
  match o with
  | O_add a b => add a b ≫= fun _ => mret 0
  | O_sub a b => sub a b ≫= fun _ => mret 0
  | O_alloc ps size align node => alloc ps size align node
  | O_reserve a b ex => ok ← reserve a b ex; mret (Z.b2z ok)
  | O_avail => avail
  end.

(** The abstract operation; none is a collision. *)
Definition exec_l (o : op) (rs : list range) : option (list range * Z) :=
  match o with
  | O_add a b => rs' ← add_l a b rs; Some (rs', 0)
  | O_sub a b => Some (sub_l a b rs, 0)
  | O_alloc ps size align node =>
      Some (match alloc_l ps size align node rs with Some (st, rs') => (rs', st) | None => (rs, 0) end)
  | O_reserve a b ex => Some (match reserve_l a b ex rs with Some rs' => (rs', 1) | None => (rs, 0) end)
  | O_avail => Some (rs, avail_l rs)
  end.

Fixpoint exec_all (os : list op) : prog heap (list Z) :=
  match os with
  | [] => mret []
  | o :: os => r ← exec o; rest ← exec_all os; mret (r :: rest)
  end.

Fixpoint exec_all_l (os : list op) (rs : list range) : option (list range * list Z) :=
  match os with
  | [] => Some (rs, [])
  | o :: os => '(rs, r) ← exec_l o rs; '(rs, rest) ← exec_all_l os rs; Some (rs, r :: rest)
  end.

Lemma exec_ok o rs s : reps rs s ->
  wp (exec_l o rs = None) (exec o) (fun r s' => exists rs', exec_l o rs = Some (rs', r) /\ reps rs' s') s.
Proof.
  intros H. destruct o as [a b|a b|ps size align node|a b ex|]; cbn [exec exec_l].
  - eapply wp_bind; [eapply wp_mono; [by apply add_ok| |]|].
    + cbn. by intros ->.
    + intros ? ? HQ. exact HQ.
    + cbn beta. intros ? s1 (rs' & -> & H1). eapply wp_run; [done|]. by exists rs'.
  - eapply wp_bind; [by apply sub_ok|]. intros ? s1 H1. eapply wp_run; [done|]. by eexists.
  - eapply wp_mono; [by apply alloc_ok|done|]. cbn beta. intros r s1 Hr.
    destruct (alloc_l ps size align node rs) as [[st rs']|]; destruct Hr as [-> Hr]; subst; by eexists.
  - eapply wp_bind; [by apply reserve_ok|]. cbn beta. intros ok s1 Hok. eapply wp_run; [done|].
    destruct (reserve_l a b ex rs) as [rs'|]; destruct Hok as [-> Hok]; subst; by eexists.
  - eapply wp_mono; [by apply avail_ok|done|]. intros r s1 [-> ->]. by eexists.
Qed.

(** C16. Every sequence of operations on the ring does what it does on the list of ranges,
    with the same results: all pointers that are followed lead to a node, every loop ends,
    and the only other outcomes are the panic for a collision, when the list has one, and
    the panic for an exhausted heap. *)
Theorem tracker_refines os rs s : reps rs s ->
  wp (exec_all_l os rs = None) (exec_all os)
    (fun r s' => exists rs', exec_all_l os rs = Some (rs', r) /\ reps rs' s') s.
Proof.
  revert rs s. induction os as [|o os IH]; intros rs s H; cbn [exec_all exec_all_l].
  { eapply wp_run; [done|]. by exists rs. }
  eapply wp_bind; [eapply wp_mono; [by apply exec_ok| |intros ? ? HQ; exact HQ]|].
  { cbn. by intros ->. }
  cbn beta. intros r s1 (rs1 & -> & H1). cbn.
  eapply wp_bind; [eapply wp_mono; [by apply (IH rs1)| |intros ? ? HQ; exact HQ]|].
  { by intros ->. }
  cbn beta. intros rest s2 (rs2 & -> & H2). eapply wp_run; [done|]. by exists rs2.
Qed.

(** The tracker before its first use: both rings are empty. *)
Definition ram_start (pos : Z) : heap :=
  let self l := {| prev := l; next := l; start := 0; end_ := 0; shared := false |} in
  {| mem := <[list_ := self list_]> (<[slab := self slab]> ∅); heap_pos := pos |}.

Lemma ram_start_reps pos : list_ <> slab -> 0 <= pos <= heap_end -> heap_end + 40 < 2 ^ 64 ->
  ~ pos <= list_ < heap_end -> ~ pos <= slab < heap_end -> reps [] (ram_start pos).
Proof.
  intros Hne Hp He Hl Hs. exists [], []. unfold ram_start. split; cbn [mem heap_pos].
  - cbn [ring links app]. unfold nxt, prv. by rewrite lookup_insert_eq.
  - cbn [ring links app]. unfold nxt, prv. rewrite lookup_insert_ne by done. by rewrite lookup_insert_eq.
  - apply list.NoDup_cons. split; [set_solver|apply NoDup_singleton].
  - constructor.
  - intros x Hx. destruct (decide (x = list_)) as [->|Hx1]; [done|]. rewrite lookup_insert_ne in Hx by done.
    destruct (decide (x = slab)) as [->|Hx2]; [done|]. rewrite lookup_insert_ne in Hx by done. by destruct Hx.
  - done.
Qed.

End Tracker.

(** ** Examples *)

Module Tracker_example.

Definition heap0 : heap := ram_start 0x10 0x40 0x1000.

Lemma heap0_reps : reps 0x2000 0x10 0x40 [] heap0.
Proof. apply ram_start_reps; lia. Qed.

(** A range, a hole in it that is reserved, and a block behind it. *)
Definition ops : list op :=
  [O_add 0x10000 0x1ffff; O_reserve 0x12000 0x12fff true; O_alloc [] 0x4000 0x4000 0; O_reserve 0x18000 0x18fff false; O_avail].

Example ops_run : snd (exec_all 0x2000 0xdead 0x10 0x40 ops heap0) = Ret [0; 1; 0x14000; 1; 0xb000].
Proof. vm_compute. reflexivity. Qed.

Lemma tracker_refines_witness :
  reps 0x2000 0x10 0x40 [] heap0 /\
  wp 0x2000 (exec_all_l ops [] = None) (exec_all 0x2000 0xdead 0x10 0x40 ops)
    (fun r s' => exists rs', exec_all_l ops [] = Some (rs', r) /\ reps 0x2000 0x10 0x40 rs' s') heap0.
Proof. split; [exact heap0_reps|exact (tracker_refines 0x2000 0xdead 0x10 0x40 ops [] heap0 heap0_reps)]. Defined.

End Tracker_example.
