(* ===== verification/PageAlloc.v ===== *)
(** * Memory of the start-up task: what is free and who gets it

    [src/pkg/tinit/server/src/page_alloc_sigma0.cc]: the functions of [Page_alloc] on the
    tracker of [RamTracker].  The first half says what the operations of the tracker do to
    the free addresses; the second follows a run of the task, from the memory descriptors
    of the kernel to the memory its applications get. *)

From Stdlib Require Import Sorting.Sorted.
From S2P Require Import Prelude L4Round RangeRing RamTracker.

(** ** The addresses of a list of ranges *)

(** An address that can be handed out to one user ([f] is false), or is shared. *)
Definition own (f : bool) (rs : list range) (x : Z) : Prop :=
  exists r, r ∈ rs /\ sh r = f /\ lo r <= x <= hi r.

Definition range_ok (r : range) : Prop := 0 <= lo r <= hi r /\ hi r < 2 ^ 64.

Record ordered (rs : list range) : Prop := {
  or_ranges : Forall range_ok rs;
  or_sorted : StronglySorted (fun r r' => hi r < lo r') rs;
}.

Lemma own_nil f x : own f [] x <-> False.
Proof. split; [|done]. intros (r & Hr & _). set_solver. Qed.

Lemma own_cons f r rs x : own f (r :: rs) x <-> (sh r = f /\ lo r <= x <= hi r) \/ own f rs x.
Proof. unfold own. set_solver. Qed.

Lemma own_app f rs rs' x : own f (rs ++ rs') x <-> own f rs x \/ own f rs' x.
Proof. unfold own. set_solver. Qed.

#[export] Hint Rewrite own_nil own_cons own_app : cown.

Lemma ordered_app l k : ordered (l ++ k) <-> ordered l /\ ordered k /\ Forall (fun x => Forall (fun y => hi x < lo y) k) l.
Proof.
  split.
  - intros [Hr Hs]. apply Forall_app in Hr as [? ?]. apply strongly_sorted_app in Hs as (? & ? & ?). done.
  - intros ([? ?] & [? ?] & ?). split; [by apply Forall_app|by apply strongly_sorted_app].
Qed.

Lemma ordered_nil : ordered [].
Proof. split; constructor. Qed.

Lemma ordered_cons r rs : ordered (r :: rs) <-> range_ok r /\ Forall (fun y => hi r < lo y) rs /\ ordered rs.
Proof.
  split.
  - intros [Hr Hs]. inversion Hr; subst. inversion Hs; subst. done.
  - intros (? & ? & [? ?]). split; by constructor.
Qed.

Lemma ordered_one r : range_ok r -> ordered [r].
Proof. intros. apply ordered_cons. split; [done|]. split; [constructor|apply ordered_nil]. Qed.

Lemma ordered_range rs r : ordered rs -> r ∈ rs -> range_ok r.
Proof. intros [Hr _] H. rewrite list.Forall_forall in Hr. by apply Hr. Qed.

(** A range gives way to parts of it. *)
Lemma ordered_replace rp r rq mid : ordered (rp ++ r :: rq) -> ordered mid ->
  Forall (fun m => lo r <= lo m /\ hi m <= hi r) mid -> ordered (rp ++ mid ++ rq).
Proof.
  intros (Hp & (Hr & Hrq & Hq)%ordered_cons & Hx)%ordered_app Hm Hin.
  apply ordered_app. split; [done|]. split.
  - apply ordered_app. split; [done|]. split; [done|]. eapply list.Forall_impl; [exact Hin|]. cbn. intros m [_ Hm'].
    eapply list.Forall_impl; [exact Hrq|]. cbn. lia.
  - eapply list.Forall_impl; [exact Hx|]. cbn. intros y Hy. inversion Hy; subst. apply Forall_app. split; [|done].
    eapply list.Forall_impl; [exact Hin|]. cbn. lia.
Qed.

(** The addresses of a range are in no other one. *)
Lemma own_other rp r rq f x : ordered (rp ++ r :: rq) -> lo r <= x <= hi r -> ~ own f rp x /\ ~ own f rq x.
Proof.
  intros (Hp & (Hr & Hrq & Hq)%ordered_cons & Hx)%ordered_app Hin.
  split; intros (r' & Hr' & _ & Hx').
  - rewrite list.Forall_forall in Hx. specialize (Hx r' Hr'). inversion Hx; subst. lia.
  - rewrite list.Forall_forall in Hrq. specialize (Hrq r' Hr'). cbn in Hrq. lia.
Qed.

(** ** Adding *)

Lemma spot_l_spec a b rs : ordered rs -> a <= b -> forall i k,
  match spot_l a b rs i k with
  | Some k' => exists l1 l2, rs = l1 ++ l2 /\ Forall (fun r => hi r < a) l1 /\ Forall (fun r => b < lo r) l2 /\
                 k' = match l1 with [] => k | _ => (i + length l1)%nat end
  | None => exists r, r ∈ rs /\ a <= hi r /\ lo r <= b
  end.
Proof.
  intros Ho Hab. induction rs as [|r rs IH]; intros i k; cbn [spot_l]; [by exists [], []|].
  apply ordered_cons in Ho as (Hr & Hrs & Ho). specialize (IH Ho).
  destruct (hi r <? a) eqn:E1; [|destruct (lo r <=? b) eqn:E2].
  - specialize (IH (S i) (S i)). destruct (spot_l a b rs (S i) (S i)) as [k'|].
    + destruct IH as (l1 & l2 & -> & H1 & H2 & ->). exists (r :: l1), l2. split; [done|].
      split; [constructor; [lia|done]|]. split; [done|]. destruct l1; cbn; lia.
    + destruct IH as (r' & ? & ?). exists r'. set_solver.
  - exists r. set_solver by lia.
  - assert (Hno : Forall (fun r => b < lo r) rs) by (eapply list.Forall_impl; [exact Hrs|]; cbn; unfold range_ok in Hr; lia).
    specialize (IH (S i) k). destruct (spot_l a b rs (S i) k) as [k'|].
    + destruct IH as (l1 & l2 & -> & H1 & H2 & ->). destruct l1 as [|x l1].
      * exists [], (r :: l2). split; [done|]. split; [constructor|]. split; [constructor; [lia|done]|done].
      * exfalso. apply Forall_app in Hno as [Hno _]. inversion Hno; subst. inversion H1; subst.
        apply ordered_cons in Ho as (Hx & _). unfold range_ok in Hx. lia.
    + destruct IH as (r' & Hr' & ?). rewrite list.Forall_forall in Hno. specialize (Hno r' Hr'). cbn in Hno. lia.
Qed.

(** Adding a range: a collision if and only if one of its addresses is known already. *)
Lemma add_l_spec a b rs : ordered rs -> 0 <= a <= b -> b < 2 ^ 64 ->
  match add_l a b rs with
  | Some rs' => ordered rs' /\ (forall f x, own f rs' x <-> own f rs x \/ (f = false /\ a <= x <= b)) /\
                (forall f x, a <= x <= b -> ~ own f rs x)
  | None => exists f x, a <= x <= b /\ own f rs x
  end.
Proof.
  intros Ho Hab Hb. unfold add_l. pose proof (spot_l_spec a b rs Ho ltac:(lia) 0 0) as Hs.
  destruct (spot_l a b rs 0 0) as [k|]; cbn.
  - destruct Hs as (l1 & l2 & -> & H1 & H2 & Hk). assert (k = length l1) as -> by (destruct l1; done).
    rewrite take_app_length, drop_app_length. apply ordered_app in Ho as (Ho1 & Ho2 & Hx). split; [|split].
    + apply ordered_app. split; [done|]. split.
      * apply ordered_cons. split; [unfold range_ok; cbn; lia|done].
      * rewrite list.Forall_forall in Hx, H1 |- *. intros r Hr. constructor; [cbn; by apply H1|by apply Hx].
    + intros f x. autorewrite with cown. cbn. split; [intros [?|[[<- ?]|?]]; tauto|intros [[?|?]|[-> ?]]; tauto].
    + intros f x Hin (r & [Hr|Hr]%elem_of_app & _ & Hrx).
      * rewrite list.Forall_forall in H1. specialize (H1 r Hr). cbn in H1. lia.
      * rewrite list.Forall_forall in H2. specialize (H2 r Hr). cbn in H2. lia.
  - destruct Hs as (r & Hr & H1 & H2). pose proof (ordered_range _ _ Ho Hr) as Hok. unfold range_ok in Hok.
    exists (sh r), (Z.max a (lo r)). split; [lia|]. exists r. split; [done|]. split; [done|lia].
Qed.

(** ** Taking away *)

(** A range that is cut at its end, and another one that the area reaches into. *)
Definition no_straddle (a b : Z) (rs : list range) : Prop :=
  forall r r', r ∈ rs -> r' ∈ rs -> lo r < a <= hi r -> hi r < lo r' -> b < lo r'.

Abbreviation unshared := (Forall (fun r : range => sh r = false)).

Lemma sub_l_below a b rs : Forall (fun r => b < lo r) rs -> sub_l a b rs = rs.
Proof. intros H. destruct H as [|r rs Hr]; [done|]. cbn. by rewrite (proj2 (Z.leb_gt _ _)) by lia. Qed.

(** What remains of the range that [sub] cuts, when the area ends in it. *)
Definition cut (a b : Z) (r : range) : list range :=
  (if lo r <? a then [(lo r, a - 1, sh r)] else []) ++
  (if b <? hi r then [(b + 1, hi r, if lo r <? a then false else sh r)] else []).

Lemma cut_range_ok a b r : range_ok r -> a <= b -> lo r <= b -> a <= hi r ->
  ordered (cut a b r) /\ Forall (fun m => lo r <= lo m /\ hi m <= hi r) (cut a b r) /\
  (sh r = false -> unshared (cut a b r)) /\
  (sh r = false -> forall f x, own f (cut a b r) x <-> f = false /\ lo r <= x <= hi r /\ ~ a <= x <= b).
Proof.
  unfold range_ok, cut. intros Hr Hab H1 H2.
  destruct (lo r <? a) eqn:E1, (b <? hi r) eqn:E2; cbn [app].
  - split; [apply ordered_cons; split; [unfold range_ok; cbn; lia|]; split; [repeat constructor; cbn; lia|apply ordered_one; unfold range_ok; cbn; lia]|].
    split; [repeat constructor; cbn; lia|]. split; [intros E; by repeat constructor|].
    intros E f x. autorewrite with cown. cbn. rewrite E. split; [intros [[<- ?]|[[<- ?]|[]]]; lia|intros (-> & ? & ?)].
    destruct (decide (x < a)); [left|right; left]; split; [done|lia|done|lia].
  - split; [apply ordered_one; unfold range_ok; cbn; lia|]. split; [repeat constructor; cbn; lia|].
    split; [intros E; by repeat constructor|]. intros E f x. autorewrite with cown. cbn. rewrite E.
    split; [intros [[<- ?]|[]]; lia|intros (-> & ? & ?); left; split; [done|lia]].
  - split; [apply ordered_one; unfold range_ok; cbn; lia|]. split; [repeat constructor; cbn; lia|].
    split; [intros E; by repeat constructor|]. intros E f x. autorewrite with cown. cbn. rewrite E.
    split; [intros [[<- ?]|[]]; lia|intros (-> & ? & ?); left; split; [done|lia]].
  - split; [apply ordered_nil|]. split; [constructor|]. split; [constructor|].
    intros E f x. autorewrite with cown. lia.
Qed.

(** The step at a range the area meets. *)
Lemma sub_l_meet a b r rs : 0 <= a <= b -> b < 2 ^ 64 -> ordered (r :: rs) -> lo r <= b -> a <= hi r ->
  sub_l a b (r :: rs) = if (a <=? lo r) && (hi r <=? b) then sub_l a b rs else cut a b r ++ rs.
Proof.
  intros Hab Hb (Hr & Hrs & Ho)%ordered_cons H1 H2. unfold range_ok in Hr. cbn [sub_l]. unfold cut.
  rewrite (proj2 (Z.leb_le (lo r) b)) by done. rewrite (proj2 (Z.ltb_ge (hi r) a)) by done. cbn [negb].
  destruct (Z.leb_spec a (lo r)), (Z.leb_spec (hi r) b); cbn [andb]; try done.
  - rewrite (proj2 (Z.ltb_ge (lo r) a)), (proj2 (Z.ltb_lt b (hi r))) by lia. cbn [andb app].
    rewrite uwrap_small by (unfold in_u; lia). done.
  - rewrite (proj2 (Z.ltb_lt (lo r) a)), (proj2 (Z.ltb_ge b (hi r))) by lia. cbn [andb app].
    rewrite uwrap_small by (unfold in_u; lia). done.
  - rewrite (proj2 (Z.ltb_lt (lo r) a)), (proj2 (Z.ltb_lt b (hi r))) by lia. cbn [andb app].
    rewrite !uwrap_small by (unfold in_u; lia). done.
Qed.

Lemma own_above rs l f x : Forall (fun r => l < lo r) rs -> own f rs x -> l < x.
Proof. rewrite list.Forall_forall. intros H (r & Hr & _ & Hx). specialize (H r Hr). cbn in H. lia. Qed.

(** [sub] takes nothing but the area, and all of it unless a range is cut at its end and
    the area reaches into another one. *)
Lemma sub_l_spec a b rs : 0 <= a <= b -> b < 2 ^ 64 -> ordered rs -> unshared rs ->
  ordered (sub_l a b rs) /\ unshared (sub_l a b rs) /\
  (forall l, Forall (fun r => l < lo r) rs -> Forall (fun r => l < lo r) (sub_l a b rs)) /\
  (forall x, own false (sub_l a b rs) x -> own false rs x) /\
  (no_straddle a b rs -> forall x, own false (sub_l a b rs) x <-> own false rs x /\ ~ a <= x <= b).
Proof.
  intros Hab Hb. induction rs as [|r rs IH]; intros Ho Hu.
  { cbn. do 3 (split; [done|]). split; [done|]. intros _ x. rewrite own_nil. tauto. }
  pose proof Ho as (Hr & Hrs & Ho')%ordered_cons. apply list.Forall_cons in Hu as [Hur Hu].
  destruct (IH Ho' Hu) as (I1 & I2 & I3 & I4 & I5).
  assert (Hns : no_straddle a b (r :: rs) -> no_straddle a b rs) by (intros Hn r1 r2 H1 H2; apply Hn; set_solver).
  destruct (Z.leb_spec (lo r) b) as [Hlo|Hlo]; [destruct (Z.ltb_spec (hi r) a) as [Hhi|Hhi]|].
  - cbn [sub_l]. rewrite (proj2 (Z.leb_le _ _) Hlo), (proj2 (Z.ltb_lt _ _) Hhi). cbn [negb].
    split; [apply ordered_cons; split; [done|]; split; [by apply I3|done]|]. split; [by constructor|].
    split; [intros l [? ?]%list.Forall_cons; constructor; [done|by apply I3]|].
    split; [intros x; rewrite !own_cons; intros [?|?]; [by left|right; by apply I4]|].
    intros Hn x. rewrite !own_cons, (I5 (Hns Hn)). split; [intros [?|?]; [split; [by left|lia]|tauto]|tauto].
  - rewrite sub_l_meet by done. destruct (cut_range_ok a b r Hr ltac:(lia) Hlo Hhi) as (C1 & C2 & C3 & C4).
    destruct ((a <=? lo r) && (hi r <=? b)) eqn:Ec.
    + apply andb_prop in Ec as [E1 E2]. split; [done|]. split; [done|]. split; [intros l [? ?]%list.Forall_cons; by apply I3|].
      split; [intros x Hx; rewrite own_cons; right; by apply I4|].
      intros Hn x. rewrite own_cons, (I5 (Hns Hn)). split; [tauto|]. intros [[?|?] ?]; [lia|tauto].
    + split; [apply (ordered_replace [] r rs _ Ho C1 C2)|]. split; [apply Forall_app; by split; [apply C3|]|].
      split. { intros l [Hl Hl']%list.Forall_cons. apply Forall_app. split; [|done].
        eapply list.Forall_impl; [exact C2|]. cbn. lia. }
      split. { intros x. rewrite own_app, own_cons, (C4 Hur). intros [(_ & ? & _)|?]; [by left|by right]. }
      intros Hn x. rewrite own_app, own_cons, (C4 Hur). split; [|intros [[[_ ?]|?] ?]; tauto].
      intros [(_ & ? & ?)|Hx]; [tauto|]. split; [by right|]. destruct Hx as (r' & Hr' & _ & Hx).
      rewrite list.Forall_forall in Hrs. specialize (Hrs r' Hr'). cbn in Hrs.
      assert (hi r < lo r' -> lo r < a -> b < lo r') by (intros; apply (Hn r r'); [set_solver|set_solver|lia|done]). lia.
  - rewrite sub_l_below. 2: { constructor; [done|]. eapply list.Forall_impl; [exact Hrs|]. cbn. unfold range_ok in Hr. lia. }
    split; [done|]. split; [by constructor|]. do 2 (split; [done|]).
    intros _ x. split; [|tauto]. intros Hx. split; [done|]. apply (own_above _ (lo r - 1)) in Hx; [lia|].
    constructor; [lia|]. eapply list.Forall_impl; [exact Hrs|]. cbn. unfold range_ok in Hr. lia.
Qed.

(** An area in a single range. *)
Lemma sub_l_inside a b rp r rq : 0 <= a <= b -> b < 2 ^ 64 -> ordered (rp ++ r :: rq) -> lo r <= a -> b <= hi r ->
  sub_l a b (rp ++ r :: rq) = rp ++ cut a b r ++ rq.
Proof.
  intros Hab Hb Ho Hlo Hhi. induction rp as [|x rp IH]; cbn [app] in *.
  - rewrite sub_l_meet by (done || lia). destruct ((a <=? lo r) && (hi r <=? b)) eqn:E; [|done].
    apply andb_prop in E as [E1 E2]. unfold cut. rewrite (proj2 (Z.ltb_ge (lo r) a)), (proj2 (Z.ltb_ge b (hi r))) by lia.
    apply ordered_cons in Ho as (_ & Hrs & _). apply sub_l_below. eapply list.Forall_impl; [exact Hrs|]. cbn. lia.
  - apply ordered_cons in Ho as (Hx & Hrs & Ho). apply Forall_app in Hrs as [_ [Hr _]%list.Forall_cons]. unfold range_ok in Hx.
    cbn [sub_l]. rewrite (proj2 (Z.leb_le (lo x) b)), (proj2 (Z.ltb_lt (hi x) a)) by lia. cbn [negb].
    by rewrite IH.
Qed.

(** ** Reserving *)

Lemma share_one_ok a b r : range_ok r -> sh r = false -> a <= b -> lo r <= a -> b <= hi r ->
  ordered (share_one a b r) /\ Forall (fun m => lo r <= lo m /\ hi m <= hi r) (share_one a b r) /\
  (forall f x, own f (share_one a b r) x <-> if f then a <= x <= b else lo r <= x <= hi r /\ ~ a <= x <= b).
Proof.
  unfold range_ok, share_one. intros Hr Hs Hab H1 H2.
  destruct (Z.eqb_spec (lo r) a), (Z.eqb_spec (hi r) b); cbn [app];
    rewrite ?(uwrap_small 64 (a - 1)) by (unfold in_u; lia); rewrite ?(uwrap_small 64 (b + 1)) by (unfold in_u; lia).
  all: split; [repeat (apply ordered_cons; split; [unfold range_ok; cbn; lia|split; [repeat constructor; cbn; lia|]]); apply ordered_nil|].
  all: split; [repeat constructor; cbn; lia|].
  all: intros [] x; autorewrite with cown; cbn; (split; [naive_solver lia|]).
  all: intros ?; destruct (decide (x < a)), (decide (x <= b)); naive_solver lia.
Qed.

(** The range that has all of the addresses is the only one. *)
Lemma find_range a b rs r : a <= b -> ordered rs -> List.find (holds_all a b) rs = Some r ->
  exists rp rq, rs = rp ++ r :: rq /\ lo r <= a /\ b <= hi r /\ range_ok r /\
    (forall f x, a <= x <= b -> ~ own f rp x /\ ~ own f rq x) /\
    Forall (fun r => holds_all a b r = false) rp /\ Forall (fun r => holds_all a b r = false) rq.
Proof.
  intros Hab Ho [Hin Hh]%List.find_some. unfold holds_all in Hh. apply andb_prop in Hh as [H1 H2].
  apply Z.leb_le in H1, H2. apply list_elem_of_In, list_elem_of_split in Hin as (rp & rq & ->). exists rp, rq.
  assert (Hoth : forall f x, a <= x <= b -> ~ own f rp x /\ ~ own f rq x).
  { intros f x Hx. apply (own_other rp r rq); [done|lia]. }
  assert (Hno : forall l, (forall f, ~ own f l a) -> Forall (fun r => holds_all a b r = false) l).
  { intros l Hl. apply list.Forall_forall. intros r' Hr'. destruct (holds_all a b r') eqn:E; [|done].
    unfold holds_all in E. apply andb_prop in E as [E1 E2]. apply Z.leb_le in E1, E2.
    exfalso. apply (Hl (sh r')). exists r'. split; [done|]. split; [done|lia]. }
  do 3 (split; [done|]). split; [apply (ordered_range _ _ Ho); set_solver|]. split; [done|].
  split; apply Hno; intros f; apply Hoth; lia.
Qed.

(** A request succeeds if and only if one range has all of the addresses, and is not
    shared when it is for one user. *)
Lemma reserve_l_spec a b ex rs : 0 <= a <= b -> b < 2 ^ 64 -> ordered rs ->
  match reserve_l a b ex rs with
  | Some rs' => ordered rs' /\
      (forall x, a <= x <= b -> own false rs x \/ (ex = false /\ own true rs x)) /\
      (forall f x, own f rs' x <->
         if ex then own f rs x /\ ~ a <= x <= b
         else if f then own true rs x \/ a <= x <= b else own false rs x /\ ~ a <= x <= b)
  | None => forall r, r ∈ rs -> lo r <= a -> b <= hi r -> ex = true /\ sh r = true
  end.
Proof.
  intros Hab Hb Ho. unfold reserve_l. destruct (List.find (holds_all a b) rs) as [r|] eqn:Ef.
  2: { intros r Hr H1 H2. apply list_elem_of_In in Hr. pose proof (List.find_none _ _ Ef _ Hr) as Hno.
       unfold holds_all in Hno. rewrite (proj2 (Z.leb_le _ _)), (proj2 (Z.leb_le _ _)) in Hno; done. }
  pose proof (List.find_some _ _ Ef) as [_ Hh].
  destruct (find_range a b rs r ltac:(lia) Ho Ef) as (rp & rq & -> & H1 & H2 & Hok & Hoth & Hp & Hq).
  destruct ex; [destruct (sh r) eqn:Es|rewrite share_l_first by done; destruct (sh r) eqn:Es].
  - intros r' Hr' H3 H4. split; [done|].
    assert (Hh' : holds_all a b r' = true) by (unfold holds_all; rewrite (proj2 (Z.leb_le _ _) H3); by apply Z.leb_le).
    rewrite list.Forall_forall in Hp, Hq. apply elem_of_app in Hr' as [Hr'|[->|Hr']%elem_of_cons]; [|done|].
    + specialize (Hp r' Hr'). congruence.
    + specialize (Hq r' Hr'). congruence.
  - rewrite sub_l_inside by done. destruct (cut_range_ok a b r Hok) as (C1 & C2 & _ & C4); [lia..|].
    split; [by eapply ordered_replace|]. split.
    + intros x Hx. left. autorewrite with cown. right; left. split; [done|lia].
    + intros f x. autorewrite with cown. rewrite (C4 Es), Es. pose proof (Hoth f x). naive_solver.
  - split; [done|]. split.
    + intros x Hx. right. split; [done|]. autorewrite with cown. right; left. split; [done|lia].
    + intros [] x; autorewrite with cown; rewrite Es; pose proof (Hoth false x); [|naive_solver].
      split; [naive_solver|]. intros [?|?]; [done|]. right; left. split; [done|lia].
  - destruct (share_one_ok a b r Hok Es) as (C1 & C2 & C4); [lia..|]. split; [by eapply ordered_replace|]. split.
    + intros x Hx. left. autorewrite with cown. right; left. split; [done|lia].
    + intros f x. pose proof (Hoth f x). destruct f; autorewrite with cown; rewrite C4, Es; naive_solver.
Qed.

(** ** Allocating *)

Lemma align_down x k : 0 <= x < 2 ^ 64 -> 0 <= k < 64 ->
  Z.land x (u64 (Z.lnot (2 ^ k - 1))) = x - x mod 2 ^ k.
Proof.
  intros Hx Hk. replace (2 ^ k - 1) with (Z.ones k) by (rewrite Z.ones_equiv; lia).
  assert (E : Z.land x (u64 (Z.lnot (Z.ones k))) = Z.ldiff x (Z.ones k)).
  { apply Z.bits_inj'. intros i Hi. rewrite Z.land_spec, Z.ldiff_spec. unfold uwrap.
    destruct (Z.lt_ge_cases i 64).
    - rewrite Z.mod_pow2_bits_low by lia. by rewrite Z.lnot_spec.
    - assert (Z.testbit x i = false) as ->; [|done]. destruct (decide (x = 0)) as [->|]; [apply Z.bits_0|].
      apply Z.bits_above_log2; [lia|]. apply Z.log2_lt_pow2; [lia|]. pose proof (Z.pow_le_mono_r 2 64 i). lia. }
  rewrite E, Z.ldiff_ones_r, Z.shiftl_mul_pow2, Z.shiftr_div_pow2 by lia.
  pose proof (Z.div_mod x (2 ^ k)). lia.
Qed.

(** The least multiple of [2 ^ k] that is not below [x]. *)
Definition align_up (k x : Z) : Z := x + 2 ^ k - 1 - (x + 2 ^ k - 1) mod 2 ^ k.

Lemma align_up_ok k x : 0 <= k -> (2 ^ k | align_up k x) /\ x <= align_up k x < x + 2 ^ k /\
  (forall y, (2 ^ k | y) -> x <= y -> align_up k x <= y).
Proof.
  intros Hk. assert (0 < 2 ^ k) by (by apply Z.pow_pos_nonneg). unfold align_up.
  pose proof (Z.div_mod (x + 2 ^ k - 1) (2 ^ k) ltac:(lia)) as Hd.
  pose proof (Z.mod_pos_bound (x + 2 ^ k - 1) (2 ^ k) ltac:(lia)) as Hm.
  generalize dependent ((x + 2 ^ k - 1) mod 2 ^ k). intros m Hd Hm.
  generalize dependent ((x + 2 ^ k - 1) / 2 ^ k). intros q Hd.
  assert (E : x + 2 ^ k - 1 - m = 2 ^ k * q) by lia.
  split; [rewrite E; apply Z.divide_factor_l|]. split; [lia|]. intros y [c ->] Hy. rewrite E.
  assert (q < c + 1) by (apply (Z.mul_lt_mono_pos_l (2 ^ k)); lia). rewrite (Z.mul_comm c). apply Z.mul_le_mono_nonneg_l; lia.
Qed.

Definition pool_ok (p : Pool) : Prop := 0 <= p_start p /\ p_end p < 2 ^ 64.

(** The pool can be used for the node. *)
Definition pool_for (node : Z) (p : Pool) : bool := Z.testbit (p_nodes p) node.

(** Where in a range a block of a pool goes: at the first address with the alignment, if
    the block ends in range and pool. *)
Lemma place_spec p size k node lo hi : pool_ok p -> 0 < size -> 0 <= k < 64 -> 0 <= node < 64 ->
  0 <= lo <= hi -> hi + size + 2 ^ k <= 2 ^ 64 ->
  place p size (2 ^ k) node lo hi =
  let st := align_up k (Z.max lo (p_start p)) in
  if pool_for node p && (Z.max lo (p_start p) <? Z.min hi (p_end p)) && (st + size - 1 <=? Z.min hi (p_end p))
  then Some st else None.
Proof.
  unfold pool_ok, pool_for, place. intros Hp Hs Hk Hn Hlh Hlim. assert (0 < 2 ^ k) by (apply Z.pow_pos_nonneg; lia).
  assert (2 ^ node < 2 ^ 64) by (apply Z.pow_lt_mono_r; lia). assert (0 < 2 ^ node) by (apply Z.pow_pos_nonneg; lia).
  rewrite Z.shiftl_1_l, (uwrap_small 64 (2 ^ node)) by (unfold in_u; lia).
  rewrite <- (land_pow2_testbit (p_nodes p) node) by lia.
  destruct (Z.land (p_nodes p) (2 ^ node) =? 0); [done|]. cbn [negb andb].
  assert ((if lo <? p_start p then p_start p else lo) = Z.max lo (p_start p)) as -> by (split_ifs; lia).
  assert ((if p_end p <? hi then p_end p else hi) = Z.min hi (p_end p)) as -> by (split_ifs; lia).
  set (a := Z.max lo (p_start p)). set (b := Z.min hi (p_end p)).
  destruct (Z.leb_spec b a) as [Hba|Hab]; [by rewrite (proj2 (Z.ltb_ge a b) Hba)|].
  rewrite (proj2 (Z.ltb_lt a b) Hab). cbn [andb].
  rewrite (uwrap_small 64 (a + 2 ^ k)), (uwrap_small 64 (2 ^ k - 1)), (uwrap_small 64 (a + 2 ^ k - 1)) by (unfold in_u; lia).
  rewrite align_down by lia. fold (align_up k a). pose proof (align_up_ok k a ltac:(lia)) as (_ & Hst & _).
  set (st := align_up k a) in *. cbv zeta.
  rewrite (uwrap_small 64 (st + size)), (uwrap_small 64 (st + size - 1)) by (unfold in_u; lia).
  destruct (Z.ltb_spec b (st + size - 1)), (Z.leb_spec (st + size - 1) b); (done || lia).
Qed.

(** A block at [st] in a range [r] and a pool that the node may use. *)
Definition fits (ps : list Pool) (size k node : Z) (r : range) (st : Z) : Prop :=
  sh r = false /\ (2 ^ k | st) /\ lo r <= st /\ st + size - 1 <= hi r /\
  exists p, p ∈ ps /\ pool_for node p = true /\ p_start p <= st /\ st + size - 1 <= p_end p.

Section Alloc.
Context (size k node : Z).
Hypothesis (Hsize : 0 < size) (Hk : 0 <= k < 64) (Hnode : 0 <= node < 64).

(** The range is low enough for the arithmetic of the search. *)
Definition low (r : range) : Prop := hi r + size + 2 ^ k <= 2 ^ 64.

Lemma try_l_spec ps r rs : Forall pool_ok ps -> ordered rs -> r ∈ rs -> sh r = false -> low r ->
  match try_l ps size (2 ^ k) node r rs with
  | Some (st, rs') => fits ps size k node r st /\ reserve_l st (st + size - 1) true rs = Some rs'
  | None => 2 <= size -> forall st, ~ fits ps size k node r st
  end.
Proof.
  intros Hps Ho Hr Hs Hlow. pose proof (ordered_range _ _ Ho Hr) as Hok. unfold range_ok, low in *.
  assert (0 < 2 ^ k) by (apply Z.pow_pos_nonneg; lia).
  induction Hps as [|p ps Hp Hps IH]; cbn [try_l]; [intros _ st (_ & _ & _ & _ & p & Hp & _); set_solver|].
  rewrite place_spec by (done || lia). cbv zeta. set (a := Z.max (lo r) (p_start p)).
  set (b := Z.min (hi r) (p_end p)).
  pose proof (align_up_ok k a ltac:(lia)) as (Hdiv & Hst & Hleast).
  destruct (pool_for node p && (a <? b) && (align_up k a + size - 1 <=? b)) eqn:Ef.
  - apply andb_prop in Ef as [[Epf Eab]%andb_prop Efit].
    rewrite (uwrap_small 64 (align_up k a + size)), (uwrap_small 64 (align_up k a + size - 1)) by (unfold in_u; lia).
    assert (Hfit : fits (p :: ps) size k node r (align_up k a)).
    { split; [done|]. split; [done|]. split; [lia|]. split; [lia|]. exists p. split; [set_solver|]. split; [done|lia]. }
    pose proof (reserve_l_spec (align_up k a) (align_up k a + size - 1) true rs ltac:(lia) ltac:(lia) Ho) as Hres.
    destruct (reserve_l _ _ true rs) as [rs'|] eqn:Er; [by rewrite Er|].
    destruct (Hres r Hr ltac:(lia) ltac:(lia)) as [_ Hsr]. congruence.
  - destruct (try_l ps size (2 ^ k) node r rs) as [[st rs']|].
    + destruct IH as [(? & ? & ? & ? & p' & ? & ?) ?]. split; [|done]. do 4 (split; [done|]). exists p'. set_solver.
    + intros H2 st (? & ? & ? & ? & p' & [->|Hp']%elem_of_cons & Epf & ? & ?); [|by apply (IH H2 st); do 4 (split; [done|]); exists p'].
      rewrite Epf in Ef. cbn [andb] in Ef. pose proof (Hleast st ltac:(done) ltac:(lia)).
      rewrite (proj2 (Z.ltb_lt a b)), (proj2 (Z.leb_le (align_up k a + size - 1) b)) in Ef by lia. done.
Qed.

Lemma alloc_find_spec ps rs todo : Forall pool_ok ps -> ordered rs -> Forall low rs ->
  (forall r, r ∈ todo -> r ∈ rs) ->
  match alloc_find ps size (2 ^ k) node todo rs with
  | Some (st, rs') => exists r, r ∈ todo /\ fits ps size k node r st /\ reserve_l st (st + size - 1) true rs = Some rs'
  | None => 2 <= size -> forall r st, r ∈ todo -> ~ fits ps size k node r st
  end.
Proof.
  intros Hps Ho Hlow. induction todo as [|r todo IH]; intros Hin; cbn [alloc_find]; [set_solver|].
  specialize (IH ltac:(set_solver)). pose proof (Hin r ltac:(set_solver)) as Hr.
  destruct (sh r) eqn:Es.
  - destruct (alloc_find ps size (2 ^ k) node todo rs) as [[st rs']|].
    + destruct IH as (r' & ? & ?). exists r'. set_solver.
    + intros H2 r' st [->|Hr']%elem_of_cons; [intros [? _]; congruence|by apply IH].
  - assert (low r) by (rewrite list.Forall_forall in Hlow; by apply Hlow).
    pose proof (try_l_spec ps r rs Hps Ho Hr Es ltac:(done)) as Ht.
    destruct (try_l ps size (2 ^ k) node r rs) as [[st rs']|]; [exists r; split; [set_solver|done]|].
    destruct (alloc_find ps size (2 ^ k) node todo rs) as [[st rs']|].
    + destruct IH as (r' & ? & ?). exists r'. set_solver.
    + intros H2 r' st [->|Hr']%elem_of_cons; [by apply Ht|by apply IH].
Qed.

Definition eff_pools (ps : list Pool) : list Pool := match ps with [] => [whole_ram] | _ => ps end.

(** An allocation takes a block of free memory that has the size, the alignment and a
    pool asked for, and fails only if there is none. *)
Lemma alloc_l_spec ps rs : Forall pool_ok ps -> ordered rs -> Forall low rs ->
  match alloc_l ps size (2 ^ k) node rs with
  | Some (st, rs') => (exists r, r ∈ rs /\ fits (eff_pools ps) size k node r st) /\ ordered rs' /\
      (forall x, st <= x <= st + size - 1 -> own false rs x) /\
      (forall f x, own f rs' x <-> own f rs x /\ ~ st <= x <= st + size - 1)
  | None => 2 <= size -> forall r st, r ∈ rs -> ~ fits (eff_pools ps) size k node r st
  end.
Proof.
  intros Hps Ho Hlow. unfold alloc_l. fold (eff_pools ps).
  assert (Hps' : Forall pool_ok (eff_pools ps)).
  { destruct ps; [|done]. constructor; [unfold pool_ok; cbn; lia|constructor]. }
  pose proof (alloc_find_spec (eff_pools ps) rs rs Hps' Ho Hlow ltac:(done)) as Ha.
  destruct (alloc_find _ size (2 ^ k) node rs rs) as [[st rs']|]; [|done].
  destruct Ha as (r & Hr & Hf & Hres). split; [by exists r|].
  pose proof Hf as (_ & _ & Hlo & Hhi & _). pose proof (ordered_range _ _ Ho Hr) as Hok. unfold range_ok in Hok.
  pose proof (reserve_l_spec st (st + size - 1) true rs ltac:(lia) ltac:(lia) Ho) as Hsp. rewrite Hres in Hsp.
  destruct Hsp as (H1 & H2 & H3). split; [done|]. split; [|done]. intros x Hx. destruct (H2 x Hx) as [?|[? _]]; done.
Qed.
End Alloc.

(** ** [Page_alloc] *)

(** The types of memory descriptors that the code tells apart; [Other] is any of the
    remaining ones. *)
Inductive Mem_type := Undefined | Conventional | Info | Arch | Shared | Other.

#[export] Instance Mem_type_eq : EqDecision Mem_type.
Proof. solve_decision. Defined.

(** [L4::Kip::Mem_desc]; the end is inclusive. *)
Record Mem_desc := { md_virtual : bool; md_type : Mem_type; md_start : Z; md_end : Z }.

(** The tracker and the list of pools. *)
Record ram := { r_heap : heap; pool : list Pool }.

Definition on_heap {A} (m : prog heap A) : prog ram A := fun s =>
  let '(h, r) := m (r_heap s) in ({| r_heap := h; pool := pool s |}, r).

Section Page_alloc.
Context `{!L4_round 64} (heap_end junk list_ slab : Z).

(** The pages of a descriptor: usable memory loses the pages it covers in part, other
    memory covers them. *)
Definition page_range (md : Mem_desc) : Z * Z :=
  if decide (md_type md = Conventional)
  then (l4_round_page (md_start md), l4_trunc_page (md_end md +[64] 1) -[64] 1)
  else (l4_trunc_page (md_start md), l4_round_page (md_end md +[64] 1) -[64] 1).

(** [Page_alloc::init] *)
Fixpoint init (mds : list Mem_desc) : prog heap unit :=
  match mds with
  | [] => mret tt
  | md :: mds =>
      if md_virtual md then init mds
      else
        let '(st, en) := page_range md in
        (match md_type md with
         | Conventional => add heap_end junk list_ slab st en
         | Undefined => mret tt
         | _ => sub heap_end junk list_ slab st en
         end) ≫= fun _ => init mds
  end.

Definition sizeof_Pool : Z := 32.

Definition push_pool (p : Pool) : prog ram unit := fun s => ({| r_heap := r_heap s; pool := p :: pool s |}, Ret tt).

(** [Page_alloc::add_pool] *)
Definition add_pool (address size nodes : Z) : prog ram unit :=
  on_heap (malloc heap_end sizeof_Pool) ≫= fun _ =>
  push_pool {| p_start := address; p_end := address +[64] size -[64] 1; p_nodes := nodes |}.

(** [Page_alloc::alloc_ram] *)
Definition alloc_ram (size align node : Z) : prog ram Z := fun s =>
  on_heap (alloc heap_end junk list_ slab (pool s) size align node) s.

(** [Page_alloc::reserve_ram] *)
Definition reserve_ram (address size : Z) : prog ram bool :=
  on_heap (reserve heap_end junk list_ slab address (address +[64] size -[64] 1) true).

(** [Page_alloc::share_ram] *)
Definition share_ram (address size : Z) : prog ram bool :=
  on_heap (reserve heap_end junk list_ slab address (address +[64] size -[64] 1) false).

(** The pages [Page_alloc::map_iomem] compares a device area with: those of memory in
    use, without the kinds of memory that do not count. *)
Definition io_range (md : Mem_desc) : option (Z * Z) :=
  if md_virtual md then None
  else match md_type md with Info | Arch | Shared => None | _ => Some (page_range md) end.

(** [Page_alloc::map_iomem] *)
Definition map_iomem (mds : list Mem_desc) (address size : Z) : bool :=
  let io_start := l4_trunc_page address in
  let io_end := l4_round_page (address +[64] size -[64] 1) -[64] 1 in
  forallb (fun md => match io_range md with
                     | None => true
                     | Some (s, e) => negb ((s <=? io_end) && (io_start <=? e))
                     end) mds.

(** ** From the descriptors to the free memory *)

Fixpoint init_l (mds : list Mem_desc) (rs : list range) : option (list range) :=
  match mds with
  | [] => Some rs
  | md :: mds =>
      if md_virtual md then init_l mds rs
      else
        let '(st, en) := page_range md in
        match md_type md with
        | Conventional => rs ← add_l st en rs; init_l mds rs
        | Undefined => init_l mds rs
        | _ => init_l mds (sub_l st en rs)
        end
  end.

(** No reserved area, when it comes up, cuts the end of a range and reaches into another. *)
Fixpoint no_straddles (mds : list Mem_desc) (rs : list range) : Prop :=
  match mds with
  | [] => True
  | md :: mds =>
      if md_virtual md then no_straddles mds rs
      else
        let '(st, en) := page_range md in
        match md_type md with
        | Conventional => match add_l st en rs with Some rs => no_straddles mds rs | None => True end
        | Undefined => no_straddles mds rs
        | _ => no_straddle st en rs /\ no_straddles mds (sub_l st en rs)
        end
  end.

(** The free addresses, as the descriptors say: one after the other adds and takes. *)
Fixpoint usable (mds : list Mem_desc) (P : Z -> Prop) (x : Z) : Prop :=
  match mds with
  | [] => P x
  | md :: mds =>
      if md_virtual md then usable mds P x
      else
        let '(st, en) := page_range md in
        match md_type md with
        | Conventional => usable mds (fun x => P x \/ st <= x <= en) x
        | Undefined => usable mds P x
        | _ => usable mds (fun x => P x /\ ~ st <= x <= en) x
        end
  end.

(** The pages of the descriptors are ranges. *)
Definition md_ok (md : Mem_desc) : Prop :=
  md_virtual md = false -> 0 <= (page_range md).1 <= (page_range md).2 /\ (page_range md).2 < 2 ^ 64.

Lemma usable_iff mds P Q x : (forall y, P y <-> Q y) -> usable mds P x <-> usable mds Q x.
Proof.
  revert P Q. induction mds as [|md mds IH]; intros P Q H; cbn [usable]; [apply H|].
  destruct (md_virtual md); [by apply IH|]. destruct (page_range md) as [st en].
  destruct (md_type md); apply IH; intros y; rewrite ?H; done.
Qed.

Lemma usable_mono mds (P Q : Z -> Prop) x : (forall y, P y -> Q y) -> usable mds P x -> usable mds Q x.
Proof.
  revert P Q. induction mds as [|md mds IH]; intros P Q H; cbn [usable]; [apply H|].
  destruct (md_virtual md); [by apply IH|]. destruct (page_range md) as [st en].
  destruct (md_type md); apply IH; intros y; naive_solver.
Qed.

Lemma add_l_unshared a b rs rs' : unshared rs -> add_l a b rs = Some rs' -> unshared rs'.
Proof.
  unfold add_l. destruct (spot_l a b rs 0 0) as [k|]; [|done]. cbn. intros Hu [= <-].
  apply Forall_app. split; [by apply Forall_take|]. constructor; [done|by apply Forall_drop].
Qed.

(** What [init] makes of the ranges [rs]. *)
Record init_post (mds : list Mem_desc) (rs rs' : list range) : Prop := {
  ip_ordered : ordered rs';
  ip_unshared : unshared rs';
  ip_usable x : no_straddles mds rs -> own false rs' x <-> usable mds (own false rs) x;
  ip_conventional x : own false rs' x -> own false rs x \/
    exists md, md ∈ mds /\ md_virtual md = false /\ md_type md = Conventional /\ (page_range md).1 <= x <= (page_range md).2;
}.

(** The steps of [init] on the list. *)
Lemma init_post_skip md mds rs rs' : md_virtual md = true \/ md_type md = Undefined ->
  init_post mds rs rs' -> init_post (md :: mds) rs rs'.
Proof.
  intros Hmd [? ? Hus Hco]. split; [done|done| |].
  - intros x. cbn [no_straddles usable]. destruct (md_virtual md); [by apply Hus|]. destruct Hmd as [Hmd|Hmd]; [done|rewrite Hmd].
    destruct (page_range md). apply Hus.
  - intros x Hx. destruct (Hco x Hx) as [?|(md' & ? & ?)]; [by left|right; exists md'; set_solver].
Qed.

Lemma init_post_add md mds rs rs1 rs' : md_ok md -> ordered rs -> md_virtual md = false -> md_type md = Conventional ->
  add_l (page_range md).1 (page_range md).2 rs = Some rs1 -> init_post mds rs1 rs' -> init_post (md :: mds) rs rs'.
Proof.
  intros Hmd Ho Hv Ht Ha [? ? Hus Hco]. destruct (Hmd Hv) as [H1 H2].
  pose proof (add_l_spec _ _ rs Ho H1 H2) as Hs. rewrite Ha in Hs. destruct Hs as (_ & Hown & _).
  split; [done|done| |].
  - intros x. cbn [no_straddles usable]. rewrite Hv, Ht. destruct (page_range md) as [st en] eqn:Ep. cbn [fst snd] in *.
    rewrite Ha. intros Hn. rewrite (Hus x Hn). apply usable_iff. intros y. rewrite Hown. tauto.
  - intros x Hx. destruct (Hco x Hx) as [Hx1|(md' & ? & ?)]; [|right; exists md'; set_solver].
    apply Hown in Hx1 as [?|[_ ?]]; [by left|right]. exists md. split; [set_solver|done].
Qed.

Lemma init_post_sub md mds rs rs' : md_ok md -> ordered rs -> unshared rs -> md_virtual md = false ->
  md_type md <> Conventional -> md_type md <> Undefined ->
  init_post mds (sub_l (page_range md).1 (page_range md).2 rs) rs' -> init_post (md :: mds) rs rs'.
Proof.
  intros Hmd Ho Hu Hv Ht1 Ht2 [? ? Hus Hco]. destruct (Hmd Hv) as [H1 H2].
  destruct (sub_l_spec _ _ rs H1 H2 Ho Hu) as (_ & _ & _ & Hless & Hex).
  split; [done|done| |].
  - intros x. cbn [no_straddles usable]. rewrite Hv. destruct (page_range md) as [st en] eqn:Ep. cbn [fst snd] in *.
    destruct (md_type md); try done; intros [Hn Hns]; rewrite (Hus x Hns); apply usable_iff; by apply Hex.
  - intros x Hx. destruct (Hco x Hx) as [Hx1|(md' & ? & ?)]; [left; by apply Hless|right; exists md'; set_solver].
Qed.

Lemma init_l_spec mds : Forall md_ok mds -> forall rs rs', ordered rs -> unshared rs -> init_l mds rs = Some rs' ->
  init_post mds rs rs'.
Proof.
  induction 1 as [|md mds Hmd _ IH]; intros rs rs' Ho Hu; cbn [init_l].
  { intros [= ->]. split; [done|done|done|]. tauto. }
  destruct (md_virtual md) eqn:Hv; [intros; apply init_post_skip; [by left|by apply IH]|].
  destruct (Hmd Hv) as [H1 H2]. destruct (sub_l_spec _ _ rs H1 H2 Ho Hu) as (S1 & S2 & _).
  destruct (page_range md) as [st en] eqn:Ep. cbn [fst snd] in *.
  destruct (md_type md) eqn:Ht; [intros; apply init_post_skip; [by right|by apply IH]|..].
  2-5: intros; apply init_post_sub; rewrite ?Ep, ?Ht; try done; by apply IH.
  pose proof (add_l_spec st en rs Ho H1 H2) as Ha. destruct (add_l st en rs) as [rs1|] eqn:Ea; [|done]. cbn.
  intros Hi. eapply init_post_add; [done|done|done|done|by rewrite Ep|]. apply IH; [apply Ha| |done].
  exact (add_l_unshared st en rs rs1 Hu Ea).
Qed.

(** [init] on the ring. *)
Lemma init_ring_ok mds : forall rs s, reps heap_end list_ slab rs s ->
  wp heap_end (init_l mds rs = None) (init mds)
    (fun _ s' => exists rs', init_l mds rs = Some rs' /\ reps heap_end list_ slab rs' s') s.
Proof.
  induction mds as [|md mds IH]; intros rs s H; cbn [init init_l]; [eapply wp_run; [done|]; by exists rs|].
  destruct (md_virtual md); [by apply IH|]. destruct (page_range md) as [st en].
  destruct (md_type md); [| |eapply wp_bind; [by apply sub_ok|intros ? s1 H1; by apply IH]..].
  - eapply wp_step; [done|]. by apply IH.
  - eapply wp_bind; [eapply wp_mono; [by apply add_ok| |intros ? ? HQ; exact HQ]|]; cbn beta.
    + by intros ->.
    + intros ? s1 (rs1 & -> & H1). by apply IH.
Qed.
(** ** The users of the memory *)

(** What the parts of the task ask for while they set up applications; an alignment is a
    power of two. *)
Inductive call :=
  | C_pool (address size nodes : Z)
  | C_alloc (size k node : Z)
  | C_reserve (address size : Z)
  | C_share (address size : Z).

(** Memory that a call got: first and last address, and whether it is for one user. *)
Abbreviation grant := (Z * Z * bool)%type.

Definition gets (x : Z) (g : grant) : Prop := g.1.1 <= x <= g.1.2.

(** The callers take the address 0 for a failure. *)
Definition do_call (c : call) : prog ram (option grant) :=
  match c with
  | C_pool address size nodes => add_pool address size nodes ≫= fun _ => mret None
  | C_alloc size k node =>
      st ← alloc_ram size (2 ^ k) node;
      mret (if st =? 0 then None else Some (st, st + size - 1, true))
  | C_reserve address size =>
      ok ← reserve_ram address size;
      mret (if ok : bool then Some (address, address + size - 1, true) else None)
  | C_share address size =>
      ok ← share_ram address size;
      mret (if ok : bool then Some (address, address + size - 1, false) else None)
  end.

Fixpoint do_calls (cs : list call) : prog ram (list grant) :=
  match cs with
  | [] => mret []
  | c :: cs => g ← do_call c; gs ← do_calls cs; mret (option_list g ++ gs)
  end.

(** All memory is below [limit], and the sizes leave room for the arithmetic. *)
Definition call_ok (limit : Z) (c : call) : Prop :=
  match c with
  | C_pool address size nodes => 0 <= address /\ 0 < size /\ address + size <= 2 ^ 64
  | C_alloc size k node => 0 < size /\ 0 <= k < 64 /\ 0 <= node < 64 /\ limit + size + 2 ^ k <= 2 ^ 64
  | C_reserve address size | C_share address size => 0 <= address /\ 0 < size /\ address + size <= 2 ^ 64
  end.

(** The state of the tracker between calls. *)
Record tracks (limit : Z) (rs : list range) (s : ram) : Prop := {
  tr_reps : reps heap_end list_ slab rs (r_heap s);
  tr_ordered : ordered rs;
  tr_limit : Forall (fun r => hi r < limit) rs;
  tr_pools : Forall pool_ok (pool s);
}.

Lemma own_both rs x : ordered rs -> own true rs x -> own false rs x -> False.
Proof.
  intros Ho (r & Hr & Hs & Hx) (r' & Hr' & Hs' & Hx'). apply list_elem_of_split in Hr as (rp & rq & ->).
  destruct (own_other rp r rq false x Ho Hx) as [Hp Hq].
  apply elem_of_app in Hr' as [Hr'|[->|Hr']%elem_of_cons]; [apply Hp; by exists r'|congruence|apply Hq; by exists r'].
Qed.

Lemma limit_less limit rs rs' : ordered rs' -> (forall f x, own f rs' x -> exists f', own f' rs x) ->
  Forall (fun r => hi r < limit) rs -> Forall (fun r => hi r < limit) rs'.
Proof.
  intros Ho Hown Hl. apply list.Forall_forall. intros r Hr. pose proof (ordered_range _ _ Ho Hr) as Hok. unfold range_ok in Hok.
  destruct (Hown (sh r) (hi r)) as (f & r0 & Hr0 & _ & ?); [exists r; split; [done|]; split; [done|lia]|].
  rewrite list.Forall_forall in Hl. specialize (Hl r0 Hr0). cbn in Hl. lia.
Qed.

(** What a call that got [g] does to the ranges. *)
Definition granted (g : option grant) (rs rs' : list range) : Prop :=
  (forall x, own false rs' x -> own false rs x) /\ (forall f x, own f rs' x -> exists f', own f' rs x) /\
  match g with
  | None => True
  | Some g => forall x, gets x g -> if g.2 then own false rs x /\ (forall f, ~ own f rs' x)
                                  else (exists f, own f rs x) /\ own true rs' x
  end.

(** A computation on the tracker that ends or finds the heap exhausted. *)
Definition wp_ram {A} (m : prog ram A) (Q : A -> ram -> Prop) (s : ram) : Prop :=
  match m s with
  | (s', Ret a) => Q a s'
  | (s', Panicked) => heap_end < heap_pos (r_heap s')
  | _ => False
  end.

Lemma wp_on_heap {A} (m : prog heap A) Q s :
  wp heap_end False m (fun a h => Q a {| r_heap := h; pool := pool s |}) (r_heap s) -> wp_ram (on_heap m) Q s.
Proof. unfold wp, wp_ram, on_heap. destruct (m (r_heap s)) as [h [a| | | | |]]; cbn; try done. by intros [?|[]]. Qed.

Lemma wp_ram_bind {A B} (m : prog ram A) (f : A -> prog ram B) R Q s :
  wp_ram m R s -> (forall a s', R a s' -> wp_ram (f a) Q s') -> wp_ram (m ≫= f) Q s.
Proof. unfold wp_ram, mbind, prog_bind. destruct (m s) as [s' [a| | | | |]]; try done. intros H HQ. by apply HQ. Qed.

(** A block of the heap that no ring knows of. *)
Lemma malloc_reps size rs h : 0 <= size <= 32 -> reps heap_end list_ slab rs h ->
  wp heap_end False (malloc heap_end size) (fun _ h' => reps heap_end list_ slab rs h') h.
Proof.
  intros Hs (xs & ys & [? ? ? ? Hh [Hp He]]). unfold wp, malloc.
  assert (Hsz : 0 <= Z.land (size +[64] 7) (u64 (Z.lnot 7)) <= 39).
  { rewrite (uwrap_small 64 (size + 7)) by (unfold in_u; lia). split; [apply Z.land_nonneg; left; lia|].
    change 7 with (2 ^ 3 - 1). rewrite align_down by lia. pose proof (Z.mod_pos_bound (size + (2 ^ 3 - 1)) (2 ^ 3)). lia. }
  set (sz := Z.land _ _) in *. rewrite (uwrap_small 64 (heap_pos h + sz)) by (unfold in_u; lia).
  destruct (Z.ltb_spec heap_end (heap_pos h + sz)); [by left|]. exists xs, ys. split; cbn [mem heap_pos]; try done.
  - intros x Hx%Hh. lia.
  - lia.
Qed.

Lemma granted_none rs : granted None rs rs.
Proof. split; [done|]. split; [|done]. intros f x ?. by exists f. Qed.

(** Both kinds of reservation. *)
Lemma reserve_call limit rs s address size ex : tracks limit rs s -> 0 <= address -> 0 < size -> address + size <= 2 ^ 64 ->
  wp_ram (on_heap (reserve heap_end junk list_ slab address (address +[64] size -[64] 1) ex))
    (fun ok s' => exists rs', tracks limit rs' s' /\
       granted (if ok : bool then Some (address, address + size - 1, ex) else None) rs rs') s.
Proof.
  intros [Hreps Ho Hl Hp] Ha Hs Hlim. apply wp_on_heap.
  eapply wp_mono; [by apply reserve_ok|done|]. cbn beta.
  assert ((address +[64] size) -[64] 1 = address + size - 1) as ->.
  { unfold uwrap. rewrite Zminus_mod_idemp_l. apply Z.mod_small. lia. }
  pose proof (reserve_l_spec address (address + size - 1) ex rs ltac:(lia) ltac:(lia) Ho) as Hr.
  destruct (reserve_l _ _ ex rs) as [rs'|]; intros ok h [-> Hh].
  2: { subst h. exists rs. split; [by split|apply granted_none]. }
  destruct Hr as (Ho' & Hin & Hown). exists rs'.
  assert (Hmono : forall f x, own f rs' x -> exists f', own f' rs x).
  { intros f x Hx%Hown. destruct ex; [exists f; tauto|]. destruct f; [|exists false; tauto].
    destruct Hx as [?|Hx]; [by exists true|]. destruct (Hin x Hx) as [?|[_ ?]]; by eexists. }
  split; [split; [done|done|by eapply limit_less|done]|]. split; [|split; [exact Hmono|]].
  - intros x Hx%Hown. destruct ex; tauto.
  - intros x Hx. unfold gets in Hx. cbn [fst snd] in *. pose proof (Hin x Hx) as Hx'.
    destruct ex; [split; [naive_solver|intros f Hf%Hown; tauto]|split; [naive_solver|apply Hown; tauto]].
Qed.

Lemma alloc_call limit rs s size k node : tracks limit rs s -> call_ok limit (C_alloc size k node) ->
  wp_ram (alloc_ram size (2 ^ k) node)
    (fun st s' => exists rs', tracks limit rs' s' /\
       granted (if st =? 0 then None else Some (st, st + size - 1, true)) rs rs') s.
Proof.
  intros [Hreps Ho Hl Hp] (Hs & Hk & Hn & Hlim).
  change (wp_ram (on_heap (alloc heap_end junk list_ slab (pool s) size (2 ^ k) node))
    (fun st s' => exists rs', tracks limit rs' s' /\
       granted (if st =? 0 then None else Some (st, st + size - 1, true)) rs rs') s).
  apply wp_on_heap. eapply wp_mono; [by apply alloc_ok|done|]. cbn beta.
  assert (Hlow : Forall (low size k) rs) by (eapply list.Forall_impl; [exact Hl|]; unfold low; cbn; lia).
  pose proof (alloc_l_spec size k node Hs Hk Hn (pool s) rs Hp Ho Hlow) as Ha.
  destruct (alloc_l (pool s) size (2 ^ k) node rs) as [[st rs']|]; intros res h [-> Hh].
  2: { subst h. exists rs. split; [by split|apply granted_none]. }
  destruct Ha as (_ & Ho' & Hin & Hown). exists rs'.
  assert (Hmono : forall f x, own f rs' x -> exists f', own f' rs x) by (intros f x Hx%Hown; exists f; tauto).
  split; [split; [done|done|by eapply limit_less|done]|]. split; [intros x Hx%Hown; tauto|]. split; [exact Hmono|].
  destruct (st =? 0); [done|]. intros x Hx. unfold gets in Hx. cbn [fst snd] in *.
  split; [by apply Hin|]. intros f Hf%Hown. tauto.
Qed.

Lemma do_call_ok limit c rs s : tracks limit rs s -> call_ok limit c ->
  wp_ram (do_call c) (fun g s' => exists rs', tracks limit rs' s' /\ granted g rs rs') s.
Proof.
  intros Ht Hc. destruct c as [address size nodes|size k node|address size|address size]; cbn [do_call call_ok] in *.
  - eapply wp_ram_bind with (R := fun _ s' => tracks limit rs s'); [|intros ? s1 H1; exists rs; split; [done|apply granted_none]].
    destruct Ht as [Hreps Ho Hl Hp]. unfold add_pool.
    apply wp_ram_bind with (R := fun _ s' => reps heap_end list_ slab rs (r_heap s') /\ Forall pool_ok (pool s')).
    { apply wp_on_heap. eapply wp_mono; [apply malloc_reps; [unfold sizeof_Pool; lia|exact Hreps]|done|done]. }
    intros ? s1 [H1 H2]. split; cbn [r_heap pool]; [done|done|done|]. constructor; [|done].
    unfold pool_ok. cbn [p_start p_end]. pose proof (uwrap_range 64 ((address +[64] size) - 1) ltac:(lia)). unfold in_u in *. lia.
  - eapply wp_ram_bind; [exact (alloc_call limit rs s size k node Ht Hc)|]. intros st s1 H1. exact H1.
  - eapply wp_ram_bind; [apply (reserve_call limit rs s address size true Ht); tauto|]. intros ok s1 H1. exact H1.
  - eapply wp_ram_bind; [apply (reserve_call limit rs s address size false Ht); tauto|]. intros ok s1 H1. exact H1.
Qed.

(** Two grants have no address in common, unless both are shared. *)
Definition apart (g g' : grant) : Prop := (g.2 || g'.2) = true -> forall x, gets x g -> gets x g' -> False.

Lemma do_calls_ok limit cs : Forall (call_ok limit) cs -> forall rs s, tracks limit rs s ->
  wp_ram (do_calls cs)
    (fun gs s' => (exists rs', tracks limit rs' s') /\ ForallOrdPairs apart gs /\
       forall g x, g ∈ gs -> gets x g -> if g.2 : bool then own false rs x else exists f, own f rs x) s.
Proof.
  induction 1 as [|c cs Hc _ IH]; intros rs s Ht; cbn [do_calls].
  { split; [by exists rs|]. split; [constructor|]. intros g x Hg. set_solver. }
  eapply wp_ram_bind; [by apply (do_call_ok limit c rs)|]. intros g s1 (rs1 & Ht1 & H1 & H2 & H3).
  eapply wp_ram_bind; [by apply (IH rs1)|]. intros gs s2 (Hrs2 & Hpairs & Hgs).
  split; [done|]. assert (Hback : forall g' x, g' ∈ gs -> gets x g' -> if g'.2 : bool then own false rs x else exists f, own f rs x).
  { intros g' x Hg' Hx. specialize (Hgs g' x Hg' Hx). destruct g'.2; [by apply H1|]. destruct Hgs as [f Hf]. by eapply H2. }
  destruct g as [g|]; cbn [option_list app]; [|done]. split.
  - constructor; [|done]. apply list.Forall_forall. intros g' Hg' Hex x Hx Hx'. specialize (H3 x Hx).
    specialize (Hgs g' x Hg' Hx'). destruct g.2; [|destruct g'.2; [|done]].
    + destruct H3 as [_ Hno]. destruct g'.2; [by eapply Hno|]. destruct Hgs as [f Hf]. by eapply Hno.
    + destruct H3 as [_ Htr]. by apply (own_both rs1 x); [apply (tr_ordered _ _ _ Ht1)|..].
  - intros g' x [->|Hg']%elem_of_cons Hx; [|by apply Hback]. specialize (H3 x Hx). destruct g.2; naive_solver.
Qed.

(** ** A run of the task *)

(** The static objects lie outside of the heap. *)
Record heap_ok (pos : Z) : Prop := {
  ho_rings : list_ <> slab;
  ho_pos : 0 <= pos <= heap_end /\ heap_end + 40 < 2 ^ 64;
  ho_list : ~ pos <= list_ < heap_end;
  ho_slab : ~ pos <= slab < heap_end;
}.

Definition conventional_at (mds : list Mem_desc) (x : Z) : Prop :=
  exists md, md ∈ mds /\ md_virtual md = false /\ md_type md = Conventional /\ (page_range md).1 <= x <= (page_range md).2.

(** The start of the task and the calls of its parts. *)
Definition run_task (mds : list Mem_desc) (cs : list call) : prog ram (list grant) :=
  on_heap (init mds) ≫= fun _ => do_calls cs.

Lemma init_tracks limit mds rs h : Forall md_ok mds -> (forall x, conventional_at mds x -> x < limit) ->
  init_l mds [] = Some rs -> reps heap_end list_ slab rs h -> tracks limit rs {| r_heap := h; pool := [] |}.
Proof.
  intros Hmd Hl Hi Hr. destruct (init_l_spec mds Hmd [] rs ordered_nil ltac:(constructor) Hi) as [Ho Hu _ Hc].
  split; cbn [r_heap pool]; [done|done| |constructor]. apply list.Forall_forall. intros r Hrr. apply Hl.
  pose proof (ordered_range _ _ Ho Hrr) as Hok. unfold range_ok in Hok. rewrite list.Forall_forall in Hu.
  destruct (Hc (hi r)) as [H0|H0]; [|by apply own_nil in H0|exact H0].
  exists r. split; [done|]. split; [by apply Hu|lia].
Qed.


(** An allocation: a block of the size, with the alignment, in a pool of the node, is
    taken from the free memory and nothing else is; 0 means that there is no such block
    (or that it is the one at address 0). *)
Theorem alloc_ram_spec limit rs s size k node : tracks limit rs s -> call_ok limit (C_alloc size k node) ->
  match alloc_ram size (2 ^ k) node s with
  | (s', Ret st) =>
      ((exists r, r ∈ rs /\ fits (eff_pools (pool s)) size k node r st) /\
       exists rs', tracks limit rs' s' /\ (forall x, st <= x <= st + size - 1 -> own false rs x) /\
         forall f x, own f rs' x <-> own f rs x /\ ~ st <= x <= st + size - 1) \/
      (st = 0 /\ s' = s /\ (2 <= size -> forall r st', r ∈ rs -> ~ fits (eff_pools (pool s)) size k node r st'))
  | (s', Panicked) => heap_end < heap_pos (r_heap s')
  | _ => False
  end.
Proof.
  intros [Hreps Ho Hl Hp] (Hs & Hk & Hn & Hlim).
  assert (Hlow : Forall (low size k) rs) by (eapply list.Forall_impl; [exact Hl|]; unfold low; cbn; lia).
  pose proof (alloc_l_spec size k node Hs Hk Hn (pool s) rs Hp Ho Hlow) as Ha.
  pose proof (alloc_ok heap_end junk list_ slab False (pool s) size (2 ^ k) node rs (r_heap s) Hreps) as Hw.
  unfold wp in Hw. unfold alloc_ram, on_heap.
  destruct (alloc heap_end junk list_ slab (pool s) size (2 ^ k) node (r_heap s)) as [h [st| | | | |]]; cbn [r_heap]; try done;
    [|by destruct Hw].
  destruct (alloc_l (pool s) size (2 ^ k) node rs) as [[st' rs']|]; destruct Hw as [-> Hh].
  - destruct Ha as (Hf & Ho' & Hin & Hown). left. split; [done|]. exists rs'. split; [|done].
    split; [done|done| |done]. eapply limit_less; [done| |exact Hl]. intros f x Hx%Hown. exists f. tauto.
  - right. subst h. split; [done|]. split; [by destruct s|done].
Qed.

(** Device memory: an area is accepted if and only if none of its pages is in use, as
    long as its last byte is not the first one of a page. *)
Theorem map_iomem_spec mds address size : 0 <= address -> 0 < size -> address + size + l4_pagesize <= 2 ^ 64 ->
  (address + size - 1) mod l4_pagesize <> 0 ->
  map_iomem mds address size = true <->
  forall md s e, md ∈ mds -> io_range md = Some (s, e) ->
    e < l4_trunc_page address \/ l4_trunc_page (address + size - 1) + l4_pagesize <= s.
Proof.
  intros Ha Hs Hlim Hmod. pose proof l4_pageshift_ok as Hps. pose proof pagesize_pos as Hpp.
  unfold map_iomem. rewrite uwrap_sub_l, (uwrap_small 64 (address + size - 1)) by (unfold in_u; lia).
  assert (Hv : 0 <= address + size - 1 /\ address + size - 1 + l4_pagesize < 2 ^ 64) by lia.
  set (v := address + size - 1) in *. unfold l4_pagesize in *.
  assert (HP : 0 < 2 ^ l4_pageshift) by (apply Z.pow_pos_nonneg; lia).
  assert (Hr : l4_round_page v = l4_trunc_page v + 2 ^ l4_pageshift).
  { unfold l4_round_page, l4_trunc_page. rewrite l4_round_size_spec by (unfold in_u; lia).
    rewrite !l4_trunc_size_spec by (unfold in_u; lia). pose proof (Z.mod_pos_bound v (2 ^ l4_pageshift) HP).
    replace (v + 2 ^ l4_pageshift - 1) with (v - 1 + 1 * 2 ^ l4_pageshift) by lia. rewrite Z.mod_add by lia.
    assert ((v - 1) mod 2 ^ l4_pageshift = v mod 2 ^ l4_pageshift - 1); [|lia].
    symmetry. apply (Z.mod_unique _ _ (v / 2 ^ l4_pageshift)); [lia|].
    rewrite (Z.div_mod v (2 ^ l4_pageshift)) at 1 by lia. ring. }
  destruct (trunc_size_bounds v l4_pageshift) as (Ht & Ht0 & _); [unfold in_u; lia|lia|]. fold (l4_trunc_page v) in *.
  rewrite Hr, (uwrap_small 64) by (unfold in_u; lia). rewrite forallb_forall. split.
  - intros Hall md s e Hin Hio. apply list_elem_of_In, Hall in Hin. rewrite Hio in Hin.
    apply negb_true_iff, andb_false_iff in Hin. rewrite !Z.leb_gt in Hin. lia.
  - intros Hall md Hin%list_elem_of_In. destruct (io_range md) as [[s e]|] eqn:Hio; [|done].
    apply negb_true_iff, andb_false_iff. rewrite !Z.leb_gt. specialize (Hall md s e Hin Hio). lia.
Qed.

End Page_alloc.

(** ** Examples *)

Module Page_example.
Local Existing Instance round64.

Definition conv (a b : Z) : Mem_desc := {| md_virtual := false; md_type := Conventional; md_start := a; md_end := b |}.
Definition resv (a b : Z) : Mem_desc := {| md_virtual := false; md_type := Other; md_start := a; md_end := b |}.

(** Two areas of memory, of which a part of the first is in use. *)
Definition mds : list Mem_desc := [conv 0x1000 0x8fff; conv 0x20000 0x2ffff; resv 0x2100 0x2fff].

Definition calls : list call :=
  [C_pool 0x20000 0x8000 1; C_alloc 0x2000 14 0; C_reserve 0x1000 0x1000; C_share 0x4000 0x1000; C_share 0x4000 0x1000;
   C_reserve 0x4000 0x1000].

Definition start0 : ram := {| r_heap := ram_start 0x10 0x40 0x1000; pool := [] |}.

Example task_run : snd (run_task 0x2000 0xdead 0x10 0x40 mds calls start0) =
  Ret [(0x20000, 0x21fff, true); (0x1000, 0x1fff, true); (0x4000, 0x4fff, false); (0x4000, 0x4fff, false)].
Proof. vm_compute. reflexivity. Qed.

Lemma mds_ok : Forall md_ok mds.
Proof. repeat (constructor; [intros _; vm_compute; by split|]). constructor. Qed.

Lemma mds_limit x : conventional_at mds x -> x < 0x30000.
Proof.
  intros (md & Hin & _ & Ht & Hx). apply list_elem_of_In in Hin. cbn in Hin.
  assert (forall m, (page_range m).2 < 0x30000 -> x <= (page_range m).2 -> x < 0x30000) as Hlt by lia.
  destruct Hin as [<-|[<-|[<-|[]]]]; [..|done]; (eapply Hlt; [|apply Hx]); vm_compute; reflexivity.
Qed.

Lemma calls_ok : Forall (call_ok 0x30000) calls.
Proof. repeat (constructor; [cbn; lia|]). constructor. Qed.

Lemma heap_fine : heap_ok 0x2000 0x10 0x40 0x1000.
Proof. split; lia. Qed.


(** The tracker with one range. *)
Definition one : ram := fst (run_task 0x2000 0xdead 0x10 0x40 [conv 0x1000 0x8fff] [] start0).

Lemma one_tracks : tracks 0x2000 0x10 0x40 0x30000 [(0x1000, 0x8fff, false)] one.
Proof.
  assert (Hi : init_l [conv 0x1000 0x8fff] [] = Some [(0x1000, 0x8fff, false)]) by (vm_compute; reflexivity).
  pose proof (init_ring_ok 0x2000 0xdead 0x10 0x40 [conv 0x1000 0x8fff] [] _
    (ram_start_reps 0x2000 0x10 0x40 0x1000 ltac:(lia) ltac:(lia) ltac:(lia) ltac:(lia) ltac:(lia))) as Hw.
  rewrite Hi in Hw. split.
  - unfold wp in Hw.
    assert (E : r_heap one = fst (init 0x2000 0xdead 0x10 0x40 [conv 0x1000 0x8fff] (ram_start 0x10 0x40 0x1000)))
      by (vm_compute; reflexivity).
    assert (E2 : snd (init 0x2000 0xdead 0x10 0x40 [conv 0x1000 0x8fff] (ram_start 0x10 0x40 0x1000)) = Ret tt)
      by (vm_compute; reflexivity).
    rewrite E. destruct (init _ _ _ _ _ _) as [h r]. cbn in E2 |- *. subst r. destruct Hw as (rs & [= <-] & Hr). done.
  - apply ordered_one. unfold range_ok. cbn. lia.
  - constructor; [cbn; lia|constructor].
  - constructor.
Qed.

Lemma alloc_ram_spec_witness :
  tracks 0x2000 0x10 0x40 0x30000 [(0x1000, 0x8fff, false)] one /\
  match alloc_ram 0x2000 0xdead 0x10 0x40 0x1000 (2 ^ 13) 0 one with
  | (s', Ret st) =>
      ((exists r, r ∈ [(0x1000, 0x8fff, false)] /\ fits (eff_pools (pool one)) 0x1000 13 0 r st) /\
       exists rs', tracks 0x2000 0x10 0x40 0x30000 rs' s' /\
         (forall x, st <= x <= st + 0x1000 - 1 -> own false [(0x1000, 0x8fff, false)] x) /\
         forall f x, own f rs' x <-> own f [(0x1000, 0x8fff, false)] x /\ ~ st <= x <= st + 0x1000 - 1) \/
      (st = 0 /\ s' = one /\ (2 <= 0x1000 -> forall r st', r ∈ [(0x1000, 0x8fff, false)] ->
                                ~ fits (eff_pools (pool one)) 0x1000 13 0 r st'))
  | (s', Panicked) => 0x2000 < heap_pos (r_heap s')
  | _ => False
  end.
Proof.
  split; [exact one_tracks|].
  refine (alloc_ram_spec 0x2000 0xdead 0x10 0x40 0x30000 [(0x1000, 0x8fff, false)] one 0x1000 13 0 one_tracks _).
  cbn. lia.
Defined.

Lemma map_iomem_spec_witness :
  map_iomem mds 0x9000 0x2000 = true <->
  forall md s e, md ∈ mds -> io_range md = Some (s, e) ->
    e < l4_trunc_page 0x9000 \/ l4_trunc_page (0x9000 + 0x2000 - 1) + l4_pagesize <= s.
Proof. apply map_iomem_spec; vm_compute; congruence. Defined.

(** ** What goes wrong *)

(** A reserved area that begins in one range and ends in another is taken from the first
    one only: its part of the second can be handed out. *)
Theorem reserved_memory_granted :
  let ds := [conv 0x1000 0x4fff; conv 0x8000 0xbfff; resv 0x3000 0x9fff] in
  snd (run_task 0x2000 0xdead 0x10 0x40 ds [C_reserve 0x8000 0x2000] start0) = Ret [(0x8000, 0x9fff, true)].
Proof. vm_compute. reflexivity. Qed.

(** Usable memory of less than a page at the bottom counts as all of the address space. *)
Theorem small_area_is_all_memory : page_range (conv 0x100 0x2ff) = (0x1000, 2 ^ 64 - 1).
Proof. vm_compute. reflexivity. Qed.

(** The end of a block wraps around: an allocation of nearly all of the address space
    succeeds, takes nothing, and the next one gets the same memory. *)
Theorem huge_block_succeeds :
  let s := run_task 0x2000 0xdead 0x10 0x40 [conv 0x1000 0x8fff] [] start0 in
  let a := alloc_ram 0x2000 0xdead 0x10 0x40 (2 ^ 64 - 0x800) 1 0 (fst s) in
  snd a = Ret 0x1000 /\ snd (alloc_ram 0x2000 0xdead 0x10 0x40 0x1000 1 0 (fst a)) = Ret 0x1000.
Proof. vm_compute. split; reflexivity. Qed.

(** The page of the last byte is not looked at when the byte is the first one of it. *)
Theorem last_page_unchecked :
  map_iomem [conv 0x2000 0x2fff] 0x1000 0x1001 = true /\ map_iomem [conv 0x2000 0x2fff] 0x1000 0x1002 = false.
Proof. vm_compute. split; reflexivity. Qed.

End Page_example.
