(* ===== verification/LegacyPic.v ===== *)
(** * The interrupt controller of a virtual machine

    [src/pkg/uvmm/server/src/ARCH-amd64/legacy_pic.h]: the emulation of the two 8259
    chips for a guest, with the message format of [msi_arch.h].  The guest writes
    initialisation and command words to two ports of each chip; devices raise lines.
    What leaves the emulation are messages to the local interrupt controller and
    end-of-interrupt notes to the sources of the lines. *)

From S2P Require Import Prelude.

(** ** Messages *)

Inductive ev :=
  | E_send (addr data : Z)     (** [_distr->send] *)
  | E_eoi (irq : Z).           (** [_sources[irq]->eoi] *)

Definition Address_interrupt_prefix : Z := 0xfee.
Definition Dm_extint : Z := 7.

(** [Data_register_format]: the vector in bits 0 to 7, the delivery mode in bits 8 to 10. *)
Definition msi_data (vector mode : Z) : Z := Z.lor (u8 vector) (Z.shiftl (Z.land mode 7) 8).

(** [Interrupt_request_compat]: the fixed part in bits 20 to 31. *)
Definition msi_addr (fixed : Z) : Z := Z.shiftl (Z.land fixed 0xfff) 20.

(** [Legacy_pic::send_interrupt] *)
Definition send_interrupt (irq : Z) : list ev :=
  if 32 <=? irq then [E_send (msi_addr Address_interrupt_prefix) (msi_data irq Dm_extint)] else [].

(** ** A chip *)

Inductive Init_words := ICW1 | ICW2 | ICW3 | ICW4.

#[export] Instance Init_words_eq : EqDecision Init_words.
Proof. solve_decision. Defined.

(** The members of [Legacy_pic::Chip]. *)
Record chip := {
  read_isr : bool;
  isr : Z;                    (** in service *)
  irr : Z;                    (** requested *)
  imr : Z;                    (** masked *)
  expect : Init_words;
  offset : Z;
  slave_at : Z;
  icw1 : Z;
  icw4 : Z;
  is_master : bool;
}.

Definition icw1_icw4 (w : Z) : bool := Z.testbit w 0.
Definition icw1_single (w : Z) : bool := Z.testbit w 1.
Definition icw4_aeoi (w : Z) : bool := Z.testbit w 1.

Definition set_regs (s r : Z) (c : chip) : chip :=
  {| read_isr := read_isr c; isr := s; irr := r; imr := imr c; expect := expect c; offset := offset c;
     slave_at := slave_at c; icw1 := icw1 c; icw4 := icw4 c; is_master := is_master c |}.

Definition set_expect (e : Init_words) (c : chip) : chip :=
  {| read_isr := read_isr c; isr := isr c; irr := irr c; imr := imr c; expect := e; offset := offset c;
     slave_at := slave_at c; icw1 := icw1 c; icw4 := icw4 c; is_master := is_master c |}.

(** The end of the initialisation sequence. *)
Definition set_done (c : chip) : chip :=
  {| read_isr := false; isr := isr c; irr := irr c; imr := imr c; expect := ICW1; offset := offset c;
     slave_at := slave_at c; icw1 := icw1 c; icw4 := icw4 c; is_master := is_master c |}.

Definition set_offset (o : Z) (c : chip) : chip :=
  {| read_isr := read_isr c; isr := isr c; irr := irr c; imr := imr c; expect := expect c; offset := o;
     slave_at := slave_at c; icw1 := icw1 c; icw4 := icw4 c; is_master := is_master c |}.

Definition set_slave_at (a : Z) (c : chip) : chip :=
  {| read_isr := read_isr c; isr := isr c; irr := irr c; imr := imr c; expect := expect c; offset := offset c;
     slave_at := a; icw1 := icw1 c; icw4 := icw4 c; is_master := is_master c |}.

Definition set_icw4 (w : Z) (c : chip) : chip :=
  {| read_isr := read_isr c; isr := isr c; irr := irr c; imr := imr c; expect := expect c; offset := offset c;
     slave_at := slave_at c; icw1 := icw1 c; icw4 := w; is_master := is_master c |}.

Definition set_imr (m : Z) (c : chip) : chip :=
  {| read_isr := read_isr c; isr := isr c; irr := irr c; imr := m; expect := expect c; offset := offset c;
     slave_at := slave_at c; icw1 := icw1 c; icw4 := icw4 c; is_master := is_master c |}.

Definition set_read_isr (b : bool) (c : chip) : chip :=
  {| read_isr := b; isr := isr c; irr := irr c; imr := imr c; expect := expect c; offset := offset c;
     slave_at := slave_at c; icw1 := icw1 c; icw4 := icw4 c; is_master := is_master c |}.

(** [Chip::Chip] *)
Definition chip_new (master : bool) : chip :=
  {| read_isr := false; isr := 0; irr := 0; imr := 0; expect := ICW1; offset := 0; slave_at := 0; icw1 := 0;
     icw4 := 2; is_master := master |}.

Definition set_bit (x b : Z) : Z := u8 (Z.lor x b).
Definition clear_bit (x b : Z) : Z := u8 (Z.land x (Z.lnot b)).

(** [Chip::trigger]: the vector of the interrupt to send, or -1. *)
Definition trigger (irq : Z) (c : chip) : chip * Z :=
  if offset c =? 0 then (c, -1)
  else
    let irq_bit := Z.shiftl 1 irq in
    if negb (isr c =? 0) || negb (Z.land (imr c) irq_bit =? 0)
    then (set_regs (isr c) (set_bit (irr c) irq_bit) c, -1)
    else
      let s := if negb (icw4_aeoi (icw4 c)) then set_bit (isr c) irq_bit else isr c in
      (set_regs s (clear_bit (irr c) irq_bit) c, offset c + irq).

Definition Cmd_port : Z := 0.
Definition Data_port : Z := 1.

(** [Chip::io_in]; [wd8] is an access of one byte. *)
Definition io_in (port : Z) (wd8 : bool) (c : chip) : Z :=
  if negb wd8 then u32 (-1)
  else if port =? Cmd_port then if read_isr c then isr c else irr c
  else if port =? Data_port then imr c
  else u32 (-1).

(** The loop of [check_pending]: the first bit that is set. *)
Fixpoint pending_loop (fuel : nat) (i : Z) (c : chip) : run (chip * Z) :=
  match fuel with
  | O => Fuel_out
  | S fuel =>
      if Z.shiftr (irr c) i =? 0 then Ret (c, -1)
      else
        let bit := u8 (Z.shiftl 1 i) in
        if negb (Z.land (irr c) bit =? 0)
        then Ret (set_regs (set_bit (isr c) bit) (clear_bit (irr c) bit) c, i)
        else pending_loop fuel (i + 1) c
  end.

(** [Chip::check_pending] *)
Definition check_pending (c : chip) : run (chip * Z) :=
  if negb (isr c =? 0) || (Z.land (irr c) (Z.lnot (imr c)) =? 0) then Ret (c, -1)
  else pending_loop 9 0 c.

(** [Chip::issue_next_interrupt] *)
Definition issue_next_interrupt (c : chip) : run (chip * list ev) :=
  '(c, next_irq) ← check_pending c;
  Ret (c, if negb (next_irq =? -1) then send_interrupt (next_irq + offset c) else []).

Definition Num_irqs : Z := 16.

(** [Legacy_pic::eoi]; [sources] tells which lines have a handler. *)
Definition pic_eoi (sources : list bool) (irq : Z) : run (list ev) :=
  if irq <? Num_irqs then
    b ← or_oob (sources !! Z.to_nat irq); Ret (if b : bool then [E_eoi irq] else [])
  else Asserted.

(** [Chip::eoi] *)
Definition eoi (sources : list bool) (irq : Z) (c : chip) : run (chip * list ev) :=
  let c := set_regs (if irq =? 0 then 0 else clear_bit (isr c) (Z.shiftl 1 irq)) (irr c) c in
  note ← pic_eoi sources (if is_master c then irq else irq + 8);
  '(c, sent) ← issue_next_interrupt c;
  Ret (c, note ++ sent).

(** [Chip::reset] *)
Definition reset (c : chip) : chip :=
  {| read_isr := read_isr c; isr := 0; irr := 0; imr := 0; expect := ICW1; offset := 0; slave_at := 0; icw1 := 0;
     icw4 := 2; is_master := is_master c |}.

Definition set_icw1 (w : Z) (c : chip) : chip :=
  {| read_isr := read_isr c; isr := isr c; irr := irr c; imr := imr c; expect := expect c; offset := offset c;
     slave_at := slave_at c; icw1 := w; icw4 := icw4 c; is_master := is_master c |}.

(** [Chip::handle_command_write] *)
Definition handle_command_write (sources : list bool) (command : Z) (c : chip) : run (chip * list ev) :=
  let cmd := u8 command in
  if negb (Z.land cmd 0x10 =? 0) then Ret (set_expect ICW2 (set_icw1 cmd (reset c)), [])
  else if negb (bool_decide (expect c = ICW1)) then Ret (c, [])
  else if negb (Z.land cmd 8 =? 0) then
    if Z.testbit cmd 1 then Ret (set_read_isr (Z.testbit cmd 0) c, []) else Ret (c, [])
  else if Z.testbit cmd 5 then eoi sources (if Z.testbit cmd 6 then Z.land cmd 7 else 0) c
  else Ret (c, []).

(** [Chip::handle_data_write] *)
Definition handle_data_write (value : Z) (c : chip) : run (chip * list ev) :=
  match expect c with
  | ICW1 => issue_next_interrupt (set_imr (u8 value) c)
  | ICW2 =>
      let c := set_offset (u8 value) c in
      Ret (set_expect (if icw1_single (icw1 c) then if icw1_icw4 (icw1 c) then ICW4 else ICW1 else ICW3) c, [])
  | ICW3 =>
      let c := set_slave_at (u8 value) c in
      Ret (if icw1_icw4 (icw1 c) then set_expect ICW4 c else set_done c, [])
  | ICW4 => Ret (set_done (set_icw4 (u8 value) c), [])
  end.

(** [Chip::io_out] *)
Definition io_out (sources : list bool) (port : Z) (wd8 : bool) (value : Z) (c : chip) : run (chip * list ev) :=
  if negb wd8 then Ret (c, [])
  else if port =? Cmd_port then handle_command_write sources value c
  else if port =? Data_port then handle_data_write value c
  else Ret (c, []).

(** ** The controller *)

Record pic := { _master : chip; _slave : chip; _sources : list bool }.

Definition pic_new : pic := {| _master := chip_new true; _slave := chip_new false; _sources := replicate 16 false |}.

(** [Legacy_pic::set] *)
Definition set (irq : Z) (p : pic) : run (pic * list ev) :=
  if irq <? Num_irqs then
    let '(p, num) :=
      if irq <? 8 then
        let '(c, num) := trigger irq (_master p) in
        ({| _master := c; _slave := _slave p; _sources := _sources p |}, num)
      else
        let '(c, num) := trigger (irq - 8) (_slave p) in
        ({| _master := _master p; _slave := c; _sources := _sources p |}, num) in
    Ret (p, if 32 <=? num then send_interrupt num else [])
  else Asserted.

(** [Legacy_pic::bind_irq_src_handler]: a second handler for a line is an error. *)
Definition bind_irq_src_handler (irq : Z) (handler : bool) (p : pic) : run pic :=
  if irq <? Num_irqs then
    b ← or_oob (_sources p !! Z.to_nat irq);
    if handler && b then Raised
    else Ret {| _master := _master p; _slave := _slave p; _sources := <[Z.to_nat irq := handler]> (_sources p) |}
  else Asserted.

(** What happens to a controller: a line is raised, or the guest writes to a port of one
    of the chips. *)
Inductive action :=
  | A_raise (irq : Z)
  | A_out (to_master : bool) (port value : Z)
  | A_bind (irq : Z) (handler : bool).

Definition act (a : action) (p : pic) : run (pic * list ev) :=
  match a with
  | A_raise irq => set irq p
  | A_out true port value =>
      '(c, out) ← io_out (_sources p) port true value (_master p);
      Ret ({| _master := c; _slave := _slave p; _sources := _sources p |}, out)
  | A_out false port value =>
      '(c, out) ← io_out (_sources p) port true value (_slave p);
      Ret ({| _master := _master p; _slave := c; _sources := _sources p |}, out)
  | A_bind irq handler => p ← bind_irq_src_handler irq handler p; Ret (p, [])
  end.

Fixpoint acts (l : list action) (p : pic) : run (pic * list ev) :=
  match l with
  | [] => Ret (p, [])
  | a :: l => '(p, out) ← act a p; '(p, rest) ← acts l p; Ret (p, out ++ rest)
  end.

(** ** Bytes as sets of lines *)

(** The bits of a register, in ascending order. *)
Definition bits (r : Z) : list Z := filter (fun i => Z.testbit r i = true) (seqZ 0 8).

Fixpoint ins (i : Z) (l : list Z) : list Z :=
  match l with
  | [] => [i]
  | j :: l' => if i <? j then i :: l else if i =? j then l else j :: ins i l'
  end.

(** Two functions of a byte, or of a byte and a line, that agree. *)
Lemma every_byte {A} `{EqDecision A} (f g : Z -> A) :
  forallb (fun r => bool_decide (f r = g r)) (seqZ 0 256) = true -> forall r, in_u 8 r -> f r = g r.
Proof. intros Hall r Hr. eapply bool_decide_eq_true_1. exact (all_bytes _ Hall r Hr). Qed.

Lemma every_line {A} `{EqDecision A} (f g : Z -> Z -> A) :
  forallb (fun r => forallb (fun i => bool_decide (f r i = g r i)) (seqZ 0 8)) (seqZ 0 256) = true ->
  forall r i, in_u 8 r -> 0 <= i < 8 -> f r i = g r i.
Proof.
  intros Hall r i Hr Hi. pose proof (all_bytes _ Hall r Hr) as Hp. cbn beta in Hp. rewrite forallb_forall in Hp.
  eapply bool_decide_eq_true_1. apply Hp, list_elem_of_In, elem_of_seqZ. lia.
Qed.

Lemma shift_bit i : 0 <= i < 8 -> Z.shiftl 1 i = 2 ^ i /\ in_u 8 (2 ^ i).
Proof.
  intros Hi. split; [by rewrite Z.shiftl_1_l|]. unfold in_u. pose proof (Z.pow_lt_mono_r 2 i 8). pose proof (Z.pow_pos_nonneg 2 i). lia.
Qed.

Lemma bits_set : forall r i, in_u 8 r -> 0 <= i < 8 -> bits (set_bit r (2 ^ i)) = ins i (bits r).
Proof. refine (every_line (fun r i => bits (set_bit r (2 ^ i))) (fun r i => ins i (bits r)) _). vm_compute. reflexivity. Qed.

Lemma bits_clear : forall r i, in_u 8 r -> 0 <= i < 8 -> bits (clear_bit r (2 ^ i)) = filter (fun j => j <> i) (bits r).
Proof.
  refine (every_line (fun r i => bits (clear_bit r (2 ^ i))) (fun r i => filter (fun j => j <> i) (bits r)) _).
  vm_compute. reflexivity.
Qed.

Lemma bits_zero r : in_u 8 r -> bool_decide (bits r = []) = (r =? 0).
Proof. revert r. refine (every_byte (fun r => bool_decide (bits r = [])) (fun r => r =? 0) _). vm_compute. reflexivity. Qed.

Lemma bits_pow i : 0 <= i < 8 -> bits (2 ^ i) = [i].
Proof.
  intros Hi. assert (Hin : i ∈ seqZ 0 8) by (apply elem_of_seqZ; lia). revert i Hin Hi.
  apply (proj1 (list.Forall_forall (fun i => 0 <= i < 8 -> bits (2 ^ i) = [i]) _)).
  repeat (constructor; [intros _; vm_compute; reflexivity|]). constructor.
Qed.

Lemma u8_set x b : in_u 8 (set_bit x b) /\ in_u 8 (clear_bit x b).
Proof. split; apply uwrap_range; lia. Qed.

(** The loop finds the line with the highest priority. *)
Fixpoint first_bit (fuel : nat) (i r : Z) : option (option Z) :=
  match fuel with
  | O => None
  | S fuel =>
      if Z.shiftr r i =? 0 then Some None
      else if negb (Z.land r (u8 (Z.shiftl 1 i)) =? 0) then Some (Some i) else first_bit fuel (i + 1) r
  end.

Lemma pending_first fuel i c : pending_loop fuel i c =
  match first_bit fuel i (irr c) with
  | None => Fuel_out
  | Some None => Ret (c, -1)
  | Some (Some j) => Ret (set_regs (set_bit (isr c) (u8 (Z.shiftl 1 j))) (clear_bit (irr c) (u8 (Z.shiftl 1 j))) c, j)
  end.
Proof. revert i. induction fuel as [|fuel IH]; intros i; cbn [pending_loop first_bit]; [done|]. split_ifs; [done|done|apply IH]. Qed.

Lemma bits_lines r i : i ∈ bits r -> 0 <= i < 8.
Proof. unfold bits. intros [_ Hi]%list_elem_of_filter. apply elem_of_seqZ in Hi. lia. Qed.

Lemma pending_loop_spec c : in_u 8 (irr c) ->
  pending_loop 9 0 c =
  Ret (match bits (irr c) with
       | [] => (c, -1)
       | i :: _ => (set_regs (set_bit (isr c) (2 ^ i)) (clear_bit (irr c) (2 ^ i)) c, i)
       end).
Proof.
  intros Hr. rewrite pending_first.
  assert (first_bit 9 0 (irr c) = Some (head (bits (irr c)))) as ->.
  { revert Hr. generalize (irr c).
    refine (every_byte (first_bit 9 0) (fun r => Some (head (bits r))) _). vm_compute. reflexivity. }
  pose proof (bits_lines (irr c)) as Hb. destruct (bits (irr c)) as [|i l]; [done|]. cbn [head].
  destruct (shift_bit i) as [-> Hi]; [apply Hb; set_solver|]. by rewrite uwrap_small.
Qed.

(** ** The registers *)

(** The registers are bytes, and at most one line is in service. *)
Record chip_ok (c : chip) : Prop := {
  co_irr : in_u 8 (irr c);
  co_imr : in_u 8 (imr c);
  co_offset : in_u 8 (offset c);
  co_isr : isr c = 0 \/ exists i, 0 <= i < 8 /\ isr c = 2 ^ i;
}.

Lemma chip_new_ok b : chip_ok (chip_new b).
Proof. split; cbn; try (unfold in_u; lia). Qed.

Lemma chip_ok_isr c : chip_ok c -> in_u 8 (isr c).
Proof. intros [_ _ _ [->|(i & Hi & ->)]]; [unfold in_u; lia|by apply shift_bit]. Qed.

Lemma set_bit_zero i : 0 <= i < 8 -> set_bit 0 (2 ^ i) = 2 ^ i.
Proof. intros Hi. unfold set_bit. rewrite Z.lor_0_l. by apply uwrap_small, shift_bit. Qed.

Lemma clear_own i k : 0 <= i < 8 -> 0 <= k < 8 -> clear_bit (2 ^ i) (2 ^ k) = if decide (i = k) then 0 else 2 ^ i.
Proof.
  intros Hi Hk. revert k Hk. assert (Hin : i ∈ seqZ 0 8) by (apply elem_of_seqZ; lia). clear Hi. revert i Hin.
  apply (proj1 (list.Forall_forall (fun i => forall k, 0 <= k < 8 -> clear_bit (2 ^ i) (2 ^ k) = if decide (i = k) then 0 else 2 ^ i) _)).
  assert (Hk : forall i k, 0 <= k < 8 -> forallb (fun k => clear_bit (2 ^ i) (2 ^ k) =? if decide (i = k) then 0 else 2 ^ i) (seqZ 0 8) = true ->
             clear_bit (2 ^ i) (2 ^ k) = if decide (i = k) then 0 else 2 ^ i).
  { intros i k Hk H. rewrite forallb_forall in H. apply Z.eqb_eq, H, list_elem_of_In, elem_of_seqZ. lia. }
  repeat (constructor; [intros k Hk'; apply Hk; [done|vm_compute; reflexivity]|]). constructor.
Qed.

Lemma trigger_ok i c : chip_ok c -> 0 <= i < 8 -> chip_ok (fst (trigger i c)).
Proof.
  intros [Hr Hm Ho Hs] Hi. unfold trigger. destruct (shift_bit i Hi) as [-> _].
  destruct (offset c =? 0); [by split|]. destruct (negb (isr c =? 0) || _) eqn:E; [split; cbn; try done; apply u8_set|].
  apply orb_false_iff in E as [E _]. apply negb_false_iff, Z.eqb_eq in E.
  split; cbn [fst irr imr offset isr set_regs]; try done; [apply u8_set|]. destruct (icw4_aeoi (icw4 c)); cbn [negb]; [by left|]. right. exists i. by rewrite E, set_bit_zero.
Qed.

(** Whether and what [check_pending] delivers. *)
Lemma check_pending_spec c : chip_ok c ->
  check_pending c = Ret (c, -1) \/
  exists i l, isr c = 0 /\ bits (irr c) = i :: l /\ 0 <= i < 8 /\
    check_pending c = Ret (set_regs (2 ^ i) (clear_bit (irr c) (2 ^ i)) c, i).
Proof.
  intros [Hr Hm Ho Hs]. unfold check_pending. destruct (negb (isr c =? 0)) eqn:E1; cbn [orb]; [by left|].
  destruct (Z.land (irr c) (Z.lnot (imr c)) =? 0); [by left|]. rewrite pending_loop_spec by done.
  apply negb_false_iff, Z.eqb_eq in E1. pose proof (bits_lines (irr c)) as Hb.
  destruct (bits (irr c)) as [|i l]; [by left|]. right. exists i, l.
  assert (Hi : 0 <= i < 8) by (apply Hb; set_solver). by rewrite E1, set_bit_zero.
Qed.

Lemma issue_ok c : chip_ok c -> exists c' out, issue_next_interrupt c = Ret (c', out) /\ chip_ok c' /\
  expect c' = expect c /\ icw4 c' = icw4 c /\ (length out <= 1)%nat /\
  (isr c <> 0 -> out = [] /\ c' = c) /\ (out <> [] -> isr c' <> 0).
Proof.
  intros Hc. unfold issue_next_interrupt. destruct (check_pending_spec c Hc) as [->|(i & l & E & Hb & Hi & ->)].
  - exists c, []. cbn. by repeat (split; [done || lia|]).
  - cbn [mbind run_bind]. eexists _, _. split; [done|]. destruct Hc as [Hr Hm Ho Hs]. split; [split; cbn; try done; [apply u8_set|]|].
    { right. by exists i. }
    split; [done|]. split; [done|]. rewrite (proj2 (Z.eqb_neq i (-1))) by lia. cbn [negb]. unfold send_interrupt.
    split; [split_ifs; cbn; lia|]. split; [done|]. intros _. cbn. pose proof (Z.pow_pos_nonneg 2 i). lia.
Qed.

Section Sources.
Context (sources : list bool) (Hsrc : length sources = 16%nat).

Lemma pic_eoi_ok irq : 0 <= irq < 16 -> exists out, pic_eoi sources irq = Ret out /\ Forall (fun e => exists i, e = E_eoi i) out.
Proof.
  intros Hi. unfold pic_eoi, Num_irqs. rewrite (proj2 (Z.ltb_lt irq 16)) by lia.
  destruct (lookup_lt_is_Some_2 sources (Z.to_nat irq)) as [b Hb]; [lia|]. rewrite Hb. cbn. eexists. split; [done|].
  destruct b; [|constructor]. constructor; [by eexists|constructor].
Qed.

Lemma eoi_ok irq c : chip_ok c -> 0 <= irq < 8 -> exists c' out, eoi sources irq c = Ret (c', out) /\ chip_ok c' /\
  expect c' = expect c /\ icw4 c' = icw4 c.
Proof.
  intros Hc Hi. unfold eoi.
  assert (Hc1 : chip_ok (set_regs (if irq =? 0 then 0 else clear_bit (isr c) (Z.shiftl 1 irq)) (irr c) c)).
  { destruct Hc as [Hr Hm Ho Hs]. split; cbn; try done. destruct (irq =? 0); [by left|].
    destruct (shift_bit irq Hi) as [-> _]. destruct Hs as [->|(k & Hk & ->)]; [by left|]. rewrite clear_own by done.
    case_decide; [by left|]. right. by exists k. }
  destruct (pic_eoi_ok (if is_master c then irq else irq + 8)) as (note & Hn & _); [destruct (is_master c); lia|].
  cbn [is_master set_regs]. rewrite Hn. cbn [mbind run_bind].
  destruct (issue_ok _ Hc1) as (c' & out & -> & Hc' & ? & ? & _). cbn. by eexists _, _.
Qed.

Lemma out_ok port v c : chip_ok c -> exists c' out, io_out sources port true v c = Ret (c', out) /\ chip_ok c'.
Proof.
  intros Hc. pose proof Hc as [Hr Hm Ho Hs]. unfold io_out. cbn [negb].
  assert (Hstay : forall c', irr c' = irr c -> imr c' = imr c -> in_u 8 (offset c') -> isr c' = isr c -> chip_ok c').
  { intros c' E1 E2 E3 E4. split; [by rewrite E1|by rewrite E2|done|by rewrite E4]. }
  pose proof (uwrap_range 8 v ltac:(lia)) as Hv.
  destruct (port =? Cmd_port); [|destruct (port =? Data_port); [|by eexists _, _]].
  - unfold handle_command_write. destruct (negb (Z.land (u8 v) 16 =? 0)).
    { eexists _, _. split; [done|]. split; cbn; try (unfold in_u; lia). }
    destruct (negb (bool_decide _)); [by eexists _, _|]. destruct (negb (Z.land (u8 v) 8 =? 0)).
    { destruct (Z.testbit (u8 v) 1); eexists _, _; (split; [done|]); by apply Hstay. }
    destruct (Z.testbit (u8 v) 5); [|by eexists _, _].
    destruct (eoi_ok (if Z.testbit (u8 v) 6 then Z.land (u8 v) 7 else 0) c Hc) as (c' & out & ? & ? & _); [|by eexists _, _].
    destruct (Z.testbit (u8 v) 6); [|lia]. change 7 with (Z.ones 3). rewrite Z.land_ones by lia. apply Z.mod_pos_bound. lia.
  - unfold handle_data_write. destruct (expect c); try (eexists _, _; split; [done|]; apply Hstay; done).
    + destruct (issue_ok (set_imr (u8 v) c)) as (c' & out & ? & ? & _); [by split|by eexists _, _].
    + eexists _, _. split; [done|]. apply Hstay; by (destruct (icw1_icw4 _)).
Qed.
End Sources.

(** ** No access of the guest breaks the emulation *)

Record pic_ok (p : pic) : Prop := {
  po_master : chip_ok (_master p);
  po_slave : chip_ok (_slave p);
  po_sources : length (_sources p) = 16%nat;
}.

Definition action_ok (a : action) : Prop :=
  match a with A_raise irq | A_bind irq _ => 0 <= irq < 16 | A_out _ _ _ => True end.

Lemma pic_new_ok : pic_ok pic_new.
Proof. split; [apply chip_new_ok..|done]. Qed.

Lemma act_ok a p : pic_ok p -> action_ok a ->
  match act a p with Ret (p', _) => pic_ok p' | Raised => exists irq, a = A_bind irq true | _ => False end.
Proof.
  intros [Hm Hs Hl] Ha. destruct a as [irq|[] port v|irq h]; cbn [act action_ok] in *.
  - unfold set, Num_irqs. rewrite (proj2 (Z.ltb_lt irq 16)) by lia. destruct (Z.ltb_spec irq 8).
    + pose proof (trigger_ok irq (_master p) Hm ltac:(lia)) as Ht. destruct (trigger irq (_master p)) as [c num]. by split.
    + pose proof (trigger_ok (irq - 8) (_slave p) Hs ltac:(lia)) as Ht. destruct (trigger (irq - 8) (_slave p)) as [c num]. by split.
  - destruct (out_ok (_sources p) Hl port v (_master p) Hm) as (c' & out & -> & ?). by split.
  - destruct (out_ok (_sources p) Hl port v (_slave p) Hs) as (c' & out & -> & ?). by split.
  - unfold bind_irq_src_handler, Num_irqs. rewrite (proj2 (Z.ltb_lt irq 16)) by lia.
    destruct (lookup_lt_is_Some_2 (_sources p) (Z.to_nat irq)) as [b Hb]; [lia|]. rewrite Hb. cbn.
    destruct h; cbn [andb]; [destruct b; [by eexists|]|]; split; cbn; try done; by rewrite length_insert.
Qed.

(** Whatever a guest writes to the ports and whatever lines are raised, no assertion fails
    and no array is left, each chip has at most one line in service, and the only error is
    the one for a second handler of a line. *)
Theorem pic_invariant l p : pic_ok p -> Forall action_ok l ->
  match acts l p with
  | Ret (p', _) => pic_ok p'
  | Raised => exists irq, A_bind irq true ∈ l
  | _ => False
  end.
Proof.
  intros Hp Hl. revert p Hp. induction Hl as [|a l Ha _ IH]; intros p Hp; cbn [acts]; [done|].
  pose proof (act_ok a p Hp Ha) as H1. destruct (act a p) as [[p1 out]| | | | |]; cbn [mbind run_bind]; try done.
  - specialize (IH p1 H1). destruct (acts l p1) as [[p2 rest]| | | | |]; cbn; try done.
    destruct IH as [irq ?]. exists irq. set_solver.
  - destruct H1 as [irq ->]. exists irq. set_solver.
Qed.

(** ** One interrupt at a time *)

(** What can happen to a chip. *)
Inductive chip_op := K_raise (irq : Z) | K_out (port value : Z).

Definition chip_act (sources : list bool) (o : chip_op) (c : chip) : run (chip * list ev) :=
  match o with
  | K_raise irq => let '(c, num) := trigger irq c in Ret (c, if 32 <=? num then send_interrupt num else [])
  | K_out port value => io_out sources port true value c
  end.

Fixpoint chip_acts (sources : list bool) (l : list chip_op) (c : chip) : run (chip * list ev) :=
  match l with
  | [] => Ret (c, [])
  | o :: l => '(c, out) ← chip_act sources o c; '(c, rest) ← chip_acts sources l c; Ret (c, out ++ rest)
  end.

(** Neither an end of interrupt nor the start of an initialisation. *)
Definition quiet (o : chip_op) : Prop :=
  match o with
  | K_raise irq => 0 <= irq < 8
  | K_out port value => port = Cmd_port -> Z.land (u8 value) 0x10 = 0 /\ (Z.land (u8 value) 8 = 0 -> Z.testbit value 5 = false)
  end.

Lemma quiet_act sources o c : chip_ok c -> expect c = ICW1 -> icw4_aeoi (icw4 c) = false -> quiet o ->
  exists c' out, chip_act sources o c = Ret (c', out) /\ chip_ok c' /\ expect c' = ICW1 /\ icw4 c' = icw4 c /\
    (length out <= 1)%nat /\ (isr c <> 0 -> out = [] /\ isr c' <> 0) /\ (out <> [] -> isr c' <> 0).
Proof.
  intros Hc He Ha Hq. destruct o as [irq|port v]; cbn [chip_act quiet] in *.
  - pose proof (trigger_ok irq c Hc Hq) as Ht. unfold trigger in *. destruct (shift_bit irq Hq) as [E Hb]. rewrite E in *.
    destruct (offset c =? 0); [eexists _, _; split; [done|]; cbn in *; by repeat (split; [done || lia|])|].
    destruct (negb (isr c =? 0)) eqn:Ei; cbn [orb] in *.
    { eexists _, _. split; [done|]. cbn in *. apply negb_true_iff, Z.eqb_neq in Ei. by repeat (split; [done || lia|]). }
    apply negb_false_iff, Z.eqb_eq in Ei. destruct (negb (Z.land (imr c) (2 ^ irq) =? 0)).
    { eexists _, _. split; [done|]. cbn in *. repeat (split; [done || lia|]). done. }
    eexists _, _. split; [done|]. split; [exact Ht|]. cbn [expect icw4 isr set_regs]. rewrite Ha. cbn [negb].
    do 2 (split; [done|]). unfold send_interrupt. split; [split_ifs; cbn; lia|]. split; [done|]. intros _.
    rewrite Ei, set_bit_zero by done. pose proof (Z.pow_pos_nonneg 2 irq). lia.
  - unfold io_out. cbn [negb]. destruct (Z.eqb_spec port Cmd_port) as [Ep|_]; [|destruct (port =? Data_port)].
    + destruct (Hq Ep) as [H1 H2]. unfold handle_command_write. rewrite H1, (bool_decide_eq_true_2 _ He). cbn [negb Z.eqb].
      destruct (Z.land (u8 v) 8 =? 0) eqn:E8; cbn [negb].
      * apply Z.eqb_eq in E8. assert (Z.testbit (u8 v) 5 = false) as ->.
        { unfold uwrap. rewrite Z.mod_pow2_bits_low by lia. by apply H2. }
        eexists _, _. split; [done|]. by repeat (split; [done || (cbn; lia)|]).
      * destruct Hc. destruct (Z.testbit (u8 v) 1); (eexists _, _; split; [done|]; split; [by split|]; by repeat (split; [done || (cbn; lia)|])).
    + unfold handle_data_write. rewrite He. destruct (issue_ok (set_imr (u8 v) c)) as (c' & out & -> & ? & ? & ? & ? & Hb & ?).
      { destruct Hc. split; try done. cbn. apply uwrap_range. lia. }
      eexists _, _. split; [done|]. split; [done|]. split; [cbn in *; congruence|]. split; [done|]. split; [done|].
      split; [|done]. intros Hi. destruct (Hb Hi) as [-> ->]. done.
    + eexists _, _. split; [done|]. by repeat (split; [done || (cbn; lia)|]).
Qed.

(** A chip that waits for ends of interrupts sends at most one interrupt until it gets one
    or is initialised again, and none if a line is in service already, whatever is raised,
    masked or read. *)
Theorem one_in_service sources l c : chip_ok c -> expect c = ICW1 -> icw4_aeoi (icw4 c) = false -> Forall quiet l ->
  exists c' out, chip_acts sources l c = Ret (c', out) /\ (length out <= if Z.eqb (isr c) 0 then 1 else 0)%nat.
Proof.
  intros Hc He Ha Hl. revert c Hc He Ha. induction Hl as [|o l Ho _ IH]; intros c Hc He Ha; cbn [chip_acts].
  { eexists _, _. split; [done|]. cbn. lia. }
  destruct (quiet_act sources o c Hc He Ha Ho) as (c1 & out & -> & Hc1 & He1 & Ha1 & Hlen & Hbusy & Hsent). cbn [mbind run_bind].
  destruct (IH c1 Hc1 He1 ltac:(by rewrite Ha1)) as (c2 & rest & -> & Hrest). cbn. eexists _, _. split; [done|].
  rewrite length_app. destruct (Z.eqb_spec (isr c) 0) as [E|E].
  - destruct out as [|e out]; [split_ifs; cbn in *; lia|]. rewrite (proj2 (Z.eqb_neq (isr c1) 0)) in Hrest by (by apply Hsent).
    cbn in *. lia.
  - destruct (Hbusy E) as [-> H1]. rewrite (proj2 (Z.eqb_neq _ _) H1) in Hrest. cbn. lia.
Qed.

(** ** What a guest can rely on *)

(** An interrupt controller as the guest sees it: the line in service, and the lines that
    wait, in order of priority. *)
Record service := { in_service : option Z; waiting : list Z }.

Definition sv_next (s : service) : service * list Z :=
  match waiting s with
  | [] => ({| in_service := None; waiting := [] |}, [])
  | i :: l => ({| in_service := Some i; waiting := l |}, [i])
  end.

Definition sv_raise (i : Z) (s : service) : service * list Z :=
  match in_service s with
  | None => ({| in_service := Some i; waiting := filter (fun j => j <> i) (waiting s) |}, [i])
  | Some _ => ({| in_service := in_service s; waiting := ins i (waiting s) |}, [])
  end.

(** The end of any interrupt, or of a given line. *)
Definition sv_eoi (k : option Z) (s : service) : service * list Z :=
  match in_service s with
  | None => sv_next s
  | Some j => if decide (k = None \/ k = Some 0 \/ k = Some j) then sv_next s else (s, [])
  end.

Inductive line_op := L_raise (i : Z) | L_eoi (k : option Z).

Definition sv_step (o : line_op) (s : service) : service * list Z :=
  match o with L_raise i => sv_raise i s | L_eoi k => sv_eoi k s end.

Fixpoint sv_steps (l : list line_op) (s : service) : service * list Z :=
  match l with
  | [] => (s, [])
  | o :: l => let '(s, d) := sv_step o s in let '(s, ds) := sv_steps l s in (s, d ++ ds)
  end.

(** How a guest writes the end of an interrupt. *)
Definition eoi_word (k : option Z) : Z := match k with None => 0x20 | Some k => 0x60 + k end.

Definition to_chip (o : line_op) : chip_op :=
  match o with L_raise i => K_raise i | L_eoi k => K_out Cmd_port (eoi_word k) end.

Definition line_ok (o : line_op) : Prop :=
  match o with L_raise i | L_eoi (Some i) => 0 <= i < 8 | L_eoi None => True end.

(** The message for a line. *)
Definition deliver (o i : Z) : ev := E_send (msi_addr Address_interrupt_prefix) (msi_data (o + i) Dm_extint).

Definition is_send (e : ev) : bool := match e with E_send _ _ => true | E_eoi _ => false end.
Abbreviation sends out := (List.filter is_send out).

(** A chip in use: initialised, nothing masked, ends of interrupts are awaited. *)
Record in_use (c : chip) : Prop := {
  iu_ok : chip_ok c;
  iu_ready : expect c = ICW1;
  iu_unmasked : imr c = 0;
  iu_manual : icw4_aeoi (icw4 c) = false;
  iu_offset : 32 <= offset c;
}.

(** The registers of a chip show the state of the controller. *)
Record shows (c : chip) (s : service) : Prop := {
  sh_service : match in_service s with None => isr c = 0 | Some i => 0 <= i < 8 /\ isr c = 2 ^ i end;
  sh_waiting : waiting s = bits (irr c);
}.

Lemma bits_tail r i l : in_u 8 r -> bits r = i :: l -> bits (clear_bit r (2 ^ i)) = l.
Proof.
  intros Hr Hb. assert (H : bits (clear_bit r (2 ^ default 0 (head (bits r)))) = tail (bits r)).
  { revert r Hr Hb. intros r Hr _. revert r Hr.
    refine (every_byte (fun r => bits (clear_bit r (2 ^ default 0 (head (bits r))))) (fun r => tail (bits r)) _).
    vm_compute. reflexivity. }
  by rewrite Hb in H.
Qed.

Lemma in_use_regs c s r : in_use c -> in_u 8 r -> (s = 0 \/ exists i, 0 <= i < 8 /\ s = 2 ^ i) -> in_use (set_regs s r c).
Proof. intros [[? ? ? ?] ? ? ? ?] Hr Hs. split; [split|..]; done. Qed.

(** The next interrupt of an idle chip. *)
Lemma issue_shows c s : in_use c -> shows c s -> isr c = 0 ->
  exists c', issue_next_interrupt c = Ret (c', deliver (offset c) <$> (sv_next s).2) /\ in_use c' /\
    shows c' (sv_next s).1 /\ offset c' = offset c.
Proof.
  intros Hu [_ Hw] Hi. pose proof (iu_ok _ Hu) as Hc. pose proof (co_irr _ Hc) as Hr.
  unfold issue_next_interrupt, check_pending. rewrite Hi, (iu_unmasked _ Hu). cbn [Z.eqb negb orb].
  change (Z.lnot 0) with (-1). rewrite Z.land_m1_r, <- (bits_zero _ Hr). unfold sv_next. rewrite Hw.
  destruct (bits (irr c)) as [|i l] eqn:Hb.
  - rewrite bool_decide_eq_true_2 by done. cbn. exists c. split; [done|]. split; [done|]. split; [|done]. split; [done|by rewrite Hb].
  - rewrite bool_decide_eq_false_2 by done. rewrite pending_loop_spec, Hb, Hi by done.
    assert (Hil : 0 <= i < 8) by (apply (bits_lines (irr c)); rewrite Hb; set_solver).
    rewrite set_bit_zero by done. cbn [mbind run_bind]. eexists. split.
    + rewrite (proj2 (Z.eqb_neq i (-1))) by lia. cbn [negb offset set_regs]. unfold send_interrupt.
      pose proof (iu_offset _ Hu). rewrite (proj2 (Z.leb_le 32 (i + offset c))) by lia. cbn. unfold deliver.
      by rewrite (Z.add_comm i).
    + split; [apply in_use_regs; [done|apply u8_set|right; by exists i]|]. split; [|done].
      split; cbn; [done|]. by rewrite (bits_tail _ _ _ Hr Hb).
Qed.

Lemma raise_shows sources c s i : in_use c -> shows c s -> 0 <= i < 8 ->
  exists c', chip_act sources (K_raise i) c = Ret (c', deliver (offset c) <$> (sv_raise i s).2) /\ in_use c' /\
    shows c' (sv_raise i s).1 /\ offset c' = offset c.
Proof.
  intros Hu [Hs Hw] Hi. pose proof (iu_ok _ Hu) as Hc. pose proof (co_irr _ Hc) as Hr. pose proof (iu_offset _ Hu) as Ho.
  cbn [chip_act]. unfold trigger, sv_raise. rewrite (proj2 (Z.eqb_neq (offset c) 0)), (iu_unmasked _ Hu), (iu_manual _ Hu) by lia.
  destruct (shift_bit i Hi) as [-> _]. rewrite Z.land_0_l. cbn [negb Z.eqb orb].
  destruct (in_service s) as [j|].
  - destruct Hs as [Hj Hs]. rewrite (proj2 (Z.eqb_neq (isr c) 0)) by (rewrite Hs; pose proof (Z.pow_pos_nonneg 2 j); lia).
    cbn. eexists. split; [done|]. split; [apply in_use_regs; [done|apply u8_set|right; by exists j]|]. split; [|done].
    split; cbn; [done|]. by rewrite Hw, bits_set.
  - rewrite Hs. cbn [negb Z.eqb orb]. rewrite set_bit_zero by done. eexists. split.
    + rewrite (proj2 (Z.leb_le 32 (offset c + i))) by lia. unfold send_interrupt.
      by rewrite (proj2 (Z.leb_le 32 (offset c + i))) by lia.
    + split; [apply in_use_regs; [done|apply u8_set|right; by exists i]|]. split; [|done].
      split; cbn; [done|]. by rewrite Hw, bits_clear.
Qed.

Lemma sends_fmap o l : sends (deliver o <$> l) = deliver o <$> l.
Proof. induction l as [|i l IH]; [done|]. cbn. by rewrite IH. Qed.

Lemma sends_notes l : Forall (fun e => exists i, e = E_eoi i) l -> sends l = [].
Proof. induction 1 as [|e l [i ->] _ IH]; [done|]. cbn. exact IH. Qed.

Lemma eoi_command sources k c : expect c = ICW1 -> line_ok (L_eoi k) ->
  chip_act sources (K_out Cmd_port (eoi_word k)) c = eoi sources (default 0 k) c.
Proof.
  intros He Hk. cbn [chip_act]. unfold io_out, handle_command_write. cbn [negb Z.eqb Cmd_port].
  rewrite (bool_decide_eq_true_2 _ He). destruct k as [k|]; [|done]. cbn [line_ok eoi_word default] in *.
  assert (k = 0 \/ k = 1 \/ k = 2 \/ k = 3 \/ k = 4 \/ k = 5 \/ k = 6 \/ k = 7) as Hcase by lia.
  by destruct Hcase as [->|[->|[->|[->|[->|[->|[->| ->]]]]]]].
Qed.

(** Ends of interrupts, with the notes to the sources left out. *)
Lemma eoi_shows sources c s k : length sources = 16%nat -> in_use c -> shows c s -> line_ok (L_eoi k) ->
  exists c' out, chip_act sources (K_out Cmd_port (eoi_word k)) c = Ret (c', out) /\
    sends out = deliver (offset c) <$> (sv_eoi k s).2 /\ in_use c' /\ shows c' (sv_eoi k s).1 /\ offset c' = offset c.
Proof.
  intros Hsrc Hu Hsh Hk. rewrite eoi_command by (done || apply Hu). unfold eoi.
  assert (Hkr : 0 <= default 0 k < 8) by (destruct k; cbn in *; lia).
  destruct (shift_bit _ Hkr) as [-> _].
  destruct (pic_eoi_ok sources Hsrc (if is_master c then default 0 k else default 0 k + 8)) as (note & Hn & Hnote);
    [destruct (is_master c); lia|].
  cbn [is_master set_regs]. rewrite Hn. cbn [mbind run_bind]. pose proof (iu_ok _ Hu) as Hc.
  assert (Hidle : sv_eoi k s = sv_next s -> (if default 0 k =? 0 then 0 else clear_bit (isr c) (2 ^ default 0 k)) = 0 ->
    exists c' out, ('(c0, sent) ← issue_next_interrupt (set_regs (if default 0 k =? 0 then 0 else clear_bit (isr c) (2 ^ default 0 k)) (irr c) c);
                    Ret (c0, note ++ sent)) = Ret (c', out) /\
      sends out = deliver (offset c) <$> (sv_eoi k s).2 /\ in_use c' /\ shows c' (sv_eoi k s).1 /\ offset c' = offset c).
  { intros -> ->. destruct (issue_shows (set_regs 0 (irr c) c) {| in_service := None; waiting := waiting s |})
      as (c' & -> & Hu' & Hs' & Ho); [apply in_use_regs; [done|apply Hc|by left]|split; [done|apply Hsh]|done|].
    eexists _, _. split; [done|]. rewrite List.filter_app, (sends_notes _ Hnote), sends_fmap. done. }
  destruct Hsh as [Hs Hw]. unfold sv_eoi in *. destruct (in_service s) as [j|] eqn:Ej.
  - destruct Hs as [Hj Hs]. rewrite Hs, clear_own in * by done. case_decide as Ek.
    + apply Hidle; [done|]. destruct Ek as [->|[->| ->]]; [done|done|]. cbn. rewrite decide_True by done. by destruct (j =? 0).
    + assert (Hne : (if default 0 k =? 0 then 0 else if decide (j = default 0 k) then 0 else 2 ^ j) = 2 ^ j).
      { destruct k as [k|]; [|tauto]. cbn. destruct (Z.eqb_spec k 0) as [->|]; [tauto|]. rewrite decide_False; [done|]. intros <-. tauto. }
      rewrite Hne. unfold issue_next_interrupt, check_pending. cbn [isr set_regs].
      rewrite (proj2 (Z.eqb_neq (2 ^ j) 0)) by (pose proof (Z.pow_pos_nonneg 2 j); lia). cbn.
      eexists _, _. split; [done|]. rewrite List.filter_app, (sends_notes _ Hnote). split; [done|].
      split; [apply in_use_regs; [done|apply Hc|right; by exists j]|]. split; [|done]. split; [by rewrite Ej|done].
  - apply Hidle; [done|]. rewrite Hs. destruct (default 0 k =? 0); [done|]. unfold clear_bit. by rewrite Z.land_0_l.
Qed.

(** Every sequence of raised lines and ends of interrupts. *)
Lemma chip_simulates sources l c s : length sources = 16%nat -> in_use c -> shows c s -> Forall line_ok l ->
  exists c' out, chip_acts sources (to_chip <$> l) c = Ret (c', out) /\
    sends out = deliver (offset c) <$> (sv_steps l s).2 /\ in_use c' /\ shows c' (sv_steps l s).1 /\ offset c' = offset c.
Proof.
  intros Hsrc Hu Hs Hl. revert c s Hu Hs. induction Hl as [|o l Ho _ IH]; intros c s Hu Hs; [by exists c, []|].
  assert (exists c1 out, chip_act sources (to_chip o) c = Ret (c1, out) /\
    sends out = deliver (offset c) <$> (sv_step o s).2 /\ in_use c1 /\ shows c1 (sv_step o s).1 /\ offset c1 = offset c)
    as (c1 & out & H1 & Hout & Hu1 & Hs1 & Hoff).
  { destruct o as [i|k]; [|by apply eoi_shows]. destruct (raise_shows sources c s i Hu Hs Ho) as (c1 & ? & ? & ? & ?).
    eexists c1, _. split; [done|]. by rewrite sends_fmap. }
  destruct (IH c1 (sv_step o s).1 Hu1 Hs1) as (c2 & rest & H2 & Hrest & Hu2 & Hs2 & Ho2).
  cbn [fmap list_fmap chip_acts sv_steps]. destruct (sv_step o s) as [s1 d]. cbn [fst snd] in *.
  destruct (sv_steps l s1) as [s2 ds]. cbn [fst snd] in *. exists c2, (out ++ rest). split.
  - rewrite H1. cbn. by rewrite H2.
  - rewrite List.filter_app, Hout, Hrest, Hoff, fmap_app. split; [done|]. split; [done|]. split; [done|congruence].
Qed.

(** ** Every interrupt arrives *)

Lemma sv_drain n s : (length (waiting s) <= n)%nat ->
  (sv_steps (replicate n (L_eoi None)) s).2 = waiting s.
Proof.
  revert s. induction n as [|n IH]; intros s Hn; cbn [replicate sv_steps].
  { by destruct (waiting s); [|cbn in Hn; lia]. }
  assert (E : sv_step (L_eoi None) s = sv_next s) by (cbn; unfold sv_eoi; destruct (in_service s); [by rewrite decide_True by (by left)|done]).
  rewrite E. unfold sv_next. destruct (waiting s) as [|i l] eqn:Ew.
  - specialize (IH {| in_service := None; waiting := [] |} ltac:(cbn; lia)). destruct (sv_steps _ _) as [s2 ds]. exact IH.
  - specialize (IH {| in_service := Some i; waiting := l |} ltac:(cbn in *; lia)). destruct (sv_steps _ _) as [s2 ds]. cbn in *. by rewrite IH.
Qed.

(** A guest that keeps ending interrupts gets every line that is requested, each once, in
    the order of their priority. *)
Lemma requests_arrive sources c s n : length sources = 16%nat -> in_use c -> shows c s -> (8 <= n)%nat ->
  exists c' out, chip_acts sources (replicate n (K_out Cmd_port 0x20)) c = Ret (c', out) /\
    sends out = deliver (offset c) <$> waiting s.
Proof.
  intros Hsrc Hu Hs Hn.
  destruct (chip_simulates sources (replicate n (L_eoi None)) c s Hsrc Hu Hs) as (c' & out & H1 & H2 & _ & _); [by apply Forall_replicate|].
  rewrite fmap_replicate in H1. exists c', out. split; [exact H1|]. rewrite H2, sv_drain; [done|].
  rewrite (sh_waiting _ _ Hs). etransitivity; [|exact Hn]. unfold bits. rewrite length_filter. by rewrite length_seqZ.
Qed.


(** ** Initialisation *)

(** Commands that are not the first word of an initialisation. *)
Definition commands_only (l : list chip_op) : Prop :=
  Forall (fun o => exists v, o = K_out Cmd_port v /\ Z.land (u8 v) 0x10 = 0) l.

Lemma commands_ignored sources l c : commands_only l -> expect c <> ICW1 -> chip_acts sources l c = Ret (c, []).
Proof.
  intros Hl He. induction Hl as [|o l (v & -> & Hv) _ IH]; cbn [chip_acts]; [done|].
  cbn [chip_act]. unfold io_out, handle_command_write. cbn [negb Z.eqb Cmd_port]. rewrite Hv, (bool_decide_eq_false_2 _ He).
  cbn. by rewrite IH.
Qed.

Lemma chip_acts_app sources l l' c : chip_acts sources (l ++ l') c =
  '(c, out) ← chip_acts sources l c; '(c, rest) ← chip_acts sources l' c; Ret (c, out ++ rest).
Proof.
  revert c. induction l as [|o l IH]; intros c; cbn [app chip_acts].
  { cbn. by destruct (chip_acts sources l' c) as [[? ?]| | | | |]. }
  destruct (chip_act sources o c) as [[c1 out]| | | | |]; cbn; try done. rewrite IH.
  destruct (chip_acts sources l c1) as [[c2 o2]| | | | |]; cbn; try done.
  destruct (chip_acts sources l' c2) as [[c3 o3]| | | | |]; cbn; try done. by rewrite app_assoc.
Qed.

(** One word of the sequence, and commands behind it. *)
Lemma init_word sources port v l c c1 : chip_act sources (K_out port v) c = Ret (c1, []) -> commands_only l ->
  expect c1 <> ICW1 -> chip_acts sources (K_out port v :: l) c = Ret (c1, []).
Proof. intros H1 Hl He. cbn [chip_acts]. rewrite H1. cbn. by rewrite commands_ignored. Qed.

Lemma icw1_step sources w c : Z.land (u8 w) 0x10 <> 0 ->
  chip_act sources (K_out Cmd_port w) c = Ret (set_expect ICW2 (set_icw1 (u8 w) (reset c)), []).
Proof.
  intros H. cbn [chip_act]. unfold io_out, handle_command_write. cbn [negb Z.eqb Cmd_port]. by rewrite (proj2 (Z.eqb_neq _ _) H).
Qed.

Lemma icw2_step sources v c : expect c = ICW2 -> icw1_single (icw1 c) = false ->
  chip_act sources (K_out Data_port v) c = Ret (set_expect ICW3 (set_offset (u8 v) c), []).
Proof. intros He Hs. cbn [chip_act]. unfold io_out, handle_data_write. rewrite He. cbn [icw1 set_offset]. by rewrite Hs. Qed.

Lemma icw3_step sources v c : expect c = ICW3 -> icw1_icw4 (icw1 c) = true ->
  chip_act sources (K_out Data_port v) c = Ret (set_expect ICW4 (set_slave_at (u8 v) c), []).
Proof. intros He Hs. cbn [chip_act]. unfold io_out, handle_data_write. rewrite He. cbn [icw1 set_slave_at]. by rewrite Hs. Qed.

(** Whatever state a chip is in, the four words of the initialisation bring it into use
    with the vectors, the cascade line and the mode they name; other commands in between
    have no effect, and no interrupt is sent. *)
Theorem chip_programmed sources c w1 off cascade w4 l1 l2 l3 :
  Z.land (u8 w1) 0x10 <> 0 -> icw1_icw4 (u8 w1) = true -> icw1_single (u8 w1) = false ->
  commands_only l1 -> commands_only l2 -> commands_only l3 ->
  chip_acts sources (K_out Cmd_port w1 :: l1 ++ K_out Data_port off :: l2 ++ K_out Data_port cascade :: l3 ++ [K_out Data_port w4]) c =
  Ret ({| read_isr := false; isr := 0; irr := 0; imr := 0; expect := ICW1; offset := u8 off; slave_at := u8 cascade;
          icw1 := u8 w1; icw4 := u8 w4; is_master := is_master c |}, []).
Proof.
  intros H1 H4 Hsg Hl1 Hl2 Hl3.
  change (K_out Cmd_port w1 :: l1 ++ K_out Data_port off :: l2 ++ K_out Data_port cascade :: l3 ++ [K_out Data_port w4])
    with ((K_out Cmd_port w1 :: l1) ++ (K_out Data_port off :: l2) ++ (K_out Data_port cascade :: l3) ++ [K_out Data_port w4]).
  rewrite chip_acts_app, (init_word _ _ _ _ _ _ (icw1_step _ _ _ H1)) by done. cbn [mbind run_bind].
  rewrite chip_acts_app. erewrite init_word; [|by apply icw2_step|done|done]. cbn [mbind run_bind].
  rewrite chip_acts_app. erewrite init_word; [|by apply icw3_step|done|done]. done.
Qed.

(** ** Examples *)

Module Pic_example.

Definition none16 : list bool := replicate 16 false.

(** The words an operating system writes to the first chip. *)
Definition program : list chip_op :=
  [K_out Cmd_port 0x11; K_out Data_port 0x30; K_out Data_port 4; K_out Data_port 1].

Definition used : chip :=
  {| read_isr := false; isr := 0; irr := 0; imr := 0; expect := ICW1; offset := 0x30; slave_at := 4; icw1 := 0x11;
     icw4 := 1; is_master := true |}.

Lemma chip_programmed_witness :
  chip_acts none16 (K_out Cmd_port 0x11 :: [K_out Cmd_port 0x20] ++ K_out Data_port 0x30 :: [] ++ K_out Data_port 4 :: [] ++ [K_out Data_port 1])
    (chip_new true) = Ret (used, []).
Proof.
  refine (chip_programmed none16 (chip_new true) 0x11 0x30 4 1 [K_out Cmd_port 0x20] [] [] _ _ _ _ _ _);
    [vm_compute; discriminate|reflexivity|reflexivity| |constructor|constructor].
  constructor; [by exists 0x20|constructor].
Defined.

Lemma used_in_use : in_use used.
Proof. split; [split|..]; cbn; try done; try (unfold in_u; lia). Qed.

(** Three lines while one is in service. *)
Definition line_ops : list line_op := [L_raise 3; L_raise 6; L_raise 1; L_raise 6; L_eoi None; L_eoi (Some 1); L_eoi (Some 6)].

Lemma line_ops_ok : Forall line_ok line_ops.
Proof. repeat (constructor; [cbn; lia|]). constructor. Qed.

Lemma used_shows : shows used {| in_service := None; waiting := [] |}.
Proof. split; vm_compute; reflexivity. Qed.

Example line_ops_run : exists c, chip_acts none16 (to_chip <$> line_ops) used = Ret (c, deliver 0x30 <$> [3; 1; 6]).
Proof. eexists. vm_compute. reflexivity. Qed.


Lemma one_in_service_witness :
  exists c' out, chip_acts none16 [K_raise 3; K_out Data_port 0; K_raise 1] used = Ret (c', out) /\ (length out <= 1)%nat.
Proof.
  refine (one_in_service none16 [K_raise 3; K_out Data_port 0; K_raise 1] used (iu_ok _ used_in_use) eq_refl eq_refl _).
  repeat (constructor; [cbn; (lia || done)|]). constructor.
Defined.

Definition actions : list action := [A_bind 5 true; A_out true 0 0x11; A_raise 5; A_out true 1 0x30; A_raise 9].

Lemma pic_invariant_witness :
  pic_ok pic_new /\
  match acts actions pic_new with
  | Ret (p', _) => pic_ok p'
  | Raised => exists irq, A_bind irq true ∈ actions
  | _ => False
  end.
Proof.
  split; [exact pic_new_ok|]. refine (pic_invariant actions pic_new pic_new_ok _).
  repeat (constructor; [cbn; (lia || done)|]). constructor.
Defined.

(** ** What goes wrong *)

(** Lines 0 and 1 wait and line 0 is masked: the next interrupt is that of line 0. *)
Theorem masked_line_delivered : exists c,
  chip_acts none16 [K_raise 5; K_raise 0; K_raise 1; K_out Data_port 1; K_out Cmd_port 0x20] used =
  Ret (c, deliver 0x30 <$> [5; 0]) /\ imr c = 1.
Proof. eexists. vm_compute. split; reflexivity. Qed.

(** In the mode without ends of interrupts, a line that was masked when it was raised is
    put into service when it is unmasked, and no line is delivered any more. *)
Theorem automatic_mode_blocks : exists c c',
  chip_acts none16 [K_out Data_port 1; K_raise 0; K_out Data_port 0] (set_icw4 3 used) = Ret (c, deliver 0x30 <$> [0]) /\
  chip_acts none16 [K_raise 1; K_raise 2; K_raise 0] c = Ret (c', []).
Proof. eexists _, _. vm_compute. split; reflexivity. Qed.

(** Line 5 is in service: the end of the interrupt is told to the source of line 0. *)
Theorem wrong_source_told : exists c,
  chip_acts (replicate 16 true) [K_raise 5; K_out Cmd_port 0x20] used = Ret (c, [deliver 0x30 5; E_eoi 0]).
Proof. eexists. vm_compute. reflexivity. Qed.

(** With vectors below 32 a line is put into service, but nothing is sent. *)
Theorem low_vectors_block : exists c,
  chip_acts none16 [K_raise 5; K_raise 6] (set_offset 8 used) = Ret (c, []) /\ isr c = 2 ^ 5.
Proof. eexists. vm_compute. split; reflexivity. Qed.

(** The vector wraps around to those of exceptions. *)
Theorem vector_wraps : exists c,
  chip_acts none16 [K_raise 7] (set_offset 0xfc used) = Ret (c, [E_send 0xfee00000 0x703]).
Proof. eexists. vm_compute. reflexivity. Qed.

End Pic_example.
